(* ===== verification/_CoqProject ===== *)
-Q . S2P
Prelude.v
Bits.v
CollTypes.v
CollPlan.v
CollCodec.v
CollTree.v
CollReduce.v
CollReorder.v
CollRuntime.v
HbmAddressMap.v
MsgWire.v
DteUnit.v
Json.v
D2DConfig.v
DieTopology.v
PortSelect.v
HostAttach.v
HbmMemWire.v
Routing.v
SafAdmission.v
LinkGroup.v
Behavioral.v
D2DStats.v
D2DLink.v
D2DLine.v
D2DSaf.v
D2DSafety.v
HbmNetwork.v
Router.v
RouterFlow.v
HbmAssembly.v
HbmEndpoint.v
HbmAccess.v
HbmCarriers.v
SramManager.v
MemSystem.v
Workload.v
Proc.v
DteAsync.v
DteAsyncInv.v
DteSystem.v
