(* ===== verification/Prelude.v ===== *)
(** WaferAI-SIM: the mechanisms of the wafer-scale network simulator.

    The program under [src/llm/] simulates a machine of [DIE_X] by [DIE_Y] dies,
    each a mesh of [GRID_X] by [GRID_Y] cores.  The SystemC processes of the
    simulator call a body of plain C++ that decides what happens: which collective
    steps a group runs, which port and link a packet takes, how much buffer a flow
    may hold, which DMA descriptor runs next.  This development models that body,
    file by file, and proves what its callers rely on.

    Conventions.

    - A function that may throw returns a [result]: [Ok] or [Err] with the class of
      the exception and the start of its message.  Where the C++ changes state and
      then throws, the model returns the state and the exception.
    - The file-scope variables and members an operation touches are a record that
      is passed in and returned; [std::map] is [gmap], [std::set] is [gset],
      [std::vector] and [std::deque] are lists.
    - A machine integer is a [Z].  Where the code may wrap or narrow, the
      conversion is written out ([u8] to [u64], [i32], [i64]); where a check keeps
      it in range, the check is part of the model and the range part of the
      statement.  Wire words are [Z] with bit ranges ([Bits]).
    - A loop that is not structural has fuel.  The bound is a quantity of the
      program, a distance between dies or a number of descriptors, and a theorem
      shows that it is enough; running out is a separate exception that the
      theorems exclude.

    Files.

    Collectives ([include/dte/coll_*.h], [src/dte/coll_*.cpp]):
    - [CollTypes]: descriptors, their validation, rank slices, latency formulas.
    - [CollPlan]: the planner, and plans as steps that send and receive; plans are
      executed under any order of the steps that are ready.
    - [CollCodec]: the byte and flit formats of descriptors and data headers.
    - [CollTree]: distribution trees, their registry, and the fork of a flit.
    - [CollReduce]: matching of operands of an in-network reduction.
    - [CollReorder]: the buffer that delivers a gather in rank order.
    - [CollRuntime]: barriers, arrival of gathers and reductions at a core.

    Memory and wire formats:
    - [Bits]: bit ranges of words.
    - [MsgWire]: the 256-bit flit of a message, packet counts, payload sizes
      ([src/utils/msg_utils.cpp], [include/common/msg.h]).
    - [HbmAddressMap]: addresses to die, stack, channel
      ([src/memory/hbm_address_map.cpp]).
    - [HbmMemWire]: flits of a memory transaction ([src/memory/hbm_mem_wire.cpp]).

    DMA engine ([src/dte/]):
    - [DteUnit]: descriptors, queues, channels and completion of a DMA unit, as a
      step relation over calls and cycles ([dte_unit.cpp]).
    - [Proc]: procedures of a process that wait in the middle, how they run from one
      wait to the next, and a logic for them.
    - [DteAsync]: the tracker of asynchronous transfers, its groups and the process
      that flushes them ([dte_async.cpp]), as procedures of [Proc].
    - [DteAsyncInv]: its invariant, kept by every operation across its waits.
    - [DteSystem]: the core, the flushing process, the engine and its other users
      together; what a hazard is, in bytes.

    Dies, ports and links ([include/die/port.h], [src/die/port_config.cpp]):
    - [Json]: the values of a configuration document, as far as the parsers look; a
      floating-point number is its exact value.
    - [D2DConfig]: the parser of the link configuration and its contract.
    - [DieTopology]: geometry, placement of ports, directed links.
    - [PortSelect]: the exit port of a flow, with the pins of the dynamic policy.
    - [HostAttach]: lanes between cores and the host.
    - [Routing]: the next hop of a flit and the delivery of a packet across dies
      ([src/utils/router_utils.cpp], parts of [src/router/router.cpp]).
    - [SafAdmission]: room for a whole flow on every link of its path, reserved at
      once and released link by link.
    - [LinkGroup]: the round robin of links that share a lane.
    - [Behavioral]: the estimate of a flow without simulating its flits
      ([include/die/behavioral.h]).
    - [D2DStats], [D2DLink]: the statistics and the clocked unit of a directed link,
      one cycle at a time, in its four modes ([src/die/d2d_link.cpp]).
    - [D2DLine], [D2DSaf], [D2DSafety]: runs of a link: the delay line, the pipeline
      that stores whole flows, and the pipeline under reservations.

    Router:
    - [Router]: one pass of [router_execute] ([src/router/router.cpp]).
    - [RouterFlow]: what a pass does to the flits in its queues, and to the books that
      it keeps of reductions and of the memory network, as a list of events.

    Distributed memory ([src/memory/]):
    - [MemSystem]: the parser of the memory system, the placement and validation of
      the MEM ports, the routes, and the endpoints of a run ([hbm_runtime.cpp], parts
      of [hbm_address_map.cpp] and of [src/die/port_config.cpp]).
    - [HbmNetwork]: the transport of transactions over the routers
      ([hbm_network.cpp]); [HbmAssembly]: the assembly of their flits.
    - [HbmEndpoint]: an endpoint, its two processes and the behavioural backend.
    - [HbmAccess]: the adapter of a core ([core_mem_adapter.cpp]) over the interface
      [Transport] of carriers; [HbmCarriers]: its instances.
    - [SramManager]: the blocks of the scratchpad of a core
      ([include/unit_module/sram_manager/sram_manager.cpp]).

    Workloads:
    - [Workload]: the translation of a workload to global core ids and its structural
      check ([src/monitor/workload_normalize.cpp]).

    How the parts meet.

    A configuration document is parsed by [D2DConfig] and [DieTopology]; their type
    theorems ([link_config_contract], [die_ports_wf], [d2d_links_correct]) give the
    well-formedness that [PortSelect], [HostAttach], [Routing] and [SafAdmission]
    take as [machine_wf] or [table_wf].  [Routing.packet_delivery] composes the
    ports, the links and the flit format: a data packet reaches its core in a
    bounded number of hops.  [SafAdmission] reserves along the path of the same
    routing functions, and its ledger invariant is what the link of [D2DLink] uses:
    [D2DSafety] joins the ledgers of all flows with the cycles of one link.  [Router]
    calls the routing functions, the forks of [CollTree], the reduction of
    [CollReduce] and the memory agents of [HbmNetwork] in one pass.
    [CollPlan.plan_refines_schedule] relates plans to the abstract schedule of a
    collective; [CollTree] and [CollReduce] are the in-network forms of the same
    collectives.

    The tables and endpoints that an accepted [MemSystem] sets up are those an access
    needs: every address that decodes has an endpoint, and a MEM port under its stack.  An
    access of [HbmAccess] is proved against the class [Transport], which promises one
    flat memory; [HbmCarriers] discharges it for the endpoints called directly and for
    the endpoints behind the network, where the exchange of [HbmNetwork] meets the
    assembly of [HbmAssembly] and the wire format of [HbmMemWire].

    [DteAsync] calls the operations of [DteUnit]; its invariant is stated over the
    engine's invariant, and what the engine, its other users and the flushing process
    may do during a wait is the relation [others], which every step of the engine
    satisfies because its transfers only advance.

    Groups of theorems.

    Contracts of parsers and validators (type and equivalence theorems); wire
    formats (round trips, injectivity, rejection of everything else); accounting
    (buffers, pins, ledgers, blocks: invariants of all operations); scheduling (no
    deadlock, fairness, completion, exactly once); routing (delivery, exclusion,
    bounds); the flow of flits through a link and a router (first in first out,
    nothing lost, repeated or made up, no memory flit gone that the network did not
    accept, no reduction result without its operands); memory (one flat memory behind the split, the map, the
    wire and the endpoints); processes that wait (safety under every interleaving).

    Fuel and bounds.

    The scheduler of [DteUnit] has more fuel than its measure, which falls with every
    round; walks between dies have one step for each unit of distance; the searches of
    [CollTree] have one step for each entry; the chunks of an access are at least a
    byte.  Procedures of [Proc] are finite: every loop in them is over a list that is
    fixed when it starts.

    Some theorems carry a bound of the code: the asynchronous transfers of [DteSystem] are
    safe when groups and limited descriptors are not both configured ([flush_race] shows
    why); the blocks of [SramManager] are kept while ids, which are floats, are below
    [2^24] ([id_limit_leaks]); the layouts of [MemSystem] are those whose sums and tile numbers
    fit in an [int]; the behavioural route of [Behavioral] is the reserved path when the
    port selection is static; and [CollTree] accepts what the code accepts, ids in range
    where its message speaks of the mesh ([row_wrap_accepted], [two_parents_accepted]).

    Not modelled.

    The SystemC kernel itself (events, delta cycles): a component is modelled as
    the function its process runs per cycle or per call, or as a procedure whose waits
    are explicit.  The JSON library is third-party code; the parsers take its values.
    DRAMSys, the trace analyser and the JSON sources under [src/DRAMSys] are vendored.
    Rates in floating point (the stream time of a backend, the energy and area of the
    DMA engine) are parameters or left out.  The primitives (the operators of
    a neural network and their cost formulas), the loop that fetches and times them,
    the construction of workloads from documents, the GPU cache, the timing loops of
    [src/utils/memory_utils.cpp], the older chip-to-chip links, tracing, printing and
    the self tests are not modelled: they compute times from tables or report, and the
    mechanisms above do not depend on their values. *)

From Stdlib Require Export ZArith Lia Bool String.
From stdpp Require Export base numbers list list_numbers gmap sorting strings option.
#[global] Open Scope Z_scope.

(** ** Exceptions and the error monad

    A C++ function that may throw returns a [result]: [Ok] with its value, or
    [Err] with the exception, whose constructor is the standard exception
    class and whose argument is the start of its message. *)

Inductive exn : Type :=
  | invalid_argument (what : string)
  | runtime_error (what : string)
  | overflow_error (what : string)
  | out_of_range (what : string)
  | length_error (what : string)
  | logic_error (what : string)
  | json_error (what : string).

Inductive result (A : Type) : Type :=
  | Ok (a : A)
  | Err (e : exn).
Arguments Ok {A} a.
Arguments Err {A} e.

#[export] Instance exn_eq_dec : EqDecision exn.
Proof. solve_decision. Defined.

#[export] Instance result_eq_dec {A} `{EqDecision A} : EqDecision (result A).
Proof. solve_decision. Defined.

#[export] Instance result_ret : MRet result := fun A a => Ok a.
#[export] Instance result_bind : MBind result := fun A B f m =>
  match m with Ok a => f a | Err e => Err e end.
#[export] Instance result_fmap : FMap result := fun A B f m =>
  match m with Ok a => Ok (f a) | Err e => Err e end.

Definition is_ok {A} (r : result A) : bool :=
  match r with Ok _ => true | Err _ => false end.

(** [if (b) throw e;] *)
Definition throw_if (b : bool) (e : exn) : result unit :=
  if b then Err e else Ok tt.

Declare Scope cpp_scope.
Delimit Scope cpp_scope with cpp.
Notation "'THROW' e 'WHEN' b ;; k" := (throw_if b e ≫= fun _ => k)
  (at level 100, e at level 40, b at level 98, k at level 200, right associativity) : cpp_scope.
#[global] Open Scope cpp_scope.

(** A loop with an accumulator whose body may throw. *)
Fixpoint foldM {S A} (f : S -> A -> result S) (s : S) (l : list A) : result S :=
  match l with
  | [] => Ok s
  | x :: l' => match f s x with Ok s' => foldM f s' l' | Err e => Err e end
  end.

Lemma throw_if_ok b e u : throw_if b e = Ok u -> b = false.
Proof. by destruct b. Qed.

Lemma bind_ok {A B} (m : result A) (f : A -> result B) b :
  m ≫= f = Ok b <-> exists a, m = Ok a /\ f a = Ok b.
Proof.
  split; [|by intros (a & -> & ?)].
  destruct m as [a|e]; cbn; [eauto|done].
Qed.

Lemma throw_bind_ok {B} b e (k : unit -> result B) x :
  throw_if b e ≫= k = Ok x <-> b = false /\ k tt = Ok x.
Proof. destruct b; cbn; intuition congruence. Qed.

Lemma throw_bind_false {B} b e (k : unit -> result B) :
  b = false -> throw_if b e ≫= k = k tt.
Proof. by intros ->. Qed.

(** [inv_ok] takes apart a hypothesis [e = Ok x] built from the monad. *)
Ltac inv_ok_step :=
  match goal with
  | H : Ok _ = Ok _ |- _ => injection H as H
  | H : Err _ = Ok _ |- _ => discriminate H
  | H : mret _ = Ok _ |- _ => change (mret ?x) with (Ok x) in H
  | H : throw_if _ _ ≫= _ = Ok _ |- _ =>
      let Hg := fresh "Hguard" in apply throw_bind_ok in H; destruct H as [Hg H]
  | H : _ ≫= _ = Ok _ |- _ =>
      let a := fresh "r" in let Ha := fresh "Hr" in
      apply bind_ok in H; destruct H as (a & Ha & H)
  | H : throw_if _ _ = Ok _ |- _ => apply throw_if_ok in H
  end.
Ltac inv_ok := repeat (inv_ok_step; cbn beta iota in * ); simplify_eq.

(** The guards that [inv_ok] leaves, as propositions. *)
Ltac split_guards :=
  repeat match goal with
  | H : _ || _ = false |- _ => apply orb_false_elim in H; destruct H
  | H : _ && _ = true |- _ => apply andb_prop in H; destruct H
  | H : negb _ = false |- _ => apply negb_false_iff in H
  | H : negb _ = true |- _ => apply negb_true_iff in H
  | H : (_ =? _) = true |- _ => apply Z.eqb_eq in H
  | H : (_ =? _) = false |- _ => apply Z.eqb_neq in H
  | H : (_ <? _) = false |- _ => apply Z.ltb_ge in H
  | H : (_ <=? _) = false |- _ => apply Z.leb_gt in H
  | H : (_ <? _) = true |- _ => apply Z.ltb_lt in H
  | H : (_ <=? _) = true |- _ => apply Z.leb_le in H
  end.

Lemma foldM_app {S A} (f : S -> A -> result S) s l1 l2 :
  foldM f s (l1 ++ l2) = foldM f s l1 ≫= fun s' => foldM f s' l2.
Proof. revert s; induction l1 as [|x l1 IH]; intros s; cbn; [done|]. destruct (f s x); [apply IH|done]. Qed.

Lemma foldM_inv {S A} (f : S -> A -> result S) (I : S -> Prop) l s s' :
  (forall s x s', x ∈ l -> I s -> f s x = Ok s' -> I s') ->
  I s -> foldM f s l = Ok s' -> I s'.
Proof.
  revert s; induction l as [|x l IH]; intros s Hf HI H; cbn in H; [by simplify_eq|].
  destruct (f s x) as [s1|] eqn:E; [|done].
  eapply IH; [|eapply Hf; [left|exact HI|exact E]|exact H].
  intros; eapply Hf; eauto. by right.
Qed.

(** Invariant of a loop that also knows the prefix already processed. *)
Lemma foldM_prefix_inv {S A} (f : S -> A -> result S) (I : list A -> S -> Prop) l s s' :
  (forall pre x post s s', l = pre ++ x :: post -> I pre s -> f s x = Ok s' -> I (pre ++ [x]) s') ->
  I [] s -> foldM f s l = Ok s' -> I l s'.
Proof.
  intros Hf HI.
  enough (forall post pre s, l = pre ++ post -> I pre s -> foldM f s post = Ok s' -> I l s') as Hgen
    by (intros; eapply (Hgen l []); eauto).
  induction post as [|x post IH]; intros pre t Hl Ht H; cbn in H.
  - simplify_eq. by rewrite app_nil_r.
  - destruct (f t x) as [t1|] eqn:E; [|done].
    eapply (IH (pre ++ [x])); [by rewrite <- app_assoc|by eapply Hf|done].
Qed.

(** A loop whose body never throws under an invariant. *)
Lemma foldM_total_prefix {S A} (f : S -> A -> result S) (I : list A -> S -> Prop) l s :
  (forall pre x post s, l = pre ++ x :: post -> I pre s -> exists s', f s x = Ok s' /\ I (pre ++ [x]) s') ->
  I [] s -> exists s', foldM f s l = Ok s' /\ I l s'.
Proof.
  intros Hf HI.
  enough (forall post pre s, l = pre ++ post -> I pre s -> exists s', foldM f s post = Ok s' /\ I l s') as Hgen
    by (by apply (Hgen l [])).
  induction post as [|x post IH]; intros pre t Hl Ht; cbn.
  - exists t. split; [done|]. by rewrite Hl, app_nil_r.
  - destruct (Hf pre x post t Hl Ht) as (t1 & -> & Ht1).
    apply (IH (pre ++ [x])); [by rewrite <- app_assoc|done].
Qed.

Lemma foldM_total {S A} (f : S -> A -> result S) (I : S -> Prop) l s :
  (forall s x, x ∈ l -> I s -> exists s', f s x = Ok s' /\ I s') -> I s -> exists s', foldM f s l = Ok s' /\ I s'.
Proof.
  intros Hf. apply (foldM_total_prefix f (fun _ => I)). intros pre x post t -> Ht. apply Hf; [|done].
  apply elem_of_app; right; left.
Qed.

(** A loop whose state collects facts: what holds after it held before or is
    contributed by an element. *)
Lemma foldM_collects {S A Y} (f : S -> A -> result S) (mem : S -> Y -> Prop) (C : A -> Y -> Prop) l s s' :
  (forall s x s', x ∈ l -> f s x = Ok s' -> forall y, mem s' y <-> mem s y \/ C x y) ->
  foldM f s l = Ok s' -> forall y, mem s' y <-> mem s y \/ exists x, x ∈ l /\ C x y.
Proof.
  revert s; induction l as [|x l IH]; intros s Hf H y; cbn in H.
  - simplify_eq. split; [by left|]. intros [?|(x & Hx & _)]; [done|]. by apply elem_of_nil in Hx.
  - destruct (f s x) as [s1|] eqn:E; [|done].
    rewrite (IH s1 (fun s x s' Hx => Hf s x s' (list_elem_of_further _ _ _ Hx)) H y).
    rewrite (Hf s x s1 (list_elem_of_here _ _) E y). split.
    + intros [[?|?]|(z & Hz & ?)]; [by left|right; exists x; split; [left|done]|].
      right; exists z; split; [by right|done].
    + intros [?|(z & [->|Hz]%elem_of_cons & ?)]; [tauto|tauto|]. right. by exists z.
Qed.

(** A loop succeeds when every body does. *)
Lemma foldM_is_ok {S A} (f : S -> A -> result S) (P : A -> Prop) l s :
  (forall s x, x ∈ l -> is_ok (f s x) = true <-> P x) ->
  is_ok (foldM f s l) = true <-> (forall x, x ∈ l -> P x).
Proof.
  revert s; induction l as [|x l IH]; intros s Hf; cbn.
  - split; [|done]. intros _ x Hx. by apply elem_of_nil in Hx.
  - pose proof (Hf s x (list_elem_of_here _ _)) as Hx. destruct (f s x) as [s1|e] eqn:E; cbn in *.
    + rewrite IH by (intros; apply Hf; by right). split.
      * intros H y [->|Hy]%elem_of_cons; [tauto|by apply H].
      * intros H y Hy. apply H. by right.
    + split; [done|]. intros H. apply Hx. apply H. left.
Qed.

Lemma is_ok_true {A} (r : result A) : is_ok r = true <-> exists a, r = Ok a.
Proof. destruct r; cbn; naive_solver. Qed.

(** ** Machine integers: [Z] with the range and wrap-around written out *)

Definition in_u (w x : Z) : Prop := 0 <= x < 2 ^ w.
Definition wrap (w x : Z) : Z := x mod 2 ^ w.
Notation u8 := (wrap 8).
Notation u16 := (wrap 16).
Notation u32 := (wrap 32).
Notation u64 := (wrap 64).
Definition UINT64_MAX : Z := 2 ^ 64 - 1.
Definition UINT32_MAX : Z := 2 ^ 32 - 1.
Definition UINT16_MAX : Z := 2 ^ 16 - 1.
(** Two's complement of width [w]. *)
Definition swrap (w x : Z) : Z :=
  let y := x mod 2 ^ w in if y <? 2 ^ (w - 1) then y else y - 2 ^ w.
Notation i32 := (swrap 32).
Notation i64 := (swrap 64).

Lemma swrap_range w x : 0 < w -> - 2 ^ (w - 1) <= swrap w x < 2 ^ (w - 1).
Proof.
  intros Hw. unfold swrap. pose proof (Z.mod_pos_bound x (2 ^ w) ltac:(lia)).
  assert (2 ^ w = 2 * 2 ^ (w - 1)) by (rewrite <- Z.pow_succ_r by lia; f_equal; lia).
  destruct (Z.ltb_spec (x mod 2 ^ w) (2 ^ (w - 1))); lia.
Qed.

Lemma swrap_small w x : 0 < w -> - 2 ^ (w - 1) <= x < 2 ^ (w - 1) -> swrap w x = x.
Proof.
  intros Hw Hx. unfold swrap.
  assert (2 ^ w = 2 * 2 ^ (w - 1)) by (rewrite <- Z.pow_succ_r by lia; f_equal; lia).
  destruct (Z_lt_le_dec x 0).
  - rewrite <- (Z_mod_plus_full x 1 (2 ^ w)), Z.mod_small by lia.
    destruct (Z.ltb_spec (x + 1 * 2 ^ w) (2 ^ (w - 1))); lia.
  - rewrite Z.mod_small by lia. destruct (Z.ltb_spec x (2 ^ (w - 1))); lia.
Qed.

Definition INT_MAX : Z := 2 ^ 31 - 1.
Definition INT_MIN : Z := - 2 ^ 31.
(** C++ [bool] converted to an integer. *)
Definition b2z (b : bool) : Z := if b then 1 else 0.

#[export] Instance in_u_dec w x : Decision (in_u w x).
Proof. unfold in_u; apply _. Defined.

Lemma wrap_small w x : in_u w x -> wrap w x = x.
Proof. intros [??]; apply Z.mod_small; lia. Qed.

Lemma wrap_in_u w x : 0 <= w -> in_u w (wrap w x).
Proof. intros; apply Z.mod_pos_bound; lia. Qed.

Lemma wrap_wrap w x : wrap w (wrap w x) = wrap w x.
Proof. unfold wrap; apply Zmod_mod. Qed.

Lemma in_u_mono w w' x : 0 <= w <= w' -> in_u w x -> in_u w' x.
Proof. intros Hw [??]; split; [done|]. pose proof (Z.pow_le_mono_r 2 w w'); lia. Qed.

(** Constants that [lia] must see as numerals. *)
Ltac unfold_widths :=
  unfold UINT64_MAX, UINT32_MAX, UINT16_MAX, INT_MAX, INT_MIN, in_u in *;
  repeat match goal with
  | |- context [2 ^ ?n] => let v := eval vm_compute in (2 ^ n) in
      lazymatch v with Z.pos _ => change (2 ^ n) with v end
  | H : context [2 ^ ?n] |- _ => let v := eval vm_compute in (2 ^ n) in
      lazymatch v with Z.pos _ => change (2 ^ n) with v in H end
  end.
Ltac ulia := unfold_widths; lia.

(** ** Ceiling division *)

Definition ceil_div (a b : Z) : Z := a / b + b2z (negb (a mod b =? 0)).

Lemma ceil_div_spec a b : 0 < b -> a <= b * ceil_div a b < a + b.
Proof.
  intros Hb. unfold ceil_div, b2z.
  pose proof (Z.div_mod a b ltac:(lia)). pose proof (Z.mod_pos_bound a b Hb).
  destruct (Z.eqb_spec (a mod b) 0); cbn; nia.
Qed.

Lemma ceil_div_le_iff a b c : 0 < b -> ceil_div a b <= c <-> a <= b * c.
Proof. intros Hb. pose proof (ceil_div_spec a b Hb). split; nia. Qed.

Lemma ceil_div_unique a b q : 0 < b -> a <= b * q < a + b -> q = ceil_div a b.
Proof. intros Hb Hq. pose proof (ceil_div_spec a b Hb). nia. Qed.

Lemma ceil_div_nonneg a b : 0 < b -> 0 <= a -> 0 <= ceil_div a b.
Proof. intros Hb Ha. pose proof (ceil_div_spec a b Hb). nia. Qed.

Lemma ceil_div_le a b : 0 < b -> 0 <= a -> ceil_div a b <= a.
Proof. intros Hb Ha. apply ceil_div_le_iff; nia. Qed.

Lemma ceil_div_pos a b : 0 < b -> 0 < a -> 0 < ceil_div a b.
Proof. intros Hb Ha. pose proof (ceil_div_spec a b Hb). nia. Qed.

Lemma ceil_div_alt a b : 0 < b -> (a + b - 1) / b = ceil_div a b.
Proof.
  intros Hb. apply ceil_div_unique; [done|].
  pose proof (Z.div_mod (a + b - 1) b ltac:(lia)).
  pose proof (Z.mod_pos_bound (a + b - 1) b Hb). nia.
Qed.

#[export] Hint Resolve ceil_div_nonneg ceil_div_le ceil_div_pos : cpp.

(** ** Sums over maps *)

Section map_sum.
Context {K A : Type} `{Countable K} (g : A -> Z).

Definition map_sum (m : gmap K A) : Z := map_fold (fun _ x acc => g x + acc) 0 m.

Lemma map_sum_empty : map_sum ∅ = 0.
Proof. done. Qed.

Lemma map_sum_insert m k x : m !! k = None -> map_sum (<[k := x]> m) = g x + map_sum m.
Proof. intros Hk. unfold map_sum. apply (map_fold_insert_L (fun _ x acc => g x + acc)); [intros; lia|done]. Qed.

Lemma map_sum_delete m k x : m !! k = Some x -> map_sum m = g x + map_sum (delete k m).
Proof. intros Hk. unfold map_sum. apply (map_fold_delete_L (fun _ x acc => g x + acc)); [intros; lia|done]. Qed.

Lemma map_sum_update m k x y : m !! k = Some x -> map_sum (<[k := y]> m) = map_sum m - g x + g y.
Proof.
  intros Hk. rewrite (map_sum_delete m k x Hk), <- insert_delete_eq.
  rewrite map_sum_insert by apply lookup_delete_eq. lia.
Qed.

Lemma map_sum_nonneg m : (forall k x, m !! k = Some x -> 0 <= g x) -> 0 <= map_sum m.
Proof.
  induction m as [|k x m Hk IH] using map_ind; intros Hg; [done|].
  rewrite map_sum_insert by done.
  pose proof (Hg k x (lookup_insert_eq _ _ _)).
  assert (0 <= map_sum m); [|lia]. apply IH. intros k' y Hy. apply (Hg k').
  rewrite lookup_insert_ne; [done|]. intros ->. congruence.
Qed.

Lemma map_sum_elem_le m k x : (forall k x, m !! k = Some x -> 0 <= g x) -> m !! k = Some x -> g x <= map_sum m.
Proof.
  intros Hg Hk. rewrite (map_sum_delete m k x Hk).
  assert (0 <= map_sum (delete k m)); [|lia]. apply map_sum_nonneg.
  intros k' y Hy. apply lookup_delete_Some in Hy as [_ Hy]. by eapply Hg.
Qed.
End map_sum.

Lemma map_size_update {K A} `{Countable K} (m : gmap K A) k x y :
  m !! k = Some x -> size (<[k := y]> m) = size m.
Proof. intros Hk. apply map_size_insert_Some. by eexists. Qed.
