(* ===== verification/Bits.v ===== *)
(** Bit vectors of the wire formats: an [sc_bv<W>] is a [Z] below [2^W], and
    [w.range(hi, lo)] is read by [get] and assigned by [put].  The lemmas say
    how reads and assignments of disjoint ranges commute, and that a vector is
    determined by the values of ranges that tile it. *)

From S2P Require Import Prelude.

(** [w.range(hi, lo).to_uint()] *)
Definition get (w hi lo : Z) : Z := Z.land (Z.shiftr w lo) (Z.ones (hi - lo + 1)).

(** [w.range(hi, lo) = v]: the value is truncated to the range's width. *)
Definition put (w hi lo v : Z) : Z :=
  Z.lor (Z.ldiff w (Z.shiftl (Z.ones (hi - lo + 1)) lo))
        (Z.shiftl (Z.land v (Z.ones (hi - lo + 1))) lo).

(** [w[i] = b] and [w[i].to_bool()] *)
Definition put_bit (w i : Z) (b : bool) : Z := put w i i (b2z b).
Definition get_bit (w i : Z) : bool := Z.testbit w i.

Lemma get_spec w hi lo i : 0 <= lo <= hi -> 0 <= i ->
  Z.testbit (get w hi lo) i = (i <? hi - lo + 1) && Z.testbit w (i + lo).
Proof.
  intros Hr Hi. unfold get. rewrite Z.land_spec, Z.shiftr_spec by lia.
  destruct (Z.ltb_spec i (hi - lo + 1)).
  - rewrite Z.ones_spec_low by lia. by rewrite andb_true_r.
  - rewrite Z.ones_spec_high by lia. by rewrite andb_false_r.
Qed.

Lemma put_spec w hi lo v i : 0 <= lo <= hi -> 0 <= i ->
  Z.testbit (put w hi lo v) i =
    if (lo <=? i) && (i <=? hi) then Z.testbit v (i - lo) else Z.testbit w i.
Proof.
  intros Hr Hi. unfold put. rewrite Z.lor_spec, Z.ldiff_spec, !Z.shiftl_spec by lia.
  destruct (Z.leb_spec lo i) as [Hl|Hl]; cbn.
  - rewrite Z.land_spec. destruct (Z.leb_spec i hi).
    + rewrite Z.ones_spec_low by lia. cbn. by rewrite andb_false_r, andb_true_r.
    + rewrite Z.ones_spec_high by lia. cbn. by rewrite andb_true_r, andb_false_r, orb_false_r.
  - rewrite !(Z.testbit_neg_r _ (i - lo)) by lia. cbn. by rewrite andb_true_r, orb_false_r.
Qed.

(** [bitwise] decides equations between vectors built from the operations. *)
Ltac bitwise :=
  apply Z.bits_inj'; let i := fresh "i" in let Hi := fresh "Hi" in intros i Hi;
  repeat first [rewrite get_spec by lia | rewrite put_spec by lia
               | rewrite Z.land_spec | rewrite Z.lor_spec];
  repeat match goal with
  | |- context [?a <=? ?b] => destruct (Z.leb_spec a b); cbn
  | |- context [?a <? ?b] => destruct (Z.ltb_spec a b); cbn
  end;
  try done; try lia; try (f_equal; lia).

Lemma get_put_same w hi lo v : 0 <= lo <= hi ->
  get (put w hi lo v) hi lo = wrap (hi - lo + 1) v.
Proof.
  intros Hr. unfold wrap. rewrite <- Z.land_ones by lia.
  apply Z.bits_inj'; intros i Hi. rewrite get_spec, put_spec, Z.land_spec by lia.
  destruct (Z.ltb_spec i (hi - lo + 1)).
  - rewrite Z.ones_spec_low, andb_true_r by lia.
    destruct (Z.leb_spec lo (i + lo)), (Z.leb_spec (i + lo) hi); try lia; cbn. f_equal; lia.
  - rewrite Z.ones_spec_high by lia. by rewrite andb_false_r.
Qed.

Lemma get_put_other w hi lo v hi' lo' : 0 <= lo <= hi -> 0 <= lo' <= hi' ->
  hi' < lo \/ hi < lo' ->
  get (put w hi lo v) hi' lo' = get w hi' lo'.
Proof. intros H1 H2 H3. bitwise. Qed.

Lemma get_put_sub w hi lo v hi' lo' : 0 <= lo -> lo <= lo' <= hi' -> hi' <= hi ->
  get (put w hi lo v) hi' lo' = get v (hi' - lo) (lo' - lo).
Proof. intros H1 H2 H3. bitwise. Qed.

Lemma get_0 hi lo : 0 <= lo <= hi -> get 0 hi lo = 0.
Proof. intros. unfold get. by rewrite Z.shiftr_0_l. Qed.

Lemma get_in_u w hi lo : 0 <= lo <= hi -> in_u (hi - lo + 1) (get w hi lo).
Proof. intros H. unfold get, in_u. rewrite Z.land_ones by lia. apply Z.mod_pos_bound; lia. Qed.

Lemma get_div_mod w hi lo : 0 <= lo <= hi -> get w hi lo = (w / 2 ^ lo) mod 2 ^ (hi - lo + 1).
Proof. intros. unfold get. by rewrite Z.land_ones, Z.shiftr_div_pow2 by lia. Qed.

Lemma get_bit_put_other w hi lo v i : 0 <= lo <= hi -> 0 <= i -> i < lo \/ hi < i ->
  get_bit (put w hi lo v) i = get_bit w i.
Proof.
  intros Hr Hi Ho. unfold get_bit. rewrite put_spec by lia.
  destruct (Z.leb_spec lo i), (Z.leb_spec i hi); cbn; try done; lia.
Qed.

Lemma get_bit_put_bit w i b : 0 <= i -> get_bit (put_bit w i b) i = b.
Proof.
  intros Hi. unfold get_bit, put_bit. rewrite put_spec by lia.
  rewrite Z.leb_refl; cbn. rewrite Z.sub_diag. by destruct b.
Qed.

Lemma get_put_bit_other w i b hi lo : 0 <= lo <= hi -> 0 <= i -> i < lo \/ hi < i ->
  get (put_bit w i b) hi lo = get w hi lo.
Proof. intros. apply get_put_other; lia. Qed.

Lemma put_nonneg w hi lo v : 0 <= lo <= hi -> 0 <= w -> 0 <= put w hi lo v.
Proof.
  intros Hr Hw. unfold put. apply Z.lor_nonneg; split.
  - apply Z.ldiff_nonneg; by left.
  - apply Z.shiftl_nonneg. rewrite Z.land_ones by lia. apply Z.mod_pos_bound; lia.
Qed.

Lemma in_u_bits W x : 0 <= W -> 0 <= x ->
  (forall i, W <= i -> Z.testbit x i = false) -> in_u W x.
Proof.
  intros HW Hx Hb. split; [done|].
  assert (x = x mod 2 ^ W) as ->; [|apply Z.mod_pos_bound; lia].
  apply Z.bits_inj'; intros i Hi. destruct (Z.lt_ge_cases i W).
  - by rewrite Z.mod_pow2_bits_low by lia.
  - rewrite Z.mod_pow2_bits_high by lia. by apply Hb.
Qed.

Lemma in_u_testbit W x i : in_u W x -> W <= i -> Z.testbit x i = false.
Proof.
  intros [Hx Hlt] Hi. destruct (Z.eq_dec x 0) as [->|]; [apply Z.bits_0|].
  apply Z.bits_above_log2; [done|]. assert (Z.log2 x < W); [|lia].
  apply Z.log2_lt_pow2; lia.
Qed.

Lemma put_in_u W w hi lo v : 0 <= lo <= hi -> hi < W -> in_u W w -> in_u W (put w hi lo v).
Proof.
  intros Hr Hh Hw. apply in_u_bits; [lia|apply put_nonneg; [lia|apply Hw]|].
  intros i Hi. rewrite put_spec by lia.
  destruct (Z.leb_spec i hi); [lia|]. rewrite andb_false_r.
  by apply (in_u_testbit W).
Qed.

#[export] Hint Rewrite get_put_same get_put_other get_0 get_put_bit_other
  get_bit_put_bit get_bit_put_other using lia : bits.

(** Reads of a vector assembled from disjoint ranges. *)
Ltac read_bits := autorewrite with bits.

(** A vector is determined by its bits, hence by ranges that tile it: read
    bit [i] of both sides through the range that covers it. *)
Lemma get_covers a b hi lo i : 0 <= lo <= hi -> lo <= i <= hi ->
  get a hi lo = get b hi lo -> Z.testbit a i = Z.testbit b i.
Proof.
  intros Hr Hi He. assert (Z.testbit (get a hi lo) (i - lo) = Z.testbit (get b hi lo) (i - lo)) as H
    by (by rewrite He).
  rewrite !get_spec in H by lia. replace (i - lo + lo) with i in H by lia.
  destruct (Z.ltb_spec (i - lo) (hi - lo + 1)); [done|lia].
Qed.

(** [tiles lo W rs]: the ranges [rs] (as [(hi, lo)]) tile [lo, W). *)
Fixpoint tiles (lo W : Z) (rs : list (Z * Z)) : bool :=
  match rs with
  | [] => lo =? W
  | (h, l) :: rs' => (l =? lo) && (l <=? h) && tiles (h + 1) W rs'
  end.

Lemma tiles_ext lo W rs a b : 0 <= lo -> in_u W a -> in_u W b -> tiles lo W rs = true ->
  Forall (fun r => get a r.1 r.2 = get b r.1 r.2) rs ->
  (forall i, 0 <= i < lo -> Z.testbit a i = Z.testbit b i) -> a = b.
Proof.
  intros Hlo Ha Hb. revert lo Hlo.
  induction rs as [|[h l] rs IH]; intros lo Hlo Ht Hf Hlow; cbn in Ht.
  - apply Z.eqb_eq in Ht as ->. apply Z.bits_inj'; intros i Hi.
    destruct (Z.lt_ge_cases i W); [apply Hlow; lia|].
    by rewrite (in_u_testbit W a), (in_u_testbit W b).
  - apply andb_prop in Ht as [[Hl%Z.eqb_eq Hlh%Z.leb_le]%andb_prop Ht]. subst l.
    inversion Hf as [|?? Heq Hf']; subst. cbn in Heq.
    apply (IH (h + 1)); [lia|done|done|]. intros i Hi.
    destruct (Z.lt_ge_cases i lo); [apply Hlow; lia|].
    apply (get_covers a b h lo); [lia|lia|done].
Qed.

Lemma wrap_0 w : wrap w 0 = 0.
Proof. done. Qed.

(** ** Population count of a 64-bit set *)

Definition popcount (x : Z) : Z :=
  Z.of_nat (length (base.filter (fun i => Z.testbit x i = true) (seqZ 0 64))).

Lemma testbit_setbit x c i : 0 <= c -> 0 <= i ->
  Z.testbit (Z.lor x (Z.shiftl 1 c)) i = (c =? i) || Z.testbit x i.
Proof.
  intros Hc Hi. rewrite Z.lor_spec, Z.shiftl_spec by lia.
  destruct (Z.eqb_spec c i) as [->|Hne]; cbn; [by rewrite Z.sub_diag, orb_true_r|].
  destruct (Z.lt_ge_cases i c).
  - by rewrite (Z.testbit_neg_r 1 (i - c)), orb_false_r by lia.
  - rewrite (Z.bits_above_log2 1 (i - c)), orb_false_r by (cbn; lia). done.
Qed.

Lemma land_shiftl_testbit x c : 0 <= c -> (Z.land x (Z.shiftl 1 c) =? 0) = negb (Z.testbit x c).
Proof.
  intros Hc. rewrite Z.shiftl_1_l. destruct (Z.testbit x c) eqn:Hb; cbn.
  - apply Z.eqb_neq. intros H. apply (f_equal (fun y => Z.testbit y c)) in H.
    rewrite Z.land_spec, Z.pow2_bits_true, Hb, Z.bits_0 in H by lia. done.
  - apply Z.eqb_eq. apply Z.bits_inj'; intros i Hi. rewrite Z.land_spec, Z.bits_0.
    destruct (Z.eq_dec i c) as [->|]; [by rewrite Hb|].
    by rewrite Z.pow2_bits_false, andb_false_r by lia.
Qed.

Lemma filter_set_length (P Q : Z -> Prop) `{!forall x, Decision (P x), !forall x, Decision (Q x)} l c :
  NoDup l -> c ∈ l -> ~ P c -> (forall x, x ∈ l -> Q x <-> x = c \/ P x) ->
  length (base.filter Q l) = S (length (base.filter P l)).
Proof.
  induction l as [|x l IH]; intros Hnd Hc Hp HQ; [by apply elem_of_nil in Hc|].
  apply list.NoDup_cons in Hnd as [Hx Hnd]. rewrite !filter_cons.
  destruct (decide (x = c)) as [->|Hne].
  - rewrite (decide_False (P := P c)) by done. rewrite (decide_True (P := Q c)) by (apply HQ; [left|by left]).
    cbn. f_equal. clear IH. assert (forall y, y ∈ l -> Q y <-> P y) as Hl.
    { intros y Hy. rewrite HQ by (by right). split; [intros [->|?]; done|by right]. }
    clear HQ Hc. induction l as [|y l IH]; [done|]. rewrite !filter_cons.
    apply not_elem_of_cons in Hx as [? Hx]. apply list.NoDup_cons in Hnd as [_ Hnd].
    destruct (decide (Q y)) as [Hq|Hq], (decide (P y)) as [Hp'|Hp']; cbn; rewrite ?IH; try done;
      try (intros; apply Hl; by right); exfalso; [apply Hp'|apply Hq]; apply Hl; done || left.
  - apply elem_of_cons in Hc as [->|Hc]; [done|].
    assert (Q x <-> P x) as Hqp by (rewrite HQ by left; split; [intros [->|?]; done|by right]).
    specialize (IH Hnd Hc Hp ltac:(intros; apply HQ; by right)).
    destruct (decide (Q x)), (decide (P x)); cbn; rewrite IH; done || tauto.
Qed.

Lemma popcount_set x c : 0 <= c < 64 -> Z.testbit x c = false ->
  popcount (Z.lor x (Z.shiftl 1 c)) = popcount x + 1.
Proof.
  intros Hc Hb. unfold popcount. rewrite (filter_set_length (fun i => Z.testbit x i = true) _ _ c); [lia| | | |].
  - apply NoDup_seqZ.
  - apply elem_of_seqZ; lia.
  - by rewrite Hb.
  - intros i Hi. apply elem_of_seqZ in Hi. rewrite testbit_setbit by lia.
    destruct (Z.eqb_spec c i); cbn; naive_solver.
Qed.

Lemma popcount_0 : popcount 0 = 0.
Proof. by vm_compute. Qed.
