(* ===== verification/CollTypes.v ===== *)
(** Collective descriptors ([include/dte/coll_types.h]) and the analytic
    latencies ([include/dte/coll_latency.h]): the data of a collective, its
    validation, the partition of a count among ranks and the checked 64-bit
    arithmetic of the cost formulas. *)

From S2P Require Import Prelude.

Inductive CollOp : Type :=
  | P2P | SCATTER | GATHER | BROADCAST | ALLTOALL | ALLGATHER | REDUCE | REDUCESCATTER | ALLREDUCE.
Inductive CollAlgorithm : Type := DIRECT | REDUCE_ROOT_SCATTER | REDUCE_ROOT_BROADCAST.
Inductive CollReduceOp : Type := RO_NONE | SUM | MAX.
Inductive CollDType : Type := UINT8 | INT32 | INT64 | FP32.

#[export] Instance CollOp_eq_dec : EqDecision CollOp.
Proof. solve_decision. Defined.
#[export] Instance CollAlgorithm_eq_dec : EqDecision CollAlgorithm.
Proof. solve_decision. Defined.
#[export] Instance CollReduceOp_eq_dec : EqDecision CollReduceOp.
Proof. solve_decision. Defined.
#[export] Instance CollDType_eq_dec : EqDecision CollDType.
Proof. solve_decision. Defined.

(** [struct CollectiveKey] *)
Record CollectiveKey : Type := mkCollectiveKey {
  group_id : Z; (* uint32_t *)
  collective_id : Z; (* uint32_t *)
  epoch : Z (* uint32_t *)
}.
#[export] Instance CollectiveKey_eq_dec : EqDecision CollectiveKey.
Proof. solve_decision. Defined.
#[export] Instance CollectiveKey_countable : Countable CollectiveKey.
Proof.
  apply (inj_countable' (fun k => (group_id k, collective_id k, epoch k))
    (fun t => mkCollectiveKey t.1.1 t.1.2 t.2)). by intros [].
Defined.

(** [struct PacketKey] *)
Record PacketKey : Type := mkPacketKey {
  pk_collective : CollectiveKey;
  pk_phase_id : Z; (* uint16_t *)
  pk_chunk_id : Z; (* uint32_t *)
  pk_src_rank : Z; (* uint16_t *)
  pk_dst_rank : Z (* uint16_t *)
}.
#[export] Instance PacketKey_eq_dec : EqDecision PacketKey.
Proof. solve_decision. Defined.

(** [struct CollDescriptor] *)
Record CollDescriptor : Type := mkCollDescriptor {
  d_op : CollOp;
  d_algorithm : CollAlgorithm;
  d_dtype : CollDType;
  d_reduce_op : CollReduceOp;
  d_key : CollectiveKey;
  d_group : list Z; (* uint16_t *)
  d_root_rank : Z; (* uint16_t *)
  d_self_rank : Z; (* uint16_t *)
  d_count : Z; (* uint64_t *)
  d_src_addr : Z; (* uint64_t *)
  d_dst_addr : Z; (* uint64_t *)
  d_chunk_bits : Z; (* uint64_t *)
  d_stride_bits : Z; (* uint64_t *)
  d_gather_reorder_depth : Z (* uint32_t *)
}.

(** The fields hold values of their C++ types. *)
Definition key_typed (k : CollectiveKey) : Prop :=
  in_u 32 (group_id k) /\ in_u 32 (collective_id k) /\ in_u 32 (epoch k).
Definition packet_typed (p : PacketKey) : Prop :=
  key_typed (pk_collective p) /\ in_u 16 (pk_phase_id p) /\ in_u 32 (pk_chunk_id p) /\
  in_u 16 (pk_src_rank p) /\ in_u 16 (pk_dst_rank p).
Definition desc_typed (d : CollDescriptor) : Prop :=
  key_typed (d_key d) /\ Forall (in_u 16) (d_group d) /\ in_u 16 (d_root_rank d) /\
  in_u 16 (d_self_rank d) /\ in_u 64 (d_count d) /\ in_u 64 (d_src_addr d) /\ in_u 64 (d_dst_addr d) /\
  in_u 64 (d_chunk_bits d) /\ in_u 64 (d_stride_bits d) /\ in_u 32 (d_gather_reorder_depth d).
#[export] Instance key_typed_dec k : Decision (key_typed k).
Proof. unfold key_typed; apply _. Defined.
#[export] Instance packet_typed_dec p : Decision (packet_typed p).
Proof. unfold packet_typed; apply _. Defined.
#[export] Instance desc_typed_dec d : Decision (desc_typed d).
Proof. unfold desc_typed; apply _. Defined.

Definition CollIsReduction (o : CollOp) : bool :=
  bool_decide (o = REDUCE) || bool_decide (o = REDUCESCATTER) || bool_decide (o = ALLREDUCE).

(** The four enumerators; the trailing [throw] is for values outside the enum. *)
Definition CollDTypeBits (t : CollDType) : Z :=
  match t with UINT8 => 8 | INT32 => 32 | INT64 => 64 | FP32 => 32 end.

(** [std::is_sorted] and [std::adjacent_find != end] *)
Fixpoint is_sorted (l : list Z) : bool :=
  match l with
  | x :: (y :: _) as l' => negb (y <? x) && is_sorted l'
  | _ => true
  end.
Fixpoint has_adjacent (l : list Z) : bool :=
  match l with
  | x :: (y :: _) as l' => (x =? y) || has_adjacent l'
  | _ => false
  end.

Definition group_size (d : CollDescriptor) : Z := Z.of_nat (length (d_group d)).

Definition ValidateCollDescriptor (d : CollDescriptor) : result unit :=
  THROW invalid_argument "collective group must not be empty" WHEN group_size d =? 0;;
  THROW invalid_argument "collective group must be sorted" WHEN negb (is_sorted (d_group d));;
  THROW invalid_argument "collective group contains duplicate core IDs" WHEN has_adjacent (d_group d);;
  THROW invalid_argument "collective rank is outside group"
    WHEN (group_size d <=? d_root_rank d) || (group_size d <=? d_self_rank d);;
  THROW invalid_argument "collective count must be positive" WHEN d_count d =? 0;;
  THROW invalid_argument "collective chunk_bits must be positive" WHEN d_chunk_bits d =? 0;;
  THROW invalid_argument "reduction collective requires reduce_op"
    WHEN CollIsReduction (d_op d) && bool_decide (d_reduce_op d = RO_NONE);;
  THROW invalid_argument "non-reduction collective forbids reduce_op"
    WHEN negb (CollIsReduction (d_op d)) && negb (bool_decide (d_reduce_op d = RO_NONE));;
  THROW invalid_argument "V0 ReduceScatter algorithm is fixed"
    WHEN bool_decide (d_op d = REDUCESCATTER) && negb (bool_decide (d_algorithm d = REDUCE_ROOT_SCATTER));;
  THROW invalid_argument "V0 AllReduce algorithm is fixed"
    WHEN bool_decide (d_op d = ALLREDUCE) && negb (bool_decide (d_algorithm d = REDUCE_ROOT_BROADCAST));;
  THROW invalid_argument "V0 operation requires direct algorithm"
    WHEN negb (bool_decide (d_op d = REDUCESCATTER)) && negb (bool_decide (d_op d = ALLREDUCE)) &&
         negb (bool_decide (d_algorithm d = DIRECT));;
  Ok tt.

Definition ValidateTier0ReductionDescriptor (d : CollDescriptor) : result unit :=
  ValidateCollDescriptor d ≫= fun _ =>
  THROW invalid_argument "Tier0 reduction validator requires reduction op"
    WHEN negb (CollIsReduction (d_op d));;
  THROW invalid_argument "V3 Tier0 reduction does not support fp32 semantics"
    WHEN bool_decide (d_dtype d = FP32);;
  let bits := CollDTypeBits (d_dtype d) in
  THROW invalid_argument "V3 reduction chunk_bits must equal count*dtype_bits"
    WHEN (UINT64_MAX / bits <? d_count d) || negb (d_chunk_bits d =? u64 (d_count d * bits));;
  let align_bytes := bits / 8 in
  THROW invalid_argument "V3 reduction address is not dtype aligned"
    WHEN negb (d_src_addr d mod align_bytes =? 0) || negb (d_dst_addr d mod align_bytes =? 0);;
  Ok tt.

Definition CollTier0ReduceComputeCycles (d : CollDescriptor) (lanes : Z) : result Z :=
  ValidateTier0ReductionDescriptor d ≫= fun _ =>
  THROW invalid_argument "Tier0 reduction lanes must be positive" WHEN lanes =? 0;;
  let peers := u64 (group_size d - 1) in
  THROW overflow_error "Tier0 reduction operation count overflows"
    WHEN negb (peers =? 0) && (UINT64_MAX / peers <? d_count d);;
  let operations := u64 (d_count d * peers) in
  Ok (operations / lanes + b2z (negb (operations mod lanes =? 0))).

(** Elements and first element of [rank] when [count] is split over [ranks]. *)
Definition CollRankCountOffset (count ranks rank : Z) : result (Z * Z) :=
  THROW invalid_argument "invalid collective rank partition" WHEN (ranks =? 0) || (ranks <=? rank);;
  let base := count / ranks in
  let extra := count mod ranks in
  let local := u64 (base + (if rank <? extra then 1 else 0)) in
  let offset := u64 (rank * base + Z.min rank extra) in
  Ok (local, offset).

(** ** Latencies ([coll_latency.h]) *)

Definition CollCeilDiv (value divisor : Z) : result Z :=
  THROW invalid_argument "collective bandwidth must be positive" WHEN divisor =? 0;;
  Ok (value / divisor + b2z (negb (value mod divisor =? 0))).

Definition CollCheckedAdd (a b : Z) : result Z :=
  THROW overflow_error "collective latency overflow" WHEN UINT64_MAX - b <? a;;
  Ok (u64 (a + b)).

Definition CollCheckedMul (a b : Z) : result Z :=
  THROW overflow_error "collective payload overflow"
    WHEN negb (a =? 0) && (UINT64_MAX / a <? b);;
  Ok (u64 (a * b)).

Definition CollUnicastCycles (payload_bits bandwidth_bits_per_cycle network_cycles : Z) : result Z :=
  t ← CollCeilDiv payload_bits bandwidth_bits_per_cycle; CollCheckedAdd t network_cycles.

Definition CollTier0BroadcastCycles
    (ranks message_bits bandwidth_bits_per_cycle network_cycles : Z) : result Z :=
  THROW invalid_argument "broadcast requires at least one rank" WHEN ranks =? 0;;
  m ← CollCheckedMul (ranks - 1) message_bits;
  t ← CollCeilDiv m bandwidth_bits_per_cycle; CollCheckedAdd t network_cycles.

Definition CollTier0ScatterCycles
    (ranks message_bits bandwidth_bits_per_cycle network_cycles : Z) : result Z :=
  THROW invalid_argument "scatter requires at least one rank" WHEN ranks =? 0;;
  t ← CollCeilDiv message_bits bandwidth_bits_per_cycle; CollCheckedAdd t network_cycles.

Definition CollGatherEndpointCycles (commit_cycles : Z) : Z := commit_cycles.
Definition CollReduceEndpointCycles (alignment_cycles : Z) : Z := alignment_cycles.

Definition CollDcaServiceCycles
    (payload_bits compute_cycles bits_per_cycle pipeline_cycles : Z) : result Z :=
  transfer ← CollCeilDiv payload_bits bits_per_cycle;
  CollCheckedAdd (if transfer <? compute_cycles then compute_cycles else transfer) pipeline_cycles.

(** ** Lemmas *)

Lemma sorted_strict l : is_sorted l = true -> has_adjacent l = false -> StronglySorted Z.lt l.
Proof.
  intros Hs Ha. apply Sorted_StronglySorted; [intros ???; lia|].
  induction l as [|x [|y l] IH]; [constructor|repeat constructor|].
  cbn in Hs, Ha. apply andb_prop in Hs as [Hxy Hs]. apply orb_false_elim in Ha as [Hne Ha].
  apply negb_true_iff, Z.ltb_ge in Hxy. apply Z.eqb_neq in Hne.
  constructor; [by apply IH|]. constructor; lia.
Qed.

Lemma strict_sorted l : StronglySorted Z.lt l -> is_sorted l = true /\ has_adjacent l = false.
Proof.
  induction 1 as [|x l Hl [IHs IHa] Hx]; [done|].
  destruct l as [|y l]; [done|]. inversion Hx as [|?? Hxy]; subst.
  split; cbn -[is_sorted has_adjacent].
  - apply andb_true_iff; split; [|done]. apply negb_true_iff, Z.ltb_ge; lia.
  - apply orb_false_iff; split; [|done]. apply Z.eqb_neq; lia.
Qed.

(** What an accepted descriptor satisfies. *)
Record wf_desc (d : CollDescriptor) : Prop := {
  wf_sorted : StronglySorted Z.lt (d_group d);
  wf_root : d_root_rank d < group_size d;
  wf_self : d_self_rank d < group_size d;
  wf_nonempty : 0 < group_size d;
  wf_count : d_count d <> 0;
  wf_chunk : d_chunk_bits d <> 0;
  wf_reduce : CollIsReduction (d_op d) = true <-> d_reduce_op d <> RO_NONE;
  wf_algorithm : d_algorithm d =
    match d_op d with REDUCESCATTER => REDUCE_ROOT_SCATTER
    | ALLREDUCE => REDUCE_ROOT_BROADCAST | _ => DIRECT end
}.

Lemma validate_wf d : ValidateCollDescriptor d = Ok tt -> wf_desc d.
Proof.
  unfold ValidateCollDescriptor. intros H. inv_ok.
  repeat match goal with
  | H : _ || _ = false |- _ => apply orb_false_elim in H; destruct H
  | H : negb _ = false |- _ => apply negb_false_iff in H
  | H : (_ <=? _) = false |- _ => apply Z.leb_gt in H
  | H : (_ =? _) = false |- _ => apply Z.eqb_neq in H
  end.
  assert (0 < group_size d) by (unfold group_size in *; lia).
  split; try done.
  - by apply sorted_strict.
  - destruct (d_op d), (d_reduce_op d); cbn in *; naive_solver.
  - repeat match goal with H : _ = false |- _ =>
      lazymatch type of H with context [d_algorithm d] => revert H | _ => clear H end end.
    destruct (d_op d), (d_algorithm d); vm_compute; congruence.
Qed.

Lemma wf_validate d : wf_desc d -> ValidateCollDescriptor d = Ok tt.
Proof.
  intros [Hs Hr Hself Hne Hc Hb Hred Halg]. apply strict_sorted in Hs as [Hs Ha].
  unfold ValidateCollDescriptor.
  repeat (rewrite throw_bind_false; [|
    first [ apply Z.eqb_neq; lia | by rewrite Hs | done
          | apply orb_false_iff; split; apply Z.leb_gt; done
          | destruct (d_op d), (d_reduce_op d), (d_algorithm d); cbn in *; naive_solver ]]).
  done.
Qed.

Lemma checked_add_spec a b : in_u 64 a -> in_u 64 b ->
  CollCheckedAdd a b = if a + b <=? UINT64_MAX then Ok (a + b)
                       else Err (overflow_error "collective latency overflow").
Proof.
  intros Ha Hb. unfold CollCheckedAdd.
  destruct (Z.leb_spec (a + b) UINT64_MAX), (Z.ltb_spec (UINT64_MAX - b) a); cbn; try ulia; try done.
  rewrite wrap_small; [done|ulia].
Qed.

Lemma checked_mul_guard a b : 0 <= a -> 0 <= b ->
  (negb (a =? 0) && (UINT64_MAX / a <? b)) = (UINT64_MAX <? a * b).
Proof.
  intros Ha Hb. assert (0 <= UINT64_MAX) by ulia. destruct (Z.eqb_spec a 0) as [->|Hne]; cbn.
  - symmetry; apply Z.ltb_ge; lia.
  - destruct (Z.ltb_spec UINT64_MAX (a * b)) as [H1|H1].
    + apply Z.ltb_lt. apply Z.div_lt_upper_bound; lia.
    + apply Z.ltb_ge. apply Z.div_le_lower_bound; lia.
Qed.

Lemma checked_mul_spec a b : in_u 64 a -> in_u 64 b ->
  CollCheckedMul a b = if a * b <=? UINT64_MAX then Ok (a * b)
                       else Err (overflow_error "collective payload overflow").
Proof.
  intros Ha Hb. unfold CollCheckedMul. rewrite checked_mul_guard by (unfold in_u in *; lia).
  rewrite Z.ltb_antisym. destruct (Z.leb_spec (a * b) UINT64_MAX); cbn; [|done].
  rewrite wrap_small; [done|]. unfold in_u in *. split; [nia|ulia].
Qed.

Lemma CollCeilDiv_ok v d : d <> 0 -> CollCeilDiv v d = Ok (ceil_div v d).
Proof. intros Hd. unfold CollCeilDiv. rewrite throw_bind_false; [done|by apply Z.eqb_neq]. Qed.

(** Closed form of the split. *)
Definition rank_local (count ranks rank : Z) : Z :=
  count / ranks + (if rank <? count mod ranks then 1 else 0).
Definition rank_offset (count ranks rank : Z) : Z :=
  rank * (count / ranks) + Z.min rank (count mod ranks).

Lemma rank_offset_step c n r : rank_offset c n (r + 1) = rank_offset c n r + rank_local c n r.
Proof. unfold rank_offset, rank_local. destruct (Z.ltb_spec r (c mod n)); lia. Qed.

Lemma rank_offset_last c n : 0 < n -> rank_offset c n n = c.
Proof.
  intros Hn. unfold rank_offset. pose proof (Z.div_mod c n ltac:(lia)).
  pose proof (Z.mod_pos_bound c n Hn). lia.
Qed.

Lemma rank_offset_bounds c n r : 0 <= c -> 0 <= r <= n -> 0 < n -> 0 <= rank_offset c n r <= c.
Proof.
  intros Hc Hr Hn. rewrite <- (rank_offset_last c n Hn) at 3. unfold rank_offset.
  pose proof (Z.div_pos c n Hc Hn). pose proof (Z.mod_pos_bound c n Hn). nia.
Qed.

Lemma CollRankCountOffset_ok c n r : in_u 64 c -> 0 < n -> 0 <= r < n ->
  CollRankCountOffset c n r = Ok (rank_local c n r, rank_offset c n r).
Proof.
  intros Hc Hn Hr. unfold CollRankCountOffset.
  rewrite throw_bind_false by (apply orb_false_iff; split; [apply Z.eqb_neq|apply Z.leb_gt]; lia).
  pose proof (rank_offset_bounds c n r ltac:(unfold in_u in *; lia) ltac:(lia) Hn).
  pose proof (rank_offset_bounds c n (r + 1) ltac:(unfold in_u in *; lia) ltac:(lia) Hn) as Hb.
  rewrite rank_offset_step in Hb.
  assert (0 <= rank_local c n r).
  { unfold rank_local. pose proof (Z.div_pos c n ltac:(unfold in_u in *; lia) Hn).
    destruct (_ <? _); lia. }
  fold (rank_local c n r). fold (rank_offset c n r).
  rewrite !wrap_small; [done| |]; unfold in_u in *; lia.
Qed.

(** ** Properties *)

(** The validator accepts a descriptor exactly when it is well formed: the
    group is non-empty and strictly increasing, both ranks are inside it, the
    count and the chunk are positive, a reduction operator is given exactly
    for reductions, and the algorithm is the one fixed for the operation. *)
Theorem validate_iff_wf (d : CollDescriptor) : ValidateCollDescriptor d = Ok tt <-> wf_desc d.
Proof. split; [apply validate_wf|apply wf_validate]. Qed.

(** the split of a count among ranks is a partition.  The ranks' parts are
    consecutive intervals starting at 0 and ending at [count], and two parts
    differ by at most one element, without 64-bit wrap-around. *)
Theorem rank_partition (c n : Z) :
  in_u 64 c -> 0 < n ->
  exists local offset : Z -> Z,
    (forall r, 0 <= r < n -> CollRankCountOffset c n r = Ok (local r, offset r)) /\
    offset 0 = 0 /\
    (forall r, 0 <= r -> offset (r + 1) = offset r + local r) /\
    offset (n - 1) + local (n - 1) = c /\
    (forall r r', 0 <= r < n -> 0 <= r' < n -> Z.abs (local r - local r') <= 1) /\
    (forall r, n <= r -> is_ok (CollRankCountOffset c n r) = false).
Proof.
  intros Hc Hn. exists (rank_local c n), (rank_offset c n). repeat split.
  - intros; by apply CollRankCountOffset_ok.
  - unfold rank_offset. pose proof (Z.mod_pos_bound c n Hn). lia.
  - intros; apply rank_offset_step.
  - rewrite <- rank_offset_step. replace (n - 1 + 1) with n by lia. by apply rank_offset_last.
  - intros r r' _ _. unfold rank_local. destruct (r <? _), (r' <? _); lia.
  - intros r Hr. unfold CollRankCountOffset. rewrite (proj2 (Z.leb_le n r)) by lia.
    by rewrite orb_true_r.
Qed.

(** The checked latency formulas.  Each returns the exact rational value
    rounded up, or throws, exactly when the exact value (or the product of the
    broadcast payload) does not fit in 64 bits; no formula ever wraps. *)
Lemma collective_latencies (ranks payload bw net compute : Z) :
  in_u 64 ranks -> in_u 64 payload -> in_u 64 bw -> in_u 64 net -> in_u 64 compute ->
  bw <> 0 -> ranks <> 0 ->
  let fits x := if x <=? UINT64_MAX then Ok x else Err (overflow_error "collective latency overflow") in
  CollUnicastCycles payload bw net = fits (ceil_div payload bw + net) /\
  CollTier0ScatterCycles ranks payload bw net = fits (ceil_div payload bw + net) /\
  CollTier0BroadcastCycles ranks payload bw net =
    (if (ranks - 1) * payload <=? UINT64_MAX
     then fits (ceil_div ((ranks - 1) * payload) bw + net)
     else Err (overflow_error "collective payload overflow")) /\
  CollDcaServiceCycles payload compute bw net = fits (Z.max compute (ceil_div payload bw) + net).
Proof.
  intros Hr Hp Hb Hn Hc Hbw Hrk. cbn zeta.
  assert (forall x, in_u 64 x -> in_u 64 (ceil_div x bw)) as Hceil.
  { intros x [Hx0 Hx]. split; [apply ceil_div_nonneg|]; unfold in_u in *; try lia.
    pose proof (ceil_div_le x bw). lia. }
  unfold CollUnicastCycles, CollTier0ScatterCycles, CollTier0BroadcastCycles, CollDcaServiceCycles.
  rewrite !throw_bind_false by (by apply Z.eqb_neq).
  rewrite !CollCeilDiv_ok by done. cbn [mbind result_bind]. repeat split.
  - apply checked_add_spec; auto.
  - apply checked_add_spec; auto.
  - rewrite checked_mul_spec by (unfold in_u in *; lia).
    destruct (Z.leb_spec ((ranks - 1) * payload) UINT64_MAX); [|done]. cbn [mbind result_bind].
    rewrite CollCeilDiv_ok by done. apply checked_add_spec; [|done].
    apply Hceil. unfold in_u in *. split; [nia|ulia].
  - rewrite checked_add_spec; [|destruct (_ <? _); auto|done].
    destruct (Z.ltb_spec (ceil_div payload bw) compute).
    + by rewrite Z.max_l by lia.
    + by rewrite Z.max_r by lia.
Qed.


(** The compute time of an accepted reduction is the number of pairwise
    operations, [count * (ranks - 1)], divided by the lanes and rounded up; it
    throws exactly when that number does not fit in 64 bits. *)
Lemma reduce_compute_cycles (d : CollDescriptor) (lanes : Z) :
  desc_typed d -> group_size d < 2 ^ 64 -> 0 < lanes ->
  ValidateTier0ReductionDescriptor d = Ok tt ->
  CollTier0ReduceComputeCycles d lanes =
    if d_count d * (group_size d - 1) <=? UINT64_MAX
    then Ok (ceil_div (d_count d * (group_size d - 1)) lanes)
    else Err (overflow_error "Tier0 reduction operation count overflows").
Proof.
  intros Ht Hg Hl Hv. unfold CollTier0ReduceComputeCycles. rewrite Hv. cbn [mbind result_bind].
  rewrite throw_bind_false by (apply Z.eqb_neq; lia).
  apply bind_ok in Hv as ([] & Hv & _). pose proof (wf_nonempty _ (validate_wf _ Hv)) as Hpos.
  rewrite (wrap_small 64 (group_size d - 1)) by (unfold in_u; lia).
  assert (0 <= d_count d) as Hc by apply Ht.
  rewrite checked_mul_guard by lia. rewrite Z.ltb_antisym, (Z.mul_comm (group_size d - 1)).
  destruct (Z.leb_spec (d_count d * (group_size d - 1)) UINT64_MAX); cbn; [|done].
  rewrite wrap_small; [done|]. unfold in_u. split; [nia|ulia].
Qed.

Definition ex_reduce : CollDescriptor :=
  mkCollDescriptor REDUCE DIRECT INT32 SUM (mkCollectiveKey 1 2 3) [4; 7; 9] 1 0 100 64 128 3200 0 0.
