(* ===== verification/CollPlan.v ===== *)
(** The Tier-0 planner ([include/dte/coll_plan.h]): the list of actions each
    rank executes for a collective.  Its contract is an abstract schedule, one
    list of events common to all ranks, of which every rank's plan is the
    projection; the execution of the plans, in which a send meets the receive
    of its peer and a barrier waits for every rank, cannot deadlock. *)

From S2P Require Import Prelude CollTypes.

Inductive CollActionKind : Type := SEND | RECV | BARRIER | REDUCE_COMPUTE.
#[export] Instance CollActionKind_eq_dec : EqDecision CollActionKind.
Proof. solve_decision. Defined.

(** [struct CollAction] *)
Record CollAction : Type := mkCollAction {
  a_kind : CollActionKind;
  a_phase_id : Z; (* uint16_t *)
  a_peer_rank : Z; (* uint16_t *)
  a_payload_bits : Z; (* uint64_t *)
  a_offset_bits : Z (* uint64_t *)
}.
#[export] Instance CollAction_eq_dec : EqDecision CollAction.
Proof. solve_decision. Defined.

(** The lambdas [barrier] and [pair], with the vector [out] passed along. *)
Definition barrier (phase : Z) (out : list CollAction) : list CollAction :=
  out ++ [mkCollAction BARRIER phase 0 0 0].

Definition pair (self_rank phase src dst bits offset : Z) (out : list CollAction)
    : list CollAction :=
  let out := if self_rank =? src
             then out ++ [mkCollAction SEND phase dst bits offset] else out in
  if self_rank =? dst then out ++ [mkCollAction RECV phase src bits offset] else out.

(** [for (uint16_t i = 0; i < n; ++i)] *)
Definition for_rank (n : Z) (body : Z -> list CollAction -> result (list CollAction))
    (out : list CollAction) : result (list CollAction) :=
  foldM (fun out i => body i out) out (seqZ 0 n).

Definition plan_reduction (d : CollDescriptor) (n self_rank : Z) : result (list CollAction) :=
  let root := d_root_rank d in
  ValidateTier0ReductionDescriptor d ≫= fun _ =>
  out ← for_rank n (fun src out =>
    let out := if negb (src =? root)
               then pair self_rank src src root (d_chunk_bits d) 0 out else out in
    Ok (barrier src out)) [];
  let out := if self_rank =? root
             then out ++ [mkCollAction REDUCE_COMPUTE n 0 0 0] else out in
  let out := barrier n out in
  match d_op d with
  | REDUCESCATTER =>
      out ← for_rank n (fun dst out =>
        if negb (dst =? root) then
          part ← CollRankCountOffset (d_count d) n dst;
          Ok (pair self_rank (u16 (n + 1)) root dst
                (u64 (part.1 * CollDTypeBits (d_dtype d)))
                (u64 (part.2 * CollDTypeBits (d_dtype d))) out)
        else Ok out) out;
      Ok (barrier (u16 (n + 1)) out)
  | ALLREDUCE =>
      out ← for_rank n (fun dst out =>
        if negb (dst =? root)
        then Ok (pair self_rank (u16 (n + 1)) root dst (d_chunk_bits d) 0 out) else Ok out) out;
      Ok (barrier (u16 (n + 1)) out)
  | _ => Ok out
  end.

Definition PlanTier0Collective (d : CollDescriptor) (self_rank : Z) : result (list CollAction) :=
  ValidateCollDescriptor d ≫= fun _ =>
  THROW invalid_argument "planner self rank outside group" WHEN group_size d <=? self_rank;;
  let n := u16 (group_size d) in
  let root := d_root_rank d in
  if CollIsReduction (d_op d) then plan_reduction d n self_rank else
  match d_op d with
  | P2P =>
      THROW invalid_argument "P2P requires exactly two ranks" WHEN negb (n =? 2);;
      Ok (barrier 0 (pair self_rank 0 0 1 (d_chunk_bits d) 0 []))
  | BROADCAST | SCATTER =>
      out ← for_rank n (fun dst out =>
        if negb (dst =? root) then
          let offset := if bool_decide (d_op d = SCATTER) then u64 (dst * d_stride_bits d) else 0 in
          Ok (pair self_rank 0 root dst (d_chunk_bits d) offset out)
        else Ok out) [];
      Ok (barrier 0 out)
  | GATHER =>
      for_rank n (fun src out =>
        let out := if negb (src =? root)
                   then pair self_rank src src root (d_chunk_bits d) (u64 (src * d_stride_bits d)) out
                   else out in
        Ok (barrier src out)) []
  | ALLGATHER | ALLTOALL =>
      for_rank n (fun src out =>
        out ← for_rank n (fun dst out =>
          if negb (dst =? src) then
            let offset := if bool_decide (d_op d = ALLTOALL) then u64 (dst * d_stride_bits d)
                          else u64 (src * d_stride_bits d) in
            Ok (pair self_rank src src dst (d_chunk_bits d) offset out)
          else Ok out) out;
        Ok (barrier src out)) []
  | _ => Err (invalid_argument "V1 planner does not implement reduction collectives")
  end.

(** ** The abstract schedule *)

Inductive event : Type :=
  | EPair (phase src dst bits offset : Z)
  | EBarrier (phase : Z)
  | ECompute (phase rank : Z).

Definition project1 (r : Z) (e : event) : list CollAction :=
  match e with
  | EPair ph src dst bits off =>
      (if r =? src then [mkCollAction SEND ph dst bits off] else []) ++
      (if r =? dst then [mkCollAction RECV ph src bits off] else [])
  | EBarrier ph => [mkCollAction BARRIER ph 0 0 0]
  | ECompute ph rank => if r =? rank then [mkCollAction REDUCE_COMPUTE ph 0 0 0] else []
  end.
Definition project (r : Z) (es : list event) : list CollAction := es ≫= project1 r.

Definition peers (n root : Z) (f : Z -> event) : list event :=
  seqZ 0 n ≫= fun i => if negb (i =? root) then [f i] else [].

Definition schedule (d : CollDescriptor) : list event :=
  let n := u16 (group_size d) in
  let root := d_root_rank d in
  let cb := d_chunk_bits d in
  let gather_in off := seqZ 0 n ≫= fun src =>
    (if negb (src =? root) then [EPair src src root cb (off src)] else []) ++ [EBarrier src] in
  let reduced := gather_in (fun _ => 0) ++ [ECompute n root; EBarrier n] in
  match d_op d with
  | P2P => [EPair 0 0 1 cb 0; EBarrier 0]
  | BROADCAST => peers n root (fun dst => EPair 0 root dst cb 0) ++ [EBarrier 0]
  | SCATTER => peers n root (fun dst => EPair 0 root dst cb (u64 (dst * d_stride_bits d))) ++ [EBarrier 0]
  | GATHER => gather_in (fun src => u64 (src * d_stride_bits d))
  | ALLGATHER => seqZ 0 n ≫= fun src =>
      peers n src (fun dst => EPair src src dst cb (u64 (src * d_stride_bits d))) ++ [EBarrier src]
  | ALLTOALL => seqZ 0 n ≫= fun src =>
      peers n src (fun dst => EPair src src dst cb (u64 (dst * d_stride_bits d))) ++ [EBarrier src]
  | REDUCE => reduced
  | REDUCESCATTER => reduced ++ peers n root (fun dst =>
      EPair (u16 (n + 1)) root dst
        (u64 (rank_local (d_count d) n dst * CollDTypeBits (d_dtype d)))
        (u64 (rank_offset (d_count d) n dst * CollDTypeBits (d_dtype d)))) ++ [EBarrier (u16 (n + 1))]
  | ALLREDUCE => reduced ++ peers n root (fun dst => EPair (u16 (n + 1)) root dst cb 0)
      ++ [EBarrier (u16 (n + 1))]
  end.

(** ** Execution of the plans: rendezvous of the heads *)

Definition remaining := Z -> list CollAction.

Inductive exec (n : Z) : remaining -> remaining -> Prop :=
  | exec_pair a b ph bits off s s' :
      0 <= a < n -> 0 <= b < n ->
      s a = mkCollAction SEND ph b bits off :: s' a ->
      s b = mkCollAction RECV ph a bits off :: s' b ->
      (forall r, r <> a -> r <> b -> s' r = s r) -> exec n s s'
  | exec_barrier ph s s' :
      (forall r, 0 <= r < n -> s r = mkCollAction BARRIER ph 0 0 0 :: s' r) -> exec n s s'
  | exec_compute a ph s s' :
      0 <= a < n -> s a = mkCollAction REDUCE_COMPUTE ph 0 0 0 :: s' a ->
      (forall r, r <> a -> s' r = s r) -> exec n s s'.

(** ** Lemmas *)

Lemma project_app r es1 es2 : project r (es1 ++ es2) = project r es1 ++ project r es2.
Proof. unfold project. by rewrite bind_app. Qed.

Lemma project_cons r e es : project r (e :: es) = project1 r e ++ project r es.
Proof. done. Qed.

Lemma barrier_project r ph out : barrier ph out = out ++ project r [EBarrier ph].
Proof. done. Qed.

Lemma pair_project r ph src dst bits off out :
  pair r ph src dst bits off out = out ++ project r [EPair ph src dst bits off].
Proof.
  unfold pair, project; cbn. destruct (r =? src), (r =? dst); cbn;
    rewrite ?app_nil_r, <- ?app_assoc; done.
Qed.

Lemma for_rank_project r n body (f : Z -> list event) out :
  (forall i out, 0 <= i < n -> body i out = Ok (out ++ project r (f i))) ->
  for_rank n body out = Ok (out ++ project r (seqZ 0 n ≫= f)).
Proof.
  intros Hb. unfold for_rank.
  assert (forall i, i ∈ seqZ 0 n -> 0 <= i < n) as Hr by (intros i Hi; apply elem_of_seqZ in Hi; lia).
  revert Hr out. induction (seqZ 0 n) as [|i l IH]; intros Hr out; cbn [foldM].
  - unfold project; cbn. by rewrite app_nil_r.
  - change ((i :: l) ≫= f) with (f i ++ (l ≫= f)). rewrite Hb by (apply Hr; left). rewrite IH by (intros; apply Hr; by right).
    by rewrite project_app, app_assoc.
Qed.

(** Steps of a loop body written with [pair] and [barrier]. *)
Ltac project_body r :=
  intros; cbn beta zeta; cbn [mbind result_bind];
  repeat match goal with |- context [negb (?a =? ?b)] => destruct (a =? b); cbn [negb] end;
  rewrite ?pair_project, ?(barrier_project r), <- ?app_assoc, <- ?project_app;
  cbn [app]; rewrite ?app_nil_r; try done.

(** The checks that precede planning. *)
Definition plan_checks (d : CollDescriptor) (r : Z) : result unit :=
  ValidateCollDescriptor d ≫= fun _ =>
  THROW invalid_argument "planner self rank outside group" WHEN group_size d <=? r;;
  if CollIsReduction (d_op d) then ValidateTier0ReductionDescriptor d
  else THROW invalid_argument "P2P requires exactly two ranks"
         WHEN bool_decide (d_op d = P2P) && negb (u16 (group_size d) =? 2);; Ok tt.

Lemma bind_const {A} (m : result unit) (f : unit -> result A) (x : result A) :
  (m = Ok tt -> f tt = x) -> m ≫= f = m ≫= fun _ => x.
Proof. destruct m as [[]|]; cbn; eauto. Qed.

Lemma reduced_project d n r out :
  for_rank n (fun src out =>
    let out := if negb (src =? d_root_rank d)
               then pair r src src (d_root_rank d) (d_chunk_bits d) 0 out else out in
    Ok (barrier src out)) out =
  Ok (out ++ project r (seqZ 0 n ≫= fun src =>
    (if negb (src =? d_root_rank d) then [EPair src src (d_root_rank d) (d_chunk_bits d) 0] else [])
    ++ [EBarrier src])).
Proof. apply for_rank_project. project_body r. Qed.

Lemma compute_project d n r out :
  barrier n (if r =? d_root_rank d then out ++ [mkCollAction REDUCE_COMPUTE n 0 0 0] else out) =
  out ++ project r [ECompute n (d_root_rank d); EBarrier n].
Proof.
  rewrite (barrier_project r). cbn. destruct (r =? d_root_rank d); cbn; by rewrite ?app_nil_r, <- ?app_assoc.
Qed.

Lemma peers_project r n root (body : Z -> list CollAction -> result (list CollAction)) f out :
  (forall i out, 0 <= i < n -> i <> root -> body i out = Ok (out ++ project r [f i])) ->
  (forall out, body root out = Ok out) ->
  for_rank n body out = Ok (out ++ project r (peers n root f)).
Proof.
  intros Hb Hroot. apply for_rank_project. intros i o Hi.
  destruct (Z.eqb_spec i root) as [->|Hne]; cbn; [by rewrite Hroot, app_nil_r|by apply Hb].
Qed.

(** The body of a loop over the peers of [root]. *)
Ltac peers_body root :=
  erewrite (peers_project _ _ root);
  [ cbn [mbind result_bind]
  | let i := fresh "i" in let Hne := fresh "Hne" in
    intros i ? ? Hne; rewrite (proj2 (Z.eqb_neq i root) Hne); cbn [negb];
    rewrite ?CollRankCountOffset_ok by first [lia | match goal with H : desc_typed _ |- _ => apply H end];
    cbn [mbind result_bind fst snd]; rewrite pair_project; reflexivity
  | intros ?; by rewrite Z.eqb_refl ].

Lemma plan_reduction_project d r : desc_typed d -> 0 < group_size d < 2 ^ 16 ->
  CollIsReduction (d_op d) = true ->
  plan_reduction d (u16 (group_size d)) r =
    ValidateTier0ReductionDescriptor d ≫= fun _ => Ok (project r (schedule d)).
Proof.
  intros Ht Hn Hred. assert (u16 (group_size d) = group_size d) as Hu by (apply wrap_small; ulia).
  unfold plan_reduction, schedule. rewrite Hu. apply bind_const; intros _.
  rewrite reduced_project. cbn [mbind result_bind app]. rewrite compute_project, <- project_app.
  destruct (d_op d); try discriminate Hred.
  - done.
  - peers_body (d_root_rank d).
    rewrite (barrier_project r), <- !project_app. do 2 f_equal.
    by rewrite <- app_assoc.
  - peers_body (d_root_rank d).
    rewrite (barrier_project r), <- !project_app. do 2 f_equal.
    by rewrite <- app_assoc.
Qed.

(** Every plan is the projection of the common schedule. *)
Lemma plan_project d r : desc_typed d -> group_size d < 2 ^ 16 ->
  PlanTier0Collective d r = plan_checks d r ≫= fun _ => Ok (project r (schedule d)).
Proof.
  intros Ht Hn. unfold PlanTier0Collective, plan_checks.
  destruct (ValidateCollDescriptor d) as [[]|] eqn:Hv; [|done]. cbn [mbind result_bind].
  pose proof (wf_nonempty _ (validate_wf _ Hv)) as Hpos.
  destruct (group_size d <=? r); [done|]. cbn [throw_if mbind result_bind].
  destruct (CollIsReduction (d_op d)) eqn:Hred; [by apply plan_reduction_project|].
  unfold schedule. destruct (d_op d) eqn:Hop; try discriminate Hred;
    try rewrite (bool_decide_false (_ = P2P)) by done; cbn [andb throw_if mbind result_bind].
  - rewrite bool_decide_true by done. cbn [andb].
    destruct (negb (u16 (group_size d) =? 2)); cbn [throw_if mbind result_bind]; [done|].
    by rewrite pair_project, (barrier_project r), app_nil_l, <- project_app.
  - peers_body (d_root_rank d).
    by rewrite (barrier_project r), app_nil_l, <- project_app.
  - apply (for_rank_project r _ _ _ []). project_body r.
  - peers_body (d_root_rank d).
    by rewrite (barrier_project r), app_nil_l, <- project_app.
  - apply (for_rank_project r _ _ _ []). intros i out Hi. peers_body i.
    by rewrite (barrier_project r), project_app, app_assoc.
  - apply (for_rank_project r _ _ _ []). intros i out Hi. peers_body i.
    by rewrite (barrier_project r), project_app, app_assoc.
Qed.

(** ** The execution of the plans *)

Definition event_wf (n : Z) (e : event) : Prop :=
  match e with
  | EPair _ src dst _ _ => 0 <= src < n /\ 0 <= dst < n /\ src <> dst
  | EBarrier _ => True
  | ECompute _ rank => 0 <= rank < n
  end.

(** The ranks' remaining actions are the projections of the events [es]. *)
Definition tracks (n : Z) (s : remaining) (es : list event) : Prop :=
  Forall (event_wf n) es /\ forall r, 0 <= r < n -> s r = project r es.

Lemma project_head r x l es : project r es = x :: l ->
  exists pre e post rest, es = pre ++ e :: post /\ project r pre = [] /\
    project1 r e = x :: rest /\ l = rest ++ project r post.
Proof.
  induction es as [|e es IH]; [done|]. rewrite project_cons.
  destruct (project1 r e) as [|y rest] eqn:He; cbn [app]; intros H.
  - destruct (IH H) as (pre & e' & post & rest & -> & Hpre & Hr). exists (e :: pre), e', post, rest.
    split; [done|]. by rewrite project_cons, He, Hpre.
  - simplify_eq. by exists [], e, es, rest.
Qed.

Lemma project_nil_in r es e : project r es = [] -> e ∈ es -> project1 r e = [].
Proof.
  intros H Hin. apply list_elem_of_split in Hin as (l1 & l2 & ->).
  rewrite project_app, project_cons in H. by apply app_nil in H as [_ [? _]%app_nil].
Qed.

Lemma project_remove r pre e post : project1 r e = [] ->
  project r (pre ++ e :: post) = project r (pre ++ post).
Proof. intros He. by rewrite !project_app, project_cons, He. Qed.

Lemma send_event n r ph b bits off l es : Forall (event_wf n) es ->
  project r es = mkCollAction SEND ph b bits off :: l ->
  exists pre post, es = pre ++ EPair ph r b bits off :: post /\ project r pre = [] /\ l = project r post.
Proof.
  intros Hwf H. apply project_head in H as (pre & e & post & rest & -> & Hpre & He & ->).
  apply Forall_app in Hwf as [_ Hwf]. inversion Hwf as [|?? Hew _]; subst.
  exists pre, post. destruct e as [? src dst ??| |? rank]; cbn in *; [|by simplify_eq|by destruct (r =? rank); simplify_eq].
  destruct (Z.eqb_spec r src), (Z.eqb_spec r dst); simplify_eq/=; try lia; done.
Qed.

Lemma recv_event n r ph a bits off l es : Forall (event_wf n) es ->
  project r es = mkCollAction RECV ph a bits off :: l ->
  exists pre post, es = pre ++ EPair ph a r bits off :: post /\ project r pre = [] /\ l = project r post.
Proof.
  intros Hwf H. apply project_head in H as (pre & e & post & rest & -> & Hpre & He & ->).
  apply Forall_app in Hwf as [_ Hwf]. inversion Hwf as [|?? Hew _]; subst.
  exists pre, post. destruct e as [? src dst ??| |? rank]; cbn in *; [|by simplify_eq|by destruct (r =? rank); simplify_eq].
  destruct (Z.eqb_spec r src), (Z.eqb_spec r dst); simplify_eq/=; try lia; done.
Qed.

Lemma project1_pair_other r ph a b bits off : r <> a -> r <> b -> project1 r (EPair ph a b bits off) = [].
Proof. intros Ha Hb. cbn. by rewrite (proj2 (Z.eqb_neq r a) Ha), (proj2 (Z.eqb_neq r b) Hb). Qed.

Lemma project1_pair_end r ph a b bits off : r = a \/ r = b -> project1 r (EPair ph a b bits off) <> [].
Proof. intros [->| ->]; cbn; rewrite Z.eqb_refl; [done|]. by destruct (b =? a). Qed.

Lemma event_wf_remove n pre e post :
  Forall (event_wf n) (pre ++ e :: post) -> Forall (event_wf n) (pre ++ post).
Proof.
  intros H. apply Forall_app in H as [H1 H2]. inversion H2; subst. by apply Forall_app.
Qed.

Lemma length_remove {A} (pre : list A) e post :
  length (pre ++ e :: post) = S (length (pre ++ post)).
Proof. rewrite !length_app; cbn; lia. Qed.

(** An element splits a list in one way once it is absent from both prefixes. *)
Lemma same_split {A} (e : A) pre post pre' post' :
  pre ++ e :: post = pre' ++ e :: post' -> e ∉ pre -> e ∉ pre' -> pre = pre' /\ post = post'.
Proof.
  revert pre'; induction pre as [|x pre IH]; intros [|x' pre'] H H1 H2; cbn in H;
    pose proof (f_equal tail H) as Ht; apply (f_equal head) in H; cbn in H, Ht; simplify_eq.
  - done.
  - by destruct H2; left.
  - by destruct H1; left.
  - apply not_elem_of_cons in H1 as [_ H1], H2 as [_ H2]. by destruct (IH _ Ht H1 H2) as [-> ->].
Qed.

Lemma exec_tracks n s s' es : 0 < n -> exec n s s' -> tracks n s es ->
  exists es', tracks n s' es' /\ length es = S (length es').
Proof.
  intros Hn He [Hwf Ht]. destruct He as [a b ph bits off s s' Ha Hb Hsa Hsb Ho|ph s s' Hs|a ph s s' Ha Hsa Ho].
  - rewrite Ht in Hsa, Hsb by done.
    destruct (send_event _ _ _ _ _ _ _ _ Hwf Hsa) as (pre & post & -> & Hpre & Hpa).
    destruct (recv_event _ _ _ _ _ _ _ _ Hwf Hsb) as (pre' & post' & Heq & Hpre' & Hpb).
    apply same_split in Heq as [<- <-].
    2: { intros Hin. eapply (project1_pair_end a); [by left|exact (project_nil_in _ _ _ Hpre Hin)]. }
    2: { intros Hin. eapply (project1_pair_end b); [by right|exact (project_nil_in _ _ _ Hpre' Hin)]. }
    exists (pre ++ post). rewrite length_remove.
    split; [|done]. split; [by eapply event_wf_remove|]. intros r Hr.
    rewrite project_app. destruct (Z.eq_dec r a) as [->|]; [by rewrite Hpre|].
    destruct (Z.eq_dec r b) as [->|]; [by rewrite Hpre'|].
    by rewrite Ho, Ht, project_remove, project_app by (auto using project1_pair_other).
  - destruct es as [|e es].
    { specialize (Hs 0 ltac:(lia)). by rewrite Ht in Hs by lia. }
    inversion Hwf as [|?? Hew Hwf']; subst. exists es. split; [|done]. split; [done|].
    intros r Hr. destruct e as [? src dst ??| |? rank]; cbn in Hew.
    + specialize (Hs src ltac:(lia)). rewrite Ht, project_cons in Hs by lia.
      cbn in Hs. by rewrite Z.eqb_refl in Hs.
    + specialize (Hs r Hr). rewrite Ht in Hs by lia. by injection Hs.
    + specialize (Hs rank ltac:(lia)). rewrite Ht, project_cons in Hs by lia.
      cbn in Hs. by rewrite Z.eqb_refl in Hs.
  - rewrite Ht in Hsa by done.
    apply project_head in Hsa as (pre & e & post & rest & -> & Hpre & Hpe & Hl).
    destruct e as [? src dst ??| |? rank]; cbn in Hpe; [|by simplify_eq|].
    { by destruct (a =? src), (a =? dst); simplify_eq/=. }
    destruct (Z.eqb_spec a rank); simplify_eq. exists (pre ++ post). rewrite length_remove.
    split; [|done]. split; [by eapply event_wf_remove|]. intros r Hr.
    destruct (Z.eq_dec r rank) as [->|Hne]; [by rewrite Hl, project_app, Hpre|].
    rewrite Ho, Ht, project_remove by (try done; cbn; by rewrite (proj2 (Z.eqb_neq r rank) Hne)). done.
Qed.

Lemma exec_progress n s es : tracks n s es -> es <> [] -> exists s', exec n s s'.
Proof.
  intros [Hwf Ht] Hne. destruct es as [|e es]; [done|]. clear Hne.
  inversion Hwf as [|?? Hew _]; subst.
  exists (fun r => if bool_decide (project1 r e = []) then s r else project r es).
  destruct e as [ph src dst bits off|ph|ph rank]; cbn in Hew.
  - apply (exec_pair n src dst ph bits off); [lia|lia| | |].
    1,2: rewrite Ht by lia; rewrite project_cons, bool_decide_false by (apply project1_pair_end; auto);
      cbn; rewrite Z.eqb_refl.
    + by rewrite (proj2 (Z.eqb_neq src dst)) by lia.
    + by rewrite (proj2 (Z.eqb_neq dst src)) by lia.
    + intros r H1 H2. by rewrite bool_decide_true by (by apply project1_pair_other).
  - apply (exec_barrier n ph). intros r Hr. by rewrite Ht, bool_decide_false by done.
  - apply (exec_compute n rank ph); [lia| |].
    + rewrite Ht by lia. rewrite project_cons, bool_decide_false; cbn; by rewrite Z.eqb_refl.
    + intros r Hr. rewrite bool_decide_true; [done|]. cbn. by rewrite (proj2 (Z.eqb_neq r rank) Hr).
Qed.

Lemma exec_nsteps_tracks n k s s' es : 0 < n -> nsteps (exec n) k s s' -> tracks n s es ->
  exists es', tracks n s' es' /\ length es = (k + length es')%nat.
Proof.
  intros Hn Hk. revert es. induction Hk as [s|k s1 s2 s3 Hst Hk IH]; intros es Ht; [by exists es|].
  destruct (exec_tracks n s1 s2 es Hn Hst Ht) as (es1 & Ht1 & Hl1).
  destruct (IH es1 Ht1) as (es2 & Ht2 & Hl2). exists es2. split; [done|lia].
Qed.

Lemma in_peers n root f e : e ∈ peers n root f ->
  exists i, 0 <= i < n /\ i <> root /\ e = f i.
Proof.
  intros (i & Hi & He)%list_elem_of_bind. apply elem_of_seqZ in He.
  destruct (Z.eqb_spec i root); cbn in Hi; [by apply elem_of_nil in Hi|].
  apply list_elem_of_singleton in Hi. exists i; split; [lia|done].
Qed.

Lemma peers_wf n root f : 0 <= root < n ->
  (forall i, 0 <= i < n -> i <> root -> event_wf n (f i)) -> Forall (event_wf n) (peers n root f).
Proof.
  intros Hr Hf. apply list.Forall_forall. intros e (i & Hi & Hne & ->)%in_peers. by apply Hf.
Qed.

Lemma gather_in_wf n root bits off : 0 <= root < n ->
  Forall (event_wf n) (seqZ 0 n ≫= fun src =>
    (if negb (src =? root) then [EPair src src root bits (off src)] else []) ++ [EBarrier src]).
Proof.
  intros Hr. apply list.Forall_forall. intros e (i & Hi & He)%list_elem_of_bind. apply elem_of_seqZ in He.
  apply elem_of_app in Hi as [Hi|Hi].
  - destruct (Z.eqb_spec i root); cbn in Hi; [by apply elem_of_nil in Hi|].
    apply list_elem_of_singleton in Hi as ->. cbn; lia.
  - by apply list_elem_of_singleton in Hi as ->.
Qed.

Lemma exchange_wf n bits (off : Z -> Z -> Z) :
  Forall (event_wf n) (seqZ 0 n ≫= fun src =>
    peers n src (fun dst => EPair src src dst bits (off src dst)) ++ [EBarrier src]).
Proof.
  apply list.Forall_forall. intros e (i & Hi & He)%list_elem_of_bind. apply elem_of_seqZ in He.
  apply elem_of_app in Hi as [(j & Hj & Hne & ->)%in_peers|Hi]; [cbn; lia|].
  by apply list_elem_of_singleton in Hi as ->.
Qed.

Lemma schedule_wf d r : desc_typed d -> group_size d < 2 ^ 16 -> plan_checks d r = Ok tt ->
  Forall (event_wf (group_size d)) (schedule d).
Proof.
  intros Ht Hn Hc. unfold plan_checks in Hc. apply bind_ok in Hc as (u & Hv & Hc). destruct u.
  pose proof (validate_wf _ Hv) as Hwf.
  assert (0 <= d_root_rank d < group_size d) as Hroot.
  { split; [|apply Hwf]. destruct Ht as (_ & _ & [? _] & _). done. }
  assert (u16 (group_size d) = group_size d) as Hu by (apply wrap_small; pose proof (wf_nonempty _ Hwf); ulia).
  unfold schedule. rewrite Hu in *.
  destruct (d_op d) eqn:Hop; repeat (apply Forall_app; split);
    try apply gather_in_wf; try apply peers_wf; try apply exchange_wf;
    try done; try (intros; cbn; lia); repeat constructor; try (cbn; lia).
  all: apply throw_bind_ok in Hc as [_ Hc]; cbn in Hc; apply throw_bind_ok in Hc as [Hc _];
    apply negb_false_iff, Z.eqb_eq in Hc; cbn; lia.
Qed.

(** ** Properties *)

(** C28: the planner refines an abstract schedule.  For every rank, planning
    either throws what the descriptor's checks throw, or returns exactly the
    projection to that rank of one event list that does not depend on the
    rank: sends and receives of different ranks' plans are the two ends of the
    same events, and every rank passes the same barriers in the same order. *)
Theorem plan_refines_schedule (d : CollDescriptor) (r : Z) :
  desc_typed d -> group_size d < 2 ^ 16 ->
  PlanTier0Collective d r = plan_checks d r ≫= fun _ => Ok (project r (schedule d)).
Proof. apply plan_project. Qed.

Definition ex_desc (o : CollOp) (a : CollAlgorithm) (ro : CollReduceOp) : CollDescriptor :=
  mkCollDescriptor o a INT32 ro (mkCollectiveKey 1 2 3) [4; 7; 9] 1 0 10 64 128 320 320 0.

Lemma plan_refines_schedule_witness :
  is_ok (PlanTier0Collective (ex_desc REDUCESCATTER REDUCE_ROOT_SCATTER SUM) 2) = true /\
  PlanTier0Collective (ex_desc REDUCESCATTER REDUCE_ROOT_SCATTER SUM) 2 =
    plan_checks (ex_desc REDUCESCATTER REDUCE_ROOT_SCATTER SUM) 2 ≫=
    fun _ => Ok (project 2 (schedule (ex_desc REDUCESCATTER REDUCE_ROOT_SCATTER SUM))).
Proof.
  split; [by vm_compute|].
  apply plan_refines_schedule; [apply (bool_decide_unpack _); by vm_compute|by vm_compute].
Defined.

(** C1: the plans of a collective cannot deadlock.  Run all ranks' plans
    together, a send meeting the matching receive at the head of its peer's
    plan and a barrier waiting for every rank: in every interleaving, a
    reachable state in which some rank still has an action can step, and no
    execution has more steps than the schedule has events. *)
Theorem plan_execution_deadlock_free (d : CollDescriptor) (plan s : remaining) (k : nat) :
  desc_typed d -> 0 < group_size d < 2 ^ 16 ->
  (forall r, 0 <= r < group_size d -> PlanTier0Collective d r = Ok (plan r)) ->
  nsteps (exec (group_size d)) k plan s ->
  (k <= length (schedule d))%nat /\
  ((forall r, 0 <= r < group_size d -> s r = []) \/ exists s', exec (group_size d) s s').
Proof.
  intros Ht Hn Hp Hk.
  assert (tracks (group_size d) plan (schedule d)) as Htr.
  { split.
    - apply (schedule_wf d 0); [done|lia|]. specialize (Hp 0 ltac:(lia)).
      rewrite plan_project in Hp by (done || lia). by destruct (plan_checks d 0) as [[]|].
    - intros r Hr. specialize (Hp r Hr). rewrite plan_project in Hp by (done || lia).
      destruct (plan_checks d r) as [[]|]; [by injection Hp|done]. }
  destruct (exec_nsteps_tracks _ _ _ _ _ (proj1 Hn) Hk Htr) as (es & [Hwf Hs] & Hlen).
  split; [lia|]. destruct es as [|e es].
  - left. intros r Hr. by rewrite Hs.
  - right. apply (exec_progress _ _ (e :: es)); [by split|done].
Qed.

Lemma plan_execution_deadlock_free_witness :
  let d := ex_desc ALLREDUCE REDUCE_ROOT_BROADCAST MAX in
  let plan := fun r => match PlanTier0Collective d r with Ok p => p | Err _ => [] end in
  plan 0 <> [] /\ ((forall r, 0 <= r < 3 -> plan r = []) \/ exists s', exec 3 plan s').
Proof.
  intros d plan. split; [by vm_compute|].
  apply (plan_execution_deadlock_free d plan plan 0).
  - apply (bool_decide_unpack _); by vm_compute.
  - by vm_compute.
  - intros r Hr. change (group_size d) with 3 in Hr.
    assert (r = 0 \/ r = 1 \/ r = 2) as [->|[->| ->]] by lia; by vm_compute.
  - constructor.
Defined.
