(* ===== verification/CollCodec.v ===== *)
(** Wire formats of the collectives: the descriptor ([coll_codec.h]), the
    multicast data header ([coll_multicast.h]) and the in-network reduction
    operand ([coll_innetwork_reduce.h]), with their round trips. *)

From S2P Require Import Prelude Bits CollTypes.

(** ** Enumerations as their underlying integers *)

Definition CollOp_code (o : CollOp) : Z :=
  match o with P2P => 0 | SCATTER => 1 | GATHER => 2 | BROADCAST => 3 | ALLTOALL => 4
  | ALLGATHER => 5 | REDUCE => 6 | REDUCESCATTER => 7 | ALLREDUCE => 8 end.
Definition CollOp_cast (c : Z) : CollOp :=
  if c =? 0 then P2P else if c =? 1 then SCATTER else if c =? 2 then GATHER
  else if c =? 3 then BROADCAST else if c =? 4 then ALLTOALL else if c =? 5 then ALLGATHER
  else if c =? 6 then REDUCE else if c =? 7 then REDUCESCATTER else ALLREDUCE.
Definition CollAlgorithm_code (a : CollAlgorithm) : Z :=
  match a with DIRECT => 0 | REDUCE_ROOT_SCATTER => 1 | REDUCE_ROOT_BROADCAST => 2 end.
Definition CollAlgorithm_cast (c : Z) : CollAlgorithm :=
  if c =? 0 then DIRECT else if c =? 1 then REDUCE_ROOT_SCATTER else REDUCE_ROOT_BROADCAST.
Definition CollReduceOp_code (r : CollReduceOp) : Z :=
  match r with RO_NONE => 0 | SUM => 1 | MAX => 2 end.
Definition CollReduceOp_cast (c : Z) : CollReduceOp :=
  if c =? 0 then RO_NONE else if c =? 1 then SUM else MAX.
Definition CollDType_code (t : CollDType) : Z :=
  match t with UINT8 => 0 | INT32 => 1 | INT64 => 2 | FP32 => 3 end.
Definition CollDType_cast (c : Z) : CollDType :=
  if c =? 0 then UINT8 else if c =? 1 then INT32 else if c =? 2 then INT64 else FP32.

Lemma CollOp_cast_code o : CollOp_cast (CollOp_code o) = o.
Proof. by destruct o. Qed.
Lemma CollAlgorithm_cast_code a : CollAlgorithm_cast (CollAlgorithm_code a) = a.
Proof. by destruct a. Qed.
Lemma CollReduceOp_cast_code r : CollReduceOp_cast (CollReduceOp_code r) = r.
Proof. by destruct r. Qed.
Lemma CollDType_cast_code t : CollDType_cast (CollDType_code t) = t.
Proof. by destruct t. Qed.
Lemma CollReduceOp_code_cast c : 0 <= c <= 2 -> CollReduceOp_code (CollReduceOp_cast c) = c.
Proof. intros. assert (c = 0 \/ c = 1 \/ c = 2) as [->|[->| ->]] by lia; done. Qed.
Lemma CollDType_code_cast c : 0 <= c <= 3 -> CollDType_code (CollDType_cast c) = c.
Proof. intros. assert (c = 0 \/ c = 1 \/ c = 2 \/ c = 3) as [->|[->|[->| ->]]] by lia; done. Qed.

(** ** The descriptor *)

Definition COLL_WIRE_MAGIC : Z := 0xC011.
Definition COLL_WIRE_VERSION : Z := 0.
Definition COLL_WIRE_FIXED_SEGMENTS : nat := 5.
Definition COLL_WIRE_GROUP_IDS_PER_SEGMENT : nat := 8.

Definition group_segments (size : nat) : nat :=
  ((size + COLL_WIRE_GROUP_IDS_PER_SEGMENT - 1) / COLL_WIRE_GROUP_IDS_PER_SEGMENT)%nat.

(** Segment and low bit of the [i]-th group member. *)
Definition group_segment (i : nat) : nat := (COLL_WIRE_FIXED_SEGMENTS + i / COLL_WIRE_GROUP_IDS_PER_SEGMENT)%nat.
Definition group_low (i : nat) : Z := Z.of_nat (i mod COLL_WIRE_GROUP_IDS_PER_SEGMENT)%nat * 16.

Definition write_group (g : list Z) (wire : list Z) : list Z :=
  foldl (fun wire i =>
    alter (fun w => put w (group_low i + 15) (group_low i) (g !!! i)) (group_segment i) wire)
    wire (seq 0 (length g)).

Definition SerializeCollDescriptor (d : CollDescriptor) : result (list Z) :=
  ValidateCollDescriptor d ≫= fun _ =>
  THROW overflow_error "collective group exceeds wire capacity" WHEN UINT16_MAX <? group_size d;;
  let gs := group_segments (length (d_group d)) in
  let size := (COLL_WIRE_FIXED_SEGMENTS + gs)%nat in
  THROW overflow_error "collective descriptor segment count overflow" WHEN UINT16_MAX <? Z.of_nat size;;
  let w0 := put 0 15 0 COLL_WIRE_MAGIC in
  let w0 := put w0 23 16 COLL_WIRE_VERSION in
  let w0 := put w0 31 24 (CollOp_code (d_op d)) in
  let w0 := put w0 39 32 (CollAlgorithm_code (d_algorithm d)) in
  let w0 := put w0 47 40 (CollDType_code (d_dtype d)) in
  let w0 := put w0 55 48 (CollReduceOp_code (d_reduce_op d)) in
  let w0 := put w0 71 56 (d_root_rank d) in
  let w0 := put w0 87 72 (d_self_rank d) in
  let w0 := put w0 103 88 (u16 (group_size d)) in
  let w0 := put w0 119 104 (u16 (Z.of_nat size)) in
  let w1 := put 0 31 0 (group_id (d_key d)) in
  let w1 := put w1 63 32 (collective_id (d_key d)) in
  let w1 := put w1 95 64 (epoch (d_key d)) in
  let w1 := put w1 127 96 (d_gather_reorder_depth d) in
  let w2 := put 0 63 0 (d_count d) in
  let w2 := put w2 127 64 (d_chunk_bits d) in
  let w3 := put 0 63 0 (d_src_addr d) in
  let w3 := put w3 127 64 (d_dst_addr d) in
  let w4 := put 0 63 0 (d_stride_bits d) in
  Ok (write_group (d_group d) ([w0; w1; w2; w3; w4] ++ replicate gs 0)).

Definition read_group (wire : list Z) (size : nat) : list Z :=
  (fun i => get (wire !!! group_segment i) (group_low i + 15) (group_low i)) <$> seq 0 size.

Definition DeserializeCollDescriptor (wire : list Z) : result CollDescriptor :=
  THROW invalid_argument "truncated collective descriptor"
    WHEN (length wire <? COLL_WIRE_FIXED_SEGMENTS)%nat;;
  let w0 := wire !!! 0%nat in let w1 := wire !!! 1%nat in let w2 := wire !!! 2%nat in
  let w3 := wire !!! 3%nat in let w4 := wire !!! 4%nat in
  THROW invalid_argument "invalid collective descriptor magic"
    WHEN negb (get w0 15 0 =? COLL_WIRE_MAGIC);;
  THROW invalid_argument "unsupported collective descriptor version"
    WHEN negb (get w0 23 16 =? COLL_WIRE_VERSION);;
  let encoded_segments := get w0 119 104 in
  let size := Z.to_nat (get w0 103 88) in
  let expected := (COLL_WIRE_FIXED_SEGMENTS + group_segments size)%nat in
  THROW invalid_argument "collective descriptor segment count mismatch"
    WHEN negb (encoded_segments =? Z.of_nat expected) || negb (length wire =? expected)%nat;;
  let raw_op := get w0 31 24 in
  let raw_algorithm := get w0 39 32 in
  let raw_dtype := get w0 47 40 in
  let raw_reduce := get w0 55 48 in
  THROW invalid_argument "collective descriptor enum is out of range"
    WHEN (CollOp_code ALLREDUCE <? raw_op)
         || (CollAlgorithm_code REDUCE_ROOT_BROADCAST <? raw_algorithm)
         || (CollDType_code FP32 <? raw_dtype) || (CollReduceOp_code MAX <? raw_reduce);;
  let d := mkCollDescriptor
    (CollOp_cast raw_op) (CollAlgorithm_cast raw_algorithm) (CollDType_cast raw_dtype)
    (CollReduceOp_cast raw_reduce)
    (mkCollectiveKey (get w1 31 0) (get w1 63 32) (get w1 95 64))
    (read_group wire size) (get w0 71 56) (get w0 87 72)
    (get w2 63 0) (get w3 63 0) (get w3 127 64) (get w2 127 64) (get w4 63 0) (get w1 127 96) in
  ValidateCollDescriptor d ≫= fun _ => Ok d.

(** ** The multicast data header *)

Definition COLL_DATA_MAGIC : Z := 0xc4d1.
Definition COLL_DATA_VERSION : Z := 0.

Definition IsCollDataWire (w : Z) : bool :=
  (get w 15 0 =? COLL_DATA_MAGIC) && (get w 23 16 =? COLL_DATA_VERSION) &&
  negb (get w 39 24 =? 0) && negb (get w 247 240 =? 0) && (get w 255 249 =? 0).

(** [struct CollDataHeader] *)
Record CollDataHeader : Type := mkCollDataHeader {
  h_tree_id : Z; (* uint16_t *)
  h_packet : PacketKey;
  h_seq_id : Z; (* uint32_t *)
  h_length_bits : Z; (* uint8_t *)
  h_is_end : bool
}.
Definition header_typed (h : CollDataHeader) : Prop :=
  in_u 16 (h_tree_id h) /\ packet_typed (h_packet h) /\ in_u 32 (h_seq_id h) /\
  in_u 8 (h_length_bits h).
#[export] Instance header_typed_dec h : Decision (header_typed h).
Proof. unfold header_typed; apply _. Defined.

Definition SerializeCollData (h : CollDataHeader) : result Z :=
  THROW invalid_argument "COLL_DATA tree_id 0 is reserved" WHEN h_tree_id h =? 0;;
  THROW invalid_argument "COLL_DATA length_bits must be in [1,128]"
    WHEN (h_length_bits h =? 0) || (128 <? h_length_bits h);;
  THROW overflow_error "COLL_DATA seq_id exceeds 24-bit wire" WHEN 0xffffff <? h_seq_id h;;
  let p := h_packet h in
  let w := put 0 15 0 COLL_DATA_MAGIC in
  let w := put w 23 16 COLL_DATA_VERSION in
  let w := put w 39 24 (h_tree_id h) in
  let w := put w 71 40 (group_id (pk_collective p)) in
  let w := put w 103 72 (collective_id (pk_collective p)) in
  let w := put w 135 104 (epoch (pk_collective p)) in
  let w := put w 151 136 (pk_phase_id p) in
  let w := put w 183 152 (pk_chunk_id p) in
  let w := put w 199 184 (pk_src_rank p) in
  let w := put w 215 200 (pk_dst_rank p) in
  let w := put w 239 216 (h_seq_id h) in
  let w := put w 247 240 (h_length_bits h) in
  Ok (put_bit w 248 (h_is_end h)).

Definition DeserializeCollData (w : Z) : result CollDataHeader :=
  THROW invalid_argument "invalid COLL_DATA magic" WHEN negb (get w 15 0 =? COLL_DATA_MAGIC);;
  THROW invalid_argument "unsupported COLL_DATA version" WHEN negb (get w 23 16 =? COLL_DATA_VERSION);;
  THROW invalid_argument "COLL_DATA reserved bits are non-zero" WHEN negb (get w 255 249 =? 0);;
  let h := mkCollDataHeader (get w 39 24)
    (mkPacketKey (mkCollectiveKey (get w 71 40) (get w 103 72) (get w 135 104))
      (get w 151 136) (get w 183 152) (get w 199 184) (get w 215 200))
    (get w 239 216) (get w 247 240) (get_bit w 248) in
  THROW invalid_argument "invalid COLL_DATA field range"
    WHEN (h_tree_id h =? 0) || (h_length_bits h =? 0) || (128 <? h_length_bits h);;
  Ok h.

(** ** The in-network reduction operand *)

Definition COLL_REDUCE_MAGIC : Z := 0xc5d2.
Definition COLL_REDUCE_VERSION : Z := 0.
Definition COLL_REDUCE_PAYLOAD_SEGMENT : Z := 1.

Definition IsCollReduceHeaderWire (w : Z) : bool :=
  (get w 15 0 =? COLL_REDUCE_MAGIC) && (get w 23 16 =? COLL_REDUCE_VERSION) &&
  negb (get w 39 24 =? 0) && (get w 239 232 =? 2) && (get w 255 240 =? 0).

Definition IsCollReducePayloadWire (w : Z) : bool :=
  (get w 143 128 =? COLL_REDUCE_MAGIC) && (get w 151 144 =? COLL_REDUCE_VERSION) &&
  (get w 159 152 =? COLL_REDUCE_PAYLOAD_SEGMENT) && (get w 255 160 =? 0).

(** [struct CollReduceOperand] *)
Record CollReduceOperand : Type := mkCollReduceOperand {
  o_tree_id : Z; (* uint16_t *)
  o_collective : CollectiveKey;
  o_phase_id : Z; (* uint16_t *)
  o_chunk_id : Z; (* uint32_t *)
  o_child_id : Z; (* uint16_t *)
  o_dtype : CollDType;
  o_op : CollReduceOp;
  o_valid_elements : Z; (* uint16_t *)
  o_payload : Z (* sc_bv<128> *)
}.
Definition operand_typed (o : CollReduceOperand) : Prop :=
  in_u 16 (o_tree_id o) /\ key_typed (o_collective o) /\ in_u 16 (o_phase_id o) /\
  in_u 32 (o_chunk_id o) /\ in_u 16 (o_child_id o) /\ in_u 16 (o_valid_elements o) /\
  in_u 128 (o_payload o).
#[export] Instance operand_typed_dec o : Decision (operand_typed o).
Proof. unfold operand_typed; apply _. Defined.

Definition SerializeCollReduceOperand (o : CollReduceOperand) : result (list Z) :=
  THROW invalid_argument "invalid in-network reduce operand mode"
    WHEN (o_tree_id o =? 0) || bool_decide (o_op o = RO_NONE) || bool_decide (o_dtype o = FP32);;
  let width := CollDTypeBits (o_dtype o) in
  THROW invalid_argument "reduce operand valid elements exceed payload"
    WHEN (o_valid_elements o =? 0) || (128 <? u64 (o_valid_elements o * width));;
  let w0 := put 0 15 0 COLL_REDUCE_MAGIC in
  let w0 := put w0 23 16 COLL_REDUCE_VERSION in
  let w0 := put w0 39 24 (o_tree_id o) in
  let w0 := put w0 71 40 (group_id (o_collective o)) in
  let w0 := put w0 103 72 (collective_id (o_collective o)) in
  let w0 := put w0 135 104 (epoch (o_collective o)) in
  let w0 := put w0 151 136 (o_phase_id o) in
  let w0 := put w0 183 152 (o_chunk_id o) in
  let w0 := put w0 199 184 (o_child_id o) in
  let w0 := put w0 207 200 (CollDType_code (o_dtype o)) in
  let w0 := put w0 215 208 (CollReduceOp_code (o_op o)) in
  let w0 := put w0 231 216 (o_valid_elements o) in
  let w0 := put w0 239 232 2 in
  let w1 := put 0 127 0 (o_payload o) in
  let w1 := put w1 143 128 COLL_REDUCE_MAGIC in
  let w1 := put w1 151 144 COLL_REDUCE_VERSION in
  let w1 := put w1 159 152 COLL_REDUCE_PAYLOAD_SEGMENT in
  Ok [w0; w1].

Definition DeserializeCollReduceOperand (w : list Z) : result CollReduceOperand :=
  match w with
  | [w0; w1] =>
      THROW invalid_argument "invalid in-network reduce wire framing"
        WHEN negb (get w0 15 0 =? COLL_REDUCE_MAGIC) || negb (get w0 23 16 =? COLL_REDUCE_VERSION)
             || negb (get w0 239 232 =? 2) || negb (get w0 255 240 =? 0)
             || negb (IsCollReducePayloadWire w1) || negb (get w1 255 160 =? 0);;
      let dtype := get w0 207 200 in
      let op := get w0 215 208 in
      THROW invalid_argument "in-network reduce enum out of range"
        WHEN (CollDType_code FP32 <? dtype) || (CollReduceOp_code MAX <? op);;
      let o := mkCollReduceOperand (get w0 39 24)
        (mkCollectiveKey (get w0 71 40) (get w0 103 72) (get w0 135 104))
        (get w0 151 136) (get w0 183 152) (get w0 199 184)
        (CollDType_cast dtype) (CollReduceOp_cast op) (get w0 231 216) (get w1 127 0) in
      SerializeCollReduceOperand o ≫= fun _ => Ok o
  | _ => Err (invalid_argument "invalid in-network reduce wire framing")
  end.

(** ** Lemmas *)

(** Reads of an assembled word, brought back to the field's value. *)
Lemma get_put_field w hi lo v : 0 <= lo <= hi -> in_u (hi - lo + 1) v -> get (put w hi lo v) hi lo = v.
Proof. intros Hr Hv. rewrite get_put_same by lia. by apply wrap_small. Qed.

(** Range facts of typed fields and of enumeration codes. *)
Ltac in_range :=
  first [ assumption
        | match goal with |- in_u _ (u16 _) => apply (wrap_in_u 16); lia end
        | match goal with |- context [CollOp_code ?o] => destruct o; vm_compute; by split
          | |- context [CollAlgorithm_code ?o] => destruct o; vm_compute; by split
          | |- context [CollDType_code ?o] => destruct o; vm_compute; by split
          | |- context [CollReduceOp_code ?o] => destruct o; vm_compute; by split end
        | vm_compute; by split ].

Ltac read_fields :=
  repeat first [rewrite get_put_bit_other by lia | rewrite get_put_other by lia
    | rewrite get_put_field by (first [lia | in_range]) | rewrite get_0 by lia
    | rewrite get_bit_put_bit by lia].

(** The fields of a word read back: a word is what was assembled from its
    own fields when they tile it. *)
Ltac rebuild W fields :=
  apply (tiles_ext 0 W fields); [lia| | |by vm_compute| |intros; lia].

Lemma data_roundtrip h w : header_typed h -> SerializeCollData h = Ok w -> DeserializeCollData w = Ok h.
Proof.
  intros (H1 & ((K1 & K2 & K3) & P1 & P2 & P3 & P4) & H2 & H3) H.
  destruct h as [tid [[gid cid ep] ph ch sr dr] sq lb e]; cbn in *.
  unfold SerializeCollData in H; cbn in H. inv_ok.
  assert (in_u 24 sq) as Hs by (apply Z.ltb_ge in Hguard1; split; [apply H2|lia]).
  unfold DeserializeCollData. read_fields.
  do 3 (rewrite throw_bind_false by done). cbn.
  rewrite throw_bind_false; [done|]. by rewrite Hguard, <- orb_assoc.
Qed.

Definition data_fields : list (Z * Z) :=
  [(15, 0); (23, 16); (39, 24); (71, 40); (103, 72); (135, 104); (151, 136); (183, 152);
   (199, 184); (215, 200); (239, 216); (247, 240); (248, 248); (255, 249)].

Lemma get_bit_get w i : 0 <= i -> get w i i = b2z (get_bit w i).
Proof.
  intros Hi. apply Z.bits_inj'; intros j Hj. rewrite get_spec by lia. unfold get_bit.
  replace (i - i + 1) with 1 by lia. destruct (Z.ltb_spec j 1) as [Hj1|Hj1]; cbn.
  - assert (j = 0) as -> by lia. rewrite Z.add_0_l. destruct (Z.testbit w i); done.
  - destruct (Z.testbit w i); cbn; [|by rewrite Z.bits_0].
    symmetry. apply Z.bits_above_log2; cbn; lia.
Qed.

Lemma get_put_bit_same w i b : 0 <= i -> get (put_bit w i b) i i = b2z b.
Proof. intros Hi. by rewrite get_bit_get, get_bit_put_bit. Qed.

Lemma data_roundtrip_back w h : in_u 256 w -> DeserializeCollData w = Ok h -> SerializeCollData h = Ok w.
Proof.
  intros Hw H. unfold DeserializeCollData in H. inv_ok. cbn in *. split_guards.
  unfold SerializeCollData; cbn.
  pose proof (get_in_u w 239 216 ltac:(lia)) as Hseq. unfold in_u in Hseq. change (2 ^ (239 - 216 + 1)) with (0xffffff + 1) in Hseq.
  rewrite throw_bind_false by (by apply Z.eqb_neq).
  rewrite throw_bind_false by (apply orb_false_iff; split; [by apply Z.eqb_neq|by apply Z.ltb_ge]).
  rewrite throw_bind_false by (apply Z.ltb_ge; lia).
  f_equal. rebuild 256 data_fields; [|done|].
  - unfold put_bit. repeat (apply put_in_u; [lia|lia|]). by vm_compute.
  - unfold data_fields.
    repeat (apply Forall_cons_2; [cbn [fst snd]|]); [..|apply Forall_nil_2];
    repeat first [rewrite get_put_bit_same by lia | rewrite get_put_bit_other by lia | rewrite get_put_other by lia
    | rewrite get_put_field by (first [lia | apply get_in_u; lia | in_range]) | rewrite get_0 by lia]; try done.
    by rewrite get_bit_get.
Qed.

Lemma operand_roundtrip o w : operand_typed o -> SerializeCollReduceOperand o = Ok w ->
  DeserializeCollReduceOperand w = Ok o.
Proof.
  intros (H1 & (K1 & K2 & K3) & P1 & P2 & P3 & P4 & P5) H. pose proof H as Hser.
  destruct o as [tid [gid cid ep] ph ch child dt rop ve pay]; cbn in *.
  unfold SerializeCollReduceOperand in H; cbn in H. inv_ok.
  unfold DeserializeCollReduceOperand, IsCollReducePayloadWire.
  read_fields. rewrite throw_bind_false by done.
  rewrite throw_bind_false by (destruct dt, rop; done).
  rewrite CollDType_cast_code, CollReduceOp_cast_code. by rewrite Hser.
Qed.

Definition reduce_header_fields : list (Z * Z) :=
  [(15, 0); (23, 16); (39, 24); (71, 40); (103, 72); (135, 104); (151, 136); (183, 152);
   (199, 184); (207, 200); (215, 208); (231, 216); (239, 232); (255, 240)].
Definition reduce_payload_fields : list (Z * Z) := [(127, 0); (143, 128); (151, 144); (159, 152); (255, 160)].

Ltac read_fields_of_wire :=
  repeat (apply Forall_cons_2; [cbn [fst snd]|]); [..|apply Forall_nil_2];
  repeat first [rewrite get_put_other by lia
    | rewrite get_put_field by (first [lia | apply get_in_u; lia | in_range]) | rewrite get_0 by lia]; try done.

Lemma operand_roundtrip_back w0 w1 o : in_u 256 w0 -> in_u 256 w1 ->
  DeserializeCollReduceOperand [w0; w1] = Ok o -> SerializeCollReduceOperand o = Ok [w0; w1].
Proof.
  intros Hw0 Hw1 H. cbn [DeserializeCollReduceOperand] in H. apply throw_bind_ok in H as [Hg H].
  apply throw_bind_ok in H as [He H]. cbv zeta in H.
  apply bind_ok in H as (w & Hs & H). injection H as H. rewrite H in Hs. rewrite Hs. f_equal.
  unfold SerializeCollReduceOperand in Hs. rewrite <- H in Hs. cbv zeta in Hs. cbn [o_tree_id o_collective o_phase_id
    o_chunk_id o_child_id o_dtype o_op o_valid_elements o_payload group_id collective_id epoch] in Hs.
  clear H. apply throw_bind_ok in Hs as [_ Hs]. apply throw_bind_ok in Hs as [_ Hs].
  assert (forall a b : list Z, Ok a = Ok b -> a = b) as Hinj by (intros; congruence).
  apply Hinj in Hs. rewrite <- Hs. clear Hs Hinj.
  unfold IsCollReducePayloadWire in Hg. split_guards.
  change (CollDType_code FP32) with 3 in *. change (CollReduceOp_code MAX) with 2 in *.
  pose proof (get_in_u w0 207 200 ltac:(lia)) as [? _]. pose proof (get_in_u w0 215 208 ltac:(lia)) as [? _].
  rewrite CollDType_code_cast, CollReduceOp_code_cast by lia.
  f_equal; [|f_equal].
  - rebuild 256 reduce_header_fields; [|done|].
    + repeat (apply put_in_u; [lia|lia|]). by vm_compute.
    + unfold reduce_header_fields. read_fields_of_wire.
  - rebuild 256 reduce_payload_fields; [|done|].
    + repeat (apply put_in_u; [lia|lia|]). by vm_compute.
    + unfold reduce_payload_fields. read_fields_of_wire.
Qed.

Lemma group_low_bounds i : 0 <= group_low i <= 112.
Proof.
  unfold group_low, COLL_WIRE_GROUP_IDS_PER_SEGMENT.
  pose proof (Nat.mod_upper_bound i 8 ltac:(lia)). lia.
Qed.

Lemma group_slot_distinct i j : i <> j -> group_segment i = group_segment j ->
  group_low i + 16 <= group_low j \/ group_low j + 16 <= group_low i.
Proof.
  unfold group_segment, group_low, COLL_WIRE_GROUP_IDS_PER_SEGMENT. intros Hne Hseg.
  pose proof (Nat.div_mod i 8 ltac:(lia)). pose proof (Nat.div_mod j 8 ltac:(lia)). lia.
Qed.

Lemma group_segment_bound i n : (i < n)%nat ->
  (group_segment i < COLL_WIRE_FIXED_SEGMENTS + group_segments n)%nat.
Proof.
  intros Hi. unfold group_segment, group_segments, COLL_WIRE_GROUP_IDS_PER_SEGMENT.
  apply Nat.add_lt_mono_l. apply Nat.div_lt_upper_bound; [lia|].
  pose proof (Nat.div_mod (n + 8 - 1) 8 ltac:(lia)).
  pose proof (Nat.mod_upper_bound (n + 8 - 1) 8 ltac:(lia)). lia.
Qed.

Section write_group.
Context (g wire : list Z).
Let written (n : nat) : list Z :=
  foldl (fun wire i =>
    alter (fun w => put w (group_low i + 15) (group_low i) (g !!! i)) (group_segment i) wire)
    wire (seq 0 n).

Lemma written_S n : written (S n) =
  alter (fun w => put w (group_low n + 15) (group_low n) (g !!! n)) (group_segment n) (written n).
Proof. unfold written. by rewrite seq_S, foldl_app. Qed.

Lemma length_written n : length (written n) = length wire.
Proof. induction n as [|n IH]; [done|]. by rewrite written_S, length_alter. Qed.

Lemma written_fixed n k : (k < COLL_WIRE_FIXED_SEGMENTS)%nat -> written n !!! k = wire !!! k.
Proof.
  intros Hk. induction n as [|n IH]; [done|]. rewrite written_S, list_lookup_total_alter_ne; [done|].
  unfold group_segment. lia.
Qed.

Lemma written_read n i : (i < n)%nat -> (forall j, (j < n)%nat -> (group_segment j < length wire)%nat) ->
  get (written n !!! group_segment i) (group_low i + 15) (group_low i) = u16 (g !!! i).
Proof.
  induction n as [|n IH]; intros Hi Hlen; [lia|]. rewrite written_S.
  pose proof (group_low_bounds i). pose proof (group_low_bounds n).
  destruct (decide (group_segment n = group_segment i)) as [Heq|Hne].
  - rewrite Heq, list_lookup_total_alter_eq by (rewrite length_written; apply Hlen; lia).
    destruct (decide (i = n)) as [->|Hin].
    + rewrite get_put_same by lia. f_equal; lia.
    + destruct (group_slot_distinct i n Hin (eq_sym Heq)); rewrite get_put_other by lia;
        apply IH; try lia; intros; apply Hlen; lia.
  - rewrite list_lookup_total_alter_ne by done. apply IH; [|intros; apply Hlen; lia].
    destruct (decide (i = n)) as [->|]; [done|lia].
Qed.
End write_group.

Lemma write_read_group g wire : Forall (in_u 16) g ->
  length wire = (COLL_WIRE_FIXED_SEGMENTS + group_segments (length g))%nat ->
  read_group (write_group g wire) (length g) = g.
Proof.
  intros Hg Hw. apply list_eq. intros i. unfold read_group. rewrite list_lookup_fmap.
  destruct (decide (i < length g)%nat) as [Hi|Hi].
  - rewrite lookup_seq_lt, Nat.add_0_l by done. cbn [fmap option_fmap option_map].
    unfold write_group. rewrite (written_read g wire (length g) i Hi).
    + destruct (lookup_lt_is_Some_2 g i Hi) as [x Hx].
      rewrite (list_lookup_total_correct _ _ _ Hx), Hx. f_equal. apply wrap_small.
      by apply (Forall_lookup_1 _ _ _ _ Hg Hx).
    + intros j Hj. rewrite Hw. by apply group_segment_bound.
  - rewrite lookup_seq_ge by lia. symmetry. apply lookup_ge_None. lia.
Qed.

Lemma desc_roundtrip d w : desc_typed d -> SerializeCollDescriptor d = Ok w ->
  DeserializeCollDescriptor w = Ok d.
Proof.
  intros ((K1 & K2 & K3) & Hg & P1 & P2 & P3 & P4 & P5 & P6 & P7 & P8) H.
  unfold SerializeCollDescriptor in H. apply bind_ok in H as ([] & Hval & H).
  apply throw_bind_ok in H as [Hg1 H]. cbv zeta in H. apply throw_bind_ok in H as [Hg2 H].
  apply Z.ltb_ge in Hg1, Hg2.
  assert (in_u 16 (group_size d)) as Hgs by (unfold group_size in *; ulia).
  assert (in_u 16 (Z.of_nat (COLL_WIRE_FIXED_SEGMENTS + group_segments (length (d_group d))))) as Hss by ulia.
  rewrite !(wrap_small 16) in H by done.
  match type of H with Ok (write_group _ ([?a0; ?a1; ?a2; ?a3; ?a4] ++ _)) = _ =>
    set (w0 := a0) in H; set (w1 := a1) in H; set (w2 := a2) in H; set (w3 := a3) in H; set (w4 := a4) in H end.
  set (wire := _ ++ _) in H.
  assert (w = write_group (d_group d) wire) as -> by congruence. clear H.
  assert (length wire = (COLL_WIRE_FIXED_SEGMENTS + group_segments (length (d_group d)))%nat) as Hlen
    by (unfold wire; by rewrite length_app, length_replicate).
  assert (forall k, (k < COLL_WIRE_FIXED_SEGMENTS)%nat ->
    write_group (d_group d) wire !!! k = [w0; w1; w2; w3; w4] !!! k) as Hfix.
  { intros k Hk. unfold write_group. rewrite written_fixed by done.
    unfold wire. by rewrite lookup_total_app_l by done. }
  pose proof (write_read_group _ wire Hg Hlen) as Hgroup.
  assert (length (write_group (d_group d) wire) = length wire) as Hwlen by apply length_written.
  unfold DeserializeCollDescriptor. rewrite !Hfix, Hwlen, Hlen by (unfold COLL_WIRE_FIXED_SEGMENTS; lia).
  clearbody wire. cbn [lookup_total list_lookup_total].
  assert (get w0 103 88 = group_size d) as -> by (unfold w0; read_fields; done).
  assert (Z.to_nat (group_size d) = length (d_group d)) as -> by (unfold group_size; lia).
  rewrite Hgroup. clear Hgroup Hfix Hwlen Hlen.
  unfold w0, w1, w2, w3, w4. read_fields.
  rewrite throw_bind_false by (apply Nat.ltb_ge; lia).
  do 2 (rewrite throw_bind_false by done).
  rewrite throw_bind_false by (rewrite Z.eqb_refl, Nat.eqb_refl; done).
  rewrite throw_bind_false by (destruct (d_op d), (d_algorithm d), (d_dtype d), (d_reduce_op d); done).
  rewrite CollOp_cast_code, CollAlgorithm_cast_code, CollDType_cast_code, CollReduceOp_cast_code.
  destruct d as [o al dt ro [gi ci ep] g rr sr c sa da cb sb grd]; cbn in *. by rewrite Hval.
Qed.

Lemma desc_decoded_typed w d : DeserializeCollDescriptor w = Ok d -> desc_typed d /\ wf_desc d.
Proof.
  intros H. unfold DeserializeCollDescriptor in H.
  repeat (apply throw_bind_ok in H as [_ H]; cbv zeta in H).
  apply bind_ok in H as ([] & Hv & H). injection H as <-.
  split; [|by apply validate_wf].
  repeat split; cbn; try (match goal with |- context [get ?w ?hi ?lo] =>
    pose proof (get_in_u w hi lo ltac:(lia)) as Hg; unfold in_u in Hg; apply Hg end).
  unfold read_group. apply list.Forall_forall. intros x (i & -> & Hi)%list_elem_of_fmap.
  pose proof (group_low_bounds i).
  pose proof (get_in_u (w !!! group_segment i) (group_low i + 15) (group_low i) ltac:(lia)) as Hg.
  by replace (group_low i + 15 - group_low i + 1) with 16 in Hg by lia.
Qed.

(** The two framings of a 256-bit payload word never accept the same word. *)
Lemma framings_disjoint w : IsCollDataWire w && IsCollReduceHeaderWire w = false.
Proof.
  unfold IsCollDataWire, IsCollReduceHeaderWire.
  destruct (Z.eqb_spec (get w 15 0) COLL_DATA_MAGIC) as [E|]; [rewrite E|done].
  destruct (Z.eqb_spec COLL_DATA_MAGIC COLL_REDUCE_MAGIC); [done|]. cbn. by rewrite andb_false_r.
Qed.

Lemma serialized_is_data h w : header_typed h -> SerializeCollData h = Ok w -> IsCollDataWire w = true.
Proof.
  intros (H1 & ((K1 & K2 & K3) & P1 & P2 & P3 & P4) & H2 & H3) H.
  destruct h as [tid [[gid cid ep] ph ch sr dr] sq lb e]; cbn in *.
  unfold SerializeCollData in H; cbn in H. inv_ok.
  assert (in_u 24 sq) as Hs by (apply Z.ltb_ge in Hguard1; split; [apply H2|lia]).
  apply orb_false_elim in Hguard0 as [Hl _].
  unfold IsCollDataWire. read_fields. by rewrite Hguard, Hl.
Qed.

Lemma serialize_desc_total d : wf_desc d -> group_size d <= UINT16_MAX -> is_ok (SerializeCollDescriptor d) = true.
Proof.
  intros Hwf Hg. unfold SerializeCollDescriptor. rewrite (wf_validate _ Hwf). cbn [mbind result_bind].
  rewrite throw_bind_false by (by apply Z.ltb_ge). cbv zeta. rewrite throw_bind_false; [done|].
  apply Z.ltb_ge. apply Z.leb_le in Hg. change UINT16_MAX with 65535 in *. apply Z.leb_le in Hg.
  unfold group_size in Hg. unfold group_segments, COLL_WIRE_FIXED_SEGMENTS, COLL_WIRE_GROUP_IDS_PER_SEGMENT.
  pose proof (Nat.div_mod (length (d_group d) + 8 - 1) 8 ltac:(lia)). lia.
Qed.

(** ** Properties *)

(** The descriptor codec round-trips.  Every well-formed descriptor whose
    group has at most 65535 members is encoded, and decoding the segments
    returns the same descriptor, the packed group included. *)
Theorem descriptor_roundtrip (d : CollDescriptor) :
  desc_typed d -> wf_desc d -> group_size d <= UINT16_MAX ->
  exists w, SerializeCollDescriptor d = Ok w /\ DeserializeCollDescriptor w = Ok d.
Proof.
  intros Ht Hwf Hg. pose proof (serialize_desc_total d Hwf Hg) as Hok.
  destruct (SerializeCollDescriptor d) as [w|] eqn:E; [|done].
  exists w. split; [done|by apply desc_roundtrip].
Qed.

Definition ex_wire_desc : CollDescriptor :=
  mkCollDescriptor ALLREDUCE REDUCE_ROOT_BROADCAST INT64 MAX (mkCollectiveKey 77 2 900)
    [1; 5; 8; 13; 21; 34; 55; 89; 144; 65535] 9 3 4096 1024 2048 262144 7 5.

(** the decoder is safe on arbitrary input: whatever segments arrive, a
    descriptor it returns has every field in the range of its C++ type and
    satisfies the validator's well-formedness. *)
Theorem descriptor_decode_safe (wire : list Z) :
  match DeserializeCollDescriptor wire with Ok d => desc_typed d /\ wf_desc d | Err _ => True end.
Proof.
  destruct (DeserializeCollDescriptor wire) as [d|] eqn:E; [|done]. by eapply desc_decoded_typed.
Qed.

(** The multicast header codec is a bijection between the headers it can
    send and the words it accepts: encoding then decoding is the identity on
    headers, decoding then re-encoding is the identity on 256-bit words (no
    bit is ignored), and no encoded word can be taken for a reduction header. *)
Theorem data_header_bijection (h : CollDataHeader) (w : Z) :
  header_typed h -> in_u 256 w ->
  (SerializeCollData h = Ok w <-> DeserializeCollData w = Ok h) /\
  (SerializeCollData h = Ok w -> IsCollDataWire w = true /\ IsCollReduceHeaderWire w = false).
Proof.
  intros Hh Hw. split; [split; [by apply data_roundtrip|by apply data_roundtrip_back]|].
  intros H. pose proof (serialized_is_data _ _ Hh H) as Hd. split; [done|].
  pose proof (framings_disjoint w) as Hdis. by rewrite Hd in Hdis.
Qed.

Definition ex_header : CollDataHeader :=
  mkCollDataHeader 9 (mkPacketKey (mkCollectiveKey 1 2 3) 4 5 6 7) 0xfffffe 128 true.

(** The same for the two-word reduction operand: what the encoder accepts
    decodes to itself, and what the decoder accepts re-encodes to the very
    words received, payload included. *)
Theorem reduce_operand_bijection (o : CollReduceOperand) (w0 w1 : Z) :
  operand_typed o -> in_u 256 w0 -> in_u 256 w1 ->
  SerializeCollReduceOperand o = Ok [w0; w1] <-> DeserializeCollReduceOperand [w0; w1] = Ok o.
Proof.
  intros Ho H0 H1. split; [by apply operand_roundtrip|by apply operand_roundtrip_back].
Qed.

Definition ex_operand : CollReduceOperand :=
  mkCollReduceOperand 3 (mkCollectiveKey 1 2 3) 4 5 6 INT32 MAX 4 (2 ^ 128 - 5).
