(* ===== verification/CollTree.v ===== *)
(** Collective distribution trees ([include/dte/coll_multicast.h],
    [src/dte/coll_multicast.cpp], [src/dte/coll_innetwork_reduce.cpp]): the
    per-router tree table, the registry of the production fabric with its
    statistics and its validation by depth-first search, the branch locks of
    the atomic multicast fork, and the reduction-tree registry. *)

From S2P Require Import Prelude Bits CollTypes.

(** [enum Directions]; [DIRECTIONS] counts the first five, [HOST] is 6. *)
Definition WEST : Z := 0.
Definition EAST : Z := 1.
Definition NORTH : Z := 2.
Definition SOUTH : Z := 3.
Definition CENTER : Z := 4.
Definition DIRECTIONS : Z := 5.
Definition HOST : Z := 6.

Definition COLL_OUTPUT_MASK : Z := Z.shiftl 1 DIRECTIONS - 1.
Definition COLL_TREE_ENTRIES_PER_ROUTER : Z := 64.

(** [struct CollectiveTreeKey] *)
Record CollectiveTreeKey : Type := mkTreeKey {
  tk_tree_id : Z; (* uint16_t *)
  tk_router_id : Z; (* uint16_t *)
  tk_ingress : Z (* uint8_t *)
}.
#[export] Instance CollectiveTreeKey_eq_dec : EqDecision CollectiveTreeKey.
Proof. solve_decision. Defined.
#[export] Instance CollectiveTreeKey_countable : Countable CollectiveTreeKey.
Proof.
  apply (inj_countable' (fun k => (tk_tree_id k, tk_router_id k, tk_ingress k))
    (fun t => mkTreeKey t.1.1 t.1.2 t.2)). by intros [].
Defined.

Notation tree_map := (gmap CollectiveTreeKey Z).

(** ** [class CollectiveTreeTable] *)

Record CollectiveTreeTable : Type := mkTreeTable { tt_capacity : Z; tt_entries : tree_map }.

Definition new_CollectiveTreeTable (capacity : Z) : result CollectiveTreeTable :=
  THROW invalid_argument "tree table capacity must be positive" WHEN capacity =? 0;;
  Ok (mkTreeTable capacity ∅).

Definition Program (t : CollectiveTreeTable) (key : CollectiveTreeKey) (outputs : Z)
    : result CollectiveTreeTable :=
  THROW invalid_argument "invalid collective tree key"
    WHEN (tk_tree_id key =? 0) || (DIRECTIONS <=? tk_ingress key);;
  THROW invalid_argument "invalid collective tree output bitmap"
    WHEN (outputs =? 0) || negb (Z.land outputs (Z.lnot COLL_OUTPUT_MASK) =? 0)
         || negb (Z.land outputs (Z.shiftl 1 (tk_ingress key)) =? 0);;
  match tt_entries t !! key with
  | Some o =>
      THROW runtime_error "conflicting collective tree programming" WHEN negb (o =? outputs);; Ok t
  | None =>
      THROW runtime_error "collective tree table capacity exhausted"
        WHEN Z.of_nat (size (tt_entries t)) =? tt_capacity t;;
      Ok (mkTreeTable (tt_capacity t) (<[key := outputs]> (tt_entries t)))
  end.

Definition Lookup (t : CollectiveTreeTable) (key : CollectiveTreeKey) : result Z :=
  match tt_entries t !! key with
  | Some o => Ok o
  | None => Err (runtime_error "collective tree entry missing")
  end.

Definition EraseTree (t : CollectiveTreeTable) (tree_id : Z) : CollectiveTreeTable * Z :=
  let m' := filter (fun kv => tk_tree_id kv.1 <> tree_id) (tt_entries t) in
  (mkTreeTable (tt_capacity t) m', Z.of_nat (size (tt_entries t)) - Z.of_nat (size m')).

(** ** [class AtomicMulticastFork] *)

(** [struct CollBranchLockKey] *)
Record CollBranchLockKey : Type := mkLockKey {
  bl_tree_id : Z; bl_collective : CollectiveKey; bl_phase_id : Z; bl_chunk_id : Z
}.
#[export] Instance CollBranchLockKey_eq_dec : EqDecision CollBranchLockKey.
Proof. solve_decision. Defined.

(** One direction of the arrays [locked_], [refs_] and [keys_]. *)
Record lane : Type := mkLane { locked : bool; refs : Z; lkey : CollBranchLockKey }.
Definition lane0 : lane := mkLane false 0 (mkLockKey 0 (mkCollectiveKey 0 0 0) 0 0).
#[export] Instance lane_inhabited : Inhabited lane := populate lane0.
Notation fork := (list lane).
Definition new_fork : fork := replicate 5 lane0.

Definition CanCommit (f : fork) (outputs : Z) (available : list bool) (key : CollBranchLockKey) : bool :=
  forallb (fun d =>
    let l := f !!! d in
    negb (Z.testbit outputs (Z.of_nat d)) ||
    ((available !!! d) && negb (locked l && negb (bool_decide (lkey l = key))))) (seq 0 5)
  && negb (outputs =? 0).

(** The body of [Commit]'s loop on a selected direction. *)
Definition commit_lane (l : lane) (first tail : bool) (key : CollBranchLockKey) : result lane :=
  let l := if first then mkLane true (u32 (refs l + 1)) key else l in
  if tail then
    THROW runtime_error "multicast branch tail without matching lock"
      WHEN negb (locked l) || (refs l =? 0) || negb (bool_decide (lkey l = key));;
    let r := u32 (refs l - 1) in
    Ok (mkLane (if r =? 0 then false else locked l) r (lkey l))
  else Ok l.

(** A throw leaves the directions already committed changed: the state comes
    back with the exception. *)
Fixpoint commit_from (ds : list nat) (f : fork) (outputs : Z) (first tail : bool)
    (key : CollBranchLockKey) : fork * option exn :=
  match ds with
  | [] => (f, None)
  | d :: ds =>
      if Z.testbit outputs (Z.of_nat d) then
        match commit_lane (f !!! d) first tail key with
        | Ok l => commit_from ds (<[d := l]> f) outputs first tail key
        | Err e => (<[d := if first then mkLane true (u32 (refs (f !!! d) + 1)) key else f !!! d]> f, Some e)
        end
      else commit_from ds f outputs first tail key
  end.
Definition Commit (f : fork) (outputs : Z) (first tail : bool) (key : CollBranchLockKey)
    : fork * option exn := commit_from (seq 0 5) f outputs first tail key.

Definition Residual (f : fork) : Z := foldr (fun l acc => refs l + acc) 0 f.

(** ** The production registry *)

Record fabric : Type := mkFabric {
  g_tree_entries : tree_map;
  g_link_stats : gmap (Z * Z * Z) (Z * Z); (* (tree, router, output) -> (committed, stalled) *)
  g_shared_link_stats : gmap (Z * Z) (Z * Z) (* (router, output) -> (normal, collective) *)
}.

Definition ResetCollectiveFabric : fabric := mkFabric ∅ ∅ ∅.

Definition per_router (m : tree_map) (router : Z) : nat :=
  size (filter (fun kv => tk_router_id kv.1 = router) m).

Definition ProgramCollectiveTreeEntry (g : fabric) (key : CollectiveTreeKey) (outputs : Z)
    : result fabric :=
  validation ← new_CollectiveTreeTable 1;
  Program validation key outputs ≫= fun _ =>
  let it := g_tree_entries g !! key in
  THROW runtime_error "conflicting production collective tree entry"
    WHEN match it with Some o => negb (o =? outputs) | None => false end;;
  THROW runtime_error "production collective tree table capacity exhausted"
    WHEN match it with
         | None => COLL_TREE_ENTRIES_PER_ROUTER <=? Z.of_nat (per_router (g_tree_entries g) (tk_router_id key))
         | Some _ => false end;;
  Ok (mkFabric (<[key := outputs]> (g_tree_entries g)) (g_link_stats g) (g_shared_link_stats g)).

Definition EraseCollectiveTree (g : fabric) (tree_id : Z) : fabric * Z :=
  let m' := filter (fun kv => tk_tree_id kv.1 <> tree_id) (g_tree_entries g) in
  (mkFabric m' (g_link_stats g) (g_shared_link_stats g),
   Z.of_nat (size (g_tree_entries g)) - Z.of_nat (size m')).

Definition LookupCollectiveTreeEntry (g : fabric) (key : CollectiveTreeKey) : result Z :=
  match g_tree_entries g !! key with
  | Some o => Ok o
  | None => Err (runtime_error "production collective tree entry missing")
  end.

Definition CollectiveTreeEntryCount (g : fabric) : Z := Z.of_nat (size (g_tree_entries g)).

Definition bump {K} `{Countable K} (m : gmap K (Z * Z)) (k : K) (first : bool) : gmap K (Z * Z) :=
  let st := default (0, 0) (m !! k) in
  <[k := if first then (u64 (st.1 + 1), st.2) else (st.1, u64 (st.2 + 1))]> m.

Definition RecordCollectiveForkAttempt (g : fabric) (tree_id router_id outputs : Z) (committed : bool) : fabric :=
  mkFabric (g_tree_entries g)
    (foldl (fun m d => if Z.testbit outputs d then bump m (tree_id, router_id, d) committed else m)
       (g_link_stats g) (seqZ 0 DIRECTIONS))
    (g_shared_link_stats g).

Definition RecordCollectiveSharedOutput (g : fabric) (router_id output : Z) (collective : bool) : fabric :=
  mkFabric (g_tree_entries g) (g_link_stats g)
    (bump (g_shared_link_stats g) (router_id, output) (negb collective)).

(** ** [ValidateCollectiveTree] *)

Notation edge_map := (gmap Z (list Z)).

Section validate.
(** The globals [GRID_X] and [TOTAL_CORES]. *)
Context (GRID_X TOTAL_CORES : Z).

Definition next_router (router d : Z) : Z :=
  if d =? WEST then router - 1 else if d =? EAST then router + 1
  else if d =? NORTH then router + GRID_X else if d =? SOUTH then router - GRID_X else router.

(** One entry of the table: its deliveries and its edges. *)
Definition collect_direction (router outputs : Z) (acc : edge_map * gset Z) (d : Z)
    : result (edge_map * gset Z) :=
  if negb (Z.testbit outputs d) then Ok acc
  else if d =? CENTER then Ok (acc.1, {[router]} ∪ acc.2)
  else
    let next := next_router router d in
    THROW runtime_error "collective tree edge leaves mesh" WHEN (next <? 0) || (TOTAL_CORES <=? next);;
    Ok (<[router := default [] (acc.1 !! router) ++ [u16 next]]> acc.1, acc.2).

Definition collect_entry (tree_id : Z) (acc : edge_map * gset Z) (entry : CollectiveTreeKey * Z)
    : result (edge_map * gset Z) :=
  if negb (tk_tree_id entry.1 =? tree_id) then Ok acc
  else foldM (collect_direction (tk_router_id entry.1) entry.2) acc (seqZ 0 DIRECTIONS).

(** The nested lambda [dfs]; [None] is running out of fuel. *)
Definition dfs_state : Type := gset Z * gset Z. (* visiting, visited *)

Fixpoint dfs (fuel : nat) (edges : edge_map) (node : Z) (s : dfs_state) : option (result dfs_state) :=
  match fuel with
  | O => None
  | S fuel =>
      if bool_decide (node ∈ s.1) then Some (Err (runtime_error "collective tree contains a cycle"))
      else if bool_decide (node ∈ s.2) then Some (Ok s)
      else
        let loop := foldl (fun acc child =>
          match acc with Some (Ok s) => dfs fuel edges child s | _ => acc end)
          (Some (Ok ({[node]} ∪ s.1, s.2))) (default [] (edges !! node)) in
        match loop with
        | Some (Ok s') => Some (Ok (s'.1 ∖ {[node]}, {[node]} ∪ s'.2))
        | _ => loop
        end
  end.

(** Every node the search can meet. *)
Definition nodes (edges : edge_map) (root : Z) : gset Z :=
  {[root]} ∪ map_fold (fun _ cs acc => list_to_set cs ∪ acc) ∅ edges.

Definition check_targets (root : Z) (targets : list Z) (visited delivered : gset Z) : result unit :=
  foldM (fun _ target =>
    THROW runtime_error "collective tree does not cover target group"
      WHEN negb (target =? root) &&
           (negb (bool_decide (target ∈ visited)) || negb (bool_decide (target ∈ delivered)));;
    Ok tt) tt targets.

Definition ValidateCollectiveTree (g : fabric) (tree_id root : Z) (targets : list Z) : option (result unit) :=
  match foldM (collect_entry tree_id) (∅, ∅) (map_to_list (g_tree_entries g)) with
  | Err e => Some (Err e)
  | Ok (edges, delivered) =>
      match dfs (S (size (nodes edges root))) edges root (∅, ∅) with
      | None => None
      | Some (Err e) => Some (Err e)
      | Some (Ok s) => Some (check_targets root targets s.2 delivered)
      end
  end.
End validate.

(** ** The reduction-tree registry *)

(** [struct CollReduceTreeNode] *)
Record CollReduceTreeNode : Type := mkReduceNode { expected_inputs : Z; parent_output : Z }.
#[export] Instance CollReduceTreeNode_eq_dec : EqDecision CollReduceTreeNode.
Proof. solve_decision. Defined.
Definition COLL_REDUCE_NODES_PER_ROUTER : Z := 64.
Notation reduce_nodes := (gmap (Z * Z) CollReduceTreeNode).

Definition ResetCollectiveReduceFabric : reduce_nodes := ∅.

Definition ProgramCollectiveReduceNode (g : reduce_nodes) (tree_id router_id : Z) (node : CollReduceTreeNode)
    : result reduce_nodes :=
  THROW invalid_argument "invalid production reduce-tree node"
    WHEN (tree_id =? 0) || (expected_inputs node =? 0) ||
         (parent_output node <? WEST) || (CENTER <? parent_output node);;
  let it := g !! (tree_id, router_id) in
  THROW runtime_error "conflicting production reduce-tree node"
    WHEN match it with
         | Some n => negb (expected_inputs n =? expected_inputs node)
                     || negb (parent_output n =? parent_output node)
         | None => false end;;
  THROW runtime_error "production reduce-tree table capacity exhausted"
    WHEN match it with
         | None => COLL_REDUCE_NODES_PER_ROUTER <=? Z.of_nat (size (filter (fun kv => kv.1.2 = router_id) g))
         | Some _ => false end;;
  Ok (<[(tree_id, router_id) := node]> g).

Definition EraseCollectiveReduceTree (g : reduce_nodes) (tree_id : Z) : reduce_nodes * Z :=
  let g' := filter (fun kv => kv.1.1 <> tree_id) g in
  (g', Z.of_nat (size g) - Z.of_nat (size g')).

Definition CollectiveReduceNodeCount (g : reduce_nodes) : Z := Z.of_nat (size g).

Definition LookupCollectiveReduceNode (g : reduce_nodes) (tree_id router_id : Z) : result CollReduceTreeNode :=
  match g !! (tree_id, router_id) with
  | Some n => Ok n
  | None => Err (runtime_error "production reduce-tree node missing")
  end.

(** ** Lemmas on the search *)

Section dfs.
Context (edges : edge_map).
Definition edge (x y : Z) : Prop := y ∈ default [] (edges !! x).

Definition run_children (fuel : nat) (children : list Z) (acc : option (result dfs_state)) :=
  foldl (fun acc child => match acc with Some (Ok s) => dfs fuel edges child s | _ => acc end) acc children.

Lemma run_stuck fuel children acc : (forall s, acc <> Some (Ok s)) -> run_children fuel children acc = acc.
Proof.
  intros H. induction children as [|c cs IH]; cbn; [done|].
  destruct acc as [[s|e]|]; [by destruct (H s)|done|done].
Qed.

Lemma run_cons fuel c cs s :
  run_children fuel (c :: cs) (Some (Ok s)) = run_children fuel cs (dfs fuel edges c s).
Proof. done. Qed.

(** Finished nodes are well founded and closed under edges. *)
Definition good (s : dfs_state) : Prop :=
  forall x, x ∈ s.2 -> Acc (flip edge) x /\ forall y, edge x y -> y ∈ s.2.

Record dfs_post (starts : list Z) (s s' : dfs_state) : Prop := {
  post_visiting : s'.1 = s.1;
  post_good : good s -> good s';
  post_starts : forall x, x ∈ starts -> x ∈ s'.2;
  post_mono : s.2 ⊆ s'.2;
  post_reach : forall x, x ∈ s'.2 -> x ∈ s.2 \/ exists c, c ∈ starts /\ rtc edge c x
}.

Lemma run_post fuel children s s' :
  (forall node s s', dfs fuel edges node s = Some (Ok s') -> dfs_post [node] s s') ->
  run_children fuel children (Some (Ok s)) = Some (Ok s') -> dfs_post children s s'.
Proof.
  intros IHf. revert s; induction children as [|c cs IH]; intros s H.
  - cbn in H. simplify_eq. split; try done; [|by auto]. intros x Hx. by apply elem_of_nil in Hx.
  - rewrite run_cons in H. destruct (dfs fuel edges c s) as [[s1|e]|] eqn:E;
      [|by rewrite run_stuck in H..].
    apply IHf in E as [V1 G1 S1 M1 R1]. apply IH in H as [V2 G2 S2 M2 R2]. split.
    + congruence.
    + auto.
    + intros x [->|Hx]%elem_of_cons; [apply M2, S1; left|by apply S2].
    + set_solver.
    + intros x [Hx|(z & Hz & ?)]%R2.
      * apply R1 in Hx as [?|(z & Hz & ?)]; [by left|]. right; exists z. split; [|done]. set_solver.
      * right; exists z. split; [by right|done].
Qed.

Lemma dfs_ok fuel node s s' : dfs fuel edges node s = Some (Ok s') -> dfs_post [node] s s'.
Proof.
  revert node s s'; induction fuel as [|fuel IH]; intros node s s' H; [done|]. cbn in H.
  destruct (bool_decide_reflect (node ∈ s.1)) as [|Hv]; [done|].
  destruct (bool_decide_reflect (node ∈ s.2)) as [Hd|Hd].
  { simplify_eq. split; try done; [|by auto]. intros x ->%list_elem_of_singleton. done. }
  fold (run_children fuel (default [] (edges !! node)) (Some (Ok ({[node]} ∪ s.1, s.2)))) in H.
  destruct (run_children _ _ _) as [[s1|e]|] eqn:E; [|done|done]. simplify_eq.
  apply run_post in E as [V G S M R]; [|done]. cbn in *. split; cbn.
  - rewrite V. set_solver.
  - intros Hg. apply G in Hg. intros x Hx; cbn in Hx. apply elem_of_union in Hx as [->%elem_of_singleton|Hx].
    + split; [constructor; intros y Hy; by apply Hg, S|]. intros y Hy; cbn. apply elem_of_union_r. by apply S.
    + destruct (Hg x Hx) as [Ha Hc]. split; [done|]. intros y Hy. apply elem_of_union_r. by apply Hc.
  - intros x ->%list_elem_of_singleton. set_solver.
  - set_solver.
  - intros x [->%elem_of_singleton|Hx]%elem_of_union.
    + right; exists node. split; [left|done].
    + apply R in Hx as [?|(c & Hc & ?)]; [by left|]. right; exists node. split; [left|]. by eapply rtc_l.
Qed.

Lemma dfs_err fuel node s e : dfs fuel edges node s = Some (Err e) ->
  (forall x, x ∈ s.1 -> tc edge x node) -> exists z, rtc edge node z /\ tc edge z z.
Proof.
  revert node s e; induction fuel as [|fuel IH]; intros node s e H Hpath; [done|]. cbn in H.
  destruct (bool_decide_reflect (node ∈ s.1)) as [Hv|Hv]; [exists node; auto using rtc_refl|].
  destruct (bool_decide (node ∈ s.2)); [done|].
  fold (run_children fuel (default [] (edges !! node)) (Some (Ok ({[node]} ∪ s.1, s.2)))) in H.
  destruct (run_children _ _ _) as [[s1|e1]|] eqn:E; [done| |done]. clear H.
  set (s0 := ({[node]} ∪ s.1, s.2)) in E.
  assert (forall c x, edge node c -> x ∈ s0.1 -> tc edge x c) as Hp0.
  { intros c x Hc Hx. unfold s0 in Hx; cbn in Hx.
    apply elem_of_union in Hx as [->%elem_of_singleton|Hx]; [by constructor|].
    by eapply tc_r; [apply Hpath|]. }
  assert (forall c, c ∈ default [] (edges !! node) -> edge node c) as Hch by done.
  revert E Hp0 Hch. generalize (default [] (edges !! node)) as cs. generalize s0 as t.
  intros t cs. revert t. induction cs as [|c cs IHc]; intros t E Hp0 Hch; [done|]. rewrite run_cons in E.
  destruct (dfs fuel edges c t) as [[t1|e2]|] eqn:Ec.
  - apply IHc in E; [done| |intros; apply Hch; by right].
    pose proof (dfs_ok _ _ _ _ Ec) as [V _ _ _ _]. rewrite V. done.
  - apply IH in Ec as (z & ? & ?); [|intros; apply Hp0; [apply Hch; left|done]].
    exists z. split; [|done]. eapply rtc_l; [apply Hch; left|done].
  - by rewrite run_stuck in E.
Qed.

Lemma dfs_fuel (U : gset Z) : (forall x y, x ∈ U -> edge x y -> y ∈ U) ->
  forall fuel node s, node ∈ U -> (size (U ∖ s.1) < fuel)%nat -> dfs fuel edges node s <> None.
Proof.
  intros HU. induction fuel as [|fuel IH]; intros node s Hn Hs; [lia|]. cbn.
  destruct (bool_decide_reflect (node ∈ s.1)) as [|Hv]; [done|].
  destruct (bool_decide (node ∈ s.2)); [done|].
  fold (run_children fuel (default [] (edges !! node)) (Some (Ok ({[node]} ∪ s.1, s.2)))).
  enough (run_children fuel (default [] (edges !! node)) (Some (Ok ({[node]} ∪ s.1, s.2))) <> None) as Hr
    by (destruct (run_children _ _ _) as [[]|]; done).
  set (s0 := ({[node]} ∪ s.1, s.2)).
  assert (size (U ∖ s0.1) < fuel)%nat as Hs0.
  { eapply Nat.lt_le_trans; [|apply Nat.lt_succ_r, Hs]. apply subset_size. cbn. set_solver. }
  assert (forall c, c ∈ default [] (edges !! node) -> c ∈ U) as Hch by (intros; by eapply HU).
  revert Hs0 Hch. generalize (default [] (edges !! node)) as cs. generalize s0 as t.
  intros t cs. revert t. induction cs as [|c cs IHc]; intros t Ht Hch; [done|]. rewrite run_cons.
  destruct (dfs fuel edges c t) as [[t1|e]|] eqn:Ec.
  - apply IHc; [|intros; apply Hch; by right]. pose proof (dfs_ok _ _ _ _ Ec) as [V _ _ _ _]. by rewrite V.
  - by rewrite run_stuck.
  - exfalso. eapply IH; [apply Hch; left|exact Ht|exact Ec].
Qed.

Lemma acc_no_cycle x z : Acc (flip edge) x -> rtc edge x z -> ~ tc edge z z.
Proof.
  intros Ha Hxz. assert (Acc (flip edge) z) as Hz.
  { induction Hxz as [x|x y z Hxy _ IH]; [done|]. apply IH. by apply Ha. }
  clear Hxz Ha x. induction Hz as [z _ IH]. intros Hc.
  assert (exists y, edge z y /\ rtc edge y z) as (y & Hzy & Hyz).
  { inversion Hc; subst; [by exists z; split; [|apply rtc_refl]|].
    eexists; split; [done|]. by apply tc_rtc. }
  apply (IH y Hzy). eapply tc_rtc_l; [exact Hyz|by constructor].
Qed.
End dfs.

Lemma nodes_closed edges root x y : edge edges x y -> y ∈ nodes edges root.
Proof.
  unfold edge, nodes. intros Hy. apply elem_of_union_r.
  destruct (edges !! x) as [cs|] eqn:E; cbn in Hy; [|by apply elem_of_nil in Hy].
  revert x cs Hy E. apply (map_fold_weak_ind (fun U m => forall x cs, y ∈ cs -> m !! x = Some cs -> y ∈ U)).
  - intros x cs _ H. by rewrite lookup_empty in H.
  - intros k v m U _ IH x cs Hy Hx. apply lookup_insert_Some in Hx as [[<- ->]|[Hne Hx]].
    + apply elem_of_union_l. by apply elem_of_list_to_set.
    + apply elem_of_union_r. by eapply IH.
Qed.

(** ** The edges the table describes *)

Section spec.
Context (GRID_X TOTAL_CORES : Z).

(** [router] sends on direction [d] in tree [t]. *)
Definition sends (g : fabric) (t router d : Z) : Prop :=
  exists ingress outputs, g_tree_entries g !! mkTreeKey t router ingress = Some outputs /\
    Z.testbit outputs d = true /\ 0 <= d < DIRECTIONS.
Definition tree_edge (g : fabric) (t x y : Z) : Prop :=
  exists d, sends g t x d /\ d <> CENTER /\ y = u16 (next_router GRID_X x d).
(** The test on an edge: the code compares the next router with the range of ids, not
    with the rows of the mesh. *)
Definition next_in_range (g : fabric) (t : Z) : Prop :=
  forall x d, sends g t x d -> d <> CENTER -> 0 <= next_router GRID_X x d < TOTAL_CORES.

(** A delivery [inl r] or an edge [inr (x, y)] collected so far. *)
Definition collected (acc : edge_map * gset Z) (y : Z + Z * Z) : Prop :=
  match y with inl r => r ∈ acc.2 | inr (x, y) => edge acc.1 x y end.
Definition contributes (router outputs d : Z) (y : Z + Z * Z) : Prop :=
  Z.testbit outputs d = true /\
  match y with
  | inl r => d = CENTER /\ r = router
  | inr (x, y) => d <> CENTER /\ x = router /\ y = u16 (next_router GRID_X router d)
  end.
Definition entry_contributes (t : Z) (e : CollectiveTreeKey * Z) (y : Z + Z * Z) : Prop :=
  tk_tree_id e.1 = t /\ exists d, d ∈ seqZ 0 DIRECTIONS /\ contributes (tk_router_id e.1) e.2 d y.

Lemma collect_direction_spec router outputs acc d acc' :
  collect_direction GRID_X TOTAL_CORES router outputs acc d = Ok acc' ->
  forall y, collected acc' y <-> collected acc y \/ contributes router outputs d y.
Proof.
  unfold collect_direction, contributes. intros Hd [r|[x z]]; cbn [collected].
  - destruct (Z.testbit outputs d); cbn [negb] in Hd; [|simplify_eq; naive_solver].
    destruct (Z.eqb_spec d CENTER) as [Hc|Hc]; [simplify_eq; cbn; set_solver|].
    apply throw_bind_ok in Hd as [_ Hd]. simplify_eq. cbn. naive_solver.
  - destruct (Z.testbit outputs d); cbn [negb] in Hd; [|simplify_eq; naive_solver].
    destruct (Z.eqb_spec d CENTER) as [Hc|Hc]; [simplify_eq; cbn; naive_solver|].
    apply throw_bind_ok in Hd as [_ Hd]. simplify_eq. cbn [fst snd]. unfold edge.
    destruct (Z.eq_dec router x) as [->|Hne].
    + rewrite lookup_insert_eq. cbn [from_option]; unfold id. rewrite elem_of_app, list_elem_of_singleton. naive_solver.
    + rewrite lookup_insert_ne by done. naive_solver.
Qed.

Lemma collect_entry_spec t acc e acc' : collect_entry GRID_X TOTAL_CORES t acc e = Ok acc' ->
  forall y, collected acc' y <-> collected acc y \/ entry_contributes t e y.
Proof.
  unfold collect_entry, entry_contributes. destruct (Z.eqb_spec (tk_tree_id e.1) t) as [Ht|Ht]; cbn [negb].
  - intros H y. pose proof (foldM_collects _ collected (contributes (tk_router_id e.1) e.2) _ _ _
      (fun s d s' _ => collect_direction_spec _ _ s d s') H y). naive_solver.
  - intros [= ->] y. naive_solver.
Qed.

Lemma collect_entry_ok t acc e :
  is_ok (collect_entry GRID_X TOTAL_CORES t acc e) = true <->
  (tk_tree_id e.1 = t -> forall d, d ∈ seqZ 0 DIRECTIONS -> Z.testbit e.2 d = true -> d <> CENTER ->
     0 <= next_router GRID_X (tk_router_id e.1) d < TOTAL_CORES).
Proof.
  unfold collect_entry. destruct (Z.eqb_spec (tk_tree_id e.1) t) as [Ht|Ht]; cbn [negb]; [|split; done].
  rewrite (foldM_is_ok _ (fun d => Z.testbit e.2 d = true -> d <> CENTER ->
     0 <= next_router GRID_X (tk_router_id e.1) d < TOTAL_CORES)); [naive_solver|].
  intros s d _. unfold collect_direction. destruct (Z.testbit e.2 d); cbn [negb]; [|split; done].
  destruct (Z.eqb_spec d CENTER) as [Hc|Hc]; [split; naive_solver|].
  destruct (Z.ltb_spec (next_router GRID_X (tk_router_id e.1) d) 0),
    (Z.leb_spec TOTAL_CORES (next_router GRID_X (tk_router_id e.1) d)); cbn; split; try done;
    intros Hx; specialize (Hx eq_refl Hc); lia.
Qed.

Lemma collected_iff g t edges delivered :
  foldM (collect_entry GRID_X TOTAL_CORES t) (∅, ∅) (map_to_list (g_tree_entries g)) = Ok (edges, delivered) ->
  (forall r, r ∈ delivered <-> sends g t r CENTER) /\ (forall x y, edge edges x y <-> tree_edge g t x y).
Proof.
  intros H. pose proof (foldM_collects _ collected (entry_contributes t) _ _ _
    (fun s e s' _ He => collect_entry_spec t s e s' He) H) as Hc.
  assert (forall r d, sends g t r d <-> exists e, e ∈ map_to_list (g_tree_entries g) /\ tk_tree_id e.1 = t /\
    tk_router_id e.1 = r /\ Z.testbit e.2 d = true /\ d ∈ seqZ 0 DIRECTIONS) as Hs.
  { intros r d. unfold sends. split.
    - intros (i & o & Hl & Hb & Hd). exists (mkTreeKey t r i, o). rewrite elem_of_map_to_list, elem_of_seqZ.
      repeat split; done || lia.
    - intros ([[t' r' i] o] & Hl & <- & <- & Hb & Hd). cbn in *. apply elem_of_map_to_list in Hl.
      apply elem_of_seqZ in Hd. exists i, o. repeat split; done || lia. }
  split.
  - intros r. rewrite Hs. specialize (Hc (inl r)). cbn in Hc. rewrite Hc. unfold entry_contributes, contributes.
    split; [intros [?|(e & He & Ht & d & Hd & Hb & -> & ->)]; [set_solver|exists e; naive_solver]|].
    intros (e & He & Ht & Hr & Hb & Hd). right. exists e. naive_solver.
  - intros x y. specialize (Hc (inr (x, y))). cbn in Hc. rewrite Hc. unfold entry_contributes, contributes, tree_edge.
    setoid_rewrite Hs. split.
    + intros [He|(e & He & Ht & d & Hd & Hb & Hne & -> & ->)].
      * unfold edge in He. rewrite lookup_empty in He. by apply elem_of_nil in He.
      * exists d. split; [|done]. exists e. naive_solver.
    + intros (d & (e & He & Ht & Hr & Hb & Hd) & Hne & ->). right. exists e. naive_solver.
Qed.
End spec.

Lemma check_targets_ok root targets visited delivered :
  check_targets root targets visited delivered = Ok tt <->
  forall x, x ∈ targets -> x <> root -> x ∈ visited /\ x ∈ delivered.
Proof.
  unfold check_targets.
  trans (is_ok (foldM (fun (_ : unit) target =>
      THROW runtime_error "collective tree does not cover target group"
        WHEN negb (target =? root) &&
             (negb (bool_decide (target ∈ visited)) || negb (bool_decide (target ∈ delivered)));;
      Ok tt) tt targets) = true).
  - rewrite is_ok_true. split; [by exists tt|]. by intros [[] ?].
  - rewrite (foldM_is_ok _ (fun x => x <> root -> x ∈ visited /\ x ∈ delivered)); [done|].
    intros _ x _. destruct (Z.eqb_spec x root); cbn; [split; done|].
    do 2 case_bool_decide; cbn; naive_solver.
Qed.

Section validate_spec.
Context (GRID_X TOTAL_CORES : Z).

(** What the validator promises about a tree. *)
Record tree_wf (g : fabric) (t root : Z) (targets : list Z) : Prop := {
  wf_range : next_in_range GRID_X TOTAL_CORES g t;
  wf_acyclic : forall z, rtc (tree_edge GRID_X g t) root z -> ~ tc (tree_edge GRID_X g t) z z;
  wf_covers : forall x, x ∈ targets -> x <> root ->
    rtc (tree_edge GRID_X g t) root x /\ sends g t x CENTER
}.

Lemma next_in_range_entries g t :
  next_in_range GRID_X TOTAL_CORES g t <->
  forall e, e ∈ map_to_list (g_tree_entries g) -> tk_tree_id e.1 = t -> forall d, d ∈ seqZ 0 DIRECTIONS ->
    Z.testbit e.2 d = true -> d <> CENTER ->
    0 <= next_router GRID_X (tk_router_id e.1) d < TOTAL_CORES.
Proof.
  unfold next_in_range, sends. split.
  - intros H [[t' r i] o] He Ht d Hd Hb Hc. cbn in *. subst t'. apply H; [|done].
    exists i, o. apply elem_of_map_to_list in He. apply elem_of_seqZ in Hd. repeat split; done || lia.
  - intros H x d (i & o & Hl & Hb & Hd) Hc. apply (H (mkTreeKey t x i, o)); try done.
    + by apply elem_of_map_to_list.
    + apply elem_of_seqZ; lia.
Qed.

Lemma rtc_same {R1 R2 : relation Z} : (forall x y, R1 x y <-> R2 x y) -> forall x y, rtc R1 x y <-> rtc R2 x y.
Proof. intros H x y. split; apply rtc_subrel; intros ??; apply H. Qed.
Lemma tc_same {R1 R2 : relation Z} : (forall x y, R1 x y <-> R2 x y) -> forall x y, tc R1 x y <-> tc R2 x y.
Proof. intros H x y. split; (induction 1; [constructor|eapply tc_l; [|done]]; by apply H). Qed.

Lemma dfs_visited edges fuel root s : dfs fuel edges root (∅, ∅) = Some (Ok s) ->
  (forall x, x ∈ s.2 <-> rtc (edge edges) root x) /\ Acc (flip (edge edges)) root.
Proof.
  intros H. apply dfs_ok in H as [_ Hg Hs _ Hr]. cbn in *.
  assert (good edges s) as Hgood by (apply Hg; intros x Hx; set_solver).
  assert (root ∈ s.2) as Hroot by (apply Hs; left).
  split; [|by apply Hgood]. intros x. split.
  - intros Hx. apply Hr in Hx as [Hx|(c & ->%list_elem_of_singleton & Hx)]; [set_solver|done].
  - intros Hx. clear Hs Hr. induction Hx as [|x y z Hxy _ IH]; [done|].
    apply IH. destruct (Hgood x Hroot) as [_ Hc]. by apply Hc.
Qed.

Lemma validate_tree_spec g t root targets :
  exists r, ValidateCollectiveTree GRID_X TOTAL_CORES g t root targets = Some r /\
    (r = Ok tt <-> tree_wf g t root targets).
Proof.
  unfold ValidateCollectiveTree.
  pose proof (foldM_is_ok (collect_entry GRID_X TOTAL_CORES t) _ (map_to_list (g_tree_entries g)) (∅, ∅)
    (fun s e _ => collect_entry_ok GRID_X TOTAL_CORES t s e)) as Hmesh.
  rewrite <- next_in_range_entries in Hmesh.
  destruct (foldM _ _ _) as [[edges delivered]|e] eqn:E; cbn in Hmesh.
  2: { eexists; split; [done|]. split; [done|]. intros [Hm _ _]. by apply Hmesh in Hm. }
  pose proof (collected_iff _ _ _ _ _ _ E) as [Hdel Hedge].
  pose proof (rtc_same Hedge) as Hrtc. pose proof (tc_same Hedge) as Htc.
  assert (dfs (S (size (nodes edges root))) edges root (∅, ∅) <> None) as Hfuel.
  { apply (dfs_fuel edges (nodes edges root)).
    - intros x y _ Hxy. by eapply nodes_closed.
    - unfold nodes. set_solver.
    - cbn. rewrite difference_empty_L. lia. }
  destruct (dfs _ _ _ _) as [[s|e]|] eqn:D; [| |done].
  - eexists; split; [done|]. apply dfs_visited in D as [Hvis Hacc]. rewrite check_targets_ok. split.
    + intros H. split; [by apply Hmesh| |].
      * intros z Hz Hc. apply (acc_no_cycle edges root z); [done|by apply Hrtc|by apply Htc].
      * intros x Hx Hne. destruct (H x Hx Hne) as [H1 H2]. split; [by apply Hrtc, Hvis|by apply Hdel].
    + intros [_ _ Hcov] x Hx Hne. destruct (Hcov x Hx Hne). split; [by apply Hvis, Hrtc|by apply Hdel].
  - eexists; split; [done|]. split; [done|]. intros [_ Hac _].
    apply dfs_err in D as (z & Hz & Hc); [|cbn; set_solver].
    exfalso. apply (Hac z); [by apply Hrtc|by apply Htc].
Qed.
End validate_spec.

(** ** Lemmas on the tables *)

(** An entry a router may hold. *)
Definition entry_ok (k : CollectiveTreeKey) (o : Z) : Prop :=
  tk_tree_id k <> 0 /\ tk_ingress k < DIRECTIONS /\ o <> 0 /\
  Z.land o (Z.lnot COLL_OUTPUT_MASK) = 0 /\ Z.land o (Z.shiftl 1 (tk_ingress k)) = 0.

Definition table_inv (t : CollectiveTreeTable) : Prop :=
  Z.of_nat (size (tt_entries t)) <= tt_capacity t /\ map_Forall entry_ok (tt_entries t).

Lemma Program_ok t k o t' : Program t k o = Ok t' ->
  entry_ok k o /\ tt_capacity t' = tt_capacity t /\
  ((tt_entries t !! k = Some o /\ t' = t) \/
   (tt_entries t !! k = None /\ Z.of_nat (size (tt_entries t)) <> tt_capacity t /\
    tt_entries t' = <[k := o]> (tt_entries t))).
Proof.
  unfold Program. intros H. apply throw_bind_ok in H as [H1 H]. apply throw_bind_ok in H as [H2 H].
  split_guards. split; [by repeat split|].
  destruct (tt_entries t !! k) as [o'|].
  - apply throw_bind_ok in H as [Hc H]. split_guards. simplify_eq. auto.
  - apply throw_bind_ok in H as [Hc H]. split_guards. simplify_eq. auto.
Qed.

Lemma Program_inv t k o t' : table_inv t -> Program t k o = Ok t' -> table_inv t'.
Proof.
  intros [Hs Hf] H. apply Program_ok in H as (Ho & Hc & [[_ ->]|(Hn & Hne & He)]); [done|].
  split; rewrite He; [|by apply map_Forall_insert_2]. rewrite map_size_insert_None by done. lia.
Qed.

Lemma EraseTree_inv t tid : table_inv t -> table_inv (EraseTree t tid).1.
Proof.
  intros [Hs Hf]. split; cbn.
  - etransitivity; [|exact Hs]. apply inj_le, map_subseteq_size, map_filter_subseteq.
  - intros k o H. apply map_lookup_filter_Some in H as [H _]. by apply Hf.
Qed.

Definition fabric_inv (g : fabric) : Prop :=
  map_Forall entry_ok (g_tree_entries g) /\
  forall r, Z.of_nat (per_router (g_tree_entries g) r) <= COLL_TREE_ENTRIES_PER_ROUTER.

Lemma ProgramCollectiveTreeEntry_ok g k o g' : ProgramCollectiveTreeEntry g k o = Ok g' ->
  entry_ok k o /\ g_tree_entries g' = <[k := o]> (g_tree_entries g) /\
  (g_tree_entries g !! k = Some o \/
   (g_tree_entries g !! k = None /\ Z.of_nat (per_router (g_tree_entries g) (tk_router_id k)) < COLL_TREE_ENTRIES_PER_ROUTER)).
Proof.
  unfold ProgramCollectiveTreeEntry. intros H. apply bind_ok in H as (v & _ & H). apply bind_ok in H as (v' & Hv & H).
  apply throw_bind_ok in H as [H1 H]. apply throw_bind_ok in H as [H2 H]. apply Program_ok in Hv as [Ho _].
  simplify_eq. split; [done|]. split; [done|].
  destruct (g_tree_entries g !! k) as [o'|]; split_guards; [left; congruence|right; split; [done|lia]].
Qed.

Lemma filter_insert_size (P : CollectiveTreeKey * Z -> Prop) `{!forall x, Decision (P x)} (m : tree_map) k o :
  m !! k = None ->
  size (filter P (<[k := o]> m)) = if decide (P (k, o)) then S (size (filter P m)) else size (filter P m).
Proof.
  intros Hm. destruct (decide (P (k, o))) as [Hp|Hp].
  - rewrite map_filter_insert_True by done. apply map_size_insert_None. apply map_lookup_filter_None. by left.
  - by rewrite map_filter_insert_not' by (done || naive_solver).
Qed.

Lemma ProgramCollectiveTreeEntry_inv g k o g' :
  fabric_inv g -> ProgramCollectiveTreeEntry g k o = Ok g' -> fabric_inv g'.
Proof.
  intros [Hf Hr] H. apply ProgramCollectiveTreeEntry_ok in H as (Ho & He & Hc).
  unfold fabric_inv. rewrite He.
  split; [by apply map_Forall_insert_2|]. intros r. unfold per_router in *.
  destruct Hc as [Hk|[Hk Hlt]]; [rewrite insert_id by done; apply Hr|].
  rewrite filter_insert_size by done. case_decide as Hd; [|apply Hr]. cbn in Hd. subst r. lia.
Qed.

(** ** Lemmas on the fork *)

Definition lane_inv (l : lane) : Prop := in_u 32 (refs l) /\ locked l = (0 <? refs l).
Definition fork_inv (f : fork) : Prop := length f = 5%nat /\ Forall lane_inv f.

Lemma commit_from_none ds f outputs first tail key : NoDup ds ->
  (forall d, d ∈ ds -> (d < length f)%nat) ->
  let r := commit_from ds f outputs first tail key in
  (r.2 = None <-> forall d, d ∈ ds -> Z.testbit outputs (Z.of_nat d) = true ->
                    is_ok (commit_lane (f !!! d) first tail key) = true) /\
  (r.2 = None -> length r.1 = length f /\ forall d,
    if bool_decide (d ∈ ds) && Z.testbit outputs (Z.of_nat d)
    then commit_lane (f !!! d) first tail key = Ok (r.1 !!! d) else r.1 !!! d = f !!! d).
Proof.
  revert f. induction ds as [|d ds IH]; intros f Hnd Hlen; cbn [commit_from].
  - cbn. split; [|done]. split; [|done]. intros _ d Hd. by apply elem_of_nil in Hd.
  - apply list.NoDup_cons in Hnd as [Hd Hnd].
    assert (d < length f)%nat as Hdl by (apply Hlen; left).
    assert (forall d', d' ∈ ds -> (d' < length f)%nat) as Hlen' by (intros; apply Hlen; by right).
    destruct (Z.testbit outputs (Z.of_nat d)) eqn:Hb.
    + destruct (commit_lane (f !!! d) first tail key) as [l|e] eqn:Hl; cbn zeta.
      2: { cbn [snd]. split; [|done]. split; [done|]. intros H.
           specialize (H d (list_elem_of_here _ _) Hb). by rewrite Hl in H. }
      destruct (IH (<[d:=l]> f) Hnd ltac:(intros; rewrite length_insert; auto)) as [IH1 IH2].
      assert (forall d', d' ∈ ds -> <[d:=l]> f !!! d' = f !!! d') as Hsame
        by (intros; apply list_lookup_total_insert_ne; naive_solver).
      split.
      * rewrite IH1. split.
        -- intros H d' [->|Hd']%elem_of_cons Hb'; [by rewrite Hl|]. rewrite <- Hsame by done. by apply H.
        -- intros H d' Hd' Hb'. rewrite Hsame by done. apply H; [by right|done].
      * intros Hr. destruct (IH2 Hr) as [HL HF]. rewrite length_insert in HL. split; [done|]. intros d'.
        specialize (HF d'). destruct (decide (d' = d)) as [->|Hne].
        -- rewrite bool_decide_false in HF by done. cbn in HF. rewrite bool_decide_true, Hb by left. cbn.
           rewrite HF, list_lookup_total_insert_eq by done. done.
        -- rewrite list_lookup_total_insert_ne in HF by done.
           rewrite (bool_decide_ext (d' ∈ d :: ds) (d' ∈ ds)) by (rewrite elem_of_cons; naive_solver). done.
    + destruct (IH f Hnd Hlen') as [IH1 IH2]. cbn zeta in *. split.
      * rewrite IH1. split; intros H d' Hd' Hb'; [|apply H; [by right|done]].
        apply elem_of_cons in Hd' as [->|Hd']; [congruence|by apply H].
      * intros Hr. destruct (IH2 Hr) as [HL HF]. split; [done|]. intros d'. specialize (HF d').
        destruct (decide (d' = d)) as [->|Hne].
        -- rewrite Hb, andb_false_r in *. done.
        -- by rewrite (bool_decide_ext (d' ∈ d :: ds) (d' ∈ ds)) by (rewrite elem_of_cons; naive_solver).
Qed.

Lemma commit_lane_ok l first tail key l' : lane_inv l -> refs l + 1 < 2 ^ 32 ->
  commit_lane l first tail key = Ok l' ->
  lane_inv l' /\ refs l' = refs l + b2z first - b2z tail /\
  (locked l' = true -> (locked l = true -> lkey l = key) -> lkey l' = key \/ first = false /\ tail = false /\ l' = l).
Proof.
  intros [Hr Hl] Hb H. unfold commit_lane in H. destruct l as [lk r k]; cbn in *.
  assert (u32 (r + 1) = r + 1) as Hu by (apply wrap_small; unfold in_u in *; lia).
  destruct first, tail; cbn in H.
  - rewrite Hu in H. apply throw_bind_ok in H as [Hg H]. injection H as <-. cbn.
    replace (r + 1 - 1) with r by lia. rewrite (wrap_small 32 r) by done.
    unfold lane_inv; cbn. split; [|split; [lia|by left]]. split; [done|].
    destruct (Z.eqb_spec r 0), (Z.ltb_spec 0 r); try done; unfold in_u in *; lia.
  - injection H as <-. rewrite Hu. unfold lane_inv; cbn. split; [|split; [lia|by left]].
    split; [unfold in_u in *; lia|]. symmetry; apply Z.ltb_lt; unfold in_u in *; lia.
  - apply throw_bind_ok in H as [Hg H]. split_guards. injection H as <-. cbn.
    assert (u32 (r - 1) = r - 1) as Hu' by (apply wrap_small; unfold in_u in *; lia). rewrite Hu'.
    unfold lane_inv; cbn. split; [|split; [lia|]].
    + split; [unfold in_u in *; lia|].
      destruct (Z.eqb_spec (r - 1) 0), (Z.ltb_spec 0 (r - 1)); try done; unfold in_u in *; lia || congruence.
    + intros _ _. left. match goal with H : bool_decide _ = true |- _ => by apply bool_decide_eq_true in H end.
  - injection H as <-. split; [done|]. split; [cbn; lia|]. auto.
Qed.

(** The throw of [Commit] on a lane that [CanCommit] allows. *)
Lemma commit_lane_throws l first tail key : lane_inv l -> refs l + 1 < 2 ^ 32 ->
  (locked l = true -> lkey l = key) ->
  is_ok (commit_lane l first tail key) = negb (tail && negb first && negb (locked l)).
Proof.
  intros [Hr Hl] Hb Hk. unfold commit_lane. destruct l as [lk r k]; cbn in *.
  assert (u32 (r + 1) = r + 1) as Hu by (apply wrap_small; unfold in_u in *; lia).
  destruct first, tail; cbn; try done.
  - rewrite Hu, bool_decide_true by done. destruct (Z.eqb_spec (r + 1) 0); [unfold in_u in *; lia|done].
  - destruct lk; cbn; [|done]. symmetry in Hl; apply Z.ltb_lt in Hl.
    rewrite bool_decide_true by auto. destruct (Z.eqb_spec r 0); [lia|done].
Qed.

Lemma CanCommit_lanes f outputs available key : CanCommit f outputs available key = true ->
  outputs <> 0 /\ forall d, (d < 5)%nat -> Z.testbit outputs (Z.of_nat d) = true ->
    available !!! d = true /\ (locked (f !!! d) = true -> lkey (f !!! d) = key).
Proof.
  unfold CanCommit. intros [H Hz]%andb_prop. split; [by apply negb_true_iff, Z.eqb_neq in Hz|].
  intros d Hd Hb. rewrite forallb_forall in H. specialize (H d). rewrite <- list_elem_of_In, elem_of_seq in H.
  specialize (H ltac:(lia)). rewrite Hb in H. cbn in H. apply andb_prop in H as [Ha Hk]. split; [done|].
  intros Hl. rewrite Hl in Hk. cbn in Hk. by apply negb_true_iff, negb_false_iff, bool_decide_eq_true in Hk.
Qed.

(** ** Properties *)

(** The operations that change the registry. *)
Inductive fabric_step : fabric -> fabric -> Prop :=
  | step_program g k o g' : ProgramCollectiveTreeEntry g k o = Ok g' -> fabric_step g g'
  | step_erase g tid : fabric_step g (EraseCollectiveTree g tid).1
  | step_fork g tid r o c : fabric_step g (RecordCollectiveForkAttempt g tid r o c)
  | step_shared g r o c : fabric_step g (RecordCollectiveSharedOutput g r o c).

Lemma fabric_step_inv g g' : fabric_inv g -> fabric_step g g' -> fabric_inv g'.
Proof.
  intros Hinv Hs. destruct Hs as [g k o g' H|g tid|g tid r o c|g r o c]; try done.
  - by eapply ProgramCollectiveTreeEntry_inv.
  - destruct Hinv as [Hf Hr]. split; cbn.
    + intros k o H. apply map_lookup_filter_Some in H as [H _]. by apply Hf.
    + intros r. etransitivity; [|apply (Hr r)]. unfold per_router. apply inj_le, map_subseteq_size.
      apply map_subseteq_spec. intros k o H. rewrite !map_lookup_filter_Some in *. tauto.
Qed.

(** C29: the distribution-tree validator decides what it claims, and always
    terminates.  On any registry content the depth-first search ends within
    its fuel, and it accepts exactly when every edge of the table leads to a router id
    of the machine, no router reachable from the root lies on a cycle, and every target
    other than the root is reachable and delivers locally.  So much and no more: an edge
    that runs off the end of a row and a router with two parents are accepted
    ([row_wrap_accepted], [two_parents_accepted]). *)
Theorem tree_validation_correct (GRID_X TOTAL_CORES : Z) (g : fabric) (t root : Z) (targets : list Z) :
  exists r, ValidateCollectiveTree GRID_X TOTAL_CORES g t root targets = Some r /\
    (r = Ok tt <-> tree_wf GRID_X TOTAL_CORES g t root targets).
Proof. apply validate_tree_spec. Qed.

(** On a grid of four columns, the EAST output of core 3 is taken for an edge to core 4. *)
Definition row_wrap : fabric := mkFabric (<[mkTreeKey 1 3 4 := 2]> {[mkTreeKey 1 4 0 := 16]}) ∅ ∅.
Example row_wrap_accepted : ValidateCollectiveTree 4 16 row_wrap 1 3 [4] = Some (Ok tt).
Proof. vm_compute. reflexivity. Qed.
(** Core 0 sends EAST and NORTH, and both ways meet again at core 5. *)
Definition two_parents : fabric :=
  mkFabric (<[mkTreeKey 1 0 4 := 6]> (<[mkTreeKey 1 1 0 := 4]> (<[mkTreeKey 1 4 3 := 2]> {[mkTreeKey 1 5 0 := 16]}))) ∅ ∅.
Example two_parents_accepted : ValidateCollectiveTree 4 16 two_parents 1 0 [5] = Some (Ok tt).
Proof. vm_compute. reflexivity. Qed.

(** The production tree registry.  In every state reachable by
    programming, erasing and recording, each router holds at most 64 entries
    and each entry has a non-zero tree, a real ingress and a non-empty output
    set inside the mask that never sends back where it came from; a
    programmed key looks up to its outputs, re-programming it with other
    outputs is refused, and erasing a tree removes its entries and no others. *)
Theorem tree_registry_safe (g : fabric) (k : CollectiveTreeKey) (o : Z) (g' : fabric) :
  rtc fabric_step ResetCollectiveFabric g -> ProgramCollectiveTreeEntry g k o = Ok g' ->
  fabric_inv g /\ fabric_inv g' /\
  LookupCollectiveTreeEntry g' k = Ok o /\
  (forall k', k' <> k -> LookupCollectiveTreeEntry g' k' = LookupCollectiveTreeEntry g k') /\
  (forall o', o' <> o -> is_ok (ProgramCollectiveTreeEntry g' k o') = false) /\
  (forall k', LookupCollectiveTreeEntry (EraseCollectiveTree g' (tk_tree_id k)).1 k' =
     if tk_tree_id k' =? tk_tree_id k then Err (runtime_error "production collective tree entry missing")
     else LookupCollectiveTreeEntry g k').
Proof.
  intros Hreach H.
  assert (fabric_inv g) as Hinv.
  { assert (fabric_inv ResetCollectiveFabric) as H0 by (split; [apply map_Forall_empty|by intros r; vm_compute]).
    induction Hreach as [|x y z Hs _ IH]; [done|]. apply IH; [done|]. by eapply fabric_step_inv. }
  split; [done|]. split; [by eapply ProgramCollectiveTreeEntry_inv|].
  pose proof (ProgramCollectiveTreeEntry_ok _ _ _ _ H) as (Ho & He & _).
  unfold LookupCollectiveTreeEntry. rewrite He. split; [by rewrite lookup_insert_eq|].
  split; [intros k' Hk; by rewrite lookup_insert_ne|]. split.
  - intros o' Hne. destruct (ProgramCollectiveTreeEntry g' k o') as [g2|] eqn:E; [|done].
    apply ProgramCollectiveTreeEntry_ok in E as (_ & _ & [E|[E _]]); rewrite He, lookup_insert_eq in E; congruence.
  - intros k'. cbn [fst EraseCollectiveTree g_tree_entries]. rewrite He.
    destruct (Z.eqb_spec (tk_tree_id k') (tk_tree_id k)) as [Ht|Ht].
    + rewrite (proj2 (map_lookup_filter_None _ _ _)); [done|]. right. by intros x _ Hx.
    + assert (k <> k') by congruence.
      destruct (g_tree_entries g !! k') as [x|] eqn:E.
      * rewrite (proj2 (map_lookup_filter_Some _ _ _ x)); [done|]. by rewrite lookup_insert_ne.
      * rewrite (proj2 (map_lookup_filter_None _ _ _)); [done|]. left. by rewrite lookup_insert_ne.
Qed.

(** C30: branch exclusion of the atomic multicast fork.  A commit that
    [CanCommit] allowed keeps, in every direction, the lock equal to a
    positive reference count; it moves each selected direction's count by
    exactly head minus tail and touches no other; a selected direction that
    was locked was locked by this packet and, if it stays locked, still is, so
    no other packet can commit through it; and it throws only for a tail that
    follows no head on some selected direction. *)
Theorem fork_branch_exclusion (f : fork) (outputs : Z) (available : list bool) (first tail : bool)
    (key : CollBranchLockKey) :
  fork_inv f -> Forall (fun l => refs l + 1 < 2 ^ 32) f -> CanCommit f outputs available key = true ->
  let (f', e) := Commit f outputs first tail key in
  (e = None <-> forall d, (d < 5)%nat -> Z.testbit outputs (Z.of_nat d) = true ->
                 tail && negb first && negb (locked (f !!! d)) = false) /\
  (e = None -> fork_inv f' /\ forall d, (d < 5)%nat ->
    if Z.testbit outputs (Z.of_nat d)
    then refs (f' !!! d) = refs (f !!! d) + b2z first - b2z tail /\
         (locked (f !!! d) = true -> lkey (f !!! d) = key) /\
         (locked (f' !!! d) = true -> forall outputs' available' key',
            Z.testbit outputs' (Z.of_nat d) = true -> key' <> key -> CanCommit f' outputs' available' key' = false)
    else f' !!! d = f !!! d).
Proof.
  intros [Hlen Hf] Hb Hc. apply CanCommit_lanes in Hc as [_ Hc].
  assert (forall d, (d < 5)%nat -> lane_inv (f !!! d) /\ refs (f !!! d) + 1 < 2 ^ 32) as Hlane.
  { intros d Hd. destruct (lookup_lt_is_Some_2 f d ltac:(lia)) as [l Hl].
    rewrite (list_lookup_total_correct _ _ _ Hl). by split; [apply (Forall_lookup_1 _ _ _ _ Hf Hl)|apply (Forall_lookup_1 _ _ _ _ Hb Hl)]. }
  destruct (commit_from_none (seq 0 5) f outputs first tail key) as [H1 H2].
  { apply NoDup_seq. } { intros d Hd. apply elem_of_seq in Hd. lia. }
  fold (Commit f outputs first tail key) in H1, H2. destruct (Commit f outputs first tail key) as [f' e]. cbn [fst snd] in *.
  split.
  - rewrite H1. split; intros H d Hd Hbit.
    + destruct (Hlane d Hd). specialize (H d ltac:(apply elem_of_seq; lia) Hbit).
      rewrite commit_lane_throws in H by (done || by apply Hc). by apply negb_true_iff in H.
    + apply elem_of_seq in Hd. destruct (Hlane d ltac:(lia)). rewrite commit_lane_throws by (done || by apply Hc; [lia|]).
      rewrite H; [done|lia|done].
  - intros He. destruct (H2 He) as [HL HF].
    assert (forall d, (d < 5)%nat -> if Z.testbit outputs (Z.of_nat d)
      then commit_lane (f !!! d) first tail key = Ok (f' !!! d) else f' !!! d = f !!! d) as HF'.
    { intros d Hd. specialize (HF d). rewrite bool_decide_true in HF by (apply elem_of_seq; lia). done. }
    split.
    + split; [lia|]. apply Forall_lookup_2. intros d l Hl. pose proof (lookup_lt_Some _ _ _ Hl) as Hd. rewrite HL, Hlen in Hd.
      apply list_lookup_total_correct in Hl. destruct (Hlane d Hd). specialize (HF' d Hd).
      destruct (Z.testbit outputs (Z.of_nat d)); [|congruence].
      rewrite Hl in HF'. by eapply commit_lane_ok.
    + intros d Hd. destruct (Hlane d Hd) as [Hi Hr]. specialize (HF' d Hd). destruct (Z.testbit outputs (Z.of_nat d)) eqn:Hbit; [|done].
      destruct (commit_lane_ok _ _ _ _ _ Hi Hr HF') as (_ & Href & Hkey). destruct (Hc d Hd Hbit) as [_ Hk].
      split; [done|]. split; [done|]. intros Hl o' a' k' Hb' Hne. apply not_true_iff_false. intros Hc'.
      apply CanCommit_lanes in Hc' as [_ Hc']. destruct (Hc' d Hd Hb') as [_ Hk'].
      specialize (Hk' Hl). destruct (Hkey Hl Hk) as [|(-> & -> & Heq)]; [congruence|].
      rewrite Heq in *. specialize (Hk Hl). congruence.
Qed.

Definition ex_lock (chunk : Z) : CollBranchLockKey := mkLockKey 1 (mkCollectiveKey 1 1 1) 0 chunk.

Lemma fork_branch_exclusion_witness :
  let f1 := (Commit new_fork 6 true false (ex_lock 3)).1 in
  locked (f1 !!! 1%nat) = true /\
  (let (f', e) := Commit f1 6 false true (ex_lock 3) in
   e = None <-> forall d, (d < 5)%nat -> Z.testbit 6 (Z.of_nat d) = true ->
                 true && negb false && negb (locked (f1 !!! d)) = false).
Proof.
  intros f1. split; [by vm_compute|].
  assert (CanCommit f1 6 [true; true; true; true; true] (ex_lock 3) = true) as Hc by (by vm_compute).
  assert (fork_inv f1) as Hi.
  { split; [done|]. repeat constructor; try (by vm_compute). }
  assert (Forall (fun l => refs l + 1 < 2 ^ 32) f1) as Hb by (repeat constructor; by vm_compute).
  pose proof (fork_branch_exclusion f1 6 _ false true (ex_lock 3) Hi Hb Hc) as H.
  destruct (Commit f1 6 false true (ex_lock 3)). exact (proj1 H).
Defined.
