(* ===== verification/CollReduce.v ===== *)
(** In-network reduction ([include/dte/coll_innetwork_reduce.h]): the lane-wise
    integer reduction of packed operands and the bounded buffer that matches
    the operands of a reduction's children before it is serviced. *)

From S2P Require Import Prelude Bits CollTypes.

(** ** [ReduceIntegerOperands] *)

(** Accumulation of one operand's lane into [acc], both 64-bit values. *)
Definition reduce_step (dtype : CollDType) (op : CollReduceOp) (acc v : Z) : Z :=
  let width := CollDTypeBits dtype in
  if bool_decide (op = SUM) then u64 (acc + v)
  else if bool_decide (dtype = UINT8) then Z.max acc v
  else
    let sa := if width =? 32 then i32 acc else i64 acc in
    let sv := if width =? 32 then i32 v else i64 v in
    if sa <? sv then v else acc.

Definition lane_get (dtype : CollDType) (e : Z) (v : Z) : Z :=
  get v ((e + 1) * CollDTypeBits dtype - 1) (e * CollDTypeBits dtype).

Definition reduce_lane (dtype : CollDType) (op : CollReduceOp) (v0 : Z) (vs : list Z) (e : Z) : Z :=
  let width := CollDTypeBits dtype in
  let acc := foldl (fun acc v => reduce_step dtype op acc (lane_get dtype e v)) (lane_get dtype e v0) vs in
  if width <? 64 then Z.land acc (Z.shiftl 1 width - 1) else acc.

Definition ReduceIntegerOperands (values : list Z) (dtype : CollDType) (op : CollReduceOp) (count : Z)
    : result Z :=
  match values with
  | [] => Err (invalid_argument "unsupported integer reduction")
  | v0 :: vs =>
      THROW invalid_argument "unsupported integer reduction"
        WHEN bool_decide (dtype = FP32) || bool_decide (op = RO_NONE);;
      let width := CollDTypeBits dtype in
      THROW invalid_argument "invalid reduction count" WHEN (count =? 0) || (128 <? u64 (count * width));;
      Ok (foldl (fun out e => put out ((e + 1) * width - 1) (e * width) (reduce_lane dtype op v0 vs e))
            0 (seqZ 0 count))
  end.

(** ** The match buffer *)

Inductive CollOperandStatus : Type := ACCEPTED | READY | BACKPRESSURE | DUPLICATE | UNEXPECTED | MISMATCH.
#[export] Instance CollOperandStatus_eq_dec : EqDecision CollOperandStatus.
Proof. solve_decision. Defined.

(** [struct CollReduceMatchKey] *)
Record CollReduceMatchKey : Type := mkMatchKey {
  mk_collective : CollectiveKey; mk_phase_id : Z; mk_chunk_id : Z
}.
#[export] Instance CollReduceMatchKey_eq_dec : EqDecision CollReduceMatchKey.
Proof. solve_decision. Defined.
#[export] Instance CollReduceMatchKey_countable : Countable CollReduceMatchKey.
Proof.
  apply (inj_countable' (fun k => (mk_collective k, mk_phase_id k, mk_chunk_id k))
    (fun t => mkMatchKey t.1.1 t.1.2 t.2)). by intros [].
Defined.

(** [CollOperandMatchBuffer::State] *)
Record match_state : Type := mkMatchState {
  ms_expected : Z; (* uint64_t *)
  ms_received : Z; (* uint64_t *)
  ms_dtype : CollDType;
  ms_op : CollReduceOp;
  ms_count : Z; (* uint16_t *)
  ms_values : list Z
}.

Record CollOperandMatchBuffer : Type := mkMatchBuffer {
  hcap : Z; ocap : Z; operands : Z; states : gmap CollReduceMatchKey match_state
}.

Definition new_CollOperandMatchBuffer (header_capacity operand_capacity : Z) : result CollOperandMatchBuffer :=
  THROW invalid_argument "operand/header capacity must be positive"
    WHEN (header_capacity =? 0) || (operand_capacity =? 0);;
  Ok (mkMatchBuffer header_capacity operand_capacity 0 ∅).

Definition Open (b : CollOperandMatchBuffer) (key : CollReduceMatchKey) (expected_children : Z)
    (dtype : CollDType) (op : CollReduceOp) (count : Z) : result (CollOperandMatchBuffer * bool) :=
  THROW invalid_argument "invalid/duplicate match open"
    WHEN (expected_children =? 0) || bool_decide (is_Some (states b !! key));;
  THROW invalid_argument "unsupported match reduction mode"
    WHEN bool_decide (dtype = FP32) || bool_decide (op = RO_NONE) || (count =? 0)
         || (128 <? u64 (count * CollDTypeBits dtype));;
  if Z.of_nat (size (states b)) =? hcap b then Ok (b, false)
  else Ok (mkMatchBuffer (hcap b) (ocap b) (operands b)
             (<[key := mkMatchState expected_children 0 dtype op count []]> (states b)), true).

Definition Accept (b : CollOperandMatchBuffer) (key : CollReduceMatchKey) (child : Z) (dtype : CollDType)
    (op : CollReduceOp) (count payload : Z) : CollOperandMatchBuffer * CollOperandStatus :=
  match states b !! key with
  | None => (b, UNEXPECTED)
  | Some s =>
      if (64 <=? child) || (Z.land (ms_expected s) (Z.shiftl 1 child) =? 0) then (b, UNEXPECTED)
      else if negb (Z.land (ms_received s) (Z.shiftl 1 child) =? 0) then (b, DUPLICATE)
      else if negb (bool_decide (ms_dtype s = dtype)) || negb (bool_decide (ms_op s = op))
              || negb (ms_count s =? count) then (b, MISMATCH)
      else if operands b =? ocap b then (b, BACKPRESSURE)
      else
        let s' := mkMatchState (ms_expected s) (Z.lor (ms_received s) (Z.shiftl 1 child))
                    (ms_dtype s) (ms_op s) (ms_count s) (ms_values s ++ [payload]) in
        (mkMatchBuffer (hcap b) (ocap b) (operands b + 1) (<[key := s']> (states b)),
         if ms_received s' =? ms_expected s' then READY else ACCEPTED)
  end.

(** [struct CollDcaResult] *)
Record CollDcaResult : Type := mkDcaResult { dca_payload : Z; service_cycles : Z }.

Definition Consume (b : CollOperandMatchBuffer) (key : CollReduceMatchKey)
    : result (CollOperandMatchBuffer * CollDcaResult) :=
  match states b !! key with
  | None => Err (runtime_error "consume before operand match completion")
  | Some s =>
      THROW runtime_error "consume before operand match completion"
        WHEN negb (ms_received s =? ms_expected s);;
      let reductions := u64 (popcount (ms_expected s) - 1) in
      payload ← ReduceIntegerOperands (ms_values s) (ms_dtype s) (ms_op s) (ms_count s);
      cycles ← CollDcaServiceCycles (u64 (ms_count s * CollDTypeBits (ms_dtype s)))
                 (u64 (ms_count s * reductions)) 128 54;
      Ok (mkMatchBuffer (hcap b) (ocap b) (operands b - Z.of_nat (length (ms_values s)))
            (delete key (states b)), mkDcaResult payload cycles)
  end.

Definition Residual (b : CollOperandMatchBuffer) : Z := Z.of_nat (size (states b)) + operands b.

(** ** Lemmas on the reduction *)

Definition sum_list_Z (l : list Z) : Z := foldr Z.add 0 l.
Definition is_max (l : list Z) (m : Z) : Prop := m ∈ l /\ forall x, x ∈ l -> x <= m.

(** The integer a lane stands for: unsigned bytes, two's complement otherwise. *)
Definition lane_value (dtype : CollDType) (x : Z) : Z :=
  if bool_decide (dtype = UINT8) then x else swrap (CollDTypeBits dtype) x.

Lemma width_bounds t : 8 <= CollDTypeBits t <= 64.
Proof. destruct t; cbn; lia. Qed.

Lemma swrap_inj w x y : 0 < w -> in_u w x -> in_u w y -> swrap w x = swrap w y -> x = y.
Proof.
  intros Hw Hx Hy. unfold swrap. rewrite !Z.mod_small by (unfold in_u in *; lia).
  assert (2 ^ w = 2 * 2 ^ (w - 1)) by (rewrite <- Z.pow_succ_r by lia; f_equal; lia).
  unfold in_u in *. destruct (Z.ltb_spec x (2 ^ (w - 1))), (Z.ltb_spec y (2 ^ (w - 1))); lia.
Qed.

Lemma lane_value_inj t x y : in_u (CollDTypeBits t) x -> in_u (CollDTypeBits t) y ->
  lane_value t x = lane_value t y -> x = y.
Proof.
  unfold lane_value. case_bool_decide; [done|]. intros Hx Hy. apply swrap_inj; try done.
  pose proof (width_bounds t); lia.
Qed.

Lemma lane_get_in_u t e v : 0 <= e -> in_u (CollDTypeBits t) (lane_get t e v).
Proof.
  intros He. unfold lane_get. pose proof (width_bounds t).
  replace (CollDTypeBits t) with ((e + 1) * CollDTypeBits t - 1 - e * CollDTypeBits t + 1) at 1 by lia.
  apply get_in_u. nia.
Qed.

Lemma lane_mod_64 t x : (u64 x) mod 2 ^ CollDTypeBits t = x mod 2 ^ CollDTypeBits t.
Proof.
  unfold wrap. apply Z.mod_mod_divide.
  destruct t; cbn -[Z.pow]; [exists (2 ^ 56)|exists (2 ^ 32)|exists 1|exists (2 ^ 32)]; by vm_compute.
Qed.

Lemma sum_fold t acc l :
  (foldl (fun acc v => reduce_step t SUM acc v) acc l) mod 2 ^ CollDTypeBits t
  = (acc + sum_list_Z l) mod 2 ^ CollDTypeBits t.
Proof.
  revert acc; induction l as [|v l IH]; intros acc; cbn [foldl sum_list_Z foldr]; [by rewrite Z.add_0_r|].
  rewrite IH. unfold reduce_step. rewrite bool_decide_true by done. rewrite <- Zplus_mod_idemp_l, lane_mod_64, Zplus_mod_idemp_l.
  f_equal. unfold sum_list_Z. lia.
Qed.

(** One MAX step keeps the lane whose value is larger. *)
Lemma max_step t acc v : t <> FP32 -> in_u (CollDTypeBits t) acc -> in_u (CollDTypeBits t) v ->
  in_u (CollDTypeBits t) (reduce_step t MAX acc v) /\
  lane_value t (reduce_step t MAX acc v) = Z.max (lane_value t acc) (lane_value t v).
Proof.
  intros Ht Ha Hv. unfold reduce_step, lane_value. destruct t; try done;
    cbn [CollDTypeBits] in *; repeat case_bool_decide; try done; cbn [Z.eqb Pos.eqb].
  - split; [unfold in_u in *; lia|done].
  - destruct (Z.ltb_spec (i32 acc) (i32 v)); (split; [assumption|]); cbn; lia.
  - destruct (Z.ltb_spec (i64 acc) (i64 v)); (split; [assumption|]); cbn; lia.
Qed.

Lemma max_fold t acc l : t <> FP32 -> in_u (CollDTypeBits t) acc -> Forall (in_u (CollDTypeBits t)) l ->
  let r := foldl (fun acc v => reduce_step t MAX acc v) acc l in
  in_u (CollDTypeBits t) r /\ is_max (lane_value t <$> acc :: l) (lane_value t r).
Proof.
  intros Ht. revert acc; induction l as [|v l IH]; intros acc Ha Hl; cbn [foldl].
  { split; [done|]. split; [left|]. by intros x ->%list_elem_of_singleton. }
  inversion Hl as [|?? Hv Hl']; subst. destruct (max_step t acc v) as [H1 H2]; [done..|].
  destruct (IH (reduce_step t MAX acc v)) as [H3 [H4 H5]]; [done..|]. split; [done|].
  cbn [fmap list_fmap] in *. rewrite H2 in H4, H5. split.
  - apply elem_of_cons in H4 as [->|H4]; [|by do 2 right].
    destruct (Z.max_spec (lane_value t acc) (lane_value t v)) as [[_ ->]|[_ ->]]; [right; left|left].
  - intros x Hx. pose proof (H5 _ (list_elem_of_here _ _)) as Hm.
    apply elem_of_cons in Hx as [->|[->|Hx]%elem_of_cons]; [lia|lia|]. apply H5. by right.
Qed.

(** The lane of the result, given the lanes of the operands. *)
Definition lane_spec (t : CollDType) (op : CollReduceOp) (lanes : list Z) (r : Z) : Prop :=
  in_u (CollDTypeBits t) r /\
  match op with
  | SUM => r = sum_list_Z lanes mod 2 ^ CollDTypeBits t
  | _ => is_max (lane_value t <$> lanes) (lane_value t r)
  end.

Lemma is_max_perm l l' m m' : l ≡ₚ l' -> is_max l m -> is_max l' m' -> m = m'.
Proof.
  intros Hp [Hm H] [Hm' H']. apply Z.le_antisymm; [apply H'; by rewrite <- Hp|apply H; by rewrite Hp].
Qed.

Lemma lane_spec_perm t op l l' r r' : l ≡ₚ l' -> lane_spec t op l r -> lane_spec t op l' r' -> r = r'.
Proof.
  intros Hp [Hr H] [Hr' H']. destruct op.
  2: { rewrite H, H'. f_equal. unfold sum_list_Z. apply (foldr_permutation_proper (=) Z.add 0); [|done].
       intros; lia. }
  all: apply (lane_value_inj t); [done..|]; eapply is_max_perm; [|done|done]; by rewrite Hp.
Qed.

Lemma reduce_lane_spec t op v0 vs e : t <> FP32 -> op <> RO_NONE -> 0 <= e ->
  lane_spec t op (lane_get t e <$> v0 :: vs) (wrap (CollDTypeBits t) (reduce_lane t op v0 vs e)).
Proof.
  intros Ht Hop He. unfold reduce_lane.
  assert (forall acc, wrap (CollDTypeBits t)
    (if CollDTypeBits t <? 64 then Z.land acc (Z.shiftl 1 (CollDTypeBits t) - 1) else acc)
    = wrap (CollDTypeBits t) acc) as Hmask.
  { intros acc. destruct (CollDTypeBits t <? 64); [|done].
    assert (Z.shiftl 1 (CollDTypeBits t) - 1 = Z.ones (CollDTypeBits t)) as -> by (by destruct t).
    rewrite Z.land_ones by (pose proof (width_bounds t); lia). apply wrap_wrap. }
  rewrite Hmask. split; [apply wrap_in_u; pose proof (width_bounds t); lia|].
  assert (foldl (fun acc v => reduce_step t op acc (lane_get t e v)) (lane_get t e v0) vs
    = foldl (fun acc v => reduce_step t op acc v) (lane_get t e v0) (lane_get t e <$> vs)) as ->.
  { generalize (lane_get t e v0) as a. induction vs as [|v vs IH]; intros a; cbn; [done|]. apply IH. }
  assert (Forall (in_u (CollDTypeBits t)) (lane_get t e <$> vs)) as Hl.
  { apply list.Forall_forall. intros x (v & -> & _)%list_elem_of_fmap. by apply lane_get_in_u. }
  destruct op; [done|unfold wrap; apply sum_fold|].
  destruct (max_fold t (lane_get t e v0) (lane_get t e <$> vs)) as [Hr Hm]; [done|by apply lane_get_in_u|done|].
  by rewrite wrap_small.
Qed.

(** The output word is assembled lane by lane. *)
Definition assemble (width : Z) (f : Z -> Z) (out : Z) (es : list Z) : Z :=
  foldl (fun out e => put out ((e + 1) * width - 1) (e * width) (f e)) out es.

Lemma assemble_read width f n e out : 0 < width -> 0 <= e < Z.of_nat n ->
  get (assemble width f out (seqZ 0 (Z.of_nat n))) ((e + 1) * width - 1) (e * width) = wrap width (f e).
Proof.
  intros Hw. induction n as [|n IH]; intros He; [lia|].
  unfold assemble. rewrite seqZ_S, foldl_app, Z.add_0_l. cbn [foldl]. fold (assemble width f out (seqZ 0 (Z.of_nat n))).
  destruct (Z.eq_dec e (Z.of_nat n)) as [->|Hne].
  - rewrite get_put_same by nia. f_equal; nia.
  - rewrite get_put_other by nia. apply IH. lia.
Qed.

Lemma assemble_ext width f g out es : (forall e, e ∈ es -> wrap width (f e) = wrap width (g e)) -> 0 < width ->
  (forall e, e ∈ es -> 0 <= e) -> assemble width f out es = assemble width g out es.
Proof.
  intros H Hw Hes. unfold assemble. revert out. induction es as [|e es IH]; intros out; [done|]. cbn.
  assert (forall h, put out ((e + 1) * width - 1) (e * width) (h e)
    = put out ((e + 1) * width - 1) (e * width) (wrap width (h e))) as Hput.
  { intros h. pose proof (Hes e (list_elem_of_here _ _)). unfold put.
    replace ((e + 1) * width - 1 - e * width + 1) with width by lia.
    rewrite !Z.land_ones by lia. unfold wrap. by rewrite Zmod_mod. }
  rewrite (Hput f), (Hput g), H by left.
  apply IH; intros; [apply H|apply Hes]; by right.
Qed.

Lemma reduce_ok v0 vs t op c out : ReduceIntegerOperands (v0 :: vs) t op c = Ok out ->
  t <> FP32 /\ op <> RO_NONE /\ c <> 0 /\ u64 (c * CollDTypeBits t) <= 128 /\
  out = assemble (CollDTypeBits t) (reduce_lane t op v0 vs) 0 (seqZ 0 c).
Proof.
  unfold ReduceIntegerOperands. intros H. apply throw_bind_ok in H as [H1 H]. apply throw_bind_ok in H as [H2 H].
  injection H as <-. split_guards. repeat match goal with H : bool_decide _ = false |- _ => apply bool_decide_eq_false in H end.
  done.
Qed.

Lemma reduce_perm vs vs' t op c : vs ≡ₚ vs' ->
  ReduceIntegerOperands vs t op c = ReduceIntegerOperands vs' t op c.
Proof.
  intros Hp. destruct vs as [|v0 vs]; [apply Permutation_nil_l in Hp as <-; done|].
  destruct vs' as [|v0' vs']; [by apply Permutation_nil_r in Hp|].
  unfold ReduceIntegerOperands.
  destruct (bool_decide (t = FP32) || bool_decide (op = RO_NONE)) eqn:E; [done|].
  apply orb_false_elim in E as [Ht%bool_decide_eq_false Hop%bool_decide_eq_false].
  cbn [throw_if mbind result_bind]. destruct ((c =? 0) || _); [done|]. cbn [throw_if mbind result_bind]. f_equal.
  pose proof (width_bounds t). apply assemble_ext; [|lia|].
  - intros e He. apply elem_of_seqZ in He. apply (lane_spec_perm t op (lane_get t e <$> v0 :: vs) (lane_get t e <$> v0' :: vs')).
    + by rewrite Hp.
    + apply reduce_lane_spec; [done|done|lia].
    + apply reduce_lane_spec; [done|done|lia].
  - intros e He. apply elem_of_seqZ in He. lia.
Qed.

(** ** Lemmas on the match buffer *)

Definition subset_bits (x y : Z) : Prop := forall i, 0 <= i -> Z.testbit x i = true -> Z.testbit y i = true.

Record match_wf (s : match_state) : Prop := {
  mw_values : Z.of_nat (length (ms_values s)) = popcount (ms_received s);
  mw_subset : subset_bits (ms_received s) (ms_expected s);
  mw_expected : in_u 64 (ms_expected s) /\ ms_expected s <> 0;
  mw_mode : ms_dtype s <> FP32 /\ ms_op s <> RO_NONE;
  mw_count : in_u 16 (ms_count s) /\ ms_count s <> 0 /\ ms_count s * CollDTypeBits (ms_dtype s) <= 128
}.

Definition held (s : match_state) : Z := Z.of_nat (length (ms_values s)).

Record buffer_inv (b : CollOperandMatchBuffer) : Prop := {
  bi_operands : operands b = map_sum held (states b);
  bi_ocap : operands b <= ocap b;
  bi_hcap : Z.of_nat (size (states b)) <= hcap b;
  bi_states : map_Forall (fun _ s => match_wf s) (states b)
}.

Lemma held_nonneg (m : gmap CollReduceMatchKey match_state) k x : m !! k = Some x -> 0 <= held x.
Proof. unfold held. lia. Qed.

Lemma lanes_fit t c : in_u 16 c -> u64 (c * CollDTypeBits t) = c * CollDTypeBits t.
Proof. intros Hc. pose proof (width_bounds t). apply wrap_small. unfold in_u in *. nia. Qed.

Lemma new_buffer_inv h o b : 0 <= h -> 0 <= o -> new_CollOperandMatchBuffer h o = Ok b -> buffer_inv b.
Proof.
  intros Hh Ho H. apply throw_bind_ok in H as [_ H]. simplify_eq.
  split; cbn; [done|lia|by rewrite map_size_empty|apply map_Forall_empty].
Qed.

Lemma Open_inv b k exp dt o c b' r : in_u 64 exp -> in_u 16 c -> buffer_inv b ->
  Open b k exp dt o c = Ok (b', r) -> buffer_inv b'.
Proof.
  intros He Hc [H1 H2 H3 H4] H. unfold Open in H. apply throw_bind_ok in H as [Hg1 H].
  apply throw_bind_ok in H as [Hg2 H]. split_guards.
  repeat match goal with H : bool_decide _ = false |- _ => apply bool_decide_eq_false in H end.
  rewrite lanes_fit in * by done.
  assert (states b !! k = None) as Hk by (by apply eq_None_not_Some).
  destruct (Z.eqb_spec (Z.of_nat (size (states b))) (hcap b)); simplify_eq; [by split|].
  split; cbn.
  - rewrite map_sum_insert by done. change (held (mkMatchState exp 0 dt o c [])) with 0. lia.
  - done.
  - rewrite map_size_insert_None by done. lia.
  - apply map_Forall_insert_2; [|done]. split; cbn; try done. intros i _. by rewrite Z.bits_0.
Qed.

(** What an accepting call did. *)
Lemma Accept_cases b k child dt o c pay b' st : Accept b k child dt o c pay = (b', st) ->
  (b' = b /\ st <> READY /\ st <> ACCEPTED) \/
  (exists s, states b !! k = Some s /\ child < 64 /\
     Z.land (ms_expected s) (Z.shiftl 1 child) <> 0 /\ Z.land (ms_received s) (Z.shiftl 1 child) = 0 /\
     ms_dtype s = dt /\ ms_op s = o /\ ms_count s = c /\ operands b <> ocap b /\
     let s' := mkMatchState (ms_expected s) (Z.lor (ms_received s) (Z.shiftl 1 child))
                 (ms_dtype s) (ms_op s) (ms_count s) (ms_values s ++ [pay]) in
     b' = mkMatchBuffer (hcap b) (ocap b) (operands b + 1) (<[k := s']> (states b)) /\
     (st = READY /\ ms_received s' = ms_expected s' \/ st = ACCEPTED /\ ms_received s' <> ms_expected s')).
Proof.
  unfold Accept. destruct (states b !! k) as [s|]; [|intros; simplify_eq; by left].
  destruct ((64 <=? child) || _) eqn:E1; [intros; simplify_eq; by left|].
  destruct (negb (Z.land (ms_received s) _ =? 0)) eqn:E2; [intros; simplify_eq; by left|].
  destruct (negb (bool_decide (ms_dtype s = dt)) || _ || _) eqn:E3; [intros; simplify_eq; by left|].
  destruct (operands b =? ocap b) eqn:E4; [intros; simplify_eq; by left|].
  split_guards. repeat match goal with H : bool_decide _ = true |- _ => apply bool_decide_eq_true in H end.
  intros H'. right. exists s. cbn [ms_received ms_expected] in H'. simplify_eq. repeat split; try done.
  destruct (Z.eqb_spec (Z.lor (ms_received s) (Z.shiftl 1 child)) (ms_expected s)); [left|right]; done.
Qed.

Lemma land_bit_nonzero x c : 0 <= c -> Z.land x (Z.shiftl 1 c) <> 0 <-> Z.testbit x c = true.
Proof.
  intros Hc. pose proof (land_shiftl_testbit x c Hc) as H. rewrite <- Z.eqb_neq, H. by destruct (Z.testbit x c).
Qed.

Lemma land_bit_zero x c : 0 <= c -> Z.land x (Z.shiftl 1 c) = 0 <-> Z.testbit x c = false.
Proof.
  intros Hc. pose proof (land_shiftl_testbit x c Hc) as H. rewrite <- Z.eqb_eq, H. by destruct (Z.testbit x c).
Qed.

Lemma Accept_inv b k child dt o c pay b' st : 0 <= child -> buffer_inv b ->
  Accept b k child dt o c pay = (b', st) -> buffer_inv b'.
Proof.
  intros Hch [H1 H2 H3 H4] H. apply Accept_cases in H as [(-> & _)|(s & Hs & Hc & He & Hr & _ & _ & _ & Hne & -> & _)]; [done|].
  apply land_bit_nonzero in He; [|done]. apply land_bit_zero in Hr; [|done].
  pose proof (H4 k s Hs) as [V S E M C]. split; cbn.
  - rewrite (map_sum_update _ _ _ s), H1 by done.
    unfold held at 3 4; cbn [ms_values]. rewrite length_app. cbn [length]. lia.
  - lia.
  - by rewrite (map_size_update _ _ s).
  - apply map_Forall_insert_2; [|done]. split; cbn; try done.
    + rewrite length_app, popcount_set by done. cbn. lia.
    + intros i Hi. rewrite testbit_setbit by done. intros [->%Z.eqb_eq|?]%orb_prop; [done|by apply S].
Qed.

Lemma Consume_ok b k b' r : Consume b k = Ok (b', r) -> exists s, states b !! k = Some s /\
  ms_received s = ms_expected s /\
  ReduceIntegerOperands (ms_values s) (ms_dtype s) (ms_op s) (ms_count s) = Ok (dca_payload r) /\
  b' = mkMatchBuffer (hcap b) (ocap b) (operands b - held s) (delete k (states b)).
Proof.
  unfold Consume. destruct (states b !! k) as [s|]; [|done]. intros H. apply throw_bind_ok in H as [Hg H].
  apply bind_ok in H as (p & Hp & H). apply bind_ok in H as (cy & _ & H). split_guards. simplify_eq. by exists s.
Qed.

Lemma Consume_inv b k b' r : buffer_inv b -> Consume b k = Ok (b', r) -> buffer_inv b'.
Proof.
  intros [H1 H2 H3 H4] H. apply Consume_ok in H as (s & Hs & _ & _ & ->).
  pose proof (map_sum_delete held _ _ _ Hs). split; cbn.
  - lia.
  - unfold held. lia.
  - rewrite map_size_delete_Some by (by eexists). lia.
  - by apply map_Forall_delete.
Qed.

Lemma popcount_pos x : in_u 64 x -> x <> 0 -> 0 < popcount x.
Proof.
  intros Hx Hne. unfold popcount.
  assert (exists i, 0 <= i < 64 /\ Z.testbit x i = true) as (i & Hi & Hb).
  { exists (Z.log2 x). unfold in_u in Hx. split; [|apply Z.bit_log2; lia].
    split; [apply Z.log2_nonneg|apply Z.log2_lt_pow2; lia]. }
  assert (i ∈ base.filter (fun i => Z.testbit x i = true) (seqZ 0 64)) as Hin.
  { apply list_elem_of_filter. split; [done|]. apply elem_of_seqZ. lia. }
  destruct (base.filter _ _); [by apply elem_of_nil in Hin|cbn; lia].
Qed.

Lemma popcount_le x : popcount x <= 64.
Proof.
  unfold popcount. pose proof (length_filter (fun i => Z.testbit x i = true) (seqZ 0 64)).
  rewrite length_seqZ in *. lia.
Qed.

(** A complete match is serviced: nothing in [Consume] can throw. *)
Lemma Consume_ready b k s : match_wf s -> states b !! k = Some s -> ms_received s = ms_expected s ->
  is_ok (Consume b k) = true.
Proof.
  intros [V S [He Hne] [Hdt Hop] (Hc & Hc0 & Hcw)] Hs Hr. unfold Consume. rewrite Hs, Hr, Z.eqb_refl.
  cbn [negb throw_if mbind result_bind]. pose proof (width_bounds (ms_dtype s)).
  pose proof (popcount_pos _ He Hne). pose proof (popcount_le (ms_expected s)).
  destruct (ms_values s) as [|v0 vs]; [rewrite Hr in V; cbn in V; lia|].
  unfold ReduceIntegerOperands. rewrite lanes_fit by done.
  rewrite throw_bind_false by (rewrite !bool_decide_false by done; done).
  rewrite throw_bind_false by (apply orb_false_iff; split; [by apply Z.eqb_neq|apply Z.ltb_ge; lia]).
  cbn [mbind result_bind]. unfold CollDcaServiceCycles.
  rewrite CollCeilDiv_ok by done. cbn [mbind result_bind].
  rewrite (wrap_small 64 (popcount _ - 1)) by (unfold in_u; lia).
  assert (0 <= ms_count s * (popcount (ms_expected s) - 1) < 2 ^ 22) by (unfold in_u in *; nia).
  rewrite wrap_small by (unfold in_u; lia).
  assert (0 <= ceil_div (ms_count s * CollDTypeBits (ms_dtype s)) 128 <= 128).
  { split; [apply ceil_div_nonneg|]; [lia|unfold in_u in *; nia|].
    transitivity (ms_count s * CollDTypeBits (ms_dtype s)); [apply ceil_div_le|]; unfold in_u in *; nia. }
  rewrite checked_add_spec; [|destruct (_ <? _); unfold in_u; lia|unfold in_u; lia].
  destruct (Z.leb_spec ((if ceil_div (ms_count s * CollDTypeBits (ms_dtype s)) 128 <? ms_count s * (popcount (ms_expected s) - 1)
    then ms_count s * (popcount (ms_expected s) - 1) else ceil_div (ms_count s * CollDTypeBits (ms_dtype s)) 128) + 54) UINT64_MAX) as [|Hbig]; [done|].
  exfalso. unfold UINT64_MAX in Hbig. destruct (_ <? _) in Hbig; lia.
Qed.

(** ** Properties *)

(** The packed integer reduction.  When it returns a word, every lane of it
    is the reduction of the operands' lanes: for SUM the sum modulo the lane
    width, for MAX the largest of them as unsigned bytes or as two's
    complement; and the outcome, error included, does not depend on the order
    in which the operands arrived. *)
Theorem reduce_operands_correct (values : list Z) (t : CollDType) (op : CollReduceOp) (c : Z) :
  in_u 16 c ->
  (forall out e, ReduceIntegerOperands values t op c = Ok out -> 0 <= e < c ->
     lane_spec t op (lane_get t e <$> values) (lane_get t e out)) /\
  (forall values', values ≡ₚ values' ->
     ReduceIntegerOperands values t op c = ReduceIntegerOperands values' t op c).
Proof.
  intros Hc. split; [|intros; by apply reduce_perm].
  intros out e H He. destruct values as [|v0 vs]; [done|].
  apply reduce_ok in H as (Ht & Hop & _ & _ & ->). pose proof (width_bounds t).
  replace c with (Z.of_nat (Z.to_nat c)) by lia.
  unfold lane_get at 2. rewrite assemble_read by lia. apply reduce_lane_spec; [done|done|lia].
Qed.

(** The calls on a match buffer, with the arguments in their C++ ranges. *)
Inductive buffer_step : CollOperandMatchBuffer -> CollOperandMatchBuffer -> Prop :=
  | bstep_open b k e dt o c b' r : in_u 64 e -> in_u 16 c -> Open b k e dt o c = Ok (b', r) -> buffer_step b b'
  | bstep_accept b k child dt o c pay b' st : 0 <= child ->
      Accept b k child dt o c pay = (b', st) -> buffer_step b b'
  | bstep_consume b k b' r : Consume b k = Ok (b', r) -> buffer_step b b'.

Lemma buffer_step_inv b b' : buffer_inv b -> buffer_step b b' -> buffer_inv b'.
Proof.
  intros Hb Hs. destruct Hs; [by eapply Open_inv|by eapply Accept_inv|by eapply Consume_inv].
Qed.

(** The operand match buffer.  In every state reachable from a new buffer
    the held operands are counted exactly and both capacities are respected;
    each open match holds one payload per child received, and only children
    it expects.  An arrival is READY exactly when it completes the match, and
    then servicing it cannot throw: it returns the reduction of the stored
    payloads, closes the match and returns exactly its operands. *)
Theorem match_buffer_safe (h o : Z) (b0 b b' : CollOperandMatchBuffer) (k : CollReduceMatchKey)
    (child : Z) (dt : CollDType) (op : CollReduceOp) (c pay : Z) (st : CollOperandStatus) :
  0 <= h -> 0 <= o -> new_CollOperandMatchBuffer h o = Ok b0 -> rtc buffer_step b0 b -> 0 <= child ->
  Accept b k child dt op c pay = (b', st) ->
  buffer_inv b /\ buffer_inv b' /\ (operands b' <> operands b <-> st = READY \/ st = ACCEPTED) /\
  (st = READY -> exists s b'' r, states b' !! k = Some s /\ ms_received s = ms_expected s /\
     Consume b' k = Ok (b'', r) /\
     ReduceIntegerOperands (ms_values s) (ms_dtype s) (ms_op s) (ms_count s) = Ok (dca_payload r) /\
     Residual b'' = Residual b' - 1 - popcount (ms_expected s) /\ buffer_inv b'') /\
  (st = ACCEPTED -> is_ok (Consume b' k) = false).
Proof.
  intros Hh Ho Hnew Hreach Hch HA.
  assert (buffer_inv b) as Hb.
  { assert (buffer_inv b0) as H0 by (by apply (new_buffer_inv h o)). clear Hnew HA.
    induction Hreach as [|x y z Hs _ IH]; [done|]. apply IH. by eapply buffer_step_inv. }
  pose proof (Accept_inv _ _ _ _ _ _ _ _ _ Hch Hb HA) as Hb'.
  split; [done|]. split; [done|].
  apply Accept_cases in HA as [(-> & Hr & Ha)|(s & Hs & _ & _ & _ & _ & _ & _ & _ & -> & Hst)].
  { split; [split; [done|intros [->| ->]; done]|]. split; intros ->; done. }
  cbn [operands states]. set (s' := mkMatchState _ _ _ _ _ _) in *.
  split; [split; [intros _; destruct Hst as [[-> _]|[-> _]]; auto|intros _; lia]|]. split.
  - intros ->. destruct Hst as [[_ Heq]|[? _]]; [|done].
    set (b1 := mkMatchBuffer _ _ _ _) in *. assert (states b1 !! k = Some s') as Hk by apply lookup_insert_eq.
    pose proof (bi_states _ Hb' _ _ Hk) as Hwf. pose proof (Consume_ready b1 k s' Hwf Hk Heq) as Hok.
    destruct (Consume b1 k) as [[b2 r]|] eqn:E; [|done]. exists s', b2, r.
    rewrite lookup_insert_eq. split; [done|]. split; [done|]. split; [done|].
    pose proof (Consume_inv _ _ _ _ Hb' E) as Hb2.
    apply Consume_ok in E as (s2 & Hs2 & _ & Hred & ->). assert (s2 = s') as -> by congruence.
    split; [done|]. split; [|done]. unfold Residual; cbn [states operands].
    pose proof (mw_values _ Hwf) as Hv. rewrite Heq in Hv. unfold held. rewrite <- Hv.
    rewrite map_size_delete_Some by (by eexists).
    assert (size (states b1) <> 0%nat); [|lia]. apply map_size_ne_0_lookup. by exists k, s'.
  - intros ->. destruct Hst as [[? _]|[_ Hne]]; [done|]. unfold Consume; cbn [states].
    rewrite lookup_insert_eq. by rewrite (proj2 (Z.eqb_neq _ _) Hne).
Qed.
