(* ===== verification/CollReorder.v ===== *)
(** The gather reorder buffer ([include/dte/coll_reorder.h],
    [src/dte/coll_reorder.cpp]): packets of a gather arrive in any order, are
    held in a bounded buffer and leave through an ordered commit port.  The
    buffer reserves its last entry for the head of line, which is what makes
    it free of deadlock. *)

From S2P Require Import Prelude CollTypes.

Inductive GatherAcceptStatus : Type := GA_ACCEPTED | GA_FULL | GA_DUPLICATE | GA_UNKNOWN_PACKET | GA_INVALID_OFFSET.
#[export] Instance GatherAcceptStatus_eq_dec : EqDecision GatherAcceptStatus.
Proof. solve_decision. Defined.

(** [struct GatherExpectedSlot] *)
Record GatherExpectedSlot : Type := mkExpectedSlot { es_key : PacketKey; es_offset_bits : Z }.

(** [GatherReorderBuffer::Slot] *)
Record Slot : Type := mkSlot { sl_expected : GatherExpectedSlot; sl_received : bool; sl_committed : bool }.

Record GatherReorderBuffer : Type := mkReorder {
  slots : list Slot;
  depth : nat;
  commit_ports : nat;
  occupancy : nat;
  peak_occupancy : nat;
  stall_cycles : nat;
  next_commit : nat
}.

Definition slot_key (s : Slot) : PacketKey := es_key (sl_expected s).

Definition new_GatherReorderBuffer (expected : list GatherExpectedSlot) (depth commit_ports : nat)
    : result GatherReorderBuffer :=
  THROW invalid_argument "gather reorder requires expected slots" WHEN bool_decide (expected = []);;
  THROW invalid_argument "gather reorder depth must be positive" WHEN (depth =? 0)%nat;;
  THROW invalid_argument "gather reorder commit ports must be positive" WHEN (commit_ports =? 0)%nat;;
  slots ← foldM (fun slots e =>
    THROW invalid_argument "gather reorder expected packet is duplicated"
      WHEN existsb (fun s => bool_decide (slot_key s = es_key e)) slots;;
    Ok (slots ++ [mkSlot e false false])) [] expected;
  Ok (mkReorder slots depth commit_ports 0 0 0 0).

(** Index of the slot expecting [key]; [None] is [NPOS]. *)
Fixpoint find_slot (key : PacketKey) (l : list Slot) : option nat :=
  match l with
  | [] => None
  | s :: l => if bool_decide (slot_key s = key) then Some 0%nat else S <$> find_slot key l
  end.
Definition Find (b : GatherReorderBuffer) (key : PacketKey) : option nat := find_slot key (slots b).

Definition slot0 : Slot :=
  mkSlot (mkExpectedSlot (mkPacketKey (mkCollectiveKey 0 0 0) 0 0 0 0) 0) false false.
#[export] Instance Slot_inhabited : Inhabited Slot := populate slot0.

Definition Accept (b : GatherReorderBuffer) (key : PacketKey) (offset_bits : Z)
    : GatherReorderBuffer * GatherAcceptStatus :=
  match Find b key with
  | None => (b, GA_UNKNOWN_PACKET)
  | Some index =>
      let slot := slots b !!! index in
      if sl_received slot || sl_committed slot then (b, GA_DUPLICATE)
      else if negb (es_offset_bits (sl_expected slot) =? offset_bits) then (b, GA_INVALID_OFFSET)
      else if (occupancy b =? depth b)%nat
              || (negb (index =? next_commit b)%nat && (occupancy b + 1 =? depth b)%nat
                  && negb (sl_received (slots b !!! next_commit b)))
      then (b, GA_FULL)
      else
        (mkReorder (<[index := mkSlot (sl_expected slot) true (sl_committed slot)]> (slots b))
           (depth b) (commit_ports b) (occupancy b + 1)
           (Nat.max (peak_occupancy b) (occupancy b + 1)) (stall_cycles b) (next_commit b), GA_ACCEPTED)
  end.

(** [CommitCycle]: the loop runs at most [commit_ports_] times. *)
Fixpoint commit_loop (ports : nat) (b : GatherReorderBuffer) : GatherReorderBuffer * nat :=
  match ports with
  | O => (b, 0%nat)
  | S ports =>
      if (next_commit b <? length (slots b))%nat then
        let slot := slots b !!! next_commit b in
        if negb (sl_received slot) then (b, 0%nat)
        else
          let (b', n) := commit_loop ports
            (mkReorder (<[next_commit b := mkSlot (sl_expected slot) false true]> (slots b))
               (depth b) (commit_ports b) (occupancy b - 1) (peak_occupancy b) (stall_cycles b)
               (next_commit b + 1)) in
          (b', S n)
      else (b, 0%nat)
  end.
Definition CommitCycle (b : GatherReorderBuffer) : GatherReorderBuffer * nat := commit_loop (commit_ports b) b.

Definition RecordBackpressureStall (b : GatherReorderBuffer) : GatherReorderBuffer :=
  mkReorder (slots b) (depth b) (commit_ports b) (occupancy b) (peak_occupancy b) (stall_cycles b + 1) (next_commit b).

Definition Complete (b : GatherReorderBuffer) : bool := (next_commit b =? length (slots b))%nat.

Definition bitmap (f : Slot -> bool) (b : GatherReorderBuffer) : list bool := f <$> slots b.
Definition ReceivedBitmap := bitmap sl_received.
Definition CommittedBitmap := bitmap sl_committed.
Definition MissingBitmap := bitmap (fun s => negb (sl_received s) && negb (sl_committed s)).

(** ** Lemmas *)

Definition received_count (l : list Slot) : nat := length (base.filter (fun s => sl_received s = true) l).

Arguments received_count : simpl never.

Record reorder_inv (b : GatherReorderBuffer) : Prop := {
  ri_next : (next_commit b <= length (slots b))%nat;
  ri_done : forall i s, slots b !! i = Some s -> sl_committed s = bool_decide (i < next_commit b)%nat;
  ri_exclusive : forall i s, slots b !! i = Some s -> (i < next_commit b)%nat -> sl_received s = false;
  ri_occupancy : occupancy b = received_count (slots b);
  ri_bound : (occupancy b <= depth b)%nat;
  ri_reserve : forall s, slots b !! next_commit b = Some s -> sl_received s = false -> (occupancy b < depth b)%nat;
  ri_keys : NoDup (slot_key <$> slots b);
  ri_peak : (occupancy b <= peak_occupancy b <= depth b)%nat;
  ri_ports : (0 < commit_ports b)%nat
}.

Lemma received_count_insert l i s s' : l !! i = Some s ->
  (received_count (<[i := s']> l) + (if sl_received s then 1 else 0)
   = received_count l + (if sl_received s' then 1 else 0))%nat.
Proof.
  revert i; induction l as [|x l IH]; intros [|i] H; cbn in H; simplify_eq.
  - unfold received_count. change (<[0%nat := s']> (s :: l)) with (s' :: l). rewrite !filter_cons.
    destruct (sl_received s) eqn:E, (sl_received s') eqn:E'; repeat case_decide; cbn; try congruence; lia.
  - specialize (IH i H). unfold received_count in *.
    change (<[S i := s']> (x :: l)) with (x :: <[i := s']> l). rewrite !filter_cons.
    case_decide; cbn; lia.
Qed.

Lemma received_count_pos l i s : l !! i = Some s -> sl_received s = true -> (0 < received_count l)%nat.
Proof.
  intros Hi Hs. pose proof (received_count_insert l i s (mkSlot (sl_expected s) false false) Hi) as H.
  rewrite Hs in H. cbn in H. lia.
Qed.

Lemma find_slot_some key l i : find_slot key l = Some i -> exists s, l !! i = Some s /\ slot_key s = key.
Proof.
  revert i; induction l as [|s l IH]; intros i H; [done|]. cbn in H. case_bool_decide; simplify_eq; [by exists s|].
  destruct (find_slot key l) as [j|]; cbn in H; simplify_eq. by apply IH.
Qed.

Lemma find_slot_complete key l i s : NoDup (slot_key <$> l) -> l !! i = Some s -> slot_key s = key ->
  find_slot key l = Some i.
Proof.
  revert i; induction l as [|x l IH]; intros [|i] Hnd Hi Hk; cbn in *; simplify_eq.
  - by rewrite bool_decide_true.
  - apply list.NoDup_cons in Hnd as [Hx Hnd]. rewrite bool_decide_false.
    + by rewrite (IH i).
    + intros Heq. apply Hx. rewrite Heq. apply list_elem_of_fmap. exists s. split; [done|].
      by eapply list_elem_of_lookup_2.
Qed.

Lemma keys_insert (l : list Slot) i s s' : l !! i = Some s -> slot_key s' = slot_key s ->
  slot_key <$> <[i := s']> l = slot_key <$> l.
Proof.
  intros Hi Hk. rewrite list_fmap_insert, Hk. apply list_insert_id. by rewrite list_lookup_fmap, Hi.
Qed.

(** What [Accept] does when it does not return the buffer unchanged. *)
Lemma reorder_Accept_cases b key off b' st : Accept b key off = (b', st) ->
  (b' = b /\ st <> GA_ACCEPTED) \/
  (exists i s, slots b !! i = Some s /\ slot_key s = key /\ sl_received s = false /\ sl_committed s = false /\
     es_offset_bits (sl_expected s) = off /\ occupancy b <> depth b /\
     (i = next_commit b \/ (occupancy b + 1)%nat <> depth b \/ sl_received (slots b !!! next_commit b) = true) /\
     st = GA_ACCEPTED /\
     b' = mkReorder (<[i := mkSlot (sl_expected s) true false]> (slots b)) (depth b) (commit_ports b)
            (occupancy b + 1) (Nat.max (peak_occupancy b) (occupancy b + 1)) (stall_cycles b) (next_commit b)).
Proof.
  unfold Accept, Find. destruct (find_slot key (slots b)) as [i|] eqn:Hf; [|intros; simplify_eq; by left].
  apply find_slot_some in Hf as (s & Hs & Hk). rewrite (list_lookup_total_correct _ _ _ Hs).
  destruct (sl_received s || sl_committed s) eqn:E1; [intros; simplify_eq; by left|].
  destruct (negb (_ =? off)) eqn:E2; [intros; simplify_eq; by left|].
  destruct ((occupancy b =? depth b)%nat || _) eqn:E3; [intros; simplify_eq; by left|].
  intros H. right. exists i, s. apply orb_false_elim in E1 as [Er Ec], E3 as [Eo Eh].
  apply negb_false_iff, Z.eqb_eq in E2. apply Nat.eqb_neq in Eo. rewrite Ec in H. simplify_eq.
  repeat split; try done.
  destruct (Nat.eqb_spec i (next_commit b)) as [->|]; [by left|]. right. cbn in Eh.
  destruct (Nat.eqb_spec (occupancy b + 1) (depth b)); cbn in Eh; [|by left]. right. by apply negb_false_iff in Eh.
Qed.

Lemma reorder_Accept_inv b key off b' st : reorder_inv b -> Accept b key off = (b', st) -> reorder_inv b'.
Proof.
  intros [N D X O B R K P T] H. apply reorder_Accept_cases in H as [[-> _]|(i & s & Hs & Hk & Hr & Hc & Ho & Hne & Hh & -> & ->)]; [done|].
  pose proof (lookup_lt_Some _ _ _ Hs) as Hlt.
  pose proof (D i s Hs) as Hd. rewrite Hc in Hd. symmetry in Hd. apply bool_decide_eq_false in Hd.
  pose proof (received_count_insert _ _ _ (mkSlot (sl_expected s) true false) Hs) as Hcnt. rewrite Hr in Hcnt. cbn in Hcnt.
  split; cbn.
  - by rewrite length_insert.
  - intros j s' [[<- [<- _]]|[Hij Hj]]%list_lookup_insert_Some; [|by apply D]. cbn. by rewrite bool_decide_false.
  - intros j s' [[<- [<- _]]|[Hij Hj]]%list_lookup_insert_Some Hlt'; [lia|by eapply X].
  - lia.
  - lia.
  - intros s' Hs' Hrs'. apply list_lookup_insert_Some in Hs' as [[-> [<- _]]|[Hij Hj]]; [done|].
    rewrite (list_lookup_total_correct _ _ _ Hj) in Hh. specialize (R _ Hj Hrs').
    destruct Hh as [->|[Hh|Hh]]; [done|lia|congruence].
  - by rewrite (keys_insert _ _ s).
  - lia.
  - done.
Qed.

(** One turn of the commit loop. *)
Lemma commit_one_inv b s : reorder_inv b -> slots b !! next_commit b = Some s -> sl_received s = true ->
  reorder_inv (mkReorder (<[next_commit b := mkSlot (sl_expected s) false true]> (slots b))
    (depth b) (commit_ports b) (occupancy b - 1) (peak_occupancy b) (stall_cycles b) (next_commit b + 1)).
Proof.
  intros [N D X O B R K P T] Hs Hr. pose proof (lookup_lt_Some _ _ _ Hs) as Hlt.
  pose proof (received_count_pos _ _ _ Hs Hr) as Hpos.
  pose proof (received_count_insert _ _ _ (mkSlot (sl_expected s) false true) Hs) as Hcnt. rewrite Hr in Hcnt. cbn in Hcnt.
  split; cbn.
  - rewrite length_insert. lia.
  - intros j s' [[<- [<- _]]|[Hij Hj]]%list_lookup_insert_Some; cbn.
    + by rewrite bool_decide_true by lia.
    + rewrite (D _ _ Hj). apply bool_decide_ext. lia.
  - intros j s' [[<- [<- _]]|[Hij Hj]]%list_lookup_insert_Some Hj'; [done|]. eapply X; [done|lia].
  - lia.
  - lia.
  - lia.
  - by rewrite (keys_insert _ _ s).
  - lia.
  - done.
Qed.

Lemma commit_loop_inv ports b : reorder_inv b ->
  let (b', n) := commit_loop ports b in
  reorder_inv b' /\ next_commit b' = (next_commit b + n)%nat /\ (n <= ports)%nat /\
  length (slots b') = length (slots b) /\ depth b' = depth b /\ commit_ports b' = commit_ports b /\
  (occupancy b' + n = occupancy b)%nat.
Proof.
  revert b; induction ports as [|ports IH]; intros b Hb; cbn [commit_loop]; [split; [done|]; split_and!; lia|].
  destruct (Nat.ltb_spec (next_commit b) (length (slots b))) as [Hlt|Hge]; [|cbn; split; [done|]; split_and!; lia].
  destruct (lookup_lt_is_Some_2 _ _ Hlt) as [s Hs]. rewrite (list_lookup_total_correct _ _ _ Hs).
  destruct (sl_received s) eqn:Hr; cbn [negb]; [|cbn; split; [done|]; split_and!; lia].
  pose proof (commit_one_inv b s Hb Hs Hr) as Hb1. specialize (IH _ Hb1).
  destruct (commit_loop ports _) as [b' n]. cbn in IH. destruct IH as (I & N & L & Len & D & C & O).
  rewrite length_insert in Len. pose proof (received_count_pos _ _ _ Hs Hr). pose proof (ri_occupancy _ Hb).
  split; [done|]; split_and!; lia.
Qed.

Lemma commit_head b s : slots b !! next_commit b = Some s -> sl_received s = true -> (0 < commit_ports b)%nat ->
  (0 < (CommitCycle b).2)%nat.
Proof.
  intros Hs Hr Hp. unfold CommitCycle. destruct (commit_ports b) as [|p] eqn:E; [lia|]. cbn [commit_loop].
  pose proof (lookup_lt_Some _ _ _ Hs) as Hlt. apply Nat.ltb_lt in Hlt. rewrite Hlt.
  rewrite (list_lookup_total_correct _ _ _ Hs), Hr. cbn [negb].
  destruct (commit_loop p _) as [b' n]. cbn. lia.
Qed.

Lemma new_reorder_inv expected d p b : new_GatherReorderBuffer expected d p = Ok b ->
  reorder_inv b /\ next_commit b = 0%nat /\ sl_expected <$> slots b = expected.
Proof.
  unfold new_GatherReorderBuffer. intros H. apply throw_bind_ok in H as [_ H].
  apply throw_bind_ok in H as [Hd H]. apply throw_bind_ok in H as [Hp H].
  apply bind_ok in H as (l & Hl & H). injection H as <-. apply Nat.eqb_neq in Hd, Hp.
  assert (sl_expected <$> l = expected /\ NoDup (slot_key <$> l) /\
    Forall (fun s => sl_received s = false /\ sl_committed s = false) l) as (He & Hk & Hf).
  { revert Hl. apply (foldM_prefix_inv _ (fun pre l => sl_expected <$> l = pre /\ NoDup (slot_key <$> l) /\
      Forall (fun s => sl_received s = false /\ sl_committed s = false) l)); [|repeat constructor].
    intros pre x post s s' _ (H1 & H2 & H3) H. apply throw_bind_ok in H as [Hg H]. injection H as <-.
    rewrite !fmap_app. cbn. split; [by rewrite H1|]. split.
    - apply list.NoDup_app. split; [done|]. split; [|repeat constructor; apply not_elem_of_nil].
      intros k Hk1 ->%list_elem_of_singleton. apply list_elem_of_fmap in Hk1 as (s0 & Hs0 & Hin).
      apply not_true_iff_false in Hg. apply Hg. apply existsb_exists. exists s0.
      rewrite <- list_elem_of_In. split; [done|]. by apply bool_decide_eq_true.
    - apply list.Forall_app. split; [done|]. by repeat constructor. }
  assert (received_count l = 0%nat) as Hc.
  { unfold received_count. clear -Hf. induction Hf as [|s l [Hs _] _ IH]; [done|].
    rewrite filter_cons, decide_False by congruence. done. }
  split; [|done]. rewrite Forall_lookup in Hf. split; cbn; try done; try lia.
  - intros i s Hs. rewrite bool_decide_false by lia. by apply (Hf i).
Qed.

Lemma committed_prefix b : reorder_inv b -> CommittedBitmap b =
  replicate (next_commit b) true ++ replicate (length (slots b) - next_commit b) false.
Proof.
  intros Hb. pose proof (ri_next _ Hb) as Hn. apply list_eq. intros i. unfold CommittedBitmap, bitmap.
  rewrite list_lookup_fmap. destruct (slots b !! i) as [s|] eqn:Hs; cbn.
  - rewrite (ri_done _ Hb _ _ Hs). pose proof (lookup_lt_Some _ _ _ Hs). case_bool_decide.
    + rewrite lookup_app_l by (rewrite length_replicate; lia). by rewrite lookup_replicate_2.
    + rewrite lookup_app_r by (rewrite length_replicate; lia). rewrite lookup_replicate_2; [done|].
      rewrite length_replicate. lia.
  - symmetry. apply lookup_ge_None. rewrite length_app, !length_replicate. apply lookup_ge_None in Hs. lia.
Qed.

(** What no operation takes away. *)
Definition arrived (b : GatherReorderBuffer) (key : PacketKey) : Prop :=
  exists i s, slots b !! i = Some s /\ slot_key s = key /\ sl_received s || sl_committed s = true.

Record evolves (b b' : GatherReorderBuffer) : Prop := {
  ev_expected : sl_expected <$> slots b' = sl_expected <$> slots b;
  ev_ports : commit_ports b' = commit_ports b;
  ev_arrived : forall key, arrived b key -> arrived b' key
}.

#[export] Instance evolves_preorder : PreOrder evolves.
Proof.
  split; [by split|]. intros x y z [E1 P1 A1] [E2 P2 A2]. split; [congruence|congruence|auto].
Qed.

Lemma arrived_insert (l : list Slot) i s s' : l !! i = Some s -> slot_key s' = slot_key s ->
  (sl_received s || sl_committed s = true -> sl_received s' || sl_committed s' = true) ->
  forall key j t, l !! j = Some t -> slot_key t = key -> sl_received t || sl_committed t = true ->
  exists j t, <[i := s']> l !! j = Some t /\ slot_key t = key /\ sl_received t || sl_committed t = true.
Proof.
  intros Hi Hk Hm key j t Hj Ht Hrc. destruct (decide (i = j)) as [->|Hne].
  - exists j, s'. rewrite list_lookup_insert_eq by (by eapply lookup_lt_Some). simplify_eq. by auto.
  - exists j, t. by rewrite list_lookup_insert_ne.
Qed.

Lemma Accept_evolves b key off : evolves b (Accept b key off).1.
Proof.
  destruct (Accept b key off) as [b' st] eqn:E.
  apply reorder_Accept_cases in E as [[-> _]|(i & s & Hs & Hk & Hr & Hc & Ho & Hne & Hh & -> & ->)]; [done|].
  split; cbn; [|done|].
  - rewrite list_fmap_insert. cbn. apply list_insert_id. by rewrite list_lookup_fmap, Hs.
  - intros k (j & t & Hj & Ht & Hrc). eapply (arrived_insert _ i s); done.
Qed.

Lemma commit_loop_evolves ports b : evolves b (commit_loop ports b).1.
Proof.
  revert b; induction ports as [|ports IH]; intros b; cbn [commit_loop]; [done|].
  destruct (Nat.ltb_spec (next_commit b) (length (slots b))) as [Hlt|Hge]; [|done].
  destruct (lookup_lt_is_Some_2 _ _ Hlt) as [s Hs]. rewrite (list_lookup_total_correct _ _ _ Hs).
  destruct (sl_received s) eqn:Hr; cbn [negb]; [|done].
  match goal with |- context [commit_loop ports ?b1] => pose proof (IH b1) as H; transitivity b1 end.
  - split; cbn; [|done|].
    + rewrite list_fmap_insert. cbn. apply list_insert_id. by rewrite list_lookup_fmap, Hs.
    + intros k (j & t & Hj & Ht & Hrc). eapply (arrived_insert _ _ s); done.
  - by destruct (commit_loop ports _).
Qed.

(** ** Properties *)

Inductive reorder_step : GatherReorderBuffer -> GatherReorderBuffer -> Prop :=
  | rstep_accept b key off : reorder_step b (Accept b key off).1
  | rstep_commit b : reorder_step b (CommitCycle b).1
  | rstep_stall b : reorder_step b (RecordBackpressureStall b).

Lemma commit_cycle_inv b : reorder_inv b -> reorder_inv (CommitCycle b).1.
Proof.
  intros Hb. pose proof (commit_loop_inv (commit_ports b) b Hb) as H. unfold CommitCycle.
  destruct (commit_loop _ b). apply H.
Qed.

Lemma reorder_step_inv b b' : reorder_inv b -> reorder_step b b' -> reorder_inv b'.
Proof.
  intros Hb Hs. destruct Hs as [b key off|b|b].
  - destruct (Accept b key off) as [b' st] eqn:E. by eapply reorder_Accept_inv.
  - by apply commit_cycle_inv.
  - destruct Hb. by split.
Qed.

Lemma reorder_steps_evolve b b' : rtc reorder_step b b' -> evolves b b'.
Proof.
  induction 1 as [|x y z Hs _ IH]; [done|]. etransitivity; [|exact IH].
  destruct Hs; [apply Accept_evolves|apply commit_loop_evolves|by split].
Qed.

Lemma reorder_reachable b0 b : reorder_inv b0 -> rtc reorder_step b0 b -> reorder_inv b.
Proof. intros H0 Hr. induction Hr as [|x y z Hs _ IH]; [done|]. apply IH. by eapply reorder_step_inv. Qed.

(** The gather reorder buffer never deadlocks.  In every state reachable
    from construction, with any arrival order and any depth of at least one,
    the occupancy is the number of held packets and is bounded by the depth,
    and as long as packets are missing either the commit port moves, or the
    head-of-line packet is the missing one and the buffer accepts it, after
    which the port moves. *)
Theorem reorder_progress (expected : list GatherExpectedSlot) (d p : nat) (b0 b : GatherReorderBuffer) :
  new_GatherReorderBuffer expected d p = Ok b0 -> rtc reorder_step b0 b ->
  occupancy b = received_count (slots b) /\ (occupancy b <= depth b)%nat /\
  (Complete b = false ->
     (0 < (CommitCycle b).2)%nat \/
     exists s, slots b !! next_commit b = Some s /\
       (Accept b (slot_key s) (es_offset_bits (sl_expected s))).2 = GA_ACCEPTED /\
       (0 < (CommitCycle (Accept b (slot_key s) (es_offset_bits (sl_expected s))).1).2)%nat).
Proof.
  intros Hnew Hr. apply new_reorder_inv in Hnew as [H0 _].
  pose proof (reorder_reachable _ _ H0 Hr) as Hb. split; [apply Hb|]. split; [apply Hb|].
  intros Hc. apply Nat.eqb_neq in Hc. pose proof (ri_next _ Hb).
  destruct (lookup_lt_is_Some_2 (slots b) (next_commit b) ltac:(lia)) as [s Hs].
  destruct (sl_received s) eqn:Hrs; [left; eapply commit_head; [done|done|apply Hb]|].
  right. exists s. split; [done|]. pose proof (ri_reserve _ Hb s Hs Hrs) as Hroom.
  pose proof (ri_done _ Hb _ _ Hs) as Hcm. rewrite bool_decide_false in Hcm by lia.
  assert (Accept b (slot_key s) (es_offset_bits (sl_expected s)) =
    (mkReorder (<[next_commit b := mkSlot (sl_expected s) true (sl_committed s)]> (slots b)) (depth b) (commit_ports b)
       (occupancy b + 1) (Nat.max (peak_occupancy b) (occupancy b + 1)) (stall_cycles b) (next_commit b), GA_ACCEPTED)) as ->.
  { unfold Accept, Find. rewrite (find_slot_complete _ _ _ _ (ri_keys _ Hb) Hs eq_refl).
    rewrite (list_lookup_total_correct _ _ _ Hs), Hrs, Hcm, Z.eqb_refl, Nat.eqb_refl. cbn [orb negb andb].
    by rewrite (proj2 (Nat.eqb_neq _ _)) by lia. }
  split; [done|]. eapply commit_head; [cbn; by rewrite list_lookup_insert_eq by lia|done|apply Hb].
Qed.

Definition ex_slot (r : Z) : GatherExpectedSlot :=
  mkExpectedSlot (mkPacketKey (mkCollectiveKey 1 1 1) r 0 r 0) (r * 64).

(** Packets leave in the expected order, each exactly once.  In every
    reachable state the committed slots are exactly the first [next_commit_]
    ones; a commit cycle commits the next packets in order, at most one per
    port; and once a packet has been accepted, in every later state its
    arrival is refused as a duplicate. *)
Theorem reorder_in_order_once (expected : list GatherExpectedSlot) (d p : nat) (b0 b b' : GatherReorderBuffer)
    (key : PacketKey) (off : Z) :
  new_GatherReorderBuffer expected d p = Ok b0 -> rtc reorder_step b0 b ->
  sl_expected <$> slots b = expected /\
  CommittedBitmap b = replicate (next_commit b) true ++ replicate (length expected - next_commit b) false /\
  (let (b1, n) := CommitCycle b in
   (n <= p)%nat /\ CommittedBitmap b1 =
     replicate (next_commit b + n) true ++ replicate (length expected - (next_commit b + n)) false) /\
  ((Accept b key off).2 = GA_ACCEPTED -> rtc reorder_step (Accept b key off).1 b' ->
   forall off', Accept b' key off' = (b', GA_DUPLICATE)).
Proof.
  intros Hnew Hr. assert (commit_ports b0 = p) as Hp.
  { unfold new_GatherReorderBuffer in Hnew. repeat (apply throw_bind_ok in Hnew as [_ Hnew]).
    apply bind_ok in Hnew as (l & _ & Hnew). by injection Hnew as <-. }
  apply new_reorder_inv in Hnew as (H0 & _ & He0).
  pose proof (reorder_reachable _ _ H0 Hr) as Hb. pose proof (reorder_steps_evolve _ _ Hr) as [He Hpp _].
  assert (length (slots b) = length expected) as Hlen by (rewrite <- He0, <- He; by rewrite length_fmap).
  split; [congruence|]. split; [rewrite <- Hlen; by apply committed_prefix|]. split.
  - pose proof (commit_loop_inv (commit_ports b) b Hb) as Hc. unfold CommitCycle.
    destruct (commit_loop _ b) as [b1 n]. destruct Hc as (Hb1 & Hn & Hle & Hl & _). split; [lia|].
    rewrite <- Hlen, <- Hl, <- Hn. by apply committed_prefix.
  - intros Hacc Hr' off'. destruct (Accept b key off) as [b1 st] eqn:E. cbn in *. subst st.
    pose proof (reorder_Accept_inv _ _ _ _ _ Hb E) as Hb1. pose proof (reorder_reachable _ _ Hb1 Hr') as Hb'.
    apply reorder_Accept_cases in E as [[_ ?]|(i & s & Hs & Hk & _ & _ & _ & _ & _ & _ & ->)]; [done|].
    destruct (ev_arrived _ _ (reorder_steps_evolve _ _ Hr') key) as (j & t & Hj & Ht & Hrc).
    { eexists i, _. cbn. rewrite list_lookup_insert_eq by (by eapply lookup_lt_Some). by split. }
    unfold Accept, Find. rewrite (find_slot_complete _ _ _ _ (ri_keys _ Hb') Hj Ht).
    by rewrite (list_lookup_total_correct _ _ _ Hj), Hrc.
Qed.
