(* ===== verification/CollRuntime.v ===== *)
(** The collective runtime ([src/dte/coll_runtime.cpp]): the barrier ranks
    wait on, the arrival of gather packets at a receiver with a bounded
    reorder buffer, and the arrival of reduction contributions at the root.

    A SystemC process runs between two [wait]s without interruption, so each
    such segment is one operation.  A rank blocked on a barrier's release
    event is in [b_waiting]; the notification moves the blocked ranks to
    [b_runnable]. *)

From S2P Require Import Prelude CollTypes CollTree CollReorder.

(** ** [WaitCollectiveBarrier] *)

(** [struct BarrierState] *)
Record BarrierState : Type := mkBarrier {
  b_expected : Z; (* uint16_t *)
  b_arrived : gset Z;
  b_waiting : gset Z;
  b_runnable : gset Z;
  b_departed : Z; (* uint16_t *)
  b_release_tree_id : Z (* uint16_t *)
}.

(** The registries the barrier touches. *)
Record world : Type := mkWorld {
  w_barriers : gmap (CollectiveKey * Z) BarrierState;
  w_fabric : fabric;
  w_reduce : gmap (Z * Z) CollReduceTreeNode
}.

Definition set_barrier (w : world) (k : CollectiveKey * Z) (st : BarrierState) : world :=
  mkWorld (<[k := st]> (w_barriers w)) (w_fabric w) (w_reduce w).

(** The code after the wait. *)
Definition barrier_depart (w : world) (k : CollectiveKey * Z) (st : BarrierState) : world * option exn :=
  let departed := u16 (b_departed st + 1) in
  if departed =? b_expected st then
    let tree_id := b_release_tree_id st in
    let w := mkWorld (delete k (w_barriers w)) (w_fabric w) (w_reduce w) in
    if negb (tree_id =? 0) then
      let (fabric, tree_entries) := EraseCollectiveTree (w_fabric w) tree_id in
      let (reduce, _) := EraseCollectiveReduceTree (w_reduce w) tree_id in
      (mkWorld (w_barriers w) fabric reduce,
       if tree_entries =? 0
       then Some (runtime_error "collective final barrier released an unknown tree") else None)
    else (w, None)
  else (set_barrier w k (mkBarrier (b_expected st) (b_arrived st) (b_waiting st) (b_runnable st)
                           departed (b_release_tree_id st)), None).

(** What becomes of a caller: it goes on, it waits for the release, or it throws. *)
Inductive barrier_outcome : Type := Passes | Waits | Throws (e : exn).
Definition departs_with (r : world * option exn) : world * barrier_outcome :=
  (r.1, match r.2 with Some e => Throws e | None => Passes end).

Definition barrier_enter (w : world) (k : CollectiveKey * Z) (st : BarrierState) (rank : Z)
    : world * barrier_outcome :=
  if bool_decide (rank ∈ b_arrived st) then (w, Throws (runtime_error "duplicate collective barrier arrival"))
  else
    let arrived := {[rank]} ∪ b_arrived st in
    if Z.of_nat (size arrived) =? b_expected st
    then departs_with (barrier_depart w k (mkBarrier (b_expected st) arrived ∅ (b_waiting st ∪ b_runnable st)
                               (b_departed st) (b_release_tree_id st)))
    else (set_barrier w k (mkBarrier (b_expected st) arrived ({[rank]} ∪ b_waiting st) (b_runnable st)
                             (b_departed st) (b_release_tree_id st)), Waits).

(** A rank calls [WaitCollectiveBarrier]: up to its wait, or to the end when
    it is the last to arrive. *)
Definition WaitCollectiveBarrier (w : world) (key : CollectiveKey) (phase_id rank group_size release_tree_id : Z)
    : world * barrier_outcome :=
  if (group_size =? 0) || (group_size <=? rank)
  then (w, Throws (invalid_argument "collective barrier rank/group invalid"))
  else
    match w_barriers w !! (key, phase_id) with
    | None => barrier_enter w (key, phase_id) (mkBarrier group_size ∅ ∅ ∅ 0 release_tree_id) rank
    | Some st =>
        if negb (b_expected st =? group_size)
        then (w, Throws (runtime_error "collective barrier group size mismatch"))
        else if negb (b_release_tree_id st =? release_tree_id)
        then (w, Throws (runtime_error "collective barrier tree-release mismatch"))
        else barrier_enter w (key, phase_id) st rank
    end.

(** A released rank resumes. *)
Definition barrier_resume (w : world) (k : CollectiveKey * Z) (rank : Z) : option (world * option exn) :=
  match w_barriers w !! k with
  | Some st =>
      if bool_decide (rank ∈ b_runnable st)
      then Some (barrier_depart w k (mkBarrier (b_expected st) (b_arrived st) (b_waiting st)
                                       (b_runnable st ∖ {[rank]}) (b_departed st) (b_release_tree_id st)))
      else None
  | None => None
  end.

Definition CollectiveBarrierStateCount (w : world) : Z := Z.of_nat (size (w_barriers w)).

(** ** [ProcessGatherReorderArrival] *)

Definition UsesGatherRx (o : CollOp) : bool :=
  bool_decide (o = GATHER) || bool_decide (o = ALLGATHER) || bool_decide (o = ALLTOALL).

Definition ExpectedGatherSlots (d : CollDescriptor) : list GatherExpectedSlot :=
  seqZ 0 (group_size d) ≫= fun src =>
    if src =? d_self_rank d then []
    else [mkExpectedSlot (mkPacketKey (d_key d) src 0 src (d_self_rank d)) (u64 (src * d_stride_bits d))].

Notation gather_map := (gmap (CollectiveKey * Z) GatherReorderBuffer).

(** The accepting loop: each failed attempt waits a cycle and commits.  [None]
    is still waiting after [fuel] attempts. *)
Fixpoint gather_accept (fuel : nat) (b : GatherReorderBuffer) (packet : PacketKey) (offset : Z)
    : option (result GatherReorderBuffer) :=
  let (b, status) := Accept b packet offset in
  match status with
  | GA_ACCEPTED => Some (Ok b)
  | GA_FULL =>
      match fuel with
      | O => None
      | S fuel => gather_accept fuel (CommitCycle (RecordBackpressureStall b)).1 packet offset
      end
  | _ => Some (Err (runtime_error "gather reorder rejected packet metadata"))
  end.

(** The whole call, when no other call works on the same buffer meanwhile. *)
Definition ProcessGatherReorderArrival (fuel : nat) (gs : gather_map) (d : CollDescriptor) (phase_id : Z)
    : option (result gather_map) :=
  let checks :=
    ValidateCollDescriptor d ≫= fun _ =>
    THROW invalid_argument "finite gather reorder marker is invalid"
      WHEN negb (UsesGatherRx (d_op d)) || (d_gather_reorder_depth d =? 0);;
    THROW invalid_argument "gather reorder source phase is invalid"
      WHEN (group_size d <=? phase_id) || (phase_id =? d_self_rank d);;
    match gs !! (d_key d, d_self_rank d) with
    | Some b => Ok b
    | None => new_GatherReorderBuffer (ExpectedGatherSlots d) (Z.to_nat (d_gather_reorder_depth d)) 1
    end in
  match checks with
  | Err e => Some (Err e)
  | Ok b =>
      let packet := mkPacketKey (d_key d) phase_id 0 phase_id (d_self_rank d) in
      match gather_accept fuel b packet (u64 (phase_id * d_stride_bits d)) with
      | None => None
      | Some (Err e) => Some (Err e)
      | Some (Ok b) =>
          let b := (CommitCycle b).1 in
          Some (Ok (if Complete b then delete (d_key d, d_self_rank d) gs
                    else <[(d_key d, d_self_rank d) := b]> gs))
      end
  end.

(** ** [ProcessReduceRxArrival] *)

(** [struct ReduceRxState] *)
Record ReduceRxState : Type := mkReduceRx { rx_expected : list bool; rx_received : list bool; rx_arrived : Z }.

Notation reduce_map := (gmap (CollectiveKey * Z) ReduceRxState).

Definition ProcessReduceRxArrival (rs : reduce_map) (d : CollDescriptor) (phase_id : Z) : result reduce_map :=
  ValidateTier0ReductionDescriptor d ≫= fun _ =>
  THROW invalid_argument "Reduce RX arrival rank/phase is invalid"
    WHEN negb (d_self_rank d =? d_root_rank d) || (group_size d <=? phase_id)
         || (phase_id =? d_root_rank d);;
  let key := (d_key d, d_self_rank d) in
  let n := length (d_group d) in
  let state := default (mkReduceRx (<[Z.to_nat (d_root_rank d) := false]> (replicate n true))
                          (replicate n false) 0) (rs !! key) in
  THROW runtime_error "Reduce RX received an unexpected source"
    WHEN negb (rx_expected state !!! Z.to_nat phase_id);;
  THROW runtime_error "Reduce RX received a duplicate source" WHEN rx_received state !!! Z.to_nat phase_id;;
  let state := mkReduceRx (rx_expected state) (<[Z.to_nat phase_id := true]> (rx_received state))
                 (rx_arrived state + 1) in
  Ok (if rx_arrived state + 1 =? group_size d then delete key rs else <[key := state]> rs).

(** ** Lemmas on the barrier *)

Definition ranks (n : Z) : gset Z := list_to_set (seqZ 0 n).

Lemma elem_of_ranks n r : r ∈ ranks n <-> 0 <= r < n.
Proof. unfold ranks. rewrite elem_of_list_to_set, elem_of_seqZ. lia. Qed.

Lemma size_ranks n : 0 <= n -> Z.of_nat (size (ranks n)) = n.
Proof. intros Hn. unfold ranks. rewrite size_list_to_set by apply NoDup_seqZ. rewrite length_seqZ. lia. Qed.

Lemma full_ranks (X : gset Z) n : 0 <= n -> X ⊆ ranks n -> n <= Z.of_nat (size X) -> X = ranks n.
Proof.
  intros Hn Hs Hz. pose proof (size_ranks n Hn). apply set_subseteq_size_eq; [done|lia].
Qed.

Record barrier_wf (st : BarrierState) : Prop := {
  bw_expected : 0 < b_expected st < 2 ^ 16;
  bw_ranks : b_arrived st ⊆ ranks (b_expected st);
  bw_sub : b_waiting st ∪ b_runnable st ⊆ b_arrived st;
  bw_count : Z.of_nat (size (b_waiting st)) + Z.of_nat (size (b_runnable st)) + b_departed st
             = Z.of_nat (size (b_arrived st));
  bw_departed : 0 <= b_departed st < b_expected st;
  bw_open : Z.of_nat (size (b_arrived st)) < b_expected st -> b_runnable st = ∅ /\ b_departed st = 0;
  bw_full : Z.of_nat (size (b_arrived st)) = b_expected st -> b_waiting st = ∅
}.
Definition barriers_wf (w : world) : Prop := map_Forall (fun _ st => barrier_wf st) (w_barriers w).

(** A state in which a rank is about to depart: everyone has arrived. *)
Record departing (st : BarrierState) : Prop := {
  dp_expected : 0 < b_expected st < 2 ^ 16;
  dp_arrived : b_arrived st = ranks (b_expected st);
  dp_sub : b_runnable st ⊆ b_arrived st;
  dp_waiting : b_waiting st = ∅;
  dp_count : Z.of_nat (size (b_runnable st)) + b_departed st + 1 = b_expected st;
  dp_departed : 0 <= b_departed st
}.

Lemma barrier_depart_spec w k st : departing st ->
  let w' := (barrier_depart w k st).1 in
  (b_runnable st = ∅ /\ w_barriers w' = delete k (w_barriers w)) \/
  (b_runnable st <> ∅ /\ (barrier_depart w k st).2 = None /\
   w_barriers w' = <[k := mkBarrier (b_expected st) (b_arrived st) (b_waiting st) (b_runnable st)
                            (b_departed st + 1) (b_release_tree_id st)]> (w_barriers w) /\
   barrier_wf (mkBarrier (b_expected st) (b_arrived st) (b_waiting st) (b_runnable st)
                 (b_departed st + 1) (b_release_tree_id st))).
Proof.
  intros [E A S W C D]. unfold barrier_depart.
  assert (u16 (b_departed st + 1) = b_departed st + 1) as -> by (apply wrap_small; unfold in_u; lia).
  destruct (Z.eqb_spec (b_departed st + 1) (b_expected st)) as [He|He].
  - left. split; [apply leibniz_equiv, size_empty_inv; lia|]. destruct (negb _); [|done].
    destruct (EraseCollectiveTree _ _), (EraseCollectiveReduceTree _ _). done.
  - right. assert (b_runnable st <> ∅) by (intros Hr; rewrite Hr, size_empty in C; lia).
    split; [done|]. split; [done|]. split; [done|]. pose proof (size_ranks (b_expected st) ltac:(lia)).
    split; cbn; rewrite ?W, ?A, ?size_empty; try done; try lia. set_solver.
Qed.

Lemma depart_wf w k st : barriers_wf w -> departing st -> barriers_wf (barrier_depart w k st).1.
Proof.
  intros Hw Hd. destruct (barrier_depart_spec w k st Hd) as [[_ H]|(_ & _ & H & Hwf)]; unfold barriers_wf; rewrite H.
  - by apply map_Forall_delete.
  - by apply map_Forall_insert_2.
Qed.

(** A rank enters a barrier that is not full. *)
Lemma enter_wf w k st rank : barriers_wf w -> barrier_wf st \/
    (0 < b_expected st < 2 ^ 16 /\ b_arrived st = ∅ /\ b_waiting st = ∅ /\ b_runnable st = ∅ /\ b_departed st = 0) ->
  0 <= rank < b_expected st -> barriers_wf (barrier_enter w k st rank).1.
Proof.
  intros Hw Hst Hr. assert (barrier_wf st) as [E R S C D O F].
  { destruct Hst as [?|(E & HA & HW & HR & HD)]; [done|]. split; rewrite ?HA, ?HW, ?HR, ?HD; rewrite ?size_empty; try done; try lia; set_solver. }
  unfold barrier_enter. case_bool_decide as Hin; [done|].
  assert (Z.of_nat (size ({[rank]} ∪ b_arrived st)) = Z.of_nat (size (b_arrived st)) + 1) as Hsz.
  { rewrite size_union by set_solver. rewrite size_singleton. lia. }
  assert (Z.of_nat (size (b_arrived st)) < b_expected st) as Hlt.
  { apply Z.lt_nge. intros Hge. apply Hin. rewrite (full_ranks _ (b_expected st)) by (done || lia).
    by apply elem_of_ranks. }
  destruct (O Hlt) as [Hrun Hdep]. rewrite Hsz.
  assert ({[rank]} ∪ b_arrived st ⊆ ranks (b_expected st)) as Hsub.
  { apply union_subseteq; split; [|done]. apply singleton_subseteq_l. by apply elem_of_ranks. }
  destruct (Z.eqb_spec (Z.of_nat (size (b_arrived st)) + 1) (b_expected st)) as [Hl|Hl].
  - cbn [departs_with fst]. apply depart_wf; [done|]. rewrite Hrun in *. rewrite size_empty in C. split; cbn.
    + done.
    + apply full_ranks; [lia|done|lia].
    + set_solver.
    + done.
    + rewrite union_empty_r_L. lia.
    + lia.
  - apply map_Forall_insert_2; [|done]. rewrite Hrun in *. rewrite size_empty in C.
    assert (rank ∉ b_waiting st) by set_solver.
    split; cbn; rewrite ?Hrun; try done; try lia; [set_solver|].
    rewrite size_empty, size_union, size_singleton by set_solver. lia.
Qed.

Lemma WaitCollectiveBarrier_wf w key phase rank gs tree : 0 <= gs < 2 ^ 16 -> 0 <= rank -> barriers_wf w ->
  barriers_wf (WaitCollectiveBarrier w key phase rank gs tree).1.
Proof.
  intros Hg Hr Hw. unfold WaitCollectiveBarrier.
  destruct ((gs =? 0) || (gs <=? rank)) eqn:E; [done|]. split_guards.
  destruct (w_barriers w !! (key, phase)) as [st|] eqn:Hst.
  - destruct (Z.eqb_spec (b_expected st) gs) as [Heq|]; cbn [negb]; [|done].
    destruct (negb _); [done|]. apply enter_wf; [done|left; by apply (Hw (key, phase))|lia].
  - apply enter_wf; [done|right; cbn; split_and!; done || lia|cbn; lia].
Qed.

(** A resuming rank is in a departing state. *)
Lemma resume_departing st rank : barrier_wf st -> rank ∈ b_runnable st ->
  departing (mkBarrier (b_expected st) (b_arrived st) (b_waiting st) (b_runnable st ∖ {[rank]})
               (b_departed st) (b_release_tree_id st)).
Proof.
  intros [E R S C D O F] Hin.
  assert (Z.of_nat (size (b_arrived st)) = b_expected st) as Hfull.
  { apply Z.le_antisymm.
    - rewrite <- (size_ranks (b_expected st)) by lia. apply inj_le, subseteq_size. done.
    - apply Z.le_ngt. intros Hlt. destruct (O Hlt) as [Hr _]. rewrite Hr in Hin. set_solver. }
  specialize (F Hfull). rewrite F, size_empty in C.
  assert (Z.of_nat (size (b_runnable st ∖ {[rank]})) = Z.of_nat (size (b_runnable st)) - 1) as Hs.
  { rewrite size_difference by set_solver. rewrite size_singleton.
    assert (size (b_runnable st) <> 0%nat); [|lia]. intros H0%size_empty_inv. set_solver. }
  split; cbn; [done|apply full_ranks; [lia|done|lia]|set_solver|done|lia|lia].
Qed.

Lemma resume_wf w k rank w' e : barriers_wf w -> barrier_resume w k rank = Some (w', e) -> barriers_wf w'.
Proof.
  intros Hw. unfold barrier_resume. destruct (w_barriers w !! k) as [st|] eqn:Hst; [|done].
  case_bool_decide as Hin; [|done]. intros [= H]. apply (f_equal fst) in H. cbn in H. subst w'.
  apply depart_wf; [done|]. apply resume_departing; [by eapply Hw|done].
Qed.

(** The ranks that have arrived at a barrier, and what becomes of the next. *)
Definition arrived_at (w : world) (k : CollectiveKey * Z) : gset Z :=
  match w_barriers w !! k with Some st => b_arrived st | None => ∅ end.

Lemma enter_outcome w k st rank : b_arrived st ⊆ ranks (b_expected st) -> Z.of_nat (size (b_arrived st)) <= b_expected st ->
  (Z.of_nat (size (b_arrived st)) < b_expected st -> b_runnable st = ∅) -> 0 <= rank < b_expected st ->
  let '(w', o) := barrier_enter w k st rank in
  match o with
  | Passes => rank ∉ b_arrived st /\ {[rank]} ∪ b_arrived st = ranks (b_expected st)
  | Waits => rank ∉ b_arrived st /\ exists st', w_barriers w' !! k = Some st' /\ b_arrived st' = {[rank]} ∪ b_arrived st /\
      Z.of_nat (size (b_arrived st')) < b_expected st /\ rank ∈ b_waiting st' /\ b_runnable st' = ∅
  | Throws _ => w' = w \/ rank ∉ b_arrived st /\ {[rank]} ∪ b_arrived st = ranks (b_expected st)
  end.
Proof.
  intros Hsub Hle Hopen Hr. unfold barrier_enter. case_bool_decide as Hin; [by left|].
  assert ({[rank]} ∪ b_arrived st ⊆ ranks (b_expected st)) as Hs by (apply union_subseteq; split; [apply singleton_subseteq_l; by apply elem_of_ranks|done]).
  assert (Z.of_nat (size ({[rank]} ∪ b_arrived st)) = Z.of_nat (size (b_arrived st)) + 1) as Hsz by (rewrite size_union, size_singleton by set_solver; lia).
  pose proof (subseteq_size _ _ Hs) as Hmax. pose proof (size_ranks (b_expected st) ltac:(lia)).
  destruct (Z.eqb_spec (Z.of_nat (size ({[rank]} ∪ b_arrived st))) (b_expected st)) as [He|He].
  - assert ({[rank]} ∪ b_arrived st = ranks (b_expected st)) as Hf by (apply full_ranks; [lia|done|lia]).
    unfold departs_with. destruct (barrier_depart _ _ _) as [w1 [e|]]; cbn [fst snd]; [by right|done].
  - split; [done|]. eexists. split; [apply lookup_insert_eq|]. cbn. split; [done|]. split; [lia|]. split; [set_solver|]. apply Hopen. lia.
Qed.

Lemma WaitCollectiveBarrier_outcome w key ph rank gs tree : barriers_wf w -> 0 <= gs < 2 ^ 16 -> 0 <= rank ->
  let others := arrived_at w (key, ph) in
  let '(w', o) := WaitCollectiveBarrier w key ph rank gs tree in
  match o with
  | Passes => rank ∉ others /\ {[rank]} ∪ others = ranks gs
  | Waits => rank ∉ others /\ exists st, w_barriers w' !! (key, ph) = Some st /\ b_arrived st = {[rank]} ∪ others /\
      Z.of_nat (size (b_arrived st)) < gs /\ rank ∈ b_waiting st /\ b_runnable st = ∅
  | Throws _ => w' = w \/ rank ∉ others /\ {[rank]} ∪ others = ranks gs
  end.
Proof.
  intros Hw Hg Hr. cbn zeta. unfold WaitCollectiveBarrier, arrived_at.
  destruct ((gs =? 0) || (gs <=? rank)) eqn:E; [by left|]. split_guards.
  destruct (w_barriers w !! (key, ph)) as [st|] eqn:Hst.
  - destruct (Z.eqb_spec (b_expected st) gs) as [<-|]; cbn [negb]; [|by left]. destruct (negb _); [by left|].
    destruct (Hw _ _ Hst) as [B R S C D O F]. refine (enter_outcome w (key, ph) st rank R _ (fun H => proj1 (O H)) _); [|lia].
    apply subseteq_size in R. rewrite <- (size_ranks (b_expected st)) by lia. by apply inj_le.
  - refine (enter_outcome w (key, ph) (mkBarrier gs ∅ ∅ ∅ 0 tree) rank _ _ (fun _ => eq_refl) _); cbn; rewrite ?size_empty; [apply empty_subseteq|lia|lia].
Qed.

(** The released ranks [l] resume in that order, each to the end of its call. *)
Fixpoint resume_all (w : world) (k : CollectiveKey * Z) (l : list Z) : option world :=
  match l with
  | [] => Some w
  | r :: l => match barrier_resume w k r with Some (w', _) => resume_all w' k l | None => None end
  end.

Definition tree_erased (g : fabric) (t : Z) : Prop :=
  forall key, tk_tree_id key = t -> g_tree_entries g !! key = None.

Lemma EraseCollectiveTree_erased g t : tree_erased (EraseCollectiveTree g t).1 t.
Proof.
  intros key Hk. cbn. apply map_lookup_filter_None. right. intros x _ Hx. by apply Hx.
Qed.

Lemma depart_last_erases w k st : departing st -> b_runnable st = ∅ ->
  let w' := (barrier_depart w k st).1 in
  w_barriers w' !! k = None /\ (b_release_tree_id st <> 0 -> tree_erased (w_fabric w') (b_release_tree_id st)).
Proof.
  intros Hd Hr. destruct (barrier_depart_spec w k st Hd) as [[_ H]|[Hne _]]; [|done]. cbn zeta.
  rewrite H. split; [apply lookup_delete_eq|]. intros Ht.
  destruct Hd as [E _ _ _ C D]. rewrite Hr, size_empty in C. unfold barrier_depart.
  assert (u16 (b_departed st + 1) = b_departed st + 1) as -> by (apply wrap_small; unfold in_u; lia).
  rewrite (proj2 (Z.eqb_eq _ _)) by lia. rewrite (proj2 (Z.eqb_neq (b_release_tree_id st) 0) Ht). cbn [negb].
  pose proof (EraseCollectiveTree_erased (w_fabric w) (b_release_tree_id st)) as He. cbn in He.
  destruct (EraseCollectiveTree _ _) as [f n] eqn:Ef, (EraseCollectiveReduceTree _ _).
  cbn. unfold EraseCollectiveTree in Ef. injection Ef as <- _. exact He.
Qed.

Lemma resume_all_spec l w k st : barriers_wf w -> w_barriers w !! k = Some st -> l <> [] ->
  NoDup l -> (forall r, r ∈ l <-> r ∈ b_runnable st) ->
  exists w', resume_all w k l = Some w' /\ w_barriers w' !! k = None /\
    (b_release_tree_id st <> 0 -> tree_erased (w_fabric w') (b_release_tree_id st)).
Proof.
  revert w st; induction l as [|r l IH]; intros w st Hw Hst Hne Hnd Hl; [done|]. clear Hne.
  apply list.NoDup_cons in Hnd as [Hr Hnd].
  assert (r ∈ b_runnable st) as Hin by (apply Hl; left).
  pose proof (resume_departing st r (Hw _ _ Hst) Hin) as Hd. set (st' := mkBarrier _ _ _ _ _ _) in Hd.
  assert (barrier_resume w k r = Some (barrier_depart w k st')) as Hres
    by (unfold barrier_resume; by rewrite Hst, bool_decide_true).
  cbn [resume_all]. rewrite Hres. destruct (barrier_depart w k st') as [w1 e] eqn:Ed.
  pose proof (depart_wf w k st' Hw Hd) as Hw1. rewrite Ed in Hw1. cbn in Hw1.
  assert (forall x, x ∈ l <-> x ∈ b_runnable st') as Hl'.
  { intros x. cbn. rewrite elem_of_difference, not_elem_of_singleton, <- Hl, elem_of_cons. naive_solver. }
  destruct l as [|r' l].
  - pose proof (depart_last_erases w k st' Hd) as Hlast. rewrite Ed in Hlast. cbn in Hlast.
    exists w1. split; [done|]. apply Hlast. apply leibniz_equiv. intros x. specialize (Hl' x). set_solver.
  - destruct (barrier_depart_spec w k st' Hd) as [[Hem _]|(_ & _ & Hb & _)].
    { exfalso. specialize (Hl' r'). rewrite Hem in Hl'. assert (r' ∈ r' :: l) by left. set_solver. }
    rewrite Ed in Hb. cbn [fst] in Hb.
    apply (IH w1 (mkBarrier (b_expected st') (b_arrived st') (b_waiting st') (b_runnable st')
                     (b_departed st' + 1) (b_release_tree_id st'))); [done| |done|done|done].
    rewrite Hb. apply lookup_insert_eq.
Qed.

Inductive barrier_step : world -> world -> Prop :=
  | bs_arrive w key ph rank gs tree : 0 <= gs < 2 ^ 16 -> 0 <= rank ->
      barrier_step w (WaitCollectiveBarrier w key ph rank gs tree).1
  | bs_resume w k rank w' e : barrier_resume w k rank = Some (w', e) -> barrier_step w w'
  | bs_registry w f r : barrier_step w (mkWorld (w_barriers w) f r).

Lemma barrier_reachable w0 w : w_barriers w0 = ∅ -> rtc barrier_step w0 w -> barriers_wf w.
Proof.
  intros H0 Hr. assert (barriers_wf w0) as Hw by (unfold barriers_wf; rewrite H0; apply map_Forall_empty).
  clear H0. induction Hr as [|x y z Hs _ IH]; [done|]. apply IH.
  destruct Hs as [w key ph rank gs tree|w k rank w' e|w f r]; [by apply WaitCollectiveBarrier_wf|by eapply resume_wf|done].
Qed.

(** ** Lemmas on the gather receiver *)

Definition fresh_slot (e : GatherExpectedSlot) : Slot := mkSlot e false false.
Definition done_slot (e : GatherExpectedSlot) : Slot := mkSlot e false true.

Lemma new_reorder_fresh expected d p : expected <> [] -> NoDup (es_key <$> expected) -> (d <> 0)%nat -> (p <> 0)%nat ->
  new_GatherReorderBuffer expected d p = Ok (mkReorder (fresh_slot <$> expected) d p 0 0 0 0).
Proof.
  intros He Hk Hd Hp. unfold new_GatherReorderBuffer.
  rewrite throw_bind_false by (by apply bool_decide_eq_false).
  rewrite !throw_bind_false by (by apply Nat.eqb_neq).
  enough (forall pre l, NoDup (es_key <$> pre ++ l) -> foldM (fun slots e =>
    THROW invalid_argument "gather reorder expected packet is duplicated"
      WHEN existsb (fun s => bool_decide (slot_key s = es_key e)) slots;;
    Ok (slots ++ [mkSlot e false false])) (fresh_slot <$> pre) l = Ok (fresh_slot <$> pre ++ l)) as H
    by (specialize (H [] expected Hk); cbn in H; by rewrite H).
  intros pre l; revert pre; induction l as [|e l IH]; intros pre Hn; cbn [foldM]; [by rewrite app_nil_r|].
  rewrite throw_bind_false.
  - specialize (IH (pre ++ [e])). rewrite <- app_assoc in IH. cbn in IH. rewrite <- IH by done.
    by rewrite fmap_app.
  - apply not_true_iff_false. intros (s & Hs & Heq)%existsb_exists. apply bool_decide_eq_true in Heq.
    apply list_elem_of_In, list_elem_of_fmap in Hs as (e' & -> & He'). rewrite fmap_app in Hn.
    apply list.NoDup_app in Hn as (_ & Hn & _). apply (Hn (es_key e)).
    + apply list_elem_of_fmap. by exists e'.
    + cbn. left.
Qed.

(** The buffer after the packets [pre] went through one at a time. *)
Definition drained (pre post : list GatherExpectedSlot) (d peak stall : nat) : GatherReorderBuffer :=
  mkReorder ((done_slot <$> pre) ++ (fresh_slot <$> post)) d 1 0 peak stall (length pre).

Lemma drained_accept pre e post d peak stall fuel : NoDup (es_key <$> pre ++ e :: post) -> (d <> 0)%nat ->
  exists b, gather_accept fuel (drained pre (e :: post) d peak stall) (es_key e) (es_offset_bits e) = Some (Ok b) /\
    (CommitCycle b).1 = drained (pre ++ [e]) post d (Nat.max peak 1) stall.
Proof.
  intros Hnd Hd.
  assert (slots (drained pre (e :: post) d peak stall) !! length pre = Some (fresh_slot e)) as Hl.
  { cbn. by rewrite lookup_app_r, length_fmap, Nat.sub_diag by (rewrite length_fmap; lia). }
  assert (Accept (drained pre (e :: post) d peak stall) (es_key e) (es_offset_bits e) =
    (mkReorder ((done_slot <$> pre) ++ mkSlot e true false :: (fresh_slot <$> post)) d 1 1 (Nat.max peak 1) stall (length pre),
     GA_ACCEPTED)) as Ha.
  { unfold Accept, Find. rewrite (find_slot_complete (es_key e) _ (length pre) (fresh_slot e)); [|cbn|done|done].
    - rewrite (list_lookup_total_correct _ _ _ Hl). cbn [fresh_slot sl_received sl_committed sl_expected orb].
      rewrite Z.eqb_refl. cbn [negb]. cbn [drained occupancy depth next_commit slots].
      rewrite Nat.eqb_refl. destruct (Nat.eqb_spec 0 d); [lia|]. cbn [negb andb orb]. do 2 f_equal.
      rewrite insert_app_r_alt by (rewrite length_fmap; lia). by rewrite length_fmap, Nat.sub_diag.
    - rewrite fmap_app in Hnd. change (fresh_slot e :: (fresh_slot <$> post)) with (fresh_slot <$> e :: post).
      rewrite fmap_app, <- !list_fmap_compose. exact Hnd. }
  exists (Accept (drained pre (e :: post) d peak stall) (es_key e) (es_offset_bits e)).1. split.
  - destruct fuel; cbn [gather_accept]; by rewrite Ha.
  - rewrite Ha. unfold CommitCycle. cbn [fst commit_ports commit_loop next_commit slots].
    rewrite (proj2 (Nat.ltb_lt _ _)) by (rewrite length_app, length_fmap; cbn; lia).
    rewrite list_lookup_total_middle by (by rewrite length_fmap). cbn [sl_received negb fst].
    unfold drained. rewrite fmap_app, <- app_assoc, length_app. f_equal.
    rewrite insert_app_r_alt by (rewrite length_fmap; lia). by rewrite length_fmap, Nat.sub_diag.
Qed.

(** The source ranks of a gather, in the order of the planner's phases. *)
Definition sources (d : CollDescriptor) : list Z :=
  base.filter (fun r => r <> d_self_rank d) (seqZ 0 (group_size d)).
Definition source_slot (d : CollDescriptor) (src : Z) : GatherExpectedSlot :=
  mkExpectedSlot (mkPacketKey (d_key d) src 0 src (d_self_rank d)) (u64 (src * d_stride_bits d)).

Lemma ExpectedGatherSlots_sources d : ExpectedGatherSlots d = source_slot d <$> sources d.
Proof.
  unfold ExpectedGatherSlots, sources. induction (seqZ 0 (group_size d)) as [|r l IH]; [done|].
  rewrite filter_cons.
  change ((r :: l) ≫= ?f) with (f r ++ (l ≫= f)). cbn beta. rewrite IH.
  destruct (Z.eqb_spec r (d_self_rank d)) as [->|Hne].
  - by rewrite decide_False by auto.
  - by rewrite decide_True by done.
Qed.

Lemma sources_keys d : NoDup (es_key <$> (source_slot d <$> sources d)).
Proof.
  rewrite <- list_fmap_compose. apply NoDup_fmap_2_strong; [|apply list.NoDup_filter, NoDup_seqZ].
  intros x y _ _ H. cbn in H. by injection H.
Qed.

(** Arrivals one after the other. *)
Fixpoint gather_all (fuel : nat) (gs : gather_map) (d : CollDescriptor) (l : list Z) : option (result gather_map) :=
  match l with
  | [] => Some (Ok gs)
  | r :: l => match ProcessGatherReorderArrival fuel gs d r with
              | Some (Ok gs') => gather_all fuel gs' d l
              | other => other
              end
  end.

Section gather.
Context (d : CollDescriptor) (fuel : nat).
Hypotheses (Hwf : wf_desc d) (Huse : UsesGatherRx (d_op d) = true)
  (Hdepth : 0 < d_gather_reorder_depth d).
Let key := (d_key d, d_self_rank d).
Let depth := Z.to_nat (d_gather_reorder_depth d).

Lemma arrival_step gs r pre post peak :
  sources d = pre ++ r :: post ->
  gs !! key = Some (drained (source_slot d <$> pre) (source_slot d <$> r :: post) depth peak 0) \/
    (gs !! key = None /\ pre = [] /\ peak = 0%nat) ->
  ProcessGatherReorderArrival fuel gs d r = Some (Ok (match post with
    | [] => delete key gs
    | _ => <[key := drained (source_slot d <$> pre ++ [r]) (source_slot d <$> post) depth (Nat.max peak 1) 0]> gs
    end)).
Proof.
  intros Hs Hgs. assert (r ∈ sources d) as Hr by (rewrite Hs; apply elem_of_app; right; left).
  apply list_elem_of_filter in Hr as [Hself Hr]. apply elem_of_seqZ in Hr.
  pose proof (sources_keys d) as Hnd. rewrite Hs, fmap_app in Hnd.
  unfold ProcessGatherReorderArrival. rewrite (wf_validate _ Hwf). cbn [mbind result_bind].
  rewrite throw_bind_false by (rewrite Huse; cbn; apply Z.eqb_neq; lia).
  rewrite throw_bind_false by (apply orb_false_iff; split; [apply Z.leb_gt|apply Z.eqb_neq]; lia || done).
  fold key. fold depth.
  assert (match gs !! key with Some b => Ok b | None => new_GatherReorderBuffer (ExpectedGatherSlots d) depth 1 end
    = Ok (drained (source_slot d <$> pre) (source_slot d <$> r :: post) depth peak 0)) as ->.
  { destruct Hgs as [->|(-> & -> & ->)]; [done|]. rewrite ExpectedGatherSlots_sources, Hs.
    by rewrite new_reorder_fresh by (done || (unfold depth; lia)). }
  destruct (drained_accept (source_slot d <$> pre) (source_slot d r) (source_slot d <$> post) depth peak 0 fuel)
    as (b & Ha & Hb); [done|unfold depth; lia|].
  cbn [source_slot es_key es_offset_bits] in Ha. cbn [fmap list_fmap]. rewrite Ha, Hb. clear Ha Hb.
  assert (Complete (drained ((source_slot d <$> pre) ++ [source_slot d r]) (source_slot d <$> post) depth (Nat.max peak 1) 0)
    = bool_decide (post = [])) as ->.
  { unfold Complete; cbn. rewrite !length_app, !length_fmap, length_app, length_fmap. cbn.
    destruct post; [rewrite bool_decide_true by done; apply Nat.eqb_eq|rewrite bool_decide_false by done; apply Nat.eqb_neq];
      cbn; lia. }
  rewrite fmap_app. destruct post as [|r' post]; [rewrite bool_decide_true by done|rewrite bool_decide_false by done]; done.
Qed.

Lemma gather_all_post gs pre post peak : sources d = pre ++ post -> post <> [] ->
  gs !! key = Some (drained (source_slot d <$> pre) (source_slot d <$> post) depth peak 0) \/
    (gs !! key = None /\ pre = [] /\ peak = 0%nat) ->
  gather_all fuel gs d post = Some (Ok (delete key gs)).
Proof.
  revert gs pre peak; induction post as [|r post IH]; intros gs pre peak Hs Hne Hgs; [done|].
  cbn [gather_all]. rewrite (arrival_step gs r pre post peak Hs Hgs). destruct post as [|r' post]; [done|].
  rewrite (IH _ (pre ++ [r]) (Nat.max peak 1)); [by rewrite delete_insert_eq|by rewrite <- app_assoc|done|].
  left. by rewrite lookup_insert_eq.
Qed.
End gather.

(** ** Lemmas on the reduction receiver *)

Fixpoint reduce_rx_all (rs : reduce_map) (d : CollDescriptor) (l : list Z) : result reduce_map :=
  match l with
  | [] => Ok rs
  | r :: l => rs' ← ProcessReduceRxArrival rs d r; reduce_rx_all rs' d l
  end.

Section reduce_rx.
Context (d : CollDescriptor).
Hypotheses (Hval : ValidateTier0ReductionDescriptor d = Ok tt) (Hroot : d_self_rank d = d_root_rank d)
  (Hpos : 0 <= d_root_rank d).
Let key := (d_key d, d_self_rank d).
Let n := length (d_group d).

(** The root's state once the ranks [done] have contributed. *)
Definition rx_state (done : list Z) : ReduceRxState :=
  mkReduceRx (<[Z.to_nat (d_root_rank d) := false]> (replicate n true))
    (foldl (fun l r => <[Z.to_nat r := true]> l) (replicate n false) done) (Z.of_nat (length done)).

Lemma length_mark (done : list Z) (l : list bool) :
  length (foldl (fun l r => <[Z.to_nat r := true]> l) l done) = length l.
Proof. revert l; induction done as [|x done IH]; intros l; cbn; [done|]. by rewrite IH, length_insert. Qed.

Lemma rx_received_lookup done r : (forall x, x ∈ done -> 0 <= x < group_size d) -> 0 <= r < group_size d ->
  rx_received (rx_state done) !!! Z.to_nat r = bool_decide (r ∈ done).
Proof.
  intros Hd Hr. cbn. assert (Z.to_nat r < n)%nat as Hrn by (unfold n, group_size in *; lia).
  induction done as [|x done IH] using rev_ind.
  - cbn. rewrite bool_decide_false by apply not_elem_of_nil. by rewrite lookup_total_replicate_2.
  - rewrite foldl_snoc. pose proof (Hd x ltac:(apply elem_of_app; right; left)) as Hx.
    destruct (decide (x = r)) as [->|Hne].
    + rewrite list_lookup_total_insert_eq by (by rewrite length_mark, length_replicate).
      symmetry. apply bool_decide_eq_true. apply elem_of_app; right; left.
    + rewrite list_lookup_total_insert_ne by lia. rewrite IH.
      * apply bool_decide_ext. rewrite elem_of_app, list_elem_of_singleton. naive_solver.
      * intros y Hy. apply Hd. apply elem_of_app. by left.
Qed.

Lemma rx_step rs done r :
  (forall x, x ∈ done -> 0 <= x < group_size d) -> 0 <= r < group_size d -> r <> d_root_rank d ->
  rs !! key = Some (rx_state done) \/ (rs !! key = None /\ done = []) ->
  ProcessReduceRxArrival rs d r =
    if bool_decide (r ∈ done) then Err (runtime_error "Reduce RX received a duplicate source")
    else Ok (if Z.of_nat (length done) + 2 =? group_size d then delete key rs
             else <[key := rx_state (done ++ [r])]> rs).
Proof.
  intros Hd Hr Hne Hrs. unfold ProcessReduceRxArrival. rewrite Hval. cbn [mbind result_bind].
  rewrite throw_bind_false.
  2: { rewrite Hroot, Z.eqb_refl. cbn. apply orb_false_iff; split; [apply Z.leb_gt; lia|by apply Z.eqb_neq]. }
  fold n. fold key. change (mkReduceRx (<[Z.to_nat (d_root_rank d) := false]> (replicate n true)) (replicate n false) 0)
    with (rx_state []).
  assert (default (rx_state []) (rs !! key) = rx_state done) as -> by (destruct Hrs as [->|[-> ->]]; done).
  assert (Z.to_nat r < n)%nat as Hrn by (unfold n, group_size in *; lia).
  rewrite throw_bind_false.
  2: { cbn [rx_state rx_expected]. rewrite list_lookup_total_insert_ne by lia. by rewrite lookup_total_replicate_2. }
  rewrite rx_received_lookup by done. case_bool_decide; cbn [throw_if mbind result_bind]; [done|]. f_equal.
  cbn [rx_arrived rx_state rx_expected rx_received].
  replace (Z.of_nat (length done) + 1 + 1) with (Z.of_nat (length done) + 2) by lia.
  destruct (_ =? _); [done|]. unfold rx_state. rewrite foldl_snoc, length_app. cbn [length].
  do 2 f_equal. lia.
Qed.

Lemma rx_all_post rs done post : NoDup (done ++ post) ->
  (forall x, x ∈ done ++ post -> 0 <= x < group_size d /\ x <> d_root_rank d) ->
  Z.of_nat (length (done ++ post)) + 1 = group_size d -> post <> [] ->
  rs !! key = Some (rx_state done) \/ (rs !! key = None /\ done = []) ->
  reduce_rx_all rs d post = Ok (delete key rs).
Proof.
  revert rs done; induction post as [|r post IH]; intros rs done Hnd Hin Hlen Hne Hrs; [done|].
  cbn [reduce_rx_all]. destruct (Hin r ltac:(apply elem_of_app; right; left)) as [Hr Hrr].
  rewrite (rx_step rs done r); [|intros x Hx; apply Hin; apply elem_of_app; by left|done|done|done].
  rewrite bool_decide_false; cycle 1.
  { apply list.NoDup_app in Hnd as (_ & Hnd & _). intros Hx. apply (Hnd r Hx). left. }
  cbn [mbind result_bind]. rewrite length_app in Hlen. cbn in Hlen.
  destruct post as [|r' post].
  - cbn in Hlen. rewrite (proj2 (Z.eqb_eq _ _)) by lia. done.
  - cbn in Hlen. rewrite (proj2 (Z.eqb_neq _ _)) by lia.
    rewrite (IH _ (done ++ [r])); rewrite <- ?app_assoc; [by rewrite delete_insert_eq|done|done| |done|].
    + rewrite length_app. cbn. lia.
    + left. by rewrite lookup_insert_eq.
Qed.
Lemma rx_prefix rs done post : NoDup (done ++ post) ->
  (forall x, x ∈ done ++ post -> 0 <= x < group_size d /\ x <> d_root_rank d) ->
  Z.of_nat (length (done ++ post)) + 1 < group_size d -> post <> [] ->
  rs !! key = Some (rx_state done) \/ (rs !! key = None /\ done = []) ->
  reduce_rx_all rs d post = Ok (<[key := rx_state (done ++ post)]> rs).
Proof.
  revert rs done; induction post as [|r post IH]; intros rs done Hnd Hin Hlen Hne Hrs; [done|].
  cbn [reduce_rx_all]. destruct (Hin r ltac:(apply elem_of_app; right; left)) as [Hr Hrr].
  rewrite (rx_step rs done r); [|intros x Hx; apply Hin; apply elem_of_app; by left|done|done|done].
  rewrite bool_decide_false; cycle 1.
  { apply list.NoDup_app in Hnd as (_ & Hnd & _). intros Hx. apply (Hnd r Hx). left. }
  cbn [mbind result_bind]. pose proof Hlen as Hlen'. rewrite length_app in Hlen'. cbn in Hlen'.
  rewrite (proj2 (Z.eqb_neq _ _)) by lia. destruct post as [|r' post]; [done|].
  rewrite (IH _ (done ++ [r])); rewrite <- ?app_assoc; [by rewrite insert_insert_eq|done|done|done|done|].
  left. by rewrite lookup_insert_eq.
Qed.
End reduce_rx.

(** ** Properties *)

(** C31: the collective barrier releases nobody early.  In every state reachable
    by arrivals, resumptions and changes of the registries: a call goes on without
    waiting only when it is the last, every other rank of the group having entered
    this barrier before it; any other accepted call leaves its rank waiting in a barrier
    that is not full and not runnable; a call that throws has changed nothing or came
    last; and a rank that can resume finds that every rank of its group has arrived,
    so that until it is through every further arrival is refused. *)
Theorem barrier_no_early_release (w0 w : world) (key : CollectiveKey) (ph rank : Z) :
  w_barriers w0 = ∅ -> rtc barrier_step w0 w ->
  (forall gs tree, 0 <= gs < 2 ^ 16 -> 0 <= rank ->
    let others := arrived_at w (key, ph) in
    let '(w', o) := WaitCollectiveBarrier w key ph rank gs tree in
    match o with
    | Passes => rank ∉ others /\ {[rank]} ∪ others = ranks gs
    | Waits => rank ∉ others /\ exists st, w_barriers w' !! (key, ph) = Some st /\ b_arrived st = {[rank]} ∪ others /\
        Z.of_nat (size (b_arrived st)) < gs /\ rank ∈ b_waiting st /\ b_runnable st = ∅
    | Throws _ => w' = w \/ rank ∉ others /\ {[rank]} ∪ others = ranks gs
    end) /\
  (forall r, barrier_resume w (key, ph) rank = Some r -> exists st, w_barriers w !! (key, ph) = Some st /\ b_arrived st = ranks (b_expected st) /\
    (forall x, 0 <= x < b_expected st -> exists e, WaitCollectiveBarrier w key ph x (b_expected st) (b_release_tree_id st) = (w, Throws e))).
Proof.
  intros H0 Hr. pose proof (barrier_reachable _ _ H0 Hr) as Hw. split.
  - intros gs tree Hg Hrank. cbn zeta. pose proof (WaitCollectiveBarrier_outcome w key ph rank gs tree Hw Hg Hrank) as Ho.
    by destruct (WaitCollectiveBarrier _ _ _ _ _ _) as [w' o].
  - intros r Hres. unfold barrier_resume in Hres. destruct (w_barriers w !! (key, ph)) as [st|] eqn:Hst; [|done].
    case_bool_decide as Hin; [|done]. pose proof (resume_departing st rank (Hw _ _ Hst) Hin) as [E A _ _ _ _].
    cbn in E, A. exists st. split; [done|]. split; [done|]. intros x Hx. eexists.
    unfold WaitCollectiveBarrier. rewrite (proj2 (orb_false_iff _ _)) by (split; [apply Z.eqb_neq|apply Z.leb_gt]; lia).
    rewrite Hst, !Z.eqb_refl. cbn [negb]. unfold barrier_enter.
    rewrite bool_decide_true by (rewrite A; by apply elem_of_ranks). done.
Qed.

Definition ex_key : CollectiveKey := mkCollectiveKey 1 1 1.
Definition ex_world0 : world := mkWorld ∅ (mkFabric {[ mkTreeKey 7 3 4 := 1 ]} ∅ ∅) ∅.
Definition ex_world : world :=
  (WaitCollectiveBarrier (WaitCollectiveBarrier ex_world0 ex_key 0 1 2 7).1 ex_key 0 0 2 7).1.

Lemma ex_world_reachable : rtc barrier_step ex_world0 ex_world.
Proof.
  eapply rtc_l; [apply (bs_arrive _ ex_key 0 1 2 7); lia|].
  eapply rtc_l; [apply (bs_arrive _ ex_key 0 0 2 7); lia|]. apply rtc_refl.
Qed.

Lemma barrier_no_early_release_witness :
  (exists st, w_barriers ex_world !! (ex_key, 0) = Some st /\ b_arrived st = ranks (b_expected st)) /\
  (WaitCollectiveBarrier ex_world0 ex_key 0 1 2 7).2 = Waits /\
  {[0]} ∪ arrived_at (WaitCollectiveBarrier ex_world0 ex_key 0 1 2 7).1 (ex_key, 0) = ranks 2.
Proof.
  split; [|split; [by vm_compute|]].
  - destruct (barrier_resume ex_world (ex_key, 0) 1) as [r|] eqn:E; [|by vm_compute in E].
    destruct (barrier_no_early_release ex_world0 ex_world ex_key 0 1 eq_refl ex_world_reachable) as [_ H].
    destruct (H r E) as (st & H1 & H2 & _). by exists st.
  - assert (rtc barrier_step ex_world0 (WaitCollectiveBarrier ex_world0 ex_key 0 1 2 7).1) as Hr by (apply rtc_once, bs_arrive; lia).
    destruct (barrier_no_early_release ex_world0 _ ex_key 0 0 eq_refl Hr) as [H _]. specialize (H 2 7 ltac:(lia) ltac:(lia)). cbn zeta in H.
    assert ((WaitCollectiveBarrier (WaitCollectiveBarrier ex_world0 ex_key 0 1 2 7).1 ex_key 0 0 2 7).2 = Passes) as Ho by by vm_compute.
    destruct (WaitCollectiveBarrier (WaitCollectiveBarrier _ _ _ _ _ _).1 _ _ _ _ _) as [w' o]. cbn in Ho. subst o. apply H.
Defined.

(** A full barrier drains completely.  From any reachable state in which a
    rank has been released, the released ranks can resume in any order, each
    once; afterwards the barrier's entry is gone and, when it carried a
    distribution tree, so is every entry of that tree. *)
Theorem barrier_drains (w0 w : world) (k : CollectiveKey * Z) (st : BarrierState) (l : list Z) :
  w_barriers w0 = ∅ -> rtc barrier_step w0 w -> w_barriers w !! k = Some st ->
  b_runnable st <> ∅ -> l ≡ₚ elements (b_runnable st) ->
  exists w', resume_all w k l = Some w' /\ w_barriers w' !! k = None /\
    (b_release_tree_id st <> 0 -> tree_erased (w_fabric w') (b_release_tree_id st)).
Proof.
  intros H0 Hr Hst Hne Hl. apply (resume_all_spec l w k st); [by eapply barrier_reachable|done| | |].
  - intros ->. apply Permutation_nil_l in Hl. symmetry in Hl. by apply elements_empty_inv in Hl; apply leibniz_equiv in Hl.
  - rewrite Hl. apply NoDup_elements.
  - intros r. rewrite Hl. apply elem_of_elements.
Qed.

(** C40: a gather received in the planner's order needs no buffering.  For every
    accepted gather descriptor with a finite reorder depth, the arrivals of
    all its sources in phase order are each accepted at once (no stall, with
    any fuel), and after the last one the receiver's buffer has been removed. *)
Theorem gather_in_order_completes (d : CollDescriptor) (fuel : nat) (gs : gmap (CollectiveKey * Z) GatherReorderBuffer) :
  ValidateCollDescriptor d = Ok tt -> UsesGatherRx (d_op d) = true -> 0 < d_gather_reorder_depth d ->
  gs !! (d_key d, d_self_rank d) = None ->
  gather_all fuel gs d (sources d) = Some (Ok gs).
Proof.
  intros Hv Hu Hd Hg. destruct (sources d) as [|r l] eqn:E; [done|]. rewrite <- E.
  rewrite (gather_all_post d fuel (validate_wf _ Hv) Hu Hd gs [] (sources d) 0);
    [by rewrite delete_id|done|by rewrite E|right; done].
Qed.

Lemma gather_in_order_completes_witness :
  let d := mkCollDescriptor GATHER DIRECT UINT8 RO_NONE ex_key [3; 4; 6; 9] 1 1 8 0 0 64 64 2 in
  sources d = [0; 2; 3] /\ gather_all 0 ∅ d [0; 2; 3] = Some (Ok ∅).
Proof.
  intros d. assert (sources d = [0; 2; 3]) as E by (by vm_compute). split; [done|]. rewrite <- E.
  apply (gather_in_order_completes d 0 ∅); by vm_compute.
Defined.

(** the root counts every contribution of a reduction exactly once.  For an
    accepted reduction at its root, contributions of all other ranks in any
    order are all taken, the receiving state disappears exactly with the last
    one, and a contribution repeated before that is refused. *)
Theorem reduce_rx_exactly_once (d : CollDescriptor) (rs : gmap (CollectiveKey * Z) ReduceRxState) (l1 l2 : list Z) (r : Z) :
  ValidateTier0ReductionDescriptor d = Ok tt -> d_self_rank d = d_root_rank d -> 0 <= d_root_rank d ->
  rs !! (d_key d, d_self_rank d) = None ->
  NoDup (l1 ++ r :: l2) -> (forall x, x ∈ l1 ++ r :: l2 <-> 0 <= x < group_size d /\ x <> d_root_rank d) ->
  reduce_rx_all rs d (l1 ++ r :: l2) = Ok rs /\
  (l2 <> [] -> exists rs', reduce_rx_all rs d (l1 ++ [r]) = Ok rs' /\
     is_Some (rs' !! (d_key d, d_self_rank d)) /\
     ProcessReduceRxArrival rs' d r = Err (runtime_error "Reduce RX received a duplicate source")).
Proof.
  intros Hv Hr Hp Hrs Hnd Hall.
  assert (Z.of_nat (length (l1 ++ r :: l2)) + 1 = group_size d) as Hlen.
  { assert (d_root_rank d :: l1 ++ r :: l2 ≡ₚ seqZ 0 (group_size d)) as Hperm.
    { assert (d_root_rank d < group_size d) as Hroot.
      { apply bind_ok in Hv as ([] & Hv & _). by apply validate_wf in Hv as []. }
      apply NoDup_Permutation; [|apply NoDup_seqZ|].
      - apply list.NoDup_cons. split; [|done]. intros [_ Hx]%Hall. done.
      - intros x. rewrite elem_of_cons, Hall, elem_of_seqZ. destruct (Z.eq_dec x (d_root_rank d)); naive_solver lia. }
    apply Permutation_length in Hperm. cbn in Hperm. rewrite length_seqZ in Hperm. unfold group_size in *. lia. }
  split.
  - rewrite (rx_all_post d Hv Hr Hp rs [] (l1 ++ r :: l2));
      [by rewrite delete_id|done|intros x Hx; by apply Hall|done|by destruct l1|right; done].
  - intros Hl2. exists (<[(d_key d, d_self_rank d) := rx_state d (l1 ++ [r])]> rs).
    assert (forall x, x ∈ l1 ++ [r] -> 0 <= x < group_size d /\ x <> d_root_rank d) as Hin.
    { intros x Hx. apply Hall. apply elem_of_app in Hx as [?| ->%list_elem_of_singleton]; apply elem_of_app; [by left|right; left]. }
    assert (NoDup (l1 ++ [r])) as Hnd1.
    { apply list.NoDup_app in Hnd as (H1 & H2 & _). apply list.NoDup_app. split; [done|]. split; [|by repeat constructor; apply not_elem_of_nil].
      intros x Hx ->%list_elem_of_singleton. apply (H2 r Hx). left. }
    assert (Z.of_nat (length (l1 ++ [r])) + 1 < group_size d) as Hlen1.
    { rewrite length_app in *. cbn in *. destruct l2; [done|cbn in *; lia]. }
    split; [|split].
    + apply (rx_prefix d Hv Hr Hp rs [] (l1 ++ [r])); [done|done|done|by destruct l1|by right].
    + rewrite lookup_insert_eq. by eexists.
    + destruct (Hin r ltac:(apply elem_of_app; right; left)) as [Hr1 Hr2].
      rewrite (rx_step d Hv Hr Hp _ (l1 ++ [r])); [|intros x Hx; by apply Hin|done|done|left; apply lookup_insert_eq].
      rewrite bool_decide_true; [done|]. apply elem_of_app; right; left.
Qed.
