(* ===== verification/HbmAddressMap.v ===== *)
(** The distributed HBM address map ([src/memory/hbm_address_map.cpp]): the
    validation of an address policy and the decoding of a physical address to
    home die, stack, channel, pseudo channel and local address.  The
    configuration tables it reads ([g_hbm_stacks], [g_hbm_channels],
    [g_hbm_profiles]) are those of [include/die/port.h]. *)

From S2P Require Import Prelude.

Inductive AddressPolicyMode : Type := kLocalInterleave | kNumaLocalInterleave | kGlobalInterleave.
#[export] Instance AddressPolicyMode_eq_dec : EqDecision AddressPolicyMode.
Proof. solve_decision. Defined.

(** [struct HomeRange] *)
Record HomeRange : Type := mkHomeRange {
  hr_die_id : Z; (* int *)
  hr_base : Z; (* unsigned long long *)
  hr_size_bytes : Z (* unsigned long long *)
}.

(** [struct AddressPolicyConfig] *)
Record AddressPolicyConfig : Type := mkAddressPolicy {
  ap_active : bool;
  ap_mode : AddressPolicyMode;
  ap_home_ranges : list HomeRange;
  ap_stack_interleave_bytes : Z;
  ap_channel_interleave_bytes : Z;
  ap_pseudo_channel_interleave_bytes : Z;
  ap_allow_gaps : bool
}.

Inductive HBMBackendGranularity : Type := kChannel | kStack.
#[export] Instance HBMBackendGranularity_eq_dec : EqDecision HBMBackendGranularity.
Proof. solve_decision. Defined.

(** [struct HBMProfile], without the floating-point rates. *)
Record HBMProfile : Type := mkProfile { channels_per_stack : Z; pseudo_channels_per_channel : Z }.

(** [struct HBMStackConfig], without its backend model's parameters. *)
Record HBMStackConfig : Type := mkStack {
  st_stack_id : Z;
  st_compute_die_id : Z;
  st_profile : string;
  st_side : Z;
  st_start_idx : Z;
  st_phy_span_tiles : Z;
  st_capacity_bytes : Z; (* unsigned long long *)
  st_backend_granularity : HBMBackendGranularity;
  st_channels_per_mem_port : Z
}.

(** [struct HBMChannelConfig] *)
Record HBMChannelConfig : Type := mkChannel { ch_stack_id : Z; ch_channel_id : Z; ch_mem_tile : Z }.

(** The global tables. *)
Record hbm_tables : Type := mkTables {
  g_hbm_stacks : list HBMStackConfig;
  g_hbm_channels : list HBMChannelConfig;
  g_hbm_profiles : gmap string HBMProfile;
  DIE_COUNT : Z
}.

(** [struct AddressDecodeResult] *)
Record AddressDecodeResult : Type := mkDecode {
  home_die : Z; stack_id : Z; channel_id : Z; pseudo_channel_id : Z; local_address : Z
}.

Definition bad (s : string) : exn := runtime_error s.

(** ** [ValidateAddressPolicy] *)

Definition die_stacks (t : hbm_tables) (die : Z) : list HBMStackConfig :=
  base.filter (fun s => st_compute_die_id s = die) (g_hbm_stacks t).

(** The loop over the stacks of a home die: lane [lane] receives its share of
    the stripes, which its stack must hold. *)
Definition check_lane (p : AddressPolicyConfig) (stripes : Z) (stacks : list HBMStackConfig) (lane : Z)
    : result unit :=
  let n := Z.of_nat (length stacks) in
  let assigned_stripes := stripes / n + (if lane <? stripes mod n then 1 else 0) in
  let assigned := u64 (assigned_stripes * ap_stack_interleave_bytes p) in
  match stacks !! Z.to_nat lane with
  | Some s =>
      THROW bad "address_policy: equal stack interleave exceeds an individual stack capacity"
        WHEN st_capacity_bytes s <? assigned;; Ok tt
  | None => Ok tt
  end.
Definition check_lanes (p : AddressPolicyConfig) (stripes : Z) (stacks : list HBMStackConfig) : result unit :=
  foldM (fun _ => check_lane p stripes stacks) tt (seqZ 0 (Z.of_nat (length stacks))).

Definition check_home_range (t : hbm_tables) (p : AddressPolicyConfig) (seen_die : gset Z) (hr : HomeRange)
    : result (gset Z) :=
  THROW bad "address_policy: home range die_id out of range"
    WHEN (hr_die_id hr <? 0) || (DIE_COUNT t <=? hr_die_id hr);;
  THROW bad "address_policy: home range size_bytes must be > 0" WHEN hr_size_bytes hr =? 0;;
  THROW bad "address_policy: home range end overflows" WHEN UINT64_MAX - hr_size_bytes hr <? hr_base hr;;
  THROW bad "address_policy: home range base/size is not aligned"
    WHEN negb (hr_base hr mod ap_stack_interleave_bytes p =? 0)
      || negb (hr_size_bytes hr mod ap_stack_interleave_bytes p =? 0)
      || negb (hr_base hr mod ap_channel_interleave_bytes p =? 0)
      || negb (hr_size_bytes hr mod ap_channel_interleave_bytes p =? 0);;
  THROW bad "address_policy: duplicate home range die_id" WHEN bool_decide (hr_die_id hr ∈ seen_die);;
  let seen_die := {[hr_die_id hr]} ∪ seen_die in
  let stacks := die_stacks t (hr_die_id hr) in
  let stack_capacity_sum := foldl (fun acc s => u64 (acc + st_capacity_bytes s)) 0 stacks in
  THROW bad "address_policy: home range size_bytes exceeds attached stack capacity"
    WHEN stack_capacity_sum <? hr_size_bytes hr;;
  THROW bad "address_policy: home die has no attached HBM stack" WHEN bool_decide (stacks = []);;
  check_lanes p (hr_size_bytes hr / ap_stack_interleave_bytes p) stacks ≫= fun _ => Ok seen_die.

(** The scan of the ranges in base order. *)
Fixpoint check_sorted (allow_gaps : bool) (prev : HomeRange) (l : list HomeRange) : result unit :=
  match l with
  | [] => Ok tt
  | h :: l =>
      let prev_end := u64 (hr_base prev + hr_size_bytes prev) in
      THROW bad "address_policy: home ranges overlap" WHEN hr_base h <? prev_end;;
      THROW bad "address_policy: gap between home ranges not allowed"
        WHEN negb allow_gaps && (prev_end <? hr_base h);;
      check_sorted allow_gaps h l
  end.

Definition base_le (a b : HomeRange) : Prop := hr_base a <= hr_base b.
#[export] Instance base_le_dec a b : Decision (base_le a b).
Proof. unfold base_le; apply _. Defined.
#[export] Instance base_le_total : Total base_le.
Proof. intros a b; unfold base_le; lia. Qed.
#[export] Instance base_le_trans : Transitive base_le.
Proof. intros a b c; unfold base_le; lia. Qed.

Definition ValidateAddressPolicy (t : hbm_tables) (p : AddressPolicyConfig) : result unit :=
  if negb (ap_active p) then Ok tt else
  THROW bad "address_policy: stack_interleave_bytes must be > 0" WHEN ap_stack_interleave_bytes p =? 0;;
  THROW bad "address_policy: channel_interleave_bytes must be > 0" WHEN ap_channel_interleave_bytes p =? 0;;
  THROW bad "address_policy: pseudo_channel_interleave_bytes must be > 0"
    WHEN ap_pseudo_channel_interleave_bytes p =? 0;;
  match g_hbm_stacks t with
  | [] => Err (bad "address_policy: distributed_hbm requires at least one HBM stack")
  | s0 :: _ =>
      if bool_decide (ap_mode p = kGlobalInterleave) then
        THROW bad "address_policy: global_interleave requires equal exposed capacity"
          WHEN existsb (fun s => negb (st_capacity_bytes s =? st_capacity_bytes s0)) (g_hbm_stacks t);;
        Ok tt
      else
        THROW bad "address_policy: local/NUMA mode requires home_ranges"
          WHEN match ap_home_ranges p with [] => true | _ => false end;;
        foldM (check_home_range t p) ∅ (ap_home_ranges p) ≫= fun _ =>
        if bool_decide (ap_mode p = kLocalInterleave) then Ok tt else
        match merge_sort base_le (ap_home_ranges p) with
        | [] => Ok tt
        | h0 :: l =>
            THROW bad "address_policy: leading gap before first home range not allowed"
              WHEN negb (ap_allow_gaps p) && negb (hr_base h0 =? 0);;
            check_sorted (ap_allow_gaps p) h0 l
        end
  end.

(** ** [DecodeAddress] *)

(** [std::sort] then [std::unique] on ids. *)
Fixpoint unique (l : list Z) : list Z :=
  match l with
  | x :: (y :: _) as l' => if x =? y then unique l' else x :: unique l'
  | _ => l
  end.

Definition DieStackList (t : hbm_tables) (die : Z) : list Z :=
  unique (merge_sort Z.le (st_stack_id <$> die_stacks t die)).

Definition StackChannelList (t : hbm_tables) (stack : Z) : list Z :=
  merge_sort Z.le (ch_channel_id <$> base.filter (fun c => ch_stack_id c = stack) (g_hbm_channels t)).

Definition FindStack (t : hbm_tables) (stack : Z) : option HBMStackConfig :=
  List.find (fun s => st_stack_id s =? stack) (g_hbm_stacks t).

Definition FillPseudoChannel (t : hbm_tables) (p : AddressPolicyConfig) (r : AddressDecodeResult)
    : result AddressDecodeResult :=
  match FindStack t (stack_id r) with
  | None => Err (bad "DecodeAddress: selected stack not found")
  | Some stack =>
      match g_hbm_profiles t !! st_profile stack with
      | Some profile =>
          THROW bad "DecodeAddress: selected stack has invalid HBM profile"
            WHEN pseudo_channels_per_channel profile <=? 0;;
          let stripe := local_address r / ap_pseudo_channel_interleave_bytes p in
          Ok (mkDecode (home_die r) (stack_id r) (channel_id r)
                (stripe mod pseudo_channels_per_channel profile) (local_address r))
      | None => Err (bad "DecodeAddress: selected stack has invalid HBM profile")
      end
  end.

Definition Interleave (offset stripe_bytes n : Z) : Z * Z :=
  let stripe_index := offset / stripe_bytes in
  let intra := offset mod stripe_bytes in
  (stripe_index mod n, u64 (stripe_index / n * stripe_bytes + intra)).

(** From a stack list and an offset to the decoded place; the common tail of
    the two modes. *)
Definition place (t : hbm_tables) (p : AddressPolicyConfig) (stacks : list Z) (offset : Z)
    (home : Z -> Z) (no_channel : string) : result AddressDecodeResult :=
  let '(stack_idx, offset_in_stack) :=
    Interleave offset (ap_stack_interleave_bytes p) (Z.of_nat (length stacks)) in
  let stack := stacks !!! Z.to_nat stack_idx in
  let channels := StackChannelList t stack in
  THROW bad no_channel WHEN bool_decide (channels = []);;
  let '(channel_idx, local) :=
    Interleave offset_in_stack (ap_channel_interleave_bytes p) (Z.of_nat (length channels)) in
  FillPseudoChannel t p (mkDecode (home stack) stack (channels !!! Z.to_nat channel_idx) (-1) local).

Definition total_capacity (t : hbm_tables) : result Z :=
  foldM (fun total s =>
    THROW bad "DecodeAddress: aggregate HBM capacity overflows"
      WHEN UINT64_MAX - st_capacity_bytes s <? total;;
    Ok (u64 (total + st_capacity_bytes s))) 0 (g_hbm_stacks t).

Definition covers (p : AddressPolicyConfig) (current_die phys_addr : Z) (h : HomeRange) : bool :=
  (negb (bool_decide (ap_mode p = kLocalInterleave)) || (hr_die_id h =? current_die)) &&
  (hr_base h <=? phys_addr) && (phys_addr - hr_base h <? hr_size_bytes h).

Definition DecodeAddress (t : hbm_tables) (p : AddressPolicyConfig) (phys_addr current_die : Z)
    : result AddressDecodeResult :=
  THROW bad "DecodeAddress: address_policy not configured" WHEN negb (ap_active p);;
  THROW bad "DecodeAddress: address_policy interleave granularity is zero"
    WHEN (ap_stack_interleave_bytes p =? 0) || (ap_channel_interleave_bytes p =? 0);;
  if bool_decide (ap_mode p = kGlobalInterleave) then
    let stacks := unique (merge_sort Z.le (st_stack_id <$> g_hbm_stacks t)) in
    THROW bad "DecodeAddress: no HBM stack configured" WHEN bool_decide (stacks = []);;
    total ← total_capacity t;
    THROW bad "DecodeAddress: global address exceeds exposed HBM capacity" WHEN total <=? phys_addr;;
    place t p stacks phys_addr
      (fun stack => match FindStack t stack with Some s => st_compute_die_id s | None => -1 end)
      "DecodeAddress: selected stack has no HBM channel"
  else
    THROW bad "DecodeAddress: local_interleave requires a valid current_die"
      WHEN bool_decide (ap_mode p = kLocalInterleave) && ((current_die <? 0) || (DIE_COUNT t <=? current_die));;
    match List.find (covers p current_die phys_addr) (ap_home_ranges p) with
    | None => Err (bad "DecodeAddress: address not covered by any home range")
    | Some hr =>
        let stacks := DieStackList t (hr_die_id hr) in
        THROW bad "DecodeAddress: home die has no attached HBM stack" WHEN bool_decide (stacks = []);;
        place t p stacks (phys_addr - hr_base hr) (fun _ => hr_die_id hr)
          "DecodeAddress: stack has no attached channel"
    end.

(** ** Lemmas *)

Section interleave.
Context (stripe n : Z) (Hstripe : 0 < stripe) (Hn : 0 < n).

Lemma Interleave_spec offset : in_u 64 offset ->
  let r := Interleave offset stripe n in
  0 <= r.1 < n /\ 0 <= r.2 <= offset /\
  offset = (r.2 / stripe * n + r.1) * stripe + r.2 mod stripe.
Proof.
  intros Ho. unfold Interleave; cbn [fst snd].
  set (k := offset / stripe). set (i := offset mod stripe).
  assert (0 <= k) as Hk by (apply Z.div_pos; unfold in_u in *; lia).
  assert (0 <= i < stripe) as Hi by (apply Z.mod_pos_bound; lia).
  assert (offset = stripe * k + i) as Hoff by (apply Z.div_mod; lia).
  pose proof (Z.div_mod k n ltac:(lia)) as Hkn. pose proof (Z.mod_pos_bound k n Hn) as Hm.
  assert (0 <= k / n) as Hq by (apply Z.div_pos; lia).
  assert (k / n <= k) as Hqk by (apply Z.div_le_upper_bound; nia).
  assert (0 <= k / n * stripe + i <= offset) as Hb by nia.
  rewrite wrap_small by (unfold in_u in *; lia).
  split; [done|]. split; [done|].
  rewrite (Z.add_comm (k / n * stripe) i), Z.div_add, Z.mod_add by lia.
  rewrite (Z.div_small i), (Z.mod_small i) by lia. nia.
Qed.

Lemma Interleave_inj a b : in_u 64 a -> in_u 64 b -> Interleave a stripe n = Interleave b stripe n -> a = b.
Proof.
  intros Ha Hb H. pose proof (Interleave_spec a Ha) as (_ & _ & ->).
  pose proof (Interleave_spec b Hb) as (_ & _ & ->). by rewrite H.
Qed.

(** The share of a lane: the stripes the validator assigns to it. *)
Definition lane_stripes (stripes lane : Z) : Z := stripes / n + (if lane <? stripes mod n then 1 else 0).

Lemma Interleave_bound offset stripes : in_u 64 offset -> offset < stripes * stripe ->
  let r := Interleave offset stripe n in r.2 < lane_stripes stripes r.1 * stripe.
Proof.
  intros Ho Hlt. pose proof (Interleave_spec offset Ho) as (Hl & Hlo & Heq).
  set (r := Interleave offset stripe n) in *. cbn zeta.
  set (q := r.2 / stripe) in *. pose proof (Z.div_mod r.2 stripe ltac:(lia)) as Hd.
  pose proof (Z.mod_pos_bound r.2 stripe Hstripe) as Hm. fold q in Hd.
  assert (q * n + r.1 < stripes) as Hk by nia.
  pose proof (Z.div_mod stripes n ltac:(lia)) as Hs. pose proof (Z.mod_pos_bound stripes n Hn).
  assert (q + 1 <= lane_stripes stripes r.1); [|nia].
  unfold lane_stripes. destruct (Z.ltb_spec r.1 (stripes mod n)); nia.
Qed.
End interleave.

Lemma unique_elem l x : x ∈ unique l <-> x ∈ l.
Proof.
  induction l as [|y [|z l] IH]; [done|done|]. cbn -[unique].
  change (unique (y :: z :: l)) with (if y =? z then unique (z :: l) else y :: unique (z :: l)).
  destruct (Z.eqb_spec y z) as [->|Hne].
  - rewrite IH, !elem_of_cons. naive_solver.
  - rewrite elem_of_cons, IH. by rewrite (elem_of_cons (z :: l)).
Qed.

Lemma unique_sorted l : Sorted Z.le l -> StronglySorted Z.lt (unique l).
Proof.
  intros Hs. apply Sorted_StronglySorted in Hs; [|intros ???; lia].
  induction Hs as [|y l Hl IH Hy]; [constructor|]. destruct l as [|z l]; [repeat constructor|].
  change (unique (y :: z :: l)) with (if y =? z then unique (z :: l) else y :: unique (z :: l)).
  destruct (Z.eqb_spec y z) as [->|Hne]; [done|]. constructor; [done|].
  apply list.Forall_forall. intros x Hx. rewrite unique_elem in Hx.
  inversion Hy as [|?? Hyz Hyl]; subst. inversion Hl as [|?? _ Hzl]; subst.
  apply elem_of_cons in Hx as [->|Hx]; [lia|].
  rewrite list.Forall_forall in Hzl. specialize (Hzl x Hx). lia.
Qed.

Lemma unique_id l : StronglySorted Z.lt l -> unique l = l.
Proof.
  induction 1 as [|y l Hl IH Hy]; [done|]. destruct l as [|z l]; [done|].
  change (unique (y :: z :: l)) with (if y =? z then unique (z :: l) else y :: unique (z :: l)).
  inversion Hy; subst. rewrite (proj2 (Z.eqb_neq y z)) by lia. by rewrite IH.
Qed.

Lemma sorted_lt_NoDup l : StronglySorted Z.lt l -> NoDup l.
Proof.
  induction 1 as [|y l _ IH Hy]; constructor; [|done].
  intros Hx. rewrite list.Forall_forall in Hy. specialize (Hy y Hx). lia.
Qed.

Lemma sort_sorted (l : list Z) : Sorted Z.le (merge_sort Z.le l).
Proof. apply Sorted_merge_sort. intros x y; lia. Qed.

Lemma sort_id (l : list Z) : StronglySorted Z.lt l -> merge_sort Z.le l = l.
Proof.
  intros H. apply (Sorted_unique Z.le); [apply sort_sorted| |apply merge_sort_Permutation].
  apply StronglySorted_Sorted. clear -H. induction H as [|x l _ IH Hx]; constructor; [done|].
  eapply list.Forall_impl; [exact Hx|]. intros y; cbn; lia.
Qed.

Lemma DieStackList_NoDup t d : NoDup (DieStackList t d).
Proof. apply sorted_lt_NoDup, unique_sorted, sort_sorted. Qed.

Lemma DieStackList_elem t d x : x ∈ DieStackList t d <->
  exists s, s ∈ g_hbm_stacks t /\ st_stack_id s = x /\ st_compute_die_id s = d.
Proof.
  unfold DieStackList, die_stacks. rewrite unique_elem, merge_sort_Permutation, list_elem_of_fmap.
  setoid_rewrite list_elem_of_filter. naive_solver.
Qed.

(** Selecting from a duplicate-free list determines the index. *)
Lemma index_inj (l : list Z) i j : NoDup l -> 0 <= i < Z.of_nat (length l) -> 0 <= j < Z.of_nat (length l) ->
  l !!! Z.to_nat i = l !!! Z.to_nat j -> i = j.
Proof.
  intros Hnd Hi Hj H.
  destruct (lookup_lt_is_Some_2 l (Z.to_nat i) ltac:(lia)) as [x Hx].
  destruct (lookup_lt_is_Some_2 l (Z.to_nat j) ltac:(lia)) as [y Hy].
  rewrite (list_lookup_total_correct _ _ _ Hx), (list_lookup_total_correct _ _ _ Hy) in H. subst y.
  pose proof (NoDup_lookup _ _ _ _ Hnd Hx Hy). lia.
Qed.

Lemma elem_index (l : list Z) i : 0 <= i < Z.of_nat (length l) -> l !!! Z.to_nat i ∈ l.
Proof.
  intros Hi. destruct (lookup_lt_is_Some_2 l (Z.to_nat i) ltac:(lia)) as [x Hx].
  rewrite (list_lookup_total_correct _ _ _ Hx). by eapply list_elem_of_lookup_2.
Qed.

Definition tables_wf (t : hbm_tables) : Prop :=
  NoDup (st_stack_id <$> g_hbm_stacks t) /\
  NoDup ((fun c => (ch_stack_id c, ch_channel_id c)) <$> g_hbm_channels t).
#[export] Instance tables_wf_dec t : Decision (tables_wf t).
Proof. unfold tables_wf; apply _. Defined.

Lemma StackChannelList_NoDup t s : tables_wf t -> NoDup (StackChannelList t s).
Proof.
  intros [_ H]. unfold StackChannelList. rewrite merge_sort_Permutation.
  induction (g_hbm_channels t) as [|c l IH]; [apply list.NoDup_nil; done|].
  cbn in H. apply list.NoDup_cons in H as [Hc H]. rewrite filter_cons. case_decide as Hs; [|by apply IH].
  cbn. apply list.NoDup_cons. split; [|by apply IH].
  intros Hin. apply Hc. apply list_elem_of_fmap in Hin as (c' & Heq & Hin).
  apply list_elem_of_filter in Hin as [Hs' Hin]. apply list_elem_of_fmap. exists c'. split; [congruence|done].
Qed.

Lemma FindStack_unique t s s' : tables_wf t -> s ∈ g_hbm_stacks t -> s' ∈ g_hbm_stacks t ->
  st_stack_id s = st_stack_id s' -> s = s'.
Proof.
  intros [H _] Hs Hs' Heq. apply list_elem_of_lookup in Hs as [i Hi], Hs' as [j Hj].
  assert (i = j) as ->; [|congruence].
  eapply (NoDup_lookup _ _ _ (st_stack_id s) H); rewrite list_lookup_fmap; [by rewrite Hi|by rewrite Hj, Heq].
Qed.

Lemma FillPseudoChannel_ok t p r r' : FillPseudoChannel t p r = Ok r' ->
  home_die r' = home_die r /\ stack_id r' = stack_id r /\ channel_id r' = channel_id r /\
  local_address r' = local_address r.
Proof.
  unfold FillPseudoChannel. destruct (FindStack t (stack_id r)) as [s|]; [|done].
  destruct (g_hbm_profiles t !! st_profile s) as [pr|]; [|done]. intros H.
  apply throw_bind_ok in H as [_ H]. by simplify_eq.
Qed.

(** What a successful placement returns. *)
Lemma place_ok t p stacks offset home msg r :
  in_u 64 offset -> 0 < ap_stack_interleave_bytes p -> 0 < ap_channel_interleave_bytes p -> stacks <> [] ->
  place t p stacks offset home msg = Ok r ->
  let i := Interleave offset (ap_stack_interleave_bytes p) (Z.of_nat (length stacks)) in
  let channels := StackChannelList t (stack_id r) in
  let j := Interleave i.2 (ap_channel_interleave_bytes p) (Z.of_nat (length channels)) in
  stack_id r = stacks !!! Z.to_nat i.1 /\ 0 <= i.1 < Z.of_nat (length stacks) /\ in_u 64 i.2 /\
  channels <> [] /\ channel_id r = channels !!! Z.to_nat j.1 /\ 0 <= j.1 < Z.of_nat (length channels) /\
  local_address r = j.2 /\ local_address r <= i.2 /\ home_die r = home (stack_id r).
Proof.
  intros Ho Hs Hc Hne H. unfold place in H.
  assert (0 < Z.of_nat (length stacks)) as Hn by (destruct stacks; [done|cbn; lia]).
  pose proof (Interleave_spec _ _ Hs Hn offset Ho) as (Hi & Hio & _).
  destruct (Interleave offset (ap_stack_interleave_bytes p) (Z.of_nat (length stacks))) as [i o] eqn:Ei.
  cbn [fst snd] in *.
  apply throw_bind_ok in H as [Hch H]. apply bool_decide_eq_false in Hch.
  assert (0 < Z.of_nat (length (StackChannelList t (stacks !!! Z.to_nat i)))) as Hn'.
  { destruct (StackChannelList _ _); [done|cbn; lia]. }
  assert (in_u 64 o) as Ho' by (unfold in_u in *; lia).
  pose proof (Interleave_spec _ _ Hc Hn' o Ho') as (Hj & Hjo & _).
  destruct (Interleave o _ _) as [j l] eqn:Ej. cbn [fst snd] in *.
  apply FillPseudoChannel_ok in H as (H1 & H2 & H3 & H4). cbn in H1, H2, H3, H4.
  rewrite H2. rewrite Ej. cbn [fst snd]. split_and!; try done; lia.
Qed.

Lemma place_inj t p stacks o o' home msg r r' :
  tables_wf t -> NoDup stacks -> in_u 64 o -> in_u 64 o' ->
  0 < ap_stack_interleave_bytes p -> 0 < ap_channel_interleave_bytes p -> stacks <> [] ->
  place t p stacks o home msg = Ok r -> place t p stacks o' home msg = Ok r' ->
  stack_id r = stack_id r' -> channel_id r = channel_id r' -> local_address r = local_address r' -> o = o'.
Proof.
  intros Hwf Hnd Ho Ho' Hs Hc Hne H H' Es Ec El.
  pose proof (place_ok _ _ _ _ _ _ _ Ho Hs Hc Hne H) as (A1 & A2 & A3 & A4 & A5 & A6 & A7 & _).
  pose proof (place_ok _ _ _ _ _ _ _ Ho' Hs Hc Hne H') as (B1 & B2 & B3 & B4 & B5 & B6 & B7 & _).
  rewrite <- Es in B4, B5, B6, B7. set (channels := StackChannelList t (stack_id r)) in *.
  assert (0 < Z.of_nat (length channels)) as Hn' by (destruct channels; [done|cbn; lia]).
  assert (0 < Z.of_nat (length stacks)) as Hn by (destruct stacks; [done|cbn; lia]).
  apply (Interleave_inj (ap_stack_interleave_bytes p) (Z.of_nat (length stacks))); [done|done|done|done|].
  apply injective_projections.
  - apply (index_inj stacks); [done|done|done|congruence].
  - apply (Interleave_inj (ap_channel_interleave_bytes p) (Z.of_nat (length channels))); [done|done|done|done|].
    apply injective_projections; [|congruence].
    apply (index_inj channels); [by apply StackChannelList_NoDup|done|done|congruence].
Qed.

(** What the validator established about an accepted home range. *)
Record range_wf (t : hbm_tables) (p : AddressPolicyConfig) (hr : HomeRange) : Prop := {
  rw_die : 0 <= hr_die_id hr < DIE_COUNT t;
  rw_size : hr_size_bytes hr <> 0;
  rw_end : hr_base hr + hr_size_bytes hr <= UINT64_MAX;
  rw_aligned : hr_size_bytes hr mod ap_stack_interleave_bytes p = 0;
  rw_stacks : die_stacks t (hr_die_id hr) <> [];
  rw_lanes : check_lanes p (hr_size_bytes hr / ap_stack_interleave_bytes p) (die_stacks t (hr_die_id hr)) = Ok tt
}.

Lemma check_home_range_ok t p seen hr seen' : check_home_range t p seen hr = Ok seen' ->
  range_wf t p hr /\ hr_die_id hr ∉ seen /\ seen' = {[hr_die_id hr]} ∪ seen.
Proof.
  unfold check_home_range. intros H.
  do 5 (apply throw_bind_ok in H as [? H]). cbv zeta in H. do 2 (apply throw_bind_ok in H as [? H]).
  apply bind_ok in H as ([] & Hl & H). injection H as <-. split_guards.
  repeat match goal with H : bool_decide _ = false |- _ => apply bool_decide_eq_false in H end.
  split; [|done]. split; try done; lia.
Qed.

Lemma check_ranges_ok t p l seen : foldM (check_home_range t p) ∅ l = Ok seen ->
  Forall (range_wf t p) l /\ NoDup (hr_die_id <$> l).
Proof.
  intros H.
  enough (Forall (range_wf t p) l /\ NoDup (hr_die_id <$> l) /\ forall d, d ∈ hr_die_id <$> l -> d ∈ seen) as (? & ? & _) by done.
  revert H. apply (foldM_prefix_inv _ (fun l seen => Forall (range_wf t p) l /\ NoDup (hr_die_id <$> l) /\
    forall d, d ∈ hr_die_id <$> l -> d ∈ seen)).
  - intros pre hr post s s' _ (H1 & H2 & H3) H. apply check_home_range_ok in H as (Hw & Hn & ->).
    rewrite fmap_app. cbn. split; [apply list.Forall_app; split; [done|by constructor]|]. split.
    + apply list.NoDup_app. split; [done|]. split; [|by apply NoDup_singleton].
      intros d Hd ->%list_elem_of_singleton. by apply Hn, H3.
    + intros d [Hd|Hd]%elem_of_app; [apply elem_of_union_r; by apply H3|].
      apply list_elem_of_singleton in Hd as ->. apply elem_of_union_l. by apply elem_of_singleton.
  - split; [by constructor|]. split; [apply list.NoDup_nil; done|]. intros d Hd. by apply elem_of_nil in Hd.
Qed.

Lemma validate_ok t p : ValidateAddressPolicy t p = Ok tt -> ap_active p = true ->
  ap_stack_interleave_bytes p <> 0 /\ ap_channel_interleave_bytes p <> 0 /\
  ap_pseudo_channel_interleave_bytes p <> 0 /\
  (ap_mode p <> kGlobalInterleave ->
     Forall (range_wf t p) (ap_home_ranges p) /\ NoDup (hr_die_id <$> ap_home_ranges p)) /\
  (ap_mode p = kNumaLocalInterleave ->
     exists h0 l, merge_sort base_le (ap_home_ranges p) = h0 :: l /\ check_sorted (ap_allow_gaps p) h0 l = Ok tt).
Proof.
  intros H Ha. unfold ValidateAddressPolicy in H. rewrite Ha in H. cbn [negb] in H.
  do 3 (apply throw_bind_ok in H as [? H]). split_guards. split_and!; try done.
  - intros Hm. destruct (g_hbm_stacks t) as [|s0 ss]; [done|]. rewrite bool_decide_false in H by done.
    apply throw_bind_ok in H as [_ H]. apply bind_ok in H as (seen & H & _). by eapply check_ranges_ok.
  - intros Hm. destruct (g_hbm_stacks t) as [|s0 ss]; [done|]. rewrite Hm in H. cbn [bool_decide] in H.
    rewrite (bool_decide_false (kNumaLocalInterleave = kGlobalInterleave)) in H by done.
    apply throw_bind_ok in H as [Hne H]. apply bind_ok in H as (seen & _ & H).
    rewrite (bool_decide_false (kNumaLocalInterleave = kLocalInterleave)) in H by done.
    destruct (merge_sort base_le (ap_home_ranges p)) as [|h0 l] eqn:E.
    + pose proof (merge_sort_Permutation base_le (ap_home_ranges p)) as Hp. rewrite E in Hp.
      apply Permutation_nil_l in Hp. by rewrite <- Hp in Hne.
    + apply throw_bind_ok in H as [_ H]. by exists h0, l.
Qed.

Lemma check_sorted_disjoint gaps prev l : Forall (fun h => 0 <= hr_base h /\ 0 < hr_size_bytes h /\
    hr_base h + hr_size_bytes h <= UINT64_MAX) (prev :: l) ->
  check_sorted gaps prev l = Ok tt ->
  Forall (fun h => hr_base prev + hr_size_bytes prev <= hr_base h) l /\
  ForallOrdPairs (fun a b => hr_base a + hr_size_bytes a <= hr_base b) (prev :: l).
Proof.
  revert prev; induction l as [|h l IH]; intros prev Hf H; [repeat constructor|].
  inversion Hf as [|?? Hp Hf']; subst. cbn [check_sorted] in H.
  rewrite wrap_small in H by (unfold in_u; unfold UINT64_MAX in *; lia).
  apply throw_bind_ok in H as [H1 H]. apply throw_bind_ok in H as [_ H]. split_guards.
  destruct (IH h Hf' H) as [Ha Hb]. inversion Hf' as [|?? Hh _]; subst.
  assert (Forall (fun h0 => hr_base prev + hr_size_bytes prev <= hr_base h0) (h :: l)) as Hall.
  { constructor; [done|]. eapply list.Forall_impl; [exact Ha|]. cbn. lia. }
  split; [done|]. by constructor.
Qed.

(** Successful decoding, by cases on the mode. *)
Lemma DecodeAddress_ok t p a c r : DecodeAddress t p a c = Ok r ->
  ap_active p = true /\ ap_stack_interleave_bytes p <> 0 /\ ap_channel_interleave_bytes p <> 0 /\
  ((ap_mode p = kGlobalInterleave /\
    let stacks := unique (merge_sort Z.le (st_stack_id <$> g_hbm_stacks t)) in
    stacks <> [] /\
    place t p stacks a (fun stack => match FindStack t stack with Some s => st_compute_die_id s | None => -1 end)
      "DecodeAddress: selected stack has no HBM channel" = Ok r) \/
   (ap_mode p <> kGlobalInterleave /\ exists hr, hr ∈ ap_home_ranges p /\ covers p c a hr = true /\
    let stacks := DieStackList t (hr_die_id hr) in
    stacks <> [] /\
    place t p stacks (a - hr_base hr) (fun _ => hr_die_id hr) "DecodeAddress: stack has no attached channel" = Ok r)).
Proof.
  unfold DecodeAddress. intros H. apply throw_bind_ok in H as [Ha H]. apply throw_bind_ok in H as [Hz H].
  split_guards. split_and!; try done. case_bool_decide as Hm.
  - left. split; [done|]. apply throw_bind_ok in H as [Hne H]. apply bind_ok in H as (tot & _ & H).
    apply throw_bind_ok in H as [_ H]. by apply bool_decide_eq_false in Hne.
  - right. split; [done|]. apply throw_bind_ok in H as [_ H].
    destruct (List.find (covers p c a) (ap_home_ranges p)) as [hr|] eqn:Ef; [|done].
    apply find_some in Ef as [Hin Hcov]. apply throw_bind_ok in H as [Hne H].
    exists hr. rewrite list_elem_of_In. by apply bool_decide_eq_false in Hne.
Qed.

Lemma covers_offset p c a hr : covers p c a hr = true -> 0 <= a - hr_base hr < hr_size_bytes hr.
Proof. unfold covers. intros H. split_guards. lia. Qed.

Definition policy_typed (p : AddressPolicyConfig) : Prop :=
  in_u 64 (ap_stack_interleave_bytes p) /\ in_u 64 (ap_channel_interleave_bytes p) /\
  in_u 64 (ap_pseudo_channel_interleave_bytes p) /\
  Forall (fun h => in_u 64 (hr_base h) /\ in_u 64 (hr_size_bytes h)) (ap_home_ranges p).
#[export] Instance policy_typed_dec p : Decision (policy_typed p).
Proof. unfold policy_typed; apply _. Defined.

(** The home die of a decoded address is where its stack is attached. *)
Lemma decoded_stack_die t p a c r : tables_wf t -> policy_typed p -> ValidateAddressPolicy t p = Ok tt -> in_u 64 a ->
  ap_mode p <> kGlobalInterleave -> DecodeAddress t p a c = Ok r ->
  exists hr s, hr ∈ ap_home_ranges p /\ range_wf t p hr /\ covers p c a hr = true /\ home_die r = hr_die_id hr /\
    s ∈ g_hbm_stacks t /\ st_stack_id s = stack_id r /\ st_compute_die_id s = hr_die_id hr /\
    DieStackList t (hr_die_id hr) <> [] /\
    place t p (DieStackList t (hr_die_id hr)) (a - hr_base hr) (fun _ => hr_die_id hr)
      "DecodeAddress: stack has no attached channel" = Ok r.
Proof.
  intros Hwf Ht Hv Ha Hm H. apply DecodeAddress_ok in H as (Hact & Hs & Hc & [[? _]|(_ & hr & Hin & Hcov & Hne & Hp)]); [done|].
  pose proof (validate_ok t p Hv Hact) as (_ & _ & _ & Hr & _). destruct (Hr Hm) as [Hrw _].
  rewrite list.Forall_forall in Hrw. specialize (Hrw hr Hin).
  pose proof (covers_offset _ _ _ _ Hcov) as Hoff. pose proof (rw_end _ _ _ Hrw).
  destruct Ht as (T1 & T2 & _ & T4). rewrite list.Forall_forall in T4. specialize (T4 hr Hin) as [Tb Ts].
  assert (in_u 64 (a - hr_base hr)) as Ho by (unfold in_u in *; lia).
  assert (0 < ap_stack_interleave_bytes p) as Hs' by (unfold in_u in *; lia).
  assert (0 < ap_channel_interleave_bytes p) as Hc' by (unfold in_u in *; lia).
  pose proof (place_ok _ _ _ _ _ _ _ Ho Hs' Hc' Hne Hp)
    as (E1 & E2 & _ & _ & _ & _ & _ & _ & E3).
  pose proof (elem_index (DieStackList t (hr_die_id hr)) _ E2) as He. rewrite <- E1 in He.
  apply DieStackList_elem in He as (s & Hs1 & Hs2 & Hs3). by exists hr, s.
Qed.

Lemma decode_injective_local t p a a' c c' r r' : tables_wf t -> policy_typed p -> ValidateAddressPolicy t p = Ok tt ->
  in_u 64 a -> in_u 64 a' -> ap_mode p <> kGlobalInterleave ->
  DecodeAddress t p a c = Ok r -> DecodeAddress t p a' c' = Ok r' ->
  stack_id r = stack_id r' -> channel_id r = channel_id r' -> local_address r = local_address r' -> a = a'.
Proof.
  intros Hwf Ht Hv Ha Ha' Hm H H' Es Ec El.
  assert (ap_active p = true) as Hact by (by apply DecodeAddress_ok in H as [? _]).
  pose proof (validate_ok t p Hv Hact) as (Hs & Hc & _ & Hr & _). destruct (Hr Hm) as [_ Hnd].
  destruct (decoded_stack_die t p a c r) as (h & s & Hin & Hw & Hcov & _ & Hsi & Hsid & Hsd & Hne & Hp); try done.
  destruct (decoded_stack_die t p a' c' r') as (h' & s' & Hin' & Hw' & Hcov' & _ & Hsi' & Hsid' & Hsd' & _ & Hp'); try done.
  assert (s = s') as -> by (apply (FindStack_unique t); congruence || done).
  assert (h = h') as <-.
  { apply list_elem_of_lookup in Hin as [i Hi], Hin' as [j Hj]. assert (i = j) as ->; [|congruence].
    eapply (NoDup_lookup _ _ _ (hr_die_id h) Hnd); rewrite list_lookup_fmap; [by rewrite Hi|rewrite Hj; cbn; congruence]. }
  apply covers_offset in Hcov, Hcov'. pose proof (rw_end _ _ _ Hw).
  destruct Ht as (T1 & T2 & _ & T4). rewrite list.Forall_forall in T4. specialize (T4 h Hin) as [Tb Ts].
  enough (a - hr_base h = a' - hr_base h) by lia.
  apply (place_inj t p (DieStackList t (hr_die_id h)) _ _ (fun _ => hr_die_id h)
    "DecodeAddress: stack has no attached channel" r r');
    try done; try apply DieStackList_NoDup; unfold in_u in *; lia.
Qed.

Lemma decode_injective_global t p a a' c c' r r' : tables_wf t -> policy_typed p ->
  in_u 64 a -> in_u 64 a' -> ap_mode p = kGlobalInterleave ->
  DecodeAddress t p a c = Ok r -> DecodeAddress t p a' c' = Ok r' ->
  stack_id r = stack_id r' -> channel_id r = channel_id r' -> local_address r = local_address r' -> a = a'.
Proof.
  intros Hwf Ht Ha Ha' Hm H H' Es Ec El.
  apply DecodeAddress_ok in H as (_ & Hs & Hc & [(_ & Hne & H)|[? _]]); [|done].
  apply DecodeAddress_ok in H' as (_ & _ & _ & [(_ & _ & H')|[? _]]); [|done].
  destruct Ht as (T1 & T2 & _). eapply (place_inj t p _ _ _ _ _ r r'); try done.
  - apply sorted_lt_NoDup, unique_sorted, sort_sorted.
  - unfold in_u in *; lia.
  - unfold in_u in *; lia.
Qed.

Lemma check_lanes_spec p stripes stacks : check_lanes p stripes stacks = Ok tt ->
  forall lane s, stacks !! Z.to_nat lane = Some s -> 0 <= lane ->
  u64 (lane_stripes (Z.of_nat (length stacks)) stripes lane * ap_stack_interleave_bytes p) <= st_capacity_bytes s.
Proof.
  intros H lane s Hs Hl. apply lookup_lt_Some in Hs as Hlt. unfold check_lanes in H.
  assert (is_ok (foldM (fun _ => check_lane p stripes stacks) tt (seqZ 0 (Z.of_nat (length stacks)))) = true)
    as Hok by (by rewrite H).
  rewrite (foldM_is_ok _ (fun lane => forall s, stacks !! Z.to_nat lane = Some s ->
    u64 (lane_stripes (Z.of_nat (length stacks)) stripes lane * ap_stack_interleave_bytes p) <= st_capacity_bytes s)) in Hok.
  - apply (Hok lane); [|done]. apply elem_of_seqZ. lia.
  - intros _ x _. unfold check_lane. cbv zeta. fold (lane_stripes (Z.of_nat (length stacks)) stripes x).
    destruct (stacks !! Z.to_nat x) as [s'|]; [|split; naive_solver].
    destruct (Z.ltb_spec (st_capacity_bytes s') (u64 (lane_stripes (Z.of_nat (length stacks)) stripes x * ap_stack_interleave_bytes p)));
      cbn; split; try done.
    + intros Hall. specialize (Hall _ eq_refl). lia.
    + intros _ s2 [= <-]. done.
Qed.

(** Stacks of a die declared in increasing order of id. *)
Definition stacks_in_order (t : hbm_tables) : Prop :=
  forall die, StronglySorted Z.lt (st_stack_id <$> die_stacks t die).

Lemma stacks_in_order_all t : StronglySorted Z.lt (st_stack_id <$> g_hbm_stacks t) -> stacks_in_order t.
Proof.
  intros H die. unfold die_stacks. induction (g_hbm_stacks t) as [|s l IH]; [constructor|].
  cbn in H. inversion H as [|?? Hl Hs]; subst. rewrite filter_cons. case_decide; [|by apply IH].
  cbn. constructor; [by apply IH|]. apply list.Forall_forall. intros x (s' & -> & Hx)%list_elem_of_fmap.
  apply list_elem_of_filter in Hx as [_ Hx]. rewrite list.Forall_forall in Hs. apply Hs.
  apply list_elem_of_fmap. by exists s'.
Qed.

Lemma decode_capacity t p a c r : tables_wf t -> stacks_in_order t -> policy_typed p ->
  ValidateAddressPolicy t p = Ok tt -> in_u 64 a -> ap_mode p <> kGlobalInterleave ->
  DecodeAddress t p a c = Ok r ->
  exists s, s ∈ g_hbm_stacks t /\ st_stack_id s = stack_id r /\ st_compute_die_id s = home_die r /\
    local_address r < st_capacity_bytes s.
Proof.
  intros Hwf Hord Ht Hv Ha Hm H.
  destruct (decoded_stack_die t p a c r) as (h & s & Hin & Hw & Hcov & Hdie & Hsi & Hsid & Hsd & Hne & Hp); try done.
  exists s. split; [done|]. split; [done|]. split; [congruence|].
  assert (ap_active p = true) as Hact by (by apply DecodeAddress_ok in H as [? _]).
  pose proof (validate_ok t p Hv Hact) as (Hs0 & Hc0 & _).
  apply covers_offset in Hcov as Hoff. pose proof (rw_end _ _ _ Hw).
  destruct Ht as (T1 & T2 & _ & T4). rewrite list.Forall_forall in T4. specialize (T4 h Hin) as [Tb Ts].
  set (die := hr_die_id h) in *. set (sb := ap_stack_interleave_bytes p) in *.
  assert (DieStackList t die = st_stack_id <$> die_stacks t die) as HL.
  { unfold DieStackList. rewrite sort_id by apply Hord. by rewrite unique_id by apply Hord. }
  assert (0 < sb) as Hs' by (unfold in_u in *; lia).
  assert (0 < ap_channel_interleave_bytes p) as Hc' by (unfold in_u in *; lia).
  assert (in_u 64 (a - hr_base h)) as Ho by (unfold in_u in *; lia).
  pose proof (place_ok _ _ _ _ _ _ _ Ho Hs' Hc' Hne Hp) as (E1 & E2 & _ & _ & _ & _ & _ & E8 & _).
  fold sb in E1, E2, E8. set (i := Interleave (a - hr_base h) sb (Z.of_nat (length (DieStackList t die)))) in *.
  assert (0 < Z.of_nat (length (DieStackList t die))) as Hn by lia.
  set (stripes := hr_size_bytes h / sb).
  assert (hr_size_bytes h = stripes * sb) as Hsize.
  { pose proof (Z.div_mod (hr_size_bytes h) sb ltac:(lia)) as Hd. pose proof (rw_aligned _ _ _ Hw) as Hal. fold sb in Hal. rewrite Hal in Hd. unfold stripes. lia. }
  pose proof (Interleave_bound sb _ Hs' Hn (a - hr_base h) stripes Ho ltac:(lia)) as Hb. cbv zeta in Hb. fold i in Hb.
  rewrite HL, length_fmap in E2, Hn, Hb.
  destruct (lookup_lt_is_Some_2 (die_stacks t die) (Z.to_nat i.1)) as [s' Hs2]; [lia|].
  assert (s' = s) as ->.
  { apply (FindStack_unique t); [done| |done|].
    - apply list_elem_of_lookup_2 in Hs2. by apply list_elem_of_filter in Hs2 as [_ ?].
    - rewrite Hsid, E1, HL. symmetry. apply list_lookup_total_correct. by rewrite list_lookup_fmap, Hs2. }
  pose proof (check_lanes_spec _ _ _ (rw_lanes _ _ _ Hw) i.1 s Hs2 ltac:(lia)) as Hcap. fold die sb stripes in Hcap.
  assert (0 <= lane_stripes (Z.of_nat (length (die_stacks t die))) stripes i.1 <= stripes) as Hls.
  { unfold lane_stripes. set (n := Z.of_nat (length (die_stacks t die))) in *.
    assert (0 <= stripes) as Hst by (apply Z.div_pos; unfold in_u in *; lia).
    assert (n <> 0) as Hn0 by lia. pose proof (Z.div_mod stripes n Hn0). pose proof (Z.mod_pos_bound stripes n Hn).
    pose proof (Z.div_pos stripes n Hst Hn). destruct (Z.ltb_spec i.1 (stripes mod n)); nia. }
  rewrite wrap_small in Hcap; [lia|]. unfold in_u in *. split; [nia|]. nia.
Qed.

(** ** Properties *)

(** C34: no two physical addresses alias.  With unique stack and channel ids and
    an accepted policy, in any mode, two addresses that decode to the same
    stack, channel and local address are the same address; so the interleaved
    map is one-to-one, whichever die asks. *)
Theorem decode_injective (t : hbm_tables) (p : AddressPolicyConfig) (a a' c c' : Z) (r r' : AddressDecodeResult) :
  tables_wf t -> policy_typed p -> ValidateAddressPolicy t p = Ok tt -> in_u 64 a -> in_u 64 a' ->
  DecodeAddress t p a c = Ok r -> DecodeAddress t p a' c' = Ok r' ->
  stack_id r = stack_id r' -> channel_id r = channel_id r' -> local_address r = local_address r' -> a = a'.
Proof.
  intros Hwf Ht Hv Ha Ha' H H'. destruct (decide (ap_mode p = kGlobalInterleave)) as [Hm|Hm].
  - by apply (decode_injective_global t p a a' c c' r r').
  - by apply (decode_injective_local t p a a' c c' r r').
Qed.

(** Two dies, each with two stacks of two channels. *)
Definition ex_stack (id die : Z) : HBMStackConfig := mkStack id die "hbm3" 0 0 2 4096 kChannel 1.
Definition ex_tables (order : list (Z * Z)) : hbm_tables :=
  mkTables ((fun x => ex_stack x.1 x.2) <$> order)
    (order ≫= fun x => [mkChannel x.1 0 0; mkChannel x.1 1 1]) {[ "hbm3"%string := mkProfile 2 2 ]} 2.
Definition ex_policy (m : AddressPolicyMode) : AddressPolicyConfig :=
  mkAddressPolicy true m [mkHomeRange 1 8192 8192; mkHomeRange 0 0 8192] 256 128 64 false.

Definition ex_numa : hbm_tables := ex_tables [(0, 0); (1, 0); (2, 1); (3, 1)].

Lemma decode_injective_witness :
  exists r, DecodeAddress ex_numa (ex_policy kNumaLocalInterleave) 9001 (-1) = Ok r /\
  forall a, in_u 64 a -> DecodeAddress ex_numa (ex_policy kNumaLocalInterleave) a 0 = Ok r -> 9001 = a.
Proof.
  destruct (DecodeAddress ex_numa (ex_policy kNumaLocalInterleave) 9001 (-1)) as [r|] eqn:H; [|by vm_compute in H].
  exists r. split; [done|]. intros a Ha H'.
  apply (decode_injective ex_numa (ex_policy kNumaLocalInterleave) 9001 a (-1) 0 r r);
    try done; apply (bool_decide_unpack _); by vm_compute.
Defined.

(** Decoded addresses stay inside their stack, when the stacks of a die are
    listed in increasing order of id.  Under an accepted NUMA or local policy,
    an address that decodes selects an existing stack attached to the home
    die, and its local address is below that stack's exposed capacity. *)
Theorem decode_within_capacity (t : hbm_tables) (p : AddressPolicyConfig) (a c : Z) (r : AddressDecodeResult) :
  tables_wf t -> stacks_in_order t -> policy_typed p -> ValidateAddressPolicy t p = Ok tt -> in_u 64 a ->
  ap_mode p <> kGlobalInterleave -> DecodeAddress t p a c = Ok r ->
  exists s, s ∈ g_hbm_stacks t /\ st_stack_id s = stack_id r /\ st_compute_die_id s = home_die r /\
    local_address r < st_capacity_bytes s.
Proof. apply decode_capacity. Qed.

(** the capacity check and the decoder number the stacks of a die
    differently.  The validator checks the stripes of interleave lane [i]
    against the [i]-th stack in declaration order, the decoder sends lane [i]
    to the [i]-th stack in order of id.  With ids declared out of order and
    unequal capacities there is an accepted policy under which a covered
    address decodes to a local address beyond the selected stack's capacity. *)
Theorem decode_capacity_needs_order :
  exists (t : hbm_tables) (p : AddressPolicyConfig) (a : Z) (r : AddressDecodeResult),
    tables_wf t /\ policy_typed p /\ ValidateAddressPolicy t p = Ok tt /\
    DecodeAddress t p a (-1) = Ok r /\
    exists s, s ∈ g_hbm_stacks t /\ st_stack_id s = stack_id r /\ st_capacity_bytes s <= local_address r.
Proof.
  exists (mkTables [mkStack 1 0 "hbm3" 0 0 2 512 kChannel 1; mkStack 0 0 "hbm3" 0 0 2 256 kChannel 1]
    [mkChannel 1 0 0; mkChannel 0 0 0] {[ "hbm3"%string := mkProfile 1 1 ]} 1),
    (mkAddressPolicy true kNumaLocalInterleave [mkHomeRange 0 0 768] 256 256 256 false), 700.
  eexists. split; [apply (bool_decide_unpack _); by vm_compute|].
  split; [apply (bool_decide_unpack _); by vm_compute|]. split; [by vm_compute|]. split; [vm_compute; reflexivity|].
  eexists. split; [right; left|]. split; [done|]. cbn. lia.
Qed.

(** Every stack has a channel and a usable profile. *)
Definition tables_usable (t : hbm_tables) : Prop :=
  Forall (fun s => StackChannelList t (st_stack_id s) <> [] /\
    match g_hbm_profiles t !! st_profile s with
    | Some pr => 0 < pseudo_channels_per_channel pr | None => False end) (g_hbm_stacks t).

Lemma FindStack_some t s : s ∈ g_hbm_stacks t ->
  exists s', FindStack t (st_stack_id s) = Some s' /\ s' ∈ g_hbm_stacks t.
Proof.
  intros Hs. unfold FindStack. destruct (List.find _ (g_hbm_stacks t)) as [s'|] eqn:E.
  - apply find_some in E as [E _]. exists s'. by rewrite list_elem_of_In.
  - exfalso. apply list_elem_of_In in Hs. pose proof (find_none _ _ E s Hs) as H. cbn in H.
    by rewrite Z.eqb_refl in H.
Qed.

Lemma place_total t p stacks offset home msg : tables_usable t -> in_u 64 offset ->
  0 < ap_stack_interleave_bytes p -> 0 < ap_channel_interleave_bytes p -> stacks <> [] ->
  (forall x, x ∈ stacks -> exists s, s ∈ g_hbm_stacks t /\ st_stack_id s = x) ->
  exists r, place t p stacks offset home msg = Ok r.
Proof.
  intros Hu Ho Hs Hc Hne Hst. unfold place.
  assert (0 < Z.of_nat (length stacks)) as Hn by (destruct stacks; [done|cbn; lia]).
  pose proof (Interleave_spec _ _ Hs Hn offset Ho) as (Hi & Hio & _).
  destruct (Interleave offset (ap_stack_interleave_bytes p) (Z.of_nat (length stacks))) as [i o]. cbn [fst snd] in *.
  destruct (Hst _ (elem_index stacks i Hi)) as (s & Hin & Hid). rewrite <- Hid.
  unfold tables_usable in Hu. rewrite list.Forall_forall in Hu.
  rewrite throw_bind_false by (apply bool_decide_eq_false; by apply (Hu s Hin)).
  destruct (Interleave o _ _) as [j l].
  unfold FillPseudoChannel; cbn [stack_id local_address home_die channel_id].
  destruct (FindStack_some t s Hin) as (s' & -> & Hin'). destruct (Hu s' Hin') as [_ Hp].
  destruct (g_hbm_profiles t !! st_profile s') as [pr|]; [|done].
  rewrite throw_bind_false by (apply Z.leb_gt; lia). by eexists.
Qed.

(** NUMA decoding is total, unambiguous and independent of the requester.
    Under an accepted NUMA policy whose stacks have channels and profiles, an
    address inside some home range decodes, to that range's die; no other
    range contains it; and the result does not depend on the requesting die. *)
Theorem numa_decode_total (t : hbm_tables) (p : AddressPolicyConfig) (a : Z) (h : HomeRange) :
  policy_typed p -> tables_usable t -> ap_active p = true -> ap_mode p = kNumaLocalInterleave ->
  ValidateAddressPolicy t p = Ok tt -> h ∈ ap_home_ranges p -> hr_base h <= a < hr_base h + hr_size_bytes h ->
  exists r, home_die r = hr_die_id h /\ (forall c, DecodeAddress t p a c = Ok r) /\
    (forall h', h' ∈ ap_home_ranges p -> hr_base h' <= a < hr_base h' + hr_size_bytes h' -> h' = h).
Proof.
  intros Ht Hu Hact Hm Hv Hin Hrange.
  pose proof (validate_ok t p Hv Hact) as (Hs & Hc & _ & Hr & Hsort).
  destruct (Hr ltac:(by rewrite Hm)) as [Hrw _]. rewrite list.Forall_forall in Hrw.
  destruct Ht as (T1 & T2 & _ & T4). rewrite list.Forall_forall in T4.
  assert (forall h', h' ∈ ap_home_ranges p -> hr_base h' <= a < hr_base h' + hr_size_bytes h' -> h' = h) as Huniq.
  { intros h' Hin' Hrange'. destruct (Hsort Hm) as (h0 & l & Es & Hck).
    assert (forall x, x ∈ h0 :: l <-> x ∈ ap_home_ranges p) as Hperm by (intros x; rewrite <- Es; by rewrite merge_sort_Permutation).
    apply check_sorted_disjoint in Hck as [_ Hdis].
    - destruct (ForallOrdPairs_In Hdis h' h) as [?|[?|?]]; [apply list_elem_of_In; by apply Hperm..|done| |]; lia.
    - apply list.Forall_forall. intros x Hx. apply Hperm in Hx. destruct (Hrw x Hx) as [_ ? ? _ _ _].
      destruct (T4 x Hx). unfold in_u in *. lia. }
  assert (List.find (covers p (-1) a) (ap_home_ranges p) = Some h) as Hfind.
  { destruct (List.find _ _) as [h'|] eqn:E.
    - apply find_some in E as [E1 E2]. f_equal. apply Huniq; [by apply list_elem_of_In|].
      apply covers_offset in E2. lia.
    - apply list_elem_of_In in Hin. pose proof (find_none _ _ E h Hin) as Hn. unfold covers in Hn.
      rewrite Hm in Hn. cbn in Hn. destruct (Z.leb_spec (hr_base h) a), (Z.ltb_spec (a - hr_base h) (hr_size_bytes h)); try lia; done. }
  pose proof (Hrw h Hin) as [_ Hsz Hend _ Hst _]. destruct (T4 h Hin) as [Tb Ts].
  assert (DieStackList t (hr_die_id h) <> []) as Hne.
  { destruct (die_stacks t (hr_die_id h)) as [|s ss] eqn:E; [done|].
    assert (s ∈ die_stacks t (hr_die_id h)) as Hs0 by (rewrite E; left).
    apply list_elem_of_filter in Hs0 as [Hd Hs0]. intros Hnil.
    assert (st_stack_id s ∈ DieStackList t (hr_die_id h)) as Hx by (apply DieStackList_elem; by exists s).
    rewrite Hnil in Hx. by apply elem_of_nil in Hx. }
  destruct (place_total t p (DieStackList t (hr_die_id h)) (a - hr_base h) (fun _ => hr_die_id h)
    "DecodeAddress: stack has no attached channel" Hu) as [r Hp]; try (unfold in_u in *; lia); [done| |].
  { intros x Hx. apply DieStackList_elem in Hx as (s & ? & ? & _). by exists s. }
  exists r. split; [|split; [|done]].
  - eapply place_ok in Hp as (_ & _ & _ & _ & _ & _ & _ & _ & Hd); try (unfold in_u in *; lia); done.
  - intros c. unfold DecodeAddress. rewrite Hact. cbn [negb].
    rewrite throw_bind_false by done.
    rewrite throw_bind_false by (apply orb_false_iff; split; by apply Z.eqb_neq).
    rewrite Hm, (bool_decide_false (kNumaLocalInterleave = kGlobalInterleave)) by done.
    rewrite (bool_decide_false (kNumaLocalInterleave = kLocalInterleave)) by done. cbn [andb].
    rewrite throw_bind_false by done.
    assert (List.find (covers p c a) (ap_home_ranges p) = List.find (covers p (-1) a) (ap_home_ranges p)) as ->.
    { clear -Hm. induction (ap_home_ranges p) as [|x l IH]; [done|]. cbn. unfold covers at 1 3. by rewrite Hm, IH. }
    rewrite Hfind. rewrite throw_bind_false by (by apply bool_decide_eq_false). done.
Qed.
