(* ===== verification/MsgWire.v ===== *)
(** The 256-bit network flit of an ordinary message ([include/common/msg.h],
    [SerializeMsg] and [DeserializeMsg] of [src/utils/msg_utils.cpp]), the
    packet counts of a SEND primitive ([CalculatePacketNum]) and the payload
    sizes the DMA engine derives from them ([include/dte/dte_payload.h],
    [include/dte/dte_streaming.h]). *)

From S2P Require Import Prelude Bits CollTypes CollCodec.

(** ** Messages *)

(** [enum MSG_TYPE] *)
Inductive MSG_TYPE : Type := CONFIG | DATA | REQUEST | ACK | DONE | S_DATA | P_DATA | MSG_TYPE_NUM.
#[export] Instance MSG_TYPE_eq_dec : EqDecision MSG_TYPE.
Proof. solve_decision. Defined.

Definition MSG_TYPE_code (t : MSG_TYPE) : Z :=
  match t with CONFIG => 0 | DATA => 1 | REQUEST => 2 | ACK => 3 | DONE => 4 | S_DATA => 5
  | P_DATA => 6 | MSG_TYPE_NUM => 7 end.

(** The cast from an integer: the enumeration has no fixed underlying type,
    so only the values of a three-bit field are values of the type. *)
Definition MSG_TYPE_cast (z : Z) : option MSG_TYPE :=
  [CONFIG; DATA; REQUEST; ACK; DONE; S_DATA; P_DATA; MSG_TYPE_NUM] !! Z.to_nat z.

(** [class Msg] *)
Record Msg : Type := mkMsg {
  is_end_ : bool;
  msg_type_ : MSG_TYPE;
  seq_id_ : Z; (* int *)
  des_ : Z; (* int *)
  offset_ : Z; (* int *)
  tag_id_ : Z; (* int *)
  source_ : Z; (* int *)
  length_ : Z; (* int *)
  refill_ : bool;
  config_end_ : bool;
  roofline_packets_ : Z; (* int *)
  flow_packets_ : Z; (* int *)
  dte_payload_bits_ : Z; (* uint64_t *)
  dte_stream_source_first_ns_ : Z; (* uint64_t *)
  dte_stream_source_done_ns_ : Z; (* uint64_t *)
  dte_stream_network_tail_cycles_ : Z; (* uint32_t *)
  subflow_ : Z; (* int *)
  exit_port_ : Z; (* int *)
  data_ : Z (* sc_bv<128> *)
}.

(** [Msg::Msg()] *)
Definition Msg_default : Msg :=
  mkMsg false CONFIG (-1) (-1) 0 (-1) (-1) 0 false false 0 0 0 0 0 0 0 (-1) 1.

(** [Msg::IsControlMsg] *)
Definition IsControlMsg (m : Msg) : bool :=
  bool_decide (msg_type_ m = ACK) || bool_decide (msg_type_ m = REQUEST) || bool_decide (msg_type_ m = DONE).

Definition IsBlockableMsgType (t : MSG_TYPE) : bool :=
  match t with DATA => true | _ => false end.

(** The fields of C++ type [int] and the unsigned ones stay in range. *)
Definition in_int (x : Z) : Prop := INT_MIN <= x <= INT_MAX.
#[export] Instance in_int_dec x : Decision (in_int x).
Proof. unfold in_int; apply _. Defined.

Definition msg_typed (m : Msg) : Prop :=
  in_int (subflow_ m) /\ in_int (exit_port_ m) /\ exit_port_ m < INT_MAX /\
  in_u 64 (dte_payload_bits_ m) /\ in_u 64 (dte_stream_source_first_ns_ m) /\
  in_u 64 (dte_stream_source_done_ns_ m) /\ in_u 32 (dte_stream_network_tail_cycles_ m) /\
  in_u 128 (data_ m).
#[export] Instance msg_typed_dec m : Decision (msg_typed m).
Proof. unfold msg_typed; apply _. Defined.

(** ** Wire layout ([include/macros/macros.h]) *)

Definition M_D_IS_END : Z := 1.
Definition M_D_MSG_TYPE : Z := 4.
Definition M_D_SEQ_ID : Z := 16.
Definition M_D_DES : Z := 16.
Definition M_D_OFFSET : Z := 8.
Definition M_D_TAG_ID : Z := 16.
Definition M_D_SOURCE : Z := 16.
Definition M_D_LENGTH : Z := 8.
Definition M_D_REFILL : Z := 1.
Definition M_D_ROOFLINE : Z := 24.
Definition M_D_FLOW_PACKETS : Z := M_D_ROOFLINE.
Definition M_D_FLOW_PACKETS_MAX : Z := Z.shiftl 1 M_D_FLOW_PACKETS - 1.
Definition M_D_CONF_END : Z := 1.
Definition M_D_DATA : Z := 128.
Definition M_D_EXIT_PORT : Z := 16.

(** The running [pos] before each field. *)
Definition P_IS_END : Z := 0.
Definition P_MSG_TYPE : Z := P_IS_END + M_D_IS_END.
Definition P_SEQ_ID : Z := P_MSG_TYPE + M_D_MSG_TYPE.
Definition P_DES : Z := P_SEQ_ID + M_D_SEQ_ID.
Definition P_OFFSET : Z := P_DES + M_D_DES.
Definition P_TAG_ID : Z := P_OFFSET + M_D_OFFSET.
Definition P_SOURCE : Z := P_TAG_ID + M_D_TAG_ID.
Definition P_LENGTH : Z := P_SOURCE + M_D_SOURCE.
Definition P_REFILL : Z := P_LENGTH + M_D_LENGTH.
Definition P_ROOFLINE : Z := P_REFILL + M_D_REFILL.
Definition P_CONF_END : Z := P_ROOFLINE + M_D_ROOFLINE.
Definition P_DATA_ : Z := P_CONF_END + M_D_CONF_END.
Definition P_EXIT_PORT : Z := P_DATA_ + M_D_DATA.
Definition P_PAD : Z := P_EXIT_PORT + M_D_EXIT_PORT.

Definition put_field (w pos width v : Z) : Z := put w (pos + width - 1) pos v.
Definition get_field (w pos width : Z) : Z := get w (pos + width - 1) pos.

(** ** Encoder and decoder *)

Definition is_flow (t : MSG_TYPE) : bool :=
  bool_decide (t = REQUEST) || bool_decide (t = ACK) || bool_decide (t = DATA).

Definition has_stream (m : Msg) : bool :=
  negb (dte_stream_source_first_ns_ m =? 0) || negb (dte_stream_source_done_ns_ m =? 0) ||
  negb (dte_stream_network_tail_cycles_ m =? 0).

Definition wire_data (m : Msg) : result Z :=
  let wd := data_ m in
  let wd := if bool_decide (msg_type_ m = REQUEST) then put wd 127 64 (dte_payload_bits_ m) else wd in
  if bool_decide (msg_type_ m = DATA) && has_stream m then
    let kMaxStreamingNanosecond := Z.shiftl 1 48 - 1 in
    THROW runtime_error "DTE V2b streaming nanosecond timestamp exceeds 48-bit wire capacity"
      WHEN (kMaxStreamingNanosecond <? dte_stream_source_first_ns_ m)
           || (kMaxStreamingNanosecond <? dte_stream_source_done_ns_ m);;
    let wd := put wd 47 0 (dte_stream_source_first_ns_ m) in
    let wd := put wd 95 48 (dte_stream_source_done_ns_ m) in
    Ok (put wd 127 96 (dte_stream_network_tail_cycles_ m))
  else Ok wd.

(** The two's complement bits of an [int] are read by [put]. *)
Definition SerializeMsg (m : Msg) : result Z :=
  let w := put_field 0 P_IS_END M_D_IS_END (b2z (is_end_ m)) in
  let w := put_field w P_MSG_TYPE M_D_MSG_TYPE (MSG_TYPE_code (msg_type_ m)) in
  let w := put_field w P_SEQ_ID M_D_SEQ_ID (seq_id_ m) in
  let w := put_field w P_DES M_D_DES (des_ m) in
  let w := put_field w P_OFFSET M_D_OFFSET (offset_ m) in
  let w := put_field w P_TAG_ID M_D_TAG_ID (tag_id_ m) in
  let w := put_field w P_SOURCE M_D_SOURCE (source_ m) in
  let w := put_field w P_LENGTH M_D_LENGTH (length_ m) in
  let flow_msg := is_flow (msg_type_ m) in
  THROW runtime_error "V5 subflow exceeds 2-bit wire capacity"
    WHEN flow_msg && ((subflow_ m <? 0) || (3 <? subflow_ m));;
  let w := put_field w P_REFILL M_D_REFILL
             (if flow_msg then Z.land (subflow_ m) 1 else b2z (refill_ m)) in
  (if bool_decide (msg_type_ m = REQUEST) then
     THROW runtime_error "REQUEST flow_packets exceeds 24-bit wire capacity"
       WHEN (flow_packets_ m <? 0) || (M_D_FLOW_PACKETS_MAX <? flow_packets_ m);;
     Ok (put_field w P_ROOFLINE M_D_FLOW_PACKETS (flow_packets_ m))
   else Ok (put_field w P_ROOFLINE M_D_ROOFLINE (roofline_packets_ m))) ≫= fun w =>
  let w := put_field w P_CONF_END M_D_CONF_END
             (if flow_msg then Z.land (Z.shiftr (subflow_ m) 1) 1 else b2z (config_end_ m)) in
  wire_data m ≫= fun wd =>
  let w := put_field w P_DATA_ M_D_DATA wd in
  let w := put_field w P_EXIT_PORT M_D_EXIT_PORT (if 0 <=? exit_port_ m then exit_port_ m + 1 else 0) in
  Ok (put w 255 P_PAD 0).

(** [None] when the type field holds no value of the enumeration. *)
Definition DeserializeMsg (w : Z) : option Msg :=
  t ← MSG_TYPE_cast (get_field w P_MSG_TYPE M_D_MSG_TYPE);
  let refill := negb (get_field w P_REFILL M_D_REFILL =? 0) in
  let config_end := negb (get_field w P_CONF_END M_D_CONF_END =? 0) in
  let flow_msg := is_flow t in
  let request := bool_decide (t = REQUEST) in
  let is_data := bool_decide (t = DATA) in
  let d := get_field w P_DATA_ M_D_DATA in
  let ep := get_field w P_EXIT_PORT M_D_EXIT_PORT in
  Some (mkMsg (negb (get_field w P_IS_END M_D_IS_END =? 0)) t
    (get_field w P_SEQ_ID M_D_SEQ_ID) (get_field w P_DES M_D_DES)
    (get_field w P_OFFSET M_D_OFFSET) (get_field w P_TAG_ID M_D_TAG_ID)
    (get_field w P_SOURCE M_D_SOURCE) (get_field w P_LENGTH M_D_LENGTH)
    (if flow_msg then false else refill) (if flow_msg then false else config_end)
    (if request then roofline_packets_ Msg_default else get_field w P_ROOFLINE M_D_ROOFLINE)
    (if request then get_field w P_ROOFLINE M_D_FLOW_PACKETS else flow_packets_ Msg_default)
    (if request then get d 127 64 else dte_payload_bits_ Msg_default)
    (if is_data then get d 47 0 else dte_stream_source_first_ns_ Msg_default)
    (if is_data then get d 95 48 else dte_stream_source_done_ns_ Msg_default)
    (if is_data then get d 127 96 else dte_stream_network_tail_cycles_ Msg_default)
    (if flow_msg then Z.lor (if refill then 1 else 0) (if config_end then 2 else 0)
     else subflow_ Msg_default)
    (if ep =? 0 then -1 else ep - 1) d).

(** ** Packet counts and payload sizes *)

(** What [CalculatePacketNum] writes to its four output parameters. *)
Record packet_counts : Type := mkCounts {
  packet_num : Z; end_length : Z; packet_scale : Z; packets_in_last_group : Z
}.

(** The divisions are C++'s, truncating; a result outside [int] is undefined
    there and the arguments are restricted accordingly in the theorems. *)
Definition CalculatePacketNum (HW_NOC_PAYLOAD_PER_CYCLE output_size weight data_byte : Z) : result packet_counts :=
  let slice_size := if negb (Z.rem output_size weight =? 0) then Z.quot output_size weight + 1
                    else Z.quot output_size weight in
  let slice_size_in_bit := slice_size * data_byte * 8 in
  let packet_num := if negb (Z.rem slice_size_in_bit M_D_DATA =? 0)
                    then Z.quot slice_size_in_bit M_D_DATA + 1 else Z.quot slice_size_in_bit M_D_DATA in
  let end_length := slice_size_in_bit - (packet_num - 1) * M_D_DATA in
  THROW runtime_error "HW_NOC_PAYLOAD_PER_CYCLE must be in [1,255] for Send_prim encoding"
    WHEN (HW_NOC_PAYLOAD_PER_CYCLE <=? 0) || (255 <? HW_NOC_PAYLOAD_PER_CYCLE);;
  let raw_packet_num := packet_num in
  let packet_scale := HW_NOC_PAYLOAD_PER_CYCLE in
  let packets_in_last_group :=
    if negb (Z.rem raw_packet_num packet_scale =? 0) then Z.rem raw_packet_num packet_scale
    else packet_scale in
  Ok (mkCounts (Z.quot (raw_packet_num + packet_scale - 1) packet_scale) end_length packet_scale
        packets_in_last_group).

Definition CeilDivU64 (numerator denominator : Z) : result Z :=
  THROW invalid_argument "DTE division denominator must be > 0" WHEN denominator =? 0;;
  Ok (u64 (numerator / denominator + b2z (negb (numerator mod denominator =? 0)))).

Definition CYCLE : Z := 2.

Definition NanosecondsToDteCycles (nanoseconds : Z) : result Z := CeilDivU64 nanoseconds CYCLE.

Definition ComputeMsgLogicalPayloadBits (m : Msg) (behavioral_noc : bool) : result Z :=
  THROW invalid_argument "DTE Msg.length_ must be in [1, M_D_DATA] bits"
    WHEN (length_ m <=? 0) || (M_D_DATA <? length_ m);;
  if negb behavioral_noc then Ok (u64 (length_ m)) else
  THROW invalid_argument "DTE behavioral representative requires roofline_packets_ > 0"
    WHEN roofline_packets_ m <=? 0;;
  Ok (u64 (u64 (roofline_packets_ m - 1) * M_D_DATA + u64 (length_ m))).

(** [prim] is a SEND primitive's packet counts ([max_packet] is the simulated
    packet count). *)
Definition ComputeSendPayloadBits (prim : packet_counts) : result Z :=
  THROW invalid_argument "DTE max_packet must be >= 0" WHEN packet_num prim <? 0;;
  if packet_num prim =? 0 then
    THROW invalid_argument "DTE empty transfer requires end_length == 0" WHEN negb (end_length prim =? 0);;
    Ok 0
  else
  THROW invalid_argument "DTE end_length must be in [1, M_D_DATA] bits"
    WHEN (end_length prim <=? 0) || (M_D_DATA <? end_length prim);;
  THROW invalid_argument "DTE packet_scale must be in [1,255]"
    WHEN (packet_scale prim <=? 0) || (255 <? packet_scale prim);;
  THROW invalid_argument "DTE packets_in_last_group must be in [1, packet_scale]"
    WHEN (packets_in_last_group prim <=? 0) || (packet_scale prim <? packets_in_last_group prim);;
  let grouped_prefix := u64 (packet_num prim - 1) in
  THROW overflow_error "DTE raw packet count overflows"
    WHEN (UINT64_MAX - packets_in_last_group prim) / packet_scale prim <? grouped_prefix;;
  let raw_packets := u64 (grouped_prefix * packet_scale prim + packets_in_last_group prim) in
  let full_packets := u64 (raw_packets - 1) in
  THROW overflow_error "DTE SEND_DATA payload bit count overflows"
    WHEN (UINT64_MAX - end_length prim) / M_D_DATA <? full_packets;;
  Ok (u64 (full_packets * M_D_DATA + end_length prim)).

Definition AttachRequestDtePayload (request : Msg) (prim : packet_counts) (dte_enabled : bool) : result Msg :=
  if dte_enabled then
    ComputeSendPayloadBits prim ≫= fun bits =>
    Ok (mkMsg (is_end_ request) (msg_type_ request) (seq_id_ request) (des_ request) (offset_ request)
          (tag_id_ request) (source_ request) (length_ request) (refill_ request) (config_end_ request)
          (roofline_packets_ request) (flow_packets_ request) bits
          (dte_stream_source_first_ns_ request) (dte_stream_source_done_ns_ request)
          (dte_stream_network_tail_cycles_ request) (subflow_ request) (exit_port_ request) (data_ request))
  else Ok request.

(** ** Streaming tails ([dte_streaming.h]); times in nanoseconds *)

Definition ProjectDteSourceTailToDestinationNs (source_first_ns source_done_ns destination_first_ns : Z) : result Z :=
  THROW invalid_argument "DTE V2b destination first unit precedes source first unit"
    WHEN destination_first_ns <? source_first_ns;;
  let first_latency_ns := u64 (destination_first_ns - source_first_ns) in
  let source_tail_ns := Z.max source_first_ns source_done_ns in
  THROW overflow_error "DTE V2b source-tail projection overflows"
    WHEN UINT64_MAX - first_latency_ns <? source_tail_ns;;
  Ok (u64 (source_tail_ns + first_latency_ns)).

Definition CombineDteStreamingTailsNs (source_tail_at_destination_ns network_tail_ns
    destination_dte_done_ns destination_drain_ns : Z) : result Z :=
  THROW invalid_argument "DTE V2b destination drain must be positive" WHEN destination_drain_ns =? 0;;
  let upstream_tail_ns := Z.max source_tail_at_destination_ns network_tail_ns in
  THROW overflow_error "DTE V2b destination drain time overflows"
    WHEN UINT64_MAX - destination_drain_ns <? upstream_tail_ns;;
  Ok (Z.max destination_dte_done_ns (u64 (upstream_tail_ns + destination_drain_ns))).

(** ** Lemmas *)

(** The layout's positions as numerals. *)
Ltac layout := cbv [put_field get_field P_IS_END P_MSG_TYPE P_SEQ_ID P_DES P_OFFSET P_TAG_ID P_SOURCE
  P_LENGTH P_REFILL P_ROOFLINE P_CONF_END P_DATA_ P_EXIT_PORT P_PAD M_D_IS_END M_D_MSG_TYPE M_D_SEQ_ID
  M_D_DES M_D_OFFSET M_D_TAG_ID M_D_SOURCE M_D_LENGTH M_D_REFILL M_D_ROOFLINE M_D_FLOW_PACKETS
  M_D_CONF_END M_D_DATA M_D_EXIT_PORT Z.add Z.sub Z.opp Z.pos_sub Pos.add Pos.succ Pos.pred_double
  Pos.add_carry Z.double Z.succ_double Z.pred_double].

Lemma MSG_TYPE_cast_code t : MSG_TYPE_cast (wrap 4 (MSG_TYPE_code t)) = Some t.
Proof. by destruct t. Qed.

(** The message a receiver sees: every field truncated to its wire width, and
    the fields that share wire bits resolved by the message's type. *)
Definition on_wire (m : Msg) (wd : Z) : Msg :=
  let t := msg_type_ m in
  let ep := if 0 <=? exit_port_ m then u16 (exit_port_ m + 1) else 0 in
  mkMsg (is_end_ m) t (u16 (seq_id_ m)) (u16 (des_ m)) (u8 (offset_ m)) (u16 (tag_id_ m))
    (u16 (source_ m)) (u8 (length_ m))
    (if is_flow t then false else refill_ m) (if is_flow t then false else config_end_ m)
    (if bool_decide (t = REQUEST) then 0 else wrap 24 (roofline_packets_ m))
    (if bool_decide (t = REQUEST) then flow_packets_ m else 0)
    (if bool_decide (t = REQUEST) then get wd 127 64 else 0)
    (if bool_decide (t = DATA) then get wd 47 0 else 0)
    (if bool_decide (t = DATA) then get wd 95 48 else 0)
    (if bool_decide (t = DATA) then get wd 127 96 else 0)
    (if is_flow t then subflow_ m else 0)
    (if ep =? 0 then -1 else ep - 1) wd.

Lemma wire_data_in_u m wd : in_u 128 (data_ m) -> wire_data m = Ok wd -> in_u 128 wd.
Proof.
  intros Hd H. unfold wire_data in H.
  assert (in_u 128 (if bool_decide (msg_type_ m = REQUEST) then put (data_ m) 127 64 (dte_payload_bits_ m)
                    else data_ m)) as Hw0
    by (destruct (bool_decide (msg_type_ m = REQUEST)); [apply put_in_u; [lia|lia|done]|done]).
  destruct (bool_decide (msg_type_ m = DATA) && has_stream m); inv_ok; [|done].
  by repeat (apply put_in_u; [lia|lia|]).
Qed.

Lemma subflow_bits s : 0 <= s <= 3 ->
  Z.lor (if negb (wrap 1 (Z.land s 1) =? 0) then 1 else 0)
        (if negb (wrap 1 (Z.land (Z.shiftr s 1) 1) =? 0) then 2 else 0) = s.
Proof.
  intros H. assert (s = 0 \/ s = 1 \/ s = 2 \/ s = 3) as [->|[->|[->| ->]]] by lia; done.
Qed.

Lemma wrap1_b2z b : negb (wrap 1 (b2z b) =? 0) = b.
Proof. by destruct b. Qed.

(** A flit as the list of values written to its fields, low field first. *)
Definition fields : list (Z * Z) :=
  [(P_IS_END, M_D_IS_END); (P_MSG_TYPE, M_D_MSG_TYPE); (P_SEQ_ID, M_D_SEQ_ID); (P_DES, M_D_DES);
   (P_OFFSET, M_D_OFFSET); (P_TAG_ID, M_D_TAG_ID); (P_SOURCE, M_D_SOURCE); (P_LENGTH, M_D_LENGTH);
   (P_REFILL, M_D_REFILL); (P_ROOFLINE, M_D_ROOFLINE); (P_CONF_END, M_D_CONF_END); (P_DATA_, M_D_DATA);
   (P_EXIT_PORT, M_D_EXIT_PORT)].

Definition flit (vs : list Z) : Z :=
  put (foldl (fun w f => put_field w f.1.1 f.1.2 f.2) 0 (zip fields vs)) 255 P_PAD 0.

Lemma flit_field vs i p k v : fields !! i = Some (p, k) -> vs !! i = Some v -> length vs = 13%nat ->
  get_field (flit vs) p k = wrap k v.
Proof.
  intros Hf Hv Hl. do 13 (destruct vs as [|? vs]; [done|]). destruct vs; [|done].
  unfold flit. cbn [fields zip zip_with foldl fst snd].
  do 13 (destruct i as [|i]; [cbn in Hf, Hv; injection Hf as <- <-; injection Hv as <-; layout;
    repeat rewrite get_put_other by lia; rewrite get_put_same by lia; done|]).
  done.
Qed.

Lemma put_fields_in_u W fs vs w : Forall (fun f => 0 <= f.1 <= f.1 + f.2 - 1 /\ f.1 + f.2 - 1 < W) fs ->
  in_u W w -> in_u W (foldl (fun w f => put_field w f.1.1 f.1.2 f.2) w (zip fs vs)).
Proof.
  revert vs w; induction fs as [|[p k] fs IH]; intros vs w Hfs Hw; [done|].
  destruct vs as [|v vs]; [done|]. apply list.Forall_cons in Hfs as [[Hpk Hlt] Hfs]. cbn in *.
  apply IH; [done|]. by apply put_in_u.
Qed.

Lemma flit_in_u vs : in_u 255 (flit vs).
Proof.
  assert (in_u 255 (foldl (fun w f => put_field w f.1.1 f.1.2 f.2) 0 (zip fields vs))) as H.
  { apply put_fields_in_u; [|by vm_compute].
    unfold fields; layout; repeat apply Forall_cons_2; try apply Forall_nil_2; cbn; lia. }
  unfold flit. revert H. generalize (foldl (fun w f => put_field w f.1.1 f.1.2 f.2) 0 (zip fields vs)).
  layout. intros x Hx. apply in_u_bits; [lia|apply put_nonneg; [lia|apply Hx]|].
  intros i Hi. rewrite put_spec by lia. rewrite (in_u_testbit 255 x i) by done.
  by destruct ((255 <=? i) && (i <=? 255)) eqn:?; [apply Z.bits_0|].
Qed.

Definition msg_values (m : Msg) (wd : Z) : list Z :=
  [b2z (is_end_ m); MSG_TYPE_code (msg_type_ m); seq_id_ m; des_ m; offset_ m; tag_id_ m; source_ m; length_ m;
   if is_flow (msg_type_ m) then Z.land (subflow_ m) 1 else b2z (refill_ m);
   if bool_decide (msg_type_ m = REQUEST) then flow_packets_ m else roofline_packets_ m;
   if is_flow (msg_type_ m) then Z.land (Z.shiftr (subflow_ m) 1) 1 else b2z (config_end_ m);
   wd; if 0 <=? exit_port_ m then exit_port_ m + 1 else 0].

(** What the encoder accepts. *)
Definition sendable (m : Msg) : Prop :=
  (is_flow (msg_type_ m) = true -> 0 <= subflow_ m <= 3) /\
  (msg_type_ m = REQUEST -> 0 <= flow_packets_ m <= M_D_FLOW_PACKETS_MAX) /\
  is_ok (wire_data m) = true.

Lemma SerializeMsg_flit m w : SerializeMsg m = Ok w <->
  sendable m /\ exists wd, wire_data m = Ok wd /\ w = flit (msg_values m wd).
Proof.
  unfold SerializeMsg, sendable, flit, msg_values. cbn [fields zip zip_with foldl fst snd].
  rewrite throw_bind_ok, andb_false_iff, orb_false_iff, Z.ltb_ge, Z.ltb_ge.
  generalize (is_flow (msg_type_ m)); intros flow.
  destruct (wire_data m) as [wd|e]; cbn [is_ok].
  2:{ split; [|naive_solver]. intros [_ H]. destruct (bool_decide (msg_type_ m = REQUEST)); cbn in H;
      [|done]. by apply bind_ok in H as (? & _ & ?). }
  destruct (decide (msg_type_ m = REQUEST)) as [Hr|Hr].
  - rewrite (bool_decide_true (msg_type_ m = REQUEST)) by done.
    rewrite bind_ok. setoid_rewrite throw_bind_ok. setoid_rewrite orb_false_iff.
    setoid_rewrite Z.ltb_ge. cbn. split.
    + intros (Hs & wr & (Hf & [= <-]) & [= <-]). split; [|by eexists]. split; [intros ->; destruct Hs; [done|lia]|].
      split; [lia|done].
    + intros ((Hs & Hf & _) & ? & [= <-] & ->). split; [destruct flow; [right; specialize (Hs eq_refl); lia|by left]|].
      specialize (Hf Hr). eexists. split; [split; [lia|done]|done].
  - rewrite (bool_decide_false (msg_type_ m = REQUEST)) by done. cbn. split.
    + intros (Hs & [= <-]). split; [|by eexists]. split; [intros ->; destruct Hs; [done|lia]|done].
    + intros ((Hs & _) & ? & [= <-] & ->). split; [destruct flow; [right; specialize (Hs eq_refl); lia|by left]|done].
Qed.

Ltac read_flit :=
  repeat match goal with |- context [get_field (flit ?vs) ?p ?k] =>
    first [ rewrite (flit_field vs 0 p k _ eq_refl eq_refl eq_refl) | rewrite (flit_field vs 1 p k _ eq_refl eq_refl eq_refl)
      | rewrite (flit_field vs 2 p k _ eq_refl eq_refl eq_refl) | rewrite (flit_field vs 3 p k _ eq_refl eq_refl eq_refl)
      | rewrite (flit_field vs 4 p k _ eq_refl eq_refl eq_refl) | rewrite (flit_field vs 5 p k _ eq_refl eq_refl eq_refl)
      | rewrite (flit_field vs 6 p k _ eq_refl eq_refl eq_refl) | rewrite (flit_field vs 7 p k _ eq_refl eq_refl eq_refl)
      | rewrite (flit_field vs 8 p k _ eq_refl eq_refl eq_refl) | rewrite (flit_field vs 9 p k _ eq_refl eq_refl eq_refl)
      | rewrite (flit_field vs 10 p k _ eq_refl eq_refl eq_refl) | rewrite (flit_field vs 11 p k _ eq_refl eq_refl eq_refl)
      | rewrite (flit_field vs 12 p k _ eq_refl eq_refl eq_refl) ] end.

Lemma msg_wire_decode m w : msg_typed m -> SerializeMsg m = Ok w ->
  exists wd, wire_data m = Ok wd /\ in_u 128 wd /\ DeserializeMsg w = Some (on_wire m wd).
Proof.
  intros (Hsub & Hex & Hex2 & Hp & Hf & Hdn & Ht & Hd) H.
  apply SerializeMsg_flit in H as ((Hs & Hfp & _) & wd & Hwd & ->).
  pose proof (wire_data_in_u m wd Hd Hwd) as Hw. exists wd. split_and!; [done|done|].
  unfold DeserializeMsg. read_flit.
  rewrite MSG_TYPE_cast_code. cbn [mbind option_bind]. f_equal. unfold on_wire.
  rewrite (wrap_small M_D_DATA wd) by done. rewrite wrap1_b2z.
  f_equal.
  - destruct (is_flow (msg_type_ m)); [done|]. apply wrap1_b2z.
  - destruct (is_flow (msg_type_ m)); [done|]. apply wrap1_b2z.
  - by case_bool_decide.
  - case_bool_decide as Hreq; [|done]. specialize (Hfp Hreq). apply wrap_small.
    unfold M_D_FLOW_PACKETS_MAX in Hfp. layout. revert Hfp. unfold in_u. change (Z.shiftl 1 M_D_FLOW_PACKETS) with (2 ^ 24). lia.
  - destruct (is_flow (msg_type_ m)); [|done]. apply subflow_bits. by apply Hs.
  - destruct (0 <=? exit_port_ m); [done|]. by rewrite wrap_0.
Qed.

(** A message the wire can carry unchanged. *)
Definition representable (m : Msg) : Prop :=
  let t := msg_type_ m in
  (in_u 16 (seq_id_ m) /\ in_u 16 (des_ m) /\ in_u 8 (offset_ m) /\ in_u 16 (tag_id_ m) /\
   in_u 16 (source_ m) /\ in_u 8 (length_ m) /\ -1 <= exit_port_ m < 2 ^ 16 - 1) /\
  (if is_flow t then refill_ m = false /\ config_end_ m = false else subflow_ m = 0) /\
  (if bool_decide (t = REQUEST)
   then roofline_packets_ m = 0 /\ get (data_ m) 127 64 = dte_payload_bits_ m
   else in_u 24 (roofline_packets_ m) /\ flow_packets_ m = 0 /\ dte_payload_bits_ m = 0) /\
  (if bool_decide (t = DATA)
   then get (data_ m) 47 0 = dte_stream_source_first_ns_ m /\
        get (data_ m) 95 48 = dte_stream_source_done_ns_ m /\
        get (data_ m) 127 96 = dte_stream_network_tail_cycles_ m
   else dte_stream_source_first_ns_ m = 0 /\ dte_stream_source_done_ns_ m = 0 /\
        dte_stream_network_tail_cycles_ m = 0).

Lemma put_get_id w hi lo : 0 <= lo <= hi -> put w hi lo (get w hi lo) = w.
Proof.
  intros Hr. apply Z.bits_inj'; intros i Hi. rewrite put_spec by lia.
  destruct (Z.leb_spec lo i), (Z.leb_spec i hi); cbn; try done.
  rewrite get_spec by lia. destruct (Z.ltb_spec (i - lo) (hi - lo + 1)); [|lia]. cbn. f_equal; lia.
Qed.

Lemma put_wrap w hi lo v v' : 0 <= lo <= hi -> wrap (hi - lo + 1) v = wrap (hi - lo + 1) v' ->
  put w hi lo v = put w hi lo v'.
Proof.
  intros Hr Hv. unfold wrap in Hv. rewrite <- !Z.land_ones in Hv by lia. unfold put. by rewrite Hv.
Qed.

Lemma wrap_small_inv w x : 0 <= w -> wrap w x = x -> in_u w x.
Proof. intros Hw <-. by apply wrap_in_u. Qed.

Lemma representable_data m wd : representable m -> wire_data m = Ok wd -> wd = data_ m.
Proof.
  intros (_ & _ & Hq & Hd) H. unfold wire_data in H.
  destruct (decide (msg_type_ m = REQUEST)) as [Hr|Hr].
  - rewrite (bool_decide_true (msg_type_ m = REQUEST)), (bool_decide_false (msg_type_ m = DATA)) in * by congruence.
    cbn in H. injection H as <-. destruct Hq as [_ <-]. by apply put_get_id.
  - rewrite (bool_decide_false (msg_type_ m = REQUEST)) in * by congruence.
    case_bool_decide as Hda; cbn in H; [|by injection H as <-].
    destruct (has_stream m); [|by injection H as <-]. inv_ok.
    destruct Hd as (<- & <- & <-).
    rewrite (put_get_id (data_ m) 47 0), (put_get_id (data_ m) 95 48), put_get_id by lia. done.
Qed.

Lemma on_wire_id m wd : wd = data_ m -> on_wire m wd = m <-> representable m.
Proof.
  intros ->. unfold on_wire, representable. destruct m as [e t sq de off tag src len rf ce rl fl dp s1 s2 s3 sf ep da]; cbn.
  assert ((if (if 0 <=? ep then u16 (ep + 1) else 0) =? 0 then -1
           else (if 0 <=? ep then u16 (ep + 1) else 0) - 1) = ep <-> -1 <= ep < 2 ^ 16 - 1) as Hep.
  { destruct (Z.leb_spec 0 ep); cbn; [|lia].
    assert (0 <= u16 (ep + 1) < 2 ^ 16) as Hb by (apply (wrap_in_u 16); lia). split.
    - destruct (Z.eqb_spec (u16 (ep + 1)) 0); lia.
    - intros Hr. rewrite wrap_small by (unfold in_u; lia). destruct (Z.eqb_spec (ep + 1) 0); lia. }
  split.
  - intros H. injection H as Hs Hde Hof Hta Hso Hle Hrf Hce Hrl Hfl Hdp H1 H2 H3 Hsf Hepe. apply Hep in Hepe.
    split; [split_and!; try lia; by apply wrap_small_inv|].
    repeat case_bool_decide; destruct (is_flow t); split_and!; try done; try congruence.
    all: by apply wrap_small_inv.
  - intros ((Hs & Hde & Hof & Hta & Hso & Hle & Hepr) & Hfl & Hrq & Hda). apply Hep in Hepr.
    rewrite !wrap_small by done. rewrite Hepr.
    repeat case_bool_decide; destruct (is_flow t); destruct_and!; subst; rewrite ?wrap_small by done; done.
Qed.

Lemma get_put_stream d a b c : in_u 48 a -> in_u 48 b -> in_u 32 c ->
  let wd := put (put (put d 47 0 a) 95 48 b) 127 96 c in
  get wd 47 0 = a /\ get wd 95 48 = b /\ get wd 127 96 = c.
Proof.
  intros Ha Hb Hc wd. subst wd.
  split_and!; repeat rewrite get_put_other by lia; rewrite get_put_same by lia; by apply wrap_small.
Qed.

(** The special payloads a sender attached are read back. *)
Lemma wire_data_carries m wd : msg_typed m -> wire_data m = Ok wd ->
  (msg_type_ m = REQUEST -> get wd 127 64 = dte_payload_bits_ m) /\
  (msg_type_ m = DATA -> has_stream m = true ->
     get wd 47 0 = dte_stream_source_first_ns_ m /\ get wd 95 48 = dte_stream_source_done_ns_ m /\
     get wd 127 96 = dte_stream_network_tail_cycles_ m).
Proof.
  intros (_ & _ & _ & Hp & Hf & Hdn & Ht & _) H. unfold wire_data in H. split.
  - intros Hr. rewrite (bool_decide_true (msg_type_ m = REQUEST)), (bool_decide_false (msg_type_ m = DATA)) in H by congruence.
    injection H as <-. rewrite get_put_same by lia. by apply wrap_small.
  - intros Hd Hst. rewrite (bool_decide_true (msg_type_ m = DATA)), Hst in H by done. cbn [andb] in H. inv_ok. split_guards.
    change (Z.shiftl 1 48) with (2 ^ 48) in *.
    apply get_put_stream; unfold in_u in *; lia.
Qed.

(** Re-encoding what was decoded gives the same flit. *)
Lemma put_fields_ext fs vs vs' w :
  Forall (fun f => 0 <= f.1 <= f.1 + f.2 - 1) fs -> length vs = length fs ->
  Forall2 (fun f p => wrap f.2 p.1 = wrap f.2 p.2) fs (zip vs vs') ->
  foldl (fun w f => put_field w f.1.1 f.1.2 f.2) w (zip fs vs) =
  foldl (fun w f => put_field w f.1.1 f.1.2 f.2) w (zip fs vs').
Proof.
  revert w vs vs'; induction fs as [|[p k] fs IH]; intros w vs vs' Hlay Hlen H; [done|].
  apply list.Forall_cons in Hlay as [Hpk Hlay]. apply Forall2_cons_inv_l in H as (q & qs & Hw & H & Hz).
  destruct vs as [|v vs], vs' as [|v' vs']; try done. injection Hz as <- <-. cbn in *.
  unfold put_field. rewrite (put_wrap w (p + k - 1) p v v')
    by first [lia | replace (p + k - 1 - p + 1) with k by lia; done].
  apply IH; [done|lia|done].
Qed.

Lemma fields_layout : Forall (fun f => 0 <= f.1 <= f.1 + f.2 - 1) fields.
Proof. unfold fields; layout; repeat apply Forall_cons_2; try apply Forall_nil_2; cbn; lia. Qed.

Lemma on_wire_typed m wd : sendable m -> in_u 128 wd -> wire_data m = Ok wd ->
  sendable (on_wire m wd) /\ wire_data (on_wire m wd) = Ok wd.
Proof.
  intros (Hs & Hf & _) Hwd H.
  assert (wire_data (on_wire m wd) = Ok wd) as Hok.
  { unfold wire_data. cbn [msg_type_ on_wire data_ dte_payload_bits_ dte_stream_source_first_ns_
      dte_stream_source_done_ns_ dte_stream_network_tail_cycles_].
    destruct (decide (msg_type_ m = REQUEST)) as [Hr|Hr].
    - rewrite (bool_decide_true (msg_type_ m = REQUEST)), (bool_decide_false (msg_type_ m = DATA)) by congruence.
      cbn [andb]. by rewrite put_get_id by lia.
    - rewrite (bool_decide_false (msg_type_ m = REQUEST)) by congruence.
      case_bool_decide; [|done]. cbn [andb]. destruct (has_stream _); [|done].
      change (Z.shiftl 1 48) with (2 ^ 48).
      pose proof (get_in_u wd 47 0 ltac:(lia)). pose proof (get_in_u wd 95 48 ltac:(lia)).
      unfold in_u in *. change (2 ^ (47 - 0 + 1)) with (2 ^ 48) in *. change (2 ^ (95 - 48 + 1)) with (2 ^ 48) in *.
      rewrite throw_bind_false by (apply orb_false_iff; split; apply Z.ltb_ge; lia).
      by rewrite !put_get_id by lia. }
  split; [|done]. unfold sendable. rewrite Hok. cbn [msg_type_ on_wire subflow_ flow_packets_ is_ok].
  split; [|split]; [intros Hfl; rewrite Hfl; by apply Hs| |done].
  intros Hr. rewrite bool_decide_true by done. by apply Hf.
Qed.

Lemma SerializeMsg_on_wire m wd : sendable m -> in_u 128 wd -> wire_data m = Ok wd ->
  exit_port_ m < INT_MAX -> SerializeMsg (on_wire m wd) = Ok (flit (msg_values m wd)).
Proof.
  intros Hs Hwd H Hex. destruct (on_wire_typed m wd Hs Hwd H) as [Hs' H'].
  apply SerializeMsg_flit. split; [done|]. exists wd. split; [done|].
  unfold flit. f_equal. apply put_fields_ext; [apply fields_layout|done|].
  unfold msg_values, fields, on_wire. cbn -[wrap is_flow Z.land Z.shiftr].
  repeat apply Forall2_cons_2; try apply Forall2_nil_2; cbn [fst snd]; try done; try (symmetry; apply wrap_wrap).
  - by destruct (is_flow (msg_type_ m)).
  - case_bool_decide; [done|]. symmetry; apply wrap_wrap.
  - by destruct (is_flow (msg_type_ m)).
  - destruct (0 <=? exit_port_ m); [|done]. cbn.
    assert (0 <= u16 (exit_port_ m + 1) < 2 ^ 16) as Hb by (apply (wrap_in_u 16); lia).
    destruct (Z.eqb_spec (u16 (exit_port_ m + 1)) 0) as [Hz|Hz]; cbn; [done|].
    destruct (Z.leb_spec 0 (u16 (exit_port_ m + 1) - 1)); [|lia].
    symmetry. rewrite Z.sub_add. apply wrap_wrap.
Qed.

(** The framing magic numbers of the collective flits meet no value of the
    type field. *)
Lemma get_get w h l h' l' : 0 <= l <= h -> 0 <= l' <= h' -> h' <= h - l ->
  get (get w h l) h' l' = get w (h' + l) (l' + l).
Proof.
  intros H1 H2 H3. apply Z.bits_inj'; intros i Hi. rewrite !get_spec by lia.
  replace (h' + l - (l' + l)) with (h' - l') by lia.
  destruct (Z.ltb_spec i (h' - l' + 1)); cbn; [|done].
  destruct (Z.ltb_spec (i + l') (h - l + 1)); [|lia]. cbn. f_equal; lia.
Qed.

Lemma msg_type_bits m w : SerializeMsg m = Ok w -> get w 4 1 = MSG_TYPE_code (msg_type_ m).
Proof.
  intros H. apply SerializeMsg_flit in H as (_ & wd & _ & Hw).
  pose proof (flit_field (msg_values m wd) 1 P_MSG_TYPE M_D_MSG_TYPE (MSG_TYPE_code (msg_type_ m))
    eq_refl eq_refl eq_refl) as Hf. rewrite <- Hw in Hf.
  change (get w 4 1 = wrap 4 (MSG_TYPE_code (msg_type_ m))) in Hf. rewrite Hf. by destruct (msg_type_ m).
Qed.

Lemma type_bits_not_collective w t : get w 4 1 = MSG_TYPE_code t ->
  IsCollDataWire w = false /\ IsCollReduceHeaderWire w = false.
Proof.
  intros Ht. assert (get (get w 15 0) 4 1 = MSG_TYPE_code t) as Hg by (by rewrite get_get by lia).
  unfold IsCollDataWire, IsCollReduceHeaderWire. split.
  - destruct (Z.eqb_spec (get w 15 0) COLL_DATA_MAGIC) as [E|]; [|done].
    rewrite E in Hg. destruct t; discriminate Hg.
  - destruct (Z.eqb_spec (get w 15 0) COLL_REDUCE_MAGIC) as [E|]; [|done].
    rewrite E in Hg. destruct t; discriminate Hg.
Qed.

(** The packet counts in exact arithmetic. *)
Lemma quot_rem_ceil a b : 0 <= a -> 0 < b ->
  (if negb (Z.rem a b =? 0) then Z.quot a b + 1 else Z.quot a b) = ceil_div a b.
Proof.
  intros Ha Hb. rewrite Z.rem_mod_nonneg, Z.quot_div_nonneg by lia. unfold ceil_div, b2z.
  destruct (a mod b =? 0); cbn; lia.
Qed.

Lemma group_counts raw s : 0 < raw -> 0 < s ->
  let last := if negb (Z.rem raw s =? 0) then Z.rem raw s else s in
  1 <= last <= s /\ (Z.quot (raw + s - 1) s - 1) * s + last = raw /\ 1 <= Z.quot (raw + s - 1) s <= raw.
Proof.
  intros Hr Hs last. subst last. rewrite Z.quot_div_nonneg, ceil_div_alt by lia.
  rewrite Z.rem_mod_nonneg by lia. unfold ceil_div, b2z.
  pose proof (Z.div_mod raw s ltac:(lia)). pose proof (Z.mod_pos_bound raw s Hs).
  destruct (Z.eqb_spec (raw mod s) 0); cbn; nia.
Qed.

Definition slice_bits (output_size weight data_byte : Z) : Z := ceil_div output_size weight * data_byte * 8.

Lemma CalculatePacketNum_exact n o w b : 1 <= n <= 255 -> 0 < o -> 0 < w -> 0 < b ->
  exists c, CalculatePacketNum n o w b = Ok c /\ packet_scale c = n /\
    1 <= packets_in_last_group c <= n /\ 1 <= end_length c <= M_D_DATA /\
    1 <= packet_num c <= ceil_div (slice_bits o w b) M_D_DATA /\
    ((packet_num c - 1) * packet_scale c + packets_in_last_group c - 1) * M_D_DATA + end_length c
      = slice_bits o w b.
Proof.
  intros Hn Ho Hw Hb. unfold CalculatePacketNum. cbv zeta. rewrite !(quot_rem_ceil o w) by lia.
  pose proof (ceil_div_pos o w Hw Ho) as Hc.
  fold (slice_bits o w b). assert (0 < slice_bits o w b) as Hs by (unfold slice_bits; nia).
  rewrite !(quot_rem_ceil (slice_bits o w b) M_D_DATA) by (unfold M_D_DATA; lia).
  rewrite throw_bind_false by (apply orb_false_iff; split; [apply Z.leb_gt|apply Z.ltb_ge]; lia).
  eexists; split; [done|]. cbn [packet_scale packets_in_last_group end_length packet_num].
  pose proof (ceil_div_spec (slice_bits o w b) M_D_DATA ltac:(done)) as Hp.
  pose proof (ceil_div_pos (slice_bits o w b) M_D_DATA ltac:(done) Hs) as Hpos.
  pose proof (group_counts (ceil_div (slice_bits o w b) M_D_DATA) n Hpos ltac:(lia)) as (H1 & H2 & H3).
  rewrite H2. unfold M_D_DATA in *. split_and!; lia.
Qed.

Lemma u64_id x : 0 <= x <= UINT64_MAX -> u64 x = x.
Proof. intros H. apply wrap_small. unfold UINT64_MAX, in_u in *. lia. Qed.

Lemma ComputeSendPayloadBits_exact c : 1 <= packet_num c <= INT_MAX ->
  1 <= packet_scale c <= 255 -> 1 <= packets_in_last_group c <= packet_scale c ->
  1 <= end_length c <= M_D_DATA ->
  ComputeSendPayloadBits c =
    Ok (((packet_num c - 1) * packet_scale c + packets_in_last_group c - 1) * M_D_DATA + end_length c).
Proof.
  intros Hn Hs Hl He. unfold ComputeSendPayloadBits, M_D_DATA in *.
  rewrite throw_bind_false by (apply Z.ltb_ge; lia).
  destruct (Z.eqb_spec (packet_num c) 0); [lia|].
  do 3 (rewrite throw_bind_false by (apply orb_false_iff; split; [apply Z.leb_gt|apply Z.ltb_ge]; lia)).
  assert (0 <= (packet_num c - 1) * packet_scale c <= INT_MAX * 255) as Hprod
    by (unfold INT_MAX in *; nia).
  set (prod := (packet_num c - 1) * packet_scale c) in *.
  rewrite (u64_id (packet_num c - 1)) by ulia.
  rewrite throw_bind_false.
  2:{ apply Z.ltb_ge, Z.div_le_lower_bound; [lia|]. rewrite Z.mul_comm. fold prod. ulia. }
  fold prod.
  rewrite (u64_id (prod + packets_in_last_group c)) by ulia.
  rewrite (u64_id (prod + packets_in_last_group c - 1)) by ulia.
  rewrite throw_bind_false.
  2:{ apply Z.ltb_ge. apply Z.div_le_lower_bound; [lia|]. unfold_widths. lia. }
  by rewrite u64_id by ulia.
Qed.

(** ** Properties *)

(** The message flit is faithful.  A message the encoder accepts is decoded
    to its wire form [on_wire], which re-encodes to the same flit; the attached
    REQUEST payload size and DATA stream times are read back; and the message
    itself comes back exactly when it is [representable]: every integer fits
    its field and the fields that share bits are used as its type requires. *)
Theorem msg_wire_roundtrip (m : Msg) (w : Z) : msg_typed m -> SerializeMsg m = Ok w ->
  exists wd, wire_data m = Ok wd /\
    DeserializeMsg w = Some (on_wire m wd) /\ SerializeMsg (on_wire m wd) = Ok w /\
    (msg_type_ m = REQUEST -> dte_payload_bits_ (on_wire m wd) = dte_payload_bits_ m) /\
    (msg_type_ m = DATA -> has_stream m = true ->
       dte_stream_source_first_ns_ (on_wire m wd) = dte_stream_source_first_ns_ m /\
       dte_stream_source_done_ns_ (on_wire m wd) = dte_stream_source_done_ns_ m /\
       dte_stream_network_tail_cycles_ (on_wire m wd) = dte_stream_network_tail_cycles_ m) /\
    (DeserializeMsg w = Some m <-> representable m).
Proof.
  intros Ht H. destruct (msg_wire_decode m w Ht H) as (wd & Hwd & Hin & Hdec).
  pose proof (wire_data_carries m wd Ht Hwd) as [Hreq Hda].
  pose proof H as Hser. apply SerializeMsg_flit in H as (Hs & wd' & Hwd' & Hw).
  rewrite Hwd in Hwd'. injection Hwd' as <-. subst w.
  exists wd. split_and!; [done|done|apply SerializeMsg_on_wire; try done; apply Ht| | |].
  - intros Hr. cbn [on_wire dte_payload_bits_]. rewrite bool_decide_true by done. by apply Hreq.
  - intros Hd Hst. cbn [on_wire dte_stream_source_first_ns_ dte_stream_source_done_ns_ dte_stream_network_tail_cycles_].
    rewrite !bool_decide_true by done. by apply Hda.
  - rewrite Hdec. split.
    + intros [= Heq]. apply (on_wire_id m wd); [|done]. by rewrite <- Heq.
    + intros Hr. f_equal. apply on_wire_id; [|done]. by eapply representable_data.
Qed.

Definition ex_request : Msg :=
  mkMsg true REQUEST 65535 12 3 7 5 128 false false 0 100000 123456789 0 0 0 2 (-1) (Z.shiftl 123456789 64).

(** C36: framing.  No message flit is ever taken for a collective data or
    reduction header, because their magic numbers hold no message type; but the
    reduction payload is recognised by bits that lie inside a message's data,
    so a CONFIG message with suitable data is taken for one. *)
Theorem msg_framing :
  (forall m w, SerializeMsg m = Ok w -> IsCollDataWire w = false /\ IsCollReduceHeaderWire w = false) /\
  (exists m w, msg_typed m /\ representable m /\ msg_type_ m = CONFIG /\ SerializeMsg m = Ok w /\
     IsCollReducePayloadWire w = true).
Proof.
  split; [intros m w H; by apply (type_bits_not_collective w (msg_type_ m)), msg_type_bits|].
  exists (mkMsg false CONFIG 0 0 0 0 0 0 false false 0 0 0 0 0 0 0 (-1) (put (put 0 32 17 0xc5d2) 48 41 1)).
  eexists. split; [apply (bool_decide_unpack _); by vm_compute|].
  split; [unfold representable; cbn -[get put]; unfold in_u; split_and!; try lia; done|].
  split; [done|]. split; [vm_compute; reflexivity|by vm_compute].
Qed.

(** packet counts and DMA payloads agree.  For every non-empty slice and
    every legal packet grouping, the counts put into the SEND primitive are in
    range and the payload size the DMA engine computes from them is exactly the
    slice's size in bits, provided that size fits an int. *)
Theorem send_payload_exact (HW_NOC_PAYLOAD_PER_CYCLE output_size weight data_byte : Z) :
  1 <= HW_NOC_PAYLOAD_PER_CYCLE <= 255 -> 0 < output_size -> 0 < weight -> 0 < data_byte ->
  slice_bits output_size weight data_byte <= INT_MAX ->
  exists c, CalculatePacketNum HW_NOC_PAYLOAD_PER_CYCLE output_size weight data_byte = Ok c /\
    1 <= packets_in_last_group c <= packet_scale c /\ 1 <= end_length c <= M_D_DATA /\
    ComputeSendPayloadBits c = Ok (slice_bits output_size weight data_byte).
Proof.
  intros Hn Ho Hw Hb Hmax.
  destruct (CalculatePacketNum_exact _ _ _ _ Hn Ho Hw Hb) as (c & Hc & Hs & Hl & He & Hp & Hbits).
  exists c. split; [done|]. split; [lia|]. split; [done|].
  assert (ceil_div (slice_bits output_size weight data_byte) M_D_DATA <= slice_bits output_size weight data_byte)
    by (apply ceil_div_le; [done|]; unfold slice_bits; pose proof (ceil_div_pos output_size weight Hw Ho); nia).
  rewrite ComputeSendPayloadBits_exact by lia. by rewrite Hbits.
Qed.
