(* ===== verification/DteUnit.v ===== *)
(** The DMA transfer engine of a core ([include/dte/dte_types.h],
    [src/dte/dte_unit.cpp]): descriptor credits, command slots, the launch
    pipeline and the round-robin arbitration of the data ports.

    A [DteTransferContext *] is the transfer's id, which is unique; the heap of
    contexts [contexts_] is a map from ids, and an operation that would follow a
    pointer to a released context returns [use_after_free].  Times are
    nanoseconds; a cycle lasts [CYCLE] of them.  The floating-point energy and
    area counters and the trace output are not modelled; whether the seven
    coefficients are finite and non-negative is a field of the configuration. *)

From S2P Require Import Prelude Bits CollTypes MsgWire.

(** ** Data *)

(** [enum class DteDir] *)
Inductive DteDir : Type :=
  | SPM_TO_REMOTE | REMOTE_TO_SPM | SPM_TO_SPM | SPM_TO_DRAM | DRAM_TO_SPM | DRAM_TO_REMOTE.
#[export] Instance DteDir_eq_dec : EqDecision DteDir.
Proof. solve_decision. Defined.
Definition DteDir_code (d : DteDir) : Z :=
  match d with SPM_TO_REMOTE => 0 | REMOTE_TO_SPM => 1 | SPM_TO_SPM => 2 | SPM_TO_DRAM => 3
  | DRAM_TO_SPM => 4 | DRAM_TO_REMOTE => 5 end.
Definition IsKnownDirection (d : DteDir) : bool :=
  (DteDir_code SPM_TO_REMOTE <=? DteDir_code d) && (DteDir_code d <=? DteDir_code DRAM_TO_REMOTE).

(** [enum class DteTransferState] *)
Inductive DteTransferState : Type :=
  | PENDING | LAUNCHING | BUS_WAIT | TRANSMITTING | COMPLETED | CANCELLED.
#[export] Instance DteTransferState_eq_dec : EqDecision DteTransferState.
Proof. solve_decision. Defined.

(** [enum class DtePort]; a port is used through its number. *)
Definition LEGACY_BUS : nat := 0.
Definition SPM_READ : nat := 1.
Definition SPM_WRITE : nat := 2.
Definition AXI_READ : nat := 3.
Definition AXI_WRITE : nat := 4.
Definition PORT_COUNT : nat := 5.

Definition DtePortBit (port : nat) : Z := Z.shiftl 1 (Z.of_nat port).

(** [mask & (1 << i)] as a condition *)
Definition has_port (mask : Z) (i : nat) : bool := negb (Z.land mask (DtePortBit i) =? 0).

(** [struct DTEConfig] *)
Record DTEConfig : Type := mkDTEConfig {
  channel_count : Z; (* uint32_t *)
  bit_width_bits : Z; (* uint32_t *)
  gamma_cycles : Z; (* uint64_t *)
  tau_launch_cycles : Z; (* uint64_t *)
  fine_grained_resources : bool;
  command_slots_per_channel : Z; (* uint32_t *)
  pending_queue_depth : Z; (* uint32_t *)
  spm_read_width_bits : Z; (* uint32_t *)
  spm_write_width_bits : Z; (* uint32_t *)
  axi_read_width_bits : Z; (* uint32_t *)
  axi_write_width_bits : Z; (* uint32_t *)
  coefficients_ok : bool
}.

(** [struct DteStatistics] without the energy and area sums *)
Record DteStatistics : Type := mkStats {
  physical_issued : Z; completed : Z; cancelled : Z; backpressure_stalls : Z
}.

(** [struct DteTransferContext] *)
Record DteTransferContext : Type := mkCtx {
  xfer_id : Z; (* uint64_t *)
  payload_bits : Z; (* uint64_t *)
  dir : DteDir;
  state : DteTransferState;
  channel_id : Z; (* int *)
  command_slot : Z; (* int *)
  active_slot : Z; (* int *)
  resource_mask : Z; (* uint32_t *)
  active_resource_mask : Z; (* uint32_t *)
  resource_done_times : list Z; (* sc_time[5] *)
  issue_time : Z;
  admitted_time : Z;
  launch_done_time : Z;
  transmit_start_time : Z;
  scheduled_completion_time : Z;
  completion_time : Z
}.

(** [class DTEUnit] *)
Record DTEUnit : Type := mkDTEUnit {
  config_ : DTEConfig;
  contexts_ : gmap Z DteTransferContext;
  pending_ : list Z;
  active_ : list (option Z);
  resource_owners_ : list (option Z);
  active_count_ : Z;
  max_active_count_ : Z;
  inflight_count_ : Z;
  completed_count_ : Z; (* uint64_t *)
  next_xfer_id_ : Z; (* uint64_t *)
  last_served_slot_ : Z; (* int *)
  statistics_ : DteStatistics;
  first_issue_time_ : Z;
  last_completion_time_ : Z;
  have_issue_time_ : bool
}.

Definition use_after_free : exn := logic_error "use after free".

(** ** Configuration *)

Definition slot_count (c : DTEConfig) : Z := u64 (channel_count c * command_slots_per_channel c).

(** [DTEUnit::ValidateConfig]; [size_t] has 64 bits. *)
Definition ValidateConfig (c : DTEConfig) : result unit :=
  THROW invalid_argument "DTE channel_count must be > 0" WHEN channel_count c =? 0;;
  THROW invalid_argument "DTE bit_width_bits must be > 0" WHEN bit_width_bits c =? 0;;
  THROW overflow_error "DTE launch cycle count overflows"
    WHEN UINT64_MAX - tau_launch_cycles c <? gamma_cycles c;;
  THROW invalid_argument "DTE command_slots_per_channel must be > 0" WHEN command_slots_per_channel c =? 0;;
  THROW overflow_error "DTE command slot count overflows" WHEN UINT64_MAX <? slot_count c;;
  (if fine_grained_resources c then
     THROW invalid_argument "DTE V4 requires exactly two command slots per channel"
       WHEN negb (command_slots_per_channel c =? 2);;
     THROW invalid_argument "DTE V4 pending_queue_depth must be > 0" WHEN pending_queue_depth c =? 0;;
     throw_if ((spm_read_width_bits c =? 0) || (spm_write_width_bits c =? 0) ||
               (axi_read_width_bits c =? 0) || (axi_write_width_bits c =? 0))
       (invalid_argument "DTE V4 SPM/AXI port widths must all be > 0")
   else Ok tt) ≫= fun _ =>
  throw_if (negb (coefficients_ok c)) (invalid_argument "DTE V4 energy/area coefficients must be finite and >= 0").

Definition MakeDTEConfig (channel_count bit_width_bits gamma_ns tau_launch_ns : Z) : result DTEConfig :=
  THROW invalid_argument "DTE gamma_ns must be >= 0" WHEN gamma_ns <? 0;;
  THROW invalid_argument "DTE tau_launch_ns must be >= 0" WHEN tau_launch_ns <? 0;;
  NanosecondsToDteCycles (u64 gamma_ns) ≫= fun gamma =>
  NanosecondsToDteCycles (u64 tau_launch_ns) ≫= fun tau =>
  let config := mkDTEConfig channel_count bit_width_bits gamma tau false 1 0
    bit_width_bits bit_width_bits bit_width_bits bit_width_bits true in
  ValidateConfig config ≫= fun _ => Ok config.

(** The constructor. *)
Definition new_DTEUnit (c : DTEConfig) : result DTEUnit :=
  ValidateConfig c ≫= fun _ =>
  Ok (mkDTEUnit c ∅ [] (replicate (Z.to_nat (slot_count c)) None) (replicate PORT_COUNT None)
        0 0 0 0 0 (-1) (mkStats 0 0 0 0) 0 0 false).

(** [DTEUnit::RequiredPorts] *)
Definition RequiredPorts (d : DteDir) (fine_grained : bool) : result Z :=
  THROW invalid_argument "DTE transfer direction is invalid" WHEN negb (IsKnownDirection d);;
  if negb fine_grained then Ok (DtePortBit LEGACY_BUS) else
  Ok match d with
     | SPM_TO_REMOTE => DtePortBit SPM_READ
     | REMOTE_TO_SPM => DtePortBit SPM_WRITE
     | SPM_TO_SPM => Z.lor (DtePortBit SPM_READ) (DtePortBit SPM_WRITE)
     | SPM_TO_DRAM => Z.lor (DtePortBit SPM_READ) (DtePortBit AXI_WRITE)
     | DRAM_TO_SPM => Z.lor (DtePortBit AXI_READ) (DtePortBit SPM_WRITE)
     | DRAM_TO_REMOTE => DtePortBit AXI_READ
     end.

(** ** Credits, issue, cancel and release *)

Definition descriptorCapacity (u : DTEUnit) : Z :=
  let n := Z.of_nat (length (active_ u)) in
  if negb (fine_grained_resources (config_ u)) then UINT64_MAX else
  if UINT64_MAX - pending_queue_depth (config_ u) <? n then UINT64_MAX else
  n + pending_queue_depth (config_ u).

Definition CanAccept (u : DTEUnit) : bool := inflight_count_ u <? descriptorCapacity u.

(** One check of [WaitForCredit]'s loop: [true] when the caller may go on,
    [false] when it waits for the credit event. *)
Definition WaitForCredit (u : DTEUnit) : DTEUnit * bool :=
  if CanAccept u then (u, true) else
  let s := statistics_ u in
  (mkDTEUnit (config_ u) (contexts_ u) (pending_ u) (active_ u) (resource_owners_ u) (active_count_ u)
     (max_active_count_ u) (inflight_count_ u) (completed_count_ u) (next_xfer_id_ u) (last_served_slot_ u)
     (mkStats (physical_issued s) (completed s) (cancelled s) (u64 (backpressure_stalls s + 1)))
     (first_issue_time_ u) (last_completion_time_ u) (have_issue_time_ u), false).

Definition TryIssue (now : Z) (u : DTEUnit) (bits : Z) (d : DteDir) : result (DTEUnit * option Z) :=
  THROW invalid_argument "DTE payload_bits must be > 0" WHEN bits =? 0;;
  THROW invalid_argument "DTE transfer direction is invalid" WHEN negb (IsKnownDirection d);;
  THROW invalid_argument "DTE V4 direction requires fine_grained_resources=true"
    WHEN negb (fine_grained_resources (config_ u)) && negb (bool_decide (d = SPM_TO_REMOTE))
         && negb (bool_decide (d = REMOTE_TO_SPM));;
  if negb (CanAccept u) then Ok (u, None) else
  THROW overflow_error "DTE transfer id space exhausted" WHEN next_xfer_id_ u =? UINT64_MAX;;
  let id := next_xfer_id_ u in
  RequiredPorts d (fine_grained_resources (config_ u)) ≫= fun mask =>
  let ctx := mkCtx id bits d PENDING (-1) (-1) (-1) mask 0 (replicate PORT_COUNT 0) now 0 0 0 0 0 in
  let s := statistics_ u in
  Ok (mkDTEUnit (config_ u) (<[id := ctx]> (contexts_ u)) (pending_ u ++ [id]) (active_ u)
        (resource_owners_ u) (active_count_ u) (max_active_count_ u) (inflight_count_ u + 1)
        (completed_count_ u) (next_xfer_id_ u + 1) (last_served_slot_ u)
        (mkStats (u64 (physical_issued s + 1)) (completed s) (cancelled s) (backpressure_stalls s))
        (if have_issue_time_ u then first_issue_time_ u else now) (last_completion_time_ u) true,
      Some id).

Definition Issue (now : Z) (u : DTEUnit) (bits : Z) (d : DteDir) : result (DTEUnit * Z) :=
  TryIssue now u bits d ≫= fun r =>
  match r.2 with
  | None => Err (runtime_error "DTE descriptor credits exhausted; call WaitForCredit first")
  | Some id => Ok (r.1, id)
  end.

(** A context in a new state, all else kept. *)
Definition ctx_with_state (c : DteTransferContext) (s : DteTransferState) (completion : Z) : DteTransferContext :=
  mkCtx (xfer_id c) (payload_bits c) (dir c) s (channel_id c) (command_slot c) (active_slot c)
    (resource_mask c) (active_resource_mask c) (resource_done_times c) (issue_time c) (admitted_time c)
    (launch_done_time c) (transmit_start_time c) (scheduled_completion_time c) completion.

Definition set_contexts (u : DTEUnit) (m : gmap Z DteTransferContext) : DTEUnit :=
  mkDTEUnit (config_ u) m (pending_ u) (active_ u) (resource_owners_ u) (active_count_ u)
    (max_active_count_ u) (inflight_count_ u) (completed_count_ u) (next_xfer_id_ u) (last_served_slot_ u)
    (statistics_ u) (first_issue_time_ u) (last_completion_time_ u) (have_issue_time_ u).

(** [pending_.erase(std::find(...))]: the first occurrence. *)
Fixpoint erase_first (x : Z) (l : list Z) : list Z :=
  match l with [] => [] | y :: l' => if y =? x then l' else y :: erase_first x l' end.

Definition Cancel (now : Z) (u : DTEUnit) (id : Z) : result (DTEUnit * bool) :=
  match contexts_ u !! id with
  | None => Ok (u, false)
  | Some ctx =>
      if negb (bool_decide (state ctx = PENDING)) then Ok (u, false) else
      THROW logic_error "DTE pending context is absent from the pending queue"
        WHEN negb (bool_decide (id ∈ pending_ u));;
      let s := statistics_ u in
      Ok (mkDTEUnit (config_ u) (<[id := ctx_with_state ctx CANCELLED now]> (contexts_ u))
            (erase_first id (pending_ u)) (active_ u) (resource_owners_ u) (active_count_ u)
            (max_active_count_ u) (inflight_count_ u - 1) (completed_count_ u) (next_xfer_id_ u)
            (last_served_slot_ u)
            (mkStats (physical_issued s) (completed s) (u64 (cancelled s + 1)) (backpressure_stalls s))
            (first_issue_time_ u) (last_completion_time_ u) (have_issue_time_ u), true)
  end.

Definition Release (u : DTEUnit) (id : Z) : DTEUnit * bool :=
  match contexts_ u !! id with
  | None => (u, false)
  | Some ctx =>
      if negb (bool_decide (state ctx = COMPLETED)) && negb (bool_decide (state ctx = CANCELLED))
      then (u, false)
      else (set_contexts u (delete id (contexts_ u)), true)
  end.

(** ** Times and slots *)

(** In nanoseconds.  The source multiplies in [double], which is exact below [2^53], and rounds to
    the resolution of [sc_time]; here the product is exact. *)
Definition CyclesToTime (cycles : Z) : Z := cycles * CYCLE.

Definition launchTime (u : DTEUnit) : Z :=
  CyclesToTime (u64 (gamma_cycles (config_ u) + tau_launch_cycles (config_ u))).

Definition portWidth (u : DTEUnit) (port : nat) : result Z :=
  match port with
  | 0%nat => Ok (bit_width_bits (config_ u))
  | 1%nat => Ok (spm_read_width_bits (config_ u))
  | 2%nat => Ok (spm_write_width_bits (config_ u))
  | 3%nat => Ok (axi_read_width_bits (config_ u))
  | 4%nat => Ok (axi_write_width_bits (config_ u))
  | _ => Err (invalid_argument "DTE port is invalid")
  end.

Definition serviceTime (u : DTEUnit) (bits : Z) (port : nat) : result Z :=
  portWidth u port ≫= fun w => CeilDivU64 bits w ≫= fun cycles => Ok (CyclesToTime cycles).

(** The index of the first slot that satisfies [p]. *)
Fixpoint first_slot {A} (p : A -> bool) (l : list A) : option nat :=
  match l with [] => None | x :: l' => if p x then Some 0%nat else S <$> first_slot p l' end.

Definition is_null (o : option Z) : bool := match o with None => true | Some _ => false end.

Definition findFreeSlot (u : DTEUnit) : option nat := first_slot is_null (active_ u).

Definition resourcesAvailable (u : DTEUnit) (mask : Z) : bool :=
  forallb (fun i => negb (has_port mask i && negb (is_null (resource_owners_ u !!! i)))) (seq 0 PORT_COUNT).

(** Following a context pointer. *)
Definition deref (u : DTEUnit) (id : Z) : result DteTransferContext :=
  match contexts_ u !! id with Some c => Ok c | None => Err use_after_free end.

Fixpoint choose_loop (u : DTEUnit) (slots : list nat) : result (option nat) :=
  match slots with
  | [] => Ok None
  | slot :: slots' =>
      match active_ u !!! slot with
      | None => choose_loop u slots'
      | Some id =>
          deref u id ≫= fun ctx =>
          if bool_decide (state ctx = BUS_WAIT) && resourcesAvailable u (resource_mask ctx)
          then Ok (Some slot) else choose_loop u slots'
      end
  end.

(** The slots in the order [chooseReadySlot] looks at them. *)
Definition slot_order (u : DTEUnit) : list nat :=
  let count := Z.of_nat (length (active_ u)) in
  (fun offset => Z.to_nat (Z.rem (last_served_slot_ u + Z.of_nat offset + count) count)) <$>
    seq 1 (length (active_ u)).

Definition chooseReadySlot (u : DTEUnit) : result (option nat) := choose_loop u (slot_order u).

(** ** The scheduler *)

(** One round of [admitPending]'s loop: the head of the queue takes [slot]. *)
Definition admit_head (now : Z) (u : DTEUnit) (slot : nat) (id : Z) (rest : list Z) (c : DteTransferContext) : DTEUnit :=
  let k := command_slots_per_channel (config_ u) in
  let s := Z.of_nat slot in
  let c' := mkCtx (xfer_id c) (payload_bits c) (dir c) LAUNCHING (Z.quot s k) (Z.rem s k) s
    (resource_mask c) (active_resource_mask c) (resource_done_times c) (issue_time c) now
    (now + launchTime u) (transmit_start_time c) (scheduled_completion_time c) (completion_time c) in
  mkDTEUnit (config_ u) (<[id := c']> (contexts_ u)) rest (<[slot := Some id]> (active_ u))
    (resource_owners_ u) (active_count_ u + 1) (Z.max (max_active_count_ u) (active_count_ u + 1))
    (inflight_count_ u) (completed_count_ u) (next_xfer_id_ u) (last_served_slot_ u) (statistics_ u)
    (first_issue_time_ u) (last_completion_time_ u) (have_issue_time_ u).

(** The loop pops one queue entry per round: [fuel] is the queue's length. *)
Fixpoint admit_loop (fuel : nat) (now : Z) (u : DTEUnit) : result DTEUnit :=
  match fuel, pending_ u with
  | S fuel, id :: rest =>
      if active_count_ u <? Z.of_nat (length (active_ u)) then
        match findFreeSlot u with
        | None => Err (logic_error "DTE active count/free-slot mismatch")
        | Some slot => deref u id ≫= fun c => admit_loop fuel now (admit_head now u slot id rest c)
        end
      else Ok u
  | _, _ => Ok u
  end.
Definition admitPending (now : Z) (u : DTEUnit) : result DTEUnit := admit_loop (length (pending_ u)) now u.

(** [finishLaunches]: one slot of the loop. *)
Definition finish_launch (now : Z) (acc : DTEUnit * bool) (slot : nat) : result (DTEUnit * bool) :=
  let '(u, progressed) := acc in
  match active_ u !!! slot with
  | None => Ok acc
  | Some id =>
      deref u id ≫= fun c =>
      if negb (bool_decide (state c = LAUNCHING)) || (now <? launch_done_time c) then Ok acc
      else Ok (set_contexts u (<[id := ctx_with_state c BUS_WAIT (completion_time c)]> (contexts_ u)), true)
  end.
Definition finishLaunches (now : Z) (u : DTEUnit) : result (DTEUnit * bool) :=
  foldM (finish_launch now) (u, false) (seq 0 (length (active_ u))).

(** [startReadyTransfers]: claiming port [i] for the context [id]; the state
    carries the owners, the done times and the scheduled completion. *)
Definition claim_port (now : Z) (u : DTEUnit) (id : Z) (c : DteTransferContext)
    (acc : list (option Z) * list Z * Z) (i : nat) : result (list (option Z) * list Z * Z) :=
  let '(owners, done, completion) := acc in
  if negb (has_port (resource_mask c) i) then Ok acc else
  serviceTime u (payload_bits c) i ≫= fun t =>
  Ok (<[i := Some id]> owners, <[i := now + t]> done, Z.max completion (now + t)).

Definition start_transfer (now : Z) (u : DTEUnit) (slot : nat) : result DTEUnit :=
  match active_ u !!! slot with
  | None => Err use_after_free
  | Some id =>
      deref u id ≫= fun c =>
      THROW logic_error "DTE resource availability changed" WHEN negb (resourcesAvailable u (resource_mask c));;
      foldM (claim_port now u id c) (resource_owners_ u, resource_done_times c, 0) (seq 0 PORT_COUNT)
        ≫= fun '(owners, done, completion) =>
      let c' := mkCtx (xfer_id c) (payload_bits c) (dir c) TRANSMITTING (channel_id c) (command_slot c)
        (active_slot c) (resource_mask c) (resource_mask c) done (issue_time c) (admitted_time c)
        (launch_done_time c) now completion (completion_time c) in
      Ok (mkDTEUnit (config_ u) (<[id := c']> (contexts_ u)) (pending_ u) (active_ u) owners
            (active_count_ u) (max_active_count_ u) (inflight_count_ u) (completed_count_ u)
            (next_xfer_id_ u) (Z.of_nat slot) (statistics_ u) (first_issue_time_ u)
            (last_completion_time_ u) (have_issue_time_ u))
  end.

Definition out_of_fuel : exn := logic_error "out of fuel".

Fixpoint start_loop (fuel : nat) (now : Z) (u : DTEUnit) (progressed : bool) : result (DTEUnit * bool) :=
  match fuel with
  | O => Err out_of_fuel
  | S fuel =>
      chooseReadySlot u ≫= fun choice =>
      match choice with
      | None => Ok (u, progressed)
      | Some slot => start_transfer now u slot ≫= fun u' => start_loop fuel now u' true
      end
  end.

(** Every start takes a waiting transfer out of a slot, so there are at most
    as many as slots. *)
Definition startReadyTransfers (now : Z) (u : DTEUnit) : result (DTEUnit * bool) :=
  start_loop (S (length (active_ u))) now u false.

(** [finishPortServices]: port [i] of the transfer [id]. *)
Definition release_port (u : DTEUnit) (id : Z) (c : DteTransferContext) (i : nat) : DTEUnit :=
  let c' := mkCtx (xfer_id c) (payload_bits c) (dir c) (state c) (channel_id c) (command_slot c)
    (active_slot c) (resource_mask c) (Z.ldiff (active_resource_mask c) (DtePortBit i))
    (resource_done_times c) (issue_time c) (admitted_time c) (launch_done_time c)
    (transmit_start_time c) (scheduled_completion_time c) (completion_time c) in
  mkDTEUnit (config_ u) (<[id := c']> (contexts_ u)) (pending_ u) (active_ u)
    (<[i := None]> (resource_owners_ u)) (active_count_ u) (max_active_count_ u) (inflight_count_ u)
    (completed_count_ u) (next_xfer_id_ u) (last_served_slot_ u) (statistics_ u)
    (first_issue_time_ u) (last_completion_time_ u) (have_issue_time_ u).

Definition finish_port (now id : Z) (acc : DTEUnit * bool) (i : nat) : result (DTEUnit * bool) :=
  let '(u, progressed) := acc in
  deref u id ≫= fun c =>
  if negb (has_port (active_resource_mask c) i) || (now <? resource_done_times c !!! i) then Ok acc else
  THROW logic_error "DTE resource owner mismatch" WHEN negb (bool_decide (resource_owners_ u !!! i = Some id));;
  Ok (release_port u id c i, true).

Definition complete (now : Z) (u : DTEUnit) (slot : nat) (id : Z) (c : DteTransferContext) : DTEUnit :=
  let s := statistics_ u in
  mkDTEUnit (config_ u) (<[id := ctx_with_state c COMPLETED now]> (contexts_ u)) (pending_ u)
    (<[slot := None]> (active_ u)) (resource_owners_ u) (active_count_ u - 1) (max_active_count_ u)
    (inflight_count_ u - 1) (u64 (completed_count_ u + 1)) (next_xfer_id_ u) (last_served_slot_ u)
    (mkStats (physical_issued s) (u64 (completed s + 1)) (cancelled s) (backpressure_stalls s))
    (first_issue_time_ u) now (have_issue_time_ u).

Definition finish_slot (now : Z) (acc : DTEUnit * bool) (slot : nat) : result (DTEUnit * bool) :=
  let '(u, progressed) := acc in
  match active_ u !!! slot with
  | None => Ok acc
  | Some id =>
      deref u id ≫= fun c =>
      if negb (bool_decide (state c = TRANSMITTING)) then Ok acc else
      foldM (finish_port now id) acc (seq 0 PORT_COUNT) ≫= fun '((u', progressed') : DTEUnit * bool) =>
      deref u' id ≫= fun c' =>
      if negb (active_resource_mask c' =? 0) then Ok (u', progressed')
      else Ok (complete now u' slot id c', true)
  end.
Definition finishPortServices (now : Z) (u : DTEUnit) : result (DTEUnit * bool) :=
  foldM (finish_slot now) (u, false) (seq 0 (length (active_ u))).

(** One round of the scheduler's inner [do ... while (progressed)] loop. *)
Definition sched_round (now : Z) (u : DTEUnit) : result (DTEUnit * bool) :=
  finishPortServices now u ≫= fun '((u, p1) : DTEUnit * bool) =>
  finishLaunches now u ≫= fun '((u, p2) : DTEUnit * bool) =>
  (if negb (bool_decide (pending_ u = [])) && (active_count_ u <? Z.of_nat (length (active_ u)))
   then admitPending now u ≫= fun u => Ok (u, true) else Ok (u, false)) ≫= fun '((u, p3) : DTEUnit * bool) =>
  startReadyTransfers now u ≫= fun '((u, p4) : DTEUnit * bool) => Ok (u, p1 || p2 || p3 || p4).

Fixpoint quiesce (fuel : nat) (now : Z) (u : DTEUnit) : result DTEUnit :=
  match fuel with
  | O => Err out_of_fuel
  | S fuel => sched_round now u ≫= fun '((u, progressed) : DTEUnit * bool) => if progressed then quiesce fuel now u else Ok u
  end.

(** The earliest deadline of the active transfers. *)
Definition earlier (d : option Z) (t : Z) : option Z :=
  match d with None => Some t | Some d' => if t <? d' then Some t else d end.

Definition slot_deadline (u : DTEUnit) (d : option Z) (o : option Z) : result (option Z) :=
  match o with
  | None => Ok d
  | Some id =>
      deref u id ≫= fun c =>
      if bool_decide (state c = LAUNCHING) then Ok (earlier d (launch_done_time c))
      else if bool_decide (state c = TRANSMITTING) then
        Ok (foldl (fun d i => if negb (has_port (active_resource_mask c) i) then d
                              else earlier d (resource_done_times c !!! i)) d (seq 0 PORT_COUNT))
      else Ok d
  end.
Definition next_deadline (u : DTEUnit) : result (option Z) := foldM (slot_deadline u) None (active_ u).

(** [scheduler] from one wake-up at time [now] to its next [wait]: the state
    it leaves and the time it will wake up at ([None]: only when notified). *)
Fixpoint scheduler (fuel : nat) (now : Z) (u : DTEUnit) : result (DTEUnit * option Z) :=
  match fuel with
  | O => Err out_of_fuel
  | S fuel' =>
      quiesce fuel now u ≫= fun u =>
      next_deadline u ≫= fun d =>
      match d with
      | Some t => if t <=? now then scheduler fuel' now u else Ok (u, Some t)
      | None => Ok (u, None)
      end
  end.

Definition PortBusy (u : DTEUnit) (port : nat) : bool :=
  if (PORT_COUNT <=? port)%nat then false else negb (is_null (resource_owners_ u !!! port)).
Definition BusBusy (u : DTEUnit) : bool := existsb (fun o => negb (is_null o)) (resource_owners_ u).

(** ** Port masks: sets of the five ports *)

Definition port_set (m : Z) : Prop := in_u 5 m.

(** A statement about five-bit masks is checked on all of them. *)
Lemma mask_cases (P : Z -> bool) : forallb P (seqZ 0 32) = true -> forall m, port_set m -> P m = true.
Proof.
  intros H m Hm. rewrite forallb_forall in H. apply H, list_elem_of_In, elem_of_seqZ.
  unfold port_set, in_u in Hm. lia.
Qed.

Lemma mask_cases2 (P : Z -> Z -> bool) : forallb (fun m => forallb (P m) (seqZ 0 32)) (seqZ 0 32) = true ->
  forall m n, port_set m -> port_set n -> P m n = true.
Proof.
  intros H m n Hm Hn. revert n Hn. apply mask_cases. revert m Hm.
  apply (mask_cases (fun m => forallb (P m) (seqZ 0 32))), H.
Qed.

(** The number of ports in a mask. *)
Definition ports_in (m : Z) : Z := Z.of_nat (length (List.filter (has_port m) (seq 0 PORT_COUNT))).

Lemma ports_in_range m : 0 <= ports_in m <= 5.
Proof.
  unfold ports_in. pose proof (List.filter_length_le (has_port m) (seq 0 PORT_COUNT)) as H.
  change (length (seq 0 PORT_COUNT)) with 5%nat in H. lia.
Qed.

Lemma has_port_testbit m i : has_port m i = Z.testbit m (Z.of_nat i).
Proof. unfold has_port, DtePortBit. rewrite land_shiftl_testbit by lia. apply negb_involutive. Qed.

Lemma has_port_lt m i : port_set m -> has_port m i = true -> (i < 5)%nat.
Proof.
  intros Hm. rewrite has_port_testbit. intros Hb. apply not_ge. intros Hi.
  rewrite (in_u_testbit 5) in Hb; [done|done|lia].
Qed.

Lemma port_set_ldiff m i : port_set m -> port_set (Z.ldiff m (DtePortBit i)).
Proof.
  intros Hm. apply in_u_bits; [lia|apply Z.ldiff_nonneg; left; apply Hm|].
  intros j Hj. rewrite Z.ldiff_spec, (in_u_testbit 5) by done. done.
Qed.

Lemma has_port_ldiff m i j : has_port (Z.ldiff m (DtePortBit i)) j = has_port m j && negb (bool_decide (i = j)).
Proof.
  rewrite !has_port_testbit, Z.ldiff_spec. f_equal. f_equal. unfold DtePortBit.
  rewrite Z.shiftl_1_l, Z.pow2_bits_eqb by lia. case_bool_decide; [apply Z.eqb_eq; lia|apply Z.eqb_neq; lia].
Qed.

Lemma mask_zero m : port_set m -> m = 0 <-> forall i, has_port m i = false.
Proof.
  intros Hm. split.
  - intros -> i. rewrite has_port_testbit. apply Z.bits_0.
  - intros H. apply Z.bits_inj'. intros j Hj. rewrite Z.bits_0. specialize (H (Z.to_nat j)).
    rewrite has_port_testbit in H. by rewrite Z2Nat.id in H.
Qed.

Lemma ports_in_release m i : port_set m -> has_port m i = true ->
  ports_in (Z.ldiff m (DtePortBit i)) = ports_in m - 1.
Proof.
  intros Hm Hi. pose proof (has_port_lt m i Hm Hi) as Hlt.
  assert (forallb (fun m => forallb (fun i => negb (has_port m i) ||
     (ports_in (Z.ldiff m (DtePortBit i)) =? ports_in m - 1)) (seq 0 5)) (seqZ 0 32) = true) as Hall by (by vm_compute).
  pose proof (mask_cases _ Hall m Hm) as H. rewrite forallb_forall in H.
  specialize (H i). rewrite Hi in H. cbn [negb orb] in H. apply Z.eqb_eq, H. apply in_seq. lia.
Qed.

Lemma ports_in_pos m : port_set m -> m <> 0 -> 1 <= ports_in m.
Proof.
  intros Hm H0. assert (forallb (fun m => (m =? 0) || (1 <=? ports_in m)) (seqZ 0 32) = true) as Hall by (by vm_compute).
  pose proof (mask_cases _ Hall m Hm) as H. cbn beta in H. apply orb_true_iff in H as [H|H]; [by apply Z.eqb_eq in H|lia].
Qed.

Lemma RequiredPorts_ok d fg : exists m, RequiredPorts d fg = Ok m /\ port_set m /\ m <> 0 /\
  (fg = false -> m = 1) /\ (fg = true -> has_port m 0 = false).
Proof. destruct d, fg; eexists; (split; [reflexivity|]); vm_compute; repeat split; try done. Qed.

(** ** Lists of optional ids *)

Definition occupied (l : list (option Z)) : Z := Z.of_nat (length (omap id l)).

Lemma occupied_insert_some l i x : l !! i = Some None -> occupied (<[i := Some x]> l) = occupied l + 1.
Proof.
  unfold occupied. revert i; induction l as [|y l IH]; intros [|i] H; cbn in *; [done|done|by simplify_eq; cbn; lia|].
  destruct y as [y|]; cbn; rewrite ?Nat2Z.inj_succ; rewrite IH by done; lia.
Qed.

Lemma occupied_insert_none l i x : l !! i = Some (Some x) -> occupied (<[i := None]> l) = occupied l - 1.
Proof.
  unfold occupied. revert i; induction l as [|y l IH]; intros [|i] H; cbn in *; [done|done|by simplify_eq; cbn; lia|].
  destruct y as [y|]; cbn; rewrite ?Nat2Z.inj_succ; rewrite IH by done; lia.
Qed.

Lemma occupied_le l : 0 <= occupied l <= Z.of_nat (length l).
Proof. unfold occupied. induction l as [|[y|] l IH]; cbn; lia. Qed.

Lemma occupied_free l : occupied l < Z.of_nat (length l) <-> exists i, l !! i = Some None.
Proof.
  unfold occupied. induction l as [|[y|] l IH]; cbn.
  - split; [lia|]. intros [i Hi]. by rewrite lookup_nil in Hi.
  - split.
    + intros H. assert (Z.of_nat (length (omap id l)) < Z.of_nat (length l)) as [i Hi]%IH by lia. by exists (S i).
    + intros [[|i] Hi]; [done|]. cut (Z.of_nat (length (omap id l)) < Z.of_nat (length l)); [lia|]. apply IH. by exists i.
  - split; [by exists 0%nat|]. intros _. pose proof (occupied_le l) as H. unfold occupied in H. lia.
Qed.

Lemma occupied_pos l : 0 < occupied l <-> exists i x, l !! i = Some (Some x).
Proof.
  unfold occupied. induction l as [|[y|] l IH]; cbn.
  - split; [lia|]. intros (i & x & Hi). by rewrite lookup_nil in Hi.
  - split; [by exists 0%nat, y|lia].
  - rewrite IH. split; [intros (i & x & Hi); by exists (S i), x|]. intros ([|i] & x & Hi); [done|by exists i, x].
Qed.

Lemma first_slot_spec {A} (p : A -> bool) l :
  match first_slot p l with
  | Some i => exists x, l !! i = Some x /\ p x = true
  | None => forall x, x ∈ l -> p x = false
  end.
Proof.
  induction l as [|x l IH]; cbn; [by intros ? ?%elem_of_nil|].
  destruct (p x) eqn:E; [by exists x|].
  destruct (first_slot p l) as [i|]; cbn; [done|].
  intros y [->|Hy]%elem_of_cons; [done|by apply IH].
Qed.

Lemma erase_first_perm x l : x ∈ l -> l ≡ₚ x :: erase_first x l.
Proof.
  induction l as [|y l IH]; [by intros ?%elem_of_nil|]. cbn. destruct (Z.eqb_spec y x) as [->|Hne]; [done|].
  intros [->|Hx]%elem_of_cons; [done|]. rewrite (IH Hx) at 1. by rewrite Permutation_swap.
Qed.

Lemma erase_first_elem x l y : NoDup l -> y ∈ erase_first x l <-> y ∈ l /\ y <> x.
Proof.
  induction 1 as [|z l Hz Hl IH]; cbn.
  - split; [by intros ?%elem_of_nil|by intros [?%elem_of_nil _]].
  - destruct (Z.eqb_spec z x) as [->|Hne]; rewrite elem_of_cons; [|rewrite elem_of_cons, IH; naive_solver].
    split; [intros Hy; split; [by right|congruence]|]. intros [[->|?] ?]; done.
Qed.

Lemma erase_first_NoDup x l : NoDup l -> NoDup (erase_first x l).
Proof.
  induction 1 as [|z l Hz Hl IH]; cbn; [by constructor|].
  destruct (z =? x); [done|]. constructor; [|done]. rewrite erase_first_elem by done. naive_solver.
Qed.

(** ** The invariant *)

Definition in_slot (s : DteTransferState) : bool :=
  match s with LAUNCHING | BUS_WAIT | TRANSMITTING => true | _ => false end.

Record ctx_wf (cfg : DTEConfig) (c : DteTransferContext) : Prop := {
  wf_payload : 0 < payload_bits c < 2 ^ 64;
  wf_mask : RequiredPorts (dir c) (fine_grained_resources cfg) = Ok (resource_mask c);
  wf_active_mask : port_set (active_resource_mask c);
  wf_active_sub : forall i, has_port (active_resource_mask c) i = true -> has_port (resource_mask c) i = true;
  wf_done : length (resource_done_times c) = PORT_COUNT
}.

(** What the queue, the slots and the port owners say about one id. *)
Record id_wf (u : DTEUnit) (id : Z) : Prop := {
  id_pending : id ∈ pending_ u <-> exists c, contexts_ u !! id = Some c /\ state c = PENDING;
  id_slot : forall s, active_ u !! s = Some (Some id) <->
    exists c, contexts_ u !! id = Some c /\ in_slot (state c) = true /\ active_slot c = Z.of_nat s;
  id_owner : forall i, resource_owners_ u !! i = Some (Some id) <->
    exists c, contexts_ u !! id = Some c /\ state c = TRANSMITTING /\ has_port (active_resource_mask c) i = true;
  id_ctx : forall c, contexts_ u !! id = Some c ->
    xfer_id c = id /\ 0 <= id < next_xfer_id_ u /\ ctx_wf (config_ u) c /\
    (in_slot (state c) = true -> 0 <= active_slot c)
}.

Record dte_inv (u : DTEUnit) : Prop := {
  inv_config : ValidateConfig (config_ u) = Ok tt;
  inv_slots : length (active_ u) = Z.to_nat (slot_count (config_ u));
  inv_ports : length (resource_owners_ u) = PORT_COUNT;
  inv_ids : forall id, id_wf u id;
  inv_pending : NoDup (pending_ u);
  inv_active : active_count_ u = occupied (active_ u);
  inv_inflight : inflight_count_ u = Z.of_nat (length (pending_ u)) + occupied (active_ u);
  inv_capacity : inflight_count_ u <= descriptorCapacity u;
  inv_next : 0 <= next_xfer_id_ u <= UINT64_MAX;
  inv_served : -1 <= last_served_slot_ u < Z.of_nat (length (active_ u));
  inv_issued : physical_issued (statistics_ u) = next_xfer_id_ u;
  inv_ended : completed (statistics_ u) + cancelled (statistics_ u) + inflight_count_ u = next_xfer_id_ u;
  inv_completed : completed_count_ u = completed (statistics_ u);
  inv_counts : 0 <= completed (statistics_ u) /\ 0 <= cancelled (statistics_ u)
}.

(** Between rounds a transmitting transfer holds at least one port. *)
Definition holds_port (u : DTEUnit) (id : Z) : Prop :=
  forall c, contexts_ u !! id = Some c -> state c = TRANSMITTING -> active_resource_mask c <> 0.
Record dte_ok (u : DTEUnit) : Prop := mkOk { ok_inv : dte_inv u; ok_holds : forall id, holds_port u id }.

Lemma id_wf_frame u u' id : id_wf u id -> config_ u' = config_ u ->
  contexts_ u' !! id = contexts_ u !! id -> next_xfer_id_ u <= next_xfer_id_ u' ->
  (id ∈ pending_ u' <-> id ∈ pending_ u) ->
  (forall s, active_ u' !! s = Some (Some id) <-> active_ u !! s = Some (Some id)) ->
  (forall i, resource_owners_ u' !! i = Some (Some id) <-> resource_owners_ u !! i = Some (Some id)) ->
  id_wf u' id.
Proof.
  intros [H1 H2 H3 H4] Hcfg Hc Hn Hp Ha Ho. split.
  - by rewrite Hp, Hc.
  - intros s. by rewrite Ha, Hc.
  - intros i. by rewrite Ho, Hc.
  - intros c Hcc. rewrite Hc in Hcc. destruct (H4 c Hcc) as (? & ? & ? & ?). rewrite Hcfg. split_and!; [done|lia|lia|done|done].
Qed.

(** The slot of an active context. *)
Lemma active_in_slot u id c : dte_inv u -> contexts_ u !! id = Some c -> in_slot (state c) = true ->
  exists s, active_ u !! s = Some (Some id) /\ active_slot c = Z.of_nat s.
Proof.
  intros Hi Hc Hs. destruct (inv_ids u Hi id) as [_ H2 _ H4].
  destruct (H4 c Hc) as (_ & _ & _ & H). specialize (H Hs).
  exists (Z.to_nat (active_slot c)). split; [|lia]. apply H2. exists c. split_and!; [done|done|lia].
Qed.

Lemma slot_lookup u s id : dte_inv u -> active_ u !! s = Some (Some id) ->
  exists c, contexts_ u !! id = Some c /\ in_slot (state c) = true /\ active_slot c = Z.of_nat s /\
    deref u id = Ok c.
Proof.
  intros Hi Hs. apply (id_slot u id (inv_ids u Hi id)) in Hs as (c & Hc & Hst & Hsl).
  exists c. unfold deref. by rewrite Hc.
Qed.

Lemma slot_total (l : list (option Z)) s id : l !!! s = Some id <-> l !! s = Some (Some id).
Proof. rewrite list_lookup_total_alt. destruct (l !! s) as [[x|]|]; cbn; split; congruence. Qed.

(** Transfers in different slots, and the port owners, are different. *)
Lemma slot_unique u s s' id : dte_inv u ->
  active_ u !! s = Some (Some id) -> active_ u !! s' = Some (Some id) -> s = s'.
Proof.
  intros Hi H1 H2. destruct (slot_lookup u s id Hi H1) as (c & Hc & _ & Hs & _).
  destruct (slot_lookup u s' id Hi H2) as (c' & Hc' & _ & Hs' & _). rewrite Hc in Hc'. simplify_eq. lia.
Qed.

Lemma config_facts c : ValidateConfig c = Ok tt ->
  channel_count c <> 0 /\ bit_width_bits c <> 0 /\ command_slots_per_channel c <> 0 /\
  gamma_cycles c + tau_launch_cycles c <= UINT64_MAX /\
  (fine_grained_resources c = true -> spm_read_width_bits c <> 0 /\ spm_write_width_bits c <> 0 /\
     axi_read_width_bits c <> 0 /\ axi_write_width_bits c <> 0).
Proof.
  unfold ValidateConfig. intros H. inv_ok. split_guards. split_and!; try done; try lia.
  intros Hf. rewrite Hf in Hr. inv_ok. split_guards. done.
Qed.

(** *** The integers have the ranges of their C++ types *)
Record config_typed (c : DTEConfig) : Prop := {
  typed_channels : in_u 32 (channel_count c);
  typed_slots : in_u 32 (command_slots_per_channel c);
  typed_widths : in_u 32 (bit_width_bits c) /\ in_u 32 (spm_read_width_bits c) /\
    in_u 32 (spm_write_width_bits c) /\ in_u 32 (axi_read_width_bits c) /\ in_u 32 (axi_write_width_bits c);
  typed_cycles : in_u 64 (gamma_cycles c) /\ in_u 64 (tau_launch_cycles c);
  typed_depth : in_u 32 (pending_queue_depth c);
  (* slot numbers and the sums of [chooseReadySlot] are ints in the code *)
  typed_small : 3 * slot_count c <= INT_MAX
}.

Lemma slot_count_pos c : config_typed c -> ValidateConfig c = Ok tt -> 0 < slot_count c.
Proof.
  intros [[Hc0 Hc1] [Hs0 Hs1] _ _ _] H. destruct (config_facts c H) as (? & _ & ? & _).
  unfold slot_count. rewrite u64_id; [nia|]. unfold UINT64_MAX. nia.
Qed.

Lemma portWidth_pos u i mask d : ValidateConfig (config_ u) = Ok tt -> config_typed (config_ u) ->
  RequiredPorts d (fine_grained_resources (config_ u)) = Ok mask -> has_port mask i = true ->
  exists w, portWidth u i = Ok w /\ 0 < w < 2 ^ 32.
Proof.
  intros Hv Ht Hm Hi. destruct (config_facts _ Hv) as (_ & Hb & _ & _ & Hf).
  destruct (typed_widths _ Ht) as ([? ?] & [? ?] & [? ?] & [? ?] & [? ?]).
  destruct (RequiredPorts_ok d (fine_grained_resources (config_ u))) as (m & Hm' & Hps & _ & Hleg & Hfin).
  rewrite Hm' in Hm. injection Hm as ->. pose proof (has_port_lt mask i Hps Hi) as Hlt.
  destruct (fine_grained_resources (config_ u)).
  - specialize (Hf eq_refl). specialize (Hfin eq_refl). destruct Hf as (? & ? & ? & ?).
    destruct i as [|[|[|[|[|i]]]]]; [congruence|..|lia]; eexists; (split; [reflexivity|lia]).
  - rewrite (Hleg eq_refl) in Hi. destruct i as [|[|[|[|[|i]]]]]; [|vm_compute in Hi; discriminate..|lia].
    eexists; (split; [reflexivity|lia]).
Qed.

Lemma serviceTime_ok u i mask d bits : ValidateConfig (config_ u) = Ok tt -> config_typed (config_ u) ->
  RequiredPorts d (fine_grained_resources (config_ u)) = Ok mask -> has_port mask i = true ->
  0 < bits < 2 ^ 64 ->
  exists w, portWidth u i = Ok w /\ serviceTime u bits i = Ok (ceil_div bits w * CYCLE) /\ 0 < ceil_div bits w * CYCLE.
Proof.
  intros Hv Ht Hm Hi Hb. destruct (portWidth_pos u i mask d Hv Ht Hm Hi) as (w & Hw & Hw0).
  exists w. split; [done|]. unfold serviceTime, CeilDivU64. rewrite Hw. cbn [mbind result_bind].
  rewrite throw_bind_false by (apply Z.eqb_neq; lia). fold (ceil_div bits w).
  pose proof (ceil_div_pos bits w ltac:(lia) ltac:(lia)). pose proof (ceil_div_le bits w ltac:(lia) ltac:(lia)).
  rewrite u64_id by (unfold UINT64_MAX; lia). cbn [mbind result_bind]. unfold CyclesToTime, CYCLE. split; [done|lia].
Qed.

(** ** The operations preserve the invariant *)

Lemma new_DTEUnit_ok c u : config_typed c -> new_DTEUnit c = Ok u -> dte_ok u /\ config_ u = c.
Proof.
  intros Ht H. unfold new_DTEUnit in H. inv_ok. destruct r. pose proof (slot_count_pos c Ht Hr).
  split; [|done]. split; [|intros id c' Hc; cbn in Hc; by rewrite lookup_empty in Hc]. split; cbn; try done; try lia.
  - by rewrite length_replicate.
  - intros id. split; cbn.
    + split; [by intros ?%elem_of_nil|intros (? & ? & _); done].
    + intros s. split; [intros Hs; by apply lookup_replicate in Hs as [[=] _]|intros (? & ? & _); done].
    + intros s. split; [|intros (? & ? & _); done]. intros Hs.
      by destruct s as [|[|[|[|[|s]]]]].
    + done.
  - constructor.
  - unfold occupied. by induction (Z.to_nat (slot_count c)).
  - unfold occupied. by induction (Z.to_nat (slot_count c)).
  - unfold descriptorCapacity; cbn. rewrite length_replicate. pose proof (typed_depth c Ht) as [??].
    unfold UINT64_MAX. repeat case_match; lia.
Qed.

(** An update that only counts a stall. *)
Lemma WaitForCredit_ok u : dte_ok u -> dte_ok (WaitForCredit u).1 /\
  contexts_ (WaitForCredit u).1 = contexts_ u /\ config_ (WaitForCredit u).1 = config_ u.
Proof.
  intros [Hi Hh]. unfold WaitForCredit. destruct (CanAccept u); [done|]. cbn. split; [|done].
  split; [|exact Hh]. destruct Hi. split; try done. intros id. by eapply id_wf_frame.
Qed.

Lemma has_port_0 i : has_port 0 i = false.
Proof. rewrite has_port_testbit. apply Z.bits_0. Qed.

Lemma TryIssue_ok now u bits d r : config_typed (config_ u) -> dte_ok u -> 0 <= bits < 2 ^ 64 ->
  TryIssue now u bits d = Ok r ->
  dte_ok r.1 /\ config_ r.1 = config_ u /\
  match r.2 with
  | None => r.1 = u /\ CanAccept u = false
  | Some id => CanAccept u = true /\ contexts_ u !! id = None /\ exists c, contexts_ r.1 = <[id := c]> (contexts_ u) /\
      state c = PENDING /\ payload_bits c = bits /\ dir c = d /\ issue_time c = now
  end.
Proof.
  intros Ht [Hi Hh] Hb H. unfold TryIssue in H. inv_ok.
  destruct (CanAccept u) eqn:Hacc; cbn [negb] in H; [|injection H as <-; done].
  inv_ok. cbn. split_guards. pose proof (inv_next u Hi) as Hn.
  assert (contexts_ u !! next_xfer_id_ u = None) as Hfresh.
  { destruct (contexts_ u !! next_xfer_id_ u) as [c|] eqn:E; [|done].
    destruct (id_ctx u _ (inv_ids u Hi _) c E) as (_ & Hlt & _). lia. }
  assert (next_xfer_id_ u ∉ pending_ u) as Hnp.
  { intros Hp. apply (id_pending u _ (inv_ids u Hi _)) in Hp as (c & Hc & _). congruence. }
  destruct (RequiredPorts_ok d (fine_grained_resources (config_ u))) as (m & Hm & Hps & _).
  rewrite Hm in Hr. injection Hr as <-.
  split; [|by split_and!; [| | |eexists]]. split.
  2:{ intros id c Hc Hs. cbn in Hc. apply lookup_insert_Some in Hc as [[<- <-]|[_ Hc]]; [done|by eapply Hh]. }
  unfold CanAccept in Hacc. apply Z.ltb_lt in Hacc.
  destruct Hi as [? ? ? Hids Hnd ? Hinf ? ? ? Hiss Hend ? ?]. split; cbn; try done; try lia.
  - intros id. destruct (decide (id = next_xfer_id_ u)) as [->|Hne].
    + destruct (Hids (next_xfer_id_ u)) as [H1 H2 H3 H4]. split; cbn.
      * rewrite lookup_insert_eq. split; [intros _; by eexists|]. intros _. apply elem_of_app; right; by left.
      * intros s. rewrite lookup_insert_eq, H2, Hfresh. split; [by intros (? & [=] & _)|].
        intros (c & [= <-] & Hc & _). done.
      * intros s. rewrite lookup_insert_eq, H3, Hfresh. split; [by intros (? & [=] & _)|].
        intros (c & [= <-] & Hc & _). done.
      * intros c Hc. rewrite lookup_insert_eq in Hc. injection Hc as <-. cbn. split_and!; [done|lia|lia| |done].
        split; cbn; [lia|done|by vm_compute| |done]. intros i Hp. by rewrite has_port_0 in Hp.
    + eapply id_wf_frame; [exact (Hids id)|done| |cbn; lia| |done|done]; cbn.
      * by rewrite lookup_insert_ne by done.
      * rewrite elem_of_app, list_elem_of_singleton. naive_solver.
  - apply list.NoDup_app. split_and!; [done| |apply NoDup_singleton].
    by intros x Hx ->%list_elem_of_singleton.
  - rewrite length_app, Hinf. cbn. lia.
  - unfold descriptorCapacity in *; cbn in *. lia.
  - rewrite Hiss. unfold wrap. apply Z.mod_small. unfold UINT64_MAX in *. lia.
Qed.

(** The facts about the id [id] whose context becomes [c']. *)
Lemma id_wf_update u' id c' : contexts_ u' !! id = Some c' ->
  xfer_id c' = id -> 0 <= id < next_xfer_id_ u' -> ctx_wf (config_ u') c' ->
  (in_slot (state c') = true -> 0 <= active_slot c') ->
  (id ∈ pending_ u' <-> state c' = PENDING) ->
  (forall s, active_ u' !! s = Some (Some id) <-> in_slot (state c') = true /\ active_slot c' = Z.of_nat s) ->
  (forall i, resource_owners_ u' !! i = Some (Some id) <->
     state c' = TRANSMITTING /\ has_port (active_resource_mask c') i = true) ->
  id_wf u' id.
Proof.
  intros Hc Hx Hid Hwf Hs Hp Ha Ho. split.
  - rewrite Hp, Hc. naive_solver.
  - intros s. rewrite Ha, Hc. naive_solver.
  - intros i. rewrite Ho, Hc. naive_solver.
  - intros c Hcc. rewrite Hc in Hcc. by simplify_eq.
Qed.

(** The same facts read off for the current context. *)
Lemma id_wf_facts u id c : id_wf u id -> contexts_ u !! id = Some c ->
  (id ∈ pending_ u <-> state c = PENDING) /\
  (forall s, active_ u !! s = Some (Some id) <-> in_slot (state c) = true /\ active_slot c = Z.of_nat s) /\
  (forall i, resource_owners_ u !! i = Some (Some id) <->
     state c = TRANSMITTING /\ has_port (active_resource_mask c) i = true) /\
  xfer_id c = id /\ 0 <= id < next_xfer_id_ u /\ ctx_wf (config_ u) c /\
  (in_slot (state c) = true -> 0 <= active_slot c).
Proof.
  intros [H1 H2 H3 H4] Hc. destruct (H4 c Hc) as (Hx & Hid & Hwf & Hs).
  split_and!; try done; try lia; [rewrite H1|intros s; rewrite H2|intros i; rewrite H3]; rewrite Hc; naive_solver.
Qed.

Lemma ctx_wf_eq cfg c c' : ctx_wf cfg c -> payload_bits c' = payload_bits c -> dir c' = dir c ->
  resource_mask c' = resource_mask c ->
  (active_resource_mask c' = active_resource_mask c \/ active_resource_mask c' = resource_mask c) ->
  length (resource_done_times c') = length (resource_done_times c) -> ctx_wf cfg c'.
Proof.
  intros [H1 H2 H3 H4 H5] Hp Hd Hm Ha Hl. split.
  - by rewrite Hp.
  - by rewrite Hd, Hm.
  - destruct Ha as [->| ->]; [done|].
    destruct (RequiredPorts_ok (dir c) (fine_grained_resources cfg)) as (m & Hm' & Hps & _).
    rewrite Hm' in H2. by injection H2 as <-.
  - rewrite Hm. destruct Ha as [->| ->]; [done|done].
  - by rewrite Hl.
Qed.

Lemma Cancel_ok now u id r : dte_ok u -> Cancel now u id = r ->
  exists u' b, r = Ok (u', b) /\ dte_ok u' /\ config_ u' = config_ u /\
  match contexts_ u !! id with
  | Some c => if decide (state c = PENDING)
              then b = true /\ contexts_ u' = <[id := ctx_with_state c CANCELLED now]> (contexts_ u)
              else b = false /\ u' = u
  | None => b = false /\ u' = u
  end.
Proof.
  intros [Hi Hh] <-. unfold Cancel. destruct (contexts_ u !! id) as [c|] eqn:Hc; [|by exists u, false].
  destruct (decide (state c = PENDING)) as [Hp|Hp].
  2:{ rewrite bool_decide_false by done. by exists u, false. }
  rewrite bool_decide_true by done. cbn [negb].
  destruct (id_wf_facts u id c (inv_ids u Hi id) Hc) as (Hpend & Hact & Hown & Hx & Hid & Hwf & Hs).
  assert (id ∈ pending_ u) as Hin by (by apply Hpend).
  rewrite (bool_decide_true (id ∈ pending_ u)) by done. rewrite throw_bind_false by done.
  eexists _, true. split; [reflexivity|]. split; [|done]. split.
  2:{ intros j c' Hj Hst. cbn in Hj. apply lookup_insert_Some in Hj as [[<- <-]|[_ Hj]]; [done|by eapply Hh]. }
  pose proof (Permutation_length (erase_first_perm id (pending_ u) Hin)) as Hlen. cbn in Hlen.
  destruct Hi as [? ? ? Hids Hnd ? Hinf Hcap Hnx ? Hiss Hend ? [? ?]].
  pose proof (occupied_le (active_ u)) as Hocc. split; cbn; try done; try lia.
  - intros j. destruct (decide (j = id)) as [->|Hne].
    + eapply id_wf_update; cbn; [by rewrite lookup_insert_eq|done|done| |done| |intros s|intros i].
      * by eapply ctx_wf_eq; [done|..]; try done; left.
      * rewrite erase_first_elem by done. cbn. naive_solver.
      * rewrite Hact, Hp. cbn. naive_solver.
      * rewrite Hown, Hp. cbn. naive_solver.
    + eapply id_wf_frame; [exact (Hids j)|done| |cbn; lia| |done|done]; cbn.
      * by rewrite lookup_insert_ne by done.
      * rewrite erase_first_elem by done. naive_solver.
  - by apply erase_first_NoDup.
  - unfold descriptorCapacity in *; cbn in *. lia.
  - rewrite u64_id by (unfold UINT64_MAX in *; lia). lia.
  - rewrite u64_id by (unfold UINT64_MAX in *; lia). lia.
Qed.

Lemma Release_ok u id : dte_ok u -> dte_ok (Release u id).1 /\ config_ (Release u id).1 = config_ u.
Proof.
  intros [Hi Hh]. unfold Release. destruct (contexts_ u !! id) as [c|] eqn:Hc; [|done].
  destruct (negb (bool_decide (state c = COMPLETED)) && negb (bool_decide (state c = CANCELLED))) eqn:Hst; [done|].
  assert (state c = COMPLETED \/ state c = CANCELLED) as Hend.
  { apply andb_false_iff in Hst as [H|H]; apply negb_false_iff, bool_decide_eq_true in H; auto. }
  destruct (id_wf_facts u id c (inv_ids u Hi id) Hc) as (Hpend & Hact & Hown & _).
  cbn. split; [|done]. split.
  2:{ intros j c' Hj Hs. cbn in Hj. apply lookup_delete_Some in Hj as [_ Hj]. by eapply Hh. }
  destruct Hi as [? ? ? Hids]. split; try done. intros j. destruct (decide (j = id)) as [->|Hne].
  - split; cbn.
    + rewrite lookup_delete_eq, Hpend. destruct Hend as [-> | ->]; naive_solver.
    + intros s. rewrite lookup_delete_eq, Hact. destruct Hend as [-> | ->]; naive_solver.
    + intros i. rewrite lookup_delete_eq, Hown. destruct Hend as [-> | ->]; naive_solver.
    + intros c'. by rewrite lookup_delete_eq.
  - eapply id_wf_frame; [exact (Hids j)|done| |cbn; lia|done|done|done]; cbn.
    by rewrite lookup_delete_ne by done.
Qed.

(** ** Steps of the scheduler *)

(** The work a transfer still needs. *)
Definition rank (c : DteTransferContext) : Z :=
  match state c with
  | PENDING => 9 | LAUNCHING => 8 | BUS_WAIT => 7
  | TRANSMITTING => 1 + ports_in (active_resource_mask c)
  | COMPLETED | CANCELLED => 0
  end.
Definition measure (u : DTEUnit) : Z := map_sum rank (contexts_ u).

Lemma rank_nonneg c : 0 <= rank c.
Proof. unfold rank. pose proof (ports_in_range (active_resource_mask c)). destruct (state c); lia. Qed.

Lemma measure_nonneg u : 0 <= measure u.
Proof. apply map_sum_nonneg. intros; apply rank_nonneg. Qed.

(** What the scheduler may change of one transfer, and of all of them. *)
Definition ctx_evolves (c c' : DteTransferContext) : Prop :=
  payload_bits c' = payload_bits c /\ dir c' = dir c /\ xfer_id c' = xfer_id c /\
  (state c = COMPLETED \/ state c = CANCELLED -> c' = c) /\
  (state c' = CANCELLED -> state c = CANCELLED).

Record evolves (u u' : DTEUnit) : Prop := {
  ev_config : config_ u' = config_ u;
  ev_next : next_xfer_id_ u' = next_xfer_id_ u;
  ev_slots : length (active_ u') = length (active_ u);
  ev_ctx : forall id, match contexts_ u !! id, contexts_ u' !! id with
           | Some c, Some c' => ctx_evolves c c' | None, None => True | _, _ => False end
}.

#[export] Instance evolves_preorder : PreOrder evolves.
Proof.
  split.
  - intros u. split; try done. intros id. by destruct (contexts_ u !! id).
  - intros u1 u2 u3 [H1 H2 H3 H4] [H1' H2' H3' H4']. split; [congruence..|]. intros id.
    specialize (H4 id). specialize (H4' id).
    destruct (contexts_ u1 !! id), (contexts_ u2 !! id), (contexts_ u3 !! id); try done.
    destruct H4 as (? & ? & ? & Hd & Hc), H4' as (? & ? & ? & Hd' & Hc'). split_and!; [congruence..| |auto].
    intros Hs. specialize (Hd Hs). subst. by apply Hd'.
Qed.

Lemma evolves_insert u u' id c c' : contexts_ u !! id = Some c ->
  contexts_ u' = <[id := c']> (contexts_ u) -> config_ u' = config_ u -> next_xfer_id_ u' = next_xfer_id_ u ->
  length (active_ u') = length (active_ u) -> ctx_evolves c c' -> evolves u u'.
Proof.
  intros Hc Hu Hcfg Hn Hl He. split; try done. intros j. rewrite Hu.
  destruct (decide (j = id)) as [->|Hne]; [by rewrite Hc, lookup_insert_eq|].
  rewrite lookup_insert_ne by done. by destruct (contexts_ u !! j).
Qed.

Lemma measure_insert u u' id c c' : contexts_ u !! id = Some c ->
  contexts_ u' = <[id := c']> (contexts_ u) -> measure u' = measure u - rank c + rank c'.
Proof. intros Hc Hu. unfold measure. rewrite Hu. by apply map_sum_update. Qed.

Lemma holds_port_insert u u' id c' : (forall j, j <> id -> holds_port u j) ->
  contexts_ u' = <[id := c']> (contexts_ u) ->
  (state c' = TRANSMITTING -> active_resource_mask c' <> 0) -> forall j, holds_port u' j.
Proof.
  intros Hh Hu Hc j c Hj Hs. rewrite Hu in Hj. apply lookup_insert_Some in Hj as [[<- <-]|[Hne Hj]]; [by apply Hc|].
  by eapply (Hh j).
Qed.

Lemma launch_step u id c : dte_ok u -> contexts_ u !! id = Some c -> state c = LAUNCHING ->
  let u' := set_contexts u (<[id := ctx_with_state c BUS_WAIT (completion_time c)]> (contexts_ u)) in
  dte_ok u' /\ evolves u u' /\ measure u' < measure u.
Proof.
  intros [Hi Hh] Hc Hst u'.
  destruct (id_wf_facts u id c (inv_ids u Hi id) Hc) as (Hpend & Hact & Hown & Hx & Hid & Hwf & Hs).
  split_and!.
  - split; [|eapply (holds_port_insert u u' id); [intros; apply Hh|done|done]].
    destruct Hi as [? ? ? Hids]. split; try done. intros j. destruct (decide (j = id)) as [->|Hne].
    + eapply id_wf_update; cbn; [by rewrite lookup_insert_eq|done|done| | | |intros s|intros i].
      * by eapply ctx_wf_eq; [done|..]; try done; left.
      * intros _. apply Hs. by rewrite Hst.
      * rewrite Hpend, Hst. done.
      * rewrite Hact, Hst. done.
      * rewrite Hown, Hst. naive_solver.
    + eapply id_wf_frame; [exact (Hids j)|done| |cbn; lia|done|done|done]; cbn. by rewrite lookup_insert_ne by done.
  - eapply evolves_insert; [done|done|done|done|done|]. split_and!; try done. rewrite Hst. by intros [?|?].
  - rewrite (measure_insert u u' id c _ Hc eq_refl). unfold rank. rewrite Hst. cbn. lia.
Qed.

Lemma admit_step now u slot id rest c : dte_ok u -> pending_ u = id :: rest ->
  active_ u !! slot = Some None -> contexts_ u !! id = Some c ->
  let u' := admit_head now u slot id rest c in
  dte_ok u' /\ evolves u u' /\ measure u' < measure u.
Proof.
  intros [Hi Hh] Hp Hslot Hc u'.
  assert (state c = PENDING) as Hst.
  { assert (id ∈ pending_ u) as Hin by (rewrite Hp; left).
    apply (id_pending u id (inv_ids u Hi id)) in Hin as (c' & Hc' & Hs). congruence. }
  destruct (id_wf_facts u id c (inv_ids u Hi id) Hc) as (Hpend & Hact & Hown & Hx & Hid & Hwf & Hs).
  pose proof (lookup_lt_Some _ _ _ Hslot) as Hlt.
  split_and!.
  - split; [|eapply (holds_port_insert u u' id); [intros; apply Hh|done|done]].
    pose proof (inv_pending u Hi) as Hnd. rewrite Hp in Hnd. apply list.NoDup_cons in Hnd as [Hnin Hnd].
    destruct Hi as [? ? ? Hids _ Hac Hinf ? ? ? ? ? ? ?]. subst u'. unfold admit_head.
    pose proof (occupied_insert_some (active_ u) slot id Hslot) as Hocc.
    split; cbn; try done; try lia.
    + by rewrite length_insert.
    + intros j. destruct (decide (j = id)) as [->|Hne].
      * eapply id_wf_update; cbn; [by rewrite lookup_insert_eq|done|done| |intros _; cbn; lia| |intros s|intros i].
        -- by eapply ctx_wf_eq; [done|..]; try done; left.
        -- split; [intros; done|done].
        -- split; [|cbn; intros [_ Hsl]; replace s with slot by lia; by apply list_lookup_insert_eq].
           intros Hsl. split; [done|]. apply list_lookup_insert_Some in Hsl as [[<- _]|[_ Hsl]]; [done|].
           apply Hact in Hsl as [Hin _]. by rewrite Hst in Hin.
        -- rewrite Hown, Hst. naive_solver.
      * eapply id_wf_frame; [exact (Hids j)|done| |cbn; lia| | |done]; cbn.
        -- by rewrite lookup_insert_ne by done.
        -- rewrite Hp, elem_of_cons. naive_solver.
        -- intros s. rewrite list_lookup_insert_Some. split; [naive_solver|].
           intros Hs'. right. split; [|done]. intros <-. congruence.
    + rewrite Hinf, Hp, Hocc. cbn. lia.
    + unfold descriptorCapacity in *. cbn. by rewrite length_insert.
    + rewrite length_insert. lia.
  - eapply evolves_insert; [done|done|done|done|cbn; apply length_insert|]. split_and!; try done. rewrite Hst. by intros [?|?].
  - rewrite (measure_insert u u' id c _ Hc eq_refl). unfold rank. rewrite Hst. cbn. lia.
Qed.

(** Releasing a port keeps the invariant; only the releasing transfer may be
    left without ports. *)
Lemma release_step u id c i : dte_inv u -> contexts_ u !! id = Some c -> state c = TRANSMITTING ->
  has_port (active_resource_mask c) i = true ->
  let u' := release_port u id c i in
  dte_inv u' /\ evolves u u' /\ measure u' < measure u /\
  active_ u' = active_ u /\ resource_owners_ u !! i = Some (Some id) /\
  (exists c', contexts_ u' !! id = Some c' /\ state c' = TRANSMITTING /\
     resource_done_times c' = resource_done_times c /\ resource_mask c' = resource_mask c) /\
  (forall j, j <> id -> contexts_ u' !! j = contexts_ u !! j).
Proof.
  intros Hi Hc Hst Hp u'.
  destruct (id_wf_facts u id c (inv_ids u Hi id) Hc) as (Hpend & Hact & Hown & Hx & Hid & Hwf & Hs).
  assert (resource_owners_ u !! i = Some (Some id)) as Hoi by (by apply Hown).
  pose proof (lookup_lt_Some _ _ _ Hoi) as Hlt.
  split_and!; try done.
  - destruct Hi as [? ? ? Hids]. split; try done; [cbn; by rewrite length_insert|].
    intros j. destruct (decide (j = id)) as [->|Hne].
    + eapply id_wf_update; cbn; [by rewrite lookup_insert_eq|done|done| |done|done|done|intros k].
      * destruct Hwf as [? ? Hm Hsub ?]. split; cbn; try done; [by apply port_set_ldiff|].
        intros k. rewrite has_port_ldiff. intros [H _]%andb_true_iff. by apply Hsub.
      * cbn. rewrite has_port_ldiff, andb_true_iff, negb_true_iff, bool_decide_eq_false.
        rewrite list_lookup_insert_Some, Hown. naive_solver.
    + eapply id_wf_frame; [exact (Hids j)|done| |cbn; lia|done|done|]; cbn.
      * by rewrite lookup_insert_ne by done.
      * intros k. rewrite list_lookup_insert_Some. split; [naive_solver|].
        intros Hk. right. split; [|done]. intros <-. congruence.
  - eapply evolves_insert; [done|done|done|done|done|]. split_and!; try done. rewrite Hst. by intros [?|?].
  - rewrite (measure_insert u u' id c _ Hc eq_refl). unfold rank. cbn. rewrite Hst.
    rewrite ports_in_release by (done || apply Hwf). lia.
  - eexists. cbn. rewrite lookup_insert_eq. split; [done|]. done.
  - intros j Hne. cbn. by rewrite lookup_insert_ne by done.
Qed.

Lemma complete_step now u slot id c : dte_inv u -> (forall j, j <> id -> holds_port u j) ->
  active_ u !! slot = Some (Some id) ->
  contexts_ u !! id = Some c -> state c = TRANSMITTING -> active_resource_mask c = 0 ->
  let u' := complete now u slot id c in
  dte_ok u' /\ evolves u u' /\ measure u' < measure u.
Proof.
  intros Hi Hh Hslot Hc Hst Hm u'.
  destruct (id_wf_facts u id c (inv_ids u Hi id) Hc) as (Hpend & Hact & Hown & Hx & Hid & Hwf & Hs).
  split_and!.
  - split; [|by eapply (holds_port_insert u u' id)].
    pose proof (slot_unique u) as Huniq. specialize (Huniq slot).
    assert (Huni : forall s, active_ u !! s = Some (Some id) -> s = slot) by (intros s Hs'; symmetry; by eapply Huniq).
    pose proof (occupied_insert_none (active_ u) slot id Hslot) as Hocc.
    pose proof (occupied_le (<[slot := None]> (active_ u))) as Hle.
    destruct Hi as [? ? ? Hids ? Hac Hinf ? Hnx ? ? Hend ? [? ?]]. subst u'. unfold complete.
    split; cbn; try done; try lia.
    + by rewrite length_insert.
    + intros j. destruct (decide (j = id)) as [->|Hne].
      * eapply id_wf_update; cbn; [by rewrite lookup_insert_eq|done|done| |done| |intros s|intros i].
        -- by eapply ctx_wf_eq; [done|..]; try done; left.
        -- rewrite Hpend, Hst. done.
        -- split; [|by intros [? _]]. intros Hsl. exfalso.
           apply list_lookup_insert_Some in Hsl as [(_ & [=] & _)|[Hne Hsl]]. by apply Huni in Hsl.
        -- rewrite Hown, Hm, has_port_0. naive_solver.
      * eapply id_wf_frame; [exact (Hids j)|done| |cbn; lia|done| |done]; cbn.
        -- by rewrite lookup_insert_ne by done.
        -- intros s. rewrite list_lookup_insert_Some. split; [naive_solver|].
           intros Hs'. right. split; [|done]. intros <-. congruence.
    + unfold descriptorCapacity in *. cbn. rewrite length_insert. lia.
    + rewrite length_insert. lia.
    + rewrite u64_id by (unfold UINT64_MAX in *; lia). lia.
    + congruence.
    + rewrite u64_id by (unfold UINT64_MAX in *; lia). lia.
  - eapply evolves_insert; [done|done|done|done|cbn; apply length_insert|].
    split_and!; try done. rewrite Hst. by intros [?|?].
  - rewrite (measure_insert u u' id c _ Hc eq_refl). unfold rank. rewrite Hst. cbn.
    pose proof (ports_in_range (active_resource_mask c)). lia.
Qed.

(** Claiming the ports of a transfer. *)
Lemma claim_ports now u id c : ValidateConfig (config_ u) = Ok tt -> config_typed (config_ u) ->
  ctx_wf (config_ u) c -> length (resource_owners_ u) = PORT_COUNT ->
  exists owners done t,
    foldM (claim_port now u id c) (resource_owners_ u, resource_done_times c, 0) (seq 0 PORT_COUNT) = Ok (owners, done, t) /\
    length owners = PORT_COUNT /\ length done = PORT_COUNT /\
    (forall i, owners !! i = if has_port (resource_mask c) i then Some (Some id) else resource_owners_ u !! i).
Proof.
  intros Hv Ht Hwf Hlen.
  destruct (RequiredPorts_ok (dir c) (fine_grained_resources (config_ u))) as (m & Hm & Hps & _).
  rewrite (wf_mask _ _ Hwf) in Hm. injection Hm as <-.
  destruct (foldM_total_prefix (claim_port now u id c) (fun pre acc =>
     let '(owners, done, t) := acc in length owners = PORT_COUNT /\ length done = PORT_COUNT /\
     forall i, owners !! i = if bool_decide (i ∈ pre) && has_port (resource_mask c) i then Some (Some id)
                             else resource_owners_ u !! i)
     (seq 0 PORT_COUNT) (resource_owners_ u, resource_done_times c, 0)) as ([[owners dn] t] & Hf & Ho & Hd & Hown).
  - intros pre i post [[o d] t] Hseq (Ho & Hd & Hown). unfold claim_port.
    assert (i < PORT_COUNT)%nat as Hi.
    { assert (i ∈ seq 0 PORT_COUNT) as Hin by (rewrite Hseq; apply elem_of_app; right; left).
      apply elem_of_seq in Hin. lia. }
    destruct (has_port (resource_mask c) i) eqn:Hp; cbn [negb].
    + destruct (serviceTime_ok u i (resource_mask c) (dir c) (payload_bits c)) as (w & _ & -> & _);
        [done|done|apply Hwf|done|apply Hwf|].
      eexists; split; [reflexivity|]. split_and!; [by rewrite length_insert|by rewrite length_insert|].
      intros j. destruct (decide (j = i)) as [->|Hne].
      * rewrite list_lookup_insert_eq by lia. rewrite bool_decide_true by (apply elem_of_app; right; left). by rewrite Hp.
      * rewrite list_lookup_insert_ne, Hown by done. f_equal.
        rewrite (bool_decide_ext (j ∈ pre ++ [i]) (j ∈ pre)); [done|].
        rewrite elem_of_app, list_elem_of_singleton. naive_solver.
    + eexists; split; [reflexivity|]. split_and!; [done|done|]. intros j. rewrite Hown.
      destruct (decide (j = i)) as [->|Hne]; [by rewrite Hp, !andb_false_r|].
      rewrite (bool_decide_ext (j ∈ pre ++ [i]) (j ∈ pre)); [done|].
      rewrite elem_of_app, list_elem_of_singleton. naive_solver.
  - split_and!; [done|apply Hwf|]. intros i. rewrite bool_decide_false by apply not_elem_of_nil. done.
  - exists owners, dn, t. split_and!; [done|done|done|]. intros i. rewrite Hown.
    destruct (has_port (resource_mask c) i) eqn:Hp; [|by rewrite andb_false_r].
    rewrite bool_decide_true; [done|]. apply elem_of_seq. pose proof (has_port_lt _ _ Hps Hp). unfold PORT_COUNT. lia.
Qed.

Lemma resourcesAvailable_spec u mask : length (resource_owners_ u) = PORT_COUNT -> port_set mask ->
  resourcesAvailable u mask = true <-> forall i, has_port mask i = true -> resource_owners_ u !! i = Some None.
Proof.
  intros Hl Hm. unfold resourcesAvailable. rewrite forallb_forall. split.
  - intros H i Hi. specialize (H i). rewrite Hi in H. pose proof (has_port_lt mask i Hm Hi) as Hlt.
    specialize (H ltac:(apply in_seq; unfold PORT_COUNT; lia)). cbn in H. rewrite negb_involutive in H.
    destruct (lookup_lt_is_Some_2 (resource_owners_ u) i) as [o Ho]; [unfold PORT_COUNT in Hl; lia|].
    rewrite (list_lookup_total_correct _ _ _ Ho) in H. rewrite Ho. by destruct o.
  - intros H i _. destruct (has_port mask i) eqn:Hi; [|done]. specialize (H i Hi).
    by rewrite (list_lookup_total_correct _ _ _ H).
Qed.

Lemma start_step now u slot id c : config_typed (config_ u) -> dte_ok u ->
  active_ u !! slot = Some (Some id) -> contexts_ u !! id = Some c -> state c = BUS_WAIT ->
  resourcesAvailable u (resource_mask c) = true ->
  exists u', start_transfer now u slot = Ok u' /\ dte_ok u' /\ evolves u u' /\ measure u' < measure u /\
    exists c', contexts_ u' = <[id := c']> (contexts_ u) /\ state c' = TRANSMITTING /\ active_ u' = active_ u.
Proof.
  intros Ht [Hi Hh] Hslot Hc Hst Hav.
  destruct (id_wf_facts u id c (inv_ids u Hi id) Hc) as (Hpend & Hact & Hown & Hx & Hid & Hwf & Hs).
  destruct (RequiredPorts_ok (dir c) (fine_grained_resources (config_ u))) as (m & Hm & Hps & Hm0 & _).
  rewrite (wf_mask _ _ Hwf) in Hm. injection Hm as <-.
  destruct (claim_ports now u id c (inv_config u Hi) Ht Hwf (inv_ports u Hi)) as (owners & dn & t & Hf & Hol & Hdl & Ho).
  unfold start_transfer. rewrite (proj2 (slot_total _ _ _) Hslot). unfold deref. rewrite Hc. cbn [mbind result_bind].
  rewrite Hav. rewrite throw_bind_false by done. rewrite Hf. cbn [mbind result_bind].
  eexists; split; [reflexivity|].
  pose proof (proj1 (resourcesAvailable_spec u (resource_mask c) (inv_ports u Hi) Hps) Hav) as Hfree.
  set (u' := mkDTEUnit _ _ _ _ _ _ _ _ _ _ _ _ _ _ _).
  split_and!.
  - split; [|by eapply (holds_port_insert u u' id)].
    pose proof (lookup_lt_Some _ _ _ Hslot) as Hlt.
    destruct Hi as [? ? ? Hids]. split; try done; [|cbn; lia].
    intros j. destruct (decide (j = id)) as [->|Hne].
    + eapply id_wf_update; cbn; [by rewrite lookup_insert_eq|done|done| | | |intros s|intros i]; cbn.
      * eapply ctx_wf_eq; [exact Hwf|..]; cbn; try done; [by right|]. rewrite Hdl. symmetry. apply Hwf.
      * intros _. apply Hs. by rewrite Hst.
      * rewrite Hpend, Hst. naive_solver.
      * rewrite Hact, Hst. done.
      * rewrite Ho. destruct (has_port (resource_mask c) i) eqn:Hp; [done|].
        rewrite Hown, Hst. naive_solver.
    + eapply id_wf_frame; [exact (Hids j)|done| |cbn; lia|done|done|]; cbn.
      * by rewrite lookup_insert_ne by done.
      * intros i. rewrite Ho. destruct (has_port (resource_mask c) i) eqn:Hp; [|done].
        rewrite (Hfree i Hp). split; [congruence|done].
  - eapply evolves_insert; [exact Hc|done|done|done|done|]. split_and!; try done. rewrite Hst. by intros [?|?].
  - rewrite (measure_insert u u' id c _ Hc eq_refl). unfold rank. rewrite Hst. cbn.
    pose proof (ports_in_range (resource_mask c)). lia.
  - eexists. by split_and!.
Qed.

(** ** The loops of the scheduler *)

(** A run from [u0] that ended in [acc]: invariants, and the progress flag
    tells whether anything was done. *)
Definition advanced (u0 : DTEUnit) (acc : DTEUnit * bool) : Prop :=
  dte_ok acc.1 /\ evolves u0 acc.1 /\ if acc.2 then measure acc.1 < measure u0 else acc.1 = u0.

Lemma advanced_le u0 acc : advanced u0 acc -> measure acc.1 <= measure u0.
Proof. intros (_ & _ & H). destruct acc.2; [lia|by rewrite H]. Qed.

Lemma advanced_step u0 acc u' : advanced u0 acc -> dte_ok u' -> evolves acc.1 u' -> measure u' < measure acc.1 ->
  advanced u0 (u', true).
Proof.
  intros Ha Hok Hev Hm. pose proof (advanced_le u0 acc Ha). destruct Ha as (_ & He & _).
  unfold advanced; split_and!; cbn; [done|by etrans|lia].
Qed.

Lemma advanced_refl u : dte_ok u -> advanced u (u, false).
Proof. intros H. split; [done|split; [reflexivity|done]]. Qed.

Lemma advanced_trans u0 acc1 acc2 : advanced u0 acc1 -> advanced acc1.1 acc2 -> advanced u0 (acc2.1, acc1.2 || acc2.2).
Proof.
  intros H1 H2. pose proof (advanced_le _ _ H1). pose proof (advanced_le _ _ H2).
  destruct H1 as (Hok1 & He1 & Hp1), H2 as (Hok2 & He2 & Hp2).
  unfold advanced; split_and!; cbn; [done|by etrans|]. destruct acc1.2, acc2.2; cbn; [lia|lia|by rewrite <- Hp1|congruence].
Qed.

(** A loop with a progress flag that ends with [false] did nothing. *)
Lemma foldM_no_progress {A} (f : DTEUnit * bool -> A -> result (DTEUnit * bool)) u l u' :
  (forall u x r, f (u, true) x = Ok r -> r.2 = true) ->
  (forall u x u', f (u, false) x = Ok (u', false) -> u' = u) ->
  foldM f (u, false) l = Ok (u', false) -> u' = u /\ forall x, x ∈ l -> f (u, false) x = Ok (u, false).
Proof.
  intros Ht Hf. assert (forall l u r, foldM f (u, true) l = Ok r -> r.2 = true) as Htl.
  { clear -Ht. induction l as [|x l IH]; intros u r H; cbn in H; [by simplify_eq|].
    destruct (f (u, true) x) as [[u1 p1]|] eqn:E; [|done]. apply Ht in E as E'; cbn in E'; subst. by eapply IH. }
  revert u; induction l as [|x l IH]; intros u H; cbn in H.
  - simplify_eq. split; [done|]. by intros x ?%elem_of_nil.
  - destruct (f (u, false) x) as [[u1 [|]]|] eqn:E; [by apply Htl in H| |done].
    apply Hf in E as E'. subst u1. destruct (IH u H) as [-> Hall]. split; [done|].
    intros y [->|Hy]%elem_of_cons; [done|by apply Hall].
Qed.

Lemma finish_launch_ok now u0 acc slot : (slot < length (active_ u0))%nat -> advanced u0 acc ->
  exists acc', finish_launch now acc slot = Ok acc' /\ advanced u0 acc'.
Proof.
  destruct acc as [u p]. intros Hlt Ha. pose proof Ha as ([Hi Hh] & He & _). cbn in *.
  destruct (active_ u !!! slot) as [id|] eqn:Hs; [|by eexists].
  apply slot_total in Hs. destruct (slot_lookup u slot id Hi Hs) as (c & Hc & _ & _ & Hd). rewrite Hd. cbn [mbind result_bind].
  destruct (bool_decide_reflect (state c = LAUNCHING)) as [Hst|Hst]; cbn [negb orb]; [|by eexists].
  destruct (now <? launch_done_time c); [by eexists|]. eexists; split; [done|].
  destruct (launch_step u id c (mkOk u Hi Hh) Hc Hst) as (Hok' & He' & Hm'). by apply (advanced_step u0 (u, p)).
Qed.

Lemma finishLaunches_ok now u : dte_ok u -> exists acc, finishLaunches now u = Ok acc /\ advanced u acc.
Proof.
  intros Hok. apply foldM_total; [|by apply advanced_refl].
  intros acc slot Hin Ha. apply elem_of_seq in Hin. apply finish_launch_ok; [lia|done].
Qed.

Lemma finish_port_inv now u0 id acc i :
  let I := fun acc : DTEUnit * bool => dte_inv acc.1 /\ evolves u0 acc.1 /\ (forall j, j <> id -> holds_port acc.1 j) /\
    (if acc.2 then measure acc.1 < measure u0 else acc.1 = u0) /\
    exists slot c, active_ acc.1 !! slot = Some (Some id) /\ contexts_ acc.1 !! id = Some c /\ state c = TRANSMITTING in
  I acc -> exists acc', finish_port now id acc i = Ok acc' /\ I acc' /\ active_ acc'.1 = active_ acc.1.
Proof.
  intros I. destruct acc as [u p]. intros HI. pose proof HI as (Hi & He & Hh & Hp & slot & c & Hs & Hc & Hst). cbn in Hi, He, Hh, Hp, Hs, Hc.
  unfold finish_port, deref. rewrite Hc. cbn [mbind result_bind].
  destruct (has_port (active_resource_mask c) i) eqn:Hport; cbn [negb orb]; [|by eexists].
  destruct (now <? resource_done_times c !!! i); [by eexists|].
  destruct (release_step u id c i Hi Hc Hst Hport) as (Hi' & He' & Hm' & Ha' & Ho & (c' & Hc' & Hst' & _) & Hj).
  rewrite (list_lookup_total_correct _ _ _ Ho). rewrite bool_decide_true, throw_bind_false by done.
  eexists; split; [done|]. split; [|done]. unfold I; cbn [fst snd]. split_and!; [done|by etrans| | |].
  - intros j Hne cj Hcj. rewrite Hj in Hcj by done. by eapply Hh.
  - assert (measure u <= measure u0) by (destruct p; [lia|by rewrite Hp]). lia.
  - exists slot, c'. rewrite Ha'. done.
Qed.

Lemma finish_slot_ok now u0 acc slot : (slot < length (active_ u0))%nat -> advanced u0 acc ->
  exists acc', finish_slot now acc slot = Ok acc' /\ advanced u0 acc'.
Proof.
  destruct acc as [u p]. intros Hlt Ha. pose proof Ha as ([Hi Hh] & He & Hp). cbn [fst snd] in *. unfold finish_slot.
  destruct (active_ u !!! slot) as [id|] eqn:Hs; [|by eexists].
  apply slot_total in Hs. destruct (slot_lookup u slot id Hi Hs) as (c & Hc & _ & _ & Hd). rewrite Hd. cbn [mbind result_bind].
  destruct (bool_decide_reflect (state c = TRANSMITTING)) as [Hst|Hst]; cbn [negb]; [|by eexists].
  destruct (foldM_total (finish_port now id) (fun acc : DTEUnit * bool =>
     (dte_inv acc.1 /\ evolves u0 acc.1 /\ (forall j, j <> id -> holds_port acc.1 j) /\
      (if acc.2 then measure acc.1 < measure u0 else acc.1 = u0) /\
      exists slot c, active_ acc.1 !! slot = Some (Some id) /\ contexts_ acc.1 !! id = Some c /\ state c = TRANSMITTING) /\
     active_ acc.1 = active_ u) (seq 0 PORT_COUNT) (u, p)) as ([u' p'] & Hf & (Hi' & He' & Hh' & Hp' & s' & c' & Hs' & Hc' & Hst') & Hact).
  - intros acc i _ [HI Hact]. destruct (finish_port_inv now u0 id acc i HI) as (acc' & Hf & HI' & Hact').
    exists acc'. split; [done|]. split; [exact HI'|congruence].
  - cbn. split; [|done]. split_and!; [done|done|intros; apply Hh|done|]. by exists slot, c.
  - cbn [fst snd] in *. rewrite Hf. cbn [mbind result_bind]. unfold deref. rewrite Hc'. cbn [mbind result_bind].
    destruct (Z.eqb_spec (active_resource_mask c') 0) as [Hz|Hz]; cbn [negb].
    + eexists; split; [done|]. rewrite Hact in Hs'.
      destruct (complete_step now u' slot id c' Hi' Hh') as (Hok'' & He'' & Hm''); [by rewrite Hact|done|done|done|].
      assert (measure u' <= measure u0) by (destruct p'; [lia|by rewrite Hp']).
      unfold advanced; split_and!; cbn; [done|by etrans|lia].
    + eexists; split; [done|]. unfold advanced; split_and!; cbn; [|done|done]. split; [done|].
      intros j cj Hcj Hsj. destruct (decide (j = id)) as [->|Hne]; [|by eapply Hh'].
      rewrite Hc' in Hcj. by simplify_eq.
Qed.

Lemma finishPortServices_ok now u : dte_ok u -> exists acc, finishPortServices now u = Ok acc /\ advanced u acc.
Proof.
  intros Hok. apply foldM_total; [|by apply advanced_refl].
  intros acc slot Hin Ha. apply elem_of_seq in Hin. apply finish_slot_ok; [lia|done].
Qed.

Lemma admit_loop_ok fuel now u : dte_ok u -> exists u', admit_loop fuel now u = Ok u' /\ dte_ok u' /\ evolves u u' /\
  (u' = u \/ measure u' < measure u) /\
  ((0 < fuel)%nat -> pending_ u <> [] -> active_count_ u < Z.of_nat (length (active_ u)) -> measure u' < measure u).
Proof.
  revert u; induction fuel as [|fuel IH]; intros u Hok; cbn.
  - exists u. split_and!; [done|done|reflexivity|by left|lia].
  - destruct (pending_ u) as [|id rest] eqn:Hp; [exists u; split_and!; [done|done|reflexivity|by left|done]|].
    destruct (Z.ltb_spec (active_count_ u) (Z.of_nat (length (active_ u)))) as [Hlt|Hge].
    2:{ exists u. split_and!; [done|done|reflexivity|by left|lia]. }
    pose proof Hok as [Hi _]. rewrite (inv_active u Hi) in Hlt. apply occupied_free in Hlt as [s0 Hs0].
    unfold findFreeSlot. pose proof (first_slot_spec is_null (active_ u)) as Hfs.
    destruct (first_slot is_null (active_ u)) as [slot|].
    2:{ apply list_elem_of_lookup_2 in Hs0. by apply Hfs in Hs0. }
    destruct Hfs as ([x|] & Hslot & Hnull); [done|].
    assert (id ∈ pending_ u) as Hin by (rewrite Hp; left).
    apply (id_pending u id (inv_ids u Hi id)) in Hin as (c & Hc & _). unfold deref. rewrite Hc. cbn [mbind result_bind].
    destruct (admit_step now u slot id rest c Hok Hp Hslot Hc) as (Hok' & He' & Hm').
    destruct (IH _ Hok') as (u' & Hrun & Hok'' & He'' & Hm'' & _).
    assert (measure u' < measure u) by (destruct Hm'' as [->|?]; lia).
    exists u'. split_and!; [done|done|by etrans|by right|done].
Qed.

(** A slot whose transfer may start. *)
Definition slot_ready (u : DTEUnit) (slot : nat) : bool :=
  match active_ u !!! slot with
  | None => false
  | Some id =>
      match contexts_ u !! id with
      | None => false
      | Some ctx => bool_decide (state ctx = BUS_WAIT) && resourcesAvailable u (resource_mask ctx)
      end
  end.

(** The round-robin choice. *)
Lemma choose_loop_spec u slots : dte_inv u ->
  exists r, choose_loop u slots = Ok r /\
  match r with
  | None => forall slot, slot ∈ slots -> slot_ready u slot = false
  | Some slot => slot ∈ slots /\ slot_ready u slot = true /\
      exists pre post, slots = pre ++ slot :: post /\ forall s, s ∈ pre -> slot_ready u s = false
  end.
Proof.
  intros Hi. induction slots as [|slot slots IH]; cbn [choose_loop].
  - exists None. split; [done|]. by intros s ?%elem_of_nil.
  - destruct IH as (r & Hr & Hspec).
    assert (slot_ready u slot = false -> choose_loop u slots = Ok r ->
      match r with
      | None => forall s, s ∈ slot :: slots -> slot_ready u s = false
      | Some s => s ∈ slot :: slots /\ slot_ready u s = true /\
          exists pre post, slot :: slots = pre ++ s :: post /\ forall s', s' ∈ pre -> slot_ready u s' = false
      end) as Hskip.
    { intros Hno _. destruct r as [s|].
      - destruct Hspec as (Hin & Hrd & pre & post & -> & Hpre). split_and!; [by right|done|].
        exists (slot :: pre), post. split; [done|]. by intros s' [->|?]%elem_of_cons; [|apply Hpre].
      - by intros s [->|?]%elem_of_cons; [|apply Hspec]. }
    destruct (active_ u !!! slot) as [id|] eqn:Hs.
    2:{ exists r. split; [done|]. apply Hskip; [|done]. unfold slot_ready. by rewrite Hs. }
    apply slot_total in Hs as Hs'. destruct (slot_lookup u slot id Hi Hs') as (c & Hc & _ & _ & ->). cbn [mbind result_bind].
    assert (slot_ready u slot = bool_decide (state c = BUS_WAIT) && resourcesAvailable u (resource_mask c)) as Hrd
      by (unfold slot_ready; by rewrite Hs, Hc).
    rewrite <- Hrd. destruct (slot_ready u slot) eqn:E.
    + exists (Some slot). split; [done|]. split_and!; [left|done|].
      exists [], slots. split; [done|]. by intros s ?%elem_of_nil.
    + exists r. split; [done|]. by apply Hskip.
Qed.

(** [chooseReadySlot] looks at every slot, starting after the last served. *)
Lemma slot_order_elem u s : dte_inv u -> s ∈ slot_order u <-> (s < length (active_ u))%nat.
Proof.
  intros Hi. pose proof (inv_served u Hi) as Hl. unfold slot_order. rewrite list_elem_of_fmap. split.
  - intros (k & -> & Hk). apply elem_of_seq in Hk. rewrite Z.rem_mod_nonneg by lia.
    pose proof (Z.mod_pos_bound (last_served_slot_ u + Z.of_nat k + Z.of_nat (length (active_ u))) (Z.of_nat (length (active_ u)))). lia.
  - intros Hs. set (n := Z.of_nat (length (active_ u))) in *. set (l := last_served_slot_ u) in *.
    exists (S (Z.to_nat ((Z.of_nat s - l - 1) mod n))).
    pose proof (Z.mod_pos_bound (Z.of_nat s - l - 1) n ltac:(lia)) as Hm.
    split; [|apply elem_of_seq; lia].
    replace (l + Z.of_nat (S (Z.to_nat ((Z.of_nat s - l - 1) mod n))) + n)
      with ((Z.of_nat s - l - 1) mod n + (l + 1 + n)) by lia.
    rewrite Z.rem_mod_nonneg by lia. rewrite Zplus_mod_idemp_l.
    replace (Z.of_nat s - l - 1 + (l + 1 + n)) with (Z.of_nat s + 1 * n) by lia.
    rewrite Z_mod_plus_full, Z.mod_small by lia. lia.
Qed.

Lemma filter_length_lt {A} (p q : A -> bool) l y : (forall x, x ∈ l -> q x = true -> p x = true) ->
  y ∈ l -> p y = true -> q y = false -> (length (List.filter q l) < length (List.filter p l))%nat.
Proof.
  intros Hqp Hy Hp Hq. assert (forall l, (forall x, x ∈ l -> q x = true -> p x = true) ->
    (length (List.filter q l) <= length (List.filter p l))%nat) as Hle.
  { clear. induction l as [|x l IH]; intros H; cbn; [lia|].
    pose proof (H x (list_elem_of_here _ _)) as Hx.
    specialize (IH (fun z Hz => H z (list_elem_of_further _ _ _ Hz))).
    destruct (q x); [rewrite (Hx eq_refl)|destruct (p x)]; cbn; lia. }
  induction l as [|x l IH]; [by apply elem_of_nil in Hy|]. cbn.
  assert (Hl : forall z, z ∈ l -> q z = true -> p z = true) by (intros; apply Hqp; [by right|done]).
  apply elem_of_cons in Hy as [<-|Hy].
  - rewrite Hp, Hq. cbn. specialize (Hle l Hl). lia.
  - specialize (IH Hl Hy). pose proof (Hqp x (list_elem_of_here _ _)) as Hx.
    destruct (q x); [rewrite (Hx eq_refl)|destruct (p x)]; cbn; lia.
Qed.

(** The slots that wait for ports. *)
Definition waiting (u : DTEUnit) (s : nat) : bool :=
  match active_ u !!! s with
  | None => false
  | Some id => match contexts_ u !! id with Some c => bool_decide (state c = BUS_WAIT) | None => false end
  end.
Definition waiting_count (u : DTEUnit) : nat := length (List.filter (waiting u) (seq 0 (length (active_ u)))).

Lemma start_loop_ok fuel now u p : config_typed (config_ u) -> dte_ok u -> (waiting_count u < fuel)%nat ->
  exists acc, start_loop fuel now u p = Ok acc /\ dte_ok acc.1 /\ evolves u acc.1 /\
    ((acc.1 = u /\ acc.2 = p) \/ (measure acc.1 < measure u /\ acc.2 = true)) /\
    (forall s, (s < length (active_ u))%nat -> slot_ready acc.1 s = false).
Proof.
  revert u p; induction fuel as [|fuel IH]; intros u p Ht Hok Hw; [lia|]. cbn [start_loop].
  destruct Hok as [Hi Hh]. unfold chooseReadySlot.
  destruct (choose_loop_spec u (slot_order u) Hi) as (r & -> & Hr). cbn [mbind result_bind].
  destruct r as [slot|].
  2:{ exists (u, p). cbn. split_and!; [done|done|reflexivity|by left|].
      intros s Hs. apply Hr. by apply slot_order_elem. }
  destruct Hr as (Hin & Hrd & _). apply slot_order_elem in Hin; [|done].
  assert (waiting u slot = true) as Hwait.
  { unfold slot_ready in Hrd. unfold waiting. destruct (active_ u !!! slot); [|done].
    destruct (contexts_ u !! z); [|done]. by apply andb_true_iff in Hrd as [? _]. }
  unfold slot_ready in Hrd. destruct (active_ u !!! slot) as [id|] eqn:Hs; [|done]. apply slot_total in Hs as Hs'.
  destruct (slot_lookup u slot id Hi Hs') as (c & Hc & _). rewrite Hc in Hrd.
  apply andb_true_iff in Hrd as [Hst Hav]. apply bool_decide_eq_true in Hst.
  destruct (start_step now u slot id c Ht (mkOk u Hi Hh) Hs' Hc Hst Hav) as (u' & -> & Hok' & He & Hm & c' & Hctx & Hst' & Hact).
  cbn [mbind result_bind].
  destruct (IH u' true) as (acc & Hrun & Hok'' & He'' & Hprog & Hnone); [by rewrite (ev_config _ _ He)|done| |].
  { apply Nat.lt_le_trans with (waiting_count u); [|lia]. unfold waiting_count. rewrite Hact.
    apply (filter_length_lt _ _ _ slot); [|apply elem_of_seq; lia|done|].
    - intros s _ Hws. unfold waiting in *. rewrite Hact, Hctx in Hws. destruct (active_ u !!! s) as [j|]; [|done].
      destruct (decide (j = id)) as [->|Hne]; [by rewrite Hc, Hst, bool_decide_true|].
      by rewrite lookup_insert_ne in Hws.
    - unfold waiting. rewrite Hact, Hs, Hctx, lookup_insert_eq, Hst'. done. }
  exists acc. rewrite Hact in Hnone. split_and!; [done|done|by etrans| |done].
  right. destruct Hprog as [[-> ->]|[? ?]]; [done|]. split; [lia|done].
Qed.

Lemma startReadyTransfers_ok now u : config_typed (config_ u) -> dte_ok u ->
  exists acc, startReadyTransfers now u = Ok acc /\ advanced u acc /\
    (forall s, (s < length (active_ u))%nat -> slot_ready acc.1 s = false).
Proof.
  intros Ht Hok. destruct (start_loop_ok (S (length (active_ u))) now u false Ht Hok) as (acc & Hrun & Hok' & He & Hp & Hn).
  - unfold waiting_count. pose proof (List.filter_length_le (waiting u) (seq 0 (length (active_ u)))) as H.
    rewrite length_seq in H. lia.
  - exists acc. split; [done|]. split; [|done]. unfold advanced. split; [done|]. split; [done|].
    destruct Hp as [[-> ->]|[? ->]]; done.
Qed.

Lemma admitPending_ok now u : dte_ok u -> pending_ u <> [] -> active_count_ u < Z.of_nat (length (active_ u)) ->
  exists u', admitPending now u = Ok u' /\ advanced u (u', true).
Proof.
  intros Hok Hp Hlt. destruct (admit_loop_ok (length (pending_ u)) now u Hok) as (u' & Hrun & Hok' & He & _ & Hm).
  exists u'. split; [done|]. unfold advanced; cbn. split; [done|]. split; [done|]. apply Hm; try done.
  destruct (pending_ u); [done|cbn; lia].
Qed.

(** A round without progress leaves nothing to do at this time. *)
Record quiescent (now : Z) (u : DTEUnit) : Prop := {
  q_ports : finishPortServices now u = Ok (u, false);
  q_launch : finishLaunches now u = Ok (u, false);
  q_pending : pending_ u = [] \/ active_count_ u = Z.of_nat (length (active_ u));
  q_ready : forall s, (s < length (active_ u))%nat -> slot_ready u s = false
}.

Lemma sched_round_ok now u : config_typed (config_ u) -> dte_ok u ->
  exists acc, sched_round now u = Ok acc /\ advanced u acc /\ (acc.2 = false -> quiescent now u).
Proof.
  intros Ht Hok. unfold sched_round.
  destruct (finishPortServices_ok now u Hok) as ([u1 p1] & H1 & A1). rewrite H1. cbn [mbind result_bind].
  destruct (finishLaunches_ok now u1 (proj1 A1)) as ([u2 p2] & H2 & A2). rewrite H2. cbn [mbind result_bind].
  pose proof (advanced_trans _ _ _ A1 A2) as A12. cbn [fst snd] in *.
  assert (exists acc3, (if negb (bool_decide (pending_ u2 = [])) && (active_count_ u2 <? Z.of_nat (length (active_ u2)))
      then admitPending now u2 ≫= fun u => Ok (u, true) else Ok (u2, false)) = Ok acc3 /\ advanced u2 acc3 /\
      (acc3.2 = false -> pending_ u2 = [] \/ active_count_ u2 = Z.of_nat (length (active_ u2)))) as ([u3 p3] & H3 & A3 & Q3).
  { destruct (bool_decide_reflect (pending_ u2 = [])) as [Hp|Hp]; cbn [negb andb].
    - exists (u2, false). split; [done|]. split; [apply advanced_refl, A12|]. by left.
    - destruct (Z.ltb_spec (active_count_ u2) (Z.of_nat (length (active_ u2)))) as [Hlt|Hge].
      + destruct (admitPending_ok now u2 (proj1 A2) Hp Hlt) as (u3 & -> & A3). by exists (u3, true).
      + exists (u2, false). split; [done|]. split; [apply advanced_refl, A12|]. right.
        pose proof (proj1 A2) as [Hi _]. cbn in Hi. rewrite (inv_active u2 Hi) in *.
        pose proof (occupied_le (active_ u2)). lia. }
  rewrite H3. cbn [mbind result_bind].
  pose proof (advanced_trans _ _ _ A12 A3) as A123. cbn [fst snd] in *.
  destruct (startReadyTransfers_ok now u3) as ([u4 p4] & H4 & A4 & Q4);
    [pose proof (ev_config _ _ (proj1 (proj2 A123))) as Hcfg; cbn in Hcfg; by rewrite Hcfg|apply A123|].
  rewrite H4. cbn [mbind result_bind]. eexists; split; [reflexivity|].
  pose proof (advanced_trans _ _ _ A123 A4) as A1234. cbn [fst snd] in *. split; [done|].
  intros Hf. apply orb_false_iff in Hf as [Hf ->]. apply orb_false_iff in Hf as [Hf ->]. apply orb_false_iff in Hf as [-> ->].
  destruct A1 as (_ & _ & Heq1), A2 as (_ & _ & Heq2), A3 as (_ & _ & Heq3), A4 as (_ & _ & Heq4). cbn in *. subst.
  split; [done|done|by apply Q3|done].
Qed.

Lemma quiesce_ok fuel now u : config_typed (config_ u) -> dte_ok u -> measure u < Z.of_nat fuel ->
  exists u', quiesce fuel now u = Ok u' /\ dte_ok u' /\ evolves u u' /\ quiescent now u' /\
    (u' = u \/ measure u' < measure u).
Proof.
  revert u; induction fuel as [|fuel IH]; intros u Ht Hok Hm; [pose proof (measure_nonneg u); lia|]. cbn [quiesce].
  destruct (sched_round_ok now u Ht Hok) as ([u1 p] & -> & (Hok1 & He1 & Hp) & Hq). cbn [mbind result_bind fst snd] in *.
  destruct p.
  - destruct (IH u1) as (u' & Hrun & Hok' & He' & Hq' & Hm'); [by rewrite (ev_config _ _ He1)|done|lia|].
    exists u'. split_and!; [done|done|by etrans|done|]. right. destruct Hm' as [->|?]; lia.
  - subst u1. exists u. split_and!; [done|done|reflexivity|by apply Hq|by left].
Qed.

(** ** Deadlines *)

Definition ctx_deadlines (c : DteTransferContext) : list Z :=
  match state c with
  | LAUNCHING => [launch_done_time c]
  | TRANSMITTING => (fun i => resource_done_times c !!! i) <$> List.filter (has_port (active_resource_mask c)) (seq 0 PORT_COUNT)
  | _ => []
  end.
Definition deadlines (u : DTEUnit) : list Z :=
  active_ u ≫= fun o => match o with
    | Some id => match contexts_ u !! id with Some c => ctx_deadlines c | None => [] end
    | None => []
    end.

Lemma elem_of_deadlines u x : dte_inv u -> x ∈ deadlines u <->
  exists id c, contexts_ u !! id = Some c /\ x ∈ ctx_deadlines c.
Proof.
  intros Hi. unfold deadlines. rewrite list_elem_of_bind. split.
  - intros ([id|] & Hx & _); [|by apply elem_of_nil in Hx].
    destruct (contexts_ u !! id) as [c|] eqn:Hc; [|by apply elem_of_nil in Hx]. by exists id, c.
  - intros (id & c & Hc & Hx). exists (Some id). rewrite Hc. split; [done|].
    destruct (active_in_slot u id c Hi Hc) as (s & Hs & _); [|by eapply list_elem_of_lookup_2].
    unfold ctx_deadlines in Hx. destruct (state c); try done; by apply elem_of_nil in Hx.
Qed.

Lemma foldl_earlier d l :
  match foldl earlier d l with
  | None => d = None /\ l = []
  | Some t => (d = Some t \/ t ∈ l) /\ forall x, d = Some x \/ x ∈ l -> t <= x
  end.
Proof.
  revert d; induction l as [|y l IH]; intros d; cbn.
  - destruct d as [t|]; [|done]. split; [by left|]. intros x [[= ->]|Hx]; [lia|by apply elem_of_nil in Hx].
  - specialize (IH (earlier d y)). destruct (foldl earlier (earlier d y) l) as [t|].
    + destruct IH as [Hin Hle]. unfold earlier in *. split.
      * destruct Hin as [Hin|Hin]; [|right; by right].
        destruct d as [d|]; [|right; injection Hin as ->; left].
        destruct (y <? d); [right; injection Hin as ->; left|by left].
      * intros x Hx. destruct d as [d|].
        -- destruct (Z.ltb_spec y d); destruct Hx as [[= ->]|[->|Hx]%elem_of_cons];
             try (apply Hle; by right); try (by apply Hle; left); pose proof (Hle _ (or_introl eq_refl)); lia.
        -- destruct Hx as [?|[->|Hx]%elem_of_cons]; [done|apply Hle; by left|apply Hle; by right].
    + destruct IH as [IH _]. unfold earlier in IH. destruct d; [destruct (y <? z); done|done].
Qed.

Lemma foldl_filter {A} (g : A -> Z) (p : A -> bool) (d : option Z) (l : list A) :
  foldl (fun d i => if negb (p i) then d else earlier d (g i)) d l = foldl earlier d (g <$> List.filter p l).
Proof. revert d; induction l as [|x l IH]; intros d; cbn; [done|]. destruct (p x); cbn; apply IH. Qed.

Lemma next_deadline_eq u : dte_inv u -> next_deadline u = Ok (foldl earlier None (deadlines u)).
Proof.
  intros Hi. unfold next_deadline, deadlines.
  assert (forall l d, (forall o, o ∈ l -> o ∈ active_ u) ->
    foldM (slot_deadline u) d l = Ok (foldl earlier d (l ≫= fun o => match o with
      | Some id => match contexts_ u !! id with Some c => ctx_deadlines c | None => [] end | None => [] end))) as H.
  { induction l as [|o l IH]; intros d Hl; cbn [foldM]; [done|].
    assert (slot_deadline u d o = Ok (foldl earlier d match o with
      | Some id => match contexts_ u !! id with Some c => ctx_deadlines c | None => [] end | None => [] end)) as ->.
    { destruct o as [id|]; [|done]. pose proof (Hl (Some id) (list_elem_of_here _ _)) as Hin.
      apply list_elem_of_lookup in Hin as [s Hs]. destruct (slot_lookup u s id Hi Hs) as (c & Hc & Hst & _ & Hd).
      unfold slot_deadline. rewrite Hd, Hc. cbn [mbind result_bind]. unfold ctx_deadlines.
      destruct (state c); try done. rewrite bool_decide_false, bool_decide_true by done. by rewrite foldl_filter. }
    rewrite bind_cons, foldl_app. apply IH. intros o' Ho'. apply Hl. by right. }
  by apply H.
Qed.

(** ** Quiescent states *)

Lemma finish_port_flag now id u i r : finish_port now id (u, true) i = Ok r -> r.2 = true.
Proof. unfold finish_port. intros H. inv_ok. destruct (_ || _); inv_ok; done. Qed.

Lemma finish_port_same now id u i u' : finish_port now id (u, false) i = Ok (u', false) -> u' = u.
Proof. unfold finish_port. intros H. inv_ok. destruct (_ || _); inv_ok; done. Qed.

Lemma finish_ports_flag now id l u r : foldM (finish_port now id) (u, true) l = Ok r -> r.2 = true.
Proof.
  revert u; induction l as [|i l IH]; intros u H; cbn [foldM] in H; [by simplify_eq|].
  destruct (finish_port now id (u, true) i) as [[u1 p]|] eqn:E; [|done].
  apply finish_port_flag in E as E'. cbn in E'. subst. by eapply IH.
Qed.

Lemma finish_slot_flag now u s r : finish_slot now (u, true) s = Ok r -> r.2 = true.
Proof.
  unfold finish_slot. destruct (active_ u !!! s); [|by intros [= <-]]. intros H. inv_ok.
  destruct (negb (bool_decide (state r0 = TRANSMITTING))); [by inv_ok|]. inv_ok. destruct r1 as [u1 p1].
  apply finish_ports_flag in Hr0. cbn in Hr0. subst. inv_ok. destruct (negb _); by inv_ok.
Qed.

Lemma finish_slot_same now u s u' : finish_slot now (u, false) s = Ok (u', false) ->
  u' = u /\ forall id c, active_ u !!! s = Some id -> contexts_ u !! id = Some c -> state c = TRANSMITTING ->
    foldM (finish_port now id) (u, false) (seq 0 PORT_COUNT) = Ok (u, false).
Proof.
  unfold finish_slot. destruct (active_ u !!! s) as [id|]; [|intros [= <-]; split; [done|by intros ? ? [=]]]. unfold deref.
  destruct (contexts_ u !! id) as [c|] eqn:Hc; [|cbn [mbind result_bind]; intros H; discriminate H]. cbn [mbind result_bind].
  destruct (bool_decide_reflect (state c = TRANSMITTING)) as [Hst|Hst]; cbn [negb].
  2:{ intros [= <-]. split; [done|]. intros ? ? [= <-] Hc'. congruence. }
  intros H. inv_ok. destruct r as [u1 p1]. inv_ok.
  destruct (negb _); inv_ok.
  apply foldM_no_progress in Hr as Hr'; [|by intros; eapply finish_port_flag|by intros; eapply finish_port_same].
  destruct Hr' as [-> _]. split; [done|]. by intros ? ? [= <-] _ _.
Qed.

Lemma finish_launch_same now u s u' : finish_launch now (u, false) s = Ok (u', false) ->
  u' = u /\ forall id c, active_ u !!! s = Some id -> contexts_ u !! id = Some c -> state c = LAUNCHING ->
    now < launch_done_time c.
Proof.
  unfold finish_launch. destruct (active_ u !!! s) as [id|]; [|intros [= <-]; split; [done|by intros ? ? [=]]]. unfold deref.
  destruct (contexts_ u !! id) as [c|] eqn:Hc; [|cbn [mbind result_bind]; intros H; discriminate H]. cbn [mbind result_bind].
  destruct (bool_decide_reflect (state c = LAUNCHING)) as [Hst|Hst]; cbn [negb orb].
  - destruct (Z.ltb_spec now (launch_done_time c)); intros [= <-]; split; [done|]. intros ? ? [= <-] Hc'. by simplify_eq.
  - intros [= <-]. split; [done|]. intros ? ? [= <-] Hc'. congruence.
Qed.

(** At a quiescent time every deadline lies in the future. *)
Lemma quiescent_deadlines now u x : dte_inv u -> quiescent now u -> x ∈ deadlines u -> now < x.
Proof.
  intros Hi [Hp Hl _ _] Hx. apply (elem_of_deadlines u x Hi) in Hx as (id & c & Hc & Hx).
  assert (in_slot (state c) = true) as Hin
    by (unfold ctx_deadlines in Hx; destruct (state c); try done; by apply elem_of_nil in Hx).
  destruct (active_in_slot u id c Hi Hc Hin) as (s & Hs & _). pose proof (lookup_lt_Some _ _ _ Hs) as Hlt.
  apply slot_total in Hs. assert (s ∈ seq 0 (length (active_ u))) as Hseq by (apply elem_of_seq; lia).
  apply foldM_no_progress in Hp as [_ Hp]; [|by intros; eapply finish_slot_flag|by intros; eapply finish_slot_same].
  apply foldM_no_progress in Hl as [_ Hl]; [| |by intros; eapply finish_launch_same].
  2:{ intros u1 y r Hr. unfold finish_launch in Hr. destruct (active_ u1 !!! y); [|by simplify_eq]. inv_ok.
      destruct (_ || _); by inv_ok. }
  specialize (Hp s Hseq). specialize (Hl s Hseq).
  apply finish_slot_same in Hp as [_ Hp]. apply finish_launch_same in Hl as [_ Hl].
  unfold ctx_deadlines in Hx. destruct (state c) eqn:Hst; try by apply elem_of_nil in Hx.
  - apply list_elem_of_singleton in Hx as ->. by eapply Hl.
  - apply list_elem_of_fmap in Hx as (i & -> & Hi'). apply list_elem_of_In, filter_In in Hi' as [Hi' Hport].
    specialize (Hp id c Hs Hc Hst).
    apply foldM_no_progress in Hp as [_ Hp]; [|by intros; eapply finish_port_flag|by intros; eapply finish_port_same].
    specialize (Hp i (proj2 (list_elem_of_In _ _) Hi')). unfold finish_port, deref in Hp. rewrite Hc in Hp.
    cbn [mbind result_bind] in Hp. rewrite Hport in Hp. cbn [negb orb] in Hp.
    destruct (Z.ltb_spec now (resource_done_times c !!! i)); [done|]. by inv_ok.
Qed.

(** A quiescent unit with work left has a deadline: nothing waits for ever. *)
Lemma quiescent_has_deadline now u : config_typed (config_ u) -> dte_ok u -> quiescent now u ->
  deadlines u = [] -> pending_ u = [] /\ occupied (active_ u) = 0.
Proof.
  intros Ht [Hi Hh] [_ _ Hq Hrd] Hd.
  assert (forall id c x, contexts_ u !! id = Some c -> ~ x ∈ ctx_deadlines c) as Hno.
  { intros id c x Hc Hx. assert (x ∈ deadlines u) as H by (apply elem_of_deadlines; [done|by exists id, c]).
    rewrite Hd in H. by apply elem_of_nil in H. }
  assert (forall id c, contexts_ u !! id = Some c -> state c <> TRANSMITTING) as Htr.
  { intros id c Hc Hst.
    destruct (id_wf_facts u id c (inv_ids u Hi id) Hc) as (_ & _ & _ & _ & _ & Hwf & _).
    assert (exists i, has_port (active_resource_mask c) i = true) as [i Hport].
    { destruct (decide (Exists (fun i => has_port (active_resource_mask c) i = true) (seq 0 5))) as [H|H].
      - apply Exists_exists in H as (i & _ & H). by exists i.
      - exfalso. apply (Hh id c Hc Hst). apply mask_zero; [apply Hwf|]. intros i.
        destruct (has_port (active_resource_mask c) i) eqn:E; [|done]. exfalso. apply H. apply Exists_exists.
        exists i. split; [|done]. apply in_seq. pose proof (has_port_lt _ _ (wf_active_mask _ _ Hwf) E). lia. }
    eapply (Hno id c (resource_done_times c !!! i) Hc). unfold ctx_deadlines. rewrite Hst.
    apply list_elem_of_fmap. exists i. split; [done|]. apply list_elem_of_In, filter_In. split; [|done].
    apply in_seq. pose proof (has_port_lt _ _ (wf_active_mask _ _ Hwf) Hport). unfold PORT_COUNT. lia. }
  assert (occupied (active_ u) = 0) as Hocc.
  { pose proof (occupied_le (active_ u)). destruct (Z.eq_dec (occupied (active_ u)) 0) as [|Hne]; [done|exfalso].
    assert (0 < occupied (active_ u)) as (s & id & Hs)%occupied_pos by lia.
    destruct (slot_lookup u s id Hi Hs) as (c & Hc & Hst & _).
    destruct (state c) eqn:Hsc; try done.
    - eapply (Hno id c (launch_done_time c) Hc). unfold ctx_deadlines. rewrite Hsc. left.
    - pose proof (lookup_lt_Some _ _ _ Hs) as Hlt. specialize (Hrd s Hlt). apply slot_total in Hs.
      unfold slot_ready in Hrd. rewrite Hs, Hc, bool_decide_true in Hrd by done. cbn [andb] in Hrd.
      destruct (id_wf_facts u id c (inv_ids u Hi id) Hc) as (_ & _ & _ & _ & _ & Hwf & _).
      destruct (RequiredPorts_ok (dir c) (fine_grained_resources (config_ u))) as (m & Hm & Hps & _).
      rewrite (wf_mask _ _ Hwf) in Hm. injection Hm as <-.
      enough (resourcesAvailable u (resource_mask c) = true) by congruence.
      apply resourcesAvailable_spec; [apply inv_ports, Hi|done|]. intros i Hport.
      destruct (lookup_lt_is_Some_2 (resource_owners_ u) i) as [[j|] Ho]; [|exfalso|done].
      { rewrite (inv_ports u Hi). by apply (has_port_lt _ _ Hps). }
      apply (id_owner u j (inv_ids u Hi j)) in Ho as (cj & Hcj & Hstj & _). by eapply Htr.
    - by eapply Htr. }
  split; [|done]. destruct Hq as [|Hfull]; [done|]. rewrite (inv_active u Hi), Hocc in Hfull.
  pose proof (slot_count_pos _ Ht (inv_config u Hi)). rewrite (inv_slots u Hi) in Hfull. lia.
Qed.

Lemma scheduler_ok fuel now u : config_typed (config_ u) -> dte_ok u -> measure u < Z.of_nat fuel ->
  exists u' d, scheduler fuel now u = Ok (u', d) /\ dte_ok u' /\ evolves u u' /\ quiescent now u' /\
    (u' = u \/ measure u' < measure u) /\
    match d with
    | Some t => now < t /\ t ∈ deadlines u' /\ forall x, x ∈ deadlines u' -> t <= x
    | None => deadlines u' = []
    end.
Proof.
  intros Ht Hok Hm. destruct fuel as [|fuel]; [pose proof (measure_nonneg u); lia|]. cbn [scheduler].
  destruct (quiesce_ok (S fuel) now u Ht Hok Hm) as (u' & Hrun & Hok' & He & Hq & Hm'). rewrite Hrun.
  cbn [mbind result_bind]. pose proof Hok' as [Hi' _]. rewrite next_deadline_eq by done. cbn [mbind result_bind].
  pose proof (foldl_earlier None (deadlines u')) as Hd.
  destruct (foldl earlier None (deadlines u')) as [t|].
  - destruct Hd as [[?|Hin] Hle]; [done|]. pose proof (quiescent_deadlines now u' t Hi' Hq Hin) as Hlt.
    destruct (Z.leb_spec t now); [lia|]. exists u', (Some t). split_and!; try done. intros x Hx. apply Hle. by right.
  - destruct Hd as [_ Hd]. by exists u', None.
Qed.

(** Run the scheduler, let the time pass to the deadline it waits for, and
    so on, while nobody else touches the unit. *)
Fixpoint drain (fuel : nat) (now : Z) (u : DTEUnit) : result (Z * DTEUnit) :=
  match fuel with
  | O => Err out_of_fuel
  | S fuel =>
      scheduler (S (Z.to_nat (measure u))) now u ≫= fun '((u', d) : DTEUnit * option Z) =>
      match d with None => Ok (now, u') | Some t => drain fuel t u' end
  end.

Definition drained (u : DTEUnit) : Prop :=
  pending_ u = [] /\ inflight_count_ u = 0 /\ active_count_ u = 0 /\
  (forall i, PortBusy u i = false) /\
  forall id c, contexts_ u !! id = Some c -> state c = COMPLETED \/ state c = CANCELLED.

Lemma drained_ok now u : config_typed (config_ u) -> dte_ok u -> quiescent now u -> deadlines u = [] -> drained u.
Proof.
  intros Ht Hok Hq Hd. destruct (quiescent_has_deadline now u Ht Hok Hq Hd) as [Hp Ho]. destruct Hok as [Hi Hh].
  assert (forall id c, contexts_ u !! id = Some c -> in_slot (state c) = false) as Hns.
  { intros id c Hc. destruct (in_slot (state c)) eqn:E; [|done].
    destruct (active_in_slot u id c Hi Hc E) as (s & Hs & _).
    assert (0 < occupied (active_ u)) by (apply occupied_pos; by exists s, id). lia. }
  split_and!.
  - done.
  - rewrite (inv_inflight u Hi), Hp, Ho. done.
  - by rewrite (inv_active u Hi).
  - intros i. unfold PortBusy. destruct (PORT_COUNT <=? i)%nat eqn:E; [done|]. apply Nat.leb_gt in E.
    destruct (lookup_lt_is_Some_2 (resource_owners_ u) i) as [[j|] Hj]; [by rewrite (inv_ports u Hi)| |].
    + apply (id_owner u j (inv_ids u Hi j)) in Hj as (c & Hc & Hst & _). specialize (Hns j c Hc). by rewrite Hst in Hns.
    + by rewrite (list_lookup_total_correct _ _ _ Hj).
  - intros id c Hc. specialize (Hns id c Hc). destruct (state c) eqn:E; try done; [|by left|by right].
    assert (id ∈ pending_ u) as Hin by (apply (id_pending u id (inv_ids u Hi id)); by exists c).
    rewrite Hp in Hin. by apply elem_of_nil in Hin.
Qed.

Lemma drain_from_deadline fuel now0 now u : config_typed (config_ u) -> dte_ok u -> quiescent now0 u ->
  now ∈ deadlines u -> measure u < Z.of_nat fuel ->
  exists t u', drain fuel now u = Ok (t, u') /\ dte_ok u' /\ evolves u u' /\ now <= t /\ drained u'.
Proof.
  revert now0 now u; induction fuel as [|fuel IH]; intros now0 now u Ht Hok Hq Hin Hm;
    [pose proof (measure_nonneg u); lia|]. cbn [drain].
  destruct (scheduler_ok (S (Z.to_nat (measure u))) now u Ht Hok) as (u' & d & -> & Hok' & He & Hq' & Hm' & Hd); [lia|].
  cbn [mbind result_bind].
  assert (measure u' < measure u) as Hlt.
  { destruct Hm' as [->|]; [|done]. pose proof (quiescent_deadlines now u now (ok_inv u Hok) Hq' Hin). lia. }
  assert (config_typed (config_ u')) as Ht' by (by rewrite (ev_config _ _ He)).
  destruct d as [t|].
  - destruct Hd as (Hnow & Htin & _). destruct (IH now t u' Ht' Hok' Hq' Htin) as (t' & u'' & -> & Hok'' & He' & Hle & Hdr); [lia|].
    exists t', u''. split_and!; try done; [by etrans|lia].
  - exists now, u'. split_and!; try done; try lia. by eapply drained_ok.
Qed.

Lemma drain_ok fuel now u : config_typed (config_ u) -> dte_ok u -> measure u + 1 < Z.of_nat fuel ->
  exists t u', drain fuel now u = Ok (t, u') /\ dte_ok u' /\ evolves u u' /\ now <= t /\ drained u'.
Proof.
  intros Ht Hok Hm. destruct fuel as [|fuel]; [pose proof (measure_nonneg u); lia|]. cbn [drain].
  destruct (scheduler_ok (S (Z.to_nat (measure u))) now u Ht Hok) as (u' & d & -> & Hok' & He & Hq' & Hm' & Hd); [lia|].
  cbn [mbind result_bind].
  assert (config_typed (config_ u')) as Ht' by (by rewrite (ev_config _ _ He)).
  assert (measure u' <= measure u) as Hle by (destruct Hm' as [->|]; lia).
  destruct d as [t|].
  - destruct Hd as (Hnow & Htin & _).
    destruct (drain_from_deadline fuel now t u' Ht' Hok' Hq' Htin) as (t' & u'' & -> & Hok'' & He' & Hle' & Hdr); [lia|].
    exists t', u''. split_and!; try done; [by etrans|lia].
  - exists now, u'. split_and!; try done; try lia. by eapply drained_ok.
Qed.

(** ** Reachable states: any interleaving of the operations with the scheduler *)

Inductive dte_step : Z * DTEUnit -> Z * DTEUnit -> Prop :=
  | step_time now now' u : now <= now' -> dte_step (now, u) (now', u)
  | step_issue now u bits d u' o : 0 <= bits < 2 ^ 64 -> TryIssue now u bits d = Ok (u', o) -> dte_step (now, u) (now, u')
  | step_wait now u : dte_step (now, u) (now, (WaitForCredit u).1)
  | step_cancel now u id u' b : Cancel now u id = Ok (u', b) -> dte_step (now, u) (now, u')
  | step_release now u id : dte_step (now, u) (now, (Release u id).1)
  | step_scheduler fuel now u u' d : measure u < Z.of_nat fuel -> scheduler fuel now u = Ok (u', d) -> dte_step (now, u) (now, u').

Lemma reachable_ok c u0 s : config_typed c -> new_DTEUnit c = Ok u0 -> rtc dte_step (0, u0) s ->
  dte_ok s.2 /\ config_ s.2 = c.
Proof.
  intros Ht Hnew Hr. destruct (new_DTEUnit_ok c u0 Ht Hnew) as [Hok0 Hc0].
  remember (0, u0) as s0. assert (dte_ok s0.2 /\ config_ s0.2 = c) as H0 by (by subst). clear Heqs0 Hok0 Hc0.
  induction Hr as [|s1 s2 s3 Hs _ IH]; [done|]. apply IH. clear IH s3. destruct H0 as [Hok Hc].
  destruct Hs as [now now' u _|now u bits d u' o Hb HI|now u|now u id u' b HC|now u id|fuel now u u' d Hm HS]; cbn in *.
  - done.
  - apply TryIssue_ok in HI as (? & ? & _); cbn in *; [split; [done|congruence]|by rewrite Hc|done|done].
  - destruct (WaitForCredit_ok u Hok) as (? & _ & ?). split; [done|congruence].
  - apply Cancel_ok in HC as (u1 & b1 & [= <- <-] & ? & ? & _); [|done]. split; [done|congruence].
  - destruct (Release_ok u id Hok). split; [done|congruence].
  - destruct (scheduler_ok fuel now u) as (u1 & d1 & Hrun & Hok1 & He & _); [by rewrite Hc|done|done|].
    rewrite Hrun in HS. simplify_eq. split; [done|]. by rewrite (ev_config _ _ He).
Qed.

(** C2: the transfer engine is safe under every interleaving of issues, credit
    waits, cancellations, releases and scheduler runs.  No reachable state makes
    the scheduler or a cancellation fail (no internal inconsistency, no pointer
    to a released context, no endless scheduling round); a data port belongs to
    at most one transfer, which is transmitting and needs it; no two transfers
    share a command slot; the transfers in flight are those queued or in a slot
    and stay within the descriptor credits; and every transfer issued is
    completed, cancelled or in flight. *)
Theorem dte_safe (c : DTEConfig) (u0 u : DTEUnit) (now : Z) :
  config_typed c -> new_DTEUnit c = Ok u0 -> rtc dte_step (0, u0) (now, u) ->
  (forall fuel, measure u < Z.of_nat fuel -> is_ok (scheduler fuel now u) = true) /\
  (forall id, is_ok (Cancel now u id) = true) /\
  (forall i id, resource_owners_ u !! i = Some (Some id) ->
     exists x, contexts_ u !! id = Some x /\ state x = TRANSMITTING /\ has_port (resource_mask x) i = true) /\
  (forall i id id' x x', contexts_ u !! id = Some x -> contexts_ u !! id' = Some x' ->
     state x = TRANSMITTING -> state x' = TRANSMITTING ->
     has_port (active_resource_mask x) i = true -> has_port (active_resource_mask x') i = true -> id = id') /\
  (forall id id' x x', contexts_ u !! id = Some x -> contexts_ u !! id' = Some x' ->
     in_slot (state x) = true -> in_slot (state x') = true -> active_slot x = active_slot x' -> id = id') /\
  inflight_count_ u = Z.of_nat (length (pending_ u)) + active_count_ u /\
  inflight_count_ u <= descriptorCapacity u /\
  physical_issued (statistics_ u) =
    completed (statistics_ u) + cancelled (statistics_ u) + inflight_count_ u.
Proof.
  intros Ht Hnew Hr. destruct (reachable_ok c u0 (now, u) Ht Hnew Hr) as [Hok Hc]. cbn in *.
  pose proof Hok as [Hi Hh]. split_and!.
  - intros fuel Hf. destruct (scheduler_ok fuel now u) as (? & ? & -> & _); [by rewrite Hc|done|done|done].
  - intros id. destruct (Cancel_ok now u id _ Hok eq_refl) as (? & ? & -> & _). done.
  - intros i id Ho. apply (id_owner u id (inv_ids u Hi id)) in Ho as (x & Hx & Hst & Hp).
    exists x. split_and!; [done|done|]. by apply (wf_active_sub _ _ (proj1 (proj2 (proj2 (id_ctx u id (inv_ids u Hi id) x Hx))))).
  - intros i id id' x x' Hx Hx' Hs Hs' Hp Hp'.
    assert (resource_owners_ u !! i = Some (Some id)) as H1 by (apply (id_owner u id (inv_ids u Hi id)); by exists x).
    assert (resource_owners_ u !! i = Some (Some id')) as H2 by (apply (id_owner u id' (inv_ids u Hi id')); by exists x').
    congruence.
  - intros id id' x x' Hx Hx' Hs Hs' Heq. destruct (active_in_slot u id x Hi Hx Hs) as (s & Hsl & H1).
    destruct (active_in_slot u id' x' Hi Hx' Hs') as (s' & Hsl' & H2). replace s' with s in * by lia. congruence.
  - rewrite (inv_active u Hi). apply Hi.
  - apply Hi.
  - rewrite (inv_issued u Hi). symmetry. apply Hi.
Qed.

Definition ex_dte_config : DTEConfig := mkDTEConfig 2 2048 20 1 true 2 4 1024 1024 512 512 true.

Lemma dte_safe_witness : exists u0 u, new_DTEUnit ex_dte_config = Ok u0 /\
  rtc dte_step (0, u0) (50, u) /\ inflight_count_ u = 2 /\ is_ok (scheduler 30 50 u) = true.
Proof.
  assert (config_typed ex_dte_config) as Ht.
  { split; apply (bool_decide_unpack _); by vm_compute. }
  destruct (new_DTEUnit ex_dte_config) as [u0|] eqn:E0; [|by vm_compute in E0].
  destruct (TryIssue 0 u0 4096 SPM_TO_DRAM) as [[u1 o1]|] eqn:E1; [|vm_compute in E0; injection E0 as <-; by vm_compute in E1].
  destruct (TryIssue 0 u1 1000 DRAM_TO_SPM) as [[u2 o2]|] eqn:E2;
    [|vm_compute in E0; injection E0 as <-; vm_compute in E1; injection E1 as <- <-; by vm_compute in E2].
  assert (rtc dte_step (0, u0) (50, u2)) as Hr.
  { eapply rtc_l; [eapply step_issue; [|exact E1]; lia|]. eapply rtc_l; [eapply step_issue; [|exact E2]; lia|].
    eapply rtc_l; [apply (step_time 0 50); lia|]. apply rtc_refl. }
  exists u0, u2. split; [done|]. split; [done|].
  pose proof (dte_safe ex_dte_config u0 u2 50 Ht E0 Hr) as (Hs & _).
  vm_compute in E0; injection E0 as <-. vm_compute in E1; injection E1 as <- <-. vm_compute in E2; injection E2 as <- <-.
  split; [done|]. apply Hs. by vm_compute.
Defined.

(** C3: the transfer engine drains.  From every reachable state, letting the
    scheduler run and time pass to the deadlines it asks for ends after finitely
    many wake-ups, and then every transfer that was not cancelled is complete,
    the queue is empty and all ports are free: no transfer is lost, and none
    waits for ever for a slot, a port or a wake-up. *)
Theorem dte_drains (c : DTEConfig) (u0 u : DTEUnit) (now : Z) :
  config_typed c -> new_DTEUnit c = Ok u0 -> rtc dte_step (0, u0) (now, u) ->
  exists t u', drain (Z.to_nat (measure u) + 2) now u = Ok (t, u') /\ now <= t /\ drained u' /\
    forall id x, contexts_ u !! id = Some x -> exists x', contexts_ u' !! id = Some x' /\
      payload_bits x' = payload_bits x /\ dir x' = dir x /\
      state x' = if bool_decide (state x = CANCELLED) then CANCELLED else COMPLETED.
Proof.
  intros Ht Hnew Hr. destruct (reachable_ok c u0 (now, u) Ht Hnew Hr) as [Hok Hc]. cbn in *.
  destruct (drain_ok (Z.to_nat (measure u) + 2) now u) as (t & u' & Hrun & Hok' & He & Hle & Hdr);
    [by rewrite Hc|done|pose proof (measure_nonneg u); lia|].
  exists t, u'. split_and!; [done|done|done|]. intros id x Hx.
  pose proof (ev_ctx _ _ He id) as Hev. rewrite Hx in Hev.
  destruct (contexts_ u' !! id) as [x'|] eqn:Hx'; [|done]. destruct Hev as (Hp & Hd & _ & Hdone & Hcanc).
  exists x'. split_and!; [done|done|done|]. destruct Hdr as (_ & _ & _ & _ & Hend).
  case_bool_decide as Hs; [rewrite (Hdone (or_intror Hs)); done|].
  destruct (Hend id x' Hx') as [|Hs']; [done|]. by apply Hcanc in Hs'.
Qed.

Lemma dte_drains_witness : exists u0 u t u', new_DTEUnit ex_dte_config = Ok u0 /\
  TryIssue 0 u0 4096 SPM_TO_DRAM = Ok (u, Some 0) /\ drain 11 0 u = Ok (t, u') /\ drained u'.
Proof.
  assert (config_typed ex_dte_config) as Ht.
  { split; apply (bool_decide_unpack _); by vm_compute. }
  destruct (new_DTEUnit ex_dte_config) as [u0|] eqn:E0; [|by vm_compute in E0].
  destruct (TryIssue 0 u0 4096 SPM_TO_DRAM) as [[u1 o1]|] eqn:E1; [|vm_compute in E0; injection E0 as <-; by vm_compute in E1].
  assert (rtc dte_step (0, u0) (0, u1)) as Hr by (apply rtc_once; eapply step_issue; [|exact E1]; lia).
  assert ((Z.to_nat (measure u1) + 2 = 11)%nat /\ o1 = Some 0) as [Hm ->].
  { clear Ht Hr. vm_compute in E0; injection E0 as <-. vm_compute in E1; injection E1 as <- <-. by vm_compute. }
  destruct (dte_drains ex_dte_config u0 u1 0 Ht E0 Hr) as (t & u' & Hrun & _ & Hd & _).
  exists u0, u1, t, u'. rewrite Hm in Hrun. split; [reflexivity|]. split; [exact E1|]. split; [exact Hrun|exact Hd].
Defined.
