(* ===== verification/Json.v ===== *)
(** The JSON values that the configuration code reads (type [D2DJson], which is
    [nlohmann::json]) with the accessors the sources use.  A floating-point value is
    the fraction that the [double] is; an object is the association list of its members. *)

From S2P Require Import Prelude.

Inductive json : Type :=
  | JNull
  | JBool (b : bool)
  | JInt (z : Z)
  | JFloat (n : Z) (d : positive)
  | JStr (s : string)
  | JArr (l : list json)
  | JObj (m : list (string * json)).

Fixpoint member (key : string) (m : list (string * json)) : option json :=
  match m with
  | [] => None
  | (k, v) :: m' => if String.eqb k key then Some v else member key m'
  end.

(** [j.contains(key)]: false on a value that is not an object. *)
Definition find_key (j : json) (key : string) : option json :=
  match j with JObj m => member key m | _ => None end.
Definition contains (j : json) (key : string) : bool := bool_decide (is_Some (find_key j key)).

(** [j.at(key)] *)
Definition json_at (j : json) (key : string) : result json :=
  match j with
  | JObj m => match member key m with Some v => Ok v | None => Err (json_error "key not found") end
  | _ => Err (json_error "cannot use at()")
  end.

(** [j.get<T>()] for the types that occur; a boolean converts to a number, and a
    [double] to an integer by truncation. *)
Definition get_int (j : json) : result Z :=
  match j with
  | JInt z => Ok (i32 z)
  | JFloat n d => Ok (i32 (Z.quot n (Z.pos d)))
  | JBool b => Ok (b2z b)
  | _ => Err (json_error "type must be number")
  end.
Definition get_llong (j : json) : result Z :=
  match j with
  | JInt z => Ok (i64 z)
  | JFloat n d => Ok (i64 (Z.quot n (Z.pos d)))
  | JBool b => Ok (b2z b)
  | _ => Err (json_error "type must be number")
  end.
Definition get_ullong (j : json) : result Z :=
  match j with
  | JInt z => Ok (u64 z)
  | JFloat n d => Ok (u64 (Z.quot n (Z.pos d)))
  | JBool b => Ok (b2z b)
  | _ => Err (json_error "type must be number")
  end.
Definition get_bool (j : json) : result bool := match j with JBool b => Ok b | _ => Err (json_error "type must be boolean") end.
Definition double : Type := Z * positive.
Definition get_double (j : json) : result double :=
  match j with
  | JInt z => Ok (z, 1%positive)
  | JFloat n d => Ok (n, d)
  | JBool b => Ok (b2z b, 1%positive)
  | _ => Err (json_error "type must be number")
  end.
Definition get_string (j : json) : result string :=
  match j with JStr s => Ok s | _ => Err (json_error "type must be string") end.

Definition is_object (j : json) : bool := match j with JObj _ => true | _ => false end.
Definition is_array (j : json) : bool := match j with JArr _ => true | _ => false end.
Definition is_integer (j : json) : bool := match j with JInt _ => true | _ => false end.

(** [j.at(key).get<int>()] and [j.at(key).get<std::string>()] *)
Definition int_at (j : json) (key : string) : result Z := json_at j key ≫= get_int.
Definition str_at (j : json) (key : string) : result string := json_at j key ≫= get_string.

(** [if (j.contains(key)) x = j.at(key).get<int>();] *)
Definition int_or (j : json) (key : string) (x : Z) : result Z :=
  match find_key j key with Some v => get_int v | None => Ok x end.

(** [j.value(key, x)]: only for an object. *)
Definition value_or {A} (j : json) (key : string) (get : json -> result A) (x : A) : result A :=
  match j with
  | JObj m => match member key m with Some v => get v | None => Ok x end
  | _ => Err (json_error "cannot use value()")
  end.
(** [if (j.contains(key)) x = get(j.at(key));] *)
Definition or_default {A} (j : json) (key : string) (get : json -> result A) (x : A) : result A :=
  match find_key j key with Some v => get v | None => Ok x end.

Lemma get_int_range j x : get_int j = Ok x -> INT_MIN <= x <= INT_MAX.
Proof.
  unfold INT_MIN, INT_MAX. destruct j; cbn -[swrap]; intros H; simplify_eq.
  - destruct b; cbn; lia.
  - pose proof (swrap_range 32 z ltac:(lia)). lia.
  - pose proof (swrap_range 32 (Z.quot n (Z.pos d)) ltac:(lia)). lia.
Qed.

Lemma int_or_range j key x y : INT_MIN <= x <= INT_MAX -> int_or j key x = Ok y -> INT_MIN <= y <= INT_MAX.
Proof.
  unfold int_or. intros Hx. destruct (find_key j key); [apply get_int_range|]. intros; by simplify_eq.
Qed.
