(* ===== verification/D2DConfig.v ===== *)
(** The [die_ports.c2c] contract of a die-to-die link ([D2DLinkConfig] and the
    rates of [include/die/port.h]; [ParseRate] and [ParseD2DLinkConfig] of
    [src/die/port_config.cpp]): the fields are partitioned by backend and mode,
    and what is accepted satisfies the capacity contract of its mode. *)

From S2P Require Import Prelude Json.

(** ** Data *)

Inductive D2DBackend : Type := BACKEND_CYCLE | BACKEND_BEHAVIORAL.
Inductive D2DMode : Type := MODE_FUNCTIONAL_V2 | MODE_BOUNDED_SAF.
Inductive D2DSafety : Type := SAFETY_NONE | SAFETY_WHOLE_FLOW_SAF.
Inductive D2DSelectPolicy : Type :=
  SELECT_NEAREST | SELECT_BANDED_NEAREST | SELECT_TAG_HASH | SELECT_HYBRID | SELECT_DYNAMIC.
#[export] Instance D2DBackend_eq_dec : EqDecision D2DBackend.
Proof. solve_decision. Defined.
#[export] Instance D2DMode_eq_dec : EqDecision D2DMode.
Proof. solve_decision. Defined.
#[export] Instance D2DSafety_eq_dec : EqDecision D2DSafety.
Proof. solve_decision. Defined.
#[export] Instance D2DSelectPolicy_eq_dec : EqDecision D2DSelectPolicy.
Proof. solve_decision. Defined.

Record D2DRate : Type := mkRate { num : Z; den : Z }.
Definition default_rate : D2DRate := mkRate 1 1.
Definition Valid (r : D2DRate) : bool := (0 <? num r) && (0 <? den r) && (num r <=? den r).

(** Arithmetic on [long long]. *)
Definition D2D_CREDIT_PIPE : Z := 2.
Definition D2DCreditRttCycles (link_latency : Z) : Z :=
  let service_latency := if 0 <? link_latency then link_latency else 1 in
  i64 (i64 (2 * service_latency) + D2D_CREDIT_PIPE).
Definition D2DBdpPackets (link_latency : Z) (rate : D2DRate) : Z :=
  let n := i64 (D2DCreditRttCycles link_latency * num rate) in
  i64 (Z.quot (i64 (i64 (n + den rate) - 1)) (den rate)).

Record D2DLinkConfig : Type := mkConfig {
  backend : D2DBackend; mode : D2DMode; safety : D2DSafety;
  port_rate : D2DRate; link_rate : D2DRate; link_latency : Z;
  saf_buffer_depth : Z; link_inflight_depth : Z; rx_buffer_depth : Z; ctrl_buffer_depth : Z;
  v5_multiport : bool; select_policy_explicit : bool; select_policy : D2DSelectPolicy; select_seed : Z
}.
Definition default_config : D2DLinkConfig :=
  mkConfig BACKEND_CYCLE MODE_FUNCTIONAL_V2 SAFETY_NONE default_rate default_rate 0 0 0 0 0
    false false SELECT_NEAREST 0.

(** ** Parsing *)

Definition ParseRate (c : json) (key : string) (dflt : D2DRate) : result D2DRate :=
  match find_key c key with
  | None => Ok dflt
  | Some r =>
      (if is_object r then
         THROW runtime_error "die_ports.c2c: rate object needs both num and den"
           WHEN negb (contains r "num") || negb (contains r "den");;
         int_at r "num" ≫= fun n => int_at r "den" ≫= fun d => Ok (mkRate n d)
       else if is_integer r then get_int r ≫= fun n => Ok (mkRate n 1)
       else Err (runtime_error "die_ports.c2c: rate must be an integer or {num,den}")) ≫= fun out =>
      THROW runtime_error "die_ports.c2c: rate num/den must be positive integers"
        WHEN (num out <=? 0) || (den out <=? 0);;
      THROW runtime_error "die_ports.c2c: rate > 1 packet/cycle is not representable" WHEN den out <? num out;;
      Ok out
  end.

Definition policy_of_string (p : string) : result D2DSelectPolicy :=
  if String.eqb p "nearest" then Ok SELECT_NEAREST
  else if String.eqb p "banded_nearest" then Ok SELECT_BANDED_NEAREST
  else if String.eqb p "tag_hash" then Ok SELECT_TAG_HASH
  else if String.eqb p "hybrid" then Ok SELECT_HYBRID
  else if String.eqb p "dynamic" then Ok SELECT_DYNAMIC
  else Err (runtime_error "die_ports.c2c.select_policy: unknown policy").

(** The multi-port fields: (v5_multiport, select_policy_explicit, select_policy, select_seed). *)
Definition parse_multiport (c2c : json) : result (bool * bool * D2DSelectPolicy * Z) :=
  match find_key c2c "multi_port" with
  | None => Ok false
  | Some (JBool b) => Ok b
  | Some _ => Err (runtime_error "die_ports.c2c.multi_port must be boolean")
  end ≫= fun v5 =>
  match find_key c2c "select_policy" with
  | None => Ok (false, SELECT_NEAREST)
  | Some p => get_string p ≫= fun s => policy_of_string s ≫= fun q => Ok (true, q)
  end ≫= fun '((explicit, policy) : bool * D2DSelectPolicy) =>
  match find_key c2c "select_seed" with
  | None => Ok 0
  | Some s =>
      THROW runtime_error "die_ports.c2c.select_seed must be an integer" WHEN negb (is_integer s);;
      get_llong s ≫= fun seed =>
      THROW runtime_error "die_ports.c2c.select_seed must be >= 0" WHEN seed <? 0;;
      Ok seed
  end ≫= fun seed =>
  THROW runtime_error "V5 multi_port requires explicit select_policy" WHEN v5 && negb explicit;;
  THROW runtime_error "V5 select_policy/select_seed require multi_port=true"
    WHEN negb v5 && (explicit || contains c2c "select_seed");;
  Ok (v5, explicit, policy, seed).

Definition parse_backend (c2c : json) : result D2DBackend :=
  match find_key c2c "backend" with
  | None => Ok BACKEND_CYCLE
  | Some b =>
      get_string b ≫= fun s =>
      if String.eqb s "cycle" then Ok BACKEND_CYCLE
      else if String.eqb s "behavioral" then Ok BACKEND_BEHAVIORAL
      else Err (runtime_error "die_ports.c2c.backend: unknown backend")
  end.

Definition parse_mode (c2c : json) : result D2DMode :=
  match find_key c2c "mode" with
  | None => Ok MODE_FUNCTIONAL_V2
  | Some m =>
      get_string m ≫= fun s =>
      if String.eqb s "functional_v2" then Ok MODE_FUNCTIONAL_V2
      else if String.eqb s "bounded_saf" then Ok MODE_BOUNDED_SAF
      else Err (runtime_error "die_ports.c2c.mode: unknown mode")
  end.

Definition FORBIDDEN : list string :=
  ["safety"; "saf_buffer_depth"; "link_inflight_depth"; "rx_buffer_depth"; "ctrl_buffer_depth";
   "latency"; "link_bw"; "bw_per_cycle"; "buffer_depth"]%string.
Definition REQUIRED : list string := ["port_rate"; "link_rate"; "link_latency"]%string.
Definition LEGACY : list string := ["latency"; "link_bw"; "bw_per_cycle"; "buffer_depth"]%string.
Definition V3ONLY : list string :=
  ["safety"; "port_rate"; "link_rate"; "link_latency"; "saf_buffer_depth"; "link_inflight_depth";
   "rx_buffer_depth"; "ctrl_buffer_depth"]%string.

Definition parse_behavioral (c2c : json) (md : D2DMode) (v5 : bool * bool * D2DSelectPolicy * Z) : result D2DLinkConfig :=
  THROW runtime_error "die_ports.c2c: backend=behavioral must not set cycle-only 'mode'" WHEN contains c2c "mode";;
  THROW runtime_error "die_ports.c2c: field is not valid for backend=behavioral" WHEN existsb (contains c2c) FORBIDDEN;;
  THROW runtime_error "die_ports.c2c: backend=behavioral requires a field explicitly"
    WHEN negb (forallb (contains c2c) REQUIRED);;
  ParseRate c2c "port_rate" default_rate ≫= fun pr =>
  ParseRate c2c "link_rate" default_rate ≫= fun lr =>
  int_at c2c "link_latency" ≫= fun lat =>
  THROW runtime_error "die_ports.c2c: link_latency must be >= 0" WHEN lat <? 0;;
  Ok (mkConfig BACKEND_BEHAVIORAL md SAFETY_NONE pr lr lat 0 0 0 0 v5.1.1.1 v5.1.1.2 v5.1.2 v5.2).

Definition parse_functional (c2c : json) (v5 : bool * bool * D2DSelectPolicy * Z) : result D2DLinkConfig :=
  THROW runtime_error "die_ports.c2c: field only applies to mode=bounded_saf" WHEN existsb (contains c2c) V3ONLY;;
  int_or c2c "latency" 0 ≫= fun lat =>
  THROW runtime_error "die_ports.c2c: latency must be >= 0" WHEN lat <? 0;;
  Ok (mkConfig BACKEND_CYCLE MODE_FUNCTIONAL_V2 SAFETY_NONE default_rate default_rate lat 0 0 0 0
        v5.1.1.1 v5.1.1.2 v5.1.2 v5.2).

Definition parse_safety (c2c : json) : result D2DSafety :=
  match find_key c2c "safety" with
  | None => Ok SAFETY_NONE
  | Some s =>
      get_string s ≫= fun sf =>
      if String.eqb sf "whole_flow_saf" then Ok SAFETY_WHOLE_FLOW_SAF
      else if String.eqb sf "none" then Ok SAFETY_NONE
      else Err (runtime_error "die_ports.c2c.safety: unknown policy")
  end.

Definition depth (c2c : json) (k : string) : result Z :=
  match find_key c2c k with
  | None => Ok 0
  | Some v =>
      get_int v ≫= fun d =>
      THROW runtime_error "die_ports.c2c: depth must be >= 1" WHEN d <? 1;; Ok d
  end.

Definition parse_bounded (c2c : json) (v5 : bool * bool * D2DSelectPolicy * Z) : result D2DLinkConfig :=
  THROW runtime_error "die_ports.c2c: legacy field is not allowed under mode=bounded_saf" WHEN existsb (contains c2c) LEGACY;;
  parse_safety c2c ≫= fun sf =>
  ParseRate c2c "port_rate" default_rate ≫= fun pr =>
  ParseRate c2c "link_rate" default_rate ≫= fun lr =>
  int_or c2c "link_latency" 0 ≫= fun lat =>
  THROW runtime_error "die_ports.c2c: link_latency must be >= 0" WHEN lat <? 0;;
  depth c2c "saf_buffer_depth" ≫= fun saf =>
  depth c2c "link_inflight_depth" ≫= fun inflight =>
  depth c2c "rx_buffer_depth" ≫= fun rx =>
  depth c2c "ctrl_buffer_depth" ≫= fun ctrl =>
  THROW runtime_error "die_ports.c2c: mode=bounded_saf requires an explicit safety policy"
    WHEN negb (bool_decide (sf = SAFETY_WHOLE_FLOW_SAF));;
  THROW runtime_error "die_ports.c2c: mode=bounded_saf requires the four depths >= 1"
    WHEN existsb (fun v => v <? 1) [saf; inflight; rx; ctrl];;
  THROW runtime_error "die_ports.c2c: link_inflight_depth < bandwidth-delay product"
    WHEN inflight <? D2DBdpPackets lat lr;;
  Ok (mkConfig BACKEND_CYCLE MODE_BOUNDED_SAF sf pr lr lat saf inflight rx ctrl
        v5.1.1.1 v5.1.1.2 v5.1.2 v5.2).

Definition ParseD2DLinkConfig (c2c : json) : result D2DLinkConfig :=
  parse_multiport c2c ≫= fun v5 =>
  parse_backend c2c ≫= fun b =>
  parse_mode c2c ≫= fun md =>
  match b, md with
  | BACKEND_BEHAVIORAL, _ => parse_behavioral c2c md v5
  | BACKEND_CYCLE, MODE_FUNCTIONAL_V2 => parse_functional c2c v5
  | BACKEND_CYCLE, MODE_BOUNDED_SAF => parse_bounded c2c v5
  end.

(** ** The bandwidth-delay product *)

(** On the values that a configuration can hold no [long long] wraps, so the
    bound is the exact ceiling. *)
Lemma bdp_exact L r : 0 <= L <= INT_MAX -> 0 < num r <= INT_MAX -> 0 < den r <= INT_MAX ->
  D2DBdpPackets L r = ceil_div ((2 * Z.max L 1 + 2) * num r) (den r).
Proof.
  unfold INT_MAX. intros HL Hn Hd. unfold D2DBdpPackets, D2DCreditRttCycles, D2D_CREDIT_PIPE.
  replace (if 0 <? L then L else 1) with (Z.max L 1) by (destruct (Z.ltb_spec 0 L); lia).
  set (M := Z.max L 1). assert (1 <= M <= 2 ^ 31 - 1) by lia.
  assert (0 < (2 * M + 2) * num r <= 2 ^ 32 * (2 ^ 31 - 1)) by nia.
  assert (0 <= ((2 * M + 2) * num r + den r - 1) / den r <= (2 * M + 2) * num r + den r - 1) as Hq.
  { split; [apply Z.div_pos; lia|]. apply Z.div_le_upper_bound; nia. }
  rewrite (swrap_small 64 (2 * M)), (swrap_small 64 (2 * M + 2)) by lia.
  rewrite (swrap_small 64 (_ * _)), (swrap_small 64 (_ + _)), (swrap_small 64 (_ - 1)) by lia.
  rewrite Z.quot_div_nonneg by lia. rewrite swrap_small by lia. apply ceil_div_alt; lia.
Qed.

(** ** What is accepted *)

Definition rate_wf (r : D2DRate) : Prop := Valid r = true /\ den r <= INT_MAX.

(** The contract of a configuration: its class of fields and the capacities its
    mode requires. *)
Record config_wf (c : D2DLinkConfig) : Prop := {
  wf_port_rate : rate_wf (port_rate c);
  wf_link_rate : rate_wf (link_rate c);
  wf_latency : 0 <= link_latency c <= INT_MAX;
  wf_seed : 0 <= select_seed c < 2 ^ 63;
  wf_multiport : v5_multiport c = select_policy_explicit c;
  wf_single : v5_multiport c = false -> select_policy c = SELECT_NEAREST /\ select_seed c = 0;
  wf_bounded : backend c = BACKEND_CYCLE -> mode c = MODE_BOUNDED_SAF ->
    safety c = SAFETY_WHOLE_FLOW_SAF /\
    1 <= saf_buffer_depth c <= INT_MAX /\ 1 <= rx_buffer_depth c <= INT_MAX /\ 1 <= ctrl_buffer_depth c <= INT_MAX /\
    (2 * Z.max (link_latency c) 1 + 2) * num (link_rate c) <= link_inflight_depth c * den (link_rate c) /\
    1 <= link_inflight_depth c <= INT_MAX;
  wf_unbounded : backend c = BACKEND_BEHAVIORAL \/ mode c = MODE_FUNCTIONAL_V2 ->
    mode c = MODE_FUNCTIONAL_V2 /\ safety c = SAFETY_NONE /\ saf_buffer_depth c = 0 /\
    link_inflight_depth c = 0 /\ rx_buffer_depth c = 0 /\ ctrl_buffer_depth c = 0;
  wf_functional : backend c = BACKEND_CYCLE -> mode c = MODE_FUNCTIONAL_V2 ->
    port_rate c = default_rate /\ link_rate c = default_rate
}.

(** No field is accepted and then ignored: the members of a class that the mode
    does not use are absent from the document. *)
Definition fields_wf (c2c : json) (c : D2DLinkConfig) : Prop :=
  forall k, contains c2c k = true ->
    match backend c, mode c with
    | BACKEND_BEHAVIORAL, _ => k <> "mode"%string /\ k ∉ FORBIDDEN
    | BACKEND_CYCLE, MODE_FUNCTIONAL_V2 => k ∉ V3ONLY
    | BACKEND_CYCLE, MODE_BOUNDED_SAF => k ∉ LEGACY
    end.

Lemma rate_default : rate_wf default_rate.
Proof. done. Qed.

Lemma ParseRate_wf c key dflt r : rate_wf dflt -> ParseRate c key dflt = Ok r -> rate_wf r.
Proof.
  unfold ParseRate. intros Hd H. destruct (find_key c key) as [j|]; [|by simplify_eq].
  apply bind_ok in H as (o & Ho & H). inv_ok. split_guards.
  assert (den r <= INT_MAX) as Hden.
  { destruct (is_object j); [|destruct (is_integer j); [|done]]; inv_ok; cbn; [|done].
    unfold int_at in *. inv_ok. match goal with H : get_int _ = Ok ?x |- ?x <= _ => apply get_int_range in H; lia end. }
  split; [|done]. unfold Valid. rewrite !andb_true_iff, !Z.ltb_lt, Z.leb_le. lia.
Qed.

Lemma parse_multiport_wf c b e p s : parse_multiport c = Ok (b, e, p, s) ->
  0 <= s < 2 ^ 63 /\ b = e /\ (b = false -> p = SELECT_NEAREST /\ s = 0).
Proof.
  unfold parse_multiport, contains. intros H. inv_ok. destruct r0 as [e' p']. inv_ok. split_guards.
  assert (0 <= s < 2 ^ 63) as Hs.
  { destruct (find_key c "select_seed") as [j|]; inv_ok; [|lia]. split_guards.
    destruct j; try done. cbn -[swrap] in *. simplify_eq. pose proof (swrap_range 64 z ltac:(lia)). lia. }
  split; [done|]. destruct b, e; cbn in *; try done. split; [done|]. intros _. split.
  - destruct (find_key c "select_policy"); inv_ok. done.
  - apply bool_decide_eq_false in Hguard0. destruct (find_key c "select_seed"); [by contradict Hguard0|by simplify_eq].
Qed.

Lemma parse_mode_key c m : parse_mode c = Ok m -> contains c "mode" = false -> m = MODE_FUNCTIONAL_V2.
Proof.
  unfold parse_mode, contains. intros H Hk. destruct (find_key c "mode"); [|by simplify_eq].
  apply bool_decide_eq_false in Hk. by contradict Hk.
Qed.

Lemma depth_range c k d : depth c k = Ok d -> d <= INT_MAX.
Proof.
  unfold depth. intros H. destruct (find_key c k) as [j|]; inv_ok; [|done].
  apply get_int_range in Hr; lia.
Qed.

Lemma absent_keys c ks k : existsb (contains c) ks = false -> contains c k = true -> k ∉ ks.
Proof.
  intros H Hk Hin. enough (existsb (contains c) ks = true) by congruence.
  apply existsb_exists. exists k. split; [by apply list_elem_of_In|done].
Qed.

Lemma ParseD2DLinkConfig_wf (c2c : json) (c : D2DLinkConfig) :
  ParseD2DLinkConfig c2c = Ok c -> config_wf c /\ fields_wf c2c c.
Proof.
  unfold ParseD2DLinkConfig. intros H. apply bind_ok in H as ([[[b e] p] s] & Hv & H).
  apply parse_multiport_wf in Hv as (Hs & Hb & Hp). apply bind_ok in H as (bk & _ & H).
  apply bind_ok in H as (md & Hm & H). destruct bk; [destruct md|].
  - unfold parse_functional in H. inv_ok. split_guards.
    assert (r <= INT_MAX) by (eapply int_or_range; [|eassumption]; ulia).
    split; [split; cbn; try done; try apply rate_default; lia|].
    intros k Hk. by eapply absent_keys.
  - unfold parse_bounded in H. inv_ok. split_guards.
    assert (forall k, contains c2c k = true -> k ∉ LEGACY) as Hkeys by (intros; by eapply absent_keys).
    assert (r2 <= INT_MAX) by (eapply int_or_range; [|eassumption]; ulia).
    assert (rate_wf r0) as Hr0wf by (eapply ParseRate_wf; [|eassumption]; apply rate_default).
    assert (rate_wf r1) as Hr1wf by (eapply ParseRate_wf; [|eassumption]; apply rate_default).
    repeat match goal with H : depth _ _ = Ok _ |- _ => apply depth_range in H end.
    cbn in *. split_guards. apply bool_decide_eq_true in Hguard1 as ->.
    split; [|exact Hkeys].
    assert ((2 * Z.max r2 1 + 2) * num r1 <= r4 * den r1).
    { destruct Hr1wf as [Hv Hd]. unfold Valid in Hv. split_guards.
      match goal with H : D2DBdpPackets _ _ <= _ |- _ => rewrite bdp_exact in H by (unfold INT_MAX in *; lia);
        apply ceil_div_le_iff in H end; lia. }
    split; cbn; try done; try lia. by intros [|].
  - unfold parse_behavioral in H. inv_ok. split_guards.
    assert (md = MODE_FUNCTIONAL_V2) as -> by (by eapply parse_mode_key).
    unfold int_at in *. inv_ok. match goal with H : get_int _ = Ok _ |- _ => apply get_int_range in H end.
    split.
    + split; cbn; try done; try lia; eapply ParseRate_wf; try eassumption; apply rate_default.
    + intros k Hk. cbn. split; [intros ->; congruence|by eapply absent_keys].
Qed.

(** An accepted [die_ports.c2c] object satisfies the contract of its mode:
    rates in (0, 1], bounded mode with its four depths, its safety policy and an
    in-flight depth of at least the exact bandwidth-delay product; and no field
    of another mode is present, so none is accepted and then ignored. *)
Theorem link_config_contract (c2c : json) (c : D2DLinkConfig) :
  ParseD2DLinkConfig c2c = Ok c -> config_wf c /\ fields_wf c2c c.
Proof. apply ParseD2DLinkConfig_wf. Qed.

Definition demo_c2c : json := JObj [("mode", JStr "bounded_saf"); ("safety", JStr "whole_flow_saf");
  ("link_rate", JObj [("num", JInt 1); ("den", JInt 4)]); ("link_latency", JInt 7);
  ("saf_buffer_depth", JInt 64); ("link_inflight_depth", JInt 4); ("rx_buffer_depth", JInt 8);
  ("ctrl_buffer_depth", JInt 2)]%string.

(** A document without [c2c] fields of a later version keeps the old behaviour. *)
Example default_config_kept : ParseD2DLinkConfig (JObj []) = Ok default_config.
Proof. reflexivity. Qed.
