(* ===== verification/DieTopology.v ===== *)
(** The geometry of the machine and the ports of a die ([include/die/port.h],
    [src/die/port_config.cpp], coordinates of [include/utils/router_utils.h] and
    [src/utils/router_utils.cpp]): port placement, the directed links between
    neighbouring dies, the choice of an exit port and the HOST lanes.

    The globals that the configuration sets are the fields of a [Geometry] and
    of a [D2DPortTable]; the JSON document is the argument of [ParseDiePorts].
    Every coordinate and identifier is bounded by the 65536 end points that
    [ValidateAddressSpace] allows, so the [int] arithmetic on them does not
    overflow and is not wrapped. *)

From S2P Require Import Prelude Json D2DConfig MsgWire.

(** ** Geometry *)

(** [enum Directions] *)
Inductive Directions : Type := WEST | EAST | NORTH | SOUTH | CENTER | DIRECTIONS | HOST.
#[export] Instance Directions_eq_dec : EqDecision Directions.
Proof. solve_decision. Defined.
Definition dir_code (d : Directions) : Z :=
  match d with WEST => 0 | EAST => 1 | NORTH => 2 | SOUTH => 3 | CENTER => 4 | DIRECTIONS => 5 | HOST => 6 end.

(** A direction of the mesh. *)
Definition is_side (d : Directions) : bool :=
  match d with WEST | EAST | NORTH | SOUTH => true | _ => false end.

Class Geometry : Type := mkGeometry { GRID_X : Z; GRID_Y : Z; DIE_X : Z; DIE_Y : Z }.

Definition CORES_PER_DIE `{Geometry} : Z := GRID_X * GRID_Y.
Definition DIE_COUNT `{Geometry} : Z := DIE_X * DIE_Y.
Definition TOTAL_CORES `{Geometry} : Z := CORES_PER_DIE * DIE_COUNT.

Definition ValidateAddressSpace `{Geometry} : result unit :=
  THROW runtime_error "hardware config: GRID_X/Y and DIE_X/Y must be positive"
    WHEN (GRID_X <=? 0) || (GRID_Y <=? 0) || (DIE_X <=? 0) || (DIE_Y <=? 0);;
  let cores_per_die := GRID_X * GRID_Y in
  let die_count := DIE_X * DIE_Y in
  let total_cores := cores_per_die * die_count in
  let endpoint_space := total_cores + 2 * die_count in
  throw_if (65536 <? endpoint_space) (runtime_error "endpoint address space").

Definition GlobalId `{Geometry} (die_id local_id : Z) : Z := die_id * CORES_PER_DIE + local_id.
Definition DieOfGlobal `{Geometry} (gid : Z) : Z := Z.quot gid CORES_PER_DIE.
Definition LocalOfGlobal `{Geometry} (gid : Z) : Z := Z.rem gid CORES_PER_DIE.
Definition DieXOf `{Geometry} (die_id : Z) : Z := Z.rem die_id DIE_X.
Definition DieYOf `{Geometry} (die_id : Z) : Z := Z.quot die_id DIE_X.
Definition LocalXOf `{Geometry} (local_id : Z) : Z := Z.rem local_id GRID_X.
Definition LocalYOf `{Geometry} (local_id : Z) : Z := Z.quot local_id GRID_X.

Definition IsDieEdge `{Geometry} (local_id : Z) (dir : Directions) : bool :=
  let x := Z.rem local_id GRID_X in
  let y := Z.quot local_id GRID_X in
  match dir with
  | WEST => x =? 0
  | EAST => x =? GRID_X - 1
  | SOUTH => y =? 0
  | NORTH => y =? GRID_Y - 1
  | _ => false
  end.

Definition OpenMeshNeighbor `{Geometry} (global_core : Z) (dir : Directions) : Z :=
  let die := Z.quot global_core CORES_PER_DIE in
  let local := Z.rem global_core CORES_PER_DIE in
  if IsDieEdge local dir then -1 else
  let lx := Z.rem local GRID_X in
  let ly := Z.quot local GRID_X in
  match dir with
  | WEST => die * CORES_PER_DIE + (ly * GRID_X + (lx - 1))
  | EAST => die * CORES_PER_DIE + (ly * GRID_X + (lx + 1))
  | SOUTH => die * CORES_PER_DIE + ((ly - 1) * GRID_X + lx)
  | NORTH => die * CORES_PER_DIE + ((ly + 1) * GRID_X + lx)
  | _ => -1
  end.

Definition GetInputSource `{Geometry} (dir : Directions) (pos : Z) : Z :=
  let x := Z.rem pos GRID_X in
  let y := Z.quot pos GRID_X in
  match dir with
  | WEST => y * GRID_X + Z.rem (x - 1 + GRID_X) GRID_X
  | NORTH => Z.rem (y + 1) GRID_Y * GRID_X + x
  | EAST => y * GRID_X + Z.rem (x + 1) GRID_X
  | SOUTH => Z.rem (y - 1 + GRID_Y) GRID_Y * GRID_X + x
  | _ => 0
  end.

Definition GetOpposeDirection (dir : Directions) : Directions :=
  match dir with WEST => EAST | EAST => WEST | NORTH => SOUTH | SOUTH => NORTH | _ => CENTER end.

Definition DieFirstHopDir `{Geometry} (my_die des_die : Z) : Directions :=
  let mx := Z.rem my_die DIE_X in let myy := Z.quot my_die DIE_X in
  let dx := Z.rem des_die DIE_X in let dy := Z.quot des_die DIE_X in
  if negb (dx =? mx) then (if mx <? dx then EAST else WEST)
  else if negb (dy =? myy) then (if myy <? dy then NORTH else SOUTH)
  else CENTER.

Definition DieManhattan `{Geometry} (a b : Z) : Z :=
  let ax := Z.rem a DIE_X in let ay := Z.quot a DIE_X in
  let bx := Z.rem b DIE_X in let by_ := Z.quot b DIE_X in
  (if bx <? ax then ax - bx else bx - ax) + (if by_ <? ay then ay - by_ else by_ - ay).

Definition DieNeighbor `{Geometry} (die_id : Z) (dir : Directions) : Z :=
  let dx0 := Z.rem die_id DIE_X in
  let dy0 := Z.quot die_id DIE_X in
  let target := match dir with
    | EAST => Some (dx0 + 1, dy0) | WEST => Some (dx0 - 1, dy0)
    | NORTH => Some (dx0, dy0 + 1) | SOUTH => Some (dx0, dy0 - 1)
    | _ => None end in
  match target with
  | None => -1
  | Some (dx, dy) =>
      if (dx <? 0) || (DIE_X <=? dx) || (dy <? 0) || (DIE_Y <=? dy) then -1 else dy * DIE_X + dx
  end.

(** [OppositeSide] is the same function as [GetOpposeDirection], written again
    in [port_config.cpp]. *)
Definition OppositeSide (d : Directions) : Directions :=
  match d with NORTH => SOUTH | SOUTH => NORTH | EAST => WEST | WEST => EAST | _ => CENTER end.

(** ** Ports *)

(** [enum PortRole] *)
Inductive PortRole : Type := ROLE_HOST | ROLE_MEM | ROLE_C2C.
#[export] Instance PortRole_eq_dec : EqDecision PortRole.
Proof. solve_decision. Defined.

(** [struct D2DPort] without its traffic counters *)
Record D2DPort : Type := mkPort {
  port_id : Z; tile : Z; side : Directions; role : PortRole; pdir : Directions;
  bw : Z; latency : Z; buf : Z; link_group : Z
}.
#[export] Instance D2DPort_inhabited : Inhabited D2DPort :=
  populate (mkPort 0 0 CENTER ROLE_MEM CENTER 0 0 0 (-1)).

(** [struct D2DLink] *)
Record D2DLink : Type := mkLink {
  local_die : Z; local_port : Z; remote_die : Z; remote_port : Z;
  tx_bw : Z; rx_bw : Z; l_latency : Z; l_group : Z
}.
#[export] Instance D2DLink_inhabited : Inhabited D2DLink := populate (mkLink 0 0 0 0 0 0 0 (-1)).
#[export] Instance D2DLink_eq_dec : EqDecision D2DLink.
Proof. solve_decision. Defined.

(** [struct D2DPortTable] *)
Record D2DPortTable : Type := mkTable {
  active : bool; ports : list D2DPort; port_for_host : list Z; port_for : list (list Z)
}.

Definition is_c2c (d : Directions) (p : D2DPort) : bool :=
  bool_decide (role p = ROLE_C2C) && bool_decide (pdir p = d).

Definition PortsForDir (t : D2DPortTable) (d : Directions) : list Z :=
  port_id <$> List.filter (is_c2c d) (ports t).

Definition HostPortCount (t : D2DPortTable) : Z :=
  Z.of_nat (length (List.filter (fun p => bool_decide (role p = ROLE_HOST)) (ports t))).

Definition EdgeLen `{Geometry} (s : Directions) : Z :=
  if bool_decide (s = NORTH) || bool_decide (s = SOUTH) then GRID_X else GRID_Y.

Definition TileFor `{Geometry} (s : Directions) (idx : Z) : result Z :=
  match s with
  | NORTH => Ok ((GRID_Y - 1) * GRID_X + idx)
  | SOUTH => Ok idx
  | WEST => Ok (idx * GRID_X)
  | EAST => Ok (idx * GRID_X + (GRID_X - 1))
  | _ => Err (runtime_error "die_ports: bad side in TileFor")
  end.

Definition SideFromStr (s : string) : result Directions :=
  if String.eqb s "N" then Ok NORTH
  else if String.eqb s "S" then Ok SOUTH
  else if String.eqb s "E" then Ok EAST
  else if String.eqb s "W" then Ok WEST
  else Err (runtime_error "die_ports: unknown side").

Definition RoleFromStr (s : string) : result PortRole :=
  if String.eqb s "host" then Ok ROLE_HOST
  else if String.eqb s "mem" then Ok ROLE_MEM
  else if String.eqb s "c2c" then Ok ROLE_C2C
  else Err (runtime_error "die_ports: unknown role").

Definition ParseRoleSpec (spec : json) (s : Directions) : result (PortRole * Directions) :=
  str_at spec "role" ≫= fun rs =>
  RoleFromStr rs ≫= fun r =>
  if bool_decide (r = ROLE_C2C) then
    if contains spec "dir" then
      str_at spec "dir" ≫= fun ds =>
      SideFromStr ds ≫= fun d =>
      THROW runtime_error "die_ports: MVP requires C2C dir == side" WHEN negb (bool_decide (d = s));;
      Ok (r, d)
    else Ok (r, s)
  else Ok (r, s).

(** The [c2c] defaults of every port (bandwidth, latency, buffer) and the link
    configuration. *)
Definition c2c_params (dp : json) : result (Z * Z * Z * D2DLinkConfig) :=
  match find_key dp "c2c" with
  | None => Ok (1, 0, 1, default_config)
  | Some c =>
      int_or c "bw_per_cycle" 1 ≫= fun bw0 =>
      int_or c "link_bw" bw0 ≫= fun bw1 =>
      int_or c "latency" 0 ≫= fun lat =>
      int_or c "buffer_depth" 1 ≫= fun bf =>
      ParseD2DLinkConfig c ≫= fun cfg =>
      if bool_decide (backend cfg = BACKEND_BEHAVIORAL) || bool_decide (mode cfg = MODE_BOUNDED_SAF) then
        Ok (1, link_latency cfg,
            if bool_decide (backend cfg = BACKEND_BEHAVIORAL) then 1 else rx_buffer_depth cfg, cfg)
      else Ok (bw1, lat, bf, cfg)
  end ≫= fun '((((bw, lat), bf), cfg) : Z * Z * Z * D2DLinkConfig) =>
  THROW runtime_error "die_ports.c2c: link_bw/bw_per_cycle must be >= 1" WHEN bw <? 1;;
  THROW runtime_error "die_ports.c2c: latency must be >= 0" WHEN lat <? 0;;
  THROW runtime_error "die_ports.c2c: buffer_depth must be >= 1" WHEN bf <? 1;;
  Ok (bw, lat, bf, cfg).

(** Iteration over a JSON value. *)
Definition json_items (j : json) : list json :=
  match j with JArr l => l | JObj m => snd <$> m | JNull => [] | _ => [j] end.

Definition override_map : Type := gmap (Z * Z) json.

Definition add_override `{Geometry} (o : json) (s : Directions) (ov : override_map) (idx : Z) : result override_map :=
  THROW runtime_error "die_ports: override idx out of range on a side" WHEN (idx <? 0) || (EdgeLen s <=? idx);;
  THROW runtime_error "die_ports: duplicate port override (side, idx)"
    WHEN bool_decide (is_Some (ov !! (dir_code s, idx)));;
  Ok (<[(dir_code s, idx) := o]> ov).

Definition parse_override `{Geometry} (ov : override_map) (o : json) : result override_map :=
  str_at o "side" ≫= fun ss =>
  SideFromStr ss ≫= fun s =>
  json_at o "idx" ≫= fun ij =>
  (if is_array ij then foldM (fun acc v => get_int v ≫= fun i => Ok (acc ++ [i])) [] (json_items ij)
   else get_int ij ≫= fun i => Ok [i]) ≫= fun idxs =>
  foldM (add_override o s) ov idxs.

Definition parse_overrides `{Geometry} (dp : json) : result override_map :=
  match find_key dp "overrides" with
  | None => Ok ∅
  | Some l => foldM parse_override ∅ (json_items l)
  end.

Definition side_name (s : Directions) : string :=
  match s with NORTH => "N" | SOUTH => "S" | WEST => "W" | EAST => "E" | _ => "" end.

(** The specification of a position: its override, else the default of its edge. *)
Definition spec_at (dp : json) (ov : override_map) (s : Directions) (idx : Z) : option json :=
  match ov !! (dir_code s, idx) with
  | Some o => Some o
  | None => match find_key dp "edges" with Some e => find_key e (side_name s) | None => None end
  end.

Definition parse_port `{Geometry} (spec : Directions -> Z -> option json) (bw lat bf : Z)
    (s : Directions) (acc : list D2DPort) (idx : Z) : result (list D2DPort) :=
  match spec s idx with
  | None => Ok acc
  | Some sp =>
      ParseRoleSpec sp s ≫= fun rd =>
      let next_id := Z.of_nat (length acc) in
      TileFor s idx ≫= fun t =>
      match find_key sp "link_group" with
      | None => Ok (acc ++ [mkPort next_id t s rd.1 rd.2 bw lat bf (-1)])
      | Some g =>
          THROW runtime_error "die_ports: link_group only applies to role=c2c"
            WHEN negb (bool_decide (rd.1 = ROLE_C2C));;
          THROW runtime_error "die_ports: link_group must be an integer" WHEN negb (is_integer g);;
          get_int g ≫= fun grp =>
          THROW runtime_error "die_ports: link_group must be >= 0" WHEN grp <? 0;;
          Ok (acc ++ [mkPort next_id t s rd.1 rd.2 bw lat bf grp])
      end
  end.

Definition side_dirs : list Directions := [NORTH; SOUTH; WEST; EAST].

Definition parse_side `{Geometry} (spec : Directions -> Z -> option json) (bw lat bf : Z)
    (acc : list D2DPort) (s : Directions) : result (list D2DPort) :=
  foldM (parse_port spec bw lat bf s) acc (seqZ 0 (EdgeLen s)).

Definition ValidateDiePorts `{Geometry} (t : D2DPortTable) : result unit :=
  if negb (active t) then Ok tt else
  let none d := match PortsForDir t d with [] => true | _ => false end in
  THROW runtime_error "die_ports: DIE_X>1 requires >=1 C2C port on both E and W"
    WHEN (1 <? DIE_X) && (none EAST || none WEST);;
  THROW runtime_error "die_ports: DIE_Y>1 requires >=1 C2C port on both N and S"
    WHEN (1 <? DIE_Y) && (none NORTH || none SOUTH);;
  throw_if (HostPortCount t <? 1) (runtime_error "die_ports: no HOST port").

(** The nearest port that satisfies [want], as (best, best_d). *)
Definition nearer `{Geometry} (want : D2DPort -> bool) (c : Z) (acc : Z * Z) (p : D2DPort) : Z * Z :=
  if negb (want p) then acc else
  let cx := Z.rem c GRID_X in let cy := Z.quot c GRID_X in
  let px := Z.rem (tile p) GRID_X in let py := Z.quot (tile p) GRID_X in
  let d := Z.abs (cx - px) + Z.abs (cy - py) in
  if d <? acc.2 then (port_id p, d) else acc.
Definition nearest `{Geometry} (want : D2DPort -> bool) (l : list D2DPort) (c : Z) : Z :=
  (foldl (nearer want c) (-1, Z.shiftl 1 30) l).1.

Definition host_table `{Geometry} (l : list D2DPort) : list Z :=
  nearest (fun p => bool_decide (role p = ROLE_HOST)) l <$> seqZ 0 CORES_PER_DIE.

(** [port_for[c]]: one entry per direction code, the four sides filled in. *)
Definition c2c_table `{Geometry} (l : list D2DPort) : list (list Z) :=
  (fun c => [nearest (is_c2c WEST) l c; nearest (is_c2c EAST) l c; nearest (is_c2c NORTH) l c;
             nearest (is_c2c SOUTH) l c; -1]) <$> seqZ 0 CORES_PER_DIE.

(** ** Links *)

Definition PerpCoord `{Geometry} (p : D2DPort) : Z :=
  if bool_decide (side p = EAST) || bool_decide (side p = WEST)
  then Z.quot (tile p) GRID_X else Z.rem (tile p) GRID_X.

Definition mirrors `{Geometry} (p q : D2DPort) : bool :=
  bool_decide (role q = ROLE_C2C) && bool_decide (side q = OppositeSide (side p)) &&
  bool_decide (pdir q = OppositeSide (pdir p)) && (PerpCoord q =? PerpCoord p).

Definition build_link `{Geometry} (l : list D2DPort) (d : Z) (acc : list D2DLink) (p : D2DPort) : result (list D2DLink) :=
  if negb (bool_decide (role p = ROLE_C2C)) then Ok acc else
  let nd := DieNeighbor d (pdir p) in
  if nd <? 0 then Ok acc else
  match List.find (mirrors p) l with
  | None => Err (runtime_error "d2d links: no reciprocal C2C port on neighbor die")
  | Some m =>
      THROW runtime_error "d2d links: bw/latency/link_group mismatch between paired C2C ports"
        WHEN negb (bw p =? bw m) || negb (latency p =? latency m) || negb (link_group p =? link_group m);;
      Ok (acc ++ [mkLink d (port_id p) nd (port_id m) (bw p) (bw m) (latency p) (link_group p)])
  end.

Definition check_unique (seen : list (Z * Z)) (l : D2DLink) : result (list (Z * Z)) :=
  THROW runtime_error "d2d links: a (die,port) endpoint is used by >1 link"
    WHEN bool_decide ((local_die l, local_port l) ∈ seen);;
  Ok ((local_die l, local_port l) :: seen).

Definition link_ends (l : D2DLink) : Z * Z * Z * Z := (local_die l, local_port l, remote_die l, remote_port l).
Definition reverse_ends (l : D2DLink) : Z * Z * Z * Z := (remote_die l, remote_port l, local_die l, local_port l).

Definition check_reciprocal (links : list D2DLink) (u : unit) (l : D2DLink) : result unit :=
  throw_if (negb (bool_decide (reverse_ends l ∈ (link_ends <$> links))))
    (runtime_error "d2d links: non-reciprocal link").

Definition BuildD2DLinks `{Geometry} (t : D2DPortTable) : result (list D2DLink) :=
  if negb (active t) then Ok [] else
  foldM (fun acc d => foldM (build_link (ports t) d) acc (ports t)) [] (seqZ 0 DIE_COUNT) ≫= fun links =>
  foldM check_unique [] links ≫= fun _ =>
  foldM (check_reciprocal links) tt links ≫= fun _ =>
  Ok links.

Definition ParseDiePorts `{Geometry} (hw_json : json) : result (D2DLinkConfig * D2DPortTable * list D2DLink) :=
  match find_key hw_json "die_ports" with
  | None => Ok (default_config, mkTable false [] (replicate (Z.to_nat CORES_PER_DIE) (-1)) [], [])
  | Some dp =>
      c2c_params dp ≫= fun '((((bw, lat), bf), cfg) : Z * Z * Z * D2DLinkConfig) =>
      parse_overrides dp ≫= fun ov =>
      foldM (parse_side (spec_at dp ov) bw lat bf) [] side_dirs ≫= fun l =>
      ValidateDiePorts (mkTable true l [] []) ≫= fun _ =>
      let t := mkTable true l (host_table l) (c2c_table l) in
      BuildD2DLinks t ≫= fun links => Ok (cfg, t, links)
  end.

Definition HasD2DLink `{Geometry} (links : list D2DLink) (local remote : Z) : bool :=
  if (local <? 0) || (DIE_COUNT <=? local) || (remote <? 0) || (DIE_COUNT <=? remote) then false
  else existsb (fun l => (local_die l =? local) && (remote_die l =? remote)) links.

Definition PortForHost (t : D2DPortTable) (local_core : Z) : Z :=
  if (local_core <? 0) || (Z.of_nat (length (port_for_host t)) <=? local_core) then -1
  else port_for_host t !!! Z.to_nat local_core.

Definition PortForDir (t : D2DPortTable) (local_core : Z) (dir : Directions) : Z :=
  if (local_core <? 0) || (Z.of_nat (length (port_for t)) <=? local_core) then -1 else
  let row := port_for t !!! Z.to_nat local_core in
  if (dir_code dir <? 0) || (Z.of_nat (length row) <=? dir_code dir) then -1
  else row !!! Z.to_nat (dir_code dir).

Definition IsC2CEgressEdge `{Geometry} (t : D2DPortTable) (global_tile : Z) (dir : Directions) : bool :=
  if negb (active t) then false else
  let die := Z.quot global_tile CORES_PER_DIE in
  let local := Z.rem global_tile CORES_PER_DIE in
  if DieNeighbor die dir <? 0 then false else
  existsb (fun p => bool_decide (role p = ROLE_C2C) && bool_decide (side p = dir) && (tile p =? local)) (ports t).

(** ** Topology contracts of the run-time versions *)

(** [ValidateV1MvpTopology]; [M_D_EXIT_PORT] is the width of the
    exit-port field. *)
Definition v1_direction `{Geometry} (t : D2DPortTable) (u : unit) (d : Directions) : result unit :=
  let cnt := Z.of_nat (length (PortsForDir t d)) in
  let neighbor := if bool_decide (d = EAST) || bool_decide (d = WEST) then 1 <? DIE_X else 1 <? DIE_Y in
  THROW runtime_error "V1 MVP: at most one C2C port per direction" WHEN 1 <? cnt;;
  throw_if (neighbor && negb (cnt =? 1))
    (runtime_error "V1 MVP: a die-neighbor direction must have exactly one C2C port").

Definition ValidateV1MvpTopology `{Geometry} (t : D2DPortTable) : result unit :=
  THROW runtime_error "V1 MVP: multi-die requires die_ports with C2C ports" WHEN (1 <? DIE_COUNT) && negb (active t);;
  if negb (active t) then Ok tt else
  foldM (v1_direction t) tt [WEST; EAST; NORTH; SOUTH] ≫= fun _ =>
  THROW runtime_error "V1 MVP: C2C link_bw must be 1 packet/cycle"
    WHEN existsb (fun p => bool_decide (role p = ROLE_C2C) && negb (bw p =? 1)) (ports t);;
  let max_encodable := Z.shiftl 1 M_D_EXIT_PORT - 2 in
  throw_if (existsb (fun p => bool_decide (role p = ROLE_C2C) &&
                              ((port_id p <? 0) || (max_encodable <? port_id p))) (ports t))
    (runtime_error "V1 MVP: C2C port_id exceeds exit_port field capacity").

Definition validate_v5 `{Geometry} (cfg : D2DLinkConfig) (t : D2DPortTable) : result bool :=
  if negb (v5_multiport cfg) then Ok false else
  THROW runtime_error "V5 multi_port requires an active multi-die topology" WHEN negb (active t) || (DIE_COUNT <=? 1);;
  let max_encodable := Z.shiftl 1 M_D_EXIT_PORT - 2 in
  THROW runtime_error "V5 C2C port_id exceeds exit_port wire capacity"
    WHEN existsb (fun p => bool_decide (role p = ROLE_C2C) &&
                           ((port_id p <? 0) || (max_encodable <? port_id p))) (ports t);;
  Ok true.

Definition ValidateD2DTopology `{Geometry} (SPEC_USE_BEHA_NOC : bool)
    (cfg : D2DLinkConfig) (t : D2DPortTable) : result unit :=
  validate_v5 cfg t ≫= fun v5 : bool =>
  if bool_decide (backend cfg = BACKEND_BEHAVIORAL) then
    THROW runtime_error "V4 Behavioral D2D requires noc.use_beha_noc=true" WHEN negb SPEC_USE_BEHA_NOC;;
    THROW runtime_error "V4 Behavioral D2D requires valid rates and nonnegative latency"
      WHEN negb (Valid (port_rate cfg)) || negb (Valid (link_rate cfg)) || (link_latency cfg <? 0);;
    if v5 then Ok tt else ValidateV1MvpTopology t
  else if bool_decide (mode cfg = MODE_BOUNDED_SAF) then
    THROW runtime_error "die_ports.c2c: bounded_saf requires 0 < port_rate,link_rate <= 1"
      WHEN negb (Valid (port_rate cfg)) || negb (Valid (link_rate cfg));;
    if v5 then Ok tt else
    throw_if (existsb (fun d => 1 <? Z.of_nat (length (PortsForDir t d))) [EAST; WEST; NORTH; SOUTH])
      (runtime_error "die_ports: more than one C2C port per direction requires V5 multi_port")
  else if v5 then Ok tt else ValidateV1MvpTopology t.

(** ** Coordinates *)

Lemma geo_facts `{Geometry} : ValidateAddressSpace = Ok tt ->
  0 < GRID_X /\ 0 < GRID_Y /\ 0 < DIE_X /\ 0 < DIE_Y /\ 0 < CORES_PER_DIE /\ 0 < DIE_COUNT /\
  TOTAL_CORES + 2 * DIE_COUNT <= 65536 /\ CORES_PER_DIE <= 65536 /\ DIE_COUNT <= 65536.
Proof.
  unfold ValidateAddressSpace, TOTAL_CORES, CORES_PER_DIE, DIE_COUNT. intros Hv. inv_ok. split_guards.
  assert (0 < GRID_X * GRID_Y) by nia. assert (0 < DIE_X * DIE_Y) by nia. split_and!; nia.
Qed.

(** A row-major coordinate pair and its index. *)
Lemma index_split w h i : 0 < w -> 0 <= i < w * h ->
  0 <= Z.rem i w < w /\ 0 <= Z.quot i w < h /\ i = Z.quot i w * w + Z.rem i w.
Proof.
  intros Hw Hi. rewrite Z.rem_mod_nonneg, Z.quot_div_nonneg by lia.
  pose proof (Z.mod_pos_bound i w Hw). pose proof (Z.div_mod i w ltac:(lia)).
  assert (0 <= i / w) by (apply Z.div_pos; lia). assert (i / w < h) by (apply Z.div_lt_upper_bound; lia). lia.
Qed.

Lemma index_join w x y : 0 <= x < w -> 0 <= y ->
  Z.rem (y * w + x) w = x /\ Z.quot (y * w + x) w = y.
Proof.
  intros Hx Hy. rewrite Z.rem_mod_nonneg, Z.quot_div_nonneg by nia.
  replace (y * w + x) with (x + y * w) by lia. rewrite Z_mod_plus_full, Z.div_add by lia.
  rewrite Z.mod_small, Z.div_small by lia. lia.
Qed.

Lemma index_bound w h x y : 0 <= x < w -> 0 <= y < h -> 0 <= y * w + x < w * h.
Proof. intros Hx Hy. split; [nia|]. assert (y * w + w <= h * w); nia. Qed.

Section geometry.
Context `{G : Geometry} (Hgeo : ValidateAddressSpace = Ok tt).

Lemma die_local gid : 0 <= gid < TOTAL_CORES ->
  0 <= DieOfGlobal gid < DIE_COUNT /\ 0 <= LocalOfGlobal gid < CORES_PER_DIE /\
  gid = GlobalId (DieOfGlobal gid) (LocalOfGlobal gid).
Proof using Hgeo.
  intros Hg. destruct (geo_facts Hgeo) as (_ & _ & _ & _ & Hc & _ & _).
  destruct (index_split CORES_PER_DIE DIE_COUNT gid Hc Hg) as (H1 & H2 & H3). done.
Qed.

Lemma global_id_split die local : 0 <= die < DIE_COUNT -> 0 <= local < CORES_PER_DIE ->
  0 <= GlobalId die local < TOTAL_CORES /\ DieOfGlobal (GlobalId die local) = die /\
  LocalOfGlobal (GlobalId die local) = local.
Proof using Hgeo.
  intros Hd Hl. destruct (index_join CORES_PER_DIE local die Hl ltac:(lia)) as [H1 H2].
  unfold GlobalId, DieOfGlobal, LocalOfGlobal. split; [|done].
  apply (index_bound CORES_PER_DIE DIE_COUNT); lia.
Qed.

(** *** Neighbouring dies *)

Lemma DieNeighbor_some d D : 0 <= d < DIE_COUNT -> 0 <= DieNeighbor d D ->
  is_side D = true /\ 0 <= DieNeighbor d D < DIE_COUNT /\
  Z.rem (DieNeighbor d D) DIE_X = Z.rem d DIE_X + (match D with EAST => 1 | WEST => -1 | _ => 0 end) /\
  Z.quot (DieNeighbor d D) DIE_X = Z.quot d DIE_X + (match D with NORTH => 1 | SOUTH => -1 | _ => 0 end).
Proof using Hgeo.
  intros Hd. destruct (geo_facts Hgeo) as (_ & _ & Hx & Hy & _ & _ & _).
  destruct (index_split DIE_X DIE_Y d Hx Hd) as (Hr & Hq & _). unfold DieNeighbor.
  assert (forall x y : Z, (if (x <? 0) || (DIE_X <=? x) || (y <? 0) || (DIE_Y <=? y) then -1 else y * DIE_X + x) >= 0 ->
    0 <= x < DIE_X /\ 0 <= y < DIE_Y /\ (if (x <? 0) || (DIE_X <=? x) || (y <? 0) || (DIE_Y <=? y) then -1 else y * DIE_X + x) = y * DIE_X + x) as Hin.
  { intros x y. destruct (_ || _ || _ || _) eqn:E; [lia|]. split_guards. lia. }
  destruct D; try lia; intros Hn; apply Z.ge_le_iff, Hin in Hn as (H1 & H2 & ->); (split; [done|]);
    match goal with |- context [?y * DIE_X + ?x] =>
      pose proof (index_bound DIE_X DIE_Y x y H1 H2);
      destruct (index_join DIE_X x y H1 ltac:(lia)) as [-> ->] end;
    unfold DIE_COUNT; lia.
Qed.

Lemma DieNeighbor_opposite d D : 0 <= d < DIE_COUNT -> 0 <= DieNeighbor d D ->
  DieNeighbor (DieNeighbor d D) (OppositeSide D) = d.
Proof using Hgeo.
  intros Hd Hn. destruct (DieNeighbor_some d D Hd Hn) as (Hs & Hb & Hr & Hq).
  destruct (geo_facts Hgeo) as (_ & _ & Hx & Hy & _ & _ & _).
  destruct (index_split DIE_X DIE_Y d Hx Hd) as (Hdr & Hdq & Hd').
  unfold DieNeighbor at 1. rewrite Hr, Hq. destruct D; try done; cbn -[Z.leb Z.ltb DieNeighbor];
    (destruct (_ || _ || _ || _) eqn:E;
     [repeat (apply orb_true_iff in E; destruct E as [E|E]); apply Z.ltb_lt in E || apply Z.leb_le in E; lia|lia]).
Qed.

(** *** Positions on the edges *)

Lemma EdgeLen_pos s : 0 < EdgeLen s.
Proof using Hgeo.
  destruct (geo_facts Hgeo) as (Hx & Hy & _). unfold EdgeLen. destruct (_ || _); lia.
Qed.

Lemma TileFor_spec s idx : is_side s = true -> 0 <= idx < EdgeLen s ->
  exists t, TileFor s idx = Ok t /\ 0 <= t < CORES_PER_DIE /\ IsDieEdge t s = true /\
    (if bool_decide (s = EAST) || bool_decide (s = WEST) then Z.quot t GRID_X else Z.rem t GRID_X) = idx.
Proof using Hgeo.
  intros Hs Hi. destruct (geo_facts Hgeo) as (Hx & Hy & _). unfold EdgeLen in Hi. unfold CORES_PER_DIE.
  destruct s; try done; repeat (case_bool_decide; try done); cbn in Hi; eexists; (split; [reflexivity|]);
    unfold IsDieEdge; cbn -[Z.mul Z.sub].
  - destruct (index_join GRID_X 0 idx) as [E1 E2]; [lia|lia|]. rewrite Z.add_0_r in E1, E2.
    destruct (index_bound GRID_X GRID_Y 0 idx); [lia|lia|]. rewrite E1, E2. lia.
  - destruct (index_join GRID_X (GRID_X - 1) idx) as [-> ->]; [lia|lia|].
    destruct (index_bound GRID_X GRID_Y (GRID_X - 1) idx); [lia|lia|]. lia.
  - destruct (index_join GRID_X idx (GRID_Y - 1)) as [-> ->]; [lia|lia|].
    destruct (index_bound GRID_X GRID_Y idx (GRID_Y - 1)); [lia|lia|]. lia.
  - destruct (index_bound GRID_X GRID_Y idx 0); [lia|lia|].
    destruct (index_join GRID_X idx 0) as [E1 E2]; [lia|lia|]. rewrite Z.mul_0_l, Z.add_0_l in *.
    rewrite E1, E2. lia.
Qed.
End geometry.

(** ** Port placement *)

(** The position of a port on the edge of the die: its side and the coordinate
    along it. *)
Definition position `{Geometry} (p : D2DPort) : Directions * Z := (side p, PerpCoord p).

Record port_wf `{Geometry} (i : nat) (p : D2DPort) : Prop := {
  pw_id : port_id p = Z.of_nat i;
  pw_side : is_side (side p) = true;
  pw_dir : pdir p = side p;
  pw_tile : 0 <= tile p < CORES_PER_DIE;
  pw_edge : IsDieEdge (tile p) (side p) = true;
  pw_perp : 0 <= PerpCoord p < EdgeLen (side p);
  pw_place : TileFor (side p) (PerpCoord p) = Ok (tile p);
  pw_group : -1 <= link_group p /\ (role p <> ROLE_C2C -> link_group p = -1)
}.

Record ports_wf `{Geometry} (l : list D2DPort) : Prop := {
  pw_port : forall i p, l !! i = Some p -> port_wf i p;
  pw_positions : NoDup (position <$> l)
}.

(** All ports share the physical parameters of the template. *)
Definition uniform (bw0 lat0 bf0 : Z) (p : D2DPort) : Prop := bw p = bw0 /\ latency p = lat0 /\ buf p = bf0.

Definition edge_positions `{Geometry} (s : Directions) : list (Directions * Z) := (s,.) <$> seqZ 0 (EdgeLen s).

Section placement.
Context `{G : Geometry} (Hgeo : ValidateAddressSpace = Ok tt).
Context (spec : Directions -> Z -> option json) (bw0 lat0 bf0 : Z).

Lemma ParseRoleSpec_dir sp s r d : ParseRoleSpec sp s = Ok (r, d) -> d = s.
Proof using.
  unfold ParseRoleSpec. intros H. inv_ok. destruct (bool_decide (_ = ROLE_C2C)); [|by simplify_eq].
  destruct (contains _ _); inv_ok; [|done]. split_guards. by apply bool_decide_eq_true in Hguard.
Qed.

(** One position adds nothing or one well-formed port at that position. *)
Lemma parse_port_step s acc idx acc' :
  is_side s = true -> 0 <= idx < EdgeLen s -> parse_port spec bw0 lat0 bf0 s acc idx = Ok acc' ->
  acc' = acc \/ exists p, acc' = acc ++ [p] /\ port_wf (length acc) p /\ position p = (s, idx) /\ uniform bw0 lat0 bf0 p.
Proof using Hgeo.
  intros Hs Hi H. unfold parse_port in H. destruct (spec s idx) as [sp|]; [|inv_ok; by left]. right.
  apply bind_ok in H as ([r d] & Hrd & H). apply ParseRoleSpec_dir in Hrd as ->.
  destruct (TileFor_spec Hgeo s idx Hs Hi) as (t & Ht & Hb & He & Hp). rewrite Ht in H. cbn in H.
  assert (forall g, -1 <= g -> (r <> ROLE_C2C -> g = -1) ->
    let p := mkPort (Z.of_nat (length acc)) t s r s bw0 lat0 bf0 g in
    port_wf (length acc) p /\ position p = (s, idx) /\ uniform bw0 lat0 bf0 p) as Hwf.
  { intros g Hg Hr p. assert (PerpCoord p = idx) as Hperp by exact Hp.
    split; [|split; [unfold position; by rewrite Hperp|done]]. split; rewrite ?Hperp; done. }
  destruct (find_key sp "link_group") as [g|]; inv_ok; eexists; (split; [reflexivity|]); apply Hwf; try done.
  - split_guards. lia.
  - split_guards. apply bool_decide_eq_true in Hguard. done.
Qed.

Definition placed (done : list (Directions * Z)) (acc : list D2DPort) : Prop :=
  (forall i p, acc !! i = Some p -> port_wf i p) /\ (position <$> acc) `sublist_of` done /\
  Forall (uniform bw0 lat0 bf0) acc.

Lemma placed_step s acc idx acc' ps : placed ps acc -> is_side s = true -> 0 <= idx < EdgeLen s ->
  parse_port spec bw0 lat0 bf0 s acc idx = Ok acc' -> placed (ps ++ [(s, idx)]) acc'.
Proof using Hgeo.
  intros (Hw & Hsub & Hu) Hs Hi H.
  destruct (parse_port_step s acc idx acc' Hs Hi H) as [->|(p & -> & Hp & Hpos & Hup)].
  - split; [done|]. split; [|done]. by apply sublist_inserts_r.
  - split; [|split].
    + intros i q [Hq|[? Hq]]%lookup_app_Some; [by apply Hw|].
      apply list_lookup_singleton_Some in Hq as [Hi0 <-]. by replace i with (length acc) by lia.
    + rewrite fmap_app. cbn. rewrite Hpos. by apply sublist_app.
    + apply Forall_app. split; [done|]. by apply list.Forall_singleton.
Qed.

Lemma parse_side_placed acc s acc' ps : placed ps acc -> is_side s = true ->
  parse_side spec bw0 lat0 bf0 acc s = Ok acc' -> placed (ps ++ edge_positions s) acc'.
Proof using Hgeo.
  intros Hp Hs. apply (foldM_prefix_inv _ (fun pre a => placed (ps ++ ((s,.) <$> pre)) a)).
  - intros pre x post a a' Hl Ha H. rewrite fmap_app, (assoc_L (++)). apply (placed_step _ _ _ _ _ Ha Hs) in H; [done|].
    assert (x ∈ seqZ 0 (EdgeLen s)) as Hx by (rewrite Hl; apply elem_of_app; right; left).
    apply elem_of_seqZ in Hx. lia.
  - cbn. by rewrite app_nil_r.
Qed.

Definition all_positions : list (Directions * Z) := concat (edge_positions <$> side_dirs).

Lemma all_positions_NoDup : NoDup all_positions.
Proof using.
  unfold all_positions, side_dirs, edge_positions. cbn [fmap list_fmap concat]. rewrite app_nil_r.
  assert (forall s, NoDup ((s,.) <$> seqZ 0 (EdgeLen s))) as Hnd.
  { intros s. apply NoDup_fmap_2; [by intros ?? [= ->]|]. apply NoDup_seqZ. }
  rewrite !list.NoDup_app. split_and!; try apply Hnd; intros x Hx;
    rewrite ?elem_of_app; repeat setoid_rewrite list_elem_of_fmap; apply list_elem_of_fmap in Hx; naive_solver.
Qed.

Lemma parse_sides_wf l : foldM (parse_side spec bw0 lat0 bf0) [] side_dirs = Ok l ->
  ports_wf l /\ Forall (uniform bw0 lat0 bf0) l.
Proof using Hgeo.
  intros H. assert (placed all_positions l) as (Hw & Hsub & Hu).
  { revert H. apply (foldM_prefix_inv _ (fun pre a => placed (concat (edge_positions <$> pre)) a)).
    - intros pre x post a a' Hl Ha H. rewrite fmap_app, concat_app. cbn. rewrite app_nil_r.
      apply (parse_side_placed _ _ _ _ Ha) in H; [done|].
      assert (x ∈ side_dirs) as Hx by (rewrite Hl; apply elem_of_app; right; left).
      unfold side_dirs in Hx. repeat (apply elem_of_cons in Hx as [->|Hx]; [done|]). by apply elem_of_nil in Hx.
    - split; [done|]. by split. }
  split; [|done]. split; [done|]. eapply sublist_NoDup; [apply all_positions_NoDup|exact Hsub].
Qed.
End placement.

(** ** Links *)

Section links.
Context `{G : Geometry} (Hgeo : ValidateAddressSpace = Ok tt) (t : D2DPortTable) (Hwf : ports_wf (ports t)).
Local Notation l := (ports t).

Lemma port_by_position p q : p ∈ l -> q ∈ l -> position p = position q -> p = q.
Proof using Hwf.
  intros [i Hp]%list_elem_of_lookup [j Hq]%list_elem_of_lookup H.
  assert (i = j) as <-; [|congruence]. eapply (NoDup_lookup _ i j (position p) (pw_positions _ Hwf)).
  - by rewrite list_lookup_fmap, Hp.
  - rewrite list_lookup_fmap, Hq. cbn. by rewrite H.
Qed.

Lemma port_by_id p q : p ∈ l -> q ∈ l -> port_id p = port_id q -> p = q.
Proof using Hwf.
  intros [i Hp]%list_elem_of_lookup [j Hq]%list_elem_of_lookup H.
  pose proof (pw_id _ _ (pw_port _ Hwf i p Hp)). pose proof (pw_id _ _ (pw_port _ Hwf j q Hq)).
  assert (i = j) as <- by lia. congruence.
Qed.

Lemma port_at p : p ∈ l -> port_wf (Z.to_nat (port_id p)) p /\ l !! Z.to_nat (port_id p) = Some p.
Proof using Hwf.
  intros [i Hp]%list_elem_of_lookup. pose proof (pw_port _ Hwf i p Hp) as Hw.
  rewrite (pw_id _ _ Hw), Nat2Z.id. done.
Qed.

Lemma OppositeSide_side s : is_side s = true -> is_side (OppositeSide s) = true /\ OppositeSide (OppositeSide s) = s.
Proof using. by destruct s. Qed.

Lemma mirrors_spec p q : mirrors p q = true <->
  role q = ROLE_C2C /\ side q = OppositeSide (side p) /\ pdir q = OppositeSide (pdir p) /\ PerpCoord q = PerpCoord p.
Proof using. unfold mirrors. rewrite !andb_true_iff, !bool_decide_eq_true, Z.eqb_eq. tauto. Qed.

Lemma mirrors_unique p q q' : q ∈ l -> q' ∈ l -> mirrors p q = true -> mirrors p q' = true -> q = q'.
Proof using Hwf.
  rewrite !mirrors_spec. intros Hq Hq' (_ & Hs & _ & Hc) (_ & Hs' & _ & Hc').
  apply port_by_position; [done..|]. unfold position. congruence.
Qed.

Lemma mirrors_sym p q : p ∈ l -> role p = ROLE_C2C -> mirrors p q = true -> mirrors q p = true.
Proof using Hwf.
  rewrite !mirrors_spec. intros Hp Hr (_ & Hs & Hd & Hc). destruct (port_at p Hp) as [Hw _].
  destruct (OppositeSide_side (side p) (pw_side _ _ Hw)) as [_ Ho]. rewrite Hs, Hd, Hc, (pw_dir _ _ Hw), Ho. done.
Qed.

Definition compatible (p q : D2DPort) : Prop := bw p = bw q /\ latency p = latency q /\ link_group p = link_group q.

(** What a link is: a C2C port of a die with a neighbour on that side, joined to
    the mirror port of the neighbour. *)
Inductive is_link : D2DLink -> Prop :=
  | is_link_intro d p m : 0 <= d < DIE_COUNT -> p ∈ l -> m ∈ l -> role p = ROLE_C2C -> mirrors p m = true ->
      0 <= DieNeighbor d (pdir p) -> compatible p m ->
      is_link (mkLink d (port_id p) (DieNeighbor d (pdir p)) (port_id m) (bw p) (bw m) (latency p) (link_group p)).

Definition reverse (k : D2DLink) : D2DLink :=
  mkLink (remote_die k) (remote_port k) (local_die k) (local_port k) (rx_bw k) (tx_bw k) (l_latency k) (l_group k).

Lemma is_link_reverse k : is_link k -> is_link (reverse k).
Proof using Hgeo Hwf.
  intros [d p m Hd Hp Hm Hr Hmir Hn (H1 & H2 & H3)]. pose proof (mirrors_sym p m Hp Hr Hmir) as Hmir'.
  pose proof Hmir as (Hrm & _ & Hdm & _)%mirrors_spec.
  destruct (DieNeighbor_some Hgeo d (pdir p) Hd Hn) as (_ & Hb & _).
  pose proof (DieNeighbor_opposite Hgeo d (pdir p) Hd Hn) as Hback. rewrite <- Hdm in Hback.
  unfold reverse. cbn [local_die local_port remote_die remote_port tx_bw rx_bw l_latency l_group].
  rewrite H2, H3. rewrite <- Hback at 2.
  apply (is_link_intro (DieNeighbor d (pdir p)) m p); [lia|done..| |by split_and!]. lia.
Qed.

(** The directed end point determines the link. *)
Lemma is_link_functional k k' : is_link k -> is_link k' ->
  local_die k = local_die k' -> local_port k = local_port k' -> k = k'.
Proof using Hwf.
  intros [d p m Hd Hp Hm Hr Hmir Hn _] [d' p' m' Hd' Hp' Hm' Hr' Hmir' Hn' _]. cbn. intros <- Hid.
  assert (p = p') as <- by (by apply port_by_id).
  by assert (m = m') as <- by (by eapply mirrors_unique).
Qed.

(** Port [p] of die [d] can be connected. *)
Definition connectable (d : Z) (p : D2DPort) : Prop :=
  role p = ROLE_C2C -> 0 <= DieNeighbor d (pdir p) -> exists m, m ∈ l /\ mirrors p m = true /\ compatible p m.

Lemma find_mirror p m : m ∈ l -> mirrors p m = true -> List.find (mirrors p) l = Some m.
Proof using Hwf.
  intros Hm Hmir. destruct (List.find (mirrors p) l) as [q|] eqn:E.
  - apply find_some in E as [Hq Hmq]. f_equal. apply list_elem_of_In in Hq. by eapply mirrors_unique.
  - rewrite (find_none _ _ E m) in Hmir; [done|by apply list_elem_of_In].
Qed.

Lemma build_link_spec d acc p : 0 <= d < DIE_COUNT -> p ∈ l ->
  (is_ok (build_link l d acc p) = true <-> connectable d p) /\
  (forall acc', build_link l d acc p = Ok acc' ->
     (acc' = acc /\ (role p <> ROLE_C2C \/ DieNeighbor d (pdir p) < 0)) \/
     exists k, acc' = acc ++ [k] /\ is_link k /\ local_die k = d /\ local_port k = port_id p).
Proof using Hwf.
  intros Hd Hp. unfold build_link, connectable. case_bool_decide as Hr; cbn; [|naive_solver].
  destruct (Z.ltb_spec (DieNeighbor d (pdir p)) 0) as [Hn|Hn]; [split; [split; [intros; lia|done]|naive_solver lia]|].
  destruct (List.find (mirrors p) l) as [m|] eqn:E.
  - pose proof E as [Hm Hmir]%find_some. apply list_elem_of_In in Hm.
    destruct (_ || _ || _) eqn:Hc; cbn.
    + split; [|done]. split; [done|]. intros H. destruct (H Hr Hn) as (q & Hq & Hqm & H1 & H2 & H3).
      assert (q = m) as -> by (by eapply mirrors_unique). apply not_false_iff_true in Hc. contradict Hc.
      by rewrite H1, H2, H3, !Z.eqb_refl.
    + split_guards. split; [split; [|done]|].
      * intros _ _ _. by exists m.
      * intros acc' [= <-]. right. eexists. split; [reflexivity|]. split; [|done]. by apply is_link_intro.
  - cbn. split; [|done]. split; [done|]. intros H. destruct (H Hr Hn) as (q & Hq & Hqm & _).
    by rewrite (find_mirror p q Hq Hqm) in E.
Qed.

Definition local_end (k : D2DLink) : Z * Z := (local_die k, local_port k).

(** The double loop over the dies and the ports. *)
Lemma die_loop_ok acc d : 0 <= d < DIE_COUNT ->
  is_ok (foldM (build_link l d) acc l) = true <-> (forall p, p ∈ l -> connectable d p).
Proof using Hwf. intros Hd. apply foldM_is_ok. intros a p Hp. by apply build_link_spec. Qed.

Lemma die_loop_collects acc d acc' : 0 <= d < DIE_COUNT -> foldM (build_link l d) acc l = Ok acc' ->
  forall k, k ∈ acc' <-> k ∈ acc \/ exists p, p ∈ l /\ (is_link k /\ local_die k = d /\ local_port k = port_id p).
Proof using Hwf.
  intros Hd. apply (foldM_collects _ (fun a k => k ∈ a)). intros a p a' Hp H k.
  destruct (build_link_spec d a p Hd Hp) as [_ Hs].
  destruct (Hs a' H) as [[-> Hno]|(k' & -> & Hk' & Hd' & Hp')].
  - split; [by left|]. intros [?|([d' p' m' Hd' Hp' Hm' Hr' Hmir' Hn' _] & <- & Hid)]; [done|]. cbn in Hid.
    assert (p' = p) as -> by (by apply port_by_id). destruct Hno; [done|]. cbn in *. lia.
  - rewrite elem_of_app, list_elem_of_singleton. split; [intros [?| ->]; [by left|by right]|].
    intros [?|(Hk & Hkd & Hkp)]; [by left|right]. eapply is_link_functional; [done..|congruence|congruence].
Qed.

Lemma die_loop_ends acc d acc' : 0 <= d < DIE_COUNT -> foldM (build_link l d) acc l = Ok acc' ->
  exists new, acc' = acc ++ new /\ (local_end <$> new) `sublist_of` ((fun p => (d, port_id p)) <$> l).
Proof using Hwf.
  intros Hd. apply (foldM_prefix_inv _ (fun pre a => exists new, a = acc ++ new /\
    (local_end <$> new) `sublist_of` ((fun p => (d, port_id p)) <$> pre))).
  - intros pre p post a a' Hl (new & -> & Hsub) H.
    assert (p ∈ l) as Hp by (rewrite Hl; apply elem_of_app; right; left).
    destruct (build_link_spec d (acc ++ new) p Hd Hp) as [_ Hs]. rewrite fmap_app.
    destruct (Hs a' H) as [[-> _]|(k' & -> & Hk' & Hd' & Hp')].
    + exists new. split; [done|]. by apply sublist_inserts_r.
    + exists (new ++ [k']). rewrite (assoc_L (++)). split; [done|]. rewrite fmap_app. apply sublist_app; [done|].
      cbn. unfold local_end. by rewrite Hd', Hp'.
  - exists []. by rewrite app_nil_r.
Qed.

Definition all_ends : list (Z * Z) := seqZ 0 DIE_COUNT ≫= fun d => (fun p => (d, port_id p)) <$> l.

Lemma all_ends_NoDup : NoDup all_ends.
Proof using Hwf.
  unfold all_ends. apply NoDup_bind; [|intros d _|apply NoDup_seqZ].
  - intros d1 d2 y _ _ (p & -> & _)%list_elem_of_fmap (q & [= -> _] & _)%list_elem_of_fmap. done.
  - apply NoDup_fmap_2_strong.
    + intros p q Hp Hq [= H]. by apply port_by_id.
    + eapply NoDup_fmap_1, Hwf.
Qed.

Definition built (acc : list D2DLink) : result (list D2DLink) :=
  foldM (fun acc d => foldM (build_link l d) acc l) acc (seqZ 0 DIE_COUNT).

Lemma built_ok acc : is_ok (built acc) = true <-> (forall d p, 0 <= d < DIE_COUNT -> p ∈ l -> connectable d p).
Proof using Hwf.
  unfold built. rewrite (foldM_is_ok _ (fun d => forall p, p ∈ l -> connectable d p)).
  - setoid_rewrite elem_of_seqZ. naive_solver lia.
  - intros a d Hd%elem_of_seqZ. apply die_loop_ok. lia.
Qed.

Lemma built_links links : built [] = Ok links ->
  (forall k, k ∈ links <-> is_link k) /\ NoDup (local_end <$> links).
Proof using Hwf.
  intros H. split.
  - intros k. assert (k ∈ links <-> k ∈ [] \/ exists d, d ∈ seqZ 0 DIE_COUNT /\
      (exists p, p ∈ l /\ is_link k /\ local_die k = d /\ local_port k = port_id p)) as ->.
    { revert k. eapply (foldM_collects _ (fun a k => k ∈ a)); [|exact H]. cbn beta.
      intros a d a' Hd%elem_of_seqZ Ha k. apply die_loop_collects; [lia|done]. }
    rewrite elem_of_nil. split; [naive_solver|]. intros Hk. right. exists (local_die k).
    destruct Hk as [d p m Hd Hp Hm Hr Hmir Hn Hc]. rewrite elem_of_seqZ. cbn. split; [lia|]. exists p.
    split; [done|]. split; [|done]. by apply is_link_intro.
  - assert ((local_end <$> links) `sublist_of` all_ends) as Hsub; [|by eapply sublist_NoDup; [apply all_ends_NoDup|]].
    revert H. apply (foldM_prefix_inv _ (fun pre a => (local_end <$> a) `sublist_of`
      (pre ≫= fun d => (fun p => (d, port_id p)) <$> l))); [|done].
    intros pre d post a a' Hl Ha H. destruct (die_loop_ends a d a') as (new & -> & Hnew); [|exact H|].
    + assert (d ∈ seqZ 0 DIE_COUNT) as Hd%elem_of_seqZ by (rewrite Hl; apply elem_of_app; right; left). lia.
    + rewrite fmap_app, bind_app. apply sublist_app; [done|]. cbn. by rewrite app_nil_r.
Qed.

(** The two checks after the loop. *)
Lemma check_unique_ok seen links : NoDup (local_end <$> links) ->
  (forall k, k ∈ links -> local_end k ∉ seen) -> exists s, foldM check_unique seen links = Ok s.
Proof using.
  revert seen. induction links as [|k links IH]; intros seen Hnd Hseen; [by eexists|].
  apply list.NoDup_cons in Hnd as [Hk Hnd]. cbn [foldM]. unfold check_unique at 1.
  rewrite throw_bind_false by (apply bool_decide_eq_false; apply (Hseen k); left).
  apply IH; [done|]. intros k' Hk' [Heq|Hin]%elem_of_cons; [|eapply Hseen; [right|]; done].
  apply Hk. fold (local_end k) in Heq. rewrite <- Heq. by apply list_elem_of_fmap_2.
Qed.

Lemma check_reciprocal_ok links : (forall k, k ∈ links -> reverse k ∈ links) ->
  foldM (check_reciprocal links) tt links = Ok tt.
Proof using.
  intros H. destruct (foldM (check_reciprocal links) tt links) as [[]|e] eqn:E; [done|].
  assert (is_ok (foldM (check_reciprocal links) tt links) = true) as Hok; [|by rewrite E in Hok].
  apply (foldM_is_ok _ (fun k => reverse k ∈ links)); [|done]. intros [] k Hk. unfold check_reciprocal.
  assert (reverse_ends k ∈ link_ends <$> links) as Hin.
  { apply list_elem_of_fmap. exists (reverse k). split; [done|by apply H]. }
  rewrite bool_decide_eq_true_2 by done. cbn. split; [intros _; by apply H|done].
Qed.

Lemma BuildD2DLinks_built : active t = true -> BuildD2DLinks t = built [].
Proof using Hgeo Hwf.
  intros Ha. unfold BuildD2DLinks. rewrite Ha. cbn [negb]. fold (built []).
  destruct (built []) as [links|e] eqn:E; [|done]. destruct (built_links links E) as [Hl Hnd]. cbn [mbind result_bind].
  destruct (check_unique_ok [] links Hnd) as [s Hs]; [intros; apply not_elem_of_nil|]. rewrite Hs. cbn [mbind result_bind].
  rewrite check_reciprocal_ok; [done|]. intros k. rewrite !Hl. apply is_link_reverse.
Qed.
End links.

(** C38: on a well-formed template the only failures of [BuildD2DLinks] are a
    port without a compatible mirror on an existing neighbour: neither the
    uniqueness nor the reciprocity check can fail.  On success the links are
    exactly the pairs of mirrored C2C ports of neighbouring dies, no directed
    end point has two links and every link has its reverse. *)
Theorem d2d_links_correct `{Geometry} (t : D2DPortTable) :
  ValidateAddressSpace = Ok tt -> ports_wf (ports t) -> active t = true ->
  (is_ok (BuildD2DLinks t) = true <->
     (forall d p, 0 <= d < DIE_COUNT -> p ∈ ports t -> connectable t d p)) /\
  (forall links, BuildD2DLinks t = Ok links ->
     (forall k, k ∈ links <-> is_link t k) /\ NoDup (local_end <$> links) /\
     (forall k, k ∈ links -> reverse k ∈ links)).
Proof.
  intros Hgeo Hwf Ha. rewrite (BuildD2DLinks_built Hgeo t Hwf Ha). split; [by apply built_ok|].
  intros links Hl. destruct (built_links t Hwf links Hl) as [Hk Hnd]. split; [done|]. split; [done|].
  intros k. rewrite !Hk. by apply is_link_reverse.
Qed.

(** ** The nearest-port tables *)

Definition tile_dist `{Geometry} (c t : Z) : Z :=
  Z.abs (Z.rem c GRID_X - Z.rem t GRID_X) + Z.abs (Z.quot c GRID_X - Z.quot t GRID_X).

(** [r] is the nearest port of [l] that satisfies [want], the first one on a
    tie, or -1 when none does. *)
Definition is_nearest `{Geometry} (want : D2DPort -> bool) (l : list D2DPort) (c r : Z) : Prop :=
  (r = -1 /\ forall p, p ∈ l -> want p = false) \/
  exists p, p ∈ l /\ want p = true /\ port_id p = r /\
    (forall q, q ∈ l -> want q = true -> tile_dist c (tile p) <= tile_dist c (tile q) /\
       (tile_dist c (tile p) = tile_dist c (tile q) -> port_id p <= port_id q)).

Section nearest.
Context `{G : Geometry} (Hgeo : ValidateAddressSpace = Ok tt) (l : list D2DPort) (Hwf : ports_wf l).

Lemma tile_dist_bound c t : 0 <= c < CORES_PER_DIE -> 0 <= t < CORES_PER_DIE -> 0 <= tile_dist c t < Z.shiftl 1 30.
Proof using Hgeo.
  intros Hc Ht. destruct (geo_facts Hgeo) as (Hx & Hy & _ & _ & _ & _ & _ & Hb & _).
  destruct (index_split GRID_X GRID_Y c Hx Hc) as (? & ? & _).
  destruct (index_split GRID_X GRID_Y t Hx Ht) as (? & ? & _).
  assert (GRID_X <= 65536 /\ GRID_Y <= 65536) as [? ?] by (unfold CORES_PER_DIE in Hb; nia).
  unfold tile_dist. change (Z.shiftl 1 30) with (2 ^ 30). lia.
Qed.

(** After a prefix of the ports the accumulator holds the nearest of them. *)
Lemma nearer_prefix want c pre post : 0 <= c < CORES_PER_DIE -> l = pre ++ post ->
  let acc := foldl (nearer want c) (-1, Z.shiftl 1 30) pre in
  is_nearest want pre c acc.1 /\
  (acc.1 = -1 -> acc.2 = Z.shiftl 1 30) /\
  (forall p, p ∈ pre -> port_id p = acc.1 -> acc.2 = tile_dist c (tile p)).
Proof using Hgeo Hwf.
  intros Hc. revert post. induction pre as [|p pre IH] using rev_ind; intros post Hl.
  - cbn. split; [left; split; [done|intros p Hp; by apply elem_of_nil in Hp]|]. split; [done|].
    intros p Hp. by apply elem_of_nil in Hp.
  - rewrite <- (assoc_L (++)) in Hl. destruct (IH _ Hl) as (Hn & H0 & Hd). rewrite foldl_app. cbn [foldl].
    set (acc := foldl (nearer want c) (-1, Z.shiftl 1 30) pre) in *. cbv zeta in *.
    assert (port_wf (length pre) p) as Hp by (apply (pw_port _ Hwf); rewrite Hl; by apply list_lookup_middle).
    assert (forall i q, pre !! i = Some q -> port_id q = Z.of_nat i /\ 0 <= tile q < CORES_PER_DIE /\ (i < length pre)%nat) as Hpre.
    { intros i q Hq. assert (port_wf i q) as Hw.
      { apply (pw_port _ Hwf). rewrite Hl. by apply lookup_app_l_Some. }
      split; [apply Hw|]. split; [apply Hw|]. by eapply lookup_lt_Some. }
    assert (forall q, q ∈ pre -> 0 <= port_id q < port_id p /\ 0 <= tile_dist c (tile q) < Z.shiftl 1 30) as Hlt.
    { intros q [i Hq]%list_elem_of_lookup. destruct (Hpre i q Hq) as (H1 & H2 & H3). rewrite H1, (pw_id _ _ Hp).
      split; [lia|]. by apply tile_dist_bound. }
    pose proof (tile_dist_bound c (tile p) Hc (pw_tile _ _ Hp)) as Hpd. pose proof (pw_id _ _ Hp) as Hpid.
    unfold nearer. fold (tile_dist c (tile p)).
    assert (forall q, q ∈ pre ++ [p] <-> q ∈ pre \/ q = p) as Hin
      by (intros; rewrite elem_of_app, list_elem_of_singleton; done).
    destruct (want p) eqn:Hw; cbn [negb]; [|split; [|split; [done|]]].
    2:{ destruct Hn as [[-> Hno]|(m & Hm & Hmw & Hmid & Hmin)].
        - left. split; [done|]. intros q [?| ->]%Hin; [by apply Hno|done].
        - right. exists m. split; [apply Hin; by left|]. split; [done|]. split; [done|].
          intros q [?| ->]%Hin Hq; [by apply Hmin|congruence]. }
    2:{ intros q [Hq| ->]%Hin Hid; [by apply Hd|]. destruct Hn as [[E _]|(m & Hm & _ & Hmid & _)]; [lia|].
        destruct (Hlt m Hm). lia. }
    destruct (Z.ltb_spec (tile_dist c (tile p)) acc.2) as [Hcmp|Hcmp]; cbn [fst snd].
    + split; [|split; [lia|]].
      * right. exists p. split; [apply Hin; by right|]. split; [done|]. split; [done|].
        intros q [Hq| ->]%Hin Hqw; [|lia]. enough (acc.2 <= tile_dist c (tile q)) by lia.
        destruct Hn as [[_ Hno]|(m & Hm & _ & Hmid & Hmin)]; [by rewrite (Hno q Hq) in Hqw|].
        rewrite (Hd m Hm Hmid). by apply Hmin.
      * intros q [Hq| ->]%Hin Hid; [|done]. destruct (Hlt q Hq). lia.
    + split; [|split; [done|]].
      * destruct Hn as [[E Hno]|(m & Hm & Hmw & Hmid & Hmin)]; [specialize (H0 E); lia|].
        right. exists m. split; [apply Hin; by left|]. split; [done|]. split; [done|].
        intros q [Hq| ->]%Hin Hqw; [by apply Hmin|]. rewrite (Hd m Hm Hmid) in Hcmp. destruct (Hlt m Hm). lia.
      * intros q [Hq| ->]%Hin Hid; [by apply Hd|]. destruct Hn as [[E _]|(m & Hm & _ & Hmid & _)]; [lia|].
        destruct (Hlt m Hm). lia.
Qed.

Lemma nearest_correct want c : 0 <= c < CORES_PER_DIE -> is_nearest want l c (nearest want l c).
Proof using Hgeo Hwf. intros Hc. apply (nearer_prefix want c l []); [done|]. by rewrite app_nil_r. Qed.
End nearest.

(** A port table as the configuration builds it. *)
Record table_wf `{Geometry} (t : D2DPortTable) : Prop := {
  tw_ports : ports_wf (ports t);
  tw_host : forall c, 0 <= c < CORES_PER_DIE ->
    is_nearest (fun p => bool_decide (role p = ROLE_HOST)) (ports t) c (PortForHost t c);
  tw_dir : forall c d, 0 <= c < CORES_PER_DIE -> is_side d = true ->
    is_nearest (is_c2c d) (ports t) c (PortForDir t c d);
  tw_valid : ValidateDiePorts t = Ok tt
}.

Lemma lookup_total_seqZ_fmap {A} `{Inhabited A} (f : Z -> A) n c : 0 <= c < n ->
  (f <$> seqZ 0 n) !!! Z.to_nat c = f c.
Proof.
  intros Hc. apply list_lookup_total_correct. rewrite list_lookup_fmap, lookup_seqZ_lt by lia. cbn. f_equal. f_equal. lia.
Qed.

Section tables.
Context `{G : Geometry} (Hgeo : ValidateAddressSpace = Ok tt).

Lemma PortForHost_table l pf c : 0 <= c < CORES_PER_DIE ->
  PortForHost (mkTable true l (host_table l) pf) c = nearest (fun p => bool_decide (role p = ROLE_HOST)) l c.
Proof using Hgeo.
  intros Hc. unfold PortForHost, host_table. cbn [port_for_host]. rewrite length_fmap, length_seqZ.
  destruct (_ || _) eqn:E; [|by apply (lookup_total_seqZ_fmap (nearest _ l))].
  exfalso. apply orb_true_iff in E as [E|E]; apply Z.ltb_lt in E || apply Z.leb_le in E; lia.
Qed.

Lemma PortForDir_table l ph c d : 0 <= c < CORES_PER_DIE -> is_side d = true ->
  PortForDir (mkTable true l ph (c2c_table l)) c d = nearest (is_c2c d) l c.
Proof using Hgeo.
  intros Hc Hd. unfold PortForDir, c2c_table. cbn [port_for]. rewrite length_fmap, length_seqZ.
  destruct (_ || _) eqn:E; [|].
  { exfalso. apply orb_true_iff in E as [E|E]; apply Z.ltb_lt in E || apply Z.leb_le in E; lia. }
  rewrite lookup_total_seqZ_fmap by done. by destruct d.
Qed.

Lemma parsed_table_wf l : ports_wf l -> ValidateDiePorts (mkTable true l [] []) = Ok tt ->
  table_wf (mkTable true l (host_table l) (c2c_table l)).
Proof using Hgeo.
  intros Hl Hv. split; [done| | |done].
  - intros c Hc. rewrite PortForHost_table by done. by apply nearest_correct.
  - intros c d Hc Hd. rewrite PortForDir_table by done. by apply nearest_correct.
Qed.

Lemma ParseDiePorts_wf hw_json cfg t links : ParseDiePorts hw_json = Ok (cfg, t, links) ->
  config_wf cfg /\
  ((active t = false /\ ports t = [] /\ links = []) \/
   (active t = true /\ table_wf t /\ BuildD2DLinks t = Ok links /\
    exists bw0 lat0 bf0, 1 <= bw0 /\ 0 <= lat0 /\ 1 <= bf0 /\ Forall (uniform bw0 lat0 bf0) (ports t))).
Proof using Hgeo.
  assert (config_wf default_config) as Hdef by (split; done || (cbn; lia) || by (intros; split_and!)).
  unfold ParseDiePorts. destruct (find_key hw_json "die_ports") as [dp|]; intros H; [|inv_ok; split; [done|by left]].
  apply bind_ok in H as ([[[bw0 lat0] bf0] c] & Hc & H). apply bind_ok in H as (ov & _ & H).
  apply bind_ok in H as (l & Hl & H). apply bind_ok in H as ([] & Hv & H). inv_ok.
  apply (parse_sides_wf Hgeo) in Hl as [Hl Hu].
  assert (config_wf cfg /\ 1 <= bw0 /\ 0 <= lat0 /\ 1 <= bf0) as (Hcfg & Hb).
  { unfold c2c_params in Hc. apply bind_ok in Hc as ([[[b1 l1] f1] c1] & Hp & Hc). inv_ok. split_guards.
    split; [|lia]. destruct (find_key dp "c2c") as [c|]; [|by simplify_eq].
    apply bind_ok in Hp as (? & _ & Hp). apply bind_ok in Hp as (? & _ & Hp). apply bind_ok in Hp as (? & _ & Hp).
    apply bind_ok in Hp as (? & _ & Hp). apply bind_ok in Hp as (cf & Hcf & Hp).
    apply ParseD2DLinkConfig_wf in Hcf as [Hcf _]. destruct (_ || _) in Hp; by simplify_eq. }
  split; [done|]. right. split; [done|]. split; [by apply parsed_table_wf|]. split; [done|]. exists bw0, lat0, bf0. naive_solver.
Qed.
End tables.

(** C37: every accepted configuration is well formed: ports are numbered by
    position, at most one per side and coordinate, each on the edge its side
    names; the nearest-port tables hold the first port at minimal Manhattan
    distance; the links are the mirrored pairs; the physical parameters and the
    link configuration respect their bounds. *)
Theorem die_ports_wf `{Geometry} (hw_json : json) (cfg : D2DLinkConfig) (t : D2DPortTable) (links : list D2DLink) :
  ValidateAddressSpace = Ok tt -> ParseDiePorts hw_json = Ok (cfg, t, links) ->
  config_wf cfg /\
  ((active t = false /\ ports t = [] /\ links = []) \/
   (active t = true /\ table_wf t /\ (forall k, k ∈ links <-> is_link t k) /\
    exists bw0 lat0 bf0, 1 <= bw0 /\ 0 <= lat0 /\ 1 <= bf0 /\ Forall (uniform bw0 lat0 bf0) (ports t))).
Proof.
  intros Hgeo Hp. destruct (ParseDiePorts_wf Hgeo _ _ _ _ Hp) as [Hc [Hi|(Ha & Ht & Hl & Hu)]]; [by split; [|left]|].
  split; [done|right]. split; [done|]. split; [done|]. split; [|done].
  rewrite (BuildD2DLinks_built Hgeo t (tw_ports _ Ht) Ha) in Hl. by apply (built_links t (tw_ports _ Ht)).
Qed.

(** *** A 2 x 2 arrangement of dies with 2 x 2 cores *)

Definition demo_geometry : Geometry := mkGeometry 2 2 2 2.
Definition demo_hw : json :=
  let c2c := JObj [("role", JStr "c2c")]%string in
  let at_ s i role := JObj [("side", JStr s); ("idx", JInt i); ("role", JStr role)]%string in
  JObj [("die_ports", JObj [("edges", JObj [("E", c2c); ("W", c2c); ("N", c2c)]);
                            ("overrides", JArr [at_ "S" 0 "host"; at_ "S" 1 "c2c"; at_ "N" 0 "mem"])])]%string.

Lemma die_ports_wf_witness : exists cfg t links,
  @ParseDiePorts demo_geometry demo_hw = Ok (cfg, t, links) /\ length (ports t) = 8%nat /\ length links = 12%nat /\
  @table_wf demo_geometry t.
Proof.
  eexists _, _, _. split; [vm_compute; reflexivity|]. split; [reflexivity|]. split; [reflexivity|].
  edestruct (@die_ports_wf demo_geometry demo_hw) as [_ [(Ha & _)|(_ & Ht & _)]];
    [reflexivity|vm_compute; reflexivity|discriminate Ha|exact Ht].
Defined.

Definition demo_parsed : result (D2DLinkConfig * D2DPortTable * list D2DLink) := @ParseDiePorts demo_geometry demo_hw.
Definition demo_table : D2DPortTable := match demo_parsed with Ok (_, t, _) => t | Err _ => mkTable false [] [] [] end.
Definition demo_links : list D2DLink := match demo_parsed with Ok (_, _, k) => k | Err _ => [] end.

Lemma demo_wf : active demo_table = true /\ @table_wf demo_geometry demo_table /\
  @BuildD2DLinks demo_geometry demo_table = Ok demo_links.
Proof.
  destruct (@ParseDiePorts demo_geometry demo_hw) as [[[cfg t] links]|] eqn:E; [|discriminate E].
  assert (demo_table = t /\ demo_links = links) as [-> ->] by (unfold demo_table, demo_links, demo_parsed; by rewrite E).
  destruct (@ParseDiePorts_wf demo_geometry eq_refl demo_hw cfg t links E) as [_ [(Ha & _)|(Ha & Ht & Hb & _)]]; [|done].
  exfalso. revert E Ha. vm_compute. intros [= <- <- <-]. discriminate.
Qed.

Lemma d2d_links_correct_witness :
  @BuildD2DLinks demo_geometry demo_table = Ok demo_links /\ length demo_links = 12%nat /\ NoDup (local_end <$> demo_links).
Proof.
  destruct demo_wf as (Ha & Ht & Hb). split; [exact Hb|]. split; [vm_compute; reflexivity|].
  apply (@d2d_links_correct demo_geometry demo_table eq_refl (tw_ports _ Ht) Ha). exact Hb.
Defined.
