(* ===== verification/PortSelect.v ===== *)
(** The choice of the exit port of a flow ([SelectPortForFlow],
    [ReleaseV5DynamicPort], [ResetV5PortSelectionStats] and [V5StableHash] of
    [src/die/port_config.cpp]; [FlowKey] of [include/common/flow.h]).  The static
    policies are functions of the flow; the dynamic policy pins a flow to a
    least-loaded port and keeps a load count per die and port.  The file-scope
    variables [g_v5_dynamic_*] are the record [v5_state], passed explicitly. *)

From S2P Require Import Prelude D2DConfig DieTopology.

(** ** State *)

Record FlowKey : Type := mkFlow { source : Z; tag : Z; subflow : Z }.
#[export] Instance FlowKey_eq_dec : EqDecision FlowKey.
Proof. solve_decision. Defined.
#[export] Instance FlowKey_countable : Countable FlowKey.
Proof.
  apply (inj_countable' (fun k => (source k, tag k, subflow k)) (fun '(a, b, c) => mkFlow a b c)). by intros [].
Defined.

(** Keys are (local die, direction code, flow). *)
Definition V5DynamicKey : Type := Z * Z * FlowKey.

Record v5_state : Type := mkV5 {
  pins : gmap V5DynamicKey Z; loads : list Z; selections : Z; releases : Z
}.
Definition v5_initial : v5_state := mkV5 ∅ [] 0 0.

Definition v5_expected `{Geometry} (t : D2DPortTable) : Z := Z.max 1 DIE_COUNT * Z.of_nat (length (ports t)).

Definition ResetV5PortSelectionStats `{Geometry} (t : D2DPortTable) : v5_state :=
  mkV5 ∅ (replicate (Z.to_nat (v5_expected t)) 0) 0 0.

(** ** The hash: arithmetic on [unsigned long long] *)

Definition mix (x v : Z) : Z :=
  let x := Z.lxor x (u64 (u64 (u64 (v + 0x9e3779b97f4a7c15) + u64 (Z.shiftl x 6)) + Z.shiftr x 2)) in
  let x := Z.lxor x (Z.shiftr x 30) in
  let x := u64 (x * 0xbf58476d1ce4e5b9) in
  let x := Z.lxor x (Z.shiftr x 27) in
  let x := u64 (x * 0x94d049bb133111eb) in
  Z.lxor x (Z.shiftr x 31).

Definition V5StableHash (seed src tg : Z) : Z :=
  mix (mix (Z.lxor seed 0x9e3779b97f4a7c15) (u32 src)) (u32 tg).

(** ** Selection *)

Definition port_before `{Geometry} (t : D2DPortTable) (a b : Z) : Prop :=
  let ca := PerpCoord (ports t !!! Z.to_nat a) in
  let cb := PerpCoord (ports t !!! Z.to_nat b) in
  if ca =? cb then a <= b else ca < cb.
#[export] Instance port_before_dec `{Geometry} t : RelDecision (port_before t).
Proof. intros a b. unfold port_before. cbv zeta. destruct (_ =? _); apply _. Defined.

Definition sorted_ports `{Geometry} (t : D2DPortTable) (dir : Directions) : list Z :=
  merge_sort (port_before t) (PortsForDir t dir).

Definition load_of (t : D2DPortTable) (st : v5_state) (local_die port : Z) : Z :=
  loads st !!! Z.to_nat (local_die * Z.of_nat (length (ports t)) + port).

Definition LONG_MAX : Z := 2 ^ 63 - 1.

(** The first port from [start] on, cyclically, whose load is minimal. *)
Definition least_loaded (load : Z -> Z) (l : list Z) (start : Z) : Z :=
  let n := Z.of_nat (length l) in
  let best_load := foldl (fun b port => Z.min b (load port)) LONG_MAX l in
  match List.find (fun off => load (l !!! Z.to_nat ((start + off) mod n)) =? best_load) (seqZ 0 n) with
  | Some off => (start + off) mod n
  | None => 0
  end.

Definition select_dynamic `{Geometry} (t : D2DPortTable) (seed : Z) (st : v5_state) (l : list Z)
    (dir : Directions) (src tg sub local_die : Z) : result (Z * v5_state) :=
  let cache_key := (local_die, dir_code dir, mkFlow src tg sub) in
  match pins st !! cache_key with
  | Some port => Ok (port, st)
  | None =>
      (if negb (Z.of_nat (length (loads st)) =? v5_expected t) then
         THROW runtime_error "V5 dynamic load table changed with active pins" WHEN negb (bool_decide (pins st = ∅));;
         Ok (ResetV5PortSelectionStats t)
       else Ok st) ≫= fun st =>
      let h := V5StableHash seed src tg in
      let start := u64 (u64 (h + u32 sub) + u64 (local_die * 0x9e3779b9)) mod Z.of_nat (length l) in
      let selected := l !!! Z.to_nat (least_loaded (load_of t st local_die) l start) in
      let idx := Z.to_nat (local_die * Z.of_nat (length (ports t)) + selected) in
      Ok (selected, mkV5 (<[cache_key := selected]> (pins st)) (alter Z.succ idx (loads st))
                         (selections st + 1) (releases st))
  end.

Definition SelectPortForFlow `{Geometry} (t : D2DPortTable) (cfg : D2DLinkConfig) (st : v5_state)
    (local_core : Z) (dir : Directions) (src tg sub local_die : Z) : result (Z * v5_state) :=
  THROW runtime_error "V5 port selection: illegal core/subflow"
    WHEN (local_core <? 0) || (CORES_PER_DIE <=? local_core) || (sub <? 0) || (3 <? sub);;
  let local_die := if local_die <? 0 then
                     (if (0 <=? src) && (src <? TOTAL_CORES) then DieOfGlobal src else 0)
                   else local_die in
  THROW runtime_error "V5 port selection: illegal local die" WHEN (local_die <? 0) || (DIE_COUNT <=? local_die);;
  match PortsForDir t dir with
  | [] => Ok (-1, st)
  | _ =>
      let l := sorted_ports t dir in
      let n := Z.of_nat (length l) in
      if negb (v5_multiport cfg) || ((n =? 1) && negb (bool_decide (select_policy cfg = SELECT_DYNAMIC)))
      then Ok (PortForDir t local_core dir, st) else
      let horizontal := bool_decide (dir = EAST) || bool_decide (dir = WEST) in
      let coord := if horizontal then Z.quot local_core GRID_X else Z.rem local_core GRID_X in
      let extent := if horizontal then GRID_Y else GRID_X in
      let band := Z.min (n - 1) (Z.quot (coord * n) extent) in
      match select_policy cfg with
      | SELECT_NEAREST => Ok (PortForDir t local_core dir, st)
      | SELECT_BANDED_NEAREST => Ok (l !!! Z.to_nat band, st)
      | SELECT_TAG_HASH =>
          Ok (l !!! Z.to_nat (u64 (V5StableHash (select_seed cfg) src tg + u32 sub) mod n), st)
      | SELECT_HYBRID => Ok (l !!! Z.to_nat ((band + sub) mod n), st)
      | SELECT_DYNAMIC => select_dynamic t (select_seed cfg) st l dir src tg sub local_die
      end
  end.

Definition ReleaseV5DynamicPort `{Geometry} (t : D2DPortTable) (cfg : D2DLinkConfig) (st : v5_state)
    (local_die : Z) (dir : Directions) (key : FlowKey) : result v5_state :=
  if negb (bool_decide (select_policy cfg = SELECT_DYNAMIC)) then Ok st else
  THROW runtime_error "V5 dynamic release: illegal die/direction"
    WHEN (local_die <? 0) || (DIE_COUNT <=? local_die) || (dir_code dir <? dir_code WEST) || (dir_code SOUTH <? dir_code dir);;
  let cache_key := (local_die, dir_code dir, key) in
  match pins st !! cache_key with
  | None => Err (runtime_error "V5 dynamic release without active pin")
  | Some port =>
      let nport := Z.of_nat (length (ports t)) in
      let idx := local_die * nport + port in
      THROW runtime_error "V5 dynamic release accounting underflow"
        WHEN (local_die <? 0) || (DIE_COUNT <=? local_die) || (port <? 0) || (nport <=? port) || (idx <? 0) ||
             (Z.of_nat (length (loads st)) <=? idx) || (loads st !!! Z.to_nat idx <=? 0);;
      let p := ports t !!! Z.to_nat port in
      THROW runtime_error "V5 dynamic release port/direction mismatch"
        WHEN negb (bool_decide (role p = ROLE_C2C)) || negb (bool_decide (pdir p = dir));;
      Ok (mkV5 (delete cache_key (pins st)) (alter Z.pred (Z.to_nat idx) (loads st)) (selections st) (releases st + 1))
  end.

(** ** The load table counts the pins *)

Definition pinned (m : gmap V5DynamicKey Z) (d p : Z) : Z :=
  Z.of_nat (size (base.filter (fun kv : V5DynamicKey * Z => kv.1.1.1 = d /\ kv.2 = p) m)).

Lemma pinned_insert m k x d p : m !! k = None ->
  pinned (<[k := x]> m) d p = pinned m d p + (if decide (k.1.1 = d /\ x = p) then 1 else 0).
Proof.
  intros Hk. unfold pinned. rewrite map_filter_insert. cbn [fst snd].
  destruct (decide (k.1.1 = d /\ x = p)).
  - rewrite map_size_insert_None; [lia|]. apply map_lookup_filter_None. by left.
  - rewrite delete_id by done. lia.
Qed.

Lemma pinned_delete m k x d p : m !! k = Some x ->
  pinned m d p = pinned (delete k m) d p + (if decide (k.1.1 = d /\ x = p) then 1 else 0).
Proof.
  intros Hk. rewrite <- (insert_delete_id m k x Hk) at 1. by rewrite pinned_insert by apply lookup_delete_eq.
Qed.

Lemma pinned_pos m k x : m !! k = Some x -> 0 < pinned m k.1.1 x.
Proof. intros Hk. rewrite (pinned_delete m k x _ _ Hk), decide_True by done. unfold pinned. lia. Qed.

Lemma pinned_le_size m d p : 0 <= pinned m d p <= Z.of_nat (size m).
Proof.
  unfold pinned. split; [lia|]. apply Nat2Z.inj_le, map_subseteq_size, map_filter_subseteq.
Qed.

Lemma elem_of_PortsForDir t d x : x ∈ PortsForDir t d <-> exists p, p ∈ ports t /\ is_c2c d p = true /\ port_id p = x.
Proof.
  unfold PortsForDir. rewrite list_elem_of_fmap. setoid_rewrite list_elem_of_In. setoid_rewrite filter_In. naive_solver.
Qed.

(** *** The least-loaded port *)

Lemma foldl_min_spec (load : Z -> Z) l b0 :
  let b := foldl (fun b port => Z.min b (load port)) b0 l in
  b <= b0 /\ (forall x, x ∈ l -> b <= load x) /\ (b = b0 \/ exists x, x ∈ l /\ load x = b).
Proof.
  revert b0. induction l as [|y l IH]; intros b0; cbn.
  - split; [lia|]. split; [|by left]. intros x Hx. by apply elem_of_nil in Hx.
  - destruct (IH (Z.min b0 (load y))) as (H1 & H2 & H3). split; [lia|]. split.
    + intros x [->|Hx]%elem_of_cons; [lia|by apply H2].
    + destruct H3 as [H3|(x & Hx & H3)]; [|right; exists x; split; [by right|done]].
      destruct (Z.min_spec b0 (load y)) as [[_ E]|[_ E]]; rewrite E in *; [by left|].
      right. exists y. split; [left|done].
Qed.

Lemma least_loaded_range load l start : 0 < Z.of_nat (length l) ->
  0 <= least_loaded load l start < Z.of_nat (length l).
Proof.
  intros Hn. unfold least_loaded. cbv zeta. destruct (List.find _ _); [|lia]. by apply Z.mod_pos_bound.
Qed.

Lemma least_loaded_min load l start : 0 < Z.of_nat (length l) -> (forall x, x ∈ l -> load x <= LONG_MAX) ->
  forall x, x ∈ l -> load (l !!! Z.to_nat (least_loaded load l start)) <= load x.
Proof.
  intros Hn Hmax x Hx. unfold least_loaded. cbv zeta.
  destruct (foldl_min_spec load l LONG_MAX) as (_ & Hle & Hex). set (best := foldl _ _ _) in *.
  destruct (List.find _ _) as [off|] eqn:E.
  - apply find_some in E as [_ E]. apply Z.eqb_eq in E. rewrite E. by apply Hle.
  - exfalso. assert (exists y, y ∈ l /\ load y = best) as (y & Hy & Hb).
    { destruct Hex as [Hex|Hex]; [|done]. exists x. split; [done|]. pose proof (Hle x Hx). pose proof (Hmax x Hx). lia. }
    apply list_elem_of_lookup in Hy as [i Hi]. pose proof (lookup_lt_Some _ _ _ Hi).
    set (n := Z.of_nat (length l)) in *.
    assert ((start + (Z.of_nat i - start) mod n) mod n = Z.of_nat i) as Hmod.
    { rewrite Zplus_mod_idemp_r, Z.mod_small; lia. }
    assert (In ((Z.of_nat i - start) mod n) (seqZ 0 n)) as Hin.
    { apply list_elem_of_In, elem_of_seqZ. pose proof (Z.mod_pos_bound (Z.of_nat i - start) n Hn). lia. }
    pose proof (find_none _ _ E _ Hin) as Hne. cbn beta in Hne. rewrite Hmod, Nat2Z.id in Hne.
    rewrite (list_lookup_total_correct _ _ _ Hi), Hb, Z.eqb_refl in Hne. done.
Qed.

Section selection.
Context `{G : Geometry} (Hgeo : ValidateAddressSpace = Ok tt) (t : D2DPortTable) (Hwf : table_wf t).

Record v5_wf (st : v5_state) : Prop := {
  v5_size : Z.of_nat (length (loads st)) = v5_expected t \/ pins st = ∅;
  v5_loads : Z.of_nat (length (loads st)) = v5_expected t ->
    forall d p, 0 <= d < DIE_COUNT -> 0 <= p < Z.of_nat (length (ports t)) ->
      loads st !! Z.to_nat (d * Z.of_nat (length (ports t)) + p) = Some (pinned (pins st) d p);
  v5_pins : forall k p, pins st !! k = Some p ->
    0 <= k.1.1 < DIE_COUNT /\ exists d, is_side d = true /\ k.1.2 = dir_code d /\ p ∈ PortsForDir t d;
  v5_count : Z.of_nat (size (pins st)) = selections st - releases st
}.

Lemma PortsForDir_port d x : x ∈ PortsForDir t d ->
  0 <= x < Z.of_nat (length (ports t)) /\
  exists p, ports t !! Z.to_nat x = Some p /\ port_id p = x /\ role p = ROLE_C2C /\ pdir p = d /\ is_side d = true.
Proof using Hwf.
  intros (p & Hp & Hc & <-)%elem_of_PortsForDir. unfold is_c2c in Hc. split_guards.
  apply bool_decide_eq_true in H as Hr. apply bool_decide_eq_true in H0 as Hd.
  destruct (port_at t (tw_ports _ Hwf) p Hp) as [Hw Hl].
  pose proof (lookup_lt_Some _ _ _ Hl). pose proof (pw_id _ _ Hw). split; [lia|]. exists p.
  split; [done|]. split; [done|]. split; [done|]. split; [done|]. rewrite <- Hd, (pw_dir _ _ Hw). apply Hw.
Qed.

Lemma elem_of_sorted d x : x ∈ sorted_ports t d <-> x ∈ PortsForDir t d.
Proof using. unfold sorted_ports. by rewrite (merge_sort_Permutation (port_before t) (PortsForDir t d)). Qed.

Lemma length_sorted d : length (sorted_ports t d) = length (PortsForDir t d).
Proof using. unfold sorted_ports. by rewrite (merge_sort_Permutation (port_before t) (PortsForDir t d)). Qed.

Lemma sorted_lookup d i : 0 <= i < Z.of_nat (length (PortsForDir t d)) ->
  sorted_ports t d !!! Z.to_nat i ∈ PortsForDir t d.
Proof using.
  intros Hi. rewrite <- elem_of_sorted. apply list_elem_of_lookup_total_2. rewrite length_sorted. lia.
Qed.

Lemma v5_wf_initial : v5_wf v5_initial.
Proof using Hgeo.
  split; cbn; [by right| |done|by rewrite map_size_empty].
  intros Hlen d p Hd Hp. exfalso. unfold v5_expected in Hlen. destruct (geo_facts Hgeo) as (_ & _ & _ & _ & _ & Hdc & _). nia.
Qed.

Lemma v5_wf_reset : v5_wf (ResetV5PortSelectionStats t) /\
  Z.of_nat (length (loads (ResetV5PortSelectionStats t))) = v5_expected t.
Proof using Hgeo.
  assert (0 <= v5_expected t) as H0 by (unfold v5_expected; lia).
  assert (Z.of_nat (length (loads (ResetV5PortSelectionStats t))) = v5_expected t) as Hlen.
  { cbn. rewrite length_replicate. lia. }
  split; [|done]. split; [by left| |done|done]. intros _ d p Hd Hp. cbn.
  apply lookup_replicate. unfold pinned. rewrite map_filter_empty, map_size_empty. split; [done|].
  unfold v5_expected in *. destruct (geo_facts Hgeo) as (_ & _ & _ & _ & _ & Hdc & _).
  pose proof (index_bound (Z.of_nat (length (ports t))) (Z.max 1 DIE_COUNT) p d). nia.
Qed.

Lemma load_of_pinned st d p : v5_wf st -> Z.of_nat (length (loads st)) = v5_expected t ->
  0 <= d < DIE_COUNT -> 0 <= p < Z.of_nat (length (ports t)) -> load_of t st d p = pinned (pins st) d p.
Proof using. intros Hst Hlen Hd Hp. apply list_lookup_total_correct. by apply Hst. Qed.

(** Changing one entry of the table by [f]. *)
Lemma alter_loads st f d p d' p' : v5_wf st -> Z.of_nat (length (loads st)) = v5_expected t ->
  0 <= d < DIE_COUNT -> 0 <= p < Z.of_nat (length (ports t)) ->
  0 <= d' < DIE_COUNT -> 0 <= p' < Z.of_nat (length (ports t)) ->
  alter f (Z.to_nat (d * Z.of_nat (length (ports t)) + p)) (loads st) !! Z.to_nat (d' * Z.of_nat (length (ports t)) + p')
  = Some (if decide (d = d' /\ p = p') then f (pinned (pins st) d p) else pinned (pins st) d' p').
Proof using.
  intros Hst Hlen Hd Hp Hd' Hp'. destruct (decide (d = d' /\ p = p')) as [[<- <-]|Hne].
  - by rewrite list_lookup_alter_eq, (v5_loads _ Hst) by done.
  - rewrite list_lookup_alter_ne; [by apply Hst|]. intros Heq. apply Hne.
    set (n := Z.of_nat (length (ports t))) in *.
    assert (d * n + p = d' * n + p') as E by nia.
    destruct (index_join n p d Hp ltac:(lia)) as [E1 E2]. destruct (index_join n p' d' Hp' ltac:(lia)) as [E3 E4].
    rewrite E in E1, E2. split; congruence.
Qed.

(** *** Selection and release *)

Lemma select_dynamic_spec st seed dir src tg sub d :
  v5_wf st -> 0 <= d < DIE_COUNT -> PortsForDir t dir <> [] ->
  let key := (d, dir_code dir, mkFlow src tg sub) in
  exists r st', select_dynamic t seed st (sorted_ports t dir) dir src tg sub d = Ok (r, st') /\
    r ∈ PortsForDir t dir /\ v5_wf st' /\
    ((pins st !! key = Some r /\ st' = st) \/
     (pins st !! key = None /\ pins st' = <[key := r]> (pins st) /\
      (Z.of_nat (size (pins st)) <= LONG_MAX ->
       forall x, x ∈ PortsForDir t dir -> pinned (pins st) d r <= pinned (pins st) d x))).
Proof using Hgeo Hwf.
  intros Hst Hd Hne key. unfold select_dynamic. fold key.
  destruct (pins st !! key) as [p|] eqn:Hk.
  { exists p, st. split; [done|]. destruct (v5_pins _ Hst _ _ Hk) as (_ & d' & Hs & Hc & Hp).
    assert (d' = dir) as -> by (cbn in Hc; destruct d', dir; done || (cbn in Hs; done)). naive_solver. }
  assert (exists st1, (if negb (Z.of_nat (length (loads st)) =? v5_expected t) then
      THROW runtime_error "V5 dynamic load table changed with active pins" WHEN negb (bool_decide (pins st = ∅));;
      Ok (ResetV5PortSelectionStats t) else Ok st) = Ok st1 /\
    v5_wf st1 /\ Z.of_nat (length (loads st1)) = v5_expected t /\ pins st1 = pins st) as (st1 & -> & Hst1 & Hlen & Hpins).
  { destruct (Z.eqb_spec (Z.of_nat (length (loads st))) (v5_expected t)) as [E|E]; cbn; [by exists st|].
    destruct (v5_size _ Hst) as [?|Hemp]; [done|]. rewrite bool_decide_eq_true_2 by done. cbn.
    exists (ResetV5PortSelectionStats t). by destruct v5_wf_reset. }
  cbn [mbind result_bind]. set (start := _ mod _). rewrite <- Hpins in Hk |- *.
  set (i := least_loaded _ _ start). assert (0 < Z.of_nat (length (sorted_ports t dir))) as Hpos.
  { rewrite length_sorted. destruct (PortsForDir t dir); [done|cbn; lia]. }
  pose proof (least_loaded_range (load_of t st1 d) (sorted_ports t dir) start Hpos) as Hi. fold i in Hi.
  set (r := sorted_ports t dir !!! Z.to_nat i).
  assert (r ∈ PortsForDir t dir) as Hr by (apply sorted_lookup; by rewrite <- length_sorted).
  destruct (PortsForDir_port dir r Hr) as [Hrb (p & _ & _ & _ & _ & Hside)].
  eexists r, _. split; [reflexivity|]. split; [done|]. split; [|right; split; [done|]; split; [done|]].
  - split; cbn [pins loads selections releases].
    + left. by rewrite length_alter.
    + intros _ d' p' Hd' Hp'. rewrite (alter_loads st1) by done. rewrite pinned_insert by done. cbn [fst snd key].
      case_decide as E; [destruct E as [<- <-]|]; f_equal; lia.
    + intros k q [[<- <-]|[_ Hq]]%lookup_insert_Some; [|by apply (v5_pins _ Hst1)]. cbn. naive_solver.
    + rewrite map_size_insert_None by done. pose proof (v5_count _ Hst1). lia.
  - intros Hmax x Hx. rewrite <- !(load_of_pinned st1) by (done || by apply PortsForDir_port in Hx as [? _]).
    apply least_loaded_min; [done| |by apply elem_of_sorted].
    intros y Hy%elem_of_sorted. apply PortsForDir_port in Hy as [Hy _]. rewrite load_of_pinned by done.
    pose proof (pinned_le_size (pins st1) d y). lia.
Qed.

(** The port table lookups of the static policies stay inside the port list. *)
Lemma PortForDir_valid c dir : 0 <= c < CORES_PER_DIE -> is_side dir = true -> PortsForDir t dir <> [] ->
  PortForDir t c dir ∈ PortsForDir t dir.
Proof using Hwf.
  intros Hc Hd Hne. destruct (tw_dir _ Hwf c dir Hc Hd) as [[_ Hno]|(p & Hp & Hw & Hid & _)].
  - exfalso. destruct (PortsForDir t dir) as [|x l] eqn:E; [done|].
    assert (x ∈ PortsForDir t dir) as (p & Hp & Hw & _)%elem_of_PortsForDir by (rewrite E; left).
    by rewrite (Hno p Hp) in Hw.
  - apply elem_of_PortsForDir. by exists p.
Qed.

Definition die_of_flow (src local_die : Z) : Z :=
  if local_die <? 0 then (if (0 <=? src) && (src <? TOTAL_CORES) then DieOfGlobal src else 0) else local_die.

(** With legal arguments a port is always found when the direction has one. *)
Lemma SelectPortForFlow_ok cfg st c dir src tg sub ld :
  v5_wf st -> 0 <= c < CORES_PER_DIE -> 0 <= sub <= 3 -> 0 <= die_of_flow src ld < DIE_COUNT -> PortsForDir t dir <> [] ->
  exists r st', SelectPortForFlow t cfg st c dir src tg sub ld = Ok (r, st') /\ r ∈ PortsForDir t dir /\ v5_wf st' /\
    (v5_multiport cfg = false \/ select_policy cfg <> SELECT_DYNAMIC -> st' = st) /\
    (v5_multiport cfg = true -> select_policy cfg = SELECT_DYNAMIC ->
     select_dynamic t (select_seed cfg) st (sorted_ports t dir) dir src tg sub (die_of_flow src ld) = Ok (r, st')).
Proof using Hgeo Hwf.
  intros Hst Hc Hsub Hld Hne. unfold SelectPortForFlow. fold (die_of_flow src ld). cbv zeta.
  rewrite !throw_bind_false by (repeat (apply orb_false_iff; split); lia).
  assert (is_side dir = true) as Hdir.
  { destruct (PortsForDir t dir) as [|x l] eqn:E; [done|].
    assert (x ∈ PortsForDir t dir) as (_ & p & _ & _ & _ & _ & Hs)%PortsForDir_port by (rewrite E; left). done. }
  pose proof (PortForDir_valid c dir Hc Hdir Hne) as Hpd.
  assert (0 < Z.of_nat (length (sorted_ports t dir))) as Hpos
    by (rewrite length_sorted; destruct (PortsForDir t dir); [done|cbn; lia]).
  assert (forall i, 0 <= i < Z.of_nat (length (sorted_ports t dir)) ->
    sorted_ports t dir !!! Z.to_nat i ∈ PortsForDir t dir) as Hl by (intros i; rewrite length_sorted; apply sorted_lookup).
  destruct (select_dynamic_spec st (select_seed cfg) dir src tg sub (die_of_flow src ld) Hst Hld Hne)
    as (r & st' & Hdyn & Hr & Hst' & _).
  destruct (PortsForDir t dir) as [|x0 l0] eqn:Edir; [done|]. rewrite <- Edir in *. clear Edir.
  destruct (negb (v5_multiport cfg) || _) eqn:Es.
  { exists (PortForDir t c dir), st. split; [done|]. split; [done|]. split; [done|]. split; [done|]. intros Hm Hp.
    rewrite Hm, Hp, bool_decide_eq_true_2, andb_false_r in Es by done. done. }
  set (n := Z.of_nat (length (sorted_ports t dir))) in *.
  assert (forall x, 0 <= x mod n < n) as Hmod by (intros; by apply Z.mod_pos_bound).
  destruct (select_policy cfg) eqn:Epol.
  - exists (PortForDir t c dir), st. split; [done|]. by split.
  - eexists _, st. split; [reflexivity|]. split; [|by split]. apply Hl. split; [|lia]. apply Z.min_glb; [lia|].
    destruct (geo_facts Hgeo) as (Hx & Hy & _). destruct (index_split GRID_X GRID_Y c Hx Hc) as (? & ? & _).
    clear Es Hdyn. destruct (_ || _); apply Z.quot_pos; try lia; apply Z.mul_nonneg_nonneg; lia.
  - eexists _, st. split; [reflexivity|]. split; [|by split]. apply Hl, Hmod.
  - eexists _, st. split; [reflexivity|]. split; [|by split]. apply Hl, Hmod.
  - exists r, st'. split; [done|]. split; [done|]. split; [done|]. split; [|done]. apply orb_false_iff in Es as [Es _].
    apply negb_false_iff in Es. intros [?|?]; congruence.
Qed.
End selection.

Section release.
Context `{G : Geometry} (Hgeo : ValidateAddressSpace = Ok tt) (t : D2DPortTable) (Hwf : table_wf t).

Lemma dir_code_side d : is_side d = true <-> dir_code WEST <= dir_code d <= dir_code SOUTH.
Proof using. destruct d; cbn; split; done || lia. Qed.

Lemma dir_code_inj d d' : dir_code d = dir_code d' -> d = d'.
Proof using. by destruct d, d'. Qed.

(** The release of a pinned flow passes every accounting check. *)
Lemma Release_pinned cfg st d dir key p :
  v5_wf t st -> select_policy cfg = SELECT_DYNAMIC -> is_side dir = true ->
  pins st !! (d, dir_code dir, key) = Some p ->
  exists st', ReleaseV5DynamicPort t cfg st d dir key = Ok st' /\ v5_wf t st' /\
    pins st' = delete (d, dir_code dir, key) (pins st).
Proof using Hgeo Hwf.
  intros Hst Hpol Hdir Hk. destruct (v5_pins _ _ Hst _ _ Hk) as (Hd & d' & _ & Hc & Hp).
  cbn [fst snd] in Hd, Hc. apply dir_code_inj in Hc as <-.
  destruct (PortsForDir_port t Hwf dir p Hp) as (Hpb & q & Hq & _ & Hrole & Hqd & _).
  assert (Z.of_nat (length (loads st)) = v5_expected t) as Hlen.
  { destruct (v5_size _ _ Hst) as [?|E]; [done|]. by rewrite E, lookup_empty in Hk. }
  pose proof (v5_loads _ _ Hst Hlen d p Hd Hpb) as Hload. pose proof (pinned_pos _ _ _ Hk) as Hpos. cbn in Hpos.
  unfold ReleaseV5DynamicPort. rewrite bool_decide_eq_true_2 by done. cbn [negb]. rewrite Hk.
  apply dir_code_side in Hdir. cbv zeta.
  rewrite (list_lookup_total_correct _ _ _ Hload), (list_lookup_total_correct _ _ _ Hq).
  apply lookup_lt_Some in Hload as Hlt.
  rewrite !throw_bind_false by
    (rewrite ?bool_decide_eq_true_2 by done; repeat (apply orb_false_iff; split); done || nia).
  eexists. split; [reflexivity|]. split; [|done]. split; cbn [pins loads selections releases].
  - left. by rewrite length_alter.
  - intros _ d' p' Hd' Hp'. rewrite (alter_loads t st) by done. rewrite (pinned_delete _ _ _ d' p' Hk).
    pose proof (pinned_delete _ _ _ d p Hk) as E1. rewrite decide_True in E1 by done. cbn [fst snd].
    case_decide as E; [destruct E as [<- <-]|]; f_equal; lia.
  - intros k x [_ Hx]%lookup_delete_Some. by apply (v5_pins _ _ Hst).
  - rewrite map_size_delete_Some by (by eexists). pose proof (v5_count _ _ Hst).
    assert (size (pins st) <> 0%nat) by (apply map_size_ne_0_lookup; eauto). lia.
Qed.

Lemma Release_inv cfg st d dir key st' : select_policy cfg = SELECT_DYNAMIC ->
  ReleaseV5DynamicPort t cfg st d dir key = Ok st' ->
  0 <= d < DIE_COUNT /\ is_side dir = true /\ exists p, pins st !! (d, dir_code dir, key) = Some p.
Proof using.
  intros Hpol H. unfold ReleaseV5DynamicPort in H. rewrite bool_decide_eq_true_2 in H by done. cbn [negb] in H.
  apply throw_bind_ok in H as [Hg H]. split_guards. rewrite dir_code_side. split; [lia|]. split; [lia|].
  destruct (pins st !! _) as [p|]; [by exists p|done].
Qed.
End release.

(** ** Reachable states of the dynamic policy *)

Inductive v5_reachable `{Geometry} (t : D2DPortTable) (cfg : D2DLinkConfig) : v5_state -> Prop :=
  | v5_start : v5_reachable t cfg v5_initial
  | v5_reset st : v5_reachable t cfg st -> v5_reachable t cfg (ResetV5PortSelectionStats t)
  | v5_select st c dir src tg sub ld r st' : v5_reachable t cfg st ->
      SelectPortForFlow t cfg st c dir src tg sub ld = Ok (r, st') -> v5_reachable t cfg st'
  | v5_release st d dir key st' : v5_reachable t cfg st ->
      ReleaseV5DynamicPort t cfg st d dir key = Ok st' -> v5_reachable t cfg st'.

Section reachable.
Context `{G : Geometry} (Hgeo : ValidateAddressSpace = Ok tt) (t : D2DPortTable) (Hwf : table_wf t) (cfg : D2DLinkConfig).

Lemma Select_wf st c dir src tg sub ld r st' : v5_wf t st ->
  SelectPortForFlow t cfg st c dir src tg sub ld = Ok (r, st') -> v5_wf t st' /\ (r = -1 /\ PortsForDir t dir = [] \/ r ∈ PortsForDir t dir).
Proof using Hgeo Hwf.
  intros Hst H. pose proof H as H'. unfold SelectPortForFlow in H'. fold (die_of_flow src ld) in H'.
  apply throw_bind_ok in H' as [Hg H']. cbv zeta in H'. apply throw_bind_ok in H' as [Hg' H']. split_guards.
  destruct (PortsForDir t dir) as [|x l] eqn:E; [simplify_eq; naive_solver|].
  destruct (SelectPortForFlow_ok Hgeo t Hwf cfg st c dir src tg sub ld Hst) as (r1 & st1 & HS & Hr & Hst1 & _);
    [lia|lia|lia|by rewrite E|]. rewrite H in HS. simplify_eq. rewrite <- E. auto.
Qed.

Lemma v5_reachable_wf st : v5_reachable t cfg st -> v5_wf t st.
Proof using Hgeo Hwf.
  induction 1 as [|st _ _|st c dir src tg sub ld r st' _ IH H|st d dir key st' _ IH H].
  - by apply v5_wf_initial.
  - by apply v5_wf_reset.
  - by eapply Select_wf.
  - destruct (decide (select_policy cfg = SELECT_DYNAMIC)) as [Hp|Hp].
    + destruct (Release_inv t cfg st d dir key st' Hp H) as (_ & Hdir & p & Hk).
      destruct (Release_pinned Hgeo t Hwf cfg st d dir key p IH Hp Hdir Hk) as (st1 & H1 & Hst1 & _).
      rewrite H in H1. by simplify_eq.
    + unfold ReleaseV5DynamicPort in H. rewrite bool_decide_eq_false_2 in H by done. cbn in H. by simplify_eq.
Qed.
End reachable.

(** In every reachable state the choice of a port with legal arguments never
    fails: it gives -1 exactly when the direction has no C2C port and otherwise
    a C2C port of that direction; a policy other than the dynamic one leaves the
    state unchanged, so its choice depends on the flow alone. *)
Theorem select_port_sound `{Geometry} (t : D2DPortTable) (cfg : D2DLinkConfig) (st : v5_state)
    (c : Z) (dir : Directions) (src tg sub ld : Z) :
  ValidateAddressSpace = Ok tt -> table_wf t -> v5_reachable t cfg st ->
  0 <= c < CORES_PER_DIE -> 0 <= sub <= 3 -> 0 <= die_of_flow src ld < DIE_COUNT ->
  exists r st', SelectPortForFlow t cfg st c dir src tg sub ld = Ok (r, st') /\
    (r = -1 <-> PortsForDir t dir = []) /\ (r <> -1 -> r ∈ PortsForDir t dir) /\
    (v5_multiport cfg = false \/ select_policy cfg <> SELECT_DYNAMIC -> st' = st).
Proof.
  intros Hgeo Hwf Hst Hc Hsub Hld. apply (v5_reachable_wf Hgeo t Hwf) in Hst.
  destruct (decide (PortsForDir t dir = [])) as [E|Hne].
  - exists (-1), st. unfold SelectPortForFlow. fold (die_of_flow src ld). cbv zeta.
    rewrite !throw_bind_false by (repeat (apply orb_false_iff; split); lia). by rewrite E.
  - destruct (SelectPortForFlow_ok Hgeo t Hwf cfg st c dir src tg sub ld Hst Hc Hsub Hld Hne)
      as (r & st' & H1 & Hr & _ & Hs & _).
    exists r, st'. split; [done|]. split; [|done]. split; [|done].
    intros ->. apply (PortsForDir_port t Hwf) in Hr as [? _]. lia.
Qed.

(** C39: in every reachable state the load of a port of a die is the number of
    flows pinned to it.  A pinned flow keeps its port; a new flow gets a port
    with the fewest flows of all the ports of its direction; a release succeeds
    exactly for a pinned flow, so its underflow and mismatch errors never occur. *)
Theorem v5_dynamic_accounting `{Geometry} (t : D2DPortTable) (cfg : D2DLinkConfig) (st : v5_state) :
  ValidateAddressSpace = Ok tt -> table_wf t -> v5_multiport cfg = true -> select_policy cfg = SELECT_DYNAMIC ->
  v5_reachable t cfg st ->
  (Z.of_nat (length (loads st)) = v5_expected t -> forall d p, 0 <= d < DIE_COUNT -> 0 <= p < Z.of_nat (length (ports t)) ->
     load_of t st d p = pinned (pins st) d p) /\
  Z.of_nat (size (pins st)) = selections st - releases st /\
  (forall c dir src tg sub ld r st', SelectPortForFlow t cfg st c dir src tg sub ld = Ok (r, st') -> r <> -1 ->
     let d := die_of_flow src ld in
     let key := (d, dir_code dir, mkFlow src tg sub) in
     (pins st !! key = Some r /\ st' = st) \/
     (pins st !! key = None /\ pins st' = <[key := r]> (pins st) /\
      (Z.of_nat (size (pins st)) <= LONG_MAX ->
       forall x, x ∈ PortsForDir t dir -> pinned (pins st) d r <= pinned (pins st) d x))) /\
  (forall d dir key, 0 <= d < DIE_COUNT -> is_side dir = true ->
     match ReleaseV5DynamicPort t cfg st d dir key with
     | Ok st' => is_Some (pins st !! (d, dir_code dir, key)) /\ pins st' = delete (d, dir_code dir, key) (pins st)
     | Err e => pins st !! (d, dir_code dir, key) = None /\ e = runtime_error "V5 dynamic release without active pin"
     end).
Proof.
  intros Hgeo Hwf Hm Hpol Hst. apply (v5_reachable_wf Hgeo t Hwf) in Hst.
  split; [intros Hlen d p Hd Hp; by apply load_of_pinned|]. split; [apply Hst|]. split.
  - intros c dir src tg sub ld r st' Hsel Hr d key. pose proof Hsel as H'. unfold SelectPortForFlow in H'.
    fold (die_of_flow src ld) in H'. apply throw_bind_ok in H' as [Hg H']. cbv zeta in H'.
    apply throw_bind_ok in H' as [Hg' H']. split_guards.
    assert (PortsForDir t dir <> []) as Hne by (intros E; rewrite E in H'; by simplify_eq). clear H'.
    destruct (SelectPortForFlow_ok Hgeo t Hwf cfg st c dir src tg sub ld Hst) as (r1 & st1 & HS & _ & _ & _ & Hd1);
      [lia|lia|lia|done|]. rewrite Hsel in HS. simplify_eq. specialize (Hd1 Hm Hpol).
    destruct (select_dynamic_spec Hgeo t Hwf st (select_seed cfg) dir src tg sub d Hst) as (r2 & st2 & HD & _ & _ & Hs);
      [unfold d; lia|done|]. unfold d in HD. rewrite Hd1 in HD. by simplify_eq.
  - intros d dir key Hd Hdir. destruct (pins st !! (d, dir_code dir, key)) as [p|] eqn:E.
    + destruct (Release_pinned Hgeo t Hwf cfg st d dir key p Hst Hpol Hdir E) as (st' & -> & _ & Hp). split; [by eexists|done].
    + unfold ReleaseV5DynamicPort. rewrite bool_decide_eq_true_2 by done. cbn [negb]. apply dir_code_side in Hdir.
      rewrite throw_bind_false by (repeat (apply orb_false_iff; split); lia). by rewrite E.
Qed.

Definition demo_dynamic : D2DLinkConfig := mkConfig BACKEND_CYCLE MODE_FUNCTIONAL_V2 SAFETY_NONE
  default_rate default_rate 0 0 0 0 0 true true SELECT_DYNAMIC 7.
Definition demo_select (st : v5_state) (tg : Z) : result (Z * v5_state) :=
  @SelectPortForFlow demo_geometry demo_table demo_dynamic st 0 EAST 0 tg 0 0.
Definition demo_v5 : v5_state := match demo_select v5_initial 5 with Ok (_, st) => st | Err _ => v5_initial end.

Lemma demo_v5_reachable : @v5_reachable demo_geometry demo_table demo_dynamic demo_v5.
Proof.
  destruct (demo_select v5_initial 5) as [[r st]|] eqn:E; [|by vm_compute in E].
  unfold demo_v5. rewrite E. apply (@v5_select demo_geometry demo_table demo_dynamic v5_initial 0 EAST 0 5 0 0 r st); [apply (@v5_start demo_geometry)|exact E].
Qed.

(** The second flow goes to the other eastern port. *)
Lemma v5_dynamic_accounting_witness : exists r st',
  demo_select demo_v5 6 = Ok (r, st') /\ r <> -1 /\ pinned (pins demo_v5) 0 r <= 0.
Proof.
  destruct demo_wf as (_ & Ht & _).
  destruct (demo_select demo_v5 6) as [[r st']|] eqn:E; [|by vm_compute in E].
  assert (r <> -1) as Hr by (intros ->; vm_compute in E; congruence).
  exists r, st'. split; [reflexivity|]. split; [exact Hr|].
  destruct (@v5_dynamic_accounting demo_geometry demo_table demo_dynamic demo_v5 eq_refl Ht eq_refl eq_refl
    demo_v5_reachable) as (_ & _ & Hsel & _).
  destruct (Hsel 0 EAST 0 6 0 0 r st' E Hr) as [[Hk _]|(_ & _ & Hmin)].
  - exfalso. revert Hk. vm_compute. discriminate.
  - etransitivity; [apply (Hmin ltac:(vm_compute; discriminate) 7)|vm_compute; discriminate].
    apply list_elem_of_In. vm_compute. right. left. reflexivity.
Defined.
