(* ===== verification/HostAttach.v ===== *)
(** The HOST lanes: which router tile carries each lane and which lane each core
    uses ([HostAttachTable] of [include/die/port.h]; [BuildHostAttach],
    [ValidateHostAttach] and the queries of [src/die/port_config.cpp]). *)

From S2P Require Import Prelude DieTopology.

Record HostAttachTable : Type := mkAttach {
  n_lanes : Z; lane_tile : list Z; core_lane : list Z; tile_lane : list Z; legacy : bool
}.

(** [v[i] = x] for an index within the vector. *)
Definition set_at (v : list Z) (i x : Z) : list Z := <[Z.to_nat i := x]> v.

Definition is_host (p : D2DPort) : bool := bool_decide (role p = ROLE_HOST).

(** (portid_ord, host_tiles) *)
Definition host_ordinals (t : D2DPortTable) : list Z * list Z :=
  foldl (fun '(ord, tiles) p =>
           if negb (is_host p) then (ord, tiles)
           else (set_at ord (port_id p) (Z.of_nat (length tiles)), tiles ++ [tile p]))
        (replicate (length (ports t)) (-1), []) (ports t).

Definition reverse_lanes `{Geometry} (n : Z) (lt : list Z) : list Z :=
  foldl (fun tl l =>
           let tile := lt !!! Z.to_nat l in
           if (0 <=? tile) && (tile <? TOTAL_CORES) then set_at tl tile l else tl)
        (replicate (Z.to_nat TOTAL_CORES) (-1)) (seqZ 0 n).

Definition BuildHostAttach `{Geometry} (t : D2DPortTable) : HostAttachTable :=
  if active t && (1 <=? HostPortCount t) then
    let '(portid_ord, host_tiles) := host_ordinals t in
    let hp := Z.of_nat (length host_tiles) in
    let lt := seqZ 0 DIE_COUNT ≫= fun d => (fun ht => d * CORES_PER_DIE + ht) <$> host_tiles in
    let cl := (fun c =>
      let d := Z.quot c CORES_PER_DIE in
      let pid := PortForHost t (Z.rem c CORES_PER_DIE) in
      let ord := if (0 <=? pid) && (pid <? Z.of_nat (length portid_ord)) then portid_ord !!! Z.to_nat pid else -1 in
      if 0 <=? ord then d * hp + ord else -1) <$> seqZ 0 TOTAL_CORES in
    mkAttach (hp * DIE_COUNT) lt cl (reverse_lanes (hp * DIE_COUNT) lt) false
  else
    let rows := GRID_Y * DIE_COUNT in
    let lt := (fun i => i * GRID_X) <$> seqZ 0 rows in
    let cl := (fun c => Z.quot c GRID_X) <$> seqZ 0 TOTAL_CORES in
    mkAttach rows lt cl (reverse_lanes rows lt) true.

Definition check_lane `{Geometry} (a : HostAttachTable) (seen : gset Z) (l : Z) : result (gset Z) :=
  let tile := lane_tile a !!! Z.to_nat l in
  THROW runtime_error "host_attach: lane -> tile illegal" WHEN (tile <? 0) || (TOTAL_CORES <=? tile);;
  THROW runtime_error "host_attach: duplicate lane_tile" WHEN bool_decide (tile ∈ seen);;
  Ok ({[tile]} ∪ seen).

Definition check_core `{Geometry} (a : HostAttachTable) (u : unit) (c : Z) : result unit :=
  let lane := core_lane a !!! Z.to_nat c in
  THROW runtime_error "host_attach: core -> lane out of range" WHEN (lane <? 0) || (n_lanes a <=? lane);;
  throw_if (negb (Z.quot (lane_tile a !!! Z.to_nat lane) CORES_PER_DIE =? Z.quot c CORES_PER_DIE))
    (runtime_error "host_attach: HOST tile not in the core's own die").

Definition ValidateHostAttach `{Geometry} (HOST_LANES : Z) (a : HostAttachTable) : result unit :=
  THROW runtime_error "host_attach: lane_tile.size() != n_lanes" WHEN negb (Z.of_nat (length (lane_tile a)) =? n_lanes a);;
  THROW runtime_error "host_attach: core_lane.size() != TOTAL_CORES"
    WHEN negb (Z.of_nat (length (core_lane a)) =? TOTAL_CORES);;
  THROW runtime_error "host_attach: HOST_LANES != n_lanes" WHEN negb (HOST_LANES =? n_lanes a);;
  THROW runtime_error "host_attach: tile_lane.size() != TOTAL_CORES"
    WHEN negb (Z.of_nat (length (tile_lane a)) =? TOTAL_CORES);;
  foldM (check_lane a) ∅ (seqZ 0 (n_lanes a)) ≫= fun _ =>
  foldM (check_core a) tt (seqZ 0 TOTAL_CORES).

(** A bounds-checked lookup that gives -1 outside the vector. *)
Definition lookup_or (v : list Z) (i : Z) : Z :=
  if (i <? 0) || (Z.of_nat (length v) <=? i) then -1 else v !!! Z.to_nat i.

Definition HostLaneOfCore (a : HostAttachTable) (global_core : Z) : Z := lookup_or (core_lane a) global_core.
Definition HostTileOfLane (a : HostAttachTable) (lane : Z) : Z := lookup_or (lane_tile a) lane.
Definition HostLaneOfTile (a : HostAttachTable) (global_tile : Z) : Z := lookup_or (tile_lane a) global_tile.
Definition IsHostAttachTile (a : HostAttachTable) (global_tile : Z) : bool := 0 <=? HostLaneOfTile a global_tile.

(** ** What the table promises to the routers *)

Lemma lookup_or_in v i : 0 <= i < Z.of_nat (length v) -> lookup_or v i = v !!! Z.to_nat i.
Proof.
  intros Hi. unfold lookup_or. destruct (_ || _) eqn:E; [|done].
  exfalso. apply orb_true_iff in E as [E|E]; apply Z.ltb_lt in E || apply Z.leb_le in E; lia.
Qed.

Lemma lookup_or_nonneg v i : 0 <= lookup_or v i -> 0 <= i < Z.of_nat (length v) /\ lookup_or v i = v !!! Z.to_nat i.
Proof. unfold lookup_or. destruct (_ || _) eqn:E; [lia|]. split_guards. lia. Qed.

Record attach_wf `{Geometry} (a : HostAttachTable) : Prop := {
  aw_core : forall c, 0 <= c < TOTAL_CORES ->
    let tile := HostTileOfLane a (HostLaneOfCore a c) in
    0 <= HostLaneOfCore a c < n_lanes a /\ 0 <= tile < TOTAL_CORES /\ DieOfGlobal tile = DieOfGlobal c;
  aw_lane : forall l, 0 <= l < n_lanes a ->
    0 <= HostTileOfLane a l < TOTAL_CORES /\ HostLaneOfTile a (HostTileOfLane a l) = l;
  aw_tile : forall g, 0 <= HostLaneOfTile a g ->
    HostLaneOfTile a g < n_lanes a /\ HostTileOfLane a (HostLaneOfTile a g) = g
}.

Lemma bind_lookup_uniform {A} (f : Z -> list A) (n : nat) l i j x :
  (forall y, length (f y) = n) -> l !! i = Some x -> (j < n)%nat -> (l ≫= f) !! (i * n + j)%nat = f x !! j.
Proof.
  intros Hf. revert i. induction l as [|y l IH]; intros i Hi Hj; [done|]. rewrite bind_cons. destruct i as [|i]; cbn in Hi.
  - simplify_eq. rewrite lookup_app_l; [done|]. rewrite Hf. lia.
  - rewrite lookup_app_r by (rewrite Hf; lia). rewrite Hf. replace (S i * n + j - n)%nat with (i * n + j)%nat by lia. by apply IH.
Qed.

Section attach.
Context `{G : Geometry} (Hgeo : ValidateAddressSpace = Ok tt).

(** The reverse table after the first lanes. *)
Lemma reverse_lanes_spec n lt g : 0 <= g < TOTAL_CORES -> 0 <= n ->
  let r := reverse_lanes n lt !!! Z.to_nat g in
  (r = -1 /\ forall l, 0 <= l < n -> lt !!! Z.to_nat l <> g) \/ (0 <= r < n /\ lt !!! Z.to_nat r = g).
Proof using Hgeo.
  intros Hg Hn. unfold reverse_lanes. cbv zeta.
  assert (forall k, 0 <= k -> let tl := foldl (fun tl l => if (0 <=? lt !!! Z.to_nat l) && (lt !!! Z.to_nat l <? TOTAL_CORES)
      then set_at tl (lt !!! Z.to_nat l) l else tl) (replicate (Z.to_nat TOTAL_CORES) (-1)) (seqZ 0 k) in
    length tl = Z.to_nat TOTAL_CORES /\
    ((tl !!! Z.to_nat g = -1 /\ forall l, 0 <= l < k -> lt !!! Z.to_nat l <> g) \/
     (0 <= tl !!! Z.to_nat g < k /\ lt !!! Z.to_nat (tl !!! Z.to_nat g) = g))) as Hk; [|by apply Hk].
  intros k Hk0. pattern k. apply natlike_ind; [| |done].
  - change (seqZ 0 0) with (@nil Z). cbn [foldl]. rewrite length_replicate. split; [done|]. left. split; [|lia]. apply lookup_total_replicate_2. lia.
  - clear k Hk0. intros k Hk [Hlen IH]. unfold Z.succ. rewrite seqZ_app, foldl_app by lia.
    set (tl := foldl _ _ (seqZ 0 k)) in *.
    replace (seqZ (0 + k) 1) with [k] by (unfold seqZ; cbn; f_equal; lia). cbn [foldl].
    destruct ((0 <=? lt !!! Z.to_nat k) && (lt !!! Z.to_nat k <? TOTAL_CORES)) eqn:E.
    + split_guards. unfold set_at. rewrite length_insert. split; [done|].
      destruct (decide (lt !!! Z.to_nat k = g)) as [Heq|Hne].
      * right. rewrite Heq, list_lookup_total_insert_eq by lia. lia.
      * rewrite list_lookup_total_insert_ne by lia.
        destruct IH as [[H1 H2]|[H1 H2]]; [left|right; lia]. split; [done|]. intros l Hl.
        destruct (decide (l = k)) as [->|?]; [done|]. apply H2. lia.
    + split; [done|]. destruct IH as [[H1 H2]|[H1 H2]]; [left|right; lia]. split; [done|]. intros l Hl.
      destruct (decide (l = k)) as [->|?]; [|apply H2; lia]. intros Heq. rewrite Heq in E.
      apply andb_false_iff in E as [E|E]; split_guards; lia.
Qed.

(** *** What validation establishes *)

Definition lane_tile_at (a : HostAttachTable) (l : Z) : Z := lane_tile a !!! Z.to_nat l.

Lemma host_lanes_spec a n seen : foldM (check_lane a) ∅ (seqZ 0 n) = Ok seen ->
  NoDup (lane_tile_at a <$> seqZ 0 n) /\ forall l, 0 <= l < n -> 0 <= lane_tile_at a l < TOTAL_CORES.
Proof using Hgeo.
  intros H. assert (NoDup (lane_tile_at a <$> seqZ 0 n) /\ (forall x, x ∈ seen <-> x ∈ lane_tile_at a <$> seqZ 0 n) /\
    forall l, l ∈ seqZ 0 n -> 0 <= lane_tile_at a l < TOTAL_CORES) as (H1 & _ & H2).
  { revert H. apply (foldM_prefix_inv _ (fun pre seen => NoDup (lane_tile_at a <$> pre) /\
      (forall x, x ∈ seen <-> x ∈ lane_tile_at a <$> pre) /\ forall l, l ∈ pre -> 0 <= lane_tile_at a l < TOTAL_CORES)).
    - intros pre l post s s' _ (Hnd & Hs & Hr) H. unfold check_lane in H. inv_ok. split_guards.
      apply bool_decide_eq_false in Hguard0. fold (lane_tile_at a l) in *. rewrite fmap_app. cbn [fmap list_fmap].
      split; [|split].
      + apply list.NoDup_app. split; [done|]. split; [|apply NoDup_singleton].
        intros x Hx ->%list_elem_of_singleton. by apply Hguard0, Hs.
      + intros x. rewrite elem_of_union, elem_of_singleton, Hs, elem_of_app, list_elem_of_singleton. tauto.
      + intros l' [Hl'| ->%list_elem_of_singleton]%elem_of_app; [by apply Hr|lia].
    - split; [apply NoDup_nil_2|]. split; [intros x; cbn; rewrite elem_of_nil; set_solver|].
      intros l Hl. by apply elem_of_nil in Hl. }
  split; [done|]. intros l Hl. apply H2, elem_of_seqZ. lia.
Qed.

Lemma check_lanes_ok a n : 0 <= n -> NoDup (lane_tile_at a <$> seqZ 0 n) ->
  (forall l, 0 <= l < n -> 0 <= lane_tile_at a l < TOTAL_CORES) ->
  exists seen, foldM (check_lane a) ∅ (seqZ 0 n) = Ok seen.
Proof using Hgeo.
  intros Hn Hnd Hr.
  edestruct (foldM_total_prefix (check_lane a) (fun pre (seen : gset Z) => forall x, x ∈ seen <-> x ∈ lane_tile_at a <$> pre))
    as (seen & Hs & _); [| |by exists seen].
  - intros pre l post s Hl Hs. assert (0 <= l < n) as Hln.
    { assert (l ∈ seqZ 0 n) as E%elem_of_seqZ by (rewrite Hl; apply elem_of_app; right; left). lia. }
    specialize (Hr l Hln). unfold check_lane. fold (lane_tile_at a l).
    rewrite throw_bind_false by (apply orb_false_iff; split; lia).
    rewrite throw_bind_false; [eexists; split; [reflexivity|]|].
    + intros x. rewrite fmap_app, elem_of_union, elem_of_singleton, Hs, elem_of_app. cbn.
      rewrite list_elem_of_singleton. tauto.
    + apply bool_decide_eq_false. rewrite Hs. intros Hin. rewrite Hl, fmap_app in Hnd.
      apply list.NoDup_app in Hnd as (_ & Hnd & _). apply (Hnd _ Hin). cbn. left.
  - intros x. cbn. rewrite elem_of_nil. set_solver.
Qed.

Lemma check_cores_ok a n : foldM (check_core a) tt (seqZ 0 n) = Ok tt <->
  (forall c, 0 <= c < n -> let lane := core_lane a !!! Z.to_nat c in
     0 <= lane < n_lanes a /\ DieOfGlobal (lane_tile_at a lane) = DieOfGlobal c).
Proof using Hgeo.
  pose proof (foldM_is_ok (check_core a) (fun c => let lane := core_lane a !!! Z.to_nat c in
     0 <= lane < n_lanes a /\ DieOfGlobal (lane_tile_at a lane) = DieOfGlobal c) (seqZ 0 n) tt) as Hok.
  destruct Hok as [H1 H2].
  { intros [] c _. unfold check_core, lane_tile_at, DieOfGlobal. cbv zeta. split.
    - intros Hb%is_ok_true. destruct Hb as [[] Hb]. inv_ok. split_guards. lia.
    - intros [Hl Hd]. rewrite throw_bind_false by (apply orb_false_iff; split; lia).
      rewrite Hd, Z.eqb_refl. done. }
  setoid_rewrite elem_of_seqZ in H1. setoid_rewrite elem_of_seqZ in H2. split.
  - intros H c Hc. rewrite H in H1. apply H1; [done|lia].
  - intros H. destruct (foldM _ _ _) as [[]|e]; [done|]. discriminate H2. intros c Hc. apply H. lia.
Qed.

Record built_shape (a : HostAttachTable) : Prop := {
  bs_lanes : Z.of_nat (length (lane_tile a)) = n_lanes a;
  bs_cores : Z.of_nat (length (core_lane a)) = TOTAL_CORES;
  bs_tiles : tile_lane a = reverse_lanes (n_lanes a) (lane_tile a);
  bs_tiles_len : Z.of_nat (length (tile_lane a)) = TOTAL_CORES
}.

Lemma validate_attach_ok a : built_shape a ->
  ValidateHostAttach (n_lanes a) a = Ok tt <->
  NoDup (lane_tile_at a <$> seqZ 0 (n_lanes a)) /\
  (forall l, 0 <= l < n_lanes a -> 0 <= lane_tile_at a l < TOTAL_CORES) /\
  (forall c, 0 <= c < TOTAL_CORES -> let lane := core_lane a !!! Z.to_nat c in
     0 <= lane < n_lanes a /\ DieOfGlobal (lane_tile_at a lane) = DieOfGlobal c).
Proof using Hgeo.
  intros [Hl Hc Ht Htl]. unfold ValidateHostAttach.
  rewrite !throw_bind_false by (apply negb_false_iff, Z.eqb_eq; done). rewrite <- check_cores_ok. split.
  - intros H. apply bind_ok in H as (seen & Hs & H). apply host_lanes_spec in Hs. tauto.
  - intros (Hnd & Hr & H). destruct (check_lanes_ok a (n_lanes a) ltac:(lia) Hnd Hr) as [seen ->]. done.
Qed.

Lemma validated_wf a : built_shape a -> ValidateHostAttach (n_lanes a) a = Ok tt -> attach_wf a.
Proof using Hgeo.
  intros Hs (Hnd & Hr & Hc)%validate_attach_ok; [|done]. destruct Hs as [Hl Hcl Ht Htl].
  assert (forall l, 0 <= l < n_lanes a -> HostTileOfLane a l = lane_tile_at a l) as Hlane by (intros; apply lookup_or_in; lia).
  assert (forall g, 0 <= g < TOTAL_CORES -> HostLaneOfTile a g = reverse_lanes (n_lanes a) (lane_tile a) !!! Z.to_nat g) as Htile
    by (intros; unfold HostLaneOfTile; rewrite lookup_or_in by lia; by rewrite Ht).
  split.
  - intros c Hcb. assert (HostLaneOfCore a c = core_lane a !!! Z.to_nat c) as -> by (apply lookup_or_in; lia).
    destruct (Hc c Hcb) as [H1 H2]. cbv zeta. rewrite Hlane by done. naive_solver.
  - intros l Hln. rewrite Hlane by done. split; [by apply Hr|]. rewrite Htile by by apply Hr.
    destruct (reverse_lanes_spec (n_lanes a) (lane_tile a) (lane_tile_at a l) (Hr l Hln) ltac:(lia)) as [[_ H2]|[H1 H2]];
      [by destruct (H2 l Hln)|]. set (r := _ !!! _) in *.
    assert (seqZ 0 (n_lanes a) !! Z.to_nat r = Some r) as E1 by (rewrite lookup_seqZ_lt by lia; f_equal; lia).
    assert (seqZ 0 (n_lanes a) !! Z.to_nat l = Some l) as E2 by (rewrite lookup_seqZ_lt by lia; f_equal; lia).
    assert (Z.to_nat r = Z.to_nat l); [|lia].
    eapply (NoDup_lookup _ _ _ (lane_tile_at a l) Hnd); rewrite list_lookup_fmap, ?E1, ?E2; cbn; [|done].
    f_equal. exact H2.
  - intros g Hg. pose proof (lookup_or_nonneg _ _ Hg) as [Hb _].
    assert (0 <= g < TOTAL_CORES) as Hgb by lia. rewrite (Htile g Hgb) in *.
    destruct (reverse_lanes_spec (n_lanes a) (lane_tile a) g Hgb ltac:(lia)) as [[H1 _]|[H1 H2]]; [lia|].
    split; [lia|]. rewrite Hlane by done. exact H2.
Qed.
End attach.

(** ** The table that [BuildHostAttach] makes *)

Section built.
Context `{G : Geometry} (Hgeo : ValidateAddressSpace = Ok tt) (t : D2DPortTable).

Definition host_tiles_of : list Z := tile <$> List.filter is_host (ports t).

Lemma host_ordinals_spec : ports_wf (ports t) ->
  (host_ordinals t).2 = host_tiles_of /\ length (host_ordinals t).1 = length (ports t) /\
  forall p, p ∈ ports t -> is_host p = true ->
    let k := (host_ordinals t).1 !!! Z.to_nat (port_id p) in
    0 <= k < Z.of_nat (length host_tiles_of) /\ host_tiles_of !!! Z.to_nat k = tile p.
Proof using Hgeo.
  intros Hwf. unfold host_ordinals, host_tiles_of.
  set (f := fun '(ord, tiles) p => _). set (n := length (ports t)).
  assert (forall pre post, ports t = pre ++ post ->
    let r := foldl f (replicate n (-1), []) pre in let hs := tile <$> List.filter is_host pre in
    r.2 = hs /\ length r.1 = n /\ forall p, p ∈ pre -> is_host p = true ->
      let k := r.1 !!! Z.to_nat (port_id p) in 0 <= k < Z.of_nat (length hs) /\ hs !!! Z.to_nat k = tile p) as H;
    [|apply (H (ports t) []); by rewrite app_nil_r].
  induction pre as [|p pre IH] using rev_ind; intros post Hl.
  - cbn. rewrite length_replicate. split; [done|]. split; [done|]. intros p Hp. by apply elem_of_nil in Hp.
  - rewrite <- (assoc_L (++)) in Hl. specialize (IH _ Hl). cbv zeta in *. rewrite foldl_app, List.filter_app, fmap_app.
    destruct (foldl f (replicate n (-1), []) pre) as [ord tiles]. cbn [fst snd] in IH. destruct IH as (-> & Hlen & IH).
    assert (forall i q, pre !! i = Some q -> port_id q = Z.of_nat i) as Hpre.
    { intros i q Hq. apply (pw_id _ _ (pw_port _ Hwf i q ltac:(rewrite Hl; by apply lookup_app_l_Some))). }
    assert (port_id p = Z.of_nat (length pre)) as Hp
      by (apply (pw_id _ _ (pw_port _ Hwf _ p ltac:(rewrite Hl; by apply list_lookup_middle)))).
    assert (length pre < n)%nat as Hn by (unfold n; rewrite Hl, length_app; cbn; lia).
    cbn [foldl f List.filter]. destruct (is_host p) eqn:Eh; cbn [negb fst snd fmap list_fmap].
    + split; [done|]. unfold set_at. rewrite length_insert. split; [done|]. intros q [Hq| ->%list_elem_of_singleton]%elem_of_app Hqh.
      * apply list_elem_of_lookup in Hq as Hq'. destruct Hq' as [i Hi]. pose proof (Hpre i q Hi). pose proof (lookup_lt_Some _ _ _ Hi).
        rewrite list_lookup_total_insert_ne by lia. destruct (IH q Hq Hqh) as [Hk Hv]. rewrite length_app. cbn [length].
        split; [lia|]. by rewrite lookup_total_app_l by lia.
      * rewrite list_lookup_total_insert_eq by lia. rewrite length_app. cbn [length]. split; [lia|].
        rewrite lookup_total_app_r by lia. by rewrite Nat2Z.id, Nat.sub_diag.
    + rewrite app_nil_r. split; [done|]. split; [done|].
      intros q [Hq| ->%list_elem_of_singleton]%elem_of_app Hqh; [by apply IH|congruence].
Qed.

Lemma length_reverse_lanes n lt : Z.of_nat (length (reverse_lanes n lt)) = TOTAL_CORES.
Proof using Hgeo.
  unfold reverse_lanes. generalize (seqZ 0 n) as ls. intros ls.
  assert (forall tl, length (foldl (fun tl l => if (0 <=? lt !!! Z.to_nat l) && (lt !!! Z.to_nat l <? TOTAL_CORES)
    then set_at tl (lt !!! Z.to_nat l) l else tl) tl ls) = length tl) as ->.
  { induction ls as [|l ls IH]; intros tl; cbn [foldl]; [done|]. rewrite IH. destruct (_ && _); [|done]. apply length_insert. }
  rewrite length_replicate. destruct (geo_facts Hgeo) as (_ & _ & _ & _ & ? & ? & _). unfold TOTAL_CORES. nia.
Qed.

Lemma length_bind_uniform {A B} (f : A -> list B) n l : (forall y, length (f y) = n) -> length (l ≫= f) = (length l * n)%nat.
Proof using. intros Hf. induction l as [|y l IH]; [done|]. rewrite bind_cons, length_app, IH, Hf. cbn. lia. Qed.

Lemma BuildHostAttach_shape : built_shape (BuildHostAttach t).
Proof using Hgeo.
  destruct (geo_facts Hgeo) as (? & ? & _ & _ & ? & ? & _). assert (0 < TOTAL_CORES) by (unfold TOTAL_CORES; nia).
  unfold BuildHostAttach. destruct (_ && _).
  - destruct (host_ordinals t) as [ord tiles]. split; cbn [lane_tile core_lane tile_lane n_lanes];
      [|rewrite length_fmap, length_seqZ; lia|done|apply length_reverse_lanes].
    rewrite (length_bind_uniform _ (length tiles)) by (intros; apply length_fmap). rewrite length_seqZ. lia.
  - split; cbn [lane_tile core_lane tile_lane n_lanes];
      [rewrite length_fmap, length_seqZ; nia|rewrite length_fmap, length_seqZ; lia|done|apply length_reverse_lanes].
Qed.

(** Without port configuration: lane [i] is the western tile of global row [i]. *)
Lemma legacy_lanes : active t = false -> let a := BuildHostAttach t in
  n_lanes a = GRID_Y * DIE_COUNT /\
  (forall l, 0 <= l < n_lanes a -> lane_tile_at a l = l * GRID_X) /\
  (forall c, 0 <= c < TOTAL_CORES -> core_lane a !!! Z.to_nat c = Z.quot c GRID_X).
Proof using Hgeo.
  intros Ha. unfold BuildHostAttach. rewrite Ha. cbn [andb]. cbv zeta. cbn [n_lanes]. split; [done|]. split.
  - intros l Hl. unfold lane_tile_at. cbn [lane_tile]. by rewrite lookup_total_seqZ_fmap.
  - intros c Hc. cbn [core_lane]. by rewrite lookup_total_seqZ_fmap.
Qed.

Lemma legacy_valid : active t = false -> let a := BuildHostAttach t in ValidateHostAttach (n_lanes a) a = Ok tt.
Proof using Hgeo.
  intros Ha a. destruct (legacy_lanes Ha) as (Hn & Hl & Hc). fold a in Hn, Hl, Hc.
  destruct (geo_facts Hgeo) as (HX & HY & _ & _ & HC & HD & _). apply validate_attach_ok; [done|apply BuildHostAttach_shape|].
  assert (forall l, 0 <= l < n_lanes a -> 0 <= lane_tile_at a l < TOTAL_CORES) as Hr.
  { intros l Hlb. rewrite Hl by done. rewrite Hn in Hlb. unfold TOTAL_CORES, CORES_PER_DIE. nia. }
  split; [|split; [done|]].
  - apply NoDup_fmap_2_strong; [|apply NoDup_seqZ].
    intros x y Hx%elem_of_seqZ Hy%elem_of_seqZ E. rewrite !Hl in E by lia. nia.
  - intros c Hcb. rewrite Hc by done. cbv zeta.
    destruct (index_split GRID_X (GRID_Y * DIE_COUNT) c HX) as (Hm & Hq & Hsplit).
    { unfold TOTAL_CORES, CORES_PER_DIE in Hcb. nia. }
    split; [lia|]. rewrite Hl by lia. unfold DieOfGlobal, CORES_PER_DIE.
    rewrite <- !Z.quot_quot by lia. by rewrite Z.quot_mul by lia.
Qed.

(** With port configuration: lane [d * hp + k] is HOST port [k] of die [d]. *)
Context (Hwf : table_wf t) (Ha : active t = true).

Lemma host_port_count : HostPortCount t = Z.of_nat (length host_tiles_of) /\ 1 <= HostPortCount t.
Proof using Hwf Ha.
  unfold host_tiles_of. rewrite length_fmap. split; [done|].
  pose proof (tw_valid _ Hwf) as Hv. unfold ValidateDiePorts in Hv. rewrite Ha in Hv. cbn [negb] in Hv. inv_ok. split_guards. lia.
Qed.

Lemma port_lanes : let a := BuildHostAttach t in
  let hp := Z.of_nat (length host_tiles_of) in
  n_lanes a = hp * DIE_COUNT /\
  (forall d k, 0 <= d < DIE_COUNT -> 0 <= k < hp -> lane_tile_at a (d * hp + k) = GlobalId d (host_tiles_of !!! Z.to_nat k)) /\
  (forall c, 0 <= c < TOTAL_CORES -> exists p k, p ∈ ports t /\ is_host p = true /\
     is_nearest is_host (ports t) (LocalOfGlobal c) (port_id p) /\
     0 <= k < hp /\ host_tiles_of !!! Z.to_nat k = tile p /\ core_lane a !!! Z.to_nat c = DieOfGlobal c * hp + k).
Proof using Hgeo Hwf Ha.
  destruct host_port_count as [Hcnt H1]. destruct (host_ordinals_spec (tw_ports _ Hwf)) as (Ht & Hlen & Hord).
  unfold BuildHostAttach. rewrite Ha. destruct (Z.leb_spec 1 (HostPortCount t)); [|lia]. cbn [andb].
  destruct (host_ordinals t) as [ord tiles]. cbn [fst snd] in *. subst tiles. cbv zeta. cbn [n_lanes].
  set (hp := Z.of_nat (length host_tiles_of)) in *. split; [done|]. split.
  - intros d k Hd Hk. unfold lane_tile_at. cbn [lane_tile]. apply list_lookup_total_correct.
    replace (Z.to_nat (d * hp + k)) with (Z.to_nat d * length host_tiles_of + Z.to_nat k)%nat by (unfold hp in *; nia).
    rewrite (bind_lookup_uniform _ (length host_tiles_of) _ _ _ d);
      [|intros; apply length_fmap|rewrite lookup_seqZ_lt by lia; f_equal; lia|unfold hp in *; lia].
    rewrite list_lookup_fmap. rewrite (list_lookup_lookup_total_lt host_tiles_of (Z.to_nat k)) by (unfold hp in *; lia). done.
  - intros c Hc. cbn [core_lane]. rewrite lookup_total_seqZ_fmap by done. fold (DieOfGlobal c) (LocalOfGlobal c).
    destruct (die_local Hgeo c Hc) as (Hd & Hloc & _).
    destruct (tw_host _ Hwf _ Hloc) as [[_ Hno]|(p & Hp & Hh & Hid & Hmin)].
    { exfalso. assert (host_tiles_of = []) as E; [|unfold hp in *; rewrite E in *; cbn in *; lia].
      unfold host_tiles_of. destruct (List.filter is_host (ports t)) as [|q l] eqn:E; [done|].
      assert (In q (List.filter is_host (ports t))) as [Hq Hqh]%filter_In by (rewrite E; left; done).
      apply list_elem_of_In in Hq. apply Hno in Hq. unfold is_host in Hqh. congruence. }
    destruct (Hord p Hp Hh) as [Hk Hv]. exists p, (ord !!! Z.to_nat (port_id p)).
    destruct (port_at t (tw_ports _ Hwf) p Hp) as [Hw Hl]. apply lookup_lt_Some in Hl. pose proof (pw_id _ _ Hw).
    split; [done|]. split; [done|]. split; [rewrite Hid; apply (tw_host _ Hwf _ Hloc)|]. split; [done|]. split; [done|].
    rewrite <- Hid, Hlen. destruct (Z.leb_spec 0 (port_id p)), (Z.ltb_spec (port_id p) (Z.of_nat (length (ports t)))); try lia.
    cbn [andb]. destruct (Z.leb_spec 0 (ord !!! Z.to_nat (port_id p))); [done|lia].
Qed.

Lemma host_tile_range k : 0 <= k < Z.of_nat (length host_tiles_of) -> 0 <= host_tiles_of !!! Z.to_nat k < CORES_PER_DIE.
Proof using Hwf.
  intros Hk. assert (host_tiles_of !!! Z.to_nat k ∈ host_tiles_of) as Hin by (apply list_elem_of_lookup_total_2; lia).
  unfold host_tiles_of at 2 in Hin. apply list_elem_of_fmap in Hin as (p & -> & [Hp _]%list_elem_of_In%filter_In).
  apply list_elem_of_In in Hp. destruct (port_at t (tw_ports _ Hwf) p Hp) as [Hw _]. apply Hw.
Qed.

Lemma port_lanes_valid : let a := BuildHostAttach t in
  ValidateHostAttach (n_lanes a) a = Ok tt <-> NoDup host_tiles_of.
Proof using Hgeo Hwf Ha.
  intros a. destruct port_lanes as (Hn & Hl & Hc). fold a in Hn, Hl, Hc. cbv zeta in Hn, Hl, Hc.
  set (hp := Z.of_nat (length host_tiles_of)) in *. destruct host_port_count as [Hcnt H1]. fold hp in Hcnt.
  assert (0 < hp) as Hpos by lia.
  assert (forall l, 0 <= l < n_lanes a -> exists d k, 0 <= d < DIE_COUNT /\ 0 <= k < hp /\ l = d * hp + k) as Hsplit.
  { intros l Hlb. rewrite Hn in Hlb. exists (Z.quot l hp), (Z.rem l hp). by destruct (index_split hp DIE_COUNT l Hpos Hlb) as (? & ? & ?). }
  rewrite (validate_attach_ok Hgeo) by apply BuildHostAttach_shape. split.
  - intros (Hnd & _ & _). apply NoDup_alt. intros i j x Hi Hj.
    assert (forall k y, host_tiles_of !! k = Some y ->
      (lane_tile_at a <$> seqZ 0 (n_lanes a)) !! k = Some (GlobalId 0 y)) as Hk.
    { intros k y Hy. apply lookup_lt_Some in Hy as Hkl. destruct (geo_facts Hgeo) as (_ & _ & _ & _ & _ & HD & _).
      rewrite list_lookup_fmap, lookup_seqZ_lt by (rewrite Hn; unfold hp; nia). cbn. f_equal.
      rewrite Z.add_0_l.
      pose proof (Hl 0 (Z.of_nat k) ltac:(lia) ltac:(unfold hp; lia)) as E. rewrite Z.mul_0_l, Z.add_0_l in E. rewrite E.
      by rewrite Nat2Z.id, (list_lookup_total_correct _ _ _ Hy). }
    eapply (NoDup_lookup _ i j (GlobalId 0 x) Hnd); by apply Hk.
  - intros Hnd. split; [|split].
    + apply NoDup_fmap_2_strong; [|apply NoDup_seqZ]. intros x y Hx%elem_of_seqZ Hy%elem_of_seqZ E.
      destruct (Hsplit x ltac:(lia)) as (d & k & Hd & Hk & ->). destruct (Hsplit y ltac:(lia)) as (d' & k' & Hd' & Hk' & ->).
      rewrite !Hl in E by done.
      destruct (global_id_split Hgeo d _ Hd (host_tile_range k Hk)) as (_ & E1 & E2).
      destruct (global_id_split Hgeo d' _ Hd' (host_tile_range k' Hk')) as (_ & E3 & E4).
      rewrite E in E1, E2. rewrite E1 in E3. rewrite E2 in E4. subst d'.
      assert (Z.to_nat k = Z.to_nat k') as Ekk; [|assert (k = k') by lia; by subst].
      eapply (NoDup_lookup _ _ _ (host_tiles_of !!! Z.to_nat k) Hnd).
      * apply list_lookup_lookup_total_lt. unfold hp in *; lia.
      * rewrite E4. apply list_lookup_lookup_total_lt. unfold hp in *; lia.
    + intros l Hlb. destruct (Hsplit l Hlb) as (d & k & Hd & Hk & ->). rewrite Hl by done.
      by apply global_id_split, host_tile_range.
    + intros c Hcb. destruct (Hc c Hcb) as (p & k & _ & _ & _ & Hk & _ & ->). cbv zeta.
      destruct (die_local Hgeo c Hcb) as (Hd & _ & _). split; [rewrite Hn; nia|]. rewrite Hl by done.
      by apply global_id_split, host_tile_range.
Qed.
End built.

(** C25: the attach table passes validation exactly when no tile carries two
    HOST ports (always, without port configuration).  Then every core has a
    lane, on a tile of its own die: that of the nearest HOST port, or the
    western tile of its row; and lanes and attach tiles correspond one to one. *)
Theorem host_lanes_correct `{Geometry} (t : D2DPortTable) :
  ValidateAddressSpace = Ok tt -> (active t = true -> table_wf t) ->
  let a := BuildHostAttach t in
  (ValidateHostAttach (n_lanes a) a = Ok tt <-> (active t = true -> NoDup (host_tiles_of t))) /\
  (ValidateHostAttach (n_lanes a) a = Ok tt ->
   attach_wf a /\
   forall c, 0 <= c < TOTAL_CORES ->
     if active t then exists p, p ∈ ports t /\ is_nearest is_host (ports t) (LocalOfGlobal c) (port_id p) /\
                        HostTileOfLane a (HostLaneOfCore a c) = GlobalId (DieOfGlobal c) (tile p)
     else HostTileOfLane a (HostLaneOfCore a c) = Z.quot c GRID_X * GRID_X).
Proof.
  intros Hgeo Hwf a. split.
  - destruct (active t) eqn:Ha.
    + pose proof (port_lanes_valid Hgeo t (Hwf eq_refl) Ha) as E. cbv zeta in E. fold a in E. tauto.
    + split; [done|]. intros _. by apply legacy_valid.
  - intros Hv. pose proof (BuildHostAttach_shape Hgeo t) as Hs. fold a in Hs. split; [by apply validated_wf|].
    pose proof Hv as (_ & _ & Hc)%validate_attach_ok; [|done|done]. intros c Hcb. destruct (Hc c Hcb) as [Hlane _].
    assert (HostLaneOfCore a c = core_lane a !!! Z.to_nat c) as E1 by (apply lookup_or_in; rewrite (bs_cores _ Hs); done).
    assert (forall l, 0 <= l < n_lanes a -> HostTileOfLane a l = lane_tile_at a l) as E2
      by (intros; apply lookup_or_in; rewrite (bs_lanes _ Hs); done).
    rewrite E1, E2 by done. destruct (active t) eqn:Ha.
    + destruct (port_lanes Hgeo t (Hwf eq_refl) Ha) as (_ & Hl & Hcl). fold a in Hl, Hcl.
      destruct (Hcl c Hcb) as (p & k & Hp & _ & Hn & Hk & Hpk & ->). exists p. split; [done|]. split; [done|].
      rewrite Hl, Hpk; [done| |done]. by apply die_local.
    + destruct (legacy_lanes Hgeo t Ha) as (_ & Hl & Hcl). fold a in Hl, Hcl. rewrite Hcl in Hlane |- * by done. by apply Hl.
Qed.

Definition demo_attach : HostAttachTable := @BuildHostAttach demo_geometry demo_table.

Lemma host_lanes_correct_witness : @attach_wf demo_geometry demo_attach /\ n_lanes demo_attach = 4.
Proof.
  destruct demo_wf as (_ & Ht & _). split; [|vm_compute; reflexivity].
  apply (@host_lanes_correct demo_geometry demo_table); [reflexivity|intros _; exact Ht|vm_compute; reflexivity].
Defined.

Lemma demo_attach_wf : @attach_wf demo_geometry demo_attach.
Proof. apply validated_wf; [done|apply BuildHostAttach_shape; done|vm_compute; reflexivity]. Qed.
