(* ===== verification/HbmMemWire.v ===== *)
(** The wire format of a memory transaction ([include/memory/hbm_mem_wire.h],
    [src/memory/hbm_mem_wire.cpp]): a request is REQ then WDATA flits, a response
    is RDATA flits then RESP; every flit is a 256-bit word with its own route. *)

From S2P Require Import Prelude Bits MsgWire.

(** ** Data *)

Inductive MemCommand : Type := kRead | kWrite.
Inductive MemMessageType : Type := kMsgRequest | kMsgResponse.
Inductive MemFlitKind : Type := kRequest | kWriteData | kReadData | kResponse.
#[export] Instance MemCommand_eq_dec : EqDecision MemCommand.
Proof. solve_decision. Defined.
#[export] Instance MemMessageType_eq_dec : EqDecision MemMessageType.
Proof. solve_decision. Defined.
#[export] Instance MemFlitKind_eq_dec : EqDecision MemFlitKind.
Proof. solve_decision. Defined.

Definition kind_code (k : MemFlitKind) : Z :=
  match k with kRequest => 0 | kWriteData => 1 | kReadData => 2 | kResponse => 3 end.

Definition kMemFlitPayloadBytes : Z := 14.
Definition kMemMsgMaxPayloadBytes : Z := 65535.
Definition kMagic : Z := 0xD7.
Definition kVersion : Z := 1.

Record MemMsg : Type := mkMem {
  txid : Z; message_type : MemMessageType; source_core : Z; home_die : Z; stack_id : Z; channel_id : Z;
  address : Z; command : MemCommand; length_bytes : Z; mem_is_end : bool; status : Z;
  payload : list Z; byte_enable : list Z
}.

Record MemFlitRoute : Type := mkRoute {
  r_kind : MemFlitKind; r_txid : Z; r_source_core : Z; r_home_die : Z; r_stack_id : Z; r_channel_id : Z;
  r_sequence : Z; request_direction : bool; transaction_end : bool
}.

(** ** Flits *)

Definition Base (k : MemFlitKind) (id : Z) : result Z :=
  THROW runtime_error "SerializeMemMsg: txid must be non-negative" WHEN id <? 0;;
  Ok (put_field (put_field (put_field (put_field 0 0 8 kMagic) 8 4 kVersion) 12 4 (kind_code k)) 16 32 id).

Definition Kind (w : Z) : result MemFlitKind :=
  THROW runtime_error "DeserializeMemMsg: bad magic/version"
    WHEN negb (get_field w 0 8 =? kMagic) || negb (get_field w 8 4 =? kVersion);;
  let k := get_field w 12 4 in
  if k =? 0 then Ok kRequest else if k =? 1 then Ok kWriteData
  else if k =? 2 then Ok kReadData else if k =? 3 then Ok kResponse
  else Err (runtime_error "DeserializeMemMsg: unknown flit kind").

Definition IsMemWireFlit (w : Z) : bool :=
  (get_field w 0 8 =? kMagic) && (get_field w 8 4 =? kVersion) && (get_field w 12 4 <=? kind_code kResponse).

Definition InspectMemWireFlit (w : Z) : result MemFlitRoute :=
  Kind w ≫= fun k =>
  let id := i32 (get_field w 16 32) in
  let dir := bool_decide (k = kRequest) || bool_decide (k = kWriteData) in
  match k with
  | kRequest => Ok (mkRoute k id (get_field w 48 16) (get_field w 64 12) (get_field w 76 12) (get_field w 88 12)
                            (-1) dir (get_field w 180 1 =? 0))
  | kResponse => Ok (mkRoute k id (get_field w 48 16) (-1) (-1) (-1) (-1) dir true)
  | _ => Ok (mkRoute k id (get_field w 201 16) (get_field w 217 12) (get_field w 229 12) (get_field w 241 12)
                     (get_field w 48 16) dir (negb (get_field w 72 1 =? 0)))
  end.

Definition flit_rank (k : MemFlitKind) : Z :=
  match k with kRequest => 0 | kWriteData | kReadData => 1 | kResponse => 2 end.

(** [std::stable_sort] by rank and, among data flits, by sequence number; every
    flit is inspected as soon as there are two.  (Which bad flit the library
    inspects first, and so which of the two messages is thrown, is not defined;
    the model takes the first one.) *)
Definition flit_before (a b : MemFlitRoute) : bool :=
  let ar := flit_rank (r_kind a) in let br := flit_rank (r_kind b) in
  if negb (ar =? br) then ar <? br else if ar =? 1 then r_sequence a <? r_sequence b else false.
Definition routed : Type := Z * MemFlitRoute.
Fixpoint insert_flit (x : routed) (l : list routed) : list routed :=
  match l with
  | [] => [x]
  | y :: l' => if flit_before y.2 x.2 then y :: insert_flit x l' else x :: l
  end.
Definition stable_sort (l : list routed) : list routed := foldr insert_flit [] l.

Definition CanonicalizeMemWireFlits (wire : list Z) : result (list Z) :=
  if (length wire <=? 1)%nat then Ok wire else
  foldM (fun acc w => InspectMemWireFlit w ≫= fun r => Ok (acc ++ [(w, r)])) [] wire ≫= fun l : list routed =>
  Ok (fst <$> stable_sort l).

(** ** Encoder *)

Definition ValidateCommon (m : MemMsg) : result unit :=
  THROW runtime_error "SerializeMemMsg: identifier out of wire range"
    WHEN (txid m <? 0) || (source_core m <? 0) || (0xffff <? source_core m) || (home_die m <? 0) || (0xfff <? home_die m) ||
         (stack_id m <? 0) || (0xfff <? stack_id m) || (channel_id m <? 0) || (0xfff <? channel_id m);;
  THROW runtime_error "SerializeMemMsg: length out of range"
    WHEN (length_bytes m <? 0) || (kMemMsgMaxPayloadBytes <? length_bytes m);;
  throw_if (negb (bool_decide (byte_enable m = [])) && negb (Z.of_nat (length (byte_enable m)) =? length_bytes m))
    (runtime_error "SerializeMemMsg: byte_enable size must equal length").

Definition enabled (m : MemMsg) (i : Z) : bool :=
  bool_decide (byte_enable m = []) || negb (byte_enable m !!! Z.to_nat i =? 0).

(** The loop over the bytes of a flit: payload field and enable mask. *)
Definition put_byte (m : MemMsg) (offset : Z) (acc : Z * Z) (i : Z) : Z * Z :=
  (put_field acc.1 (89 + i * 8) 8 (payload m !!! Z.to_nat (offset + i)),
   if enabled m (offset + i) then u16 (Z.lor acc.2 (Z.shiftl 1 i)) else acc.2).

Definition PutData (w : Z) (m : MemMsg) (sq offset valid : Z) : Z :=
  let w := put_field w 48 16 sq in
  let w := put_field w 64 8 valid in
  let w := put_field w 72 1 (b2z (offset + valid =? length_bytes m)) in
  let '(w, enables) := foldl (put_byte m offset) (w, 0) (seqZ 0 valid) in
  let w := put_field w 73 16 enables in
  let w := put_field w 201 16 (source_core m) in
  let w := put_field w 217 12 (home_die m) in
  let w := put_field w 229 12 (stack_id m) in
  put_field w 241 12 (channel_id m).

(** Flit [sq] of the data loop, at offset [14 * sq]. *)
Definition data_flit (k : MemFlitKind) (m : MemMsg) (out : list Z) (sq : Z) : result (list Z) :=
  let off := sq * kMemFlitPayloadBytes in
  let valid := Z.min kMemFlitPayloadBytes (length_bytes m - off) in
  Base k (txid m) ≫= fun data => Ok (out ++ [PutData data m sq off valid]).
Definition data_flits (k : MemFlitKind) (m : MemMsg) (out : list Z) : result (list Z) :=
  foldM (data_flit k m) out (seqZ 0 (ceil_div (length_bytes m) kMemFlitPayloadBytes)).

Definition SerializeMemMsg (m : MemMsg) : result (list Z) :=
  ValidateCommon m ≫= fun _ =>
  match message_type m with
  | kMsgRequest =>
      THROW runtime_error "SerializeMemMsg: write payload size must equal length"
        WHEN bool_decide (command m = kWrite) && negb (Z.of_nat (length (payload m)) =? length_bytes m);;
      THROW runtime_error "SerializeMemMsg: read request must not carry payload"
        WHEN bool_decide (command m = kRead) && negb (bool_decide (payload m = []));;
      Base kRequest (txid m) ≫= fun req =>
      let req := put_field req 48 16 (source_core m) in
      let req := put_field req 64 12 (home_die m) in
      let req := put_field req 76 12 (stack_id m) in
      let req := put_field req 88 12 (channel_id m) in
      let req := put_field req 100 64 (address m) in
      let req := put_field req 164 16 (length_bytes m) in
      let req := put_field req 180 1 (b2z (bool_decide (command m = kWrite))) in
      let req := put_field req 181 1 1 in
      if bool_decide (command m = kWrite) then data_flits kWriteData m [req] else Ok [req]
  | kMsgResponse =>
      let carries := bool_decide (command m = kRead) && (status m =? 0) in
      THROW runtime_error "SerializeMemMsg: read response payload size mismatch"
        WHEN carries && negb (Z.of_nat (length (payload m)) =? length_bytes m);;
      (if carries then data_flits kReadData m [] else Ok []) ≫= fun out =>
      Base kResponse (txid m) ≫= fun resp =>
      let resp := put_field resp 48 16 (source_core m) in
      let resp := put_field resp 64 8 (status m) in
      let resp := put_field resp 72 16 (length_bytes m) in
      let resp := put_field resp 88 1 1 in
      let resp := put_field resp 89 1 (b2z (bool_decide (command m = kWrite))) in
      Ok (out ++ [resp])
  end.

(** ** Decoder *)

(** The bytes and enables of one data flit appended to those read so far. *)
Definition read_flit_bytes (d valid : Z) : list Z * list Z :=
  let enables := get_field d 73 16 in
  ((fun b => get_field d (89 + b * 8) 8) <$> seqZ 0 valid,
   (fun b => if Z.testbit enables b then 0xff else 0) <$> seqZ 0 valid).

Definition read_flit (data_kind : MemFlitKind) (id last : Z) (acc : list Z * list Z * Z) (d : Z)
    : result (list Z * list Z * Z) :=
  let sq := acc.2 in
  Kind d ≫= fun k =>
  THROW runtime_error "DeserializeMemMsg: data kind/txid/sequence mismatch"
    WHEN negb (bool_decide (k = data_kind)) || negb (i32 (get_field d 16 32) =? id) || negb (get_field d 48 16 =? sq);;
  let valid := get_field d 64 8 in
  THROW runtime_error "DeserializeMemMsg: invalid data flit length" WHEN (valid <=? 0) || (kMemFlitPayloadBytes <? valid);;
  let r := read_flit_bytes d valid in
  THROW runtime_error "DeserializeMemMsg: invalid data end marker"
    WHEN negb (eqb (negb (get_field d 72 1 =? 0)) (sq + 1 =? last));;
  Ok (acc.1.1 ++ r.1, acc.1.2 ++ r.2, sq + 1).

Definition read_data (data_kind : MemFlitKind) (id : Z) (ds : list Z) : result (list Z * list Z) :=
  foldM (read_flit data_kind id (Z.of_nat (length ds))) ([], [], 0) ds ≫= fun r => Ok r.1.

Definition command_of (b : Z) : MemCommand := if b =? 0 then kRead else kWrite.

Definition DeserializeMemMsg (wire : list Z) : result MemMsg :=
  match wire with
  | [] => Err (runtime_error "DeserializeMemMsg: empty transaction")
  | w :: rest =>
      Kind w ≫= fun first =>
      let id := i32 (get_field w 16 32) in
      if bool_decide (first = kRequest) then
        let cmd := command_of (get_field w 180 1) in
        let len := get_field w 164 16 in
        THROW runtime_error "DeserializeMemMsg: request header not final" WHEN negb (get_field w 181 1 =? 1);;
        THROW runtime_error "DeserializeMemMsg: read request has unexpected data flits"
          WHEN bool_decide (cmd = kRead) && negb (bool_decide (rest = []));;
        read_data kWriteData id rest ≫= fun r =>
        THROW runtime_error "DeserializeMemMsg: incomplete write payload"
          WHEN bool_decide (cmd = kWrite) && negb (Z.of_nat (length r.1) =? len);;
        Ok (mkMem id kMsgRequest (get_field w 48 16) (get_field w 64 12) (get_field w 76 12) (get_field w 88 12)
              (get_field w 100 64) cmd len true 0 r.1 r.2)
      else
        let resp := List.last wire 0 in
        Kind resp ≫= fun lk =>
        THROW runtime_error "DeserializeMemMsg: response transaction lacks completion"
          WHEN negb (bool_decide (lk = kResponse));;
        THROW runtime_error "DeserializeMemMsg: txid mismatch" WHEN negb (i32 (get_field resp 16 32) =? id);;
        let cmd := command_of (get_field resp 89 1) in
        let st := get_field resp 64 8 in
        let len := get_field resp 72 16 in
        read_data kReadData id (removelast wire) ≫= fun r =>
        THROW runtime_error "DeserializeMemMsg: incomplete read payload"
          WHEN bool_decide (cmd = kRead) && (st =? 0) && negb (Z.of_nat (length r.1) =? len);;
        Ok (mkMem id kMsgResponse (get_field resp 48 16) (-1) (-1) (-1) 0 cmd len true st r.1 r.2)
  end.

(** ** Framing *)

(** A message flit is never taken for a memory flit: the magic number would make
    its type field 11. *)
Lemma msg_not_mem_wire m w : SerializeMsg m = Ok w -> IsMemWireFlit w = false.
Proof.
  intros H. apply msg_type_bits in H. unfold IsMemWireFlit.
  destruct (Z.eqb_spec (get_field w 0 8) kMagic) as [E|]; [|done]. exfalso.
  assert (get (get_field w 0 8) 4 1 = MSG_TYPE_code (msg_type_ m)) as Ht
    by (unfold get_field; by rewrite get_get by lia).
  rewrite E in Ht. by destruct (msg_type_ m).
Qed.

(** ** Reading fields *)

Lemma read_put_field w lo n v : 0 <= lo -> 0 < n -> get_field (put_field w lo n v) lo n = wrap n v.
Proof. intros. unfold get_field, put_field. rewrite get_put_same by lia. f_equal. lia. Qed.

Lemma read_put_field_ne w lo n v lo' n' : 0 <= lo -> 0 < n -> 0 <= lo' -> 0 < n' -> lo' + n' <= lo \/ lo + n <= lo' ->
  get_field (put_field w lo n v) lo' n' = get_field w lo' n'.
Proof. intros. unfold get_field, put_field. apply get_put_other; lia. Qed.

Create HintDb fields.
#[export] Hint Rewrite read_put_field read_put_field_ne using lia : fields.
Ltac read_fields := autorewrite with fields.

Lemma wrap_bounded n v : 0 <= v < 2 ^ n -> wrap n v = v.
Proof. intros. by apply wrap_small. Qed.

(** A flit of kind [k] of transaction [id]. *)
Record flit_of (k : MemFlitKind) (id w : Z) : Prop := {
  fo_magic : get_field w 0 8 = kMagic; fo_version : get_field w 8 4 = kVersion;
  fo_kind : get_field w 12 4 = kind_code k; fo_id : get_field w 16 32 = id
}.

Lemma Base_spec k id : 0 <= id < 2 ^ 31 -> exists w, Base k id = Ok w /\ flit_of k id w.
Proof.
  intros Hid. unfold Base. destruct (Z.ltb_spec id 0); [lia|]. eexists. split; [reflexivity|].
  split; read_fields; try done; [by destruct k|]. apply wrap_bounded. lia.
Qed.

Lemma flit_of_put k id w lo n v : flit_of k id w -> 48 <= lo -> 0 < n -> flit_of k id (put_field w lo n v).
Proof. intros [] Hlo Hn. split; by rewrite read_put_field_ne by lia. Qed.

Lemma Kind_spec k id w : flit_of k id w -> Kind w = Ok k.
Proof. intros [H1 H2 H3 _]. unfold Kind. rewrite H1, H2, H3. by destruct k. Qed.

Lemma flit_of_id k id w : 0 <= id < 2 ^ 31 -> flit_of k id w -> i32 (get_field w 16 32) = id.
Proof. intros Hid Hf. rewrite (fo_id _ _ _ Hf). apply swrap_small; lia. Qed.

(** ** Data flits *)

Section message.
Context (m : MemMsg).
Local Notation len := (length_bytes m).

(** The enable byte the receiver sees for each payload byte. *)
Definition enable_bytes : list Z := (fun i => if enabled m i then 0xff else 0) <$> seqZ 0 len.

(** A message the sender may encode. *)
Record mem_valid : Prop := {
  mv_txid : 0 <= txid m < 2 ^ 31; mv_source : 0 <= source_core m <= 0xffff; mv_home : 0 <= home_die m <= 0xfff;
  mv_stack : 0 <= stack_id m <= 0xfff; mv_channel : 0 <= channel_id m <= 0xfff;
  mv_address : in_u 64 (address m); mv_status : in_u 8 (status m);
  mv_length : 0 <= len <= kMemMsgMaxPayloadBytes;
  mv_bytes : forall x, x ∈ payload m -> in_u 8 x;
  mv_enable : byte_enable m = [] \/ Z.of_nat (length (byte_enable m)) = len
}.

(** Flit [sq] of the payload, as the receiver reads it. *)
Definition valid_at (sq : Z) : Z := Z.min kMemFlitPayloadBytes (len - sq * kMemFlitPayloadBytes).
Record data_flit_of (k : MemFlitKind) (sq d : Z) : Prop := {
  df_flit : flit_of k (txid m) d;
  df_seq : get_field d 48 16 = sq;
  df_valid : get_field d 64 8 = valid_at sq;
  df_end : get_field d 72 1 = b2z (sq * kMemFlitPayloadBytes + valid_at sq =? len);
  df_bytes : forall b, 0 <= b < valid_at sq -> get_field d (89 + b * 8) 8 = payload m !!! Z.to_nat (sq * kMemFlitPayloadBytes + b);
  df_enables : forall b, 0 <= b < valid_at sq -> Z.testbit (get_field d 73 16) b = enabled m (sq * kMemFlitPayloadBytes + b);
  df_source : get_field d 201 16 = source_core m; df_home : get_field d 217 12 = home_die m;
  df_stack : get_field d 229 12 = stack_id m; df_channel : get_field d 241 12 = channel_id m
}.

(** The byte loop writes its own fields and collects the enable bits. *)
Lemma put_bytes_spec off n w : (n <= 14)%nat -> let r := foldl (put_byte m off) (w, 0) (seqZ 0 (Z.of_nat n)) in
  (forall lo k, 0 <= lo -> 0 < k -> lo + k <= 89 \/ 89 + 8 * Z.of_nat n <= lo -> get_field r.1 lo k = get_field w lo k) /\
  (forall b, 0 <= b < Z.of_nat n -> get_field r.1 (89 + b * 8) 8 = wrap 8 (payload m !!! Z.to_nat (off + b))) /\
  0 <= r.2 < 2 ^ Z.of_nat n /\
  (forall b, 0 <= b < Z.of_nat n -> Z.testbit r.2 b = enabled m (off + b)).
Proof.
  induction n as [|n IH]; intros Hn.
  { cbv zeta. split; [done|]. split; [intros b Hb; exfalso; lia|]. split; [by split|intros b Hb; exfalso; lia]. }
  destruct (IH ltac:(lia)) as (H1 & H2 & H3 & H4). clear IH.
  assert (seqZ 0 (Z.of_nat (S n)) = seqZ 0 (Z.of_nat n) ++ [Z.of_nat n]) as ->.
  { rewrite Nat2Z.inj_succ. unfold Z.succ. rewrite seqZ_app by lia. done. }
  rewrite foldl_app. cbn [foldl]. set (r := foldl (put_byte m off) (w, 0) (seqZ 0 (Z.of_nat n))) in *. unfold put_byte. cbn [fst snd].
  assert (0 <= Z.lor r.2 (Z.shiftl 1 (Z.of_nat n)) < 2 ^ Z.of_nat (S n)) as Hlor.
  { apply (in_u_bits (Z.of_nat (S n))); [lia| |].
    - apply Z.lor_nonneg. split; [lia|]. apply Z.shiftl_nonneg. lia.
    - intros i Hi. rewrite testbit_setbit by lia. destruct (Z.eqb_spec (Z.of_nat n) i); [lia|]. cbn.
      apply (in_u_testbit (Z.of_nat n)); [exact H3|lia]. }
  assert (2 ^ Z.of_nat (S n) <= 2 ^ 14) as Hp by (apply Z.pow_le_mono_r; lia).
  split; [|split; [|split]].
  - intros lo k Hlo Hk Hd. rewrite read_put_field_ne by lia. apply H1; lia.
  - intros b Hb. destruct (Z.eq_dec b (Z.of_nat n)) as [->|]; [by rewrite read_put_field by lia|].
    rewrite read_put_field_ne by lia. apply H2. lia.
  - destruct (enabled m (off + Z.of_nat n)).
    + rewrite wrap_bounded by lia. done.
    + rewrite Nat2Z.inj_succ, Z.pow_succ_r by lia. lia.
  - intros b Hb. destruct (enabled m (off + Z.of_nat n)) eqn:E.
    + rewrite wrap_bounded by lia. rewrite testbit_setbit by lia. destruct (Z.eqb_spec (Z.of_nat n) b) as [<-|]; cbn; [done|]. apply H4. lia.
    + destruct (Z.eq_dec b (Z.of_nat n)) as [->|]; [|apply H4; lia]. rewrite E. apply (in_u_testbit (Z.of_nat n)); [exact H3|lia].
Qed.

Lemma PutData_spec k w sq : mem_valid -> flit_of k (txid m) w -> 0 <= sq -> 0 < valid_at sq -> Z.of_nat (length (payload m)) = len ->
  data_flit_of k sq (PutData w m sq (sq * kMemFlitPayloadBytes) (valid_at sq)).
Proof.
  intros Hv Hw Hsq Hpos Hlen. unfold PutData. set (off := sq * kMemFlitPayloadBytes) in *.
  set (w3 := put_field (put_field (put_field w 48 16 sq) 64 8 (valid_at sq)) 72 1 (b2z (off + valid_at sq =? len))).
  assert (valid_at sq <= 14 /\ off + valid_at sq <= len) as [H14 Hle] by (unfold valid_at, off, kMemFlitPayloadBytes in *; lia).
  pose proof (put_bytes_spec off (Z.to_nat (valid_at sq)) w3 ltac:(lia)) as Hb. rewrite Z2Nat.id in Hb by lia.
  destruct (foldl (put_byte m off) (w3, 0) (seqZ 0 (valid_at sq))) as [w4 en]. cbn [fst snd] in Hb. destruct Hb as (H1 & H2 & H3 & H4).
  pose proof (mv_length Hv) as Hl. unfold kMemMsgMaxPayloadBytes in Hl. unfold kMemFlitPayloadBytes in off.
  assert (2 ^ valid_at sq <= 2 ^ 14) as Hp by (apply Z.pow_le_mono_r; lia).
  destruct Hv as [? Hs Hh Hst Hc ? ? ? Hby ?].
  assert (flit_of k (txid m) w3) as Hw3 by (unfold w3; repeat apply flit_of_put; try lia; done).
  split; read_fields; try (rewrite H1 by lia; unfold w3; read_fields).
  - repeat (apply flit_of_put; [|lia|lia]). destruct Hw3. split; rewrite H1 by lia; done.
  - apply wrap_bounded. unfold off in *. lia.
  - apply wrap_bounded. lia.
  - apply wrap_bounded. by destruct (_ =? len).
  - intros b Hb. read_fields. rewrite H2 by lia. apply wrap_bounded. apply Hby.
    apply list_elem_of_lookup. exists (Z.to_nat (off + b)). apply list_lookup_lookup_total_lt. unfold kMemFlitPayloadBytes. lia.
  - intros b Hb. rewrite wrap_bounded by lia. by apply H4.
  - apply wrap_bounded. lia.
  - apply wrap_bounded. lia.
  - apply wrap_bounded. lia.
  - apply wrap_bounded. lia.
Qed.

Lemma data_flits_spec k out : mem_valid -> Z.of_nat (length (payload m)) = len -> exists ds,
  data_flits k m out = Ok (out ++ ds) /\ Z.of_nat (length ds) = ceil_div len kMemFlitPayloadBytes /\
  forall j d, ds !! j = Some d -> data_flit_of k (Z.of_nat j) d.
Proof.
  intros Hv Hlen. pose proof (mv_length Hv) as Hl. unfold kMemMsgMaxPayloadBytes in Hl. unfold data_flits.
  set (n := ceil_div len kMemFlitPayloadBytes). pose proof (ceil_div_spec len kMemFlitPayloadBytes ltac:(done)) as Hn. fold n in Hn.
  unfold kMemFlitPayloadBytes in Hn.
  destruct (foldM_total_prefix (data_flit k m) (fun pre o => exists ds, o = out ++ ds /\ length ds = length pre /\
    forall j d, ds !! j = Some d -> data_flit_of k (Z.of_nat j) d) (seqZ 0 n) out) as (o & -> & ds & -> & Hds & Hall).
  - intros pre sq post o Hpre (ds & -> & Hds & Hall).
    assert (sq = Z.of_nat (length pre) /\ Z.of_nat (length pre) < n) as [-> Hsq].
    { assert (seqZ 0 n !! length pre = Some sq) as [E ?]%lookup_seqZ by by rewrite Hpre, list_lookup_middle. lia. }
    destruct (Base_spec k (txid m) (mv_txid Hv)) as (w & Hw & Hf). unfold data_flit. rewrite Hw. cbn [mbind result_bind].
    eexists. split; [reflexivity|]. eexists (ds ++ [_]). rewrite app_assoc. split; [reflexivity|].
    rewrite !length_app, Hds. split; [done|]. intros j d [[_ Hj]|[Hj <-]]%lookup_snoc_Some; [by apply Hall|].
    rewrite Hj, Hds. apply PutData_spec; try done; [lia|]. unfold valid_at, kMemFlitPayloadBytes. lia.
  - exists []. rewrite app_nil_r. split; [done|]. split; [done|]. intros j d Hj. by rewrite lookup_nil in Hj.
  - exists ds. split; [done|]. split; [|done]. rewrite Hds, length_seqZ. lia.
Qed.

(** *** Reading them back *)

Lemma slice_seqZ (l : list Z) off v : 0 <= off -> off + v <= Z.of_nat (length l) ->
  (fun b => l !!! Z.to_nat (off + b)) <$> seqZ 0 v = take (Z.to_nat v) (drop (Z.to_nat off) l).
Proof using.
  intros Ho Hl. apply list_eq. intros i. rewrite list_lookup_fmap. destruct (decide (Z.of_nat i < v)) as [Hi|Hi].
  - rewrite (lookup_seqZ_lt 0 v i) by lia. cbn. rewrite lookup_take_lt, lookup_drop by lia.
    replace (Z.to_nat (off + (0 + Z.of_nat i))) with (Z.to_nat off + i)%nat by lia. symmetry. apply list_lookup_lookup_total_lt. lia.
  - rewrite (lookup_seqZ_ge 0 v i) by lia. cbn. rewrite lookup_take_ge by lia. done.
Qed.

Lemma enable_bytes_at i : 0 <= i < len -> enable_bytes !!! Z.to_nat i = if enabled m i then 0xff else 0.
Proof using.
  intros Hi. apply list_lookup_total_correct. unfold enable_bytes. rewrite list_lookup_fmap, (lookup_seqZ_lt 0 len) by lia.
  cbn [fmap option_fmap option_map]. by rewrite Z2Nat.id by lia.
Qed.

Lemma read_flit_bytes_spec k sq d : data_flit_of k sq d -> 0 <= sq -> 0 < valid_at sq -> Z.of_nat (length (payload m)) = len ->
  read_flit_bytes d (valid_at sq) =
    (take (Z.to_nat (valid_at sq)) (drop (Z.to_nat (sq * kMemFlitPayloadBytes)) (payload m)),
     take (Z.to_nat (valid_at sq)) (drop (Z.to_nat (sq * kMemFlitPayloadBytes)) enable_bytes)).
Proof using.
  intros Hd Hsq Hpos Hlen. assert (sq * kMemFlitPayloadBytes + valid_at sq <= len) as Hle by (unfold valid_at; lia).
  assert (0 <= sq * kMemFlitPayloadBytes) as H0 by (unfold kMemFlitPayloadBytes; lia).
  assert (Z.of_nat (length enable_bytes) = len) as Hen by (unfold enable_bytes; rewrite length_fmap, length_seqZ; lia).
  unfold read_flit_bytes. rewrite <- !slice_seqZ by lia. f_equal; apply list_fmap_ext; intros i b [-> Hb]%lookup_seqZ; rewrite Z.add_0_l.
  - apply (df_bytes _ _ _ Hd). lia.
  - rewrite enable_bytes_at by lia. by rewrite (df_enables _ _ _ Hd) by lia.
Qed.

Lemma read_data_spec k ds : 0 <= txid m < 2 ^ 31 -> Z.of_nat (length (payload m)) = len ->
  Z.of_nat (length ds) = ceil_div len kMemFlitPayloadBytes -> (forall j d, ds !! j = Some d -> data_flit_of k (Z.of_nat j) d) ->
  read_data k (txid m) ds = Ok (payload m, enable_bytes).
Proof using.
  intros Hid Hlen Hds Hall. set (n := Z.of_nat (length ds)) in *.
  pose proof (ceil_div_spec len kMemFlitPayloadBytes ltac:(done)) as Hn. rewrite <- Hds in Hn.
  assert (Z.of_nat (length enable_bytes) = len) as Hen by (unfold enable_bytes; rewrite length_fmap, length_seqZ; lia).
  unfold read_data. fold n.
  destruct (foldM_total_prefix (read_flit k (txid m) n) (fun pre acc =>
    acc = (take (length pre * 14) (payload m), take (length pre * 14) enable_bytes, Z.of_nat (length pre))) ds ([], [], 0)) as (acc & -> & ->).
  - intros pre d post acc Hpre ->. assert (ds !! length pre = Some d) as Hj by by rewrite Hpre, list_lookup_middle.
    assert (Z.of_nat (length pre) < n) as Hlt by (apply lookup_lt_Some in Hj; unfold n; lia).
    pose proof (Hall _ _ Hj) as Hd. set (j := Z.of_nat (length pre)) in *. unfold kMemFlitPayloadBytes in Hn.
    assert (0 < valid_at j <= 14 /\ (j * 14 + valid_at j = len <-> j + 1 = n)) as [Hval Hlast] by (unfold valid_at, kMemFlitPayloadBytes; lia).
    eexists. split; [|reflexivity]. unfold read_flit. cbn [fst snd]. rewrite (Kind_spec _ _ _ (df_flit _ _ _ Hd)). cbn [mbind result_bind].
    rewrite (flit_of_id _ _ _ Hid (df_flit _ _ _ Hd)), (df_seq _ _ _ Hd), (df_valid _ _ _ Hd), (df_end _ _ _ Hd).
    rewrite bool_decide_eq_true_2, !Z.eqb_refl by done. cbn [negb orb]. rewrite throw_bind_false by done. cbv zeta.
    rewrite throw_bind_false by (apply orb_false_iff; split; [lia|unfold kMemFlitPayloadBytes; lia]).
    rewrite throw_bind_false.
    2:{ unfold kMemFlitPayloadBytes. destruct (Z.eqb_spec (j * 14 + valid_at j) len), (Z.eqb_spec (j + 1) n); done || (exfalso; tauto). }
    rewrite (read_flit_bytes_spec k j d Hd) by lia. cbn [fst snd]. rewrite length_app. cbn [length].
    unfold kMemFlitPayloadBytes. replace (Z.to_nat (j * 14)) with (length pre * 14)%nat by lia. rewrite !take_take_drop.
    assert (forall l : list Z, Z.of_nat (length l) = len -> take (length pre * 14 + Z.to_nat (valid_at j)) l = take ((length pre + 1) * 14) l) as Htake.
    { intros l Hl. unfold valid_at, kMemFlitPayloadBytes in *. destruct (Z.min_spec 14 (len - j * 14)) as [[? E]|[? E]]; rewrite E.
      - f_equal. lia.
      - rewrite !take_ge by lia. done. }
    rewrite !Htake by done. do 2 f_equal. lia.
  - done.
  - cbn. unfold kMemFlitPayloadBytes in Hn. rewrite !take_ge by lia. done.
Qed.
End message.

(** ** The order of the flits *)

(** Place of a flit in its transaction. *)
Definition flit_key (r : MemFlitRoute) : Z :=
  flit_rank (r_kind r) * 65536 + (if flit_rank (r_kind r) =? 1 then r_sequence r else 0).
Definition seq_typed (r : MemFlitRoute) : Prop := flit_rank (r_kind r) = 1 -> in_u 16 (r_sequence r).

Lemma flit_before_key a b : seq_typed a -> seq_typed b -> flit_before a b = (flit_key a <? flit_key b).
Proof.
  unfold seq_typed, in_u, flit_before, flit_key. generalize (flit_rank (r_kind a)) (flit_rank (r_kind b)).
  intros x y Hx Hy. destruct (Z.eqb_spec x y) as [->|Hne]; cbn [negb].
  - destruct (Z.eqb_spec y 1) as [->|]; [|destruct (Z.ltb_spec (y * 65536 + 0) (y * 65536 + 0)); lia || done].
    specialize (Hx eq_refl). specialize (Hy eq_refl).
    destruct (Z.ltb_spec (r_sequence a) (r_sequence b)), (Z.ltb_spec (1 * 65536 + r_sequence a) (1 * 65536 + r_sequence b)); lia || done.
  - destruct (Z.eqb_spec x 1), (Z.eqb_spec y 1); destruct (Z.ltb_spec x y); symmetry; apply Z.ltb_lt || apply Z.ltb_ge;
      try specialize (Hx ltac:(done)); try specialize (Hy ltac:(done)); lia.
Qed.

Definition before_or_same (x y : routed) : Prop := flit_key x.2 <= flit_key y.2.

Lemma insert_flit_perm x l : insert_flit x l ≡ₚ x :: l.
Proof. induction l as [|y l IH]; cbn; [done|]. destruct (flit_before y.2 x.2); [|done]. rewrite IH. apply Permutation_swap. Qed.

Lemma stable_sort_perm l : stable_sort l ≡ₚ l.
Proof. induction l as [|x l IH]; cbn; [done|]. by rewrite insert_flit_perm, IH. Qed.

Lemma insert_flit_sorted x l : (forall y, y ∈ x :: l -> seq_typed y.2) -> StronglySorted before_or_same l ->
  StronglySorted before_or_same (insert_flit x l).
Proof.
  intros Ht. induction l as [|y l IH]; intros Hl; cbn [insert_flit].
  { apply StronglySorted_cons. by split; [apply Forall_nil|]. }
  apply StronglySorted_cons in Hl as [Hy Hl]. rewrite list.Forall_forall in Hy.
  rewrite flit_before_key by (apply Ht; set_solver). destruct (Z.ltb_spec (flit_key y.2) (flit_key x.2)) as [Hlt|Hle].
  - apply StronglySorted_cons. split; [|apply IH; [intros z Hz; apply Ht; set_solver|done]].
    apply list.Forall_forall. intros z Hz. rewrite insert_flit_perm in Hz.
    apply elem_of_cons in Hz as [->|Hz]; [unfold before_or_same; lia|by apply Hy].
  - apply StronglySorted_cons. split; [|apply StronglySorted_cons; split; [by apply list.Forall_forall|done]].
    apply list.Forall_forall. intros z [->|Hz]%elem_of_cons; [done|]. specialize (Hy z Hz). unfold before_or_same in *. lia.
Qed.

Lemma stable_sort_sorted l : (forall y, y ∈ l -> seq_typed y.2) -> StronglySorted before_or_same (stable_sort l).
Proof.
  induction l as [|x l IH]; intros Ht; cbn; [apply SSorted_nil|]. apply insert_flit_sorted.
  - intros y Hy. apply Ht. rewrite stable_sort_perm in Hy. exact Hy.
  - apply IH. intros y Hy. apply Ht. by right.
Qed.

Lemma sorted_by_index {A} (R : A -> A -> Prop) l :
  (forall i j x y, (i < j)%nat -> l !! i = Some x -> l !! j = Some y -> R x y) -> StronglySorted R l.
Proof.
  induction l as [|x l IH]; intros H; [apply SSorted_nil|]. apply StronglySorted_cons. split.
  - apply list.Forall_forall. intros y [j Hj]%list_elem_of_lookup. apply (H 0%nat (S j)); [lia|done|done].
  - apply IH. intros i j y z Hij Hi Hj. apply (H (S i) (S j)); [lia|done|done].
Qed.

Definition dummy_route : MemFlitRoute := mkRoute kRequest 0 0 0 0 0 0 true true.
Definition route (w : Z) : MemFlitRoute := match InspectMemWireFlit w with Ok r => r | Err _ => dummy_route end.

Lemma inspect_all wire acc : (forall w, w ∈ wire -> is_ok (InspectMemWireFlit w) = true) ->
  foldM (fun acc w => InspectMemWireFlit w ≫= fun r => Ok (acc ++ [(w, r)])) acc wire =
    Ok (acc ++ ((fun w => (w, route w)) <$> wire)).
Proof.
  revert acc. induction wire as [|w wire IH]; intros acc Hok; cbn [foldM]; [by rewrite app_nil_r|].
  pose proof (Hok w (list_elem_of_here _ _)) as Hw. apply is_ok_true in Hw as [r Hr]. rewrite Hr. cbn [mbind result_bind].
  rewrite IH by (intros v Hv; apply Hok; by right). rewrite <- app_assoc. cbn. unfold route at 2. by rewrite Hr.
Qed.

Lemma route_typed w : is_ok (InspectMemWireFlit w) = true -> seq_typed (route w).
Proof.
  assert (in_u 16 (get_field w 48 16)) as Hin by exact (get_in_u w 63 48 ltac:(lia)).
  unfold route, InspectMemWireFlit. destruct (Kind w) as [k|e]; [|discriminate]. intros _ Hr.
  destruct k; cbn [mbind result_bind r_kind r_sequence flit_rank] in *; [discriminate Hr|exact Hin|exact Hin|discriminate Hr].
Qed.

(** A strictly ordered transaction is what its flits in any order are sorted to. *)
Lemma canonical_order ws ws' : (forall w, w ∈ ws -> is_ok (InspectMemWireFlit w) = true) ->
  StronglySorted (fun v w => flit_key (route v) < flit_key (route w)) ws -> ws' ≡ₚ ws -> CanonicalizeMemWireFlits ws' = Ok ws.
Proof.
  intros Hok Hs Hp. unfold CanonicalizeMemWireFlits. destruct (Nat.leb_spec (length ws') 1) as [Hl|Hl].
  { f_equal. destruct ws' as [|w [|? ?]]; [by apply Permutation_nil_l in Hp|by apply Permutation_length_1_inv in Hp as ->|cbn in Hl; lia]. }
  assert (forall w, w ∈ ws' -> is_ok (InspectMemWireFlit w) = true) as Hok' by (intros w Hw; apply Hok; by rewrite <- Hp).
  rewrite inspect_all by done. cbn [mbind result_bind app]. set (pairs := fun w => (w, route w)).
  assert (stable_sort (pairs <$> ws') = pairs <$> ws) as ->.
  { apply (StronglySorted_unique_strong before_or_same).
    - intros x1 x2 H1 H2 R12 R21. rewrite stable_sort_perm, Hp in H1.
      apply list_elem_of_fmap in H1 as (v & -> & Hv). apply list_elem_of_fmap in H2 as (w & -> & Hw).
      apply list_elem_of_lookup in Hv as [i Hi]. apply list_elem_of_lookup in Hw as [j Hj]. unfold before_or_same, pairs in *. cbn in *.
      destruct (lt_eq_lt_dec i j) as [[Hij| -> ]|Hij]; [exfalso|congruence|exfalso].
      + assert (flit_key (route v) < flit_key (route w)); [|lia].
        rewrite <- (take_drop_middle ws i v Hi) in Hs. apply StronglySorted_app_1_r, StronglySorted_cons in Hs as [Hf _].
        rewrite list.Forall_forall in Hf. apply Hf. apply list_elem_of_lookup. exists (j - S i)%nat. rewrite lookup_drop. by replace (S i + (j - S i))%nat with j by lia.
      + assert (flit_key (route w) < flit_key (route v)); [|lia].
        rewrite <- (take_drop_middle ws j w Hj) in Hs. apply StronglySorted_app_1_r, StronglySorted_cons in Hs as [Hf _].
        rewrite list.Forall_forall in Hf. apply Hf. apply list_elem_of_lookup. exists (i - S j)%nat. rewrite lookup_drop. by replace (S j + (i - S j))%nat with i by lia.
    - apply stable_sort_sorted. intros y (w & -> & Hw)%list_elem_of_fmap. by apply route_typed, Hok'.
    - clear -Hs. induction ws as [|w ws IH]; [apply SSorted_nil|]. cbn. apply StronglySorted_cons in Hs as [Hf Hs].
      apply StronglySorted_cons. split; [|by apply IH]. apply list.Forall_forall.
      intros y (v & -> & Hv)%list_elem_of_fmap. rewrite list.Forall_forall in Hf. specialize (Hf v Hv). unfold before_or_same. cbn in *. lia.
    - rewrite stable_sort_perm. by rewrite Hp. }
  f_equal. rewrite <- list_fmap_compose. apply list_fmap_id.
Qed.

(** ** The round trip *)

Definition carries_data (m : MemMsg) : bool :=
  match message_type m with
  | kMsgRequest => bool_decide (command m = kWrite)
  | kMsgResponse => bool_decide (command m = kRead) && (status m =? 0)
  end.

(** The payload that the type and command of the message call for. *)
Definition payload_fits (m : MemMsg) : Prop :=
  (carries_data m = true -> Z.of_nat (length (payload m)) = length_bytes m) /\
  (message_type m = kMsgRequest -> command m = kRead -> payload m = []).

(** What the receiver gets: a response carries neither address nor home, a
    message without data no bytes, and one with data an enable per byte. *)
Definition received (m : MemMsg) : MemMsg :=
  let data := if carries_data m then payload m else [] in
  let en := if carries_data m then enable_bytes m else [] in
  match message_type m with
  | kMsgRequest => mkMem (txid m) kMsgRequest (source_core m) (home_die m) (stack_id m) (channel_id m) (address m) (command m)
                     (length_bytes m) true 0 data en
  | kMsgResponse => mkMem (txid m) kMsgResponse (source_core m) (-1) (-1) (-1) 0 (command m) (length_bytes m) true (status m) data en
  end.

Record request_of (m : MemMsg) (w : Z) : Prop := {
  rq_flit : flit_of kRequest (txid m) w;
  rq_source : get_field w 48 16 = source_core m; rq_home : get_field w 64 12 = home_die m;
  rq_stack : get_field w 76 12 = stack_id m; rq_channel : get_field w 88 12 = channel_id m;
  rq_address : get_field w 100 64 = address m; rq_length : get_field w 164 16 = length_bytes m;
  rq_command : get_field w 180 1 = b2z (bool_decide (command m = kWrite)); rq_final : get_field w 181 1 = 1
}.
Record response_of (m : MemMsg) (w : Z) : Prop := {
  rs_flit : flit_of kResponse (txid m) w;
  rs_source : get_field w 48 16 = source_core m; rs_status : get_field w 64 8 = status m;
  rs_length : get_field w 72 16 = length_bytes m; rs_command : get_field w 89 1 = b2z (bool_decide (command m = kWrite))
}.

Definition data_of (k : MemFlitKind) (m : MemMsg) (ds : list Z) : Prop :=
  if carries_data m then Z.of_nat (length ds) = ceil_div (length_bytes m) kMemFlitPayloadBytes /\
    forall j d, ds !! j = Some d -> data_flit_of m k (Z.of_nat j) d
  else ds = [].

Lemma ValidateCommon_ok m : mem_valid m -> ValidateCommon m = Ok tt.
Proof.
  intros []. unfold ValidateCommon, kMemMsgMaxPayloadBytes in *. rewrite !throw_bind_false by (repeat (apply orb_false_iff; split); lia).
  unfold throw_if. destruct mv_enable0 as [E|E]; [by rewrite bool_decide_eq_true_2|]. rewrite E, Z.eqb_refl. by rewrite andb_false_r.
Qed.

Lemma serialize_request m : mem_valid m -> payload_fits m -> message_type m = kMsgRequest ->
  exists req ds, SerializeMemMsg m = Ok (req :: ds) /\ request_of m req /\ data_of kWriteData m ds.
Proof.
  intros Hv [Hfit Hread] Ht. unfold SerializeMemMsg. rewrite (ValidateCommon_ok m Hv), Ht. cbn [mbind result_bind].
  unfold carries_data in Hfit. rewrite Ht in Hfit. unfold data_of, carries_data. rewrite Ht.
  rewrite throw_bind_false.
  2:{ destruct (bool_decide (command m = kWrite)); cbn; [|done]. by rewrite Hfit, Z.eqb_refl. }
  rewrite throw_bind_false.
  2:{ destruct (command m) eqn:Ec; [|done]. by rewrite (Hread Ht eq_refl). }
  destruct (Base_spec kRequest (txid m) (mv_txid m Hv)) as (w & -> & Hw). cbn [mbind result_bind]. cbv zeta.
  set (req := put_field _ 181 1 1). assert (request_of m req) as Hreq.
  { unfold req. destruct Hv as [? ? ? ? ? ? ? Hl ? ?]. unfold kMemMsgMaxPayloadBytes in Hl. unfold in_u in *.
    split; [repeat (apply flit_of_put; [|lia|lia]); done|..]; read_fields; try done; try (apply wrap_bounded; lia).
    apply wrap_bounded. by destruct (bool_decide _). }
  destruct (bool_decide (command m = kWrite)) eqn:Ec.
  - destruct (data_flits_spec m kWriteData [req] Hv (Hfit eq_refl)) as (ds & -> & Hlen & Hall). by exists req, ds.
  - by exists req, [].
Qed.

Lemma serialize_response m : mem_valid m -> payload_fits m -> message_type m = kMsgResponse ->
  exists ds resp, SerializeMemMsg m = Ok (ds ++ [resp]) /\ response_of m resp /\ data_of kReadData m ds.
Proof.
  intros Hv [Hfit _] Ht. unfold SerializeMemMsg. rewrite (ValidateCommon_ok m Hv), Ht. cbn [mbind result_bind]. cbv zeta.
  unfold carries_data in Hfit. rewrite Ht in Hfit. unfold data_of, carries_data. rewrite Ht.
  set (c := bool_decide (command m = kRead) && (status m =? 0)) in *.
  rewrite throw_bind_false by (destruct c; cbn; [by rewrite Hfit, Z.eqb_refl|done]).
  assert (exists ds, (if c then data_flits kReadData m [] else Ok []) = Ok ds /\
    (if c then Z.of_nat (length ds) = ceil_div (length_bytes m) kMemFlitPayloadBytes /\
       forall j d, ds !! j = Some d -> data_flit_of m kReadData (Z.of_nat j) d else ds = [])) as (ds & -> & Hds).
  { destruct c; [|by exists []]. destruct (data_flits_spec m kReadData [] Hv (Hfit eq_refl)) as (ds & -> & Hlen & Hall). by exists ds. }
  cbn [mbind result_bind]. destruct (Base_spec kResponse (txid m) (mv_txid m Hv)) as (w & -> & Hw). cbn [mbind result_bind]. cbv zeta.
  set (resp := put_field _ 89 1 _). exists ds, resp. split; [done|]. split; [|done].
  unfold resp. destruct Hv as [? ? ? ? ? ? ? Hl ? ?]. unfold kMemMsgMaxPayloadBytes in Hl. unfold in_u in *.
  split; [repeat (apply flit_of_put; [|lia|lia]); done|..]; read_fields; try (apply wrap_bounded; lia).
  apply wrap_bounded. clear. by destruct (command m).
Qed.

(** The place of each flit in its transaction. *)
Lemma flit_inspect k id w : flit_of k id w -> is_ok (InspectMemWireFlit w) = true /\
  flit_key (route w) = flit_rank k * 65536 + (if flit_rank k =? 1 then get_field w 48 16 else 0).
Proof. intros Hf. unfold route, InspectMemWireFlit. rewrite (Kind_spec _ _ _ Hf). cbn [mbind result_bind]. by destruct k. Qed.

Lemma data_keys m k ds : flit_rank k = 1 -> data_of k m ds ->
  (forall w, w ∈ ds -> is_ok (InspectMemWireFlit w) = true /\ 65536 <= flit_key (route w) < 2 * 65536) /\
  StronglySorted (fun v w => flit_key (route v) < flit_key (route w)) ds.
Proof.
  intros Hk Hds. unfold data_of in Hds. destruct (carries_data m); [|subst; split; [intros w Hw; by apply elem_of_nil in Hw|apply SSorted_nil]].
  destruct Hds as [_ Hall]. assert (forall j w, ds !! j = Some w -> is_ok (InspectMemWireFlit w) = true /\
    flit_key (route w) = 65536 + Z.of_nat j /\ Z.of_nat j < 65536) as Hkey.
  { intros j w Hw. pose proof (Hall j w Hw) as Hd. destruct (flit_inspect _ _ _ (df_flit _ _ _ _ Hd)) as [Hok ->].
    rewrite Hk, (df_seq _ _ _ _ Hd). cbn [Z.eqb Pos.eqb]. split; [done|]. split; [lia|].
    assert (in_u 16 (get_field w 48 16)) as Hin by exact (get_in_u w 63 48 ltac:(lia)).
    rewrite (df_seq _ _ _ _ Hd) in Hin. unfold in_u in Hin. lia. }
  split.
  - intros w [j Hj]%list_elem_of_lookup. destruct (Hkey j w Hj) as (Hok & -> & ?). split; [done|lia].
  - apply sorted_by_index. intros i j v w Hij Hi Hj. destruct (Hkey i v Hi) as (_ & -> & _), (Hkey j w Hj) as (_ & -> & _). lia.
Qed.

Lemma command_of_b2z c : command_of (b2z (bool_decide (c = kWrite))) = c.
Proof. by destruct c. Qed.

Lemma read_data_of m k ds : 0 <= txid m < 2 ^ 31 -> payload_fits m -> data_of k m ds ->
  read_data k (txid m) ds = Ok (if carries_data m then payload m else [], if carries_data m then enable_bytes m else []).
Proof.
  intros Hid [Hfit _] Hds. unfold data_of in Hds. destruct (carries_data m); [|by subst].
  destruct Hds as [Hlen Hall]. by apply read_data_spec; [done|apply Hfit| |].
Qed.

Lemma deserialize_request m req ds : mem_valid m -> payload_fits m -> message_type m = kMsgRequest ->
  request_of m req -> data_of kWriteData m ds -> DeserializeMemMsg (req :: ds) = Ok (received m).
Proof.
  intros Hv Hfit Ht Hreq Hds. unfold DeserializeMemMsg. rewrite (Kind_spec _ _ _ (rq_flit _ _ Hreq)). cbn [mbind result_bind].
  rewrite (flit_of_id _ _ _ (mv_txid m Hv) (rq_flit _ _ Hreq)). cbv zeta. rewrite bool_decide_eq_true_2 by done.
  rewrite (rq_source _ _ Hreq), (rq_home _ _ Hreq), (rq_stack _ _ Hreq), (rq_channel _ _ Hreq), (rq_address _ _ Hreq),
    (rq_length _ _ Hreq), (rq_command _ _ Hreq), (rq_final _ _ Hreq), command_of_b2z. cbn [Z.eqb Pos.eqb negb].
  rewrite throw_bind_false by done. rewrite throw_bind_false.
  2:{ unfold data_of, carries_data in Hds. rewrite Ht in Hds. destruct (command m); [|done].
      change (ds = []) in Hds. by rewrite Hds. }
  rewrite (read_data_of m _ ds (mv_txid m Hv) Hfit Hds). cbn [mbind result_bind fst snd].
  unfold received. rewrite Ht. destruct Hfit as [Hfit Hread]. rewrite throw_bind_false; [done|].
  unfold carries_data in *. rewrite Ht in *. destruct (command m); [done|].
  change (bool_decide (kWrite = kWrite)) with true in *. cbv beta iota. by rewrite (Hfit eq_refl), Z.eqb_refl.
Qed.

Lemma deserialize_response m ds resp : mem_valid m -> payload_fits m -> message_type m = kMsgResponse ->
  response_of m resp -> data_of kReadData m ds -> DeserializeMemMsg (ds ++ [resp]) = Ok (received m).
Proof.
  intros Hv Hfit Ht Hresp Hds. pose proof (flit_of_id _ _ _ (mv_txid m Hv) (rs_flit _ _ Hresp)) as Hid.
  assert (exists w rest k, ds ++ [resp] = w :: rest /\ flit_of k (txid m) w /\ k <> kRequest) as (w & rest & k & E & Hw & Hk).
  { destruct ds as [|d ds]; [exists resp, [], kResponse; split; [done|split; [apply Hresp|done]]|].
    exists d, (ds ++ [resp]), kReadData. split; [done|]. split; [|done]. unfold data_of in Hds. destruct (carries_data m); [|done].
    destruct Hds as [_ Hall]. apply (df_flit _ _ _ _ (Hall 0%nat d eq_refl)). }
  unfold DeserializeMemMsg. rewrite E. rewrite (Kind_spec _ _ _ Hw). cbn [mbind result_bind]. cbv zeta.
  rewrite (flit_of_id _ _ _ (mv_txid m Hv) Hw). rewrite (bool_decide_eq_false_2 (k = kRequest)) by done.
  rewrite <- E, last_last, removelast_last.
  rewrite (Kind_spec _ _ _ (rs_flit _ _ Hresp)). cbn [mbind result_bind]. rewrite Hid, (bool_decide_eq_true_2 (kResponse = kResponse)), Z.eqb_refl by done.
  cbn [negb]. rewrite !throw_bind_false by done.
  rewrite (rs_source _ _ Hresp), (rs_status _ _ Hresp), (rs_length _ _ Hresp), (rs_command _ _ Hresp), command_of_b2z.
  rewrite (read_data_of m _ ds (mv_txid m Hv) Hfit Hds). cbn [mbind result_bind fst snd].
  unfold received. rewrite Ht. destruct Hfit as [Hfit _]. rewrite throw_bind_false; [done|].
  unfold carries_data in *. rewrite Ht in *. destruct (_ && _); [|done]. cbn. by rewrite Hfit, Z.eqb_refl.
Qed.

(** C35: a valid memory message is always encoded, and whatever order its flits
    arrive in, sorting them restores the transaction and decoding it gives the
    message back, with what its type does not carry at the defaults. *)
Theorem mem_wire_roundtrip m : mem_valid m -> payload_fits m -> exists ws, SerializeMemMsg m = Ok ws /\
  forall ws', ws' ≡ₚ ws -> (CanonicalizeMemWireFlits ws' ≫= DeserializeMemMsg) = Ok (received m).
Proof.
  intros Hv Hfit. destruct (message_type m) eqn:Ht.
  - destruct (serialize_request m Hv Hfit Ht) as (req & ds & E & Hreq & Hds). exists (req :: ds). split; [done|]. intros ws' Hp.
    destruct (data_keys m kWriteData ds eq_refl Hds) as [Hk Hsort]. destruct (flit_inspect _ _ _ (rq_flit _ _ Hreq)) as [Hok Hkey].
    rewrite (canonical_order (req :: ds) ws'); [by apply deserialize_request| | |done].
    + intros w [->|Hw]%elem_of_cons; [done|by apply Hk].
    + apply StronglySorted_cons. split; [|done]. apply list.Forall_forall. intros w Hw. destruct (Hk w Hw) as [_ ?]. rewrite Hkey. cbn. lia.
  - destruct (serialize_response m Hv Hfit Ht) as (ds & resp & E & Hresp & Hds). exists (ds ++ [resp]). split; [done|]. intros ws' Hp.
    destruct (data_keys m kReadData ds eq_refl Hds) as [Hk Hsort]. destruct (flit_inspect _ _ _ (rs_flit _ _ Hresp)) as [Hok Hkey].
    rewrite (canonical_order (ds ++ [resp]) ws'); [by apply deserialize_response| | |done].
    + intros w [Hw|Hw]%elem_of_app; [by apply Hk|]. by apply list_elem_of_singleton in Hw as ->.
    + apply StronglySorted_app. split; [|split; [done|apply StronglySorted_cons; split; [by apply Forall_nil|apply SSorted_nil]]].
      intros v w Hvd ->%list_elem_of_singleton. destruct (Hk v Hvd) as [_ ?]. rewrite Hkey. cbn. lia.
Qed.

Definition demo_write : MemMsg := mkMem 7 kMsgRequest 3 1 0 2 0x1234 kWrite 20 true 0 (seqZ 100 20) [].

Lemma mem_wire_roundtrip_witness : exists w0 w1 w2, SerializeMemMsg demo_write = Ok [w0; w1; w2] /\
  (CanonicalizeMemWireFlits [w2; w1; w0] ≫= DeserializeMemMsg) = Ok (received demo_write).
Proof.
  destruct (mem_wire_roundtrip demo_write) as (ws & E & H).
  - split; cbn; try (unfold in_u); try lia; [unfold kMemMsgMaxPayloadBytes; lia| |by left].
    intros x Hx. apply elem_of_seqZ in Hx. lia.
  - split; [intros _; reflexivity|discriminate].
  - destruct (SerializeMemMsg demo_write) as [[|w0 [|w1 [|w2 [|w3 ws']]]]|e] eqn:Es; try (vm_compute in Es; discriminate Es).
    injection E as <-. exists w0, w1, w2. split; [reflexivity|]. apply H.
    symmetry. apply (Permutation_rev [w0; w1; w2]).
Defined.
