(* ===== verification/Routing.v ===== *)
(** Hop-by-hop routing of messages over the mesh of a die and the links between
    dies ([src/utils/router_utils.cpp], [include/utils/router_utils.h],
    [RouterUnit::RepinOnC2CIngress] of [src/router/router.cpp] and the wiring of
    the router channels in [src/monitor/monitor.cpp]).  The configured tables are
    the fields of a [machine]; the port-selection state and the counters are
    passed explicitly. *)

From S2P Require Import Prelude Bits MsgWire D2DConfig DieTopology PortSelect HostAttach HbmMemWire.

Record machine : Type := mkMachine {
  g_die_ports : D2DPortTable; g_d2d_cfg : D2DLinkConfig; g_d2d_links : list D2DLink; g_host_attach : HostAttachTable
}.

(** ** End points *)

Inductive EndpointType : Type := EP_CORE | EP_HOST | EP_MEM | EP_INVALID.
#[export] Instance EndpointType_eq_dec : EqDecision EndpointType.
Proof. solve_decision. Defined.

Definition DecodeEndpointType `{Geometry} (endpoint_id : Z) : EndpointType :=
  if endpoint_id <? 0 then EP_INVALID
  else if endpoint_id <? TOTAL_CORES then EP_CORE
  else
    let host_base := TOTAL_CORES in
    let mem_base := TOTAL_CORES + DIE_COUNT in
    let mem_end := TOTAL_CORES + 2 * DIE_COUNT in
    if (host_base <=? endpoint_id) && (endpoint_id <? mem_base) then EP_HOST
    else if (mem_base <=? endpoint_id) && (endpoint_id <? mem_end) then EP_MEM
    else EP_INVALID.

Definition HostEndpointOfDie `{Geometry} (die_id : Z) : Z := TOTAL_CORES + die_id.
Definition MemEndpointOfDie `{Geometry} (die_id : Z) : Z := TOTAL_CORES + DIE_COUNT + die_id.
Definition DieOfHostEndpoint `{Geometry} (ep : Z) : Z := ep - TOTAL_CORES.
Definition IsHostEndpoint `{Geometry} (ep : Z) : bool := (TOTAL_CORES <=? ep) && (ep <? TOTAL_CORES + DIE_COUNT).

(** ** The next hop inside a die *)

(** (destination, emit_host) *)
Definition ResolveHostAnchor `{Geometry} (a : HostAttachTable) (des pos anchor_core : Z) : result (Z * bool) :=
  THROW runtime_error "HOST routing needs a legal anchor core (message source)"
    WHEN (anchor_core <? 0) || (TOTAL_CORES <=? anchor_core);;
  THROW runtime_error "cross-die HOST: anchor core die != HOST endpoint die"
    WHEN negb (DieOfGlobal anchor_core =? DieOfHostEndpoint des);;
  THROW runtime_error "cross-die HOST endpoint requires D2D routing (unsupported)"
    WHEN negb (DieOfHostEndpoint des =? DieOfGlobal pos);;
  let lane := HostLaneOfCore a anchor_core in
  let tile := HostTileOfLane a lane in
  THROW runtime_error "HOST anchor core has no valid attach lane/tile (illegal mapping)" WHEN (lane <? 0) || (tile <? 0);;
  if pos =? tile then Ok (des, true) else Ok (tile, false).

Definition xy_hop `{Geometry} (des pos : Z) : Directions :=
  let dx := Z.rem des GRID_X in let dy := Z.quot des GRID_X in
  let xx := Z.rem pos GRID_X in let yy := Z.quot pos GRID_X in
  if (dx =? xx) && (dy =? yy) then CENTER
  else if negb (dx =? xx) then (if xx <? dx then EAST else WEST)
  else (if yy <? dy then NORTH else SOUTH).

Definition yx_hop `{Geometry} (des pos : Z) : Directions :=
  let dx := Z.rem des GRID_X in let dy := Z.quot des GRID_X in
  let xx := Z.rem pos GRID_X in let yy := Z.quot pos GRID_X in
  if (dx =? xx) && (dy =? yy) then CENTER
  else if negb (dy =? yy) then (if yy <? dy then NORTH else SOUTH)
  else (if xx <? dx then EAST else WEST).

Definition GetNextHop `{Geometry} (a : HostAttachTable) (des pos anchor_core : Z) : result Directions :=
  if IsHostEndpoint des then
    ResolveHostAnchor a des pos anchor_core ≫= fun r : Z * bool =>
    if r.2 then Ok HOST else Ok (xy_hop r.1 pos)
  else Ok (xy_hop des pos).

Definition GetNextHopReverse `{Geometry} (a : HostAttachTable) (des pos anchor_core : Z) : result Directions :=
  if IsHostEndpoint des then
    ResolveHostAnchor a des pos anchor_core ≫= fun r : Z * bool =>
    if r.2 then Ok HOST else Ok (yx_hop r.1 pos)
  else Ok (yx_hop des pos).

(** ** Between dies *)

Definition ValidatePinnedExit `{Geometry} (M : machine) (exit_port md dd : Z) : result D2DPort :=
  THROW runtime_error "cross-die: pinned exit port out of range"
    WHEN (exit_port <? 0) || (Z.of_nat (length (ports (g_die_ports M))) <=? exit_port);;
  let p := ports (g_die_ports M) !!! Z.to_nat exit_port in
  let D := DieFirstHopDir md dd in
  THROW runtime_error "cross-die: pinned exit is not a C2C port (HOST/MEM impersonation)"
    WHEN negb (bool_decide (role p = ROLE_C2C));;
  THROW runtime_error "cross-die: pinned exit dir != die first-hop direction" WHEN negb (bool_decide (pdir p = D));;
  THROW runtime_error "cross-die: pinned exit violates MVP side==dir" WHEN negb (bool_decide (side p = pdir p));;
  THROW runtime_error "cross-die: pinned exit tile invalid" WHEN (tile p <? 0) || (CORES_PER_DIE <=? tile p);;
  Ok p.

Definition CrossDieSelectExit `{Geometry} (M : machine) (st : v5_state) (at_core des_global src tg sub : Z)
    : result (Z * v5_state) :=
  THROW runtime_error "cross-die: illegal core id"
    WHEN (at_core <? 0) || (TOTAL_CORES <=? at_core) || (des_global <? 0) || (TOTAL_CORES <=? des_global);;
  let md := DieOfGlobal at_core in
  let dd := DieOfGlobal des_global in
  if md =? dd then Ok (-1, st) else
  let D := DieFirstHopDir md dd in
  let src := if src <? 0 then at_core else src in
  SelectPortForFlow (g_die_ports M) (g_d2d_cfg M) st (LocalOfGlobal at_core) D src tg sub md ≫=
    fun '((port, st) : Z * v5_state) =>
  THROW runtime_error "cross-die routing: no C2C port toward die-direction (unreachable)" WHEN port <? 0;;
  ValidatePinnedExit M port md dd ≫= fun _ =>
  Ok (port, st).

Definition CrossDieStep `{Geometry} (M : machine) (des_global pos exit_port : Z) : result Directions :=
  THROW runtime_error "cross-die: illegal core id"
    WHEN (pos <? 0) || (TOTAL_CORES <=? pos) || (des_global <? 0) || (TOTAL_CORES <=? des_global);;
  let md := DieOfGlobal pos in
  let dd := DieOfGlobal des_global in
  if md =? dd then GetNextHop (g_host_attach M) des_global pos (-1) else
  ValidatePinnedExit M exit_port md dd ≫= fun p =>
  let port_tile := md * CORES_PER_DIE + tile p in
  if pos =? port_tile then Ok (pdir p) else GetNextHop (g_host_attach M) port_tile pos (-1).

Definition CrossDieIngressTile `{Geometry} (M : machine) (die exit_port_id : Z) : Z :=
  if (exit_port_id <? 0) || (Z.of_nat (length (ports (g_die_ports M))) <=? exit_port_id) then -1 else
  match List.find (fun l => (local_die l =? die) && (local_port l =? exit_port_id)) (g_d2d_links M) with
  | Some l => remote_die l * CORES_PER_DIE + tile (ports (g_die_ports M) !!! Z.to_nat (remote_port l))
  | None => -1
  end.

Definition SelectCoreMsgExit `{Geometry} (M : machine) (st : v5_state) (src des_core tg sub : Z) : result (Z * v5_state) :=
  THROW runtime_error "pinned core-message routing requires legal source/destination cores"
    WHEN (src <? 0) || (TOTAL_CORES <=? src) || (des_core <? 0) || (TOTAL_CORES <=? des_core);;
  if DieOfGlobal src =? DieOfGlobal des_core then Ok (-1, st)
  else CrossDieSelectExit M st src des_core src tg sub.

(** ** Messages *)

Definition with_exit (m : Msg) (e : Z) : Msg :=
  mkMsg (is_end_ m) (msg_type_ m) (seq_id_ m) (des_ m) (offset_ m) (tag_id_ m) (source_ m) (length_ m) (refill_ m)
    (config_end_ m) (roofline_packets_ m) (flow_packets_ m) (dte_payload_bits_ m) (dte_stream_source_first_ns_ m)
    (dte_stream_source_done_ns_ m) (dte_stream_network_tail_cycles_ m) (subflow_ m) e (data_ m).

Definition PinControlMsgExit `{Geometry} (M : machine) (st : v5_state) (m : Msg) : result (Msg * v5_state) :=
  THROW runtime_error "cross-die control pinning requires a control message" WHEN negb (IsControlMsg m);;
  match DecodeEndpointType (des_ m) with
  | EP_HOST => Ok (with_exit m (-1), st)
  | EP_CORE =>
      SelectCoreMsgExit M st (source_ m) (des_ m) (tag_id_ m) (subflow_ m) ≫= fun '((e, st) : Z * v5_state) =>
      Ok (with_exit m e, st)
  | _ => Err (runtime_error "control message destination is neither a core nor HOST endpoint")
  end.

Definition ControlMsgNextHop `{Geometry} (M : machine) (m : Msg) (pos : Z) : result Directions :=
  THROW runtime_error "ControlMsgNextHop requires a control message" WHEN negb (IsControlMsg m);;
  THROW runtime_error "control routing: illegal router position" WHEN (pos <? 0) || (TOTAL_CORES <=? pos);;
  match DecodeEndpointType (des_ m) with
  | EP_CORE => CrossDieStep M (des_ m) pos (exit_port_ m)
  | EP_HOST => GetNextHop (g_host_attach M) (des_ m) pos (source_ m)
  | _ => Err (runtime_error "control message destination is neither a core nor HOST endpoint")
  end.

Definition DataMsgNextHop `{Geometry} (M : machine) (m : Msg) (pos : Z) : result Directions :=
  THROW runtime_error "DataMsgNextHop rejects control messages" WHEN IsControlMsg m;;
  THROW runtime_error "data routing: illegal router position" WHEN (pos <? 0) || (TOTAL_CORES <=? pos);;
  match DecodeEndpointType (des_ m) with
  | EP_CORE =>
      THROW runtime_error "only DATA may use cross-die data-channel routing in V1"
        WHEN negb (DieOfGlobal pos =? DieOfGlobal (des_ m)) && negb (bool_decide (msg_type_ m = DATA));;
      CrossDieStep M (des_ m) pos (exit_port_ m)
  | EP_HOST => GetNextHop (g_host_attach M) (des_ m) pos (source_ m)
  | _ => Err (runtime_error "data-channel message destination is neither a core nor HOST endpoint")
  end.

(** ** Entering a die *)

(** The counters [g_d2d_repin_total], [g_d2d_repin_same] and [g_d2d_repin_changed]. *)
Record repin_stats : Type := mkRepin { repin_total : Z; repin_same : Z; repin_changed : Z }.

Definition RepinOnC2CIngress `{Geometry} (M : machine) (st : v5_state) (g : repin_stats) (rid payload : Z)
    : result (Z * v5_state * repin_stats) :=
  match DeserializeMsg payload with
  | None => Err (logic_error "message type outside the enumeration")
  | Some m =>
      if negb (bool_decide (DecodeEndpointType (des_ m) = EP_CORE)) then Ok (payload, st, g) else
      let old := exit_port_ m in
      (if DieOfGlobal (des_ m) =? DieOfGlobal rid then Ok (-1, st)
       else CrossDieSelectExit M st rid (des_ m) (source_ m) (tag_id_ m) (subflow_ m)) ≫=
        fun '((repin, st) : Z * v5_state) =>
      let same := repin =? old in
      let g := mkRepin (repin_total g + 1) (repin_same g + b2z same) (repin_changed g + b2z (negb same)) in
      if same then Ok (payload, st, g)
      else SerializeMsg (with_exit m repin) ≫= fun w => Ok (w, st, g)
  end.

(** A flit arriving at router [rid] from direction [i], before it is buffered. *)
Definition receive `{Geometry} (M : machine) (st : v5_state) (g : repin_stats) (rid : Z) (i : Directions) (flit : Z)
    : result (Z * v5_state * repin_stats) :=
  let from_c2c := IsC2CEgressEdge (g_die_ports M) rid i in
  if from_c2c && negb (IsMemWireFlit flit) then RepinOnC2CIngress M st g rid flit else Ok (flit, st, g).

(** ** The wiring *)

(** The router (and its input side) that reads output [d] of router [rid]: the
    neighbour of the mesh, or the far end of the link that leaves on that side;
    the other outputs at the edge of a die have no reader.  A link is a wire here: what it does to
    the order and the timing of packets is in the files on links, and the tail cycles that the
    behavioural link writes into a message are no part of its route. *)
Definition link_at `{Geometry} (M : machine) (rid : Z) (d : Directions) (l : D2DLink) : bool :=
  let pa := ports (g_die_ports M) !!! Z.to_nat (local_port l) in
  bool_decide (side pa = d) && (local_die l * CORES_PER_DIE + tile pa =? rid).
Definition reader `{Geometry} (M : machine) (rid : Z) (d : Directions) : option (Z * Directions) :=
  let nb := OpenMeshNeighbor rid d in
  if 0 <=? nb then Some (nb, GetOpposeDirection d) else
  match List.find (link_at M rid d) (g_d2d_links M) with
  | Some l =>
      let pb := ports (g_die_ports M) !!! Z.to_nat (remote_port l) in
      Some (remote_die l * CORES_PER_DIE + tile pb, side pb)
  | None => None
  end.

(** ** Coordinates of a global identifier *)

Section mesh.
Context `{G : Geometry} (Hgeo : ValidateAddressSpace = Ok tt).

Lemma global_coords g : 0 <= g < TOTAL_CORES ->
  Z.rem g GRID_X = Z.rem (LocalOfGlobal g) GRID_X /\
  Z.quot g GRID_X = DieOfGlobal g * GRID_Y + Z.quot (LocalOfGlobal g) GRID_X.
Proof using Hgeo.
  intros Hg. destruct (geo_facts Hgeo) as (Hx & Hy & _ & _ & Hc & _).
  destruct (die_local Hgeo g Hg) as (Hd & Hl & Hsplit).
  destruct (index_split GRID_X GRID_Y (LocalOfGlobal g) Hx Hl) as (Hr & Hq & El).
  set (x := Z.rem (LocalOfGlobal g) GRID_X) in *. set (y := Z.quot (LocalOfGlobal g) GRID_X) in *.
  assert (g = (DieOfGlobal g * GRID_Y + y) * GRID_X + x) as E.
  { rewrite Hsplit at 1. unfold GlobalId, CORES_PER_DIE. rewrite El. lia. }
  destruct (index_join GRID_X x (DieOfGlobal g * GRID_Y + y)) as [E1 E2]; [done|nia|].
  rewrite <- E in E1, E2. done.
Qed.

Lemma tile_dist_local a b : 0 <= a < TOTAL_CORES -> 0 <= b < TOTAL_CORES -> DieOfGlobal a = DieOfGlobal b ->
  tile_dist a b = tile_dist (LocalOfGlobal a) (LocalOfGlobal b).
Proof using Hgeo.
  intros Ha Hb Hd. unfold tile_dist. destruct (global_coords a Ha) as [-> ->]. destruct (global_coords b Hb) as [-> ->].
  rewrite Hd. lia.
Qed.

Definition radius : Z := GRID_X + GRID_Y - 1.

Lemma tile_dist_radius a b : 0 <= a < TOTAL_CORES -> 0 <= b < TOTAL_CORES -> DieOfGlobal a = DieOfGlobal b ->
  0 <= tile_dist a b < radius.
Proof using Hgeo.
  intros Ha Hb Hd. rewrite tile_dist_local by done. destruct (geo_facts Hgeo) as (Hx & Hy & _).
  destruct (die_local Hgeo a Ha) as (_ & Hla & _). destruct (die_local Hgeo b Hb) as (_ & Hlb & _).
  destruct (index_split GRID_X GRID_Y _ Hx Hla) as (? & ? & _).
  destruct (index_split GRID_X GRID_Y _ Hx Hlb) as (? & ? & _). unfold tile_dist, radius. lia.
Qed.

(** A position and its coordinates. *)
Lemma OpenMeshNeighbor_spec g d : 0 <= g < TOTAL_CORES -> is_side d = true ->
  let x := Z.rem (LocalOfGlobal g) GRID_X in let y := Z.quot (LocalOfGlobal g) GRID_X in
  let x' := x + (match d with EAST => 1 | WEST => -1 | _ => 0 end) in
  let y' := y + (match d with NORTH => 1 | SOUTH => -1 | _ => 0 end) in
  if IsDieEdge (LocalOfGlobal g) d then OpenMeshNeighbor g d = -1
  else 0 <= x' < GRID_X /\ 0 <= y' < GRID_Y /\ OpenMeshNeighbor g d = GlobalId (DieOfGlobal g) (y' * GRID_X + x').
Proof using Hgeo.
  intros Hg Hs x y x' y'. destruct (geo_facts Hgeo) as (Hx & Hy & _).
  destruct (die_local Hgeo g Hg) as (_ & Hl & _). destruct (index_split GRID_X GRID_Y _ Hx Hl) as (Hr & Hq & _).
  fold x in Hr. fold y in Hq. unfold OpenMeshNeighbor. fold (LocalOfGlobal g) (DieOfGlobal g).
  destruct (IsDieEdge (LocalOfGlobal g) d) eqn:E; [done|]. fold x y. unfold GlobalId, x', y'.
  unfold IsDieEdge in E. fold x y in E. destruct d; try done; apply Z.eqb_neq in E;
    (split; [lia|]); (split; [lia|]); f_equal; lia.
Qed.

Lemma mesh_step g d : 0 <= g < TOTAL_CORES -> is_side d = true -> 0 <= OpenMeshNeighbor g d ->
  let g' := OpenMeshNeighbor g d in
  0 <= g' < TOTAL_CORES /\ DieOfGlobal g' = DieOfGlobal g /\
  Z.rem (LocalOfGlobal g') GRID_X = Z.rem (LocalOfGlobal g) GRID_X + (match d with EAST => 1 | WEST => -1 | _ => 0 end) /\
  Z.quot (LocalOfGlobal g') GRID_X = Z.quot (LocalOfGlobal g) GRID_X + (match d with NORTH => 1 | SOUTH => -1 | _ => 0 end).
Proof using Hgeo.
  intros Hg Hs Hn g'. pose proof (OpenMeshNeighbor_spec g d Hg Hs) as Hspec. cbv zeta in Hspec.
  destruct (IsDieEdge _ _); [lia|]. destruct Hspec as (Hx & Hy & E). destruct (die_local Hgeo g Hg) as (Hd & _ & _).
  pose proof (index_bound GRID_X GRID_Y _ _ Hx Hy) as Hb.
  destruct (global_id_split Hgeo (DieOfGlobal g) _ Hd Hb) as (Hr & E1 & E2). unfold g'. rewrite E.
  split; [done|]. split; [done|]. rewrite E2. destruct (geo_facts Hgeo) as (HX & HY & _).
  apply index_join; lia.
Qed.

(** The neighbour is not at the edge that faces back. *)
Lemma mesh_step_back g d : 0 <= g < TOTAL_CORES -> is_side d = true -> 0 <= OpenMeshNeighbor g d ->
  IsDieEdge (LocalOfGlobal (OpenMeshNeighbor g d)) (GetOpposeDirection d) = false.
Proof using Hgeo.
  intros Hg Hs Hn. destruct (mesh_step g d Hg Hs Hn) as (_ & _ & Hx & Hy). cbv zeta in *.
  destruct (geo_facts Hgeo) as (HX & HY & _). destruct (die_local Hgeo g Hg) as (_ & Hl & _).
  destruct (index_split GRID_X GRID_Y _ HX Hl) as (Hr & Hq & _).
  unfold IsDieEdge. rewrite Hx, Hy. destruct d; try done; apply Z.eqb_neq; cbn; lia.
Qed.

(** Dimension-order routing inside a die takes one step nearer. *)
Lemma xy_hop_spec des g : 0 <= g < TOTAL_CORES -> 0 <= des < TOTAL_CORES -> DieOfGlobal des = DieOfGlobal g ->
  (xy_hop des g = CENTER /\ des = g) \/
  (des <> g /\ is_side (xy_hop des g) = true /\ 0 <= OpenMeshNeighbor g (xy_hop des g) /\
   tile_dist (OpenMeshNeighbor g (xy_hop des g)) des = tile_dist g des - 1).
Proof using Hgeo.
  intros Hg Hdes Hd. destruct (geo_facts Hgeo) as (HX & HY & _).
  destruct (die_local Hgeo g Hg) as (_ & Hl & Es). destruct (die_local Hgeo des Hdes) as (_ & Hld & Ed).
  destruct (index_split GRID_X GRID_Y _ HX Hl) as (Hr & Hq & El).
  destruct (index_split GRID_X GRID_Y _ HX Hld) as (Hrd & Hqd & Eld).
  assert (forall D, is_side D = true -> IsDieEdge (LocalOfGlobal g) D = false ->
    Z.abs (Z.rem (LocalOfGlobal g) GRID_X + (match D with EAST => 1 | WEST => -1 | _ => 0 end) - Z.rem (LocalOfGlobal des) GRID_X) +
    Z.abs (Z.quot (LocalOfGlobal g) GRID_X + (match D with NORTH => 1 | SOUTH => -1 | _ => 0 end) - Z.quot (LocalOfGlobal des) GRID_X)
      = tile_dist (LocalOfGlobal g) (LocalOfGlobal des) - 1 ->
    0 <= OpenMeshNeighbor g D /\ tile_dist (OpenMeshNeighbor g D) des = tile_dist g des - 1) as Hstep.
  { intros D HD HE Hdist. pose proof (OpenMeshNeighbor_spec g D Hg HD) as Hs. cbv zeta in Hs. rewrite HE in Hs.
    destruct Hs as (Hx & Hy & E). destruct (die_local Hgeo g Hg) as (Hdg & _ & _).
    assert (0 <= OpenMeshNeighbor g D) as Hn.
    { rewrite E. apply (global_id_split Hgeo); [done|]. apply index_bound; lia. }
    split; [done|]. destruct (mesh_step g D Hg HD Hn) as (Hb & Hdie & E1 & E2). cbv zeta in *.
    rewrite (tile_dist_local g des), (tile_dist_local (OpenMeshNeighbor g D) des) by (done || congruence). unfold tile_dist at 1. rewrite E1, E2. exact Hdist. }
  unfold xy_hop. destruct (global_coords g Hg) as [-> ->]. destruct (global_coords des Hdes) as [-> ->]. rewrite Hd.
  unfold tile_dist in Hstep. unfold IsDieEdge in Hstep.
  destruct (Z.eqb_spec (Z.rem (LocalOfGlobal des) GRID_X) (Z.rem (LocalOfGlobal g) GRID_X)) as [Ex|Ex]; cbn [andb negb].
  - destruct (Z.eqb_spec (DieOfGlobal g * GRID_Y + Z.quot (LocalOfGlobal des) GRID_X)
                         (DieOfGlobal g * GRID_Y + Z.quot (LocalOfGlobal g) GRID_X)) as [Ey|Ey].
    + left. split; [done|]. rewrite Ed, Es, Hd. f_equal. rewrite El, Eld, Ex. f_equal. f_equal. lia.
    + right. split; [intros ->; lia|]. destruct (Z.ltb_spec (DieOfGlobal g * GRID_Y + Z.quot (LocalOfGlobal g) GRID_X)
        (DieOfGlobal g * GRID_Y + Z.quot (LocalOfGlobal des) GRID_X)); (split; [done|]); apply Hstep;
        cbn beta iota; first [done | apply Z.eqb_neq; lia | lia].
  - right. split; [intros ->; lia|]. destruct (Z.ltb_spec (Z.rem (LocalOfGlobal g) GRID_X) (Z.rem (LocalOfGlobal des) GRID_X));
      (split; [done|]); apply Hstep; cbn beta iota; first [done | apply Z.eqb_neq; lia | lia].
Qed.
End mesh.

(** ** From die to die *)

Record machine_wf `{Geometry} (M : machine) : Prop := {
  mw_active : active (g_die_ports M) = true;
  mw_ports : table_wf (g_die_ports M);
  mw_links : BuildD2DLinks (g_die_ports M) = Ok (g_d2d_links M);
  mw_attach : attach_wf (g_host_attach M)
}.

Section dies.
Context `{G : Geometry} (Hgeo : ValidateAddressSpace = Ok tt) (M : machine) (Hwf : machine_wf M).
Local Notation t := (g_die_ports M).

(** The first hop leads to a neighbour one die nearer. *)
Lemma first_hop md dd : 0 <= md < DIE_COUNT -> 0 <= dd < DIE_COUNT -> md <> dd ->
  let D := DieFirstHopDir md dd in
  is_side D = true /\ 0 <= DieNeighbor md D < DIE_COUNT /\ DieManhattan (DieNeighbor md D) dd = DieManhattan md dd - 1.
Proof using Hgeo.
  intros Hm Hd Hne D. destruct (geo_facts Hgeo) as (_ & _ & HX & HY & _).
  destruct (index_split DIE_X DIE_Y md HX Hm) as (Hr & Hq & Em). destruct (index_split DIE_X DIE_Y dd HX Hd) as (Hrd & Hqd & Ed).
  assert (is_side D = true /\ 0 <= DieNeighbor md D) as [Hs Hn].
  { unfold D, DieFirstHopDir, DieNeighbor. set (x := Z.rem md DIE_X) in *. set (y := Z.quot md DIE_X) in *.
    set (x' := Z.rem dd DIE_X) in *. set (y' := Z.quot dd DIE_X) in *.
    destruct (Z.eqb_spec x' x) as [Ex|Ex]; cbn [negb]; [destruct (Z.eqb_spec y' y) as [Ey|Ey]; cbn [negb]|].
    - exfalso. apply Hne. rewrite Em, Ed. by rewrite Ex, Ey.
    - destruct (Z.ltb_spec y y'); (split; [done|]); cbv zeta; destruct (_ || _ || _ || _) eqn:E; try nia;
        exfalso; repeat (apply orb_true_iff in E as [E|E]); apply Z.ltb_lt in E || apply Z.leb_le in E; lia.
    - destruct (Z.ltb_spec x x'); (split; [done|]); cbv zeta; destruct (_ || _ || _ || _) eqn:E; try nia;
        exfalso; repeat (apply orb_true_iff in E as [E|E]); apply Z.ltb_lt in E || apply Z.leb_le in E; lia. }
  destruct (DieNeighbor_some Hgeo md D Hm Hn) as (_ & Hb & E1 & E2). split; [done|]. split; [done|].
  unfold DieManhattan. rewrite E1, E2. unfold D, DieFirstHopDir in *.
  set (x := Z.rem md DIE_X) in *. set (y := Z.quot md DIE_X) in *.
  set (x' := Z.rem dd DIE_X) in *. set (y' := Z.quot dd DIE_X) in *.
  destruct (Z.eqb_spec x' x) as [Ex|Ex]; cbn [negb] in *; [destruct (Z.eqb_spec y' y) as [Ey|Ey]; cbn [negb] in *|];
    [done|destruct (Z.ltb_spec y y')|destruct (Z.ltb_spec x x')];
    repeat match goal with |- context [?a <? ?b] => destruct (Z.ltb_spec a b) end; lia.
Qed.

Lemma DieManhattan_nonneg a b : 0 <= DieManhattan a b /\ DieManhattan a a = 0.
Proof using.
  unfold DieManhattan. split; repeat match goal with |- context [?a <? ?b] => destruct (Z.ltb_spec a b) end; lia.
Qed.

(** A direction with a neighbour has C2C ports. *)
Lemma ports_toward md D : 0 <= md < DIE_COUNT -> 0 <= DieNeighbor md D -> PortsForDir t D <> [].
Proof using Hgeo Hwf.
  intros Hm Hn. destruct (geo_facts Hgeo) as (_ & _ & HX & HY & _).
  destruct (DieNeighbor_some Hgeo md D Hm Hn) as (Hs & Hb & E1 & E2).
  destruct (index_split DIE_X DIE_Y md HX Hm) as (Hr & Hq & _).
  destruct (index_split DIE_X DIE_Y _ HX Hb) as (Hr' & Hq' & _).
  pose proof (tw_valid _ (mw_ports _ Hwf)) as Hv. unfold ValidateDiePorts in Hv. rewrite (mw_active _ Hwf) in Hv.
  cbn [negb] in Hv. inv_ok. rewrite E1 in Hr'. rewrite E2 in Hq'. intros E. destruct D; try done.
  - rewrite E in Hguard. destruct (Z.ltb_spec 1 DIE_X); [|lia]. cbn in Hguard. by rewrite orb_true_r in Hguard.
  - rewrite E in Hguard. destruct (Z.ltb_spec 1 DIE_X); [done|lia].
  - rewrite E in Hguard0. destruct (Z.ltb_spec 1 DIE_Y); [done|lia].
  - rewrite E in Hguard0. destruct (Z.ltb_spec 1 DIE_Y); [|lia]. cbn in Hguard0. by rewrite orb_true_r in Hguard0.
Qed.

(** What a port of the direction is. *)
Lemma exit_port_spec D e : e ∈ PortsForDir t D ->
  exists p, ports t !!! Z.to_nat e = p /\ p ∈ ports t /\ port_id p = e /\ role p = ROLE_C2C /\ pdir p = D /\ side p = D /\
    is_side D = true /\ 0 <= e < Z.of_nat (length (ports t)) /\ 0 <= tile p < CORES_PER_DIE /\ IsDieEdge (tile p) D = true.
Proof using Hwf.
  intros He. destruct (PortsForDir_port t (mw_ports _ Hwf) D e He) as (Hb & p & Hl & Hid & Hr & Hd & Hs).
  apply list_elem_of_lookup_2 in Hl as Hp. destruct (port_at t (tw_ports _ (mw_ports _ Hwf)) p Hp) as [Hw _].
  exists p. rewrite (list_lookup_total_correct _ _ _ Hl). pose proof (pw_dir _ _ Hw) as Hsd. rewrite Hd in Hsd.
  pose proof (pw_edge _ _ Hw) as He'. rewrite <- Hsd in He'. split_and!; try done; try apply Hw; lia.
Qed.

Lemma pinned_ok e md dd : e ∈ PortsForDir t (DieFirstHopDir md dd) ->
  ValidatePinnedExit M e md dd = Ok (ports t !!! Z.to_nat e).
Proof using Hwf.
  intros (p & E & Hp & Hid & Hr & Hd & Hs & _ & Hb & Ht & _)%exit_port_spec. unfold ValidatePinnedExit. rewrite E.
  rewrite !throw_bind_false; [done|..].
  - apply orb_false_iff; split; lia.
  - by rewrite Hs, Hd, bool_decide_eq_true_2.
  - by rewrite Hd, bool_decide_eq_true_2.
  - by rewrite Hr, bool_decide_eq_true_2.
  - apply orb_false_iff; split; lia.
Qed.

(** An exit can be selected wherever the packet is, in every reachable state. *)
Lemma select_exit_ok st at_ des src tg sub : v5_wf t st -> 0 <= at_ < TOTAL_CORES -> 0 <= des < TOTAL_CORES ->
  0 <= sub <= 3 -> DieOfGlobal at_ <> DieOfGlobal des ->
  exists e st', CrossDieSelectExit M st at_ des src tg sub = Ok (e, st') /\ v5_wf t st' /\
    e ∈ PortsForDir t (DieFirstHopDir (DieOfGlobal at_) (DieOfGlobal des)).
Proof using Hgeo Hwf.
  intros Hst Ha Hd Hsub Hne. destruct (die_local Hgeo at_ Ha) as (Hm & Hl & _). destruct (die_local Hgeo des Hd) as (Hdd & _ & _).
  destruct (first_hop _ _ Hm Hdd Hne) as (Hs & Hn & _). cbv zeta in *.
  unfold CrossDieSelectExit. rewrite throw_bind_false by (repeat (apply orb_false_iff; split); lia). cbv zeta.
  destruct (Z.eqb_spec (DieOfGlobal at_) (DieOfGlobal des)) as [|_]; [done|].
  destruct (SelectPortForFlow_ok Hgeo t (mw_ports _ Hwf) (g_d2d_cfg M) st (LocalOfGlobal at_)
    (DieFirstHopDir (DieOfGlobal at_) (DieOfGlobal des)) (if src <? 0 then at_ else src) tg sub (DieOfGlobal at_) Hst)
    as (e & st' & E & He & Hst' & _); [done|done| |apply (ports_toward _ _ Hm); lia|].
  - unfold die_of_flow. destruct (Z.ltb_spec (DieOfGlobal at_) 0); [lia|done].
  - rewrite E. cbn [mbind result_bind]. destruct (exit_port_spec _ _ He) as (p & _ & _ & _ & _ & _ & _ & _ & Hb & _).
    rewrite throw_bind_false by lia. rewrite pinned_ok by done. by exists e, st'.
Qed.

Lemma is_link_local k : is_link t k -> exists p, p ∈ ports t /\ local_port k = port_id p /\ 0 <= local_die k < DIE_COUNT.
Proof using. intros [d p m Hd Hp _ _ _ _ _]. by exists p. Qed.

(** The directed link of an exit port: the only one of its die and port. *)
Lemma exit_directed md D e : 0 <= md < DIE_COUNT -> 0 <= DieNeighbor md D -> e ∈ PortsForDir t D ->
  exists m k, m ∈ ports t /\ mirrors (ports t !!! Z.to_nat e) m = true /\ k ∈ g_d2d_links M /\
    local_die k = md /\ local_port k = e /\ remote_die k = DieNeighbor md D /\ ports t !!! Z.to_nat (remote_port k) = m /\
    (forall x, In x (g_d2d_links M) -> local_die x = md -> local_port x = e -> x = k) /\
    (forall x, In x (g_d2d_links M) -> is_link t x).
Proof using Hgeo Hwf.
  intros Hm Hn He. destruct (exit_port_spec D e He) as (q & -> & Hp & Hid & Hr & Hd & _).
  pose proof (tw_ports _ (mw_ports _ Hwf)) as Hports. pose proof (mw_links _ Hwf) as Hbuilt.
  rewrite (BuildD2DLinks_built Hgeo t Hports (mw_active _ Hwf)) in Hbuilt.
  destruct (built_links t Hports _ Hbuilt) as [Hlinks _].
  assert (connectable t md q) as Hc.
  { apply (built_ok t Hports []); [by rewrite Hbuilt|lia|done]. }
  rewrite <- Hd in Hn. destruct (Hc Hr Hn) as (m & Hmp & Hmir & Hcomp).
  pose proof (is_link_intro t md q m Hm Hp Hmp Hr Hmir Hn Hcomp) as Hl. rewrite Hd in Hl.
  set (k := mkLink _ _ _ _ _ _ _ _) in Hl. destruct (port_at t Hports m Hmp) as [_ Hlm].
  exists m, k. split; [done|]. split; [done|]. split; [by apply Hlinks|]. split; [done|]. split; [done|]. split; [done|].
  split; [by apply list_lookup_total_correct|]. split; intros x Hx; apply list_elem_of_In, Hlinks in Hx; [|done].
  intros E1 E2. apply (is_link_functional t Hports x k Hx Hl); cbn; congruence.
Qed.

(** The link of an exit port, found by the wiring and by [CrossDieIngressTile]. *)
Lemma exit_link md D e : 0 <= md < DIE_COUNT -> 0 <= DieNeighbor md D -> e ∈ PortsForDir t D ->
  let p := ports t !!! Z.to_nat e in
  exists m, m ∈ ports t /\ mirrors p m = true /\ side m = OppositeSide D /\ role m = ROLE_C2C /\ 0 <= tile m < CORES_PER_DIE /\
    reader M (GlobalId md (tile p)) D = Some (GlobalId (DieNeighbor md D) (tile m), side m) /\
    CrossDieIngressTile M md e = GlobalId (DieNeighbor md D) (tile m).
Proof using Hgeo Hwf.
  intros Hm Hn He p. destruct (exit_port_spec D e He) as (q & Eq & Hp & Hid & Hr & Hd & Hs & HsD & Hb & Ht & Hedge).
  pose proof (tw_ports _ (mw_ports _ Hwf)) as Hports.
  destruct (exit_directed md D e Hm Hn He) as (m & k & Hmp & Hmir & Hk & Ekd & Ekp & Ekr & Em & Huniq & Hlinks). rewrite Eq in Hmir.
  assert (p = q) as -> by done. clear Eq.
  pose proof Hmir as (Hrm & Hsm & _ & _)%mirrors_spec. rewrite Hs in Hsm. destruct (port_at t Hports m Hmp) as [Hwm Hlm].
  exists m. split; [done|]. split; [done|]. split; [done|]. split; [done|]. split; [apply Hwm|]. split.
  - unfold reader. destruct (global_id_split Hgeo md (tile q) Hm Ht) as (Hg & E1 & E2).
    pose proof (OpenMeshNeighbor_spec Hgeo _ D Hg HsD) as Hnb. cbv zeta in Hnb. rewrite E2, Hedge in Hnb. rewrite Hnb.
    cbn [Z.leb Z.compare]. destruct (List.find _ _) as [x|] eqn:Ef.
    + pose proof Ef as [Hx Hat]%find_some. assert (x = k) as ->; [|by rewrite Em, Ekr].
      pose proof Hx as Hx'. apply Hlinks, is_link_local in Hx' as (p' & Hp' & Hid' & Hd').
      unfold link_at in Hat. rewrite Hid' in Hat. destruct (port_at t Hports p' Hp') as [Hw' Hl'].
      rewrite (list_lookup_total_correct _ _ _ Hl') in Hat. apply andb_prop in Hat as [Hside Hat].
      apply bool_decide_eq_true in Hside. apply Z.eqb_eq in Hat. fold (GlobalId (local_die x) (tile p')) in Hat.
      destruct (global_id_split Hgeo (local_die x) (tile p') Hd' (pw_tile _ _ Hw')) as (_ & E3 & E4).
      rewrite Hat, E1 in E3. rewrite Hat, E2 in E4.
      apply Huniq; [done|done|]. rewrite Hid', <- Hid. f_equal. apply (port_by_position t Hports); [done|done|].
      unfold position, PerpCoord. rewrite Hside, Hs, E4. done.
    + exfalso. apply list_elem_of_In in Hk. pose proof (find_none _ _ Ef k Hk) as Hno. unfold link_at in Hno.
      rewrite Ekp, Ekd, <- Hid in Hno.
      destruct (port_at t Hports q Hp) as [_ Hlq]. rewrite (list_lookup_total_correct _ _ _ Hlq) in Hno.
      rewrite Hs, bool_decide_eq_true_2 in Hno by done. unfold GlobalId in Hno. by rewrite Z.eqb_refl in Hno.
  - unfold CrossDieIngressTile. destruct (_ || _) eqn:Eb; [exfalso; apply orb_true_iff in Eb as [Eb|Eb];
      apply Z.ltb_lt in Eb || apply Z.leb_le in Eb; lia|].
    destruct (List.find _ _) as [x|] eqn:Ef.
    + apply find_some in Ef as [Hx Hat]. split_guards. assert (x = k) as -> by by apply Huniq. by rewrite Em, Ekr.
    + exfalso. apply list_elem_of_In in Hk. pose proof (find_none _ _ Ef k Hk) as Hno. cbn in Hno.
      by rewrite Ekd, Ekp, !Z.eqb_refl in Hno.
Qed.
End dies.

(** ** Messages in flight *)

(** A message that its flit carries unchanged. *)
Definition flit_msg (m : Msg) : Prop := msg_typed m /\ representable m /\ sendable m.

Lemma flit_msg_decode m : flit_msg m -> exists w, SerializeMsg m = Ok w /\ DeserializeMsg w = Some m.
Proof.
  intros (Ht & Hr & Hs). pose proof Hs as (_ & _ & Hw). apply is_ok_true in Hw as [wd Hwd].
  assert (SerializeMsg m = Ok (flit (msg_values m wd))) as E by (apply SerializeMsg_flit; split; [done|]; by exists wd).
  exists (flit (msg_values m wd)). split; [done|].
  destruct (msg_wire_decode m _ Ht E) as (wd' & Hwd' & _ & ->). f_equal. rewrite Hwd in Hwd'. simplify_eq.
  apply on_wire_id; [|done]. by apply representable_data.
Qed.

Lemma flit_msg_with_exit m e : flit_msg m -> -1 <= e < 2 ^ 16 - 1 -> flit_msg (with_exit m e).
Proof.
  intros (Ht & Hr & Hs) He. destruct m. unfold flit_msg, with_exit in *. cbn in *. split; [|split; [|done]].
  - unfold msg_typed in *. cbn in *. destruct Ht as (? & _ & _ & ?). split; [done|]. unfold in_int, INT_MIN, INT_MAX.
    split; [lia|]. split; [lia|done].
  - unfold representable in *. cbn in *. destruct Hr as ((? & ? & ? & ? & ? & ? & _) & ?). split; [|done]. split_and!; (done || lia).
Qed.

Lemma with_exit_same m : with_exit m (exit_port_ m) = m.
Proof. by destruct m. Qed.

Lemma with_exit_twice m e e' : with_exit (with_exit m e) e' = with_exit m e'.
Proof. done. Qed.

Definition next_hop `{Geometry} (M : machine) (m : Msg) (rid : Z) : result Directions :=
  if IsControlMsg m then ControlMsgNextHop M m rid else DataMsgNextHop M m rid.

(** One hop of a flit: the router chooses an output, the reader of that output
    receives the flit.  The selection state is any state the other traffic may
    have produced. *)
Inductive hop `{Geometry} (M : machine) : Z * Z -> Z * Z -> Prop :=
  | hop_intro rid w m d rid' i st g w' st' g' :
      DeserializeMsg w = Some m -> next_hop M m rid = Ok d -> is_side d = true -> reader M rid d = Some (rid', i) ->
      v5_reachable (g_die_ports M) (g_d2d_cfg M) st -> receive M st g rid' i w = Ok (w', st', g') ->
      hop M (rid, w) (rid', w').

(** [n] hops, [c] of them to another die. *)
Inductive travel `{Geometry} (M : machine) : nat -> nat -> Z * Z -> Z * Z -> Prop :=
  | travel_nil s : travel M 0 0 s s
  | travel_cons s s' s'' n c : hop M s s' -> travel M n c s' s'' ->
      travel M (S n) (if decide (DieOfGlobal s.1 = DieOfGlobal s'.1) then c else S c) s s''.

Section flight.
Context `{G : Geometry} (Hgeo : ValidateAddressSpace = Ok tt) (M : machine) (Hwf : machine_wf M).
Local Notation t := (g_die_ports M).

(** Ports of a machine with several dies fit the exit field of the flit. *)
Lemma exit_encodable D e : 2 <= DIE_COUNT -> e ∈ PortsForDir t D -> -1 <= e < 2 ^ 16 - 1.
Proof using Hgeo Hwf.
  intros Hd (p & _ & _ & _ & _ & _ & _ & _ & Hb & _)%exit_port_spec; [|done].
  pose proof (tw_ports _ (mw_ports _ Hwf)) as Hports.
  destruct (geo_facts Hgeo) as (HX & HY & _ & _ & HC & _ & Hspace & _).
  assert (length (position <$> ports t) <= length all_positions)%nat as Hlen.
  { apply submseteq_length, NoDup_submseteq; [apply Hports|]. intros x (q & -> & Hq)%list_elem_of_fmap.
    destruct (port_at t Hports q Hq) as [Hw _]. pose proof (pw_perp _ _ Hw). pose proof (pw_side _ _ Hw) as Hs.
    unfold all_positions, position. apply list_elem_of_In, in_concat. exists (edge_positions (side q)).
    split; apply list_elem_of_In.
    - apply list_elem_of_fmap_2. unfold side_dirs. rewrite !elem_of_cons. by destruct (side q); try done; tauto.
    - apply list_elem_of_fmap_2, elem_of_seqZ. lia. }
  rewrite length_fmap in Hlen. unfold all_positions, side_dirs, edge_positions in Hlen.
  cbn [fmap list_fmap concat] in Hlen. rewrite !length_app, !length_fmap, !length_seqZ in Hlen. cbn [length] in Hlen.
  unfold EdgeLen in Hlen. repeat (case_bool_decide; try done). cbn [orb] in Hlen.
  assert (GRID_X + GRID_Y <= CORES_PER_DIE + 1) by (unfold CORES_PER_DIE; nia).
  assert (2 * CORES_PER_DIE + 4 <= 65536) by (unfold TOTAL_CORES in Hspace; nia). lia.
Qed.

Context (m0 : Msg) (Hm0 : flit_msg m0) (Hflow : is_flow (msg_type_ m0) = true) (Hdes : 0 <= des_ m0 < TOTAL_CORES).
Local Notation des := (des_ m0).

Record in_flight (rid w e : Z) : Prop := {
  fl_rid : 0 <= rid < TOTAL_CORES;
  fl_exit : -1 <= e < 2 ^ 16 - 1;
  fl_flit : SerializeMsg (with_exit m0 e) = Ok w;
  fl_pinned : DieOfGlobal rid <> DieOfGlobal des -> e ∈ PortsForDir t (DieFirstHopDir (DieOfGlobal rid) (DieOfGlobal des))
}.

Lemma fl_decode rid w e : in_flight rid w e -> DeserializeMsg w = Some (with_exit m0 e).
Proof using Hm0.
  intros Hf. destruct (flit_msg_decode (with_exit m0 e)) as (w' & E & Hd); [apply flit_msg_with_exit, Hf; done|].
  rewrite (fl_flit _ _ _ Hf) in E. by simplify_eq.
Qed.

(** The tile of its die that the flit heads for. *)
Definition target (rid e : Z) : Z :=
  if DieOfGlobal rid =? DieOfGlobal des then des else GlobalId (DieOfGlobal rid) (tile (ports t !!! Z.to_nat e)).
Definition distance (rid e : Z) : Z :=
  DieManhattan (DieOfGlobal rid) (DieOfGlobal des) * radius + tile_dist rid (target rid e).

Lemma target_spec rid w e : in_flight rid w e ->
  0 <= target rid e < TOTAL_CORES /\ DieOfGlobal (target rid e) = DieOfGlobal rid.
Proof using Hgeo Hwf Hdes.
  intros Hf. unfold target. destruct (Z.eqb_spec (DieOfGlobal rid) (DieOfGlobal des)) as [E|E]; [done|].
  destruct (exit_port_spec M Hwf _ _ (fl_pinned _ _ _ Hf E)) as (p & -> & _ & _ & _ & _ & _ & _ & _ & Ht & _).
  destruct (die_local Hgeo rid (fl_rid _ _ _ Hf)) as (Hd & _ & _).
  by destruct (global_id_split Hgeo _ _ Hd Ht) as (? & ? & _).
Qed.

Lemma des_core : DecodeEndpointType des = EP_CORE /\ forall x, 0 <= x < TOTAL_CORES -> IsHostEndpoint x = false.
Proof using Hdes.
  split.
  - unfold DecodeEndpointType. destruct (Z.ltb_spec des 0); [lia|]. destruct (Z.ltb_spec des TOTAL_CORES); [done|lia].
  - intros x Hx. unfold IsHostEndpoint. destruct (Z.leb_spec TOTAL_CORES x); [lia|done].
Qed.

(** The routing decision: straight to the target; at the exit port, out of the die. *)
Lemma next_hop_spec rid w e : in_flight rid w e ->
  next_hop M (with_exit m0 e) rid =
    Ok (if (DieOfGlobal rid =? DieOfGlobal des) || negb (rid =? target rid e) then xy_hop (target rid e) rid
        else DieFirstHopDir (DieOfGlobal rid) (DieOfGlobal des)).
Proof using Hgeo Hwf Hflow Hdes.
  intros Hf. destruct (target_spec rid w e Hf) as [Ht Htd]. pose proof (fl_rid _ _ _ Hf) as Hrid.
  destruct des_core as [Hdc Hnh].
  assert (CrossDieStep M des rid e = Ok (if (DieOfGlobal rid =? DieOfGlobal des) || negb (rid =? target rid e) then xy_hop (target rid e) rid
        else DieFirstHopDir (DieOfGlobal rid) (DieOfGlobal des))) as Hstep.
  { unfold CrossDieStep. rewrite throw_bind_false by (repeat (apply orb_false_iff; split); lia). cbv zeta.
    unfold target in *. destruct (Z.eqb_spec (DieOfGlobal rid) (DieOfGlobal des)) as [E|E]; cbn [orb].
    - unfold GetNextHop. by rewrite Hnh.
    - pose proof (fl_pinned _ _ _ Hf E) as Hp. rewrite (pinned_ok M Hwf e _ _ Hp). cbn [mbind result_bind].
      destruct (exit_port_spec M Hwf _ _ Hp) as (p & Ep & _ & _ & _ & Hd & _). rewrite Ep in *. fold (GlobalId (DieOfGlobal rid) (tile p)).
      destruct (Z.eqb_spec rid (GlobalId (DieOfGlobal rid) (tile p))); cbn [negb]; [by rewrite Hd|].
      unfold GetNextHop. by rewrite Hnh. }
  unfold next_hop, ControlMsgNextHop, DataMsgNextHop.
  change (IsControlMsg (with_exit m0 e)) with (IsControlMsg m0). change (des_ (with_exit m0 e)) with des.
  change (exit_port_ (with_exit m0 e)) with e. change (msg_type_ (with_exit m0 e)) with (msg_type_ m0).
  rewrite Hdc. destruct (IsControlMsg m0) eqn:Ec; cbn [negb].
  - rewrite !throw_bind_false by (done || (apply orb_false_iff; split; lia)). done.
  - rewrite !throw_bind_false; [done|..]; try done.
    + assert (msg_type_ m0 = DATA) as ->; [|by rewrite andb_false_r].
      unfold IsControlMsg in Ec. unfold is_flow in Hflow. by destruct (msg_type_ m0).
    + apply orb_false_iff; split; lia.
Qed.

Context (Hsub : 0 <= subflow_ m0 <= 3).

(** Entering a die clears the exit or selects the next one. *)
Lemma repin_spec st g w e rid' : v5_wf t st -> 0 <= rid' < TOTAL_CORES ->
  SerializeMsg (with_exit m0 e) = Ok w -> -1 <= e < 2 ^ 16 - 1 ->
  exists w' st' g' e', RepinOnC2CIngress M st g rid' w = Ok (w', st', g') /\ in_flight rid' w' e' /\ v5_wf t st'.
Proof using Hgeo Hwf Hm0 Hdes Hsub.
  intros Hst Hrid Hw He. destruct (flit_msg_decode (with_exit m0 e)) as (w1 & E1 & Hd); [by apply flit_msg_with_exit|].
  rewrite Hw in E1. injection E1 as <-. unfold RepinOnC2CIngress. rewrite Hd. destruct des_core as [Hdc _].
  change (des_ (with_exit m0 e)) with des. rewrite Hdc. rewrite bool_decide_eq_true_2 by done. cbn [negb].
  change (exit_port_ (with_exit m0 e)) with e. cbv zeta.
  assert (exists e' st', (if DieOfGlobal des =? DieOfGlobal rid' then Ok (-1, st)
      else CrossDieSelectExit M st rid' des (source_ (with_exit m0 e)) (tag_id_ (with_exit m0 e)) (subflow_ (with_exit m0 e)))
      = Ok (e', st') /\ v5_wf t st' /\ -1 <= e' < 2 ^ 16 - 1 /\
      (DieOfGlobal rid' <> DieOfGlobal des -> e' ∈ PortsForDir t (DieFirstHopDir (DieOfGlobal rid') (DieOfGlobal des))))
    as (e' & st' & -> & Hst' & He' & Hpin).
  { destruct (Z.eqb_spec (DieOfGlobal des) (DieOfGlobal rid')) as [E|E].
    - exists (-1), st. split; [done|]. split; [done|]. split; [lia|]. congruence.
    - destruct (select_exit_ok Hgeo M Hwf st rid' des (source_ m0) (tag_id_ m0) (subflow_ m0) Hst Hrid Hdes Hsub)
        as (e' & st' & Ee & Hst' & He'); [congruence|]. exists e', st'. split; [exact Ee|]. split; [done|].
      split; [|done]. apply exit_encodable in He'; [done|].
      destruct (die_local Hgeo _ Hrid) as (? & _ & _). destruct (die_local Hgeo _ Hdes) as (? & _ & _). lia. }
  cbn [mbind result_bind]. destruct (Z.eqb_spec e' e) as [->|Hne].
  - eexists _, _, _, e. split; [reflexivity|]. split; [by split|done].
  - rewrite with_exit_twice. destruct (flit_msg_decode (with_exit m0 e')) as (w' & Ew & _); [by apply flit_msg_with_exit|].
    rewrite Ew. cbn [mbind result_bind]. eexists _, _, _, e'. split; [reflexivity|]. split; [by split|done].
Qed.

(** One hop: it is possible with every selection state, and takes the flit
    nearer to its destination. *)
Lemma hop_spec rid w e : in_flight rid w e -> rid <> des ->
  exists d rid' i, next_hop M (with_exit m0 e) rid = Ok d /\ is_side d = true /\ reader M rid d = Some (rid', i) /\
    (forall st g, v5_wf t st -> exists w' st' g' e',
       receive M st g rid' i w = Ok (w', st', g') /\ in_flight rid' w' e' /\ distance rid' e' < distance rid e) /\
    DieManhattan (DieOfGlobal rid') (DieOfGlobal des) =
      DieManhattan (DieOfGlobal rid) (DieOfGlobal des) - (if decide (DieOfGlobal rid = DieOfGlobal rid') then 0 else 1).
Proof using Hgeo Hwf Hm0 Hflow Hdes Hsub.
  intros Hf Hne. rewrite (next_hop_spec rid w e Hf). destruct (target_spec rid w e Hf) as [Ht Htd].
  pose proof (fl_rid _ _ _ Hf) as Hrid. destruct (xy_hop_spec Hgeo (target rid e) rid Hrid Ht Htd) as [[_ Heq]|(Hnt & Hs & Hn & Hdist)].
  - (* at the exit port *)
    assert (DieOfGlobal rid <> DieOfGlobal des) as Hdd.
    { intros E. apply Hne. rewrite <- Heq. unfold target. rewrite E. by rewrite Z.eqb_refl. }
    pose proof (fl_pinned _ _ _ Hf Hdd) as Hp. pose proof (proj2 (Z.eqb_neq _ _) Hdd) as Hddb.
    rewrite Heq, Z.eqb_refl, Hddb. cbn [orb negb]. set (D := DieFirstHopDir _ _) in *.
    destruct (die_local Hgeo rid Hrid) as (Hmd & _ & _). destruct (die_local Hgeo des Hdes) as (Hdd' & _ & _).
    destruct (first_hop Hgeo _ _ Hmd Hdd' Hdd) as (HsD & HnD & Hman). fold D in HsD, HnD, Hman.
    destruct (exit_link Hgeo M Hwf _ D e Hmd ltac:(lia) Hp) as (m & Hm & _ & Hsm & Hrm & Htm & Hreader & _).
    destruct (exit_port_spec M Hwf D e Hp) as (p & Ep & _ & _ & _ & _ & _ & _ & _ & Htp & _).
    unfold target in Heq. rewrite Hddb, Ep in Heq. rewrite Ep, Heq in Hreader.
    destruct (global_id_split Hgeo _ _ HnD Htm) as (Hr' & Ed' & El').
    set (rid' := GlobalId (DieNeighbor (DieOfGlobal rid) D) (tile m)) in *.
    exists D, rid', (side m). split; [done|]. split; [done|]. split; [done|]. rewrite Ed'. split.
    + intros st g Hst. destruct (repin_spec st g w e rid' Hst Hr' (fl_flit _ _ _ Hf) (fl_exit _ _ _ Hf))
        as (w' & st' & g' & e' & Er & Hf' & _).
      exists w', st', g', e'. unfold receive. assert (IsC2CEgressEdge t rid' (side m) = true) as ->.
      { unfold IsC2CEgressEdge. rewrite (mw_active _ Hwf). cbn [negb]. fold (DieOfGlobal rid') (LocalOfGlobal rid').
        rewrite Ed', El', Hsm, (DieNeighbor_opposite Hgeo _ _ Hmd) by lia.
        destruct (Z.ltb_spec (DieOfGlobal rid) 0); [lia|]. apply existsb_exists. exists m.
        split; [by apply list_elem_of_In|]. rewrite Hrm, Hsm, !bool_decide_eq_true_2, Z.eqb_refl by done. done. }
      rewrite (msg_not_mem_wire _ _ (fl_flit _ _ _ Hf)). cbn [andb negb]. split; [done|]. split; [done|].
      unfold distance. rewrite Ed', Hman. destruct (target_spec rid' w' e' Hf') as [Ht' Htd'].
      pose proof (tile_dist_radius Hgeo rid' (target rid' e') Hr' Ht' (eq_sym Htd')).
      pose proof (tile_dist_radius Hgeo rid (target rid e) Hrid Ht (eq_sym Htd)).
      assert ((DieManhattan (DieOfGlobal rid) (DieOfGlobal des) - 1) * radius =
              DieManhattan (DieOfGlobal rid) (DieOfGlobal des) * radius - radius) by ring. lia.
    + rewrite Hman. destruct (decide (DieOfGlobal rid = DieNeighbor (DieOfGlobal rid) D)) as [E|]; [|lia].
      exfalso. rewrite <- E in Hman. lia.
  - (* inside the die *)
    assert ((rid =? target rid e) = false) as -> by (apply Z.eqb_neq; congruence). cbn [negb]. rewrite orb_true_r.
    set (d := xy_hop _ _) in *. destruct (mesh_step Hgeo rid d Hrid Hs Hn) as (Hr' & Hd' & _). cbv zeta in *.
    set (rid' := OpenMeshNeighbor rid d) in *. exists d, rid', (GetOpposeDirection d).
    split; [done|]. split; [done|]. split; [unfold reader; fold rid'; destruct (Z.leb_spec 0 rid'); [done|lia]|].
    rewrite Hd'. split; [|destruct (decide _); [lia|done]].
    intros st g Hst. exists w, st, g, e. split; [|split].
    + unfold receive. assert (IsC2CEgressEdge t rid' (GetOpposeDirection d) = false) as ->; [|done].
      unfold IsC2CEgressEdge. rewrite (mw_active _ Hwf). cbn [negb]. destruct (_ <? 0); [done|].
      apply not_true_iff_false. intros (p & Hp & Hat)%existsb_exists. split_guards.
      apply list_elem_of_In in Hp. destruct (port_at t (tw_ports _ (mw_ports _ Hwf)) p Hp) as [Hw _].
      pose proof (pw_edge _ _ Hw) as Hedge. pose proof (mesh_step_back Hgeo rid d Hrid Hs Hn) as Hback. fold rid' in Hback.
      apply bool_decide_eq_true in H1. rewrite H1 in Hedge. fold (LocalOfGlobal rid') in *. congruence.
    + split; [done|apply Hf|apply Hf|]. rewrite Hd'. apply Hf.
    + unfold distance, target in *. rewrite Hd'. lia.
Qed.

(** Hops keep the flit in flight; there are at most [distance] of them. *)
Lemma hop_inv rid w e s' : in_flight rid w e -> hop M (rid, w) s' -> exists e',
  in_flight s'.1 s'.2 e' /\ distance s'.1 e' < distance rid e /\
  DieManhattan (DieOfGlobal s'.1) (DieOfGlobal des) =
    DieManhattan (DieOfGlobal rid) (DieOfGlobal des) - (if decide (DieOfGlobal rid = DieOfGlobal s'.1) then 0 else 1).
Proof using Hgeo Hwf Hm0 Hflow Hdes Hsub.
  intros Hf H. inversion H as [rid1 w1 m d rid' i st g w' st' g' Hdec Hnext Hs Hread Hst Hrec]; subst. cbn [fst snd].
  rewrite (fl_decode rid w e Hf) in Hdec. injection Hdec as <-.
  assert (rid <> des) as Hne.
  { intros ->. rewrite (next_hop_spec des w e Hf) in Hnext. unfold target in Hnext. rewrite Z.eqb_refl in Hnext. cbn [orb] in Hnext.
    destruct (xy_hop_spec Hgeo des des Hdes Hdes eq_refl) as [[E _]|[? _]]; [|done]. rewrite E in Hnext. by simplify_eq. }
  destruct (hop_spec rid w e Hf Hne) as (d1 & rid1 & i1 & E1 & _ & E2 & Hall & Hman).
  rewrite Hnext in E1. injection E1 as <-. rewrite Hread in E2. injection E2 as <- <-.
  apply (v5_reachable_wf Hgeo t (mw_ports _ Hwf)) in Hst. destruct (Hall st g Hst) as (w2 & st2 & g2 & e' & E3 & Hf' & Hlt).
  rewrite Hrec in E3. simplify_eq. by exists e'.
Qed.

Lemma travel_inv n c s s' : travel M n c s s' -> forall e, in_flight s.1 s.2 e -> exists e',
  in_flight s'.1 s'.2 e' /\ Z.of_nat n + distance s'.1 e' <= distance s.1 e /\
  DieManhattan (DieOfGlobal s'.1) (DieOfGlobal des) + Z.of_nat c = DieManhattan (DieOfGlobal s.1) (DieOfGlobal des).
Proof using Hgeo Hwf Hm0 Hflow Hdes Hsub.
  induction 1 as [s|s s1 s2 n c Hhop Ht IH]; intros e Hf.
  - exists e. split; [done|]. lia.
  - destruct s as [rid w]. destruct (hop_inv rid w e s1 Hf Hhop) as (e1 & Hf1 & Hlt & Hman).
    destruct (IH e1 Hf1) as (e2 & Hf2 & Hle & Hman2). exists e2. split; [done|]. cbn [fst] in *.
    destruct (decide (DieOfGlobal rid = DieOfGlobal s1.1)); lia.
Qed.

Lemma distance_bounds rid w e : in_flight rid w e ->
  0 <= distance rid e < (DieManhattan (DieOfGlobal rid) (DieOfGlobal des) + 1) * radius.
Proof using Hgeo Hwf Hdes Hsub.
  intros Hf. destruct (target_spec rid w e Hf) as [Ht Htd]. pose proof (fl_rid _ _ _ Hf) as Hrid.
  pose proof (tile_dist_radius Hgeo rid (target rid e) Hrid Ht (eq_sym Htd)).
  pose proof (DieManhattan_nonneg (DieOfGlobal rid) (DieOfGlobal des)) as [? _].
  destruct (geo_facts Hgeo) as (? & ? & _). unfold distance, radius in *. nia.
Qed.
End flight.

(** C6: a REQUEST, ACK or DATA message between any two cores is delivered,
    whatever the other traffic does to the port-selection state.  The source
    always finds an exit; at every router short of the destination the routing
    decision, the wiring and the re-pinning succeed, so the flit can move on; it
    reaches the destination's router after fewer than (die distance + 1) * radius
    hops, of which exactly the die distance cross a link, and is handed to the
    core there, unchanged but for its exit field. *)
Theorem packet_delivery `{Geometry} (M : machine) (m : Msg) (st : v5_state) :
  ValidateAddressSpace = Ok tt -> machine_wf M -> v5_reachable (g_die_ports M) (g_d2d_cfg M) st ->
  flit_msg m -> is_flow (msg_type_ m) = true -> 0 <= subflow_ m <= 3 ->
  0 <= source_ m < TOTAL_CORES -> 0 <= des_ m < TOTAL_CORES ->
  let dist := DieManhattan (DieOfGlobal (source_ m)) (DieOfGlobal (des_ m)) in
  exists e st' w,
    SelectCoreMsgExit M st (source_ m) (des_ m) (tag_id_ m) (subflow_ m) = Ok (e, st') /\
    SerializeMsg (with_exit m e) = Ok w /\
    forall n c rid w', travel M n c (source_ m, w) (rid, w') ->
      0 <= rid < TOTAL_CORES /\ Z.of_nat n < (dist + 1) * radius /\ Z.of_nat c <= dist /\
      exists e', DeserializeMsg w' = Some (with_exit m e') /\
        (rid = des_ m -> next_hop M (with_exit m e') rid = Ok CENTER /\ Z.of_nat c = dist) /\
        (rid <> des_ m -> exists d rid' i, next_hop M (with_exit m e') rid = Ok d /\ is_side d = true /\
           reader M rid d = Some (rid', i) /\
           forall st1 g, v5_reachable (g_die_ports M) (g_d2d_cfg M) st1 -> is_ok (receive M st1 g rid' i w') = true).
Proof.
  intros Hgeo Hwf Hst Hm Hflow Hsub Hsrc Hdes dist. pose proof (v5_reachable_wf Hgeo _ (mw_ports _ Hwf) _ _ Hst) as Hv.
  assert (exists e st', SelectCoreMsgExit M st (source_ m) (des_ m) (tag_id_ m) (subflow_ m) = Ok (e, st') /\
    -1 <= e < 2 ^ 16 - 1 /\ (DieOfGlobal (source_ m) <> DieOfGlobal (des_ m) ->
      e ∈ PortsForDir (g_die_ports M) (DieFirstHopDir (DieOfGlobal (source_ m)) (DieOfGlobal (des_ m))))) as (e & st' & Esel & He & Hpin).
  { unfold SelectCoreMsgExit. rewrite throw_bind_false by (repeat (apply orb_false_iff; split); lia).
    destruct (Z.eqb_spec (DieOfGlobal (source_ m)) (DieOfGlobal (des_ m))) as [E|E].
    - exists (-1), st. split; [done|]. split; [lia|done].
    - destruct (select_exit_ok Hgeo M Hwf st (source_ m) (des_ m) (source_ m) (tag_id_ m) (subflow_ m) Hv Hsrc Hdes Hsub E)
        as (e & st' & Ee & _ & He). exists e, st'. split; [done|]. split; [|done]. apply exit_encodable in He; [done..|].
      destruct (die_local Hgeo _ Hsrc) as (? & _ & _). destruct (die_local Hgeo _ Hdes) as (? & _ & _). lia. }
  destruct (flit_msg_decode (with_exit m e)) as (w & Ew & _); [by apply flit_msg_with_exit|].
  exists e, st', w. split; [done|]. split; [done|]. assert (in_flight M m (source_ m) w e) as Hf by (by split).
  intros n c rid w' Ht. destruct (travel_inv Hgeo M Hwf m Hm Hflow Hdes Hsub n c _ _ Ht e Hf) as (e' & Hf' & Hn & Hc).
  cbn [fst snd] in *. pose proof (distance_bounds Hgeo M Hwf m Hdes Hsub _ _ _ Hf) as [_ Hb].
  pose proof (distance_bounds Hgeo M Hwf m Hdes Hsub _ _ _ Hf') as [Hb' _].
  pose proof (DieManhattan_nonneg (DieOfGlobal rid) (DieOfGlobal (des_ m))) as [Hman _].
  split; [apply Hf'|]. split; [unfold dist; lia|]. split; [unfold dist; lia|].
  exists e'. split; [by eapply fl_decode|]. split.
  - intros ->. rewrite (next_hop_spec Hgeo M Hwf m Hflow Hdes _ _ _ Hf'). unfold target. rewrite Z.eqb_refl. cbn [orb].
    pose proof (DieManhattan_nonneg (DieOfGlobal (des_ m)) (DieOfGlobal (des_ m))) as [_ Hzero].
    split; [|unfold dist; lia]. destruct (xy_hop_spec Hgeo (des_ m) (des_ m) Hdes Hdes eq_refl) as [[-> _]|[? _]]; done.
  - intros Hne. destruct (hop_spec Hgeo M Hwf m Hm Hflow Hdes Hsub rid w' e' Hf' Hne) as (d & rid' & i & H1 & H2 & H3 & H4 & _).
    exists d, rid', i. split; [done|]. split; [done|]. split; [done|]. intros st1 g Hst1.
    apply (v5_reachable_wf Hgeo _ (mw_ports _ Hwf)) in Hst1. destruct (H4 st1 g Hst1) as (? & ? & ? & ? & -> & _). done.
Qed.

Definition demo_machine : machine := mkMachine demo_table demo_dynamic demo_links demo_attach.
(** A DATA message from core 0 to core 15, diagonally across the four dies. *)
Definition demo_data : Msg := mkMsg true DATA 1 15 0 15 0 1 false false 0 0 0 0 0 0 0 (-1) 0.

Lemma demo_machine_wf : @machine_wf demo_geometry demo_machine.
Proof. destruct demo_wf as (Ha & Ht & Hb). split; [exact Ha|exact Ht|exact Hb|exact demo_attach_wf]. Qed.

Lemma packet_delivery_witness : exists e st' w,
  @SelectCoreMsgExit demo_geometry demo_machine v5_initial 0 15 15 0 = Ok (e, st') /\
  SerializeMsg (with_exit demo_data e) = Ok w /\
  forall n c w', @travel demo_geometry demo_machine n c (0, w) (15, w') -> Z.of_nat n < 9 /\ Z.of_nat c = 2.
Proof.
  destruct (@packet_delivery demo_geometry demo_machine demo_data v5_initial) as (e & st' & w & H1 & H2 & H3);
    [reflexivity|exact demo_machine_wf|apply v5_start| |reflexivity|cbn; lia|split; reflexivity || (vm_compute; discriminate)|
     split; reflexivity || (vm_compute; discriminate)|].
  - split; [|split].
    + unfold msg_typed, in_int, in_u. split_and!; vm_compute; reflexivity || discriminate.
    + unfold representable, in_u. cbn. rewrite ?bool_decide_eq_true_2 by done. rewrite ?bool_decide_eq_false_2 by done.
      split_and!; done || lia || reflexivity.
    + split; [intros _; cbn; lia|]. split; [discriminate|reflexivity].
  - exists e, st', w. split; [exact H1|]. split; [exact H2|]. intros n c w' Ht.
    destruct (H3 n c 15 w' Ht) as (_ & Hn & _ & e' & _ & Hd & _). split; [exact Hn|]. apply Hd. reflexivity.
Defined.
