(* ===== verification/SafAdmission.v ===== *)
(** Whole-flow store-and-forward admission ([WholeFlowSafAdmission] of
    [include/common/flow.h]; the SAF run time and the behavioural
    flow registry of [src/die/port_config.cpp]).  Before its REQUEST
    leaves, a flow reserves room for all its packets on every directed link of
    its path; links with the same group also share one ledger.  An operation that
    may throw after it has changed the state returns the state and the
    exception. *)

From S2P Require Import Prelude D2DConfig DieTopology PortSelect HostAttach Routing.

(** ** The ledger of one buffer *)

Inductive WholeFlowSafStatus : Type := ADMITTED | INVALID_FLOW_SIZE | DUPLICATE_FLOW | INSUFFICIENT_CAPACITY.
#[export] Instance WholeFlowSafStatus_eq_dec : EqDecision WholeFlowSafStatus.
Proof. solve_decision. Defined.

Record WholeFlowSafResult : Type := mkSafResult { saf_status : WholeFlowSafStatus; requested : Z; available_before : Z }.
Definition admitted (r : WholeFlowSafResult) : bool := bool_decide (saf_status r = ADMITTED).

Record WholeFlowSafAdmission : Type := mkLedger { capacity_ : Z; reserved_ : Z; reservations_ : gmap FlowKey Z }.
#[export] Instance ledger_inhabited : Inhabited WholeFlowSafAdmission := populate (mkLedger 0 0 ∅).

Definition Reset (capacity : Z) : result WholeFlowSafAdmission :=
  THROW runtime_error "whole-flow SAF capacity must be >= 0" WHEN capacity <? 0;;
  Ok (mkLedger capacity 0 ∅).

Definition Available (a : WholeFlowSafAdmission) : Z := capacity_ a - reserved_ a.
Definition ReservedFor (a : WholeFlowSafAdmission) (k : FlowKey) : Z := default 0 (reservations_ a !! k).

Definition Reserve (a : WholeFlowSafAdmission) (k : FlowKey) (flow_packets : Z) : WholeFlowSafAdmission * WholeFlowSafResult :=
  let r s := mkSafResult s flow_packets (Available a) in
  if flow_packets <=? 0 then (a, r INVALID_FLOW_SIZE)
  else if bool_decide (is_Some (reservations_ a !! k)) then (a, r DUPLICATE_FLOW)
  else if Available a <? flow_packets then (a, r INSUFFICIENT_CAPACITY)
  else (mkLedger (capacity_ a) (reserved_ a + flow_packets) (<[k := flow_packets]> (reservations_ a)), r ADMITTED).

Definition Release (a : WholeFlowSafAdmission) (k : FlowKey) : result (WholeFlowSafAdmission * Z) :=
  match reservations_ a !! k with
  | None => Err (runtime_error "whole-flow SAF release without reservation")
  | Some n =>
      THROW runtime_error "whole-flow SAF reservation accounting underflow" WHEN reserved_ a - n <? 0;;
      Ok (mkLedger (capacity_ a) (reserved_ a - n) (delete k (reservations_ a)), n)
  end.

(** ** State *)

(** (local_die, remote_die, group) *)
Definition SafGroupKey : Type := Z * Z * Z.

Record saf_state : Type := mkSaf {
  link_admission : list WholeFlowSafAdmission; flow_links : gmap FlowKey (gset Z);
  group_admission : gmap SafGroupKey WholeFlowSafAdmission; flow_groups : gmap FlowKey (gset SafGroupKey);
  admission_successes : Z; admission_rejects : Z
}.

Definition link_of (links : list D2DLink) (idx : Z) : D2DLink := links !!! Z.to_nat idx.
Definition GroupKeyForLink (links : list D2DLink) (idx : Z) : SafGroupKey :=
  let l := link_of links idx in (local_die l, remote_die l, l_group l).
Definition grouped (links : list D2DLink) (idx : Z) : bool := 0 <=? l_group (link_of links idx).

Definition DirectedLinkIndexForPort (links : list D2DLink) (die port : Z) : Z :=
  match list_find (fun l => local_die l = die /\ local_port l = port) links with
  | Some (i, _) => Z.of_nat i
  | None => -1
  end.

(** ** The path of a flow *)

Definition path_step `{Geometry} (M : machine) (st : v5_state) (at_ source_global dest_global tg sub : Z)
    : result (Z * Z * v5_state) :=
  CrossDieSelectExit M st at_ dest_global source_global tg sub ≫= fun '((port, st) : Z * v5_state) =>
  let idx := DirectedLinkIndexForPort (g_d2d_links M) (DieOfGlobal at_) port in
  THROW runtime_error "whole-flow SAF path reservation: selected port has no directed link" WHEN idx <? 0;;
  let l := link_of (g_d2d_links M) idx in
  let remote := ports (g_die_ports M) !!! Z.to_nat (remote_port l) in
  Ok (idx, remote_die l * CORES_PER_DIE + tile remote, st).

(** The [while] loop; every turn brings the flow one die nearer, so
    [DieManhattan] turns are enough. *)
Fixpoint path_from `{Geometry} (fuel : nat) (M : machine) (st : v5_state) (path : list Z)
    (at_ source_global dest_global tg sub : Z) : result (list Z * v5_state) :=
  if DieOfGlobal at_ =? DieOfGlobal dest_global then Ok (path, st) else
  match fuel with
  | O => Err (logic_error "out of fuel")
  | S fuel =>
      path_step M st at_ source_global dest_global tg sub ≫= fun '(((idx, at'), st) : Z * Z * v5_state) =>
      path_from fuel M st (path ++ [idx]) at' source_global dest_global tg sub
  end.

Definition WholeFlowSafPath `{Geometry} (M : machine) (st : v5_state) (source_global dest_global tg sub : Z)
    : result (list Z * v5_state) :=
  path_from (Z.to_nat (DieManhattan (DieOfGlobal source_global) (DieOfGlobal dest_global))) M st []
    source_global source_global dest_global tg sub.

(** ** Reservation *)

Record SafPlan : Type := mkPlan { plan_key : FlowKey; plan_packets : Z; plan_path : list Z }.

Definition bounded (cfg : D2DLinkConfig) : bool := bool_decide (mode cfg = MODE_BOUNDED_SAF).

(** The arbiters are reset separately, see [ResetV5LinkGroupRuntime]. *)
Definition ResetWholeFlowSafRuntime (cfg : D2DLinkConfig) (links : list D2DLink) (s : saf_state) : result saf_state :=
  if negb (bounded cfg) then Ok (mkSaf [] ∅ ∅ ∅ (admission_successes s) (admission_rejects s)) else
  foldM (fun acc idx =>
    Reset (saf_buffer_depth cfg) ≫= fun a =>
    Ok (acc.1 ++ [a],
        if grouped links idx && bool_decide (acc.2 !! GroupKeyForLink links idx = None)
        then <[GroupKeyForLink links idx := a]> acc.2 else acc.2))
    ([], ∅) (seqZ 0 (Z.of_nat (length links))) ≫=
  fun '((las, gas) : list WholeFlowSafAdmission * gmap SafGroupKey WholeFlowSafAdmission) =>
  Ok (mkSaf las ∅ gas ∅ (admission_successes s) (admission_rejects s)).

Definition add_need {K} `{Countable K} (m : gmap K Z) (k : K) (n : Z) : gmap K Z := <[k := default 0 (m !! k) + n]> m.

Definition needs : Type := gmap Z Z * gmap SafGroupKey Z.
Definition plan_needs (links : list D2DLink) (n : Z) (acc : needs) (idx : Z) : needs :=
  (add_need acc.1 idx n,
   if grouped links idx then add_need acc.2 (GroupKeyForLink links idx) n else acc.2).

Definition collect_needs (s : saf_state) (links : list D2DLink) (acc : needs) (p : SafPlan) : result needs :=
  THROW runtime_error "whole-flow SAF invalid striped flow size" WHEN plan_packets p <=? 0;;
  THROW runtime_error "whole-flow SAF duplicate active path reservation"
    WHEN bool_decide (is_Some (flow_links s !! plan_key p));;
  Ok (foldl (plan_needs links (plan_packets p)) acc (plan_path p)).

Definition rejected : exn := runtime_error "whole-flow SAF path admission rejected before REQUEST/DATA".

Definition check_link_need (s : saf_state) (u : unit) (kn : Z * Z) : result unit :=
  match link_admission s !! Z.to_nat kn.1 with
  | None => Err (out_of_range "vector::at")
  | Some a => throw_if (Available a <? kn.2) rejected
  end.
Definition check_group_need (s : saf_state) (u : unit) (kn : SafGroupKey * Z) : result unit :=
  match group_admission s !! kn.1 with
  | None => Err (runtime_error "whole-flow SAF missing link-group ledger")
  | Some a => throw_if (Available a <? kn.2) rejected
  end.

(** The preflight changes nothing but the reject counter. *)
Definition preflight (s : saf_state) (links : list D2DLink) (plans : list SafPlan) : result unit :=
  foldM (collect_needs s links) (∅, ∅) plans ≫= fun nd : needs =>
  foldM (check_link_need s) tt (map_to_list nd.1) ≫= fun _ =>
  foldM (check_group_need s) tt (map_to_list nd.2).

(** The commit works on the two ledgers and records what it has done. *)
Record commit : Type := mkCommit {
  c_links : list WholeFlowSafAdmission; c_groups : gmap SafGroupKey WholeFlowSafAdmission;
  links_done : list (Z * FlowKey); groups_done : list (SafGroupKey * FlowKey)
}.

Definition commit_link (links : list D2DLink) (k : FlowKey) (n : Z) (c : commit) (idx : Z) : commit * option exn :=
  let '(a, lr) := Reserve (c_links c !!! Z.to_nat idx) k n in
  if negb (admitted lr) then (c, Some (runtime_error "whole-flow SAF internal link commit mismatch")) else
  let c := mkCommit (<[Z.to_nat idx := a]> (c_links c)) (c_groups c) (links_done c ++ [(idx, k)]) (groups_done c) in
  if negb (grouped links idx) then (c, None) else
  let group := GroupKeyForLink links idx in
  match c_groups c !! group with
  | None => (c, Some (out_of_range "map::at"))
  | Some ga =>
      let '(ga, gr) := Reserve ga k n in
      if negb (admitted gr) then (c, Some (runtime_error "whole-flow SAF internal group commit mismatch"))
      else (mkCommit (c_links c) (<[group := ga]> (c_groups c)) (links_done c) (groups_done c ++ [(group, k)]), None)
  end.

Fixpoint commit_path (links : list D2DLink) (k : FlowKey) (n : Z) (c : commit) (path : list Z) : commit * option exn :=
  match path with
  | [] => (c, None)
  | idx :: path =>
      match commit_link links k n c idx with
      | (c, None) => commit_path links k n c path
      | (c, Some e) => (c, Some e)
      end
  end.

Fixpoint commit_plans (links : list D2DLink) (c : commit) (plans : list SafPlan) : commit * option exn :=
  match plans with
  | [] => (c, None)
  | p :: plans =>
      match commit_path links (plan_key p) (plan_packets p) c (plan_path p) with
      | (c, None) => commit_plans links c plans
      | (c, Some e) => (c, Some e)
      end
  end.

(** The roll back of the [catch] block, last reservation first. *)
Definition undo_group (gs : gmap SafGroupKey WholeFlowSafAdmission) (d : SafGroupKey * FlowKey)
    : result (gmap SafGroupKey WholeFlowSafAdmission) :=
  match gs !! d.1 with
  | None => Err (out_of_range "map::at")
  | Some a => Release a d.2 ≫= fun r => Ok (<[d.1 := r.1]> gs)
  end.
Definition undo_link (ls : list WholeFlowSafAdmission) (d : Z * FlowKey) : result (list WholeFlowSafAdmission) :=
  match ls !! Z.to_nat d.1 with
  | None => Err (out_of_range "vector::at")
  | Some a => Release a d.2 ≫= fun r => Ok (<[Z.to_nat d.1 := r.1]> ls)
  end.
Definition rollback (c : commit) : result (list WholeFlowSafAdmission * gmap SafGroupKey WholeFlowSafAdmission) :=
  foldM undo_group (c_groups c) (rev (groups_done c)) ≫= fun gs =>
  foldM undo_link (c_links c) (rev (links_done c)) ≫= fun ls => Ok (ls, gs).

Definition record_flow (links : list D2DLink) (s : saf_state) (p : SafPlan) : saf_state :=
  let gs := list_to_set (GroupKeyForLink links <$> List.filter (grouped links) (plan_path p)) : gset SafGroupKey in
  mkSaf (link_admission s) (<[plan_key p := list_to_set (plan_path p)]> (flow_links s)) (group_admission s)
    (if bool_decide (gs = ∅) then flow_groups s
     else <[plan_key p := default ∅ (flow_groups s !! plan_key p) ∪ gs]> (flow_groups s))
    (admission_successes s) (admission_rejects s).

Definition ReserveSafPlans (cfg : D2DLinkConfig) (links : list D2DLink) (s : saf_state) (plans : list SafPlan)
    : saf_state * option exn :=
  if negb (bounded cfg) then (s, None) else
  if negb (Nat.eqb (length (link_admission s)) (length links)) then
    (s, Some (runtime_error "whole-flow SAF runtime was not initialized")) else
  match preflight s links plans with
  | Err e =>
      (mkSaf (link_admission s) (flow_links s) (group_admission s) (flow_groups s) (admission_successes s)
         (admission_rejects s + b2z (bool_decide (e = rejected))), Some e)
  | Ok _ =>
      match commit_plans links (mkCommit (link_admission s) (group_admission s) [] []) plans with
      | (c, None) =>
          let s := foldl (record_flow links)
            (mkSaf (c_links c) (flow_links s) (c_groups c) (flow_groups s) (admission_successes s) (admission_rejects s)) plans in
          (mkSaf (link_admission s) (flow_links s) (group_admission s) (flow_groups s) (admission_successes s + 1)
             (admission_rejects s), None)
      | (c, Some e) =>
          match rollback c with
          | Ok (ls, gs) => (mkSaf ls (flow_links s) gs (flow_groups s) (admission_successes s) (admission_rejects s), Some e)
          | Err e' => (mkSaf (c_links c) (flow_links s) (c_groups c) (flow_groups s) (admission_successes s)
                         (admission_rejects s), Some e')
          end
      end
  end.

(** An exception in the path computation leaves the pins made so far in C++;
    for a well-formed machine there is none ([WholeFlowSafPath_spec]). *)
Definition ReserveWholeFlowSafPath `{Geometry} (M : machine) (st : v5_state) (s : saf_state)
    (source_global dest_global tg sub flow_packets : Z) : saf_state * v5_state * option exn :=
  if negb (bounded (g_d2d_cfg M)) then (s, st, None) else
  if (source_global <? 0) || (TOTAL_CORES <=? source_global) || (dest_global <? 0) || (TOTAL_CORES <=? dest_global) then
    (s, st, Some (runtime_error "whole-flow SAF path reservation: illegal endpoint")) else
  if DieOfGlobal source_global =? DieOfGlobal dest_global then (s, st, None) else
  match WholeFlowSafPath M st source_global dest_global tg sub with
  | Err e => (s, st, Some e)
  | Ok (path, st) =>
      let '(s, e) := ReserveSafPlans (g_d2d_cfg M) (g_d2d_links M) s [mkPlan (mkFlow source_global tg sub) flow_packets path] in
      (s, st, e)
  end.

Definition stripe_plan `{Geometry} (M : machine) (source_global dest_global tg : Z) (acc : list SafPlan * v5_state)
    (sn : Z * Z) : result (list SafPlan * v5_state) :=
  WholeFlowSafPath M acc.2 source_global dest_global tg sn.1 ≫= fun '((path, st) : list Z * v5_state) =>
  Ok (acc.1 ++ [mkPlan (mkFlow source_global tg sn.1) sn.2 path], st).

Definition ReserveStripedWholeFlowSafPaths `{Geometry} (M : machine) (st : v5_state) (s : saf_state)
    (source_global dest_global tg : Z) (counts : list Z) : saf_state * v5_state * option exn :=
  if negb (bounded (g_d2d_cfg M)) then (s, st, None) else
  if (source_global <? 0) || (TOTAL_CORES <=? source_global) || (dest_global <? 0) || (TOTAL_CORES <=? dest_global) ||
     bool_decide (counts = []) || (4 <? length counts)%nat then
    (s, st, Some (runtime_error "striped whole-flow SAF reservation: invalid input")) else
  if DieOfGlobal source_global =? DieOfGlobal dest_global then (s, st, None) else
  match foldM (stripe_plan M source_global dest_global tg) ([], st) (zip (seqZ 0 (Z.of_nat (length counts))) counts) with
  | Err e => (s, st, Some e)
  | Ok (plans, st) =>
      let '(s, e) := ReserveSafPlans (g_d2d_cfg M) (g_d2d_links M) s plans in (s, st, e)
  end.

(** ** Release of one link of a flow *)

Definition set_or_erase {K V} `{Countable K, Countable V} (m : gmap K (gset V)) (k : K) (v : gset V) : gmap K (gset V) :=
  if bool_decide (v = ∅) then delete k m else <[k := v]> m.

Definition ReleaseWholeFlowSafLink (cfg : D2DLinkConfig) (links : list D2DLink) (s : saf_state)
    (link_idx : Z) (key : FlowKey) (flow_packets : Z) : result saf_state :=
  if negb (bounded cfg) then Ok s else
  match flow_links s !! key with
  | None => Err (runtime_error "whole-flow SAF link release without path reservation")
  | Some fl =>
      THROW runtime_error "whole-flow SAF link release without path reservation" WHEN negb (bool_decide (link_idx ∈ fl));;
      match link_admission s !! Z.to_nat link_idx with
      | None => Err (out_of_range "vector::at")
      | Some la =>
          THROW runtime_error "whole-flow SAF link release packet-count mismatch"
            WHEN negb (ReservedFor la key =? flow_packets);;
          let erased := set_or_erase (flow_links s) key (fl ∖ {[link_idx]}) in
          if negb (grouped links link_idx) then
            Release la key ≫= fun r =>
            Ok (mkSaf (<[Z.to_nat link_idx := r.1]> (link_admission s)) erased (group_admission s) (flow_groups s)
                  (admission_successes s) (admission_rejects s))
          else
            let group := GroupKeyForLink links link_idx in
            match flow_groups s !! key with
            | None => Err (runtime_error "whole-flow SAF group release without path reservation")
            | Some fg =>
                THROW runtime_error "whole-flow SAF group release without path reservation"
                  WHEN negb (bool_decide (group ∈ fg));;
                match group_admission s !! group with
                | None => Err (out_of_range "map::at")
                | Some ga =>
                    THROW runtime_error "whole-flow SAF group release count mismatch"
                      WHEN negb (ReservedFor ga key =? flow_packets);;
                    Release la key ≫= fun r =>
                    Release ga key ≫= fun q =>
                    Ok (mkSaf (<[Z.to_nat link_idx := r.1]> (link_admission s)) erased
                          (<[group := q.1]> (group_admission s)) (set_or_erase (flow_groups s) key (fg ∖ {[group]}))
                          (admission_successes s) (admission_rejects s))
                end
            end
      end
  end.

Definition WholeFlowSafReservedPackets (s : saf_state) : Z :=
  foldl (fun total a => total + reserved_ a) 0 (link_admission s).
Definition WholeFlowSafGroupReservedPackets (s : saf_state) : Z :=
  map_fold (fun _ a total => total + reserved_ a) 0 (group_admission s).

(** ** The registry of behavioural flows *)

Record D2DBehavioralFlowMeta : Type := mkMeta { dest_global : Z; packets : Z; stripes : Z }.
#[export] Instance D2DBehavioralFlowMeta_eq_dec : EqDecision D2DBehavioralFlowMeta.
Proof. solve_decision. Defined.
Definition behavioral_flows : Type := gmap (Z * Z) D2DBehavioralFlowMeta.

Definition RegisterD2DBehavioralFlow `{Geometry} (flows : behavioral_flows) (source_global dst tg n strp : Z)
    : result behavioral_flows :=
  THROW runtime_error "Behavioral striped flow metadata is invalid"
    WHEN (source_global <? 0) || (TOTAL_CORES <=? source_global) || (dst <? 0) || (TOTAL_CORES <=? dst) || (n <? 1) ||
         (negb (strp =? 1) && negb (strp =? 2) && negb (strp =? 4)) || (n <? strp);;
  let meta := mkMeta dst n strp in
  THROW runtime_error "Behavioral flow metadata conflicts for source/tag"
    WHEN match flows !! (source_global, tg) with
         | Some old => negb (dest_global old =? dst) || negb (packets old =? n) || negb (stripes old =? strp)
         | None => false end;;
  Ok (<[(source_global, tg) := meta]> flows).

Definition ConsumeD2DBehavioralFlow (flows : behavioral_flows) (source_global tg : Z)
    : result (D2DBehavioralFlowMeta * behavioral_flows) :=
  match flows !! (source_global, tg) with
  | None => Err (runtime_error "Behavioral DATA has no registered logical flow metadata")
  | Some meta => Ok (meta, delete (source_global, tg) flows)
  end.

Definition D2DBehavioralFlowResidual (flows : behavioral_flows) : Z := Z.of_nat (size flows).

(** ** The ledger keeps its books *)

Record ledger_wf (a : WholeFlowSafAdmission) : Prop := {
  lw_sum : reserved_ a = map_sum id (reservations_ a);
  lw_bound : reserved_ a <= capacity_ a;
  lw_pos : forall k n, reservations_ a !! k = Some n -> 0 < n
}.

Lemma Reserve_spec a k n : let r := Reserve a k n in
  (admitted r.2 = true /\ 0 < n /\ reservations_ a !! k = None /\ n <= Available a /\
   r.1 = mkLedger (capacity_ a) (reserved_ a + n) (<[k := n]> (reservations_ a))) \/
  (admitted r.2 = false /\ r.1 = a /\ (n <= 0 \/ is_Some (reservations_ a !! k) \/ Available a < n)).
Proof.
  unfold Reserve. destruct (Z.leb_spec n 0); [right; naive_solver|].
  case_bool_decide as Hk; [right; naive_solver|]. destruct (Z.ltb_spec (Available a) n); [right; naive_solver|].
  left. cbn [fst snd]. apply eq_None_not_Some in Hk. done.
Qed.

Lemma Reserve_admitted a k n : 0 < n -> reservations_ a !! k = None -> n <= Available a ->
  Reserve a k n = (mkLedger (capacity_ a) (reserved_ a + n) (<[k := n]> (reservations_ a)), mkSafResult ADMITTED n (Available a)).
Proof.
  intros Hn Hk Ha. unfold Reserve. rewrite Hk. destruct (Z.leb_spec n 0); [lia|]. rewrite bool_decide_eq_false_2 by (by intros [? ?]).
  destruct (Z.ltb_spec (Available a) n); [lia|done].
Qed.

Lemma ledger_nonneg a : ledger_wf a -> 0 <= reserved_ a.
Proof. intros Ha. rewrite (lw_sum _ Ha). apply map_sum_nonneg. intros k x Hx. pose proof (lw_pos _ Ha k x Hx). unfold id. lia. Qed.

Lemma Reserve_wf a k n a' r : ledger_wf a -> Reserve a k n = (a', r) -> ledger_wf a'.
Proof.
  intros Ha E. destruct (Reserve_spec a k n) as [(_ & Hn & Hk & Hav & H)|(_ & H & _)]; rewrite E in H; cbn in H; subst a'; [|done].
  unfold Available in Hav. split; cbn.
  - rewrite map_sum_insert by done. rewrite (lw_sum _ Ha). unfold id. lia.
  - lia.
  - intros k' x [[<- <-]|[_ Hx]]%lookup_insert_Some; [done|]. by apply (lw_pos _ Ha k').
Qed.

Lemma Release_spec a k n : ledger_wf a -> reservations_ a !! k = Some n ->
  Release a k = Ok (mkLedger (capacity_ a) (reserved_ a - n) (delete k (reservations_ a)), n) /\
  ledger_wf (mkLedger (capacity_ a) (reserved_ a - n) (delete k (reservations_ a))).
Proof.
  intros Ha Hk. pose proof (map_sum_delete id _ k n Hk) as Hs. unfold id in Hs at 2.
  assert (0 <= map_sum id (delete k (reservations_ a))) as H0.
  { apply map_sum_nonneg. intros k' x [_ Hx]%lookup_delete_Some. pose proof (lw_pos _ Ha k' x Hx). unfold id. lia. }
  pose proof (lw_sum _ Ha) as Hsum. unfold Release. rewrite Hk. rewrite throw_bind_false by lia.
  split; [done|]. split; cbn; [lia|pose proof (lw_bound _ Ha); pose proof (lw_pos _ Ha k n Hk); lia|].
  intros k' x [_ Hx]%lookup_delete_Some. by apply (lw_pos _ Ha k').
Qed.

(** Releasing what was just reserved restores the ledger. *)
Lemma Release_Reserve a k n a' r : ledger_wf a -> Reserve a k n = (a', r) -> admitted r = true -> Release a' k = Ok (a, n).
Proof.
  intros Ha E Hr. destruct (Reserve_spec a k n) as [(_ & Hn & Hk & Hav & H)|(H & _)]; rewrite E in H; cbn in H; [subst a'|congruence].
  unfold Release. cbn [reservations_ reserved_ capacity_]. rewrite lookup_insert_eq. pose proof (ledger_nonneg a Ha).
  rewrite throw_bind_false by lia. f_equal. f_equal. rewrite delete_insert_id by done.
  replace (reserved_ a + n - n) with (reserved_ a) by lia. by destruct a.
Qed.

(** ** Commit and roll back *)

(** The reservations of the plans, one per link of each path. *)
Record req : Type := mkReq { q_idx : Z; q_key : FlowKey; q_n : Z }.
Definition reqs_of (p : SafPlan) : list req := (fun i => mkReq i (plan_key p) (plan_packets p)) <$> plan_path p.
Definition all_reqs (plans : list SafPlan) : list req := plans ≫= reqs_of.

Fixpoint commit_reqs (links : list D2DLink) (c : commit) (rs : list req) : commit * option exn :=
  match rs with
  | [] => (c, None)
  | r :: rs =>
      match commit_link links (q_key r) (q_n r) c (q_idx r) with
      | (c, None) => commit_reqs links c rs
      | (c, Some e) => (c, Some e)
      end
  end.

Lemma commit_reqs_app links c rs rs' : commit_reqs links c (rs ++ rs') =
  match commit_reqs links c rs with (c, None) => commit_reqs links c rs' | (c, Some e) => (c, Some e) end.
Proof.
  revert c. induction rs as [|r rs IH]; intros c; cbn; [done|]. destruct (commit_link _ _ _ _ _) as [c' [e|]]; [done|apply IH].
Qed.

Lemma commit_path_reqs links k n c path : commit_path links k n c path = commit_reqs links c ((fun i => mkReq i k n) <$> path).
Proof.
  revert c. induction path as [|i path IH]; intros c; cbn; [done|]. destruct (commit_link _ _ _ _ _) as [c' [e|]]; [done|apply IH].
Qed.

Lemma commit_plans_reqs links c plans : commit_plans links c plans = commit_reqs links c (all_reqs plans).
Proof.
  revert c. induction plans as [|p plans IH]; intros c; [done|]. cbn [commit_plans]. unfold all_reqs. rewrite bind_cons, commit_reqs_app.
  rewrite commit_path_reqs. unfold reqs_of at 1. destruct (commit_reqs _ _ _) as [c' [e|]]; [done|apply IH].
Qed.

Record commit_wf (c : commit) : Prop := {
  cw_links : forall i a, c_links c !! i = Some a -> ledger_wf a;
  cw_groups : forall g a, c_groups c !! g = Some a -> ledger_wf a
}.

(** The roll back of [c] would restore these ledgers. *)
Definition restores (c : commit) (ls : list WholeFlowSafAdmission) (gs : gmap SafGroupKey WholeFlowSafAdmission) : Prop :=
  foldM undo_group (c_groups c) (rev (groups_done c)) = Ok gs /\ foldM undo_link (c_links c) (rev (links_done c)) = Ok ls.

Definition valid_idx (ls : list WholeFlowSafAdmission) (i : Z) : Prop := 0 <= i < Z.of_nat (length ls).

Lemma valid_lookup ls i : valid_idx ls i -> ls !! Z.to_nat i = Some (ls !!! Z.to_nat i).
Proof. intros Hi. apply list_lookup_lookup_total_lt. unfold valid_idx in Hi. lia. Qed.

Lemma undo_link_insert ls i k n a r : valid_idx ls i -> ledger_wf (ls !!! Z.to_nat i) ->
  Reserve (ls !!! Z.to_nat i) k n = (a, r) -> admitted r = true -> undo_link (<[Z.to_nat i := a]> ls) (i, k) = Ok ls.
Proof.
  intros Hi Hw E Hr. unfold undo_link. cbn [fst snd]. rewrite list_lookup_insert_eq by (unfold valid_idx in Hi; lia).
  rewrite (Release_Reserve _ _ _ _ _ Hw E Hr). cbn. by rewrite list_insert_insert_eq, list_insert_id by by apply valid_lookup.
Qed.

Lemma undo_group_insert gs g k n a0 a r : gs !! g = Some a0 -> ledger_wf a0 ->
  Reserve a0 k n = (a, r) -> admitted r = true -> undo_group (<[g := a]> gs) (g, k) = Ok gs.
Proof.
  intros Hg Hw E Hr. unfold undo_group. cbn [fst snd]. rewrite lookup_insert_eq.
  rewrite (Release_Reserve _ _ _ _ _ Hw E Hr). cbn. by rewrite insert_insert_eq, insert_id.
Qed.

(** One reservation, successful or not, can be rolled back. *)
Lemma commit_link_restores links k n c i c' e ls gs :
  commit_wf c -> restores c ls gs -> valid_idx (c_links c) i -> commit_link links k n c i = (c', e) ->
  commit_wf c' /\ restores c' ls gs /\ length (c_links c') = length (c_links c).
Proof.
  intros Hc [Hg Hl] Hi H. unfold commit_link in H.
  pose proof (cw_links _ Hc _ _ (valid_lookup _ _ Hi)) as Hw.
  destruct (Reserve (c_links c !!! Z.to_nat i) k n) as [a lr] eqn:Er. destruct (admitted lr) eqn:Ea; cbn [negb] in H; [|by simplify_eq].
  set (c1 := mkCommit _ _ _ _) in H.
  assert (commit_wf c1) as Hc1.
  { split; [|apply Hc]. intros j b. cbn. intros [(<- & <- & _)|[_ Hb]]%list_lookup_insert_Some; [by eapply Reserve_wf|by apply (cw_links _ Hc j)]. }
  assert (restores c1 ls gs) as Hr1.
  { split; [done|]. cbn. rewrite rev_app_distr. cbn. by rewrite (undo_link_insert _ _ _ _ _ _ Hi Hw Er Ea). }
  assert (length (c_links c1) = length (c_links c)) as Hlen by apply length_insert.
  destruct (grouped links i); cbn [negb] in H; [|by simplify_eq].
  destruct (c_groups c1 !! GroupKeyForLink links i) as [ga|] eqn:Eg; [|by simplify_eq].
  destruct (Reserve ga k n) as [ga' gr] eqn:Egr. destruct (admitted gr) eqn:Ega; cbn [negb] in H; [|by simplify_eq]. simplify_eq.
  pose proof (cw_groups _ Hc1 _ _ Eg) as Hgw. split; [|split; [|done]].
  - split; [apply Hc1|]. intros g b. cbn. intros [[<- <-]|[_ Hb]]%lookup_insert_Some; [by eapply Reserve_wf|by apply (cw_groups _ Hc1 g)].
  - destruct Hr1 as [Hrg Hrl]. split; [|done]. cbn. rewrite rev_app_distr. cbn.
    pose proof (undo_group_insert _ _ _ _ _ _ _ Eg Hgw Egr Ega) as Eu. cbn in Eu. by rewrite Eu.
Qed.

Lemma commit_reqs_restores links rs c c' e ls gs : commit_wf c -> restores c ls gs ->
  (forall r, r ∈ rs -> valid_idx (c_links c) (q_idx r)) -> commit_reqs links c rs = (c', e) ->
  commit_wf c' /\ restores c' ls gs /\ length (c_links c') = length (c_links c).
Proof.
  revert c. induction rs as [|r rs IH]; intros c Hc Hr Hv H; cbn in H; [by simplify_eq|].
  destruct (commit_link _ _ _ _ _) as [c1 o] eqn:E.
  destruct (commit_link_restores _ _ _ _ _ _ _ _ _ Hc Hr (Hv r (list_elem_of_here _ _)) E) as (Hc1 & Hr1 & Hlen).
  destruct o as [e1|]; [by simplify_eq|]. rewrite <- Hlen. apply IH; [done..| |done].
  intros r' Hr'. unfold valid_idx. rewrite Hlen. apply Hv. by right.
Qed.

(** ** Demand and capacity *)

Definition sum_where (P : req -> bool) (rs : list req) : Z := foldr (fun r acc => (if P r then q_n r else 0) + acc) 0 rs.

Lemma sum_where_cons P r rs : sum_where P (r :: rs) = (if P r then q_n r else 0) + sum_where P rs.
Proof. done. Qed.

Section demand.
Context (links : list D2DLink).

Definition on_link (i : Z) (r : req) : bool := q_idx r =? i.
Definition on_group (g : SafGroupKey) (r : req) : bool :=
  grouped links (q_idx r) && bool_decide (GroupKeyForLink links (q_idx r) = g).

Record reqs_fresh (c : commit) (rs : list req) : Prop := {
  rf_idx : forall r, r ∈ rs -> valid_idx (c_links c) (q_idx r);
  rf_pos : forall r, r ∈ rs -> 0 < q_n r;
  rf_link : forall r, r ∈ rs -> reservations_ (c_links c !!! Z.to_nat (q_idx r)) !! q_key r = None;
  rf_group : forall r, r ∈ rs -> grouped links (q_idx r) = true ->
    exists a, c_groups c !! GroupKeyForLink links (q_idx r) = Some a /\ reservations_ a !! q_key r = None;
  rf_links : NoDup ((fun r => (q_idx r, q_key r)) <$> rs);
  rf_groups : NoDup ((fun r => (GroupKeyForLink links (q_idx r), q_key r)) <$> List.filter (fun r => grouped links (q_idx r)) rs)
}.

Definition enough (c : commit) (rs : list req) : Prop :=
  (forall r, r ∈ rs -> sum_where (on_link (q_idx r)) rs <= Available (c_links c !!! Z.to_nat (q_idx r))) /\
  (forall r, r ∈ rs -> grouped links (q_idx r) = true -> forall a, c_groups c !! GroupKeyForLink links (q_idx r) = Some a ->
     sum_where (on_group (GroupKeyForLink links (q_idx r))) rs <= Available a).

Lemma sum_where_nonneg P rs : (forall r, r ∈ rs -> 0 < q_n r) -> 0 <= sum_where P rs.
Proof using.
  induction rs as [|r rs IH]; intros Hp; [done|]. rewrite sum_where_cons. pose proof (Hp r (list_elem_of_here _ _)).
  assert (0 <= sum_where P rs) by (apply IH; intros; apply Hp; by right). destruct (P r); lia.
Qed.

Definition with_reservation (a : WholeFlowSafAdmission) (k : FlowKey) (n : Z) : WholeFlowSafAdmission :=
  mkLedger (capacity_ a) (reserved_ a + n) (<[k := n]> (reservations_ a)).

(** The first reservation is admitted and leaves enough for the others. *)
Lemma commit_link_ok c r rs : reqs_fresh c (r :: rs) -> enough c (r :: rs) -> exists c',
  commit_link links (q_key r) (q_n r) c (q_idx r) = (c', None) /\ reqs_fresh c' rs /\ enough c' rs /\
  c_links c' = <[Z.to_nat (q_idx r) := with_reservation (c_links c !!! Z.to_nat (q_idx r)) (q_key r) (q_n r)]> (c_links c) /\
  (if grouped links (q_idx r) then exists a, c_groups c !! GroupKeyForLink links (q_idx r) = Some a /\
     c_groups c' = <[GroupKeyForLink links (q_idx r) := with_reservation a (q_key r) (q_n r)]> (c_groups c)
   else c_groups c' = c_groups c).
Proof using.
  intros [Hidx Hpos Hlnk Hgrp Hnd Hndg] [Hal Hag]. set (i := q_idx r) in *. set (k := q_key r) in *. set (n := q_n r) in *.
  pose proof (list_elem_of_here r rs) as Hin. apply list.NoDup_cons in Hnd as [Hnew Hnd]. fold i k in Hnew.
  pose proof (Hpos r Hin) as Hn. pose proof (Hidx r Hin) as Hi. fold i n in Hi, Hn.
  assert (forall P, 0 <= sum_where P rs) as Hrest by (intros; apply sum_where_nonneg; intros; apply Hpos; by right).
  assert (n <= Available (c_links c !!! Z.to_nat i)) as Hav.
  { pose proof (Hal r Hin) as H. rewrite sum_where_cons in H. unfold on_link at 1 in H. fold i n in H. rewrite Z.eqb_refl in H.
    pose proof (Hrest (on_link i)). lia. }
  assert (forall r', r' ∈ rs -> sum_where (on_link (q_idx r')) rs <=
    Available (<[Z.to_nat i := with_reservation (c_links c !!! Z.to_nat i) k n]> (c_links c) !!! Z.to_nat (q_idx r'))) as Hal'.
  { intros r' Hr'. pose proof (Hal r' (list_elem_of_further _ _ _ Hr')) as H. rewrite sum_where_cons in H. unfold on_link at 1 in H. fold i n in H.
    pose proof (Hidx r' (list_elem_of_further _ _ _ Hr')) as Hi'. unfold valid_idx in Hi, Hi'.
    destruct (Z.eqb_spec i (q_idx r')) as [E|E].
    - rewrite <- E in H |- *. rewrite list_lookup_total_insert_eq by lia. unfold Available, with_reservation in *. cbn [capacity_ reserved_]. lia.
    - rewrite list_lookup_total_insert_ne by lia. lia. }
  assert (forall r', r' ∈ rs ->
    reservations_ (<[Z.to_nat i := with_reservation (c_links c !!! Z.to_nat i) k n]> (c_links c) !!! Z.to_nat (q_idx r')) !! q_key r' = None) as Hlnk'.
  { intros r' Hr'. pose proof (Hidx r' (list_elem_of_further _ _ _ Hr')) as Hi'. unfold valid_idx in Hi, Hi'.
    pose proof (Hlnk r' (list_elem_of_further _ _ _ Hr')) as H. destruct (decide (i = q_idx r')) as [E|E].
    - rewrite <- E in H |- *. rewrite list_lookup_total_insert_eq by lia. cbn. rewrite lookup_insert_ne; [done|].
      intros Ek. apply Hnew, list_elem_of_fmap. exists r'. split; [by rewrite E, Ek|done].
    - by rewrite list_lookup_total_insert_ne by lia. }
  unfold commit_link. fold i k n. pose proof (Hlnk r Hin) as Hrk. fold i k in Hrk. rewrite (Reserve_admitted _ _ _ Hn Hrk Hav). unfold admitted at 1. cbn [fst snd saf_status].
  rewrite bool_decide_eq_true_2 by done. cbn [negb]. cbn [List.filter] in Hndg. fold i in Hndg.
  destruct (grouped links i) eqn:Eg; cbn [negb].
  - destruct (Hgrp r Hin Eg) as (ga & Hga & Hgk). fold i k in Hga, Hgk. cbn [c_groups]. rewrite Hga.
    apply list.NoDup_cons in Hndg as [Hgnew Hndg]. fold i k in Hgnew. set (g := GroupKeyForLink links i) in *.
    assert (n <= Available ga) as Hgav.
    { pose proof (Hag r Hin Eg ga Hga) as H. rewrite sum_where_cons in H. unfold on_group at 1 in H. fold i n g in H. rewrite Eg, bool_decide_eq_true_2 in H by done.
      cbn [andb] in H. pose proof (Hrest (on_group g)). fold i g in H. lia. }
    rewrite (Reserve_admitted _ _ _ Hn Hgk Hgav). unfold admitted. cbn [fst snd saf_status]. rewrite bool_decide_eq_true_2 by done. cbn [negb].
    eexists. split; [reflexivity|]. split; [|split; [|split; [done|by exists ga]]].
    + split; cbn [c_links c_groups]; try done.
      * intros r' Hr'. unfold valid_idx. rewrite length_insert. apply Hidx. by right.
      * intros r' Hr'. apply Hpos. by right.
      * intros r' Hr' Hg'. destruct (Hgrp r' (list_elem_of_further _ _ _ Hr') Hg') as (a & Ha & Hk).
        destruct (decide (g = GroupKeyForLink links (q_idx r'))) as [E|E].
        -- rewrite <- E, lookup_insert_eq. eexists. split; [done|]. cbn. rewrite <- E in Ha. assert (a = ga) as -> by congruence.
           rewrite lookup_insert_ne; [done|]. intros Ek. apply Hgnew, list_elem_of_fmap. exists r'. split; [by rewrite <- E, <- Ek|].
           by apply list_elem_of_In, filter_In; split; [apply list_elem_of_In|].
        -- rewrite lookup_insert_ne by done. by exists a.
    + split; cbn [c_links c_groups]; [done|]. intros r' Hr' Hg' a Ha.
      destruct (decide (g = GroupKeyForLink links (q_idx r'))) as [E|E].
      * rewrite <- E, lookup_insert_eq in Ha. injection Ha as <-.
        pose proof (Hag r' (list_elem_of_further _ _ _ Hr') Hg' ga ltac:(by rewrite <- E)) as H. rewrite sum_where_cons in H. unfold on_group at 1 in H.
        fold i n g in H. rewrite Eg, <- E, bool_decide_eq_true_2 in H by done. rewrite <- E. unfold Available, with_reservation in *. cbn [capacity_ reserved_ andb] in *. lia.
      * rewrite lookup_insert_ne in Ha by done. pose proof (Hag r' (list_elem_of_further _ _ _ Hr') Hg' a Ha) as H. rewrite sum_where_cons in H.
        unfold on_group at 1 in H. fold i n g in H. rewrite bool_decide_eq_false_2, andb_false_r in H by done. lia.
  - eexists. split; [reflexivity|]. split; [|split; [|by split]].
    + split; cbn [c_links c_groups]; try done.
      * intros r' Hr'. unfold valid_idx. rewrite length_insert. apply Hidx. by right.
      * intros r' Hr'. apply Hpos. by right.
      * intros r' Hr'. apply Hgrp. by right.
    + split; cbn [c_links c_groups]; [done|]. intros r' Hr' Hg' a Ha.
      pose proof (Hag r' (list_elem_of_further _ _ _ Hr') Hg' a Ha) as H. rewrite sum_where_cons in H. unfold on_group at 1 in H. fold i in H. rewrite Eg in H. done.
Qed.
End demand.

(** *** The effect of a commit *)

Definition add_link (ls : list WholeFlowSafAdmission) (r : req) : list WholeFlowSafAdmission :=
  <[Z.to_nat (q_idx r) := with_reservation (ls !!! Z.to_nat (q_idx r)) (q_key r) (q_n r)]> ls.
Definition add_group (links : list D2DLink) (gs : gmap SafGroupKey WholeFlowSafAdmission) (r : req)
    : gmap SafGroupKey WholeFlowSafAdmission :=
  if grouped links (q_idx r) then
    match gs !! GroupKeyForLink links (q_idx r) with
    | Some a => <[GroupKeyForLink links (q_idx r) := with_reservation a (q_key r) (q_n r)]> gs
    | None => gs
    end
  else gs.

Lemma commit_reqs_ok links rs c : reqs_fresh links c rs -> enough links c rs -> exists c',
  commit_reqs links c rs = (c', None) /\ c_links c' = foldl add_link (c_links c) rs /\
  c_groups c' = foldl (add_group links) (c_groups c) rs.
Proof.
  revert c. induction rs as [|r rs IH]; intros c Hf He; cbn [commit_reqs foldl]; [by exists c|].
  destruct (commit_link_ok links c r rs Hf He) as (c1 & -> & Hf1 & He1 & Hl & Hg).
  destruct (IH c1 Hf1 He1) as (c' & -> & Hl' & Hg'). exists c'. split; [done|]. split; [by rewrite Hl', Hl|].
  rewrite Hg'. f_equal. unfold add_group. destruct (grouped links (q_idx r)); [|done].
  by destruct Hg as (a & -> & ->).
Qed.

Lemma length_add_links rs ls : length (foldl add_link ls rs) = length ls.
Proof. revert ls. induction rs as [|r rs IH]; intros ls; cbn; [done|]. rewrite IH. apply length_insert. Qed.

Lemma exists_cons {A} (P : A -> Prop) x l : (exists y, y ∈ x :: l /\ P y) <-> P x \/ exists y, y ∈ l /\ P y.
Proof. setoid_rewrite elem_of_cons. naive_solver. Qed.

(** Reservations after a commit: those of before and those of the requests. *)
Lemma add_links_spec rs ls : (forall r, r ∈ rs -> valid_idx ls (q_idx r)) ->
  (forall r, r ∈ rs -> reservations_ (ls !!! Z.to_nat (q_idx r)) !! q_key r = None) ->
  NoDup ((fun r => (q_idx r, q_key r)) <$> rs) -> forall i k n, valid_idx ls i ->
  (reservations_ (foldl add_link ls rs !!! Z.to_nat i) !! k = Some n <->
   reservations_ (ls !!! Z.to_nat i) !! k = Some n \/ exists r, r ∈ rs /\ q_idx r = i /\ q_key r = k /\ q_n r = n).
Proof.
  revert ls. induction rs as [|r rs IH]; intros ls Hv Hf Hnd i k n Hi; cbn [foldl].
  { split; [by left|]. intros [?|(r & Hr & _)]; [done|]. by apply elem_of_nil in Hr. }
  apply list.NoDup_cons in Hnd as [Hnew Hnd]. pose proof (Hv r (list_elem_of_here _ _)) as Hir.
  assert (forall j, valid_idx ls j -> add_link ls r !!! Z.to_nat j =
    if decide (j = q_idx r) then with_reservation (ls !!! Z.to_nat j) (q_key r) (q_n r) else ls !!! Z.to_nat j) as Hat.
  { intros j Hj. unfold add_link, valid_idx in *. destruct (decide (j = q_idx r)) as [->|].
    - by rewrite list_lookup_total_insert_eq by lia.
    - by rewrite list_lookup_total_insert_ne by lia. }
  assert (forall j, valid_idx ls j -> valid_idx (add_link ls r) j) as Hv'
    by (intros j; unfold valid_idx, add_link; by rewrite length_insert).
  rewrite IH; [|intros r' Hr'; apply Hv', Hv; by right| |done|by apply Hv'].
  - rewrite Hat by done. pose proof (Hf r (list_elem_of_here _ _)) as Hfr. destruct (decide (i = q_idx r)) as [->|Hne].
    + cbn. rewrite lookup_insert_Some, exists_cons. split; [intros [[(? & ?)|(? & ?)]|?]; tauto|].
      intros [H|[(_ & ? & ?)|?]]; [|tauto|tauto]. left. right. split; [congruence|done].
    + rewrite exists_cons. split; [tauto|]. intros [?|[(? & _)|?]]; [tauto|congruence|tauto].
  - intros r' Hr'. rewrite Hat by (apply Hv; by right). pose proof (Hf r' (list_elem_of_further _ _ _ Hr')) as H.
    destruct (decide (q_idx r' = q_idx r)) as [E|]; [|done]. cbn. rewrite lookup_insert_ne; [done|].
    intros Ek. apply Hnew, list_elem_of_fmap. exists r'. by rewrite E, Ek.
Qed.

Lemma add_groups_spec links rs gs :
  (forall r, r ∈ rs -> grouped links (q_idx r) = true ->
     exists a, gs !! GroupKeyForLink links (q_idx r) = Some a /\ reservations_ a !! q_key r = None) ->
  NoDup ((fun r => (GroupKeyForLink links (q_idx r), q_key r)) <$> List.filter (fun r => grouped links (q_idx r)) rs) ->
  forall g, (gs !! g = None <-> foldl (add_group links) gs rs !! g = None) /\
  forall a a', gs !! g = Some a -> foldl (add_group links) gs rs !! g = Some a' -> forall k n,
    (reservations_ a' !! k = Some n <-> reservations_ a !! k = Some n \/
       exists r, r ∈ rs /\ grouped links (q_idx r) = true /\ GroupKeyForLink links (q_idx r) = g /\ q_key r = k /\ q_n r = n).
Proof.
  revert gs. induction rs as [|r rs IH]; intros gs Hf Hnd g; cbn [foldl].
  { split; [done|]. intros a a' Ha Ha' k n. simplify_eq. split; [by left|]. intros [?|(r & Hr & _)]; [done|]. by apply elem_of_nil in Hr. }
  cbn [List.filter] in Hnd. unfold add_group at 2 4. destruct (grouped links (q_idx r)) eqn:Eg.
  2:{ destruct (IH gs (fun r' Hr' => Hf r' (list_elem_of_further _ _ _ Hr')) Hnd g) as [H1 H2]. split; [done|].
      intros a a' Ha Ha' k n. rewrite (H2 a a' Ha Ha'), exists_cons. split; [tauto|]. intros [?|[(? & _)|?]]; [tauto|congruence|tauto]. }
  apply list.NoDup_cons in Hnd as [Hnew Hnd]. destruct (Hf r (list_elem_of_here _ _) Eg) as (ga & Hga & Hgk). rewrite Hga.
  set (g0 := GroupKeyForLink links (q_idx r)) in *. set (gs1 := <[g0 := _]> gs).
  assert (forall r', r' ∈ rs -> grouped links (q_idx r') = true ->
    exists a, gs1 !! GroupKeyForLink links (q_idx r') = Some a /\ reservations_ a !! q_key r' = None) as Hf1.
  { intros r' Hr' Hg'. destruct (Hf r' (list_elem_of_further _ _ _ Hr') Hg') as (a & Ha & Hk). unfold gs1.
    destruct (decide (GroupKeyForLink links (q_idx r') = g0)) as [E|E].
    - rewrite E in *. rewrite lookup_insert_eq. eexists. split; [done|]. cbn. assert (a = ga) as -> by congruence.
      rewrite lookup_insert_ne; [done|]. intros Ek. apply Hnew, list_elem_of_fmap. exists r'. split; [by rewrite E, Ek|].
      by apply list_elem_of_In, filter_In; split; [apply list_elem_of_In|].
    - rewrite lookup_insert_ne by done. by exists a. }
  destruct (IH gs1 Hf1 Hnd g) as [H1 H2]. unfold gs1 in *. destruct (decide (g0 = g)) as [<-|Hne].
  - rewrite lookup_insert_eq in H1, H2. split; [rewrite <- H1; by rewrite Hga|]. intros a a' Ha Ha' k n.
    rewrite (H2 _ a' eq_refl Ha'). cbn. assert (a = ga) as -> by congruence. rewrite lookup_insert_Some, exists_cons.
    split; [intros [[(? & ?)|(? & ?)]|?]; tauto|].
    intros [H|[(_ & _ & ? & ?)|?]]; [|tauto|tauto]. left. right. split; [congruence|done].
  - rewrite lookup_insert_ne in H1, H2 by done. split; [done|]. intros a a' Ha Ha' k n. rewrite (H2 a a' Ha Ha'), exists_cons.
    split; [tauto|]. intros [?|[(_ & E & _)|?]]; [tauto|by destruct Hne|tauto].
Qed.

(** *** The preflight *)

Definition needs_of (links : list D2DLink) (acc : needs) (rs : list req) : needs :=
  foldl (fun acc r => plan_needs links (q_n r) acc (q_idx r)) acc rs.

Lemma add_need_spec {K} `{Countable K} (m : gmap K Z) k n k' :
  add_need m k n !! k' = if decide (k = k') then Some (default 0 (m !! k') + n) else m !! k'.
Proof. unfold add_need. case_decide as E; [subst; by rewrite lookup_insert_eq|by rewrite lookup_insert_ne]. Qed.

(** The need of a link or group is the demand of the requests on it. *)
Lemma needs_of_link links rs acc i : (needs_of links acc rs).1 !! i =
  if existsb (on_link i) rs then Some (default 0 (acc.1 !! i) + sum_where (on_link i) rs) else acc.1 !! i.
Proof.
  revert acc. induction rs as [|r rs IH]; intros acc; [done|]. cbn [needs_of foldl existsb]. rewrite sum_where_cons.
  fold (needs_of links (plan_needs links (q_n r) acc (q_idx r)) rs). rewrite IH. unfold plan_needs. cbn [fst].
  rewrite add_need_spec. unfold on_link at 3 5. destruct (Z.eqb_spec (q_idx r) i) as [E|E]; cbn [orb].
  - rewrite decide_True by done. destruct (existsb (on_link i) rs) eqn:Ex; cbn; [f_equal; lia|].
    f_equal. assert (sum_where (on_link i) rs = 0) as ->; [|lia]. clear -Ex. induction rs as [|x rs IH]; [done|].
    cbn in Ex. apply orb_false_iff in Ex as [E1 E2]. rewrite sum_where_cons, E1, (IH E2). done.
  - rewrite decide_False by done. by rewrite Z.add_0_l.
Qed.

Lemma needs_of_group links rs acc g : (needs_of links acc rs).2 !! g =
  if existsb (on_group links g) rs then Some (default 0 (acc.2 !! g) + sum_where (on_group links g) rs) else acc.2 !! g.
Proof.
  revert acc. induction rs as [|r rs IH]; intros acc; [done|]. cbn [needs_of foldl existsb]. rewrite sum_where_cons.
  fold (needs_of links (plan_needs links (q_n r) acc (q_idx r)) rs). rewrite IH. unfold plan_needs. cbn [snd].
  unfold on_group at 3 5. destruct (grouped links (q_idx r)); cbn [andb]; [|by rewrite Z.add_0_l].
  rewrite add_need_spec. case_bool_decide as E; cbn [orb].
  - rewrite decide_True by done. destruct (existsb (on_group links g) rs) eqn:Ex; cbn; [f_equal; lia|].
    f_equal. assert (sum_where (on_group links g) rs = 0) as ->; [|lia]. clear -Ex. induction rs as [|x rs IH]; [done|].
    cbn in Ex. apply orb_false_iff in Ex as [E1 E2]. rewrite sum_where_cons, E1, (IH E2). done.
  - rewrite decide_False by done. by rewrite Z.add_0_l.
Qed.

Definition start (s : saf_state) : commit := mkCommit (link_admission s) (group_admission s) [] [].

Lemma existsb_intro {A} (f : A -> bool) l x : x ∈ l -> f x = true -> existsb f l = true.
Proof. intros Hx Hf. apply existsb_exists. exists x. split; [by apply list_elem_of_In|done]. Qed.

Lemma collect_needs_spec s links plans acc nd : foldM (collect_needs s links) acc plans = Ok nd <->
  (forall p, p ∈ plans -> 0 < plan_packets p /\ flow_links s !! plan_key p = None) /\ nd = needs_of links acc (all_reqs plans).
Proof.
  revert acc. induction plans as [|p plans IH]; intros acc; cbn [foldM].
  { split; [intros [= <-]; split; [intros p Hp; by apply elem_of_nil in Hp|done]|]. by intros [_ ->]. }
  unfold all_reqs. rewrite bind_cons. unfold needs_of. rewrite foldl_app. fold (all_reqs plans).
  assert (foldl (fun acc r => plan_needs links (q_n r) acc (q_idx r)) acc (reqs_of p) =
          foldl (plan_needs links (plan_packets p)) acc (plan_path p)) as ->.
  { unfold reqs_of. generalize (plan_path p) as l. intros l. revert acc. induction l as [|i l IHl]; intros acc; cbn; [done|apply IHl]. }
  unfold collect_needs at 1. destruct (Z.leb_spec (plan_packets p) 0) as [Hn|Hn]; cbn.
  { split; [done|]. intros [H _]. destruct (H p (list_elem_of_here _ _)). lia. }
  case_bool_decide as Hk; cbn.
  { split; [done|]. intros [H _]. destruct (H p (list_elem_of_here _ _)) as [_ E]. rewrite E in Hk. by destruct Hk. }
  apply eq_None_not_Some in Hk. rewrite IH. unfold needs_of. split; intros [H ->]; (split; [|done]).
  - intros q [->|Hq]%elem_of_cons; [done|by apply H].
  - intros q Hq. apply H. by right.
Qed.

Lemma preflight_spec s links plans :
  (forall r, r ∈ all_reqs plans -> valid_idx (link_admission s) (q_idx r) /\
     (grouped links (q_idx r) = true -> is_Some (group_admission s !! GroupKeyForLink links (q_idx r)))) ->
  preflight s links plans = Ok tt <->
  (forall p, p ∈ plans -> 0 < plan_packets p /\ flow_links s !! plan_key p = None) /\ enough links (start s) (all_reqs plans).
Proof.
  intros Hv. unfold preflight. set (rs := all_reqs plans) in *.
  assert (forall nd, nd = needs_of links (∅, ∅) rs -> (foldM (check_link_need s) tt (map_to_list nd.1) ≫= fun _ =>
    foldM (check_group_need s) tt (map_to_list nd.2)) = Ok tt <-> enough links (start s) rs) as Hchk.
  { intros nd ->. set (nd := needs_of links (∅, ∅) rs).
    pose proof (foldM_is_ok (check_link_need s) (fun kn => exists a, link_admission s !! Z.to_nat kn.1 = Some a /\ kn.2 <= Available a)
      (map_to_list nd.1) tt) as Hl.
    pose proof (foldM_is_ok (check_group_need s) (fun kn => exists a, group_admission s !! kn.1 = Some a /\ kn.2 <= Available a)
      (map_to_list nd.2) tt) as Hg.
    assert (forall (a : WholeFlowSafAdmission) n, is_ok (throw_if (Available a <? n) rejected) = true <-> n <= Available a) as Hthrow.
    { intros a n. unfold throw_if. destruct (Z.ltb_spec (Available a) n); cbn; split; done || lia. }
    specialize (Hl ltac:(intros [] [k n] _; unfold check_link_need; cbn; destruct (_ !! _); [rewrite Hthrow|]; naive_solver)).
    specialize (Hg ltac:(intros [] [k n] _; unfold check_group_need; cbn; destruct (_ !! _); [rewrite Hthrow|]; naive_solver)).
    assert ((foldM (check_link_need s) tt (map_to_list nd.1) ≫= fun _ => foldM (check_group_need s) tt (map_to_list nd.2)) = Ok tt <->
      is_ok (foldM (check_link_need s) tt (map_to_list nd.1)) = true /\ is_ok (foldM (check_group_need s) tt (map_to_list nd.2)) = true) as ->.
    { destruct (foldM (check_link_need s) tt (map_to_list nd.1)) as [[]|e]; cbn; [|naive_solver].
      destruct (foldM (check_group_need s) tt (map_to_list nd.2)) as [[]|e]; naive_solver. }
    rewrite Hl, Hg. unfold enough. cbn [start c_links c_groups]. split; intros [H1 H2]; split.
    - intros r Hr. destruct (H1 (q_idx r, sum_where (on_link (q_idx r)) rs)) as (a & Ha & Hle).
      { apply elem_of_map_to_list. unfold nd. rewrite needs_of_link, (existsb_intro _ _ r Hr); [done|]. apply Z.eqb_refl. }
      by rewrite (list_lookup_total_correct _ _ _ Ha).
    - intros r Hr Hgr a Ha. destruct (H2 (GroupKeyForLink links (q_idx r), sum_where (on_group links (GroupKeyForLink links (q_idx r))) rs))
        as (a' & Ha' & Hle); [|cbn [fst snd] in Ha', Hle; by simplify_eq].
      apply elem_of_map_to_list. unfold nd. rewrite needs_of_group, (existsb_intro _ _ r Hr); [done|].
      unfold on_group. by rewrite Hgr, bool_decide_eq_true_2.
    - intros [k n] Hk%elem_of_map_to_list. unfold nd in Hk. rewrite needs_of_link in Hk. cbn [fst] in Hk.
      destruct (existsb (on_link k) rs) eqn:Ex; [|by rewrite lookup_empty in Hk]. injection Hk as <-.
      apply existsb_exists in Ex as (r & Hr & Hon). apply list_elem_of_In in Hr. apply Z.eqb_eq in Hon as <-. cbn [fst snd].
      exists (link_admission s !!! Z.to_nat (q_idx r)). split; [by apply valid_lookup, Hv|]. by apply H1.
    - intros [g n] Hk%elem_of_map_to_list. unfold nd in Hk. rewrite needs_of_group in Hk. cbn [snd] in Hk.
      destruct (existsb (on_group links g) rs) eqn:Ex; [|by rewrite lookup_empty in Hk]. injection Hk as <-.
      apply existsb_exists in Ex as (r & Hr & Hon). apply list_elem_of_In in Hr. unfold on_group in Hon.
      apply andb_prop in Hon as [Hgr <-%bool_decide_eq_true]. cbn [fst snd].
      destruct (proj2 (Hv r Hr) Hgr) as [a Ha]. exists a. split; [done|]. by apply (H2 r). }
  rewrite bind_ok. split.
  - intros (nd & [Hp Hnd]%collect_needs_spec & H). split; [done|]. by apply (Hchk nd).
  - intros [Hp He]. exists (needs_of links (∅, ∅) rs). split; [by apply collect_needs_spec|]. by apply Hchk.
Qed.

(** ** The invariant of the SAF run time *)

Definition links_of (s : saf_state) (k : FlowKey) : gset Z := default ∅ (flow_links s !! k).
Definition groups_of (s : saf_state) (k : FlowKey) : gset SafGroupKey := default ∅ (flow_groups s !! k).
Definition held (s : saf_state) (i : Z) (k : FlowKey) : option Z := reservations_ (link_admission s !!! Z.to_nat i) !! k.

(** A flow is listed on exactly the links and groups that hold its packets, and
    a link and its group hold the same number. *)
Record saf_wf (links : list D2DLink) (s : saf_state) : Prop := {
  sw_len : length (link_admission s) = length links;
  sw_links : forall i a, link_admission s !! i = Some a -> ledger_wf a;
  sw_groups : forall g a, group_admission s !! g = Some a -> ledger_wf a;
  sw_ledger : forall i, valid_idx (link_admission s) i -> grouped links i = true ->
    is_Some (group_admission s !! GroupKeyForLink links i);
  sw_flow : forall i k, i ∈ links_of s k <-> valid_idx (link_admission s) i /\ is_Some (held s i k);
  sw_flow_group : forall g k, g ∈ groups_of s k <-> exists i, i ∈ links_of s k /\ grouped links i = true /\ GroupKeyForLink links i = g;
  sw_group : forall g a k n, group_admission s !! g = Some a -> (reservations_ a !! k = Some n <->
    exists i, i ∈ links_of s k /\ grouped links i = true /\ GroupKeyForLink links i = g /\ held s i k = Some n);
  sw_one : forall k i j, i ∈ links_of s k -> j ∈ links_of s k -> grouped links i = true -> grouped links j = true ->
    GroupKeyForLink links i = GroupKeyForLink links j -> i = j;
  sw_nonempty : forall k, flow_links s !! k <> Some ∅
}.

(** What the callers pass: distinct flows, each on a path that uses a link and a
    group at most once. *)
Record plan_wf (links : list D2DLink) (p : SafPlan) : Prop := {
  pl_valid : forall i, i ∈ plan_path p -> 0 <= i < Z.of_nat (length links);
  pl_nonempty : plan_path p <> [];
  pl_links : NoDup (plan_path p);
  pl_groups : NoDup (GroupKeyForLink links <$> List.filter (grouped links) (plan_path p))
}.
Definition plans_wf (links : list D2DLink) (plans : list SafPlan) : Prop :=
  NoDup (plan_key <$> plans) /\ forall p, p ∈ plans -> plan_wf links p.

Lemma elem_of_all_reqs plans r : r ∈ all_reqs plans <->
  exists p, p ∈ plans /\ q_idx r ∈ plan_path p /\ q_key r = plan_key p /\ q_n r = plan_packets p.
Proof.
  unfold all_reqs, reqs_of. rewrite list_elem_of_bind. setoid_rewrite list_elem_of_fmap. split.
  - intros (p & (i & -> & Hi) & Hp). by exists p.
  - intros (p & Hp & Hi & Hk & Hn). exists p. split; [|done]. exists (q_idx r). split; [|done]. destruct r; cbn in *; congruence.
Qed.

Lemma plan_by_key plans p q : NoDup (plan_key <$> plans) -> p ∈ plans -> q ∈ plans -> plan_key p = plan_key q -> p = q.
Proof.
  intros Hnd [i Hi]%list_elem_of_lookup [j Hj]%list_elem_of_lookup E. assert (i = j) as <-; [|congruence].
  eapply (NoDup_lookup _ i j (plan_key p) Hnd); rewrite list_lookup_fmap, ?Hi, ?Hj; cbn; congruence.
Qed.

Lemma all_reqs_NoDup links plans : plans_wf links plans ->
  NoDup ((fun r => (q_idx r, q_key r)) <$> all_reqs plans) /\
  NoDup ((fun r => (GroupKeyForLink links (q_idx r), q_key r)) <$> List.filter (fun r => grouped links (q_idx r)) (all_reqs plans)).
Proof.
  intros [Hnd Hp]. assert (NoDup (all_reqs plans)) as Hall.
  { unfold all_reqs. apply NoDup_bind; [|intros p Hpp; unfold reqs_of; apply NoDup_fmap_2; [by intros ?? [= ->]|by apply Hp]|].
    - intros p q r Hpp Hqq (i & -> & _)%list_elem_of_fmap (j & [= _ E] & _)%list_elem_of_fmap. by eapply plan_by_key.
    - by eapply NoDup_fmap_1. }
  assert (forall r r', r ∈ all_reqs plans -> r' ∈ all_reqs plans -> q_key r = q_key r' -> exists p, p ∈ plans /\
    q_idx r ∈ plan_path p /\ q_idx r' ∈ plan_path p /\ q_n r = q_n r') as Hsame.
  { intros r r' (p & Hpp & Hi & Hk & Hn)%elem_of_all_reqs (q & Hq & Hj & Hk' & Hn')%elem_of_all_reqs E.
    assert (p = q) as <- by (eapply plan_by_key; [done..|congruence]). exists p. split_and!; congruence. }
  split.
  - apply NoDup_fmap_2_strong; [|done]. intros r r' Hr Hr' [= E1 E2]. destruct (Hsame r r' Hr Hr' E2) as (_ & _ & _ & _ & E3).
    destruct r, r'; cbn in *; congruence.
  - apply NoDup_fmap_2_strong; [|by apply NoDup_ListNoDup, List.NoDup_filter, NoDup_ListNoDup].
    intros r r' [Hr Hg]%list_elem_of_In%filter_In [Hr' Hg']%list_elem_of_In%filter_In E.
    apply list_elem_of_In in Hr, Hr'. pose proof (f_equal fst E) as Eg. pose proof (f_equal snd E) as Ek. cbn [fst snd] in Eg, Ek.
    destruct (Hsame r r' Hr Hr' Ek) as (p & Hpp & Hi & Hj & En). pose proof (pl_groups _ _ (Hp p Hpp)) as Hndg.
    assert (q_idx r = q_idx r') as Ei; [|destruct r, r'; cbn in *; congruence].
    assert (q_idx r ∈ List.filter (grouped links) (plan_path p)) as [a Ha]%list_elem_of_lookup
      by (apply list_elem_of_In, filter_In; split; [by apply list_elem_of_In|done]).
    assert (q_idx r' ∈ List.filter (grouped links) (plan_path p)) as [b Hb]%list_elem_of_lookup
      by (apply list_elem_of_In, filter_In; split; [by apply list_elem_of_In|done]).
    assert (a = b) as <-; [|congruence]. eapply (NoDup_lookup _ a b (GroupKeyForLink links (q_idx r)) Hndg);
      rewrite list_lookup_fmap, ?Ha, ?Hb; cbn; [done|]. by rewrite Eg.
Qed.

Lemma plans_fresh links s plans : saf_wf links s -> plans_wf links plans ->
  (forall p, p ∈ plans -> 0 < plan_packets p /\ flow_links s !! plan_key p = None) -> reqs_fresh links (start s) (all_reqs plans).
Proof.
  intros Hs Hp Hf. destruct (all_reqs_NoDup _ _ Hp) as [Hn1 Hn2].
  assert (forall r, r ∈ all_reqs plans -> valid_idx (link_admission s) (q_idx r) /\ 0 < q_n r /\ links_of s (q_key r) = ∅) as Hall.
  { intros r (p & Hpp & Hi & Hk & Hn)%elem_of_all_reqs. destruct (Hf p Hpp) as [Hpos Hfl]. split; [|split; [by rewrite Hn|]].
    - unfold valid_idx. rewrite (sw_len _ _ Hs). by eapply pl_valid; [apply Hp|].
    - unfold links_of. by rewrite Hk, Hfl. }
  split; try done; cbn [start c_links c_groups].
  - intros r Hr. by apply Hall.
  - intros r Hr. by apply Hall.
  - intros r Hr. destruct (Hall r Hr) as (Hv & _ & He). apply eq_None_not_Some. intros Hsome.
    assert (q_idx r ∈ links_of s (q_key r)) as Hin by by apply (sw_flow _ _ Hs). rewrite He in Hin. set_solver.
  - intros r Hr Hg. destruct (Hall r Hr) as (Hv & _ & He). destruct (sw_ledger _ _ Hs _ Hv Hg) as [a Ha]. exists a. split; [done|].
    apply eq_None_not_Some. intros [n Hn]. apply (sw_group _ _ Hs _ _ _ _ Ha) in Hn as (i & Hi & _). rewrite He in Hi. set_solver.
Qed.

(** *** The flow tables after a reservation *)

Lemma record_flows_ledgers links s plans : let s' := foldl (record_flow links) s plans in
  link_admission s' = link_admission s /\ group_admission s' = group_admission s /\
  admission_successes s' = admission_successes s /\ admission_rejects s' = admission_rejects s.
Proof. revert s. induction plans as [|p plans IH]; intros s; [done|]. cbn [foldl]. apply (IH (record_flow links s p)). Qed.

Lemma default_insert {K V} `{Countable K, Countable V} (m : gmap K (gset V)) k k' v :
  default ∅ (<[k := v]> m !! k') = if decide (k = k') then v else default ∅ (m !! k').
Proof. case_decide as E; [subst; by rewrite lookup_insert_eq|by rewrite lookup_insert_ne]. Qed.

Lemma record_flow_links links s p i k : i ∈ links_of (record_flow links s p) k <->
  (if decide (plan_key p = k) then i ∈ plan_path p else i ∈ links_of s k).
Proof. unfold links_of, record_flow. cbn [flow_links]. rewrite default_insert. case_decide; [apply elem_of_list_to_set|done]. Qed.

Lemma record_flow_groups links s p g k : g ∈ groups_of (record_flow links s p) k <-> g ∈ groups_of s k \/
  (plan_key p = k /\ exists i, i ∈ plan_path p /\ grouped links i = true /\ GroupKeyForLink links i = g).
Proof.
  set (gs := list_to_set (GroupKeyForLink links <$> List.filter (grouped links) (plan_path p)) : gset SafGroupKey).
  assert (g ∈ gs <-> exists i, i ∈ plan_path p /\ grouped links i = true /\ GroupKeyForLink links i = g) as <-.
  { unfold gs. rewrite elem_of_list_to_set, list_elem_of_fmap. setoid_rewrite list_elem_of_In. setoid_rewrite filter_In. naive_solver. }
  unfold groups_of, record_flow. cbn [flow_groups]. fold gs. case_bool_decide as E; [rewrite E; set_solver|].
  rewrite default_insert. case_decide as Ek; [subst k|]; set_solver.
Qed.

(** A new flow is listed on the links and groups of its path, and the other flows
    where they were. *)
Lemma record_flows_spec links plans s : NoDup (plan_key <$> plans) -> (forall p, p ∈ plans -> links_of s (plan_key p) = ∅) ->
  forall k, let s' := foldl (record_flow links) s plans in
  (forall i, i ∈ links_of s' k <-> i ∈ links_of s k \/ exists r, r ∈ all_reqs plans /\ q_idx r = i /\ q_key r = k) /\
  (forall g, g ∈ groups_of s' k <-> g ∈ groups_of s k \/
     exists r, r ∈ all_reqs plans /\ q_key r = k /\ grouped links (q_idx r) = true /\ GroupKeyForLink links (q_idx r) = g).
Proof.
  revert s. induction plans as [|p plans IH]; intros s Hnd Hf k; cbn [foldl].
  { split; intros x; (split; [by left|]; intros [?|(r & Hr & _)]; [done|]; by apply elem_of_nil in Hr). }
  apply list.NoDup_cons in Hnd as [Hnew Hnd].
  assert (forall q, q ∈ plans -> links_of (record_flow links s p) (plan_key q) = ∅) as Hf1.
  { intros q Hq. apply set_eq. intros i. rewrite record_flow_links, decide_False, (Hf q (list_elem_of_further _ _ _ Hq)); [done|].
    intros E. apply Hnew. rewrite E. apply list_elem_of_fmap. by exists q. }
  destruct (IH _ Hnd Hf1 k) as [H1 H2]. pose proof (Hf p (list_elem_of_here _ _)) as Hp. split.
  - intros i. rewrite H1, record_flow_links. setoid_rewrite elem_of_all_reqs. setoid_rewrite elem_of_cons. split.
    + intros [H|H]; [|naive_solver]. case_decide as E; [|by left]. right. exists (mkReq i k (plan_packets p)). cbn. naive_solver.
    + intros [H|(r & (q & [->|Hq] & Hi & Hk & Hn) & <- & <-)].
      * left. rewrite decide_False; [done|]. intros <-. rewrite Hp in H. set_solver.
      * left. by rewrite decide_True.
      * right. naive_solver.
  - intros g. rewrite H2, record_flow_groups. setoid_rewrite elem_of_all_reqs. setoid_rewrite elem_of_cons. split.
    + intros [[H|(E & i & Hi & Hg & Hgk)]|H]; [by left| |naive_solver]. right. exists (mkReq i k (plan_packets p)). cbn. naive_solver.
    + intros [H|(r & (q & [->|Hq] & Hi & Hk & Hn) & <- & Hg & <-)]; [by left; left|left; right; naive_solver|right; naive_solver].
Qed.

Lemma record_flows_nonempty links plans s : (forall p, p ∈ plans -> plan_path p <> []) -> (forall k, flow_links s !! k <> Some ∅) ->
  forall k, flow_links (foldl (record_flow links) s plans) !! k <> Some ∅.
Proof.
  revert s. induction plans as [|p plans IH]; intros s Hp Hs; cbn [foldl]; [done|]. apply IH; [intros q Hq; apply Hp; by right|].
  intros k. cbn [record_flow flow_links]. intros [[_ E]|[_ E]]%lookup_insert_Some; [|by eapply Hs].
  pose proof (Hp p (list_elem_of_here _ _)) as Hne. destruct (plan_path p) as [|i l]; [done|]. set_solver.
Qed.

Definition recorded (links : list D2DLink) (c : commit) (s : saf_state) (plans : list SafPlan) : saf_state :=
  foldl (record_flow links)
    (mkSaf (c_links c) (flow_links s) (c_groups c) (flow_groups s) (admission_successes s) (admission_rejects s)) plans.

Lemma start_wf links s : saf_wf links s -> commit_wf (start s) /\ restores (start s) (link_admission s) (group_admission s).
Proof. intros Hs. split; [split; [apply (sw_links _ _ Hs)|apply (sw_groups _ _ Hs)]|done]. Qed.

Lemma held_flow links s i k : saf_wf links s -> links_of s k = ∅ -> valid_idx (link_admission s) i -> held s i k = None.
Proof.
  intros Hs He Hv. apply eq_None_not_Some. intros Hh. assert (i ∈ links_of s k) as Hin by by apply (sw_flow _ _ Hs).
  rewrite He in Hin. set_solver.
Qed.

Lemma one_req_per_group links plans r r' : plans_wf links plans -> r ∈ all_reqs plans -> r' ∈ all_reqs plans ->
  q_key r' = q_key r -> grouped links (q_idx r) = true -> grouped links (q_idx r') = true ->
  GroupKeyForLink links (q_idx r) = GroupKeyForLink links (q_idx r') -> r = r'.
Proof.
  intros Hp Hr Hr' Ek Hg Hg' Eg. destruct (all_reqs_NoDup _ _ Hp) as [_ Hnd].
  set (L := List.filter (fun r => grouped links (q_idx r)) (all_reqs plans)) in *.
  assert (forall x, x ∈ all_reqs plans -> grouped links (q_idx x) = true -> exists a, L !! a = Some x) as HL
    by (intros x Hx Hgx; apply list_elem_of_lookup, list_elem_of_In, filter_In; split; [by apply list_elem_of_In|done]).
  destruct (HL r Hr Hg) as [a Ha], (HL r' Hr' Hg') as [b Hb]. assert (a = b) as <-; [|congruence].
  apply (NoDup_lookup _ a b (GroupKeyForLink links (q_idx r), q_key r) Hnd); rewrite list_lookup_fmap.
  - by rewrite Ha.
  - rewrite Hb. cbn. by rewrite Eg, Ek.
Qed.

(** A commit that succeeds leads to a well-formed state again. *)
Lemma recorded_wf links s plans c : saf_wf links s -> plans_wf links plans ->
  (forall p, p ∈ plans -> 0 < plan_packets p /\ flow_links s !! plan_key p = None) ->
  commit_reqs links (start s) (all_reqs plans) = (c, None) ->
  c_links c = foldl add_link (link_admission s) (all_reqs plans) ->
  c_groups c = foldl (add_group links) (group_admission s) (all_reqs plans) ->
  saf_wf links (recorded links c s plans).
Proof.
  intros Hs Hp Hf Hc Hcl Hcg. set (rs := all_reqs plans) in *. pose proof (plans_fresh _ _ _ Hs Hp Hf) as Hfr. fold rs in Hfr.
  destruct (start_wf _ _ Hs) as [Hw0 Hr0].
  destruct (commit_reqs_restores links rs (start s) c None _ _ Hw0 Hr0 (rf_idx _ _ _ Hfr) Hc) as (Hw & _ & Hlen). cbn in Hlen.
  assert (forall p, p ∈ plans -> links_of s (plan_key p) = ∅) as Hempty
    by (intros p Hpp; unfold links_of; by rewrite (proj2 (Hf p Hpp))).
  set (s0 := mkSaf (c_links c) (flow_links s) (c_groups c) (flow_groups s) (admission_successes s) (admission_rejects s)).
  pose proof (record_flows_spec links plans s0 (proj1 Hp) Hempty) as Hrec. fold rs in Hrec.
  destruct (record_flows_ledgers links s0 plans) as (El & Eg & _). cbn in El, Eg.
  change (foldl (record_flow links) s0 plans) with (recorded links c s plans) in *.
  assert (forall r, r ∈ rs -> links_of s (q_key r) = ∅) as Hreq.
  { intros r (p & Hpp & _ & -> & _)%elem_of_all_reqs. by apply Hempty. }
  assert (forall i k n, valid_idx (link_admission s) i -> (held (recorded links c s plans) i k = Some n <->
    held s i k = Some n \/ exists r, r ∈ rs /\ q_idx r = i /\ q_key r = k /\ q_n r = n)) as Hheld.
  { intros i k n Hi. unfold held. rewrite El, Hcl. apply (add_links_spec rs (link_admission s) (rf_idx _ _ _ Hfr) (rf_link _ _ _ Hfr) (rf_links _ _ _ Hfr)). done. }
  pose proof (add_groups_spec links rs (group_admission s) (rf_group _ _ _ Hfr) (rf_groups _ _ _ Hfr)) as Hgs.
  assert (forall i, valid_idx (c_links c) i <-> valid_idx (link_admission s) i) as Hvi by (intros i; unfold valid_idx; by rewrite Hlen).
  split; rewrite ?El, ?Eg.
  - by rewrite Hlen, (sw_len _ _ Hs).
  - apply (cw_links _ Hw).
  - apply (cw_groups _ Hw).
  - intros i Hi Hg. apply Hvi in Hi. apply not_eq_None_Some. rewrite Hcg. intros E. apply Hgs in E. destruct (sw_ledger _ _ Hs i Hi Hg). congruence.
  - intros i k. destruct (Hrec k) as [-> _]. rewrite Hvi. unfold links_of at 1. cbn [s0 flow_links]. fold (links_of s k).
    rewrite (sw_flow _ _ Hs). split.
    + intros [[Hi [n Hn]]|(r & Hr & <- & <-)]; (split; [done || by apply (rf_idx _ _ _ Hfr)|]).
      * exists n. apply Hheld; [done|by left].
      * exists (q_n r). apply Hheld; [by apply (rf_idx _ _ _ Hfr)|right; by exists r].
    + intros [Hi [n Hn]]. apply Hheld in Hn as [Hn|(r & Hr & <- & <- & _)]; [left; by split|right; by exists r|done].
  - intros g k. destruct (Hrec k) as [Hl ->]. setoid_rewrite Hl. unfold groups_of, links_of. cbn [s0 flow_groups flow_links].
    fold (groups_of s k) (links_of s k). rewrite (sw_flow_group _ _ Hs). naive_solver.
  - intros g a k n Ha. rewrite Hcg in Ha. destruct (Hgs g) as [Hnone Hsome].
    destruct (group_admission s !! g) as [a0|] eqn:Ea0; [|by rewrite (proj1 Hnone eq_refl) in Ha].
    rewrite (Hsome a0 a eq_refl Ha k n), (sw_group _ _ Hs _ _ _ _ Ea0). destruct (Hrec k) as [Hl _]. setoid_rewrite Hl.
    unfold links_of at 2. cbn [s0 flow_links]. fold (links_of s k). split.
    + intros [(i & Hi & Hg & Hgk & Hh)|(r & Hr & Hg & Hgk & <- & <-)].
      * exists i. split_and!; [by left|done..|]. apply Hheld; [by apply (sw_flow _ _ Hs) in Hi as [? _]|by left].
      * exists (q_idx r). split_and!; [right; by exists r|done..|]. apply Hheld; [by apply (rf_idx _ _ _ Hfr)|right; by exists r].
    + intros (i & [Hi|(r & Hr & <- & <-)] & Hg & Hgk & Hh).
      * pose proof (proj1 (proj1 (sw_flow _ _ Hs i k) Hi)) as Hv. apply Hheld in Hh as [Hh|(r & Hr & <- & <- & <-)]; [left; by exists i|right; by exists r|done].
      * pose proof (rf_idx _ _ _ Hfr r Hr) as Hv. apply Hheld in Hh as [Hh|(r' & Hr' & E1 & E2 & E3)]; [|right|done].
        -- rewrite (held_flow _ _ _ _ Hs (Hreq r Hr) Hv) in Hh. done.
        -- exists r'. by rewrite E1.
  - intros k i j. destruct (Hrec k) as [Hl _]. rewrite !Hl. unfold links_of. cbn [s0 flow_links]. fold (links_of s k).
    intros [Hi|(r & Hr & <- & <-)] [Hj|(r' & Hr' & <- & E)] Hgi Hgj Eg'.
    + by eapply (sw_one _ _ Hs).
    + subst k. rewrite (Hreq r' Hr') in Hi. set_solver.
    + rewrite (Hreq r Hr) in Hj. set_solver.
    + by rewrite (one_req_per_group links plans r r').
  - apply record_flows_nonempty; [intros p Hpp; by apply (pl_nonempty _ _ (proj2 Hp p Hpp))|apply (sw_nonempty _ _ Hs)].
Qed.

(** *** Reservation is all or nothing *)

(** Positive sizes, no flow active yet, and every link and group of the paths has
    room for all the packets that the plans together put on it. *)
Definition feasible (links : list D2DLink) (s : saf_state) (plans : list SafPlan) : Prop :=
  (forall p, p ∈ plans -> 0 < plan_packets p /\ flow_links s !! plan_key p = None) /\ enough links (start s) (all_reqs plans).

Definition with_rejects (s : saf_state) (n : Z) : saf_state :=
  mkSaf (link_admission s) (flow_links s) (group_admission s) (flow_groups s) (admission_successes s) n.

Lemma with_rejects_wf links s n : saf_wf links s -> saf_wf links (with_rejects s n).
Proof. by intros []. Qed.

Lemma ReserveSafPlans_err cfg links s plans e : bounded cfg = true -> length (link_admission s) = length links ->
  preflight s links plans = Err e ->
  ReserveSafPlans cfg links s plans = (with_rejects s (admission_rejects s + b2z (bool_decide (e = rejected))), Some e).
Proof. intros Hb Hl He. unfold ReserveSafPlans. rewrite Hb, Hl, Nat.eqb_refl, He. done. Qed.

Lemma ReserveSafPlans_ok cfg links s plans c : bounded cfg = true -> length (link_admission s) = length links ->
  preflight s links plans = Ok tt -> commit_reqs links (start s) (all_reqs plans) = (c, None) ->
  ReserveSafPlans cfg links s plans =
    (mkSaf (c_links c) (flow_links (recorded links c s plans)) (c_groups c) (flow_groups (recorded links c s plans))
       (admission_successes s + 1) (admission_rejects s), None).
Proof.
  intros Hb Hl Hp Hc. unfold ReserveSafPlans. rewrite Hb, Hl, Nat.eqb_refl, Hp, commit_plans_reqs. cbn [negb].
  fold (start s). rewrite Hc. fold (recorded links c s plans). unfold recorded at 1 3 5 6.
  destruct (record_flows_ledgers links
    (mkSaf (c_links c) (flow_links s) (c_groups c) (flow_groups s) (admission_successes s) (admission_rejects s)) plans)
    as (-> & -> & -> & ->). done.
Qed.

Lemma plans_valid links s plans : saf_wf links s -> plans_wf links plans -> forall r, r ∈ all_reqs plans ->
  valid_idx (link_admission s) (q_idx r) /\
  (grouped links (q_idx r) = true -> is_Some (group_admission s !! GroupKeyForLink links (q_idx r))).
Proof.
  intros Hs Hp r (p & Hpp & Hi & _)%elem_of_all_reqs. assert (valid_idx (link_admission s) (q_idx r)) as Hv.
  { unfold valid_idx. rewrite (sw_len _ _ Hs). by eapply pl_valid; [apply Hp|]. }
  split; [done|]. by apply (sw_ledger _ _ Hs).
Qed.

Lemma reserve_spec cfg links s plans : bounded cfg = true -> saf_wf links s -> plans_wf links plans ->
  (feasible links s plans /\ exists c, c_links c = foldl add_link (link_admission s) (all_reqs plans) /\
     c_groups c = foldl (add_group links) (group_admission s) (all_reqs plans) /\ saf_wf links (recorded links c s plans) /\
     ReserveSafPlans cfg links s plans =
       (mkSaf (c_links c) (flow_links (recorded links c s plans)) (c_groups c) (flow_groups (recorded links c s plans))
          (admission_successes s + 1) (admission_rejects s), None)) \/
  (~ feasible links s plans /\ exists e,
     ReserveSafPlans cfg links s plans = (with_rejects s (admission_rejects s + b2z (bool_decide (e = rejected))), Some e)).
Proof.
  intros Hb Hs Hp. pose proof (preflight_spec s links plans (plans_valid _ _ _ Hs Hp)) as Hpre. fold (feasible links s plans) in Hpre.
  destruct (preflight s links plans) as [[]|e] eqn:E.
  - left. assert (feasible links s plans) as Hf by by apply Hpre. split; [done|]. destruct Hf as [Hf He].
    destruct (commit_reqs_ok links _ _ (plans_fresh _ _ _ Hs Hp Hf) He) as (c & Hc & Hcl & Hcg). exists c.
    split; [done|]. split; [done|]. split; [by apply recorded_wf|]. apply ReserveSafPlans_ok; [done|apply Hs|done|done].
  - right. split; [by intros H%Hpre|]. exists e. apply ReserveSafPlans_err; [done|apply Hs|done].
Qed.

Lemma recorded_wf_ledgers links c s plans ok rej : saf_wf links (recorded links c s plans) ->
  saf_wf links (mkSaf (c_links c) (flow_links (recorded links c s plans)) (c_groups c) (flow_groups (recorded links c s plans)) ok rej).
Proof.
  intros H. destruct (record_flows_ledgers links
    (mkSaf (c_links c) (flow_links s) (c_groups c) (flow_groups s) (admission_successes s) (admission_rejects s)) plans) as (El & Eg & _).
  fold (recorded links c s plans) in El, Eg. cbn in El, Eg. destruct (recorded links c s plans). cbn in *. subst. by destruct H.
Qed.

Lemma reserve_wf cfg links s plans : bounded cfg = true -> saf_wf links s -> plans_wf links plans ->
  saf_wf links (ReserveSafPlans cfg links s plans).1.
Proof.
  intros Hb Hs Hp. destruct (reserve_spec cfg links s plans Hb Hs Hp) as [(_ & c & _ & _ & Hw & ->)|(_ & e & ->)].
  - by apply recorded_wf_ledgers.
  - by apply with_rejects_wf.
Qed.

(** C17: a reservation of well-formed plans is all or nothing: it succeeds
    exactly when it is feasible (all sizes positive, no flow active, room on
    every link and group for the demand of all the plans together); then each
    link of each path holds exactly the packets of its plans besides what it
    held before.  Otherwise nothing changes but the reject counter. *)
Theorem saf_reservation_atomic cfg links s plans : bounded cfg = true -> saf_wf links s -> plans_wf links plans ->
  let r := ReserveSafPlans cfg links s plans in
  saf_wf links r.1 /\
  (r.2 = None <-> feasible links s plans) /\
  (r.2 = None -> admission_successes r.1 = admission_successes s + 1 /\ forall i k n, 0 <= i < Z.of_nat (length links) ->
     (held r.1 i k = Some n <-> held s i k = Some n \/
        exists p, p ∈ plans /\ i ∈ plan_path p /\ plan_key p = k /\ plan_packets p = n)) /\
  (forall e, r.2 = Some e -> r.1 = with_rejects s (admission_rejects s + b2z (bool_decide (e = rejected)))).
Proof.
  intros Hb Hs Hp. cbn zeta. split; [by apply reserve_wf|].
  destruct (reserve_spec cfg links s plans Hb Hs Hp) as [(Hf & c & Hcl & _ & _ & ->)|(Hf & e & ->)]; cbn [fst snd].
  - split; [done|]. split; [|done]. intros _. split; [done|]. intros i k n Hi. unfold held. cbn [link_admission]. rewrite Hcl.
    pose proof (plans_fresh _ _ _ Hs Hp (proj1 Hf)) as Hfr.
    rewrite (add_links_spec _ _ (rf_idx _ _ _ Hfr) (rf_link _ _ _ Hfr) (rf_links _ _ _ Hfr)) by (unfold valid_idx; cbn; by rewrite (sw_len _ _ Hs)).
    setoid_rewrite elem_of_all_reqs. split; (intros [?|H]; [by left|right]).
    + naive_solver.
    + destruct H as (p & H1 & H2 & H3 & H4). exists (mkReq i k n). cbn. naive_solver.
  - split; [done|]. split; [done|]. by intros e' [= <-].
Qed.

(** *** Release *)

Definition without (n : Z) (k : FlowKey) (a : WholeFlowSafAdmission) : WholeFlowSafAdmission :=
  mkLedger (capacity_ a) (reserved_ a - n) (delete k (reservations_ a)).

(** The state without the reservation of flow [k] on link [i]. *)
Definition released (links : list D2DLink) (s : saf_state) (i : Z) (k : FlowKey) (n : Z) : saf_state :=
  mkSaf (<[Z.to_nat i := without n k (link_admission s !!! Z.to_nat i)]> (link_admission s))
    (set_or_erase (flow_links s) k (links_of s k ∖ {[i]}))
    (if grouped links i then alter (without n k) (GroupKeyForLink links i) (group_admission s) else group_admission s)
    (if grouped links i then set_or_erase (flow_groups s) k (groups_of s k ∖ {[GroupKeyForLink links i]}) else flow_groups s)
    (admission_successes s) (admission_rejects s).

Lemma set_or_erase_default {K V} `{Countable K, Countable V} (m : gmap K (gset V)) k k' v :
  default ∅ (set_or_erase m k v !! k') = if decide (k = k') then v else default ∅ (m !! k').
Proof.
  unfold set_or_erase. case_bool_decide as E; [|by apply default_insert].
  case_decide as Ek; [subst k'; by rewrite lookup_delete_eq, E|by rewrite lookup_delete_ne].
Qed.

Lemma set_or_erase_nonempty {K V} `{Countable K, Countable V} (m : gmap K (gset V)) k v :
  (forall k', m !! k' <> Some ∅) -> forall k', set_or_erase m k v !! k' <> Some ∅.
Proof.
  intros Hm k'. unfold set_or_erase. case_bool_decide as E.
  - intros [_ Hk]%lookup_delete_Some. by eapply Hm.
  - intros [[_ Hk]|[_ Hk]]%lookup_insert_Some; [done|by eapply Hm].
Qed.

Lemma flow_valid links s i k : saf_wf links s -> i ∈ links_of s k -> valid_idx (link_admission s) i.
Proof. intros Hs [? _]%(sw_flow _ _ Hs). done. Qed.

(** A group holds what its links hold. *)
Lemma group_held links s i k n : saf_wf links s -> i ∈ links_of s k -> held s i k = Some n -> grouped links i = true ->
  exists a, group_admission s !! GroupKeyForLink links i = Some a /\ reservations_ a !! k = Some n.
Proof.
  intros Hs Hi Hh Hg. destruct (proj1 (sw_flow _ _ Hs i k) Hi) as [Hv _]. destruct (sw_ledger _ _ Hs i Hv Hg) as [a Ha].
  exists a. split; [done|]. apply (sw_group _ _ Hs _ _ _ _ Ha). by exists i.
Qed.

Section release.
Context (links : list D2DLink) (s : saf_state) (i : Z) (k : FlowKey) (n : Z).
Context (Hs : saf_wf links s) (Hi : i ∈ links_of s k) (Hh : held s i k = Some n).

Lemma released_links j k' : j ∈ links_of (released links s i k n) k' <-> j ∈ links_of s k' /\ (j, k') <> (i, k).
Proof using.
  unfold links_of at 1. cbn [released flow_links]. rewrite set_or_erase_default. fold (links_of s k').
  case_decide as E; [subst k'|]; rewrite ?elem_of_difference, ?elem_of_singleton.
  - split; intros [? H]; (split; [done|]); [intros [= ?]; done|intros ->; done].
  - split; [intros ?; split; [done|congruence]|by intros [? _]].
Qed.

Lemma released_groups g k' : g ∈ groups_of (released links s i k n) k' <->
  g ∈ groups_of s k' /\ ~ (grouped links i = true /\ g = GroupKeyForLink links i /\ k' = k).
Proof using.
  unfold groups_of at 1. cbn [released flow_groups]. destruct (grouped links i).
  - rewrite set_or_erase_default. fold (groups_of s k'). case_decide as E; [subst k'|]; rewrite ?elem_of_difference, ?elem_of_singleton; naive_solver.
  - fold (groups_of s k'). naive_solver.
Qed.

Lemma released_held j k' : valid_idx (link_admission s) j ->
  held (released links s i k n) j k' = if decide ((j, k') = (i, k)) then None else held s j k'.
Proof using Hi Hs.
  intros Hj. destruct (proj1 (sw_flow _ _ Hs i k) Hi) as [Hv _]. unfold held at 1. cbn [released link_admission]. unfold valid_idx in *.
  destruct (decide (j = i)) as [->|Hne].
  - rewrite list_lookup_total_insert_eq by lia. cbn. destruct (decide (k' = k)) as [->|Hk].
    + by rewrite lookup_delete_eq, decide_True.
    + rewrite lookup_delete_ne by done. rewrite decide_False by congruence. done.
  - rewrite list_lookup_total_insert_ne by lia. rewrite decide_False by congruence. done.
Qed.

Lemma without_wf a : ledger_wf a -> reservations_ a !! k = Some n -> ledger_wf (without n k a).
Proof using. intros Ha Hk. by apply Release_spec. Qed.

Lemma released_group_ledger g a' : group_admission (released links s i k n) !! g = Some a' ->
  exists a, group_admission s !! g = Some a /\
  a' = if decide (grouped links i = true /\ g = GroupKeyForLink links i) then without n k a else a.
Proof using.
  cbn [released group_admission]. destruct (grouped links i) eqn:Eg; [|intros H; exists a'; rewrite decide_False by (intros [? _]; done); done].
  destruct (decide (g = GroupKeyForLink links i)) as [->|Hne].
  - rewrite lookup_alter_eq. intros (a & -> & ->)%fmap_Some. exists a. by rewrite decide_True.
  - rewrite lookup_alter_ne by done. intros H. exists a'. rewrite decide_False by naive_solver. done.
Qed.

Lemma released_wf : saf_wf links (released links s i k n).
Proof using Hh Hi Hs.
  destruct (proj1 (sw_flow _ _ Hs i k) Hi) as [Hv _].
  assert (forall j, valid_idx (link_admission (released links s i k n)) j <-> valid_idx (link_admission s) j) as Hvi
    by (intros j; unfold valid_idx; cbn [released link_admission]; by rewrite length_insert).
  split.
  - cbn [released link_admission]. rewrite length_insert. apply (sw_len _ _ Hs).
  - intros j a. cbn [released link_admission]. intros [(<- & <- & _)|[_ Ha]]%list_lookup_insert_Some; [|by apply (sw_links _ _ Hs j)].
    apply without_wf; [|done]. by apply (sw_links _ _ Hs (Z.to_nat i)), valid_lookup.
  - intros g a' (a & Ha & ->)%released_group_ledger. pose proof (sw_groups _ _ Hs g a Ha) as Hw. case_decide as E; [|done].
    destruct E as [Hg ->]. destruct (group_held _ _ _ _ _ Hs Hi Hh Hg) as (b & Hb & Hbk). apply without_wf; [done|congruence].
  - intros j Hj Hg. apply Hvi in Hj. destruct (sw_ledger _ _ Hs j Hj Hg) as [a Ha]. cbn [released group_admission].
    destruct (grouped links i); [|by exists a]. by rewrite lookup_alter_is_Some, Ha.
  - intros j k'. rewrite released_links, Hvi, (sw_flow _ _ Hs). split.
    + intros [[Hj Hk] Hne]. split; [done|]. by rewrite released_held, decide_False.
    + intros [Hj Hk]. rewrite released_held in Hk by done. case_decide; [by destruct Hk|done].
  - intros g k'. rewrite released_groups, (sw_flow_group _ _ Hs). setoid_rewrite released_links. split.
    + intros [(j & Hj & Hg & Hgk) Hne]. exists j. split; [split; [done|]|done]. intros [= -> ->]. by apply Hne.
    + intros (j & [Hj Hne] & Hg & Hgk). split; [by exists j|]. intros (Hgi & -> & ->). apply Hne. f_equal. by eapply (sw_one _ _ Hs).
  - intros g a' k' m (a & Ha & ->)%released_group_ledger. setoid_rewrite released_links.
    assert (reservations_ (if decide (grouped links i = true /\ g = GroupKeyForLink links i) then without n k a else a) !! k' = Some m <->
      reservations_ a !! k' = Some m /\ ~ (grouped links i = true /\ g = GroupKeyForLink links i /\ k' = k)) as ->.
    { case_decide as E; [cbn; rewrite lookup_delete_Some|]; naive_solver. }
    rewrite (sw_group _ _ Hs _ _ _ _ Ha). split.
    + intros [(j & Hj & Hg & Hgk & Hhj) Hne]. exists j. assert ((j, k') <> (i, k)) as Hjk by (intros [= -> ->]; by apply Hne).
      split; [done|]. split; [done|]. split; [done|]. rewrite released_held by by eapply flow_valid. by rewrite decide_False.
    + intros (j & [Hj Hjk] & Hg & Hgk & Hhj). rewrite released_held in Hhj by by eapply flow_valid.
      rewrite decide_False in Hhj by done.
      split; [by exists j|]. intros (Hgi & -> & ->). apply Hjk. f_equal. by eapply (sw_one _ _ Hs).
  - intros k' j j'. rewrite !released_links. intros [? _] [? _]. by apply (sw_one _ _ Hs k').
  - cbn [released flow_links]. apply set_or_erase_nonempty, (sw_nonempty _ _ Hs).
Qed.
End release.

(** A release succeeds exactly for a link the flow holds, with the number of
    packets it reserved there. *)
Lemma release_spec cfg links s i k n : bounded cfg = true -> saf_wf links s ->
  (i ∈ links_of s k /\ held s i k = Some n /\ ReleaseWholeFlowSafLink cfg links s i k n = Ok (released links s i k n)) \/
  (~ (i ∈ links_of s k /\ held s i k = Some n) /\ is_ok (ReleaseWholeFlowSafLink cfg links s i k n) = false).
Proof.
  intros Hb Hs. unfold ReleaseWholeFlowSafLink. rewrite Hb. cbn [negb].
  destruct (flow_links s !! k) as [fl|] eqn:Efl.
  2:{ right. split; [|done]. unfold links_of. rewrite Efl. cbn. set_solver. }
  assert (links_of s k = fl) as Hfl by (unfold links_of; by rewrite Efl).
  destruct (decide (i ∈ fl)) as [Hi|Hi].
  2:{ right. rewrite Hfl, bool_decide_eq_false_2 by done. split; [tauto|done]. }
  rewrite bool_decide_eq_true_2 by done. rewrite <- Hfl in Hi. pose proof (flow_valid _ _ _ _ Hs Hi) as Hv. cbn [negb throw_if mbind].
  rewrite (valid_lookup _ _ Hv). destruct (proj1 (sw_flow _ _ Hs i k) Hi) as [_ [m Hm]].
  assert (ReservedFor (link_admission s !!! Z.to_nat i) k = m) as Hr by (unfold ReservedFor; unfold held in Hm; by rewrite Hm).
  rewrite Hr. destruct (Z.eqb_spec m n) as [->|Hmn].
  2:{ right. split; [intros [_ H]; congruence|done]. }
  left. split; [done|]. split; [done|]. cbn [negb throw_if mbind].
  destruct (Release_spec _ _ _ (sw_links _ _ Hs _ _ (valid_lookup _ _ Hv)) Hm) as [Hrel _].
  unfold released. rewrite Hfl. fold (without n k (link_admission s !!! Z.to_nat i)) in Hrel.
  destruct (grouped links i) eqn:Eg; cbn [negb]; [|by rewrite Hrel].
  destruct (group_held _ _ _ _ _ Hs Hi Hm Eg) as (ga & Hga & Hgk).
  assert (GroupKeyForLink links i ∈ groups_of s k) as Hig by (apply (sw_flow_group _ _ Hs); by exists i).
  destruct (flow_groups s !! k) as [fg|] eqn:Efg.
  2:{ unfold groups_of in Hig. rewrite Efg in Hig. cbn in Hig. set_solver. }
  assert (groups_of s k = fg) as Hfg by (unfold groups_of; by rewrite Efg). rewrite Hfg in Hig |- *.
  rewrite bool_decide_eq_true_2 by done. cbn [negb throw_if mbind]. rewrite Hga.
  assert (ReservedFor ga k = n) as -> by (unfold ReservedFor; by rewrite Hgk). rewrite Z.eqb_refl. cbn [negb throw_if mbind].
  rewrite Hrel. destruct (Release_spec _ _ _ (sw_groups _ _ Hs _ _ Hga) Hgk) as [-> _]. cbn.
  do 2 f_equal. apply map_eq. intros g. destruct (decide (g = GroupKeyForLink links i)) as [->|Hne].
  - by rewrite lookup_insert_eq, lookup_alter_eq, Hga.
  - by rewrite lookup_insert_ne, lookup_alter_ne.
Qed.

(** *** The run time from its reset *)

Definition empty_ledger (depth : Z) : WholeFlowSafAdmission := mkLedger depth 0 ∅.

Lemma empty_ledger_wf depth : 0 <= depth -> ledger_wf (empty_ledger depth).
Proof. intros Hd. split; [done|done|]. intros k n. cbn. by rewrite lookup_empty. Qed.

Definition reset_link (links : list D2DLink) (depth : Z) (acc : list WholeFlowSafAdmission * gmap SafGroupKey WholeFlowSafAdmission)
    (idx : Z) : list WholeFlowSafAdmission * gmap SafGroupKey WholeFlowSafAdmission :=
  (acc.1 ++ [empty_ledger depth],
   if grouped links idx && bool_decide (acc.2 !! GroupKeyForLink links idx = None)
   then <[GroupKeyForLink links idx := empty_ledger depth]> acc.2 else acc.2).

Lemma reset_links_spec links depth l acc : let r := foldl (reset_link links depth) acc l in
  r.1 = acc.1 ++ replicate (length l) (empty_ledger depth) /\
  (forall g a, r.2 !! g = Some a -> acc.2 !! g = Some a \/ a = empty_ledger depth) /\
  (forall g, is_Some (acc.2 !! g) -> is_Some (r.2 !! g)) /\
  (forall i, i ∈ l -> grouped links i = true -> is_Some (r.2 !! GroupKeyForLink links i)).
Proof.
  revert acc. induction l as [|i l IH]; intros acc; cbn [foldl].
  { cbn. rewrite app_nil_r. split; [done|]. split; [by left|]. split; [done|]. intros i Hi. by apply elem_of_nil in Hi. }
  destruct (IH (reset_link links depth acc i)) as (H1 & H2 & H3 & H4).
  assert (forall g, is_Some (acc.2 !! g) -> is_Some ((reset_link links depth acc i).2 !! g)) as Hkeep.
  { intros g Hg. unfold reset_link. cbn [snd]. destruct (_ && _); [|done]. apply lookup_insert_is_Some'. by right. }
  split; [rewrite H1; unfold reset_link; cbn; by rewrite <- app_assoc|]. split; [|split].
  - intros g a Ha. destruct (H2 g a Ha) as [Hg|]; [|by right]. unfold reset_link in Hg. cbn [snd] in Hg.
    destruct (_ && _); [|by left]. apply lookup_insert_Some in Hg as [[_ <-]|[_ Hg]]; [by right|by left].
  - intros g Hg. by apply H3, Hkeep.
  - intros j [->|Hj]%elem_of_cons Hg; [|by apply H4]. apply H3. unfold reset_link. cbn [snd]. rewrite Hg. cbn [andb].
    case_bool_decide as E; [by rewrite lookup_insert_eq|by apply not_eq_None_Some].
Qed.

Definition has_depth (depth : Z) (s : saf_state) : Prop :=
  (forall i a, link_admission s !! i = Some a -> capacity_ a = depth) /\ (forall g a, group_admission s !! g = Some a -> capacity_ a = depth).

Lemma reset_spec cfg links s s' : bounded cfg = true -> ResetWholeFlowSafRuntime cfg links s = Ok s' ->
  saf_wf links s' /\ has_depth (saf_buffer_depth cfg) s' /\ flow_links s' = ∅.
Proof.
  intros Hb H. unfold ResetWholeFlowSafRuntime in H. rewrite Hb in H. cbn [negb] in H. set (depth := saf_buffer_depth cfg) in *.
  apply bind_ok in H as ([las gas] & Hf & H). injection H as <-.
  destruct (Z.ltb_spec depth 0) as [Hd|Hd].
  { assert (length links = 0%nat) as Hl.
    { destruct (length links) as [|n]; [done|]. rewrite Nat2Z.inj_succ, seqZ_cons in Hf by lia. cbn [foldM] in Hf. unfold Reset in Hf.
      by destruct (Z.ltb_spec depth 0); [|lia]. }
    rewrite Hl in Hf. cbn in Hf. injection Hf as <- <-. split; [|by repeat split; [intros ??; rewrite ?lookup_nil, ?lookup_empty..]].
    split; cbn; try done; intros; rewrite ?lookup_nil, ?lookup_empty in *; try done.
    - destruct H as [? ?]. cbn in *. lia.
    - unfold links_of, valid_idx. cbn. rewrite lookup_empty. cbn. set_solver by lia.
    - unfold groups_of, links_of. cbn. rewrite !lookup_empty. cbn. set_solver. }
  assert (forall l acc, foldM (fun acc idx => Reset depth ≫= fun a =>
    Ok (acc.1 ++ [a], if grouped links idx && bool_decide (acc.2 !! GroupKeyForLink links idx = None)
        then <[GroupKeyForLink links idx := a]> acc.2 else acc.2)) acc l = Ok (foldl (reset_link links depth) acc l)) as Hfold.
  { induction l as [|i l IH]; intros acc; [done|]. cbn [foldM foldl]. unfold Reset at 1. destruct (Z.ltb_spec depth 0); [lia|]. apply IH. }
  rewrite Hfold in Hf. injection Hf as Hf. destruct (reset_links_spec links depth (seqZ 0 (Z.of_nat (length links))) ([], ∅)) as (H1 & H2 & _ & H4).
  rewrite Hf in H1, H2, H4. cbn [fst snd app] in *. rewrite length_seqZ, Nat2Z.id in H1. clear Hf Hfold.
  assert (forall g a, gas !! g = Some a -> a = empty_ledger depth) as Hgas
    by (intros g a Ha; destruct (H2 g a Ha) as [E|]; [by rewrite lookup_empty in E|done]).
  assert (forall i a, las !! i = Some a -> a = empty_ledger depth) as Hlas
    by (intros i a; rewrite H1; by intros [-> _]%lookup_replicate).
  assert (forall i k, valid_idx las i -> reservations_ (las !!! Z.to_nat i) !! k = None) as Hno
    by (intros i k Hi; rewrite (Hlas _ _ (valid_lookup _ _ Hi)); apply lookup_empty).
  split; [|split; [split; cbn; [intros i a Ha; by rewrite (Hlas i a Ha)|intros g a Ha; by rewrite (Hgas g a Ha)]|done]].
  split; cbn [link_admission flow_links group_admission flow_groups].
  - rewrite H1. apply length_replicate.
  - intros i a Ha. rewrite (Hlas i a Ha). by apply empty_ledger_wf.
  - intros g a Ha. rewrite (Hgas g a Ha). by apply empty_ledger_wf.
  - intros i Hi Hg. apply H4; [|done]. apply elem_of_seqZ. unfold valid_idx in Hi. rewrite H1, length_replicate in Hi. lia.
  - intros i k. unfold links_of, held. cbn [flow_links link_admission]. rewrite lookup_empty. cbn [default]. split; [set_solver|].
    intros [Hi Hk]. rewrite (Hno i k Hi) in Hk. by destruct Hk.
  - intros g k. unfold groups_of, links_of. cbn [flow_groups flow_links]. rewrite !lookup_empty. cbn [default]. set_solver.
  - intros g a k n Ha. rewrite (Hgas g a Ha). unfold links_of. cbn. rewrite !lookup_empty. cbn. set_solver.
  - intros k i j. unfold links_of. cbn. rewrite lookup_empty. set_solver.
  - intros k. by rewrite lookup_empty.
Qed.

(** The calls the router units make after the reset; an exception of a
    reservation is caught and the flow tried again. *)
Inductive saf_reachable (cfg : D2DLinkConfig) (links : list D2DLink) : saf_state -> Prop :=
  | saf_reset s0 s : ResetWholeFlowSafRuntime cfg links s0 = Ok s -> saf_reachable cfg links s
  | saf_reserve s plans : saf_reachable cfg links s -> plans_wf links plans ->
      saf_reachable cfg links (ReserveSafPlans cfg links s plans).1
  | saf_release s i k n s' : saf_reachable cfg links s -> ReleaseWholeFlowSafLink cfg links s i k n = Ok s' ->
      saf_reachable cfg links s'.

Lemma add_links_depth rs ls depth : (forall r, r ∈ rs -> valid_idx ls (q_idx r)) -> (forall i a, ls !! i = Some a -> capacity_ a = depth) ->
  forall i a, foldl add_link ls rs !! i = Some a -> capacity_ a = depth.
Proof.
  revert ls. induction rs as [|r rs IH]; intros ls Hv Hls; cbn [foldl]; [done|]. apply IH.
  - intros r' Hr'. unfold valid_idx, add_link. rewrite length_insert. apply Hv. by right.
  - intros i a. unfold add_link. intros [(<- & <- & _)|[_ Ha]]%list_lookup_insert_Some; [|by eapply Hls].
    cbn. apply (Hls (Z.to_nat (q_idx r))), valid_lookup, Hv. by left.
Qed.

Lemma add_groups_depth links rs gs depth : (forall g a, gs !! g = Some a -> capacity_ a = depth) ->
  forall g a, foldl (add_group links) gs rs !! g = Some a -> capacity_ a = depth.
Proof.
  revert gs. induction rs as [|r rs IH]; intros gs Hgs; cbn [foldl]; [done|]. apply IH. intros g a. unfold add_group.
  destruct (grouped links (q_idx r)); [|by apply Hgs]. destruct (gs !! GroupKeyForLink links (q_idx r)) as [b|] eqn:E; [|by apply Hgs].
  intros [[_ <-]|[_ Ha]]%lookup_insert_Some; [by apply (Hgs _ _ E)|by eapply Hgs].
Qed.

Lemma released_depth links s i k n depth : saf_wf links s -> i ∈ links_of s k -> has_depth depth s -> has_depth depth (released links s i k n).
Proof.
  intros Hs Hi [Hl Hg]. split.
  - intros j a. cbn [released link_admission]. intros [(<- & <- & _)|[_ Ha]]%list_lookup_insert_Some; [|by eapply Hl].
    cbn. by eapply Hl, valid_lookup, flow_valid.
  - intros g a' (a & Ha & ->)%released_group_ledger. case_decide; by apply (Hg _ _ Ha).
Qed.

Lemma saf_reachable_inv cfg links s : bounded cfg = true -> saf_reachable cfg links s ->
  saf_wf links s /\ has_depth (saf_buffer_depth cfg) s.
Proof.
  intros Hb. induction 1 as [s0 s H|s plans _ [Hs Hd] Hp|s i k n s' _ [Hs Hd] H].
  - by destruct (reset_spec _ _ _ _ Hb H) as (? & ? & _).
  - split; [by apply reserve_wf|].
    destruct (reserve_spec cfg links s plans Hb Hs Hp) as [(_ & c & Hl & Hg & _ & ->)|(_ & e & ->)]; [|done].
    split; cbn [fst link_admission group_admission]; rewrite ?Hl, ?Hg.
    + apply add_links_depth; [|apply Hd]. intros r Hr. by apply (plans_valid _ _ _ Hs Hp).
    + apply add_groups_depth, Hd.
  - destruct (release_spec cfg links s i k n Hb Hs) as [(Hi & Hh & E)|[_ E]]; rewrite H in E; [|done]. injection E as ->.
    split; [by apply released_wf|by apply released_depth].
Qed.

Lemma ledger_empty a : ledger_wf a -> (forall k, reservations_ a !! k = None) -> reserved_ a = 0.
Proof. intros Ha He. rewrite (lw_sum _ Ha). assert (reservations_ a = ∅) as -> by (by apply map_empty). done. Qed.

Lemma link_sum_zero ls t : (forall a, a ∈ ls -> reserved_ a = 0) -> foldl (fun total a => total + reserved_ a) t ls = t.
Proof.
  revert t. induction ls as [|a ls IH]; intros t Ha; cbn; [done|]. rewrite (Ha a), Z.add_0_r by by left. apply IH. intros b Hb. apply Ha. by right.
Qed.

Lemma group_sum_zero (gs : gmap SafGroupKey WholeFlowSafAdmission) : (forall g a, gs !! g = Some a -> reserved_ a = 0) ->
  map_fold (fun _ a total => total + reserved_ a) 0 gs = 0.
Proof.
  induction gs as [|g a gs Hg IH] using map_ind; [done|]. intros Ha.
  rewrite (map_fold_insert_L (fun _ a total => total + reserved_ a)) by (done || (intros; lia)).
  rewrite (Ha g a) by by rewrite lookup_insert_eq. rewrite IH; [done|].
  intros g' a' Hg'. apply (Ha g'). rewrite lookup_insert_ne by congruence. done.
Qed.

(** Without an active flow nothing is reserved. *)
Lemma saf_drained links s : saf_wf links s -> flow_links s = ∅ ->
  WholeFlowSafReservedPackets s = 0 /\ WholeFlowSafGroupReservedPackets s = 0.
Proof.
  intros Hs He. assert (forall k, links_of s k = ∅) as Hl by (intros k; unfold links_of; by rewrite He, lookup_empty). split.
  - apply link_sum_zero. intros a [i Ha]%list_elem_of_lookup. apply ledger_empty; [by eapply sw_links|]. intros k.
    pose proof (lookup_lt_Some _ _ _ Ha) as Hi. pose proof (held_flow links s (Z.of_nat i) k Hs (Hl k)) as Hh. unfold held in Hh.
    rewrite Nat2Z.id, (list_lookup_total_correct _ _ _ Ha) in Hh. apply Hh. unfold valid_idx. lia.
  - apply group_sum_zero. intros g a Ha. apply ledger_empty; [by eapply sw_groups|]. intros k. apply eq_None_not_Some. intros [n Hn].
    apply (sw_group _ _ Hs _ _ _ _ Ha) in Hn as (i & Hi & _). rewrite Hl in Hi. set_solver.
Qed.

(** C18: in every state the SAF run time reaches from its reset by
    reservations (also failed ones) and releases, each link and each group
    ledger holds the sum of its flows' packets and never more than the buffer
    depth; a release succeeds exactly for a link on which the flow holds that
    number of packets, and frees them and nothing else; with no active flow left
    no packet is reserved anywhere. *)
Theorem saf_accounting cfg links s : bounded cfg = true -> saf_reachable cfg links s ->
  (forall i a, link_admission s !! i = Some a ->
     reserved_ a = map_sum id (reservations_ a) /\ 0 <= reserved_ a <= saf_buffer_depth cfg) /\
  (forall g a, group_admission s !! g = Some a ->
     reserved_ a = map_sum id (reservations_ a) /\ 0 <= reserved_ a <= saf_buffer_depth cfg) /\
  (forall i k n, is_ok (ReleaseWholeFlowSafLink cfg links s i k n) = true <-> i ∈ links_of s k /\ held s i k = Some n) /\
  (forall i k n s', ReleaseWholeFlowSafLink cfg links s i k n = Ok s' ->
     forall j k', 0 <= j < Z.of_nat (length links) -> held s' j k' = if decide ((j, k') = (i, k)) then None else held s j k') /\
  (flow_links s = ∅ -> WholeFlowSafReservedPackets s = 0 /\ WholeFlowSafGroupReservedPackets s = 0).
Proof.
  intros Hb Hr. destruct (saf_reachable_inv _ _ _ Hb Hr) as [Hs [Hdl Hdg]]. split; [|split; [|split; [|split]]].
  - intros i a Ha. pose proof (sw_links _ _ Hs i a Ha) as Hw. split; [apply Hw|]. rewrite <- (Hdl i a Ha).
    split; [by apply ledger_nonneg|apply Hw].
  - intros g a Ha. pose proof (sw_groups _ _ Hs g a Ha) as Hw. split; [apply Hw|]. rewrite <- (Hdg g a Ha).
    split; [by apply ledger_nonneg|apply Hw].
  - intros i k n. destruct (release_spec cfg links s i k n Hb Hs) as [(? & ? & ->)|[? ->]]; [done|by split].
  - intros i k n s' H j k' Hj. destruct (release_spec cfg links s i k n Hb Hs) as [(Hi & _ & E)|[_ E]]; rewrite H in E; [|done].
    injection E as ->. apply released_held; [done..|]. unfold valid_idx. by rewrite (sw_len _ _ Hs).
  - by apply (saf_drained links).
Qed.

(** ** The path of a flow *)

Section path.
Context `{G : Geometry} (Hgeo : ValidateAddressSpace = Ok tt) (M : machine) (Hwf : machine_wf M).
Local Notation t := (g_die_ports M).
Local Notation links := (g_d2d_links M).

Lemma DirectedLink_spec md e k : k ∈ links -> local_die k = md -> local_port k = e ->
  (forall x, In x links -> local_die x = md -> local_port x = e -> x = k) ->
  let idx := DirectedLinkIndexForPort links md e in 0 <= idx < Z.of_nat (length links) /\ link_of links idx = k.
Proof using.
  intros Hk Ed Ep Hu idx. unfold idx, DirectedLinkIndexForPort. destruct (list_find _ _) as [[i x]|] eqn:Ef.
  - apply list_find_Some in Ef as (Hx & [E1 E2] & _). assert (x = k) as ->.
    { apply Hu; [|done|done]. by apply list_elem_of_In, list_elem_of_lookup_2 with i. }
    split; [apply lookup_lt_Some in Hx; lia|]. unfold link_of. rewrite Nat2Z.id. by apply list_lookup_total_correct.
  - exfalso. apply list_find_None in Ef. rewrite list.Forall_forall in Ef. by apply (Ef k Hk).
Qed.

(** One turn of the loop takes a link of the present die to a die one nearer. *)
Lemma path_step_spec st at_ src des tg sub : v5_wf t st -> 0 <= at_ < TOTAL_CORES -> 0 <= des < TOTAL_CORES -> 0 <= sub <= 3 ->
  DieOfGlobal at_ <> DieOfGlobal des -> exists idx at' st', path_step M st at_ src des tg sub = Ok (idx, at', st') /\ v5_wf t st' /\
    0 <= idx < Z.of_nat (length links) /\ local_die (link_of links idx) = DieOfGlobal at_ /\ 0 <= at' < TOTAL_CORES /\
    DieManhattan (DieOfGlobal at') (DieOfGlobal des) = DieManhattan (DieOfGlobal at_) (DieOfGlobal des) - 1.
Proof using Hgeo Hwf.
  intros Hst Ha Hd Hsub Hne. destruct (select_exit_ok Hgeo M Hwf st at_ des src tg sub Hst Ha Hd Hsub Hne) as (e & st' & E & Hst' & He).
  destruct (die_local Hgeo at_ Ha) as (Hm & _ & _). destruct (die_local Hgeo des Hd) as (Hdd & _ & _).
  destruct (first_hop Hgeo _ _ Hm Hdd Hne) as (_ & Hn & Hman). cbv zeta in *.
  destruct (exit_directed Hgeo M Hwf _ _ e Hm (proj1 Hn) He) as (m & k & Hmp & _ & Hk & Ekd & Ekp & Ekr & Em & Huniq & _).
  destruct (DirectedLink_spec _ _ k Hk Ekd Ekp Huniq) as [Hidx El]. cbv zeta in *.
  destruct (port_at t (tw_ports _ (mw_ports _ Hwf)) m Hmp) as [Hwm _].
  destruct (global_id_split Hgeo (DieNeighbor (DieOfGlobal at_) (DieFirstHopDir (DieOfGlobal at_) (DieOfGlobal des))) (tile m) Hn (pw_tile _ _ Hwm))
    as (Hg & E1 & _).
  eexists _, _, st'. unfold path_step. rewrite E. cbn [mbind result_bind]. cbv zeta. rewrite throw_bind_false by lia. rewrite El, Ekr, Em.
  split; [reflexivity|]. split; [done|]. split; [done|]. split; [by rewrite El|]. unfold GlobalId in Hg, E1. split; [done|]. by rewrite E1.
Qed.

Lemma path_from_spec fuel st path at_ src des tg sub : v5_wf t st -> 0 <= at_ < TOTAL_CORES -> 0 <= des < TOTAL_CORES -> 0 <= sub <= 3 ->
  DieManhattan (DieOfGlobal at_) (DieOfGlobal des) = Z.of_nat fuel ->
  exists l st', path_from fuel M st path at_ src des tg sub = Ok (path ++ l, st') /\ v5_wf t st' /\ length l = fuel /\
    (forall i, i ∈ l -> 0 <= i < Z.of_nat (length links) /\ DieManhattan (local_die (link_of links i)) (DieOfGlobal des) <= Z.of_nat fuel) /\
    NoDup ((fun i => local_die (link_of links i)) <$> l).
Proof using Hgeo Hwf.
  revert st path at_. induction fuel as [|fuel IH]; intros st path at_ Hst Ha Hd Hsub Hf; cbn [path_from].
  all: destruct (Z.eqb_spec (DieOfGlobal at_) (DieOfGlobal des)) as [Ee|Hne].
  - exists [], st. rewrite app_nil_r. split; [done|]. split; [done|]. split; [done|]. split; [|apply base.NoDup_nil_2].
    intros i Hi. by apply elem_of_nil in Hi.
  - exfalso. destruct (die_local Hgeo at_ Ha) as (Hm & _ & _). destruct (die_local Hgeo des Hd) as (Hdd & _ & _).
    destruct (first_hop Hgeo _ _ Hm Hdd Hne) as (_ & _ & Hman). pose proof (DieManhattan_nonneg
      (DieNeighbor (DieOfGlobal at_) (DieFirstHopDir (DieOfGlobal at_) (DieOfGlobal des))) (DieOfGlobal des)). lia.
  - exfalso. rewrite Ee, (proj2 (DieManhattan_nonneg (DieOfGlobal des) (DieOfGlobal des))) in Hf. lia.
  - destruct (path_step_spec st at_ src des tg sub Hst Ha Hd Hsub Hne) as (idx & at' & st1 & -> & Hst1 & Hidx & Hld & Ha' & Hman).
    cbn [mbind result_bind].
    destruct (IH st1 (path ++ [idx]) at' Hst1 Ha' Hd Hsub) as (l & st' & -> & Hst' & Hlen & Hl & Hnd); [lia|].
    exists (idx :: l), st'. rewrite <- app_assoc. split; [done|]. split; [done|]. split; [cbn; lia|]. split.
    + intros i [->|Hi]%elem_of_cons; [split; [done|rewrite Hld; lia]|]. destruct (Hl i Hi). split; [done|lia].
    + cbn. apply list.NoDup_cons. split; [|done]. rewrite Hld. intros (i & E & Hi)%list_elem_of_fmap. destruct (Hl i Hi) as [_ Hle].
      rewrite <- E in Hle. lia.
Qed.

(** The path computation succeeds within its fuel, and its path is one a
    reservation may use: as long as the die distance and with one link per die. *)
Lemma WholeFlowSafPath_spec st src des tg sub k n : v5_wf t st -> 0 <= src < TOTAL_CORES -> 0 <= des < TOTAL_CORES -> 0 <= sub <= 3 ->
  DieOfGlobal src <> DieOfGlobal des -> exists path st', WholeFlowSafPath M st src des tg sub = Ok (path, st') /\ v5_wf t st' /\
    Z.of_nat (length path) = DieManhattan (DieOfGlobal src) (DieOfGlobal des) /\ plan_wf links (mkPlan k n path).
Proof using Hgeo Hwf.
  intros Hst Hs Hd Hsub Hne. pose proof (DieManhattan_nonneg (DieOfGlobal src) (DieOfGlobal des)) as [H0 _].
  destruct (path_from_spec (Z.to_nat (DieManhattan (DieOfGlobal src) (DieOfGlobal des))) st [] src src des tg sub Hst Hs Hd Hsub)
    as (l & st' & E & Hst' & Hlen & Hl & Hnd); [lia|].
  exists l, st'. split; [exact E|]. split; [done|]. split; [lia|]. split; cbn [plan_path].
  - intros i Hi. by apply Hl.
  - intros ->. destruct (die_local Hgeo src Hs) as (Hm & _ & _). destruct (die_local Hgeo des Hd) as (Hdd & _ & _).
    destruct (first_hop Hgeo _ _ Hm Hdd Hne) as (_ & _ & Hman). pose proof (DieManhattan_nonneg
      (DieNeighbor (DieOfGlobal src) (DieFirstHopDir (DieOfGlobal src) (DieOfGlobal des))) (DieOfGlobal des)). cbn in Hlen. lia.
  - by eapply NoDup_fmap_1.
  - apply (NoDup_fmap_1 (fun g : SafGroupKey => g.1.1)). rewrite <- list_fmap_compose. apply NoDup_ListNoDup.
    assert (forall l', NoDup ((fun i => local_die (link_of links i)) <$> l') ->
      NoDup (((fun g : SafGroupKey => g.1.1) ∘ GroupKeyForLink links) <$> List.filter (grouped links) l')) as Hfil; [|by apply NoDup_ListNoDup, Hfil].
    induction l' as [|i l' IH]; [done|]. cbn [fmap list_fmap]. intros [Hnew Hnd']%list.NoDup_cons. cbn [List.filter].
    destruct (grouped links i); [|by apply IH]. cbn [fmap list_fmap]. apply list.NoDup_cons. split; [|by apply IH].
    intros (j & Ej & Hj)%list_elem_of_fmap. apply Hnew, list_elem_of_fmap. exists j. split; [exact Ej|].
    apply list_elem_of_In in Hj. apply filter_In in Hj as [Hj _]. by apply list_elem_of_In.
Qed.
End path.

(** ** A striped flow *)

Section striped.
Context `{G : Geometry} (Hgeo : ValidateAddressSpace = Ok tt) (M : machine) (Hwf : machine_wf M).
Context (src des tg : Z) (Hsrc : 0 <= src < TOTAL_CORES) (Hdes : 0 <= des < TOTAL_CORES) (Hne : DieOfGlobal src <> DieOfGlobal des).

(** The plan of stripe [sn.1] of [sn.2] packets. *)
Definition plan_of (sn : Z * Z) (p : SafPlan) : Prop :=
  plan_key p = mkFlow src tg sn.1 /\ plan_packets p = sn.2 /\ plan_wf (g_d2d_links M) p /\
  Z.of_nat (length (plan_path p)) = DieManhattan (DieOfGlobal src) (DieOfGlobal des).

Lemma stripe_plans_spec l st acc : v5_wf (g_die_ports M) st -> (forall sn, sn ∈ l -> 0 <= sn.1 <= 3) ->
  exists ps st', foldM (stripe_plan M src des tg) (acc, st) l = Ok (acc ++ ps, st') /\ v5_wf (g_die_ports M) st' /\ Forall2 plan_of l ps.
Proof using Hgeo Hwf Hsrc Hdes Hne.
  revert st acc. induction l as [|[sub n] l IH]; intros st acc Hst Hl; cbn [foldM].
  { exists [], st. by rewrite app_nil_r. }
  destruct (WholeFlowSafPath_spec Hgeo M Hwf st src des tg sub (mkFlow src tg sub) n Hst Hsrc Hdes
    (Hl (sub, n) (list_elem_of_here _ _)) Hne) as (path & st1 & E & Hst1 & Hlen & Hp).
  unfold stripe_plan at 1. cbn [fst snd]. rewrite E. cbn [mbind result_bind].
  destruct (IH st1 (acc ++ [mkPlan (mkFlow src tg sub) n path]) Hst1) as (ps & st' & -> & Hst' & Hps); [intros sn Hsn; apply Hl; by right|].
  exists (mkPlan (mkFlow src tg sub) n path :: ps), st'. rewrite <- app_assoc. split; [done|]. split; [done|]. by constructor.
Qed.

Lemma plan_of_keys l ps : Forall2 plan_of l ps -> plan_key <$> ps = (fun sn => mkFlow src tg sn.1) <$> l.
Proof using. induction 1 as [|sn p l ps (E & _) _ IH]; [done|]. cbn. by rewrite E, IH. Qed.

Lemma stripes_wf counts ps : Forall2 plan_of (zip (seqZ 0 (Z.of_nat (length counts))) counts) ps -> plans_wf (g_d2d_links M) ps.
Proof using.
  intros Hps. split.
  - rewrite (plan_of_keys _ _ Hps).
    replace ((fun sn : Z * Z => mkFlow src tg sn.1) <$> zip (seqZ 0 (Z.of_nat (length counts))) counts)
      with (mkFlow src tg <$> seqZ 0 (Z.of_nat (length counts))); [apply NoDup_fmap_2; [by intros ?? [= ->]|apply NoDup_seqZ]|].
    change (fun sn : Z * Z => mkFlow src tg sn.1) with (mkFlow src tg ∘ @fst Z Z). rewrite list_fmap_compose, fst_zip; [done|].
    rewrite length_seqZ. lia.
  - intros p [i Hi]%list_elem_of_lookup. destruct (Forall2_lookup_r _ _ _ _ _ Hps Hi) as (sn & _ & _ & _ & Hw & _). exact Hw.
Qed.
End striped.

(** C24: on a well-formed machine the admission of a striped flow to another die
    always computes its paths: stripe [j] gets the flow key of sub-flow [j], its
    packet count and a path of exactly the die distance; the reservation is the
    all-or-nothing one of these plans, which are well-formed, and leads to a
    reachable state. *)
Theorem striped_admission `{Geometry} M st s src des tg counts : ValidateAddressSpace = Ok tt -> machine_wf M ->
  bounded (g_d2d_cfg M) = true -> v5_wf (g_die_ports M) st -> saf_reachable (g_d2d_cfg M) (g_d2d_links M) s ->
  0 <= src < TOTAL_CORES -> 0 <= des < TOTAL_CORES -> DieOfGlobal src <> DieOfGlobal des -> (1 <= length counts <= 4)%nat ->
  exists plans st', let r := ReserveSafPlans (g_d2d_cfg M) (g_d2d_links M) s plans in
    ReserveStripedWholeFlowSafPaths M st s src des tg counts = (r.1, st', r.2) /\
    plans_wf (g_d2d_links M) plans /\ saf_reachable (g_d2d_cfg M) (g_d2d_links M) r.1 /\ v5_wf (g_die_ports M) st' /\
    length plans = length counts /\
    forall j p, plans !! j = Some p -> plan_key p = mkFlow src tg (Z.of_nat j) /\ counts !! j = Some (plan_packets p) /\
      Z.of_nat (length (plan_path p)) = DieManhattan (DieOfGlobal src) (DieOfGlobal des).
Proof.
  intros Hgeo Hwf Hb Hst Hs Hsrc Hdes Hne Hc. set (l := zip (seqZ 0 (Z.of_nat (length counts))) counts).
  assert (forall j sn, l !! j = Some sn -> sn.1 = Z.of_nat j /\ counts !! j = Some sn.2) as Hl.
  { intros j [i n] (Hi & Hn)%lookup_zip_Some. apply lookup_seqZ in Hi as [-> _]. by rewrite Z.add_0_l. }
  assert (length l = length counts) as Hlen by (unfold l; rewrite length_zip_with_r_eq; [done|rewrite length_seqZ; lia]).
  destruct (stripe_plans_spec Hgeo M Hwf src des tg Hsrc Hdes Hne l st [] Hst) as (ps & st' & E & Hst' & Hps).
  { intros sn [j Hj]%list_elem_of_lookup. destruct (Hl j sn Hj) as [-> Hn]. apply lookup_lt_Some in Hn. lia. }
  pose proof (stripes_wf M src des tg counts ps Hps) as Hplans. exists ps, st'. cbv zeta. split; [|split; [done|split; [by apply saf_reserve|]]].
  - unfold ReserveStripedWholeFlowSafPaths. rewrite Hb. cbn [negb]. fold l.
    assert ((src <? 0) || (TOTAL_CORES <=? src) || (des <? 0) || (TOTAL_CORES <=? des) || bool_decide (counts = []) ||
      (4 <? length counts)%nat = false) as ->.
    { repeat (apply orb_false_iff; split); try lia; [apply bool_decide_eq_false; intros ->; cbn in Hc; lia|apply Nat.ltb_ge; lia]. }
    destruct (Z.eqb_spec (DieOfGlobal src) (DieOfGlobal des)) as [|_]; [done|]. rewrite E. cbn [app].
    by destruct (ReserveSafPlans _ _ _ _) as [s1 e].
  - split; [done|]. split; [rewrite <- Hlen; symmetry; by eapply Forall2_length|].
    intros j p Hp. destruct (Forall2_lookup_r _ _ _ _ _ Hps Hp) as (sn & Hsn & Ek & En & _ & Hpath). destruct (Hl j sn Hsn) as [E1 E2].
    rewrite Ek, E1. split; [done|]. split; [|done]. by rewrite En.
Qed.

(** *** Two links of one group with room for eight packets *)

Definition demo_saf_cfg : D2DLinkConfig := mkConfig BACKEND_CYCLE MODE_BOUNDED_SAF SAFETY_WHOLE_FLOW_SAF
  default_rate default_rate 0 8 8 8 8 false false SELECT_NEAREST 0.
Definition demo_group : list D2DLink := [mkLink 0 0 1 1 64 64 1 3; mkLink 0 2 1 3 64 64 1 3].
Definition demo_flow (tg : Z) : FlowKey := mkFlow 0 tg 0.
Definition demo_plans : list SafPlan := [mkPlan (demo_flow 1) 3 [0]; mkPlan (demo_flow 2) 5 [1]].
Definition no_saf : saf_state := mkSaf [] ∅ ∅ ∅ 0 0.
Definition reset_demo (links : list D2DLink) : saf_state := match ResetWholeFlowSafRuntime demo_saf_cfg links no_saf with Ok s => s | Err _ => no_saf end.
Definition demo_saf : saf_state := reset_demo demo_group.
Definition demo_reserved : saf_state := (ReserveSafPlans demo_saf_cfg demo_group demo_saf demo_plans).1.

Lemma reset_demo_reachable links : saf_reachable demo_saf_cfg links (reset_demo links).
Proof.
  unfold reset_demo. destruct (ResetWholeFlowSafRuntime demo_saf_cfg links no_saf) as [s|e] eqn:E; [by eapply saf_reset|].
  exfalso. unfold ResetWholeFlowSafRuntime in E. cbn [bounded demo_saf_cfg mode bool_decide negb] in E.
  destruct (foldM _ _ _) as [[las gas]|e'] eqn:Ef; [done|]. clear E. revert Ef. generalize (([], ∅) : list WholeFlowSafAdmission * gmap SafGroupKey WholeFlowSafAdmission).
  generalize (seqZ 0 (Z.of_nat (length links))). induction l as [|i l IH]; intros acc; [done|]. cbn [foldM]. apply IH.
Qed.

Lemma demo_plans_wf : plans_wf demo_group demo_plans.
Proof.
  split; [by apply (bool_decide_unpack _); vm_compute|]. intros p Hp.
  assert (p = mkPlan (demo_flow 1) 3 [0] \/ p = mkPlan (demo_flow 2) 5 [1]) as [-> | ->] by (unfold demo_plans in Hp; set_solver).
  all: split; cbn; try done; try (by apply (bool_decide_unpack _); vm_compute).
  all: intros i ->%list_elem_of_singleton; lia.
Qed.

Lemma saf_reservation_atomic_witness :
  (ReserveSafPlans demo_saf_cfg demo_group demo_saf demo_plans).2 = None /\ feasible demo_group demo_saf demo_plans.
Proof.
  assert (H : (ReserveSafPlans demo_saf_cfg demo_group demo_saf demo_plans).2 = None) by (vm_compute; reflexivity).
  split; [exact H|].
  destruct (saf_reservation_atomic demo_saf_cfg demo_group demo_saf demo_plans) as (_ & Hiff & _);
    [reflexivity|apply (saf_reachable_inv demo_saf_cfg); [reflexivity|apply reset_demo_reachable]|exact demo_plans_wf|]. by apply Hiff.
Defined.

Lemma saf_accounting_witness :
  (exists s', ReleaseWholeFlowSafLink demo_saf_cfg demo_group demo_reserved 1 (demo_flow 2) 5 = Ok s' /\ held s' 0 (demo_flow 1) = Some 3) /\
  WholeFlowSafGroupReservedPackets demo_reserved = 8.
Proof.
  destruct (saf_accounting demo_saf_cfg demo_group demo_reserved) as (_ & _ & _ & Hrel & _);
    [reflexivity|apply saf_reserve; [apply reset_demo_reachable|exact demo_plans_wf]|].
  split; [|vm_compute; reflexivity].
  destruct (ReleaseWholeFlowSafLink demo_saf_cfg demo_group demo_reserved 1 (demo_flow 2) 5) as [s'|e] eqn:E; [|by vm_compute in E].
  exists s'. split; [reflexivity|]. rewrite (Hrel _ _ _ _ E) by (cbn; lia). vm_compute. reflexivity.
Defined.

Definition demo_saf_machine : machine := mkMachine demo_table demo_saf_cfg demo_links demo_attach.

Lemma striped_admission_witness : exists plans st',
  @ReserveStripedWholeFlowSafPaths demo_geometry demo_saf_machine v5_initial (reset_demo demo_links) 0 15 6 [2; 3] =
    ((ReserveSafPlans demo_saf_cfg demo_links (reset_demo demo_links) plans).1, st',
     (ReserveSafPlans demo_saf_cfg demo_links (reset_demo demo_links) plans).2) /\ length plans = 2%nat.
Proof.
  destruct (@striped_admission demo_geometry demo_saf_machine v5_initial (reset_demo demo_links) 0 15 6 [2; 3])
    as (plans & st' & H1 & _ & _ & _ & H2 & _).
  - reflexivity.
  - destruct demo_wf as (Ha & Ht & Hb). split; [exact Ha|exact Ht|exact Hb|exact demo_attach_wf].
  - reflexivity.
  - by apply v5_wf_initial.
  - apply reset_demo_reachable.
  - split; [lia|vm_compute; reflexivity].
  - split; [lia|vm_compute; reflexivity].
  - vm_compute. discriminate.
  - cbn. lia.
  - exists plans, st'. split; [exact H1|exact H2].
Defined.
