(* ===== verification/LinkGroup.v ===== *)
(** The link-group arbiter ([V5LinkGroupGrant] of [src/die/port_config.cpp]):
    the links of a group share one lane, which a round robin over the requests of
    the previous cycle grants to one of them per cycle. *)

From S2P Require Import Prelude DieTopology SafAdmission.

(** ** State and operations *)

Record V5GroupArbiter : Type := mkArbiter { arb_cycle : Z; arb_grant : Z; last_winner : Z; arb_pending : gset Z }.
Definition new_arbiter : V5GroupArbiter := mkArbiter (-1) (-1) (-1) ∅.

Definition ResetV5LinkGroupRuntime (links : list D2DLink) : gmap SafGroupKey V5GroupArbiter :=
  foldl (fun m idx => if grouped links idx then
           (if bool_decide (m !! GroupKeyForLink links idx = None)
            then <[GroupKeyForLink links idx := new_arbiter]> m else m) else m)
        ∅ (seqZ 0 (Z.of_nat (length links))).

Definition least (l : list Z) : option Z :=
  foldl (fun o x => Some (match o with Some y => Z.min y x | None => x end)) None l.

(** [upper_bound(last)], from the beginning when there is none. *)
Definition pick_after (last : Z) (X : gset Z) : option Z :=
  match least (List.filter (fun x => last <? x) (elements X)) with
  | Some x => Some x
  | None => least (elements X)
  end.

Definition arbiter_cycle (a : V5GroupArbiter) (cycle : Z) : V5GroupArbiter :=
  if cycle =? arb_cycle a then a else
  match pick_after (last_winner a) (arb_pending a) with
  | Some w => mkArbiter cycle w w ∅
  | None => mkArbiter cycle (-1) (last_winner a) ∅
  end.

Definition arbiter_grant (a : V5GroupArbiter) (link_idx cycle : Z) (request : bool) : bool * V5GroupArbiter :=
  let a := arbiter_cycle a cycle in
  let a := if request then mkArbiter (arb_cycle a) (arb_grant a) (last_winner a) ({[link_idx]} ∪ arb_pending a) else a in
  (request && (arb_grant a =? link_idx), a).

Definition V5LinkGroupGrant (links : list D2DLink) (arbs : gmap SafGroupKey V5GroupArbiter)
    (link_idx cycle : Z) (request : bool) : result (bool * gmap SafGroupKey V5GroupArbiter) :=
  if (link_idx <? 0) || (Z.of_nat (length links) <=? link_idx) then Ok (request, arbs) else
  if negb (grouped links link_idx) then Ok (request, arbs) else
  let key := GroupKeyForLink links link_idx in
  match arbs !! key with
  | None => Err (runtime_error "V5 link_group arbiter was not initialized")
  | Some a =>
      THROW runtime_error "V5 link_group cycle moved backwards" WHEN cycle <? arb_cycle a;;
      let r := arbiter_grant a link_idx cycle request in
      Ok (r.1, <[key := r.2]> arbs)
  end.


(** The calls of one cycle, in order; the links they grant. *)
Notation arbs_map := (gmap SafGroupKey V5GroupArbiter).
Definition one_call (links : list D2DLink) (cycle : Z) (acc : list Z * arbs_map) (call : Z * bool) : result (list Z * arbs_map) :=
  V5LinkGroupGrant links acc.2 call.1 cycle call.2 ≫= fun r : bool * arbs_map => Ok (if r.1 then acc.1 ++ [call.1] else acc.1, r.2).
Definition run_cycle (links : list D2DLink) (arbs : arbs_map) (cycle : Z) (calls : list (Z * bool)) : result (list Z * arbs_map) :=
  foldM (one_call links cycle) ([], arbs) calls.

Fixpoint run_cycles (links : list D2DLink) (arbs : arbs_map) (sched : list (Z * list (Z * bool))) : result (list (list Z) * arbs_map) :=
  match sched with
  | [] => Ok ([], arbs)
  | (cycle, calls) :: sched =>
      run_cycle links arbs cycle calls ≫= fun r : list Z * arbs_map =>
      run_cycles links r.2 sched ≫= fun q : list (list Z) * arbs_map => Ok (r.1 :: q.1, q.2)
  end.

(** ** The choice of the round robin *)

Lemma least_acc l o : exists m, foldl (fun o x => Some (match o with Some y => Z.min y x | None => x end)) (Some o) l = Some m /\
  (m = o \/ m ∈ l) /\ m <= o /\ forall x, x ∈ l -> m <= x.
Proof.
  revert o. induction l as [|x l IH]; intros o; cbn [foldl].
  { exists o. split; [done|]. split; [by left|]. split; [lia|]. intros x Hx. by apply elem_of_nil in Hx. }
  destruct (IH (Z.min o x)) as (m & -> & Hm & Hle & Hall). exists m. split; [done|]. split; [|split; [lia|]].
  - destruct Hm as [->|Hm]; [|right; by right]. destruct (Z.min_spec o x) as [[_ ->]|[_ ->]]; [by left|right; by left].
  - intros y [->|Hy]%elem_of_cons; [lia|by apply Hall].
Qed.

Lemma least_spec l : match least l with Some m => m ∈ l /\ forall x, x ∈ l -> m <= x | None => l = [] end.
Proof.
  destruct l as [|x l]; [done|]. unfold least. cbn [foldl]. destruct (least_acc l x) as (m & -> & Hm & Hle & Hall).
  split; [destruct Hm as [->|Hm]; [by left|by right]|]. intros y [->|Hy]%elem_of_cons; [done|by apply Hall].
Qed.

(** How far link [x] is behind the last winner in the round. *)
Definition turns (n last x : Z) : Z := if last <? x then x - last - 1 else x - last - 1 + n.

(** The winner comes before every other request in the round. *)
Lemma pick_after_spec n last (X : gset Z) x : x ∈ X -> (forall y, y ∈ X -> 0 <= y < n) -> -1 <= last < n ->
  exists w, pick_after last X = Some w /\ w ∈ X /\ (w = x \/ turns n w x < turns n last x).
Proof.
  intros Hx HX Hl. unfold pick_after.
  pose proof (least_spec (List.filter (fun y => last <? y) (elements X))) as H1. pose proof (least_spec (elements X)) as H2.
  assert (forall y, y ∈ List.filter (fun y => last <? y) (elements X) <-> y ∈ X /\ last < y) as Hf.
  { intros y. rewrite list_elem_of_In, filter_In, <- list_elem_of_In, elem_of_elements, Z.ltb_lt. done. }
  destruct (least (List.filter _ _)) as [w|].
  - destruct H1 as [[Hw Hlw]%Hf Hmin]. exists w. split; [done|]. split; [done|]. destruct (decide (w = x)) as [|Hne]; [by left|right].
    pose proof (HX w Hw). pose proof (HX x Hx). unfold turns.
    destruct (Z.ltb_spec last x); [assert (w <= x) by by apply Hmin, Hf|]; destruct (Z.ltb_spec w x); lia.
  - destruct (least (elements X)) as [w|].
    + destruct H2 as [Hw%elem_of_elements Hmin]. exists w. split; [done|]. split; [done|]. destruct (decide (w = x)) as [|Hne]; [by left|right].
      assert (forall y, y ∈ X -> y <= last) as Hle.
      { intros y Hy. destruct (Z.le_gt_cases y last); [done|]. exfalso. assert (y ∈ @nil Z) as Hn by (rewrite <- H1; apply Hf; split; [done|lia]).
        by apply elem_of_nil in Hn. }
      pose proof (Hle x Hx). pose proof (Hle w Hw). assert (w <= x) by by apply Hmin, elem_of_elements. pose proof (HX w Hw).
      unfold turns. destruct (Z.ltb_spec last x); [lia|]. destruct (Z.ltb_spec w x); lia.
    + apply elem_of_elements in Hx. rewrite H2 in Hx. by apply elem_of_nil in Hx.
Qed.

Lemma pick_after_in last X w : pick_after last X = Some w -> w ∈ X.
Proof.
  unfold pick_after. pose proof (least_spec (List.filter (fun y => last <? y) (elements X))) as H1. pose proof (least_spec (elements X)) as H2.
  destruct (least (List.filter _ _)) as [v|].
  - intros [= <-]. destruct H1 as [Hw _]. apply list_elem_of_In, filter_In in Hw as [Hw _]. by apply list_elem_of_In, elem_of_elements in Hw.
  - intros E. rewrite E in H2. destruct H2 as [Hw _]. by apply elem_of_elements.
Qed.

(** ** One cycle *)

Section arbiter.
Context (links : list D2DLink).
Local Notation n := (Z.of_nat (length links)).
Definition link_ok (i : Z) : Prop := 0 <= i < n /\ grouped links i = true.

(** Every group has its arbiter, which is not ahead of [cycle] and remembers
    links of the group only. *)
Record arbiter_wf (cycle : Z) (g : SafGroupKey) (a : V5GroupArbiter) : Prop := {
  aw_cycle : arb_cycle a <= cycle;
  aw_last : -1 <= last_winner a < n;
  aw_pending : forall y, y ∈ arb_pending a -> 0 <= y < n
}.
Definition arbs_wf (cycle : Z) (arbs : arbs_map) : Prop :=
  forall i, link_ok i -> exists a, arbs !! GroupKeyForLink links i = Some a /\ arbiter_wf cycle (GroupKeyForLink links i) a.

Lemma arbiter_cycle_at a cycle : arb_cycle (arbiter_cycle a cycle) = cycle.
Proof using. unfold arbiter_cycle. destruct (Z.eqb_spec cycle (arb_cycle a)); [done|]. by destruct (pick_after _ _). Qed.

Lemma arbiter_cycle_idem a cycle : arb_cycle a = cycle -> arbiter_cycle a cycle = a.
Proof using. intros <-. unfold arbiter_cycle. by rewrite Z.eqb_refl. Qed.

Lemma arbiter_cycle_wf cycle g a : arbiter_wf cycle g a -> arbiter_wf cycle g (arbiter_cycle a cycle).
Proof using.
  intros Ha. split; [by rewrite arbiter_cycle_at| |]; unfold arbiter_cycle; destruct (Z.eqb_spec cycle (arb_cycle a)); try apply Ha.
  - destruct (pick_after _ _) as [w|] eqn:E; [|apply Ha]. cbn. apply pick_after_in in E. pose proof (aw_pending _ _ _ Ha w E). lia.
  - intros y. destruct (pick_after _ _); cbn; set_solver.
Qed.

(** The arbiter after a call, seen from within the cycle. *)
Definition asked (a : V5GroupArbiter) (reqs : gset Z) : V5GroupArbiter :=
  mkArbiter (arb_cycle a) (arb_grant a) (last_winner a) (reqs ∪ arb_pending a).

Lemma one_call_ok (cycle : Z) (acc : list Z * arbs_map) (i : Z) (req : bool) : arbs_wf cycle acc.2 -> link_ok i -> exists a r, acc.2 !! GroupKeyForLink links i = Some a /\
  one_call links cycle acc (i, req) = Ok (if req && (arb_grant (arbiter_cycle a cycle) =? i) then acc.1 ++ [i] else acc.1, r) /\
  r = <[GroupKeyForLink links i := asked (arbiter_cycle a cycle) (if req then {[i]} else ∅ : gset Z)]> acc.2.
Proof using.
  intros Hw [Hi Hg]. destruct (Hw i (conj Hi Hg)) as (a & Ha & Haw). eexists a, _. split; [done|]. split; [|reflexivity].
  unfold one_call, V5LinkGroupGrant. cbn [fst snd]. destruct (_ || _) eqn:Eb; [apply orb_true_iff in Eb as [?%Z.ltb_lt|?%Z.leb_le]; lia|].
  rewrite Hg. cbn [negb]. cbv zeta. rewrite Ha. rewrite throw_bind_false by (pose proof (aw_cycle _ _ _ Haw); lia). cbn [mbind result_bind]. unfold arbiter_grant.
  cbn [fst snd]. f_equal. f_equal; [by destruct req|]. f_equal. unfold asked. destruct req; [done|].
  rewrite (left_id_L ∅ (∪)). by destruct (arbiter_cycle a cycle).
Qed.

Lemma one_call_wf (cycle : Z) (acc : list Z * arbs_map) (i : Z) (req : bool) a : arbs_wf cycle acc.2 -> link_ok i -> acc.2 !! GroupKeyForLink links i = Some a ->
  arbs_wf cycle (<[GroupKeyForLink links i := asked (arbiter_cycle a cycle) (if req then {[i]} else ∅ : gset Z)]> acc.2).
Proof using.
  intros Hw Hi Ha j Hj. destruct (Hw i Hi) as (a' & Ha' & Haw). assert (a' = a) as -> by congruence.
  destruct (decide (GroupKeyForLink links i = GroupKeyForLink links j)) as [E|E].
  - rewrite <- E, lookup_insert_eq. eexists. split; [done|]. apply arbiter_cycle_wf in Haw. split; cbn; [apply Haw|apply Haw|].
    intros y [Hy|Hy]%elem_of_union; [|by apply (aw_pending _ _ _ Haw)]. destruct req; [|set_solver]. apply elem_of_singleton in Hy as ->. apply Hi.
  - rewrite lookup_insert_ne by done. by apply Hw.
Qed.

(** A cycle never fails; the requests of a group are collected and its grant goes
    to the winner of the previous requests, if it asks. *)
Lemma run_calls_spec (cycle : Z) (calls : list (Z * bool)) (acc : list Z * arbs_map) : arbs_wf cycle acc.2 -> (forall i req, (i, req) ∈ calls -> link_ok i) ->
  exists acc', foldM (one_call links cycle) acc calls = Ok acc' /\ arbs_wf cycle acc'.2 /\
    forall i a, link_ok i -> acc.2 !! GroupKeyForLink links i = Some a ->
      exists a', acc'.2 !! GroupKeyForLink links i = Some a' /\
        arb_grant (arbiter_cycle a' cycle) = arb_grant (arbiter_cycle a cycle) /\
        last_winner (arbiter_cycle a' cycle) = last_winner (arbiter_cycle a cycle) /\
        (forall y, y ∈ arb_pending (arbiter_cycle a cycle) -> y ∈ arb_pending (arbiter_cycle a' cycle)) /\
        ((i, true) ∈ calls -> i ∈ arb_pending a' /\ arb_cycle a' = cycle) /\
        (arb_cycle a = cycle -> arb_cycle a' = cycle) /\
        (i ∈ acc'.1 <-> i ∈ acc.1 \/ ((i, true) ∈ calls /\ arb_grant (arbiter_cycle a cycle) = i)).
Proof using.
  revert acc. induction calls as [|[j req] calls IH]; intros acc Hw Hc; cbn [foldM].
  { exists acc. split; [done|]. split; [done|]. intros i a Hi Ha. exists a. split_and!; try done.
    - intros Hn. by apply elem_of_nil in Hn.
    - split; [by left|]. intros [?|[Hn _]]; [done|by apply elem_of_nil in Hn]. }
  pose proof (Hc j req (list_elem_of_here _ _)) as Hj. destruct (one_call_ok cycle acc j req Hw Hj) as (b & arbs1 & Hb & -> & E1).
  cbn [mbind result_bind]. set (acc1 := (_, arbs1)). assert (arbs_wf cycle acc1.2) as Hw1 by (cbn; rewrite E1; by apply one_call_wf).
  destruct (IH acc1 Hw1) as (acc' & -> & Hw' & Hacc); [intros i r Hir; apply (Hc i r); by right|].
  exists acc'. split; [done|]. split; [done|]. intros i a Hi Ha.
  assert (i ∈ acc1.1 <-> i ∈ acc.1 \/ (i = j /\ req = true /\ arb_grant (arbiter_cycle b cycle) = j)) as Hin1.
  { cbn. destruct req; cbn [andb]; [destruct (Z.eqb_spec (arb_grant (arbiter_cycle b cycle)) j) as [Eg|Eg]|]; [rewrite elem_of_app, list_elem_of_singleton| |]; naive_solver. }
  destruct (decide (GroupKeyForLink links j = GroupKeyForLink links i)) as [E|E].
  - assert (b = a) as -> by congruence. set (a1 := asked (arbiter_cycle a cycle) (if req then {[j]} else ∅ : gset Z)) in *.
    assert (acc1.2 !! GroupKeyForLink links i = Some a1) as Ha1 by (cbn; rewrite E1, <- E; apply lookup_insert_eq).
    assert (arb_cycle a1 = cycle) as Hc1 by apply arbiter_cycle_at.
    destruct (Hacc i a1 Hi Ha1) as (a' & Ha' & Hg & Hl & Hp & Hr & Hcc & Hin). rewrite (arbiter_cycle_idem a1 cycle Hc1) in Hg, Hl, Hp, Hin.
    specialize (Hcc Hc1). exists a'. split_and!; try done.
    + intros y Hy. apply Hp. cbn. set_solver.
    + intros [[= -> <-]|H]%elem_of_cons; [|by apply Hr]. split; [|done]. rewrite (arbiter_cycle_idem a' cycle Hcc) in Hp. apply Hp. cbn. set_solver.
    + rewrite Hin, Hin1, elem_of_cons. cbn [a1 asked arb_grant]. naive_solver.
  - assert (acc1.2 !! GroupKeyForLink links i = Some a) as Ha1 by (cbn; rewrite E1, lookup_insert_ne; done).
    assert (i <> j) as Hij by (intros ->; done).
    destruct (Hacc i a Hi Ha1) as (a' & Ha' & Hg & Hl & Hp & Hr & Hcc & Hin). exists a'. split_and!; try done.
    + intros [[= -> <-]|H]%elem_of_cons; [done|by apply Hr].
    + rewrite Hin, Hin1, elem_of_cons. naive_solver.
Qed.

Fixpoint increasing (c : Z) (sched : list (Z * list (Z * bool))) : Prop :=
  match sched with [] => True | (cycle, _) :: sched => c < cycle /\ increasing cycle sched end.
Definition calls_ok (sched : list (Z * list (Z * bool))) : Prop :=
  forall cycle calls i req, (cycle, calls) ∈ sched -> (i, req) ∈ calls -> link_ok i.
Definition asks (sched : list (Z * list (Z * bool))) (k : nat) (x : Z) : Prop :=
  exists cycle calls, sched !! k = Some (cycle, calls) /\ (x, true) ∈ calls.

Lemma arbs_wf_later (c cycle : Z) (arbs : arbs_map) : c <= cycle -> arbs_wf c arbs -> arbs_wf cycle arbs.
Proof using.
  intros Hc Hw i Hi. destruct (Hw i Hi) as (a & Ha & Haw). exists a. split; [done|]. split; [|apply Haw..].
  pose proof (aw_cycle _ _ _ Haw). lia.
Qed.

Lemma cycle_spec (c cycle : Z) (calls : list (Z * bool)) (arbs : arbs_map) : arbs_wf c arbs -> c < cycle -> (forall i req, (i, req) ∈ calls -> link_ok i) ->
  exists gs arbs', run_cycle links arbs cycle calls = Ok (gs, arbs') /\ arbs_wf cycle arbs' /\
    forall x a, link_ok x -> arbs !! GroupKeyForLink links x = Some a ->
      (x ∈ gs <-> (x, true) ∈ calls /\ arb_grant (arbiter_cycle a cycle) = x) /\
      ((x, true) ∈ calls -> exists a', arbs' !! GroupKeyForLink links x = Some a' /\ x ∈ arb_pending a' /\
         last_winner a' = last_winner (arbiter_cycle a cycle)).
Proof using.
  intros Hw Hc Hok. destruct (run_calls_spec cycle calls ([], arbs)) as ([gs arbs'] & E & Hw' & Hx); [apply (arbs_wf_later c); [lia|done]|done|].
  exists gs, arbs'. split; [exact E|]. split; [done|]. intros x a Hlx Ha.
  destruct (Hx x a Hlx Ha) as (a' & Ha' & _ & Hl & _ & Hr & _ & Hin). split.
  - rewrite Hin. cbn. split; [intros [Hn|?]; [by apply elem_of_nil in Hn|done]|by right].
  - intros Hxr. destruct (Hr Hxr) as [Hp Hcy]. exists a'. split; [done|]. split; [done|]. by rewrite <- Hl, (arbiter_cycle_idem a' cycle Hcy).
Qed.

(** Any schedule runs; a cycle grants a group to one link at most, and only to a
    link that asks for it. *)
Lemma run_cycles_spec (sched : list (Z * list (Z * bool))) (c : Z) (arbs : arbs_map) : arbs_wf c arbs -> increasing c sched -> calls_ok sched ->
  exists gss arbs', run_cycles links arbs sched = Ok (gss, arbs') /\ length gss = length sched /\
    forall j gs, gss !! j = Some gs ->
      (forall x, link_ok x -> x ∈ gs -> asks sched j x) /\
      (forall x y, link_ok x -> link_ok y -> x ∈ gs -> y ∈ gs -> GroupKeyForLink links x = GroupKeyForLink links y -> x = y).
Proof using.
  revert c arbs. induction sched as [|[cycle calls] sched IH]; intros c arbs Hw Hinc Hok; cbn [run_cycles].
  { exists [], arbs. split; [done|]. split; [done|]. intros j gs Hj. by rewrite lookup_nil in Hj. }
  destruct Hinc as [Hc Hinc].
  destruct (cycle_spec c cycle calls arbs Hw Hc) as (gs & arbs1 & -> & Hw1 & Hx); [intros i req; by apply (Hok cycle calls); left|].
  destruct (IH cycle arbs1 Hw1 Hinc) as (gss & arbs' & E & Hlen & Hall); [intros cy cs i req Hin; by apply (Hok cy cs); right|].
  cbn [mbind result_bind fst snd]. rewrite E. cbn [mbind result_bind fst snd].
  exists (gs :: gss), arbs'. split; [done|]. split; [cbn; by rewrite Hlen|]. intros [|j] gs' Hj; cbn in Hj; [|by apply Hall].
  injection Hj as <-. split.
  - intros x Hlx Hin. destruct (Hw x Hlx) as (a & Ha & _). destruct (Hx x a Hlx Ha) as [Hiff _]. destruct (proj1 Hiff Hin) as [Hask _].
    by exists cycle, calls.
  - intros x y Hlx Hly Hinx Hiny Exy. destruct (Hw x Hlx) as (a & Ha & _).
    destruct (Hx x a Hlx Ha) as [Hix _]. rewrite Exy in Ha. destruct (Hx y a Hly Ha) as [Hiy _].
    destruct (proj1 Hix Hinx) as [_ <-]. by destruct (proj1 Hiy Hiny) as [_ <-].
Qed.

(** A link that keeps asking is at most its turns away from its grant. *)
Lemma fair_pending (m : nat) (sched : list (Z * list (Z * bool))) (c : Z) (arbs : arbs_map) (x : Z) a gss arbs' : arbs_wf c arbs -> increasing c sched -> calls_ok sched -> link_ok x ->
  arbs !! GroupKeyForLink links x = Some a -> x ∈ arb_pending a -> turns n (last_winner a) x <= Z.of_nat m ->
  (forall k, (k <= m)%nat -> asks sched k x) -> run_cycles links arbs sched = Ok (gss, arbs') ->
  exists k gs, (k <= m)%nat /\ gss !! k = Some gs /\ x ∈ gs.
Proof using.
  revert sched c arbs a gss. induction m as [m IH] using lt_wf_ind. intros sched c arbs a gss Hw Hinc Hok Hx Ha Hp Ht Hasks Hrun.
  destruct (Hasks 0%nat) as (cycle & calls & Hs & Hask); [lia|]. destruct sched as [|s0 sched]; [done|]. injection Hs as ->.
  cbn [run_cycles] in Hrun. destruct Hinc as [Hc Hinc].
  destruct (cycle_spec c cycle calls arbs Hw Hc) as (gs & arbs1 & E & Hw1 & Hcy); [intros i req; by apply (Hok cycle calls); left|].
  rewrite E in Hrun. cbn [mbind result_bind fst snd] in Hrun. apply bind_ok in Hrun as ([gss1 arbs2] & Hrun & [= <- <-]).
  destruct (Hcy x a Hx Ha) as [Hin Hnext]. destruct (Hnext Hask) as (a1 & Ha1 & Hp1 & Hl1).
  destruct (Hw x Hx) as (b & Hb & Haw). assert (b = a) as -> by congruence.
  destruct (pick_after_spec n (last_winner a) (arb_pending a) x Hp (aw_pending _ _ _ Haw) (aw_last _ _ _ Haw)) as (w & Epick & Hwp & Hcase).
  assert (arbiter_cycle a cycle = mkArbiter cycle w w ∅) as Eb.
  { unfold arbiter_cycle. pose proof (aw_cycle _ _ _ Haw). destruct (Z.eqb_spec cycle (arb_cycle a)); [lia|]. by rewrite Epick. }
  rewrite Eb in Hin, Hl1. cbn in Hin, Hl1. destruct (decide (w = x)) as [->|Hne].
  { exists 0%nat, gs. split; [lia|]. split; [done|]. by apply Hin. }
  destruct Hcase as [|Hless]; [done|]. assert (0 <= turns n w x) as H0.
  { pose proof (aw_pending _ _ _ Haw w Hwp). destruct Hx as [Hx _]. unfold turns. destruct (Z.ltb_spec w x); lia. }
  destruct (IH (m - 1)%nat ltac:(lia) sched cycle arbs1 a1 gss1) as (k & gs' & Hk & Hgs & Hxg); try done.
  - intros cy cs i req Hcs. apply (Hok cy cs). by right.
  - rewrite Hl1. lia.
  - intros k Hk. by apply (Hasks (S k)); lia.
  - exists (S k), gs'. split; [lia|]. by split.
Qed.

Lemma fair_at (j : nat) (sched : list (Z * list (Z * bool))) (c : Z) (arbs : arbs_map) (x : Z) gss arbs' : arbs_wf c arbs -> increasing c sched -> calls_ok sched -> link_ok x ->
  (forall k, (j <= k <= j + length links)%nat -> asks sched k x) -> run_cycles links arbs sched = Ok (gss, arbs') ->
  exists k gs, (j <= k <= j + length links)%nat /\ gss !! k = Some gs /\ x ∈ gs.
Proof using.
  revert sched c arbs gss. induction j as [|j IH]; intros sched c arbs gss Hw Hinc Hok Hx Hasks Hrun.
  all: match goal with |- context [(?j <= _ <= _)%nat] => destruct (Hasks (j + length links)%nat) as (cl & kl & Hlast & _); [lia|] end.
  all: destruct sched as [|[cycle calls] sched]; [done|]; destruct Hinc as [Hc Hinc]; cbn [run_cycles] in Hrun.
  all: destruct (cycle_spec c cycle calls arbs Hw Hc) as (gs & arbs1 & E & Hw1 & Hcy); [intros i req; by apply (Hok cycle calls); left|].
  all: rewrite E in Hrun; cbn [mbind result_bind fst snd] in Hrun; apply bind_ok in Hrun as ([gss1 arbs2] & Hrun & [= <- <-]).
  all: assert (calls_ok sched) as Hok1 by (intros cy cs i req Hcs; apply (Hok cy cs); by right).
  - destruct (Hasks 0%nat) as (cy & cs & [= <- <-] & Hask); [lia|]. destruct (Hw x Hx) as (a & Ha & Haw).
    destruct (Hcy x a Hx Ha) as [_ Hnext]. destruct (Hnext Hask) as (a1 & Ha1 & Hp1 & _).
    destruct (Hw1 x Hx) as (b & Hb & Hbw). assert (b = a1) as -> by congruence. pose proof (aw_last _ _ _ Hbw). destruct Hx as [Hxr Hxg].
    destruct (fair_pending (length links - 1) sched cycle arbs1 x a1 gss1 arbs2) as (k & gs' & Hk & Hgs & Hin); try done.
    + unfold turns. destruct (Z.ltb_spec (last_winner a1) x); lia.
    + intros k Hk. apply (Hasks (S k)). lia.
    + exists (S k), gs'. split; [lia|]. by split.
  - destruct (IH sched cycle arbs1 gss1) as (k & gs' & Hk & Hgs & Hin); try done.
    + intros k Hk. apply (Hasks (S k)). lia.
    + exists (S k), gs'. split; [lia|]. by split.
Qed.

Lemma reset_arbiters (l : list Z) (m : arbs_map) : (forall g a, m !! g = Some a -> a = new_arbiter) ->
  let r := foldl (fun m idx => if grouped links idx then
           (if bool_decide (m !! GroupKeyForLink links idx = None)
            then <[GroupKeyForLink links idx := new_arbiter]> m else m) else m) m l in
  (forall g a, r !! g = Some a -> a = new_arbiter) /\ (forall g, is_Some (m !! g) -> is_Some (r !! g)) /\
  (forall i, i ∈ l -> grouped links i = true -> is_Some (r !! GroupKeyForLink links i)).
Proof using.
  revert m. induction l as [|i l IH]; intros m Hm; cbn [foldl].
  { split; [done|]. split; [done|]. intros i Hi. by apply elem_of_nil in Hi. }
  set (m1 := if grouped links i then _ else _).
  assert ((forall g a, m1 !! g = Some a -> a = new_arbiter) /\ (forall g, is_Some (m !! g) -> is_Some (m1 !! g)) /\
    (grouped links i = true -> is_Some (m1 !! GroupKeyForLink links i))) as (H1 & H2 & H3).
  { unfold m1. destruct (grouped links i); [|done]. case_bool_decide as E.
    - split; [intros g a [[_ <-]|[_ Hg]]%lookup_insert_Some; [done|by eapply Hm]|]. split; [|intros _; by rewrite lookup_insert_eq].
      intros g Hg. apply lookup_insert_is_Some'. by right.
    - split; [done|]. split; [done|]. intros _. by apply not_eq_None_Some. }
  destruct (IH m1 H1) as (Ha & Hb & Hc). split; [done|]. split; [intros g Hg; by apply Hb, H2|].
  intros j [->|Hj]%elem_of_cons Hg; [by apply Hb, H3|by apply Hc].
Qed.

Lemma reset_arbs_wf : arbs_wf (-1) (ResetV5LinkGroupRuntime links).
Proof using.
  destruct (reset_arbiters (seqZ 0 n) ∅) as (H1 & _ & H3); [intros g a; by rewrite lookup_empty|].
  intros i [Hi Hg]. destruct (H3 i) as [a Ha]; [apply elem_of_seqZ; lia|done|]. exists a. split; [exact Ha|]. rewrite (H1 _ _ Ha).
  split; cbn; [lia|lia|set_solver].
Qed.
End arbiter.

(** C19: the link-group arbiter is safe and fair.  From its reset every
    schedule of calls by grouped links in increasing cycles runs without an
    exception; in each cycle a group is granted to at most one of its links, one
    that asks in that cycle; and a link that asks in every cycle gets its group at
    least once in any run of one more cycles than there are links. *)
Theorem link_group_fair links sched : increasing (-1) sched -> calls_ok links sched ->
  exists gss arbs', run_cycles links (ResetV5LinkGroupRuntime links) sched = Ok (gss, arbs') /\ length gss = length sched /\
    (forall j gs x y, gss !! j = Some gs -> link_ok links x -> link_ok links y -> x ∈ gs -> y ∈ gs ->
       GroupKeyForLink links x = GroupKeyForLink links y -> x = y) /\
    (forall j gs x, gss !! j = Some gs -> link_ok links x -> x ∈ gs -> asks sched j x) /\
    (forall x j, link_ok links x -> (forall k, (j <= k <= j + length links)%nat -> asks sched k x) ->
       exists k gs, (j <= k <= j + length links)%nat /\ gss !! k = Some gs /\ x ∈ gs).
Proof.
  intros Hinc Hok. pose proof (reset_arbs_wf links) as Hw.
  destruct (run_cycles_spec links sched (-1) _ Hw Hinc Hok) as (gss & arbs' & E & Hlen & Hall).
  exists gss, arbs'. split; [done|]. split; [done|]. split; [|split].
  - intros j gs x y Hj Hx Hy. by apply (Hall j gs Hj).
  - intros j gs x Hj Hx. by apply (Hall j gs Hj).
  - intros x j Hx Hasks. by apply (fair_at links j sched (-1) _ x gss arbs' Hw Hinc Hok Hx Hasks).
Qed.

Definition demo_sched : list (Z * list (Z * bool)) :=
  (fun c => (c, [(0, true); (1, true)])) <$> [0; 1; 2].

Lemma link_group_fair_witness : exists gss arbs', run_cycles demo_group (ResetV5LinkGroupRuntime demo_group) demo_sched = Ok (gss, arbs') /\
  exists k gs, (k <= 2)%nat /\ gss !! k = Some gs /\ 1 ∈ gs.
Proof.
  assert (forall i, i = 0 \/ i = 1 -> link_ok demo_group i) as Hok by (intros i [-> | ->]; (split; [cbn; lia|vm_compute; reflexivity])).
  destruct (link_group_fair demo_group demo_sched) as (gss & arbs' & E & _ & _ & _ & Hfair).
  - cbn. lia.
  - intros cycle calls i req Hc Hi. apply Hok. unfold demo_sched in Hc. apply list_elem_of_fmap in Hc as (c & [= -> ->] & _). set_solver.
  - exists gss, arbs'. split; [exact E|]. destruct (Hfair 1 0%nat) as (k & gs & Hk & H).
    + apply Hok. by right.
    + intros k Hk. cbn in Hk. destruct k as [|[|[|k]]]; [..|lia]; eexists _, _; (split; [reflexivity|set_solver]).
    + exists k, gs. split; [cbn in Hk; lia|exact H].
Defined.
