(* ===== verification/Behavioral.v ===== *)
(** The behavioural model of the die-to-die network
    ([include/die/behavioral.h]): the route of a flow over the directed links,
    the rate of its narrowest cut, and the cycles a representative packet is
    charged.  Products of two [int] fit [long long], so the arithmetic on rates
    is not wrapped; the one product that may not fit is guarded in the code. *)

From S2P Require Import Prelude D2DConfig DieTopology PortSelect HostAttach Routing SafAdmission.

(** ** Rates *)

Definition bad_rate : exn := runtime_error "Behavioral D2D rate must satisfy 0<num<=den".

Definition D2DRateLess (a b : D2DRate) : result bool :=
  THROW bad_rate WHEN negb (Valid a) || negb (Valid b);;
  Ok (num a * den b <? num b * den a).

Definition D2DMinRate (a b : D2DRate) : result D2DRate :=
  D2DRateLess a b ≫= fun less : bool => Ok (if less then a else b).

Definition D2DScaleRateCappedOne (rate : D2DRate) (lanes : Z) : result D2DRate :=
  THROW runtime_error "Behavioral D2D aggregate rate input is invalid" WHEN negb (Valid rate) || (lanes <? 1);;
  let n := num rate * lanes in
  let d := den rate in
  if d <=? n then Ok (mkRate 1 1) else
  let g := Z.gcd n d in
  Ok (mkRate (Z.quot n g) (Z.quot d g)).

Definition LLONG_MAX : Z := 2 ^ 63 - 1.

Definition D2DServiceCycles (n : Z) (rate : D2DRate) : result Z :=
  THROW runtime_error "Behavioral D2D packets must be >= 1" WHEN n <? 1;;
  THROW bad_rate WHEN negb (Valid rate);;
  THROW runtime_error "Behavioral D2D service-cycle multiplication overflow" WHEN LLONG_MAX / den rate <? n;;
  let total := n * den rate in
  Ok (Z.quot total (num rate) + (if negb (Z.rem total (num rate) =? 0) then 1 else 0)).

(** ** Routes *)

Record D2DBehavioralRoute : Type := mkBehRoute { dies : list Z; link_indices : list Z; intra_die_hops : Z }.

Definition D2DLocalManhattan `{Geometry} (a b : Z) : result Z :=
  THROW runtime_error "Behavioral D2D route has illegal local tile"
    WHEN (a <? 0) || (CORES_PER_DIE <=? a) || (b <? 0) || (CORES_PER_DIE <=? b);;
  let ax := Z.rem a GRID_X in let ay := Z.quot a GRID_X in
  let bx := Z.rem b GRID_X in let by_ := Z.quot b GRID_X in
  Ok ((if bx <? ax then ax - bx else bx - ax) + (if by_ <? ay then ay - by_ else by_ - ay)).

Definition D2DNextDie `{Geometry} (die : Z) (d : Directions) : result Z :=
  let x := Z.rem die DIE_X in
  let y := Z.quot die DIE_X in
  let '(x, y) := match d with
    | EAST => (x + 1, y) | WEST => (x - 1, y) | NORTH => (x, y + 1) | SOUTH => (x, y - 1) | _ => (x, y) end in
  THROW runtime_error "Behavioral D2D route leaves die mesh" WHEN (x <? 0) || (DIE_X <=? x) || (y <? 0) || (DIE_Y <=? y);;
  Ok (y * DIE_X + x).

Definition D2DDirectedLinkIndexForPort (links : list D2DLink) (die port next_die : Z) : Z :=
  match list_find (fun l => local_die l = die /\ local_port l = port /\ remote_die l = next_die) links with
  | Some (i, _) => Z.of_nat i
  | None => -1
  end.

(** One turn of the loop: the link taken, the next die and the tile of entry, the
    hops inside the present die.  [SelectPortForFlow] is called without a die. *)
Definition beh_step `{Geometry} (M : machine) (st : v5_state) (cur_die cur_local dest_die source_global tg sub : Z)
    : result (Z * Z * Z * Z * v5_state) :=
  let dir := DieFirstHopDir cur_die dest_die in
  SelectPortForFlow (g_die_ports M) (g_d2d_cfg M) st cur_local dir source_global tg sub (-1) ≫=
    fun '((pid, st) : Z * v5_state) =>
  THROW runtime_error "Behavioral D2D route: missing C2C exit"
    WHEN (pid <? 0) || (Z.of_nat (length (ports (g_die_ports M))) <=? pid);;
  let p := ports (g_die_ports M) !!! Z.to_nat pid in
  THROW runtime_error "Behavioral D2D route: invalid selected C2C exit"
    WHEN negb (bool_decide (role p = ROLE_C2C)) || negb (bool_decide (pdir p = dir)) || negb (bool_decide (side p = dir));;
  D2DLocalManhattan cur_local (tile p) ≫= fun h : Z =>
  D2DNextDie cur_die dir ≫= fun next_die : Z =>
  let link_idx := D2DDirectedLinkIndexForPort (g_d2d_links M) cur_die pid next_die in
  THROW runtime_error "Behavioral D2D route: selected exit has no peer link" WHEN link_idx <? 0;;
  let link := link_of (g_d2d_links M) link_idx in
  THROW runtime_error "Behavioral D2D route: illegal remote port"
    WHEN (remote_port link <? 0) || (Z.of_nat (length (ports (g_die_ports M))) <=? remote_port link);;
  Ok (link_idx, next_die, tile (ports (g_die_ports M) !!! Z.to_nat (remote_port link)), h, st).

(** The [while] loop; the fuel is the distance of the dies. *)
Fixpoint beh_from `{Geometry} (fuel : nat) (M : machine) (st : v5_state) (out : D2DBehavioralRoute)
    (cur_die cur_local dest_die source_global tg sub : Z) : result (D2DBehavioralRoute * Z * v5_state) :=
  if cur_die =? dest_die then Ok (out, cur_local, st) else
  match fuel with
  | O => Err (logic_error "out of fuel")
  | S fuel =>
      beh_step M st cur_die cur_local dest_die source_global tg sub ≫=
        fun '(((((link_idx, next_die), next_local), h), st) : Z * Z * Z * Z * v5_state) =>
      beh_from fuel M st (mkBehRoute (dies out ++ [next_die]) (link_indices out ++ [link_idx]) (intra_die_hops out + h))
        next_die next_local dest_die source_global tg sub
  end.

Definition BuildD2DBehavioralRouteForFlow `{Geometry} (M : machine) (st : v5_state) (source_global dest_global tg sub : Z)
    : result (D2DBehavioralRoute * v5_state) :=
  THROW runtime_error "Behavioral D2D route: illegal endpoint"
    WHEN (source_global <? 0) || (TOTAL_CORES <=? source_global) || (dest_global <? 0) || (TOTAL_CORES <=? dest_global);;
  let cur_die := DieOfGlobal source_global in
  let dest_die := DieOfGlobal dest_global in
  beh_from (Z.to_nat (DieManhattan cur_die dest_die)) M st (mkBehRoute [cur_die] [] 0) cur_die (LocalOfGlobal source_global)
    dest_die source_global tg sub ≫= fun '(((out, cur_local), st) : D2DBehavioralRoute * Z * v5_state) =>
  D2DLocalManhattan cur_local (LocalOfGlobal dest_global) ≫= fun h : Z =>
  Ok (mkBehRoute (dies out) (link_indices out) (intra_die_hops out + h), st).

Definition BuildD2DBehavioralRoute `{Geometry} (M : machine) (st : v5_state) (source_global dest_global : Z)
    : result (D2DBehavioralRoute * v5_state) :=
  BuildD2DBehavioralRouteForFlow M st source_global dest_global 0 0.

(** ** Estimate *)

Record D2DBehavioralEstimate : Type := mkEstimate {
  e_packets : Z; e_d2d_hops : Z; e_intra_die_hops : Z; effective_rate : D2DRate;
  per_phase_link_latency_cycles : Z; transaction_link_latency_cycles : Z;
  first_packet_service_cycles : Z; bulk_service_cycles : Z;
  data_first_cycles : Z; data_last_cycles : Z; transaction_d2d_cycles : Z
}.

(** The ports and the link lanes that the routes use at hop [hop]. *)
Definition lanes : Type := gset (Z * Z) * gset (Z * Z * Z * Z).
Definition add_lane (links : list D2DLink) (hop : nat) (acc : lanes) (r : D2DBehavioralRoute) : result lanes :=
  match link_indices r !! hop with
  | None => Err (out_of_range "vector::at")
  | Some idx =>
      match links !! Z.to_nat idx with
      | None => Err (out_of_range "vector::at")
      | Some l =>
          Ok ({[(local_die l, local_port l)]} ∪ acc.1,
              {[if 0 <=? l_group l then (local_die l, remote_die l, 0, l_group l)
                else (local_die l, remote_die l, 1, idx)]} ∪ acc.2)
      end
  end.

Definition hop_rate (links : list D2DLink) (routes : list D2DBehavioralRoute) (port_rate link_rate : D2DRate)
    (rate : D2DRate) (hop : nat) : result D2DRate :=
  foldM (add_lane links hop) (∅, ∅) routes ≫= fun ls : lanes =>
  D2DScaleRateCappedOne port_rate (Z.of_nat (size ls.1)) ≫= fun port_cut : D2DRate =>
  D2DScaleRateCappedOne link_rate (Z.of_nat (size ls.2)) ≫= fun link_cut : D2DRate =>
  D2DMinRate port_cut link_cut ≫= fun cut : D2DRate => D2DMinRate rate cut.

Definition stripe_route `{Geometry} (M : machine) (source_global dest_global tg : Z)
    (acc : list D2DBehavioralRoute * v5_state) (s : Z) : result (list D2DBehavioralRoute * v5_state) :=
  BuildD2DBehavioralRouteForFlow M acc.2 source_global dest_global tg s ≫= fun '((r, st) : D2DBehavioralRoute * v5_state) =>
  Ok (acc.1 ++ [r], st).

Definition same_hops (hops : Z) (m : Z) (r : D2DBehavioralRoute) : result Z :=
  THROW runtime_error "Behavioral striped routes have inconsistent hop counts"
    WHEN negb (Z.of_nat (length (link_indices r)) =? hops);;
  Ok (Z.max m (intra_die_hops r)).

Definition EstimateD2DBehavioralStriped `{Geometry} (M : machine) (st : v5_state)
    (source_global dest_global tg n strp : Z) (port_rate link_rate : D2DRate) (link_latency : Z)
    : result (D2DBehavioralEstimate * v5_state) :=
  THROW runtime_error "Behavioral D2D link_latency must be >= 0" WHEN link_latency <? 0;;
  THROW runtime_error "Behavioral D2D striped flow is invalid"
    WHEN (n <? 1) || (negb (strp =? 1) && negb (strp =? 2) && negb (strp =? 4)) || (n <? strp);;
  foldM (stripe_route M source_global dest_global tg) ([], st) (seqZ 0 strp) ≫=
    fun '((routes, st) : list D2DBehavioralRoute * v5_state) =>
  let hops := Z.of_nat (match routes with r :: _ => length (link_indices r) | [] => O end) in
  foldM (same_hops hops) 0 routes ≫= fun intra : Z =>
  if hops =? 0 then Ok (mkEstimate n hops intra default_rate 0 0 0 0 0 0 0, st) else
  foldM (hop_rate (g_d2d_links M) routes port_rate link_rate) (mkRate 1 1) (seq 0 (Z.to_nat hops)) ≫= fun rate : D2DRate =>
  let per_phase := hops * link_latency in
  D2DServiceCycles 1 rate ≫= fun first : Z =>
  D2DServiceCycles n rate ≫= fun bulk : Z =>
  Ok (mkEstimate n hops intra rate per_phase (3 * per_phase) first bulk (per_phase + first) (per_phase + bulk)
        (3 * per_phase + bulk), st).

Definition EstimateD2DBehavioral `{Geometry} (M : machine) (st : v5_state) (source_global dest_global n : Z)
    (port_rate link_rate : D2DRate) (link_latency : Z) : result (D2DBehavioralEstimate * v5_state) :=
  EstimateD2DBehavioralStriped M st source_global dest_global 0 n 1 port_rate link_rate link_latency.

(** ** The algebra of rates *)

Definition rate_le (a b : D2DRate) : Prop := num a * den b <= num b * den a.

Lemma Valid_facts r : Valid r = true -> 0 < num r /\ 0 < den r /\ num r <= den r.
Proof. unfold Valid. intros Hv. split_guards. lia. Qed.

Lemma rate_le_trans a b c : Valid a = true -> Valid b = true -> Valid c = true -> rate_le a b -> rate_le b c -> rate_le a c.
Proof.
  intros Ha Hb Hc. apply Valid_facts in Ha, Hb, Hc. unfold rate_le. intros H1 H2.
  apply (Z.mul_le_mono_pos_r _ _ (den b)); [lia|].
  transitivity ((num b * den a) * den c); [|transitivity ((num c * den b) * den a)]; [nia|nia|lia].
Qed.

Lemma D2DMinRate_spec a b : Valid a = true -> Valid b = true -> exists r, D2DMinRate a b = Ok r /\
  (r = a \/ r = b) /\ rate_le r a /\ rate_le r b.
Proof.
  intros Ha Hb. unfold D2DMinRate, D2DRateLess. rewrite Ha, Hb. cbn. eexists. split; [done|]. unfold rate_le.
  destruct (Z.ltb_spec (num a * den b) (num b * den a)); (split; [by (left + right)|]); lia.
Qed.

(** [lanes] lanes of a rate, at most one packet a cycle: the exact product, in
    lowest terms. *)
Lemma D2DScaleRateCappedOne_spec r n : Valid r = true -> 1 <= n -> exists r', D2DScaleRateCappedOne r n = Ok r' /\
  Valid r' = true /\ den r' <= den r /\ num r' * den r = den r' * Z.min (den r) (num r * n).
Proof.
  intros Hv Hn. pose proof (Valid_facts r Hv) as (Hnum & Hden & Hle). unfold D2DScaleRateCappedOne. rewrite Hv. cbn [negb orb].
  rewrite throw_bind_false by lia. cbv zeta. destruct (Z.leb_spec (den r) (num r * n)) as [Hc|Hc].
  { exists (mkRate 1 1). split; [done|]. split; [done|]. cbn. lia. }
  assert (0 < num r * n) as Hp by nia. set (p := num r * n) in *. clearbody p.
  destruct (Z.gcd_divide_l p (den r)) as [a Ea]. destruct (Z.gcd_divide_r p (den r)) as [b Eb].
  assert (0 < Z.gcd p (den r)) as Hg.
  { pose proof (Z.gcd_nonneg p (den r)). assert (Z.gcd p (den r) <> 0); [|lia]. intros E0. rewrite E0 in Eb. lia. }
  set (k := Z.gcd p (den r)) in *. clearbody k.
  exists (mkRate a b). split; [rewrite Ea, Eb, !Z.quot_mul by lia; done|]. assert (0 < a /\ 0 < b /\ a < b) as (H1 & H2 & H3) by (split_and!; nia).
  unfold Valid. cbn [num den]. split; [|split; [nia|]].
  - by rewrite (proj2 (Z.ltb_lt 0 a)), (proj2 (Z.ltb_lt 0 b)), (proj2 (Z.leb_le a b)) by lia.
  - rewrite Z.min_r by nia. lia.
Qed.

Lemma D2DServiceCycles_spec n r : Valid r = true -> 1 <= n -> n * den r <= LLONG_MAX ->
  D2DServiceCycles n r = Ok (ceil_div (n * den r) (num r)).
Proof.
  intros Hv Hn Hmax. pose proof (Valid_facts r Hv) as (Hnum & Hden & _). unfold D2DServiceCycles. rewrite Hv. cbn [negb].
  rewrite !throw_bind_false; [|apply Z.ltb_ge, Z.div_le_lower_bound; lia|done|lia].
  cbv zeta. rewrite Z.quot_div_nonneg, Z.rem_mod_nonneg by nia. done.
Qed.

Lemma service_mono n n' r : Valid r = true -> n <= n' -> ceil_div (n * den r) (num r) <= ceil_div (n' * den r) (num r).
Proof.
  intros Hv Hn. pose proof (Valid_facts r Hv) as (Hnum & Hden & _). apply ceil_div_le_iff; [done|].
  pose proof (ceil_div_spec (n' * den r) (num r) Hnum). nia.
Qed.

(** A port selection of a static policy depends on the flow and the core alone. *)
Lemma Select_static `{Geometry} t cfg st c dir src tg sub ld ld' r st' : select_policy cfg <> SELECT_DYNAMIC \/ v5_multiport cfg = false ->
  0 <= die_of_flow src ld' < DIE_COUNT -> SelectPortForFlow t cfg st c dir src tg sub ld = Ok (r, st') ->
  st' = st /\ SelectPortForFlow t cfg st c dir src tg sub ld' = Ok (r, st).
Proof.
  intros Hp Hld E. unfold SelectPortForFlow in *. fold (die_of_flow src ld) (die_of_flow src ld') in *. cbv zeta in *.
  apply throw_bind_ok in E as [Eg E]. apply throw_bind_ok in E as [_ E]. rewrite Eg. cbn [throw_if mbind result_bind].
  rewrite throw_bind_false by (apply orb_false_iff; split; lia). destruct (PortsForDir t dir); [by simplify_eq|].
  destruct (negb (v5_multiport cfg) || _) eqn:Eb; [by simplify_eq|].
  destruct Hp as [Hp|Hp]; [|by rewrite Hp in Eb]. destruct (select_policy cfg); by simplify_eq.
Qed.

(** ** The route *)

(** Consecutive links from die [d]. *)
Fixpoint chain (links : list D2DLink) (d : Z) (l ds : list Z) : Prop :=
  match l, ds with
  | [], [] => True
  | i :: l, d' :: ds =>
      0 <= i < Z.of_nat (length links) /\ local_die (link_of links i) = d /\ remote_die (link_of links i) = d' /\
      chain links d' l ds
  | _, _ => False
  end.

Lemma chain_length links d l ds : chain links d l ds -> length l = length ds.
Proof. revert d ds. induction l as [|i l IH]; intros d [|d' ds]; cbn; try done. intros (_ & _ & _ & Hc). f_equal. by eapply IH. Qed.

Lemma chain_valid links d l ds i : chain links d l ds -> i ∈ l -> 0 <= i < Z.of_nat (length links).
Proof.
  revert d ds. induction l as [|j l IH]; intros d [|d' ds] Hc Hi; try done; [by apply elem_of_nil in Hi|].
  destruct Hc as (Hj & _ & _ & Hc). apply elem_of_cons in Hi as [-> |Hi]; [done|]. by eapply IH.
Qed.

Section route.
Context `{G : Geometry} (Hgeo : ValidateAddressSpace = Ok tt) (M : machine) (Hwf : machine_wf M).
Local Notation t := (g_die_ports M).
Local Notation links := (g_d2d_links M).

(** A selection never drops a pin; the dynamic policy leaves the flow pinned. *)
Lemma Select_pins st c dir src tg sub ld : v5_wf t st -> 0 <= c < CORES_PER_DIE -> 0 <= sub <= 3 -> 0 <= die_of_flow src ld < DIE_COUNT ->
  PortsForDir t dir <> [] -> exists r st', SelectPortForFlow t (g_d2d_cfg M) st c dir src tg sub ld = Ok (r, st') /\ r ∈ PortsForDir t dir /\
    v5_wf t st' /\ pins st ⊆ pins st' /\
    (v5_multiport (g_d2d_cfg M) = true -> select_policy (g_d2d_cfg M) = SELECT_DYNAMIC ->
     is_Some (pins st' !! (die_of_flow src ld, dir_code dir, mkFlow src tg sub))).
Proof using Hgeo Hwf.
  intros Hst Hc Hsub Hd Hne. destruct (SelectPortForFlow_ok Hgeo t (mw_ports _ Hwf) (g_d2d_cfg M) st c dir src tg sub ld Hst Hc Hsub Hd Hne)
    as (r & st' & E & Hr & Hst' & Hs & Hdyn). exists r, st'. split; [done|]. split; [done|]. split; [done|].
  destruct (decide (v5_multiport (g_d2d_cfg M) = true)) as [Em|Em]; [|split; [|done]; rewrite Hs by (left; by apply not_true_is_false); done].
  destruct (decide (select_policy (g_d2d_cfg M) = SELECT_DYNAMIC)) as [Ep|Ep]; [|split; [by rewrite Hs by (by right)|done]].
  destruct (select_dynamic_spec Hgeo t (mw_ports _ Hwf) st (select_seed (g_d2d_cfg M)) dir src tg sub _ Hst Hd Hne) as (r' & st2 & E2 & _ & _ & Hp).
  rewrite (Hdyn Em Ep) in E2. injection E2 as <- <-. destruct Hp as [[Hk ->]|(Hk & -> & _)]; [split; [done|by eexists]|].
  split; [by apply insert_subseteq|]. intros _ _. rewrite lookup_insert_eq. by eexists.
Qed.

Lemma D2DLocalManhattan_ok a b : 0 <= a < CORES_PER_DIE -> 0 <= b < CORES_PER_DIE -> exists h, D2DLocalManhattan a b = Ok h /\ 0 <= h.
Proof using.
  intros Ha Hb. unfold D2DLocalManhattan. rewrite throw_bind_false by (repeat (apply orb_false_iff; split); lia). cbv zeta.
  eexists. split; [done|]. repeat match goal with |- context [?a <? ?b] => destruct (Z.ltb_spec a b) end; lia.
Qed.

Lemma D2DNextDie_spec d D : is_side D = true -> 0 <= DieNeighbor d D -> D2DNextDie d D = Ok (DieNeighbor d D).
Proof using.
  intros Hs Hn. unfold D2DNextDie, DieNeighbor in *. cbv zeta in *. destruct D; try done; cbv beta iota in *;
    (destruct (_ || _ || _ || _); [lia|done]).
Qed.

Lemma DirectedTo_spec md e nd k : k ∈ links -> local_die k = md -> local_port k = e -> remote_die k = nd ->
  (forall x, In x links -> local_die x = md -> local_port x = e -> x = k) ->
  let idx := D2DDirectedLinkIndexForPort links md e nd in
  0 <= idx < Z.of_nat (length links) /\ link_of links idx = k /\ idx = DirectedLinkIndexForPort links md e.
Proof using.
  intros Hk Ed Ep Er Hu idx. unfold idx, D2DDirectedLinkIndexForPort, DirectedLinkIndexForPort.
  assert (forall i x, links !! i = Some x -> local_die x = md /\ local_port x = e -> x = k) as Hu'.
  { intros i x Hx [E1 E2]. apply Hu; [|done|done]. by eapply list_elem_of_In, list_elem_of_lookup_2. }
  destruct (list_find (fun l => local_die l = md /\ local_port l = e /\ remote_die l = nd) links) as [[i x]|] eqn:Ef.
  - apply list_find_Some in Ef as (Hx & (E1 & E2 & _) & Hmin). assert (x = k) as -> by by eapply Hu'.
    pose proof (lookup_lt_Some _ _ _ Hx). split; [lia|]. split; [unfold link_of; rewrite Nat2Z.id; by apply list_lookup_total_correct|].
    assert (list_find (fun l => local_die l = md /\ local_port l = e) links = Some (i, k)) as ->; [|done].
    apply list_find_Some. split; [done|]. split; [done|]. intros j y Hy Hj HP. assert (y = k) as -> by by eapply Hu'.
    by apply (Hmin j k).
  - exfalso. apply list_find_None in Ef. rewrite list.Forall_forall in Ef. by apply (Ef k Hk).
Qed.

(** One turn takes a link to the neighbour that is one die nearer; under a static
    policy it is the link that the reservation takes. *)
Lemma beh_step_spec st md local des src tg sub : v5_wf t st -> 0 <= md < DIE_COUNT -> 0 <= local < CORES_PER_DIE ->
  0 <= des < TOTAL_CORES -> 0 <= src < TOTAL_CORES -> 0 <= sub <= 3 -> md <> DieOfGlobal des ->
  exists idx nd nl h st', beh_step M st md local (DieOfGlobal des) src tg sub = Ok (idx, nd, nl, h, st') /\ v5_wf t st' /\ 0 <= h /\
    0 <= idx < Z.of_nat (length links) /\ local_die (link_of links idx) = md /\ remote_die (link_of links idx) = nd /\
    0 <= nd < DIE_COUNT /\ 0 <= nl < CORES_PER_DIE /\ DieManhattan nd (DieOfGlobal des) = DieManhattan md (DieOfGlobal des) - 1 /\
    (select_policy (g_d2d_cfg M) <> SELECT_DYNAMIC \/ v5_multiport (g_d2d_cfg M) = false ->
     st' = st /\ path_step M st (GlobalId md local) src des tg sub = Ok (idx, GlobalId nd nl, st)) /\ pins st ⊆ pins st' /\
    (v5_multiport (g_d2d_cfg M) = true -> select_policy (g_d2d_cfg M) = SELECT_DYNAMIC ->
     is_Some (pins st' !! (DieOfGlobal src, dir_code (DieFirstHopDir md (DieOfGlobal des)), mkFlow src tg sub))).
Proof using Hgeo Hwf.
  intros Hst Hm Hl Hd Hs Hsub Hne. destruct (die_local Hgeo des Hd) as (Hdd & _ & _). destruct (die_local Hgeo src Hs) as (Hsd & _ & _).
  destruct (first_hop Hgeo md _ Hm Hdd Hne) as (HD & Hn & Hman). cbv zeta in *. set (D := DieFirstHopDir md (DieOfGlobal des)) in *.
  assert (die_of_flow src (-1) = DieOfGlobal src) as Edf.
  { unfold die_of_flow. destruct (Z.ltb_spec (-1) 0); [|lia]. by rewrite (proj2 (Z.leb_le 0 src)), (proj2 (Z.ltb_lt src TOTAL_CORES)) by lia. }
  destruct (Select_pins st local D src tg sub (-1) Hst Hl Hsub)
    as (e & st' & Es & He & Hst' & Hmono & Hpin); [by rewrite Edf|apply (ports_toward Hgeo M Hwf md); lia|].
  destruct (exit_port_spec M Hwf D e He) as (p & Ep & Hp & _ & Hr & Hpd & Hps & _ & Hb & Ht & _).
  destruct (exit_directed Hgeo M Hwf _ _ e Hm (proj1 Hn) He) as (m & k & Hmp & _ & Hk & Ekd & Ekp & Ekr & Em & Huniq & _).
  destruct (DirectedTo_spec md e (DieNeighbor md D) k Hk Ekd Ekp Ekr Huniq) as (Hidx & El & Esame). cbv zeta in *.
  set (idx := D2DDirectedLinkIndexForPort _ _ _ _) in *.
  destruct (port_at t (tw_ports _ (mw_ports _ Hwf)) m Hmp) as [Hwm Hlm].
  destruct (D2DLocalManhattan_ok local (tile p) Hl Ht) as (h & Eh & Hh).
  assert (exists m', t.(ports) !! Z.to_nat (remote_port k) = Some m' /\ m' = m /\ 0 <= remote_port k < Z.of_nat (length (ports t))) as (m' & Hm' & -> & Hrp).
  { pose proof (mw_links _ Hwf) as Hbuilt. rewrite (BuildD2DLinks_built Hgeo t (tw_ports _ (mw_ports _ Hwf)) (mw_active _ Hwf)) in Hbuilt.
    destruct (built_links t (tw_ports _ (mw_ports _ Hwf)) _ Hbuilt) as [Hlinks _]. apply Hlinks in Hk. destruct Hk as [d q m' _ _ Hmq _ _ _ _].
    cbn [remote_port] in *. destruct (port_at t (tw_ports _ (mw_ports _ Hwf)) m' Hmq) as [Hw' Hl']. exists m'. split; [done|].
    split; [by rewrite <- Em; symmetry; apply list_lookup_total_correct|]. pose proof (lookup_lt_Some _ _ _ Hl'). pose proof (pw_id _ _ Hw'). lia. }
  exists idx, (DieNeighbor md D), (tile m), h, st'. split.
  { unfold beh_step. fold D. rewrite Es. cbn [mbind result_bind]. rewrite throw_bind_false by (apply orb_false_iff; split; lia).
    cbv zeta. rewrite Ep, Hr, Hpd, Hps, !bool_decide_eq_true_2 by done. cbn [negb orb throw_if mbind result_bind]. rewrite Eh. cbn [mbind result_bind].
    rewrite D2DNextDie_spec by (done || lia). cbn [mbind result_bind]. fold idx. rewrite throw_bind_false by lia. rewrite El.
    rewrite throw_bind_false by (apply orb_false_iff; split; lia). by rewrite (list_lookup_total_correct _ _ _ Hm'). }
  split; [done|]. split; [done|]. split; [done|]. split; [by rewrite El|]. split; [by rewrite El|]. split; [done|].
  split; [apply Hwm|]. split; [done|]. rewrite Edf in Hpin. split; [|by split]. intros Hstat.
  destruct (Select_static t (g_d2d_cfg M) st local D src tg sub (-1) md e st' Hstat) as [-> Es']; [|done|].
  { unfold die_of_flow. destruct (Z.ltb_spec md 0); lia. }
  split; [done|]. destruct (global_id_split Hgeo md local Hm Hl) as (Hg & E1 & E2).
  unfold path_step, CrossDieSelectExit. rewrite throw_bind_false by (repeat (apply orb_false_iff; split); lia). cbv zeta.
  rewrite E1, E2. fold D. destruct (Z.eqb_spec md (DieOfGlobal des)); [done|]. destruct (Z.ltb_spec src 0); [lia|]. rewrite Es'. cbn [mbind result_bind].
  rewrite throw_bind_false by lia. rewrite (pinned_ok M Hwf e md (DieOfGlobal des) He). cbn [mbind result_bind].
  rewrite <- Esame. rewrite throw_bind_false by lia. rewrite El, Ekr, Em. done.
Qed.

Lemma beh_from_spec fuel st out md local des src tg sub : v5_wf t st -> 0 <= md < DIE_COUNT -> 0 <= local < CORES_PER_DIE ->
  0 <= des < TOTAL_CORES -> 0 <= src < TOTAL_CORES -> 0 <= sub <= 3 -> DieManhattan md (DieOfGlobal des) = Z.of_nat fuel ->
  exists ds l h nl st', beh_from fuel M st out md local (DieOfGlobal des) src tg sub =
      Ok (mkBehRoute (dies out ++ ds) (link_indices out ++ l) (intra_die_hops out + h), nl, st') /\ v5_wf t st' /\
    chain links md l ds /\ length l = fuel /\ default md (list.last ds) = DieOfGlobal des /\ 0 <= h /\ 0 <= nl < CORES_PER_DIE /\
    (select_policy (g_d2d_cfg M) <> SELECT_DYNAMIC \/ v5_multiport (g_d2d_cfg M) = false ->
     st' = st /\ forall path, path_from fuel M st path (GlobalId md local) src des tg sub = Ok (path ++ l, st)) /\ pins st ⊆ pins st' /\
    (v5_multiport (g_d2d_cfg M) = true -> select_policy (g_d2d_cfg M) = SELECT_DYNAMIC -> md <> DieOfGlobal des ->
     is_Some (pins st' !! (DieOfGlobal src, dir_code (DieFirstHopDir md (DieOfGlobal des)), mkFlow src tg sub))).
Proof using Hgeo Hwf.
  revert st out md local. induction fuel as [|fuel IH]; intros st out md local Hst Hm Hl Hd Hs Hsub Hf; cbn [beh_from path_from].
  all: destruct (die_local Hgeo des Hd) as (Hdd & _ & _); destruct (global_id_split Hgeo md local Hm Hl) as (Hg & E1 & E2).
  all: destruct (Z.eqb_spec md (DieOfGlobal des)) as [Ee|Hne].
  - exists [], [], 0, local, st. rewrite !app_nil_r, Z.add_0_r. split; [by destruct out|]. split_and!; try done; try lia. intros _. split; [done|].
    intros path. by rewrite E1, Ee, Z.eqb_refl, app_nil_r.
  - exfalso. destruct (first_hop Hgeo md _ Hm Hdd Hne) as (_ & _ & Hman).
    pose proof (DieManhattan_nonneg (DieNeighbor md (DieFirstHopDir md (DieOfGlobal des))) (DieOfGlobal des)). lia.
  - exfalso. rewrite Ee, (proj2 (DieManhattan_nonneg (DieOfGlobal des) (DieOfGlobal des))) in Hf. lia.
  - destruct (beh_step_spec st md local des src tg sub Hst Hm Hl Hd Hs Hsub Hne)
      as (idx & nd & nl & h & st1 & -> & Hst1 & Hh & Hidx & Eld & Erd & Hnd & Hnl & Hman & Hstat & Hmono & Hpin). cbn [mbind result_bind].
    destruct (IH st1 (mkBehRoute (dies out ++ [nd]) (link_indices out ++ [idx]) (intra_die_hops out + h)) nd nl Hst1 Hnd Hnl Hd Hs Hsub)
      as (ds & l & h' & nl' & st' & -> & Hst' & Hc & Hlen & Hlast & Hh' & Hnl' & Hstat' & Hmono' & _); [lia|].
    exists (nd :: ds), (idx :: l), (h + h'), nl', st'. cbn [dies link_indices intra_die_hops]. rewrite <- !app_assoc, Z.add_assoc.
    split; [done|]. split; [done|]. split; [done|]. split; [cbn; lia|]. split.
    { destruct ds; cbn in *; [done|]. by destruct (list.last _) eqn:E; [|apply last_None in E]. }
    split; [lia|]. split; [done|]. split; [|split; [by transitivity (pins st1)|]].
    2: { intros Hmp Hdyn _. destruct (Hpin Hmp Hdyn) as [x Hx]. exists x. by apply (lookup_weaken _ _ _ _ Hx). }
    intros Hp. destruct (Hstat Hp) as [-> Est]. destruct (Hstat' Hp) as [-> Est']. split; [done|]. intros path.
    rewrite E1. destruct (Z.eqb_spec md (DieOfGlobal des)); [done|]. rewrite Est. cbn [mbind result_bind]. by rewrite Est', <- app_assoc.
Qed.

(** The route exists, it is a shortest chain of links, and a static policy gives
    the path of the reservation. *)
Lemma route_spec st src des tg sub : v5_wf t st -> 0 <= src < TOTAL_CORES -> 0 <= des < TOTAL_CORES -> 0 <= sub <= 3 ->
  exists r ds st', BuildD2DBehavioralRouteForFlow M st src des tg sub = Ok (r, st') /\ v5_wf t st' /\
    dies r = DieOfGlobal src :: ds /\ list.last (dies r) = Some (DieOfGlobal des) /\ chain links (DieOfGlobal src) (link_indices r) ds /\
    Z.of_nat (length (link_indices r)) = DieManhattan (DieOfGlobal src) (DieOfGlobal des) /\ 0 <= intra_die_hops r /\
    (select_policy (g_d2d_cfg M) <> SELECT_DYNAMIC \/ v5_multiport (g_d2d_cfg M) = false ->
     st' = st /\ WholeFlowSafPath M st src des tg sub = Ok (link_indices r, st)) /\
    (v5_multiport (g_d2d_cfg M) = true -> select_policy (g_d2d_cfg M) = SELECT_DYNAMIC -> DieOfGlobal src <> DieOfGlobal des ->
     is_Some (pins st' !! (DieOfGlobal src, dir_code (DieFirstHopDir (DieOfGlobal src) (DieOfGlobal des)), mkFlow src tg sub))).
Proof using Hgeo Hwf.
  intros Hst Hs Hd Hsub. destruct (die_local Hgeo src Hs) as (Hsd & Hsl & Esrc). destruct (die_local Hgeo des Hd) as (Hdd & Hdl & _).
  pose proof (DieManhattan_nonneg (DieOfGlobal src) (DieOfGlobal des)) as [H0 _].
  destruct (beh_from_spec (Z.to_nat (DieManhattan (DieOfGlobal src) (DieOfGlobal des))) st (mkBehRoute [DieOfGlobal src] [] 0)
    (DieOfGlobal src) (LocalOfGlobal src) des src tg sub Hst Hsd Hsl Hd Hs Hsub) as (ds & l & h & nl & st' & E & Hst' & Hc & Hlen & Hlast & Hh & Hnl & Hstat & _ & Hpin); [lia|].
  destruct (D2DLocalManhattan_ok nl (LocalOfGlobal des) Hnl Hdl) as (h' & Eh & Hh').
  eexists _, ds, st'. unfold BuildD2DBehavioralRouteForFlow. rewrite throw_bind_false by (repeat (apply orb_false_iff; split); lia). cbv zeta.
  rewrite E. cbn [mbind result_bind]. rewrite Eh. cbn [mbind result_bind]. split; [reflexivity|]. cbn [dies link_indices intra_die_hops app].
  split; [done|]. split; [done|]. split.
  { destruct ds as [|d ds]; cbn in *; [by rewrite Hlast|]. by destruct (list.last _) eqn:El; cbn in *; [subst|apply last_None in El]. }
  split; [done|]. split; [lia|]. split; [lia|]. split; [|done]. intros Hp. destruct (Hstat Hp) as [-> Hpath]. split; [done|].
  unfold WholeFlowSafPath. assert (GlobalId (DieOfGlobal src) (LocalOfGlobal src) = src) as Eg by done. rewrite Eg in Hpath. apply (Hpath []).
Qed.
End route.

(** ** The estimate *)

(** At most [k] times the rate [x]. *)
Definition rate_up (k : Z) (x r : D2DRate) : Prop := num r * den x <= k * num x * den r.

Lemma rate_up_le k x a b : Valid a = true -> Valid b = true -> Valid x = true -> rate_le a b -> rate_up k x b -> rate_up k x a.
Proof.
  intros Ha Hb Hx. apply Valid_facts in Ha, Hb, Hx. unfold rate_le, rate_up. intros H1 H2.
  apply (Z.mul_le_mono_pos_r _ _ (den b)); [lia|]. transitivity ((num b * den a) * den x); [nia|].
  transitivity ((k * num x * den b) * den a); [nia|]. lia.
Qed.

(** Sets of lanes over the routes at one hop: at least one lane and at most one per route. *)
Lemma add_lanes_spec links hop routes acc : (forall r, r ∈ routes -> exists i, link_indices r !! hop = Some i /\ 0 <= i < Z.of_nat (length links)) ->
  exists ls, foldM (add_lane links hop) acc routes = Ok ls /\
    (size acc.1 <= size ls.1 <= size acc.1 + length routes)%nat /\ (size acc.2 <= size ls.2 <= size acc.2 + length routes)%nat /\
    (routes <> [] -> 0 < size ls.1 /\ 0 < size ls.2)%nat.
Proof.
  assert (forall {A} `{Countable A} (x : A) (X : gset A), (size X <= size ({[x]} ∪ X) <= size X + 1)%nat /\ (0 < size ({[x]} ∪ X))%nat) as Hadd.
  { intros A ? ? x X. split; [split; [apply subseteq_size; set_solver|]|].
    - rewrite <- (size_singleton (C:=gset A) x), Nat.add_comm. apply size_union_alt || (pose proof (size_union_alt {[x]} X)). all: rewrite size_union_alt;
      pose proof (subseteq_size (X ∖ {[x]}) X ltac:(set_solver)); lia.
    - assert (size ({[x]} ∪ X) <> 0)%nat; [|lia]. rewrite size_non_empty_iff. set_solver. }
  revert acc. induction routes as [|r routes IH]; intros acc Hr; cbn [foldM].
  { exists acc. cbn. split; [done|]. split; [lia|]. split; [lia|done]. }
  destruct (Hr r (list_elem_of_here _ _)) as (i & Hi & Hb). unfold add_lane at 1. rewrite Hi.
  destruct (lookup_lt_is_Some_2 links (Z.to_nat i)) as [l Hl]; [lia|]. rewrite Hl.
  match goal with |- context [foldM _ ?a routes] => set (acc1 := a) end.
  destruct (IH acc1) as (ls & -> & H1 & H2 & _); [intros r' Hr'; apply Hr; by right|]. exists ls. split; [done|].
  pose proof (Hadd _ _ _ (local_die l, local_port l) acc.1) as [? ?].
  pose proof (Hadd _ _ _ (if 0 <=? l_group l then (local_die l, remote_die l, 0, l_group l) else (local_die l, remote_die l, 1, i)) acc.2) as [? ?].
  cbn [acc1 fst snd length] in *. split; [lia|]. split; [lia|]. intros _. lia.
Qed.

Lemma add_lanes_start links hop routes : routes <> [] ->
  (forall r, r ∈ routes -> exists i, link_indices r !! hop = Some i /\ 0 <= i < Z.of_nat (length links)) ->
  exists ls, foldM (add_lane links hop) (∅, ∅) routes = Ok ls /\
    1 <= Z.of_nat (size ls.1) <= Z.of_nat (length routes) /\ 1 <= Z.of_nat (size ls.2) <= Z.of_nat (length routes).
Proof.
  intros Hne Hr. destruct (add_lanes_spec links hop routes (∅, ∅) Hr) as (ls & E & [_ H1] & [_ H2] & H3). exists ls. split; [done|].
  destruct (H3 Hne). replace (size (∅, ∅).1) with 0%nat in H1 by (symmetry; apply size_empty).
  replace (size (∅, ∅).2) with 0%nat in H2 by (symmetry; apply size_empty). lia.
Qed.

(** What the routes use at a hop: the ports they leave by, and the links, where the
    members of a link group between two dies are one. *)
Definition hop_link (links : list D2DLink) (hop : nat) (r : D2DBehavioralRoute) : D2DLink := link_of links (link_indices r !!! hop).
Definition link_resource (links : list D2DLink) (idx : Z) : Z * Z * Z * Z :=
  let l := link_of links idx in
  if 0 <=? l_group l then (local_die l, remote_die l, 0, l_group l) else (local_die l, remote_die l, 1, idx).
Definition hop_ports (links : list D2DLink) (routes : list D2DBehavioralRoute) (hop : nat) : gset (Z * Z) :=
  list_to_set ((fun r => (local_die (hop_link links hop r), local_port (hop_link links hop r))) <$> routes).
Definition hop_resources (links : list D2DLink) (routes : list D2DBehavioralRoute) (hop : nat) : gset (Z * Z * Z * Z) :=
  list_to_set ((fun r => link_resource links (link_indices r !!! hop)) <$> routes).
Definition port_count links routes hop : Z := Z.of_nat (size (hop_ports links routes hop)).
Definition link_count links routes hop : Z := Z.of_nat (size (hop_resources links routes hop)).

Lemma add_lanes_value links hop routes acc : (forall r, r ∈ routes -> exists i, link_indices r !! hop = Some i /\ 0 <= i < Z.of_nat (length links)) ->
  foldM (add_lane links hop) acc routes = Ok (hop_ports links routes hop ∪ acc.1, hop_resources links routes hop ∪ acc.2).
Proof.
  revert acc. induction routes as [|r routes IH]; intros acc Hr; cbn [foldM].
  { unfold hop_ports, hop_resources. cbn. rewrite !union_empty_l_L. by destruct acc. }
  destruct (Hr r (list_elem_of_here _ _)) as (i & Hi & Hb). unfold add_lane at 1. rewrite Hi.
  destruct (lookup_lt_is_Some_2 links (Z.to_nat i)) as [l Hl]; [lia|]. rewrite Hl. cbn [mbind result_bind].
  rewrite IH by (intros r' Hr'; apply Hr; by right). cbn [fst snd]. unfold hop_ports, hop_resources. rewrite !fmap_cons, !list_to_set_cons.
  unfold link_resource, hop_link. rewrite (list_lookup_total_correct _ _ _ Hi). unfold link_of. rewrite (list_lookup_total_correct _ _ _ Hl).
  f_equal. f_equal; set_solver.
Qed.

Section estimate.
Context (port_rate link_rate : D2DRate) (Hp : rate_wf port_rate) (Hl : rate_wf link_rate) (links : list D2DLink) (routes : list D2DBehavioralRoute)
  (Hne : routes <> []).
Local Notation k := (Z.of_nat (length routes)).

(** Exactly [n] times the rate [x]; the fastest rate that a hop allows. *)
Definition rate_is (n : Z) (x r : D2DRate) : Prop := num r * den x = n * num x * den r.
Definition within (hop : nat) (r : D2DRate) : Prop := rate_up (port_count links routes hop) port_rate r /\ rate_up (link_count links routes hop) link_rate r.
Definition reached (hop : nat) (r : D2DRate) : Prop := rate_is (port_count links routes hop) port_rate r \/ rate_is (link_count links routes hop) link_rate r.
(** The rate of the narrowest cut: at most one packet a cycle, and at each hop what its ports and its links carry together. *)
Definition bottleneck (hops : list nat) (r : D2DRate) : Prop :=
  (forall h, h ∈ hops -> within h r) /\ (num r = den r \/ exists h, h ∈ hops /\ reached h r).
(** No slower than the slower of the two rates. *)
Definition not_below (r : D2DRate) : Prop := rate_le port_rate r \/ rate_le link_rate r.
Definition hop_of (hop : nat) : Prop := forall r, r ∈ routes -> exists i, link_indices r !! hop = Some i /\ 0 <= i < Z.of_nat (length links).

Lemma counts_bound hop : hop_of hop -> 1 <= port_count links routes hop <= k /\ 1 <= link_count links routes hop <= k.
Proof using Hne.
  intros Hr. destruct (add_lanes_start links hop routes Hne Hr) as (ls & E & H1 & H2). rewrite (add_lanes_value links hop routes _ Hr) in E.
  injection E as <-. cbn [fst snd] in *. rewrite !union_empty_r_L in *. done.
Qed.

Lemma scale_bounds x n : rate_wf x -> 1 <= n -> exists c, D2DScaleRateCappedOne x n = Ok c /\ rate_wf c /\ rate_up n x c /\ (num c = den c \/ rate_is n x c).
Proof using.
  intros [Hv Hm] Hn. destruct (D2DScaleRateCappedOne_spec x n Hv ltac:(lia)) as (c & -> & Hc & Hd & E). exists c. split; [done|].
  split; [split; [done|lia]|]. apply Valid_facts in Hv, Hc. unfold rate_up, rate_is.
  destruct (Z.le_ge_cases (den x) (num x * n)) as [Hle|Hle]; [rewrite Z.min_l in E by lia|rewrite Z.min_r in E by lia]; [|split; lia].
  assert (num c = den c) as Ec by (apply (Z.mul_reg_r _ _ (den x)); lia). split; [|by left]. rewrite Ec.
  rewrite (Z.mul_comm n). apply (Z.mul_le_mono_nonneg_r _ _ (den c)) in Hle; lia.
Qed.

Lemma hop_rate_spec rate hop : rate_wf rate -> hop_of hop ->
  exists r', hop_rate links routes port_rate link_rate rate hop = Ok r' /\ rate_wf r' /\ rate_le r' rate /\ within hop r' /\
    (r' = rate \/ num r' = den r' \/ reached hop r').
Proof using Hp Hl Hne.
  intros [Hv Hm] Hr. unfold hop_rate. rewrite (add_lanes_value links hop routes _ Hr). cbn [mbind result_bind fst snd]. rewrite !union_empty_r_L.
  destruct (counts_bound hop Hr) as [H1 H2]. unfold within, reached. fold (port_count links routes hop) (link_count links routes hop).
  destruct (scale_bounds port_rate _ Hp (proj1 H1)) as (pc & -> & [Hpv Hpm] & Hpu & Hpe). cbn [mbind result_bind].
  destruct (scale_bounds link_rate _ Hl (proj1 H2)) as (lc & -> & [Hlv Hlm] & Hlu & Hle). cbn [mbind result_bind].
  destruct (D2DMinRate_spec pc lc Hpv Hlv) as (c & -> & Hc & Hcp & Hcl). cbn [mbind result_bind].
  assert (Valid c = true /\ den c <= INT_MAX) as [Hcv Hcm] by by destruct Hc as [-> | ->].
  destruct (D2DMinRate_spec rate c Hv Hcv) as (r' & -> & Hr' & Hrr & Hrc). exists r'. split; [done|].
  assert (Valid r' = true /\ den r' <= INT_MAX) as [Hrv Hrm] by by destruct Hr' as [-> | ->].
  split; [by split|]. split; [done|]. split; [split|].
  - apply (rate_up_le _ port_rate r' c Hrv Hcv (proj1 Hp) Hrc), (rate_up_le _ port_rate c pc Hcv Hpv (proj1 Hp) Hcp Hpu).
  - apply (rate_up_le _ link_rate r' c Hrv Hcv (proj1 Hl) Hrc), (rate_up_le _ link_rate c lc Hcv Hlv (proj1 Hl) Hcl Hlu).
  - destruct Hr' as [-> | ->]; [by left|right]. destruct Hc as [-> | ->]; [destruct Hpe|destruct Hle]; auto.
Qed.

Lemma hops_rate_spec hops rate : rate_wf rate -> (forall h, h ∈ hops -> hop_of h) ->
  exists r', foldM (hop_rate links routes port_rate link_rate) rate hops = Ok r' /\ rate_wf r' /\ rate_le r' rate /\
    (forall h, h ∈ hops -> within h r') /\ (r' = rate \/ num r' = den r' \/ exists h, h ∈ hops /\ reached h r').
Proof using Hp Hl Hne.
  revert rate. induction hops as [|h hops IH]; intros rate Hw Hh; cbn [foldM].
  { exists rate. split; [done|]. split; [done|]. split; [unfold rate_le; lia|]. split; [|by left]. by intros h ?%elem_of_nil. }
  destruct (hop_rate_spec rate h Hw (Hh h (list_elem_of_here _ _))) as (r1 & E & Hw1 & Hle1 & Hin1 & Hre1). rewrite E. cbn [mbind result_bind].
  destruct (IH r1 Hw1) as (r' & E' & Hw' & Hle' & Hin' & Hre'); [intros h1 Hh1; apply Hh; by right|]. exists r'. split; [done|]. split; [done|].
  pose proof (proj1 Hw) as V0. pose proof (proj1 Hw1) as V1. pose proof (proj1 Hw') as V2.
  split; [by apply (rate_le_trans r' r1 rate)|]. split.
  - intros h' [->|Hh']%elem_of_cons; [|by apply Hin']. destruct Hin1 as [A B]. split.
    + by apply (rate_up_le _ port_rate r' r1 V2 V1 (proj1 Hp)).
    + by apply (rate_up_le _ link_rate r' r1 V2 V1 (proj1 Hl)).
  - destruct Hre' as [->|[?|(h' & Hh' & ?)]]; [|by auto|right; right; exists h'; split; [by right|done]].
    destruct Hre1 as [->|[?|?]]; [by left|by auto|right; right; exists h; split; [left|done]].
Qed.

(** What the bottleneck says against one lane and against one lane per route. *)
Lemma bottleneck_bounds hops r : rate_wf r -> hops <> [] -> (forall h, h ∈ hops -> hop_of h) -> bottleneck hops r ->
  not_below r /\ rate_up k port_rate r /\ rate_up k link_rate r.
Proof using Hp Hl Hne.
  intros [Hv _] Hn Hh [Hin Hre]. pose proof (Valid_facts _ Hv). pose proof (Valid_facts _ (proj1 Hp)). pose proof (Valid_facts _ (proj1 Hl)). split.
  - unfold not_below, rate_le. destruct Hre as [E|(h & Hi & Hre)]; [left; nia|]. destruct (counts_bound h (Hh h Hi)) as [HA HB].
    destruct Hre as [E|E]; unfold rate_is in E; [left|right]; nia.
  - destruct hops as [|h hops]; [done|]. destruct (Hin h (list_elem_of_here _ _)) as [A B]. destruct (counts_bound h (Hh h (list_elem_of_here _ _))) as [HA HB].
    unfold rate_up in *. split; (etransitivity; [eassumption|]); apply Z.mul_le_mono_nonneg_r; try lia; apply Z.mul_le_mono_nonneg_r; lia.
Qed.
End estimate.

Section striped_estimate.
Context `{G : Geometry} (Hgeo : ValidateAddressSpace = Ok tt) (M : machine) (Hwf : machine_wf M).
Local Notation t := (g_die_ports M).
Context (src des tg : Z) (Hs : 0 <= src < TOTAL_CORES) (Hd : 0 <= des < TOTAL_CORES).
Local Notation hops := (DieManhattan (DieOfGlobal src) (DieOfGlobal des)).

Definition good_route (r : D2DBehavioralRoute) : Prop :=
  Z.of_nat (length (link_indices r)) = hops /\ 0 <= intra_die_hops r /\
  forall i, i ∈ link_indices r -> 0 <= i < Z.of_nat (length (g_d2d_links M)).

Lemma stripe_routes_spec l acc : v5_wf t acc.2 -> (forall s, s ∈ l -> 0 <= s <= 3) -> exists rs st',
  foldM (stripe_route M src des tg) acc l = Ok (acc.1 ++ rs, st') /\ v5_wf t st' /\ length rs = length l /\ Forall good_route rs /\
  (select_policy (g_d2d_cfg M) <> SELECT_DYNAMIC \/ v5_multiport (g_d2d_cfg M) = false -> st' = acc.2).
Proof using Hgeo Hwf Hs Hd.
  revert acc. induction l as [|s l IH]; intros [acc st] Hst Hl; cbn [foldM fst snd] in *.
  { exists [], st. rewrite app_nil_r. split_and!; try done. }
  destruct (route_spec Hgeo M Hwf st src des tg s Hst Hs Hd (Hl s (list_elem_of_here _ _))) as (r & ds & st1 & E & Hst1 & _ & _ & Hc & Hlen & Hi & Hstat & _).
  unfold stripe_route at 1. cbn [fst snd]. rewrite E. cbn [mbind result_bind].
  destruct (IH (acc ++ [r], st1) Hst1) as (rs & st' & -> & Hst' & Hrs & Hg & Hstat'); [intros s' Hs'; apply Hl; by right|].
  exists (r :: rs), st'. cbn [fst snd]. rewrite <- app_assoc. split; [done|]. split; [done|]. split; [cbn; lia|]. split.
  - constructor; [|done]. split; [done|]. split; [done|]. intros i Hin. by eapply chain_valid.
  - intros Hsp. destruct (Hstat Hsp) as [-> _]. by apply Hstat'.
Qed.

Lemma same_hops_spec rs m : Forall good_route rs -> foldM (same_hops hops) m rs = Ok (foldl Z.max m (intra_die_hops <$> rs)).
Proof using.
  intros Hg. revert m. induction Hg as [|r rs [Hr _] _ IH]; intros m; cbn [foldM]; [done|].
  unfold same_hops at 1. rewrite Hr, Z.eqb_refl. cbn [negb throw_if mbind result_bind]. apply IH.
Qed.

Lemma estimate_spec st n strp port_rate link_rate lat : v5_wf t st -> DieOfGlobal src <> DieOfGlobal des ->
  rate_wf port_rate -> rate_wf link_rate -> 0 <= lat -> strp = 1 \/ strp = 2 \/ strp = 4 -> strp <= n <= INT_MAX ->
  exists e st' rs, EstimateD2DBehavioralStriped M st src des tg n strp port_rate link_rate lat = Ok (e, st') /\ v5_wf t st' /\
    foldM (stripe_route M src des tg) ([], st) (seqZ 0 strp) = Ok (rs, st') /\ e_intra_die_hops e = foldl Z.max 0 (intra_die_hops <$> rs) /\
    bottleneck port_rate link_rate (g_d2d_links M) rs (seq 0 (Z.to_nat hops)) (effective_rate e) /\
    e_d2d_hops e = hops /\ rate_wf (effective_rate e) /\ not_below port_rate link_rate (effective_rate e) /\
    rate_up strp port_rate (effective_rate e) /\ rate_up strp link_rate (effective_rate e) /\
    first_packet_service_cycles e = ceil_div (den (effective_rate e)) (num (effective_rate e)) /\
    bulk_service_cycles e = ceil_div (n * den (effective_rate e)) (num (effective_rate e)) /\
    data_first_cycles e = hops * lat + first_packet_service_cycles e /\
    data_last_cycles e = hops * lat + bulk_service_cycles e /\
    transaction_d2d_cycles e = 3 * (hops * lat) + bulk_service_cycles e /\
    (select_policy (g_d2d_cfg M) <> SELECT_DYNAMIC \/ v5_multiport (g_d2d_cfg M) = false -> st' = st).
Proof using Hgeo Hwf Hs Hd.
  intros Hst Hne Hp Hl Hlat Hstrp Hn. unfold EstimateD2DBehavioralStriped. rewrite throw_bind_false by lia.
  rewrite throw_bind_false.
  2: { apply orb_false_iff; split; [apply orb_false_iff; split; [lia|]|lia]. by destruct Hstrp as [-> |[-> | ->]]. }
  destruct (stripe_routes_spec (seqZ 0 strp) ([], st) Hst) as (rs & st' & -> & Hst' & Hlen & Hg & Hstat).
  { intros s Hin%elem_of_seqZ. lia. }
  cbn [fst snd app mbind result_bind]. rewrite length_seqZ in Hlen.
  assert (rs <> []) as Hrn by (intros ->; cbn in Hlen; lia).
  assert (Z.of_nat match rs with r :: _ => length (link_indices r) | [] => O end = hops) as Eh.
  { destruct rs as [|r rs]; [done|]. apply list.Forall_cons in Hg as [[Hr _] _]. done. }
  cbv zeta. rewrite Eh. rewrite (same_hops_spec rs 0 Hg). cbn [mbind result_bind].
  destruct (die_local Hgeo src Hs) as (Hsd & _ & _). destruct (die_local Hgeo des Hd) as (Hdd & _ & _).
  destruct (first_hop Hgeo _ _ Hsd Hdd Hne) as (_ & _ & Hman). cbv zeta in Hman.
  pose proof (DieManhattan_nonneg (DieNeighbor (DieOfGlobal src) (DieFirstHopDir (DieOfGlobal src) (DieOfGlobal des))) (DieOfGlobal des)) as [? _].
  destruct (Z.eqb_spec hops 0) as [|Hh]; [lia|].
  assert (forall h, h ∈ seq 0 (Z.to_nat hops) -> hop_of (g_d2d_links M) rs h) as Hhops.
  { intros h Hin%list_elem_of_In%in_seq r Hr. rewrite list.Forall_forall in Hg. destruct (Hg r Hr) as (Hlr & _ & Hval).
    destruct (lookup_lt_is_Some_2 (link_indices r) h) as [i Hi]; [lia|]. exists i. split; [done|]. by eapply Hval, list_elem_of_lookup_2. }
  destruct (hops_rate_spec port_rate link_rate Hp Hl (g_d2d_links M) rs Hrn (seq 0 (Z.to_nat hops)) (mkRate 1 1))
    as (rate & -> & [Hv Hmax] & _ & Hin & Hre); [split; [done|vm_compute; discriminate]|done|].
  assert (bottleneck port_rate link_rate (g_d2d_links M) rs (seq 0 (Z.to_nat hops)) rate) as Hbot.
  { split; [done|]. destruct Hre as [->|?]; [by left|done]. }
  assert (seq 0 (Z.to_nat hops) <> []) as Hsn by (destruct (Z.to_nat hops) eqn:E0; [lia|done]).
  destruct (bottleneck_bounds port_rate link_rate Hp Hl (g_d2d_links M) rs Hrn _ rate (conj Hv Hmax) Hsn Hhops Hbot)
    as (Hlow & Hup & Hul).
  cbn [mbind result_bind]. pose proof (Valid_facts _ Hv) as (? & ? & ?). rewrite !D2DServiceCycles_spec; try done; try lia;
      [|unfold LLONG_MAX, INT_MAX in *; nia|unfold LLONG_MAX, INT_MAX in *; nia].
    cbn [mbind result_bind]. replace (Z.of_nat (length rs)) with strp in * by lia. rewrite Z.mul_1_l.
  eexists _, st', rs. split; [reflexivity|]. cbn [e_d2d_hops e_intra_die_hops effective_rate first_packet_service_cycles bulk_service_cycles data_first_cycles
      data_last_cycles transaction_d2d_cycles fst snd] in *. split_and!; done.
Qed.
End striped_estimate.

(** A rate bounds the packets that the service cycles can carry. *)
Lemma service_lower k x r n : Valid r = true -> rate_wf x -> rate_up k x r -> 0 <= n ->
  n * den x <= k * num x * ceil_div (n * den r) (num r).
Proof.
  intros Hr [Hx _] Hu Hn. pose proof (Valid_facts _ Hr). pose proof (Valid_facts _ Hx). unfold rate_up in Hu.
  pose proof (ceil_div_spec (n * den r) (num r) ltac:(lia)) as [H1 _]. set (c := ceil_div _ _) in *. clearbody c.
  assert (0 <= k * num x) by (apply (Z.mul_le_mono_pos_r _ _ (den r)); nia).
  apply (Z.mul_le_mono_pos_r _ _ (num r)); [lia|].
  transitivity (n * (k * num x * den r)); [nia|]. transitivity ((k * num x) * (num r * c)); [nia|lia].
Qed.

Lemma service_pos r n : Valid r = true -> 1 <= n -> 1 <= ceil_div (den r) (num r) <= ceil_div (n * den r) (num r).
Proof.
  intros Hr Hn. pose proof (Valid_facts _ Hr). pose proof (service_mono 1 n r Hr Hn) as Hm. rewrite Z.mul_1_l in Hm.
  pose proof (ceil_div_pos (den r) (num r) ltac:(lia) ltac:(lia)). lia.
Qed.

(** C32: for a flow between cores of different dies, with rates and counts that the
    configuration allows, the behavioural estimate never fails.  It takes the
    die distance as the number of links, charges the latency of every link three
    times and the bulk service once, as the exact ceiling of the packets over
    the effective rate; the service of the first packet is at least one cycle and
    never exceeds that of the flow.  The effective rate is exactly the rate of the narrowest
    cut over the routes of the stripes: at every hop no more than the port rate times
    the distinct ports they leave by and the link rate times the distinct links, the
    links of one group counting once, and equal to one of these products or to one packet a
    cycle.  So it is not below the smaller of the port and link rates, and [strp] stripes
    carry at most [strp] times what one lane does. *)
Theorem behavioral_estimate `{Geometry} (M : machine) (st : v5_state) (src des tg n strp : Z) (pr lr : D2DRate) (lat : Z) :
  ValidateAddressSpace = Ok tt -> machine_wf M -> v5_reachable (g_die_ports M) (g_d2d_cfg M) st ->
  0 <= src < TOTAL_CORES -> 0 <= des < TOTAL_CORES -> DieOfGlobal src <> DieOfGlobal des -> rate_wf pr -> rate_wf lr -> 0 <= lat ->
  strp = 1 \/ strp = 2 \/ strp = 4 -> strp <= n <= INT_MAX ->
  exists e st' rs, EstimateD2DBehavioralStriped M st src des tg n strp pr lr lat = Ok (e, st') /\
    foldM (stripe_route M src des tg) ([], st) (seqZ 0 strp) = Ok (rs, st') /\
    let r := effective_rate e in
    e_d2d_hops e = DieManhattan (DieOfGlobal src) (DieOfGlobal des) /\
    bottleneck pr lr (g_d2d_links M) rs (seq 0 (Z.to_nat (e_d2d_hops e))) r /\ e_intra_die_hops e = foldl Z.max 0 (intra_die_hops <$> rs) /\
    Valid r = true /\ (rate_le pr r \/ rate_le lr r) /\
    bulk_service_cycles e = ceil_div (n * den r) (num r) /\
    1 <= first_packet_service_cycles e <= bulk_service_cycles e /\
    transaction_d2d_cycles e = 3 * (e_d2d_hops e * lat) + bulk_service_cycles e /\
    data_first_cycles e <= data_last_cycles e <= transaction_d2d_cycles e /\
    n * den pr <= strp * num pr * bulk_service_cycles e /\ n * den lr <= strp * num lr * bulk_service_cycles e /\
    (strp = 1 -> rate_le r pr /\ rate_le r lr).
Proof.
  intros Hgeo Hwf Hst Hs Hd Hne Hp Hl Hlat Hstrp Hn. apply (v5_reachable_wf Hgeo _ (mw_ports _ Hwf)) in Hst.
  destruct (estimate_spec Hgeo M Hwf src des tg Hs Hd st n strp pr lr lat Hst Hne Hp Hl Hlat Hstrp Hn)
    as (e & st' & rs & E & _ & Ers & Eint & Hbot & Hh & [Hv _] & Hlow & Hup & Hul & Hf & Hb & Hdf & Hdl & Ht & _).
  exists e, st', rs. split; [exact E|]. split; [exact Ers|]. cbv zeta. pose proof (service_pos (effective_rate e) n Hv ltac:(lia)).
  pose proof (DieManhattan_nonneg (DieOfGlobal src) (DieOfGlobal des)) as [Hnn _].
  pose proof (service_lower strp pr _ n Hv Hp Hup ltac:(lia)). pose proof (service_lower strp lr _ n Hv Hl Hul ltac:(lia)).
  rewrite Hdf, Hdl, Ht, Hh, Hf, Hb. split_and!; try done; try lia; try nia.
  intros ->. unfold rate_le, rate_up in *. lia.
Qed.

(** C33: the route of the behavioural model is a chain of directed links from the die
    of the source to the die of the destination, as long as their distance.  With a
    static port selection (the policy is not the dynamic one, or there is one port a direction) it is,
    link by link, the path on which admission reserves the flow; under the dynamic policy
    the estimate selects at the source die for every hop, so its links can differ. *)
Theorem behavioral_route_is_path `{Geometry} (M : machine) (st : v5_state) (src des tg sub : Z) :
  ValidateAddressSpace = Ok tt -> machine_wf M -> v5_reachable (g_die_ports M) (g_d2d_cfg M) st ->
  0 <= src < TOTAL_CORES -> 0 <= des < TOTAL_CORES -> 0 <= sub <= 3 ->
  exists r ds st', BuildD2DBehavioralRouteForFlow M st src des tg sub = Ok (r, st') /\
    dies r = DieOfGlobal src :: ds /\ list.last (dies r) = Some (DieOfGlobal des) /\
    chain (g_d2d_links M) (DieOfGlobal src) (link_indices r) ds /\
    Z.of_nat (length (link_indices r)) = DieManhattan (DieOfGlobal src) (DieOfGlobal des) /\
    (select_policy (g_d2d_cfg M) <> SELECT_DYNAMIC \/ v5_multiport (g_d2d_cfg M) = false ->
     st' = st /\ WholeFlowSafPath M st src des tg sub = Ok (link_indices r, st)).
Proof.
  intros Hgeo Hwf Hst Hs Hd Hsub. apply (v5_reachable_wf Hgeo _ (mw_ports _ Hwf)) in Hst.
  destruct (route_spec Hgeo M Hwf st src des tg sub Hst Hs Hd Hsub) as (r & ds & st' & E & _ & H1 & H2 & H3 & H4 & _ & H5 & _).
  by exists r, ds, st'.
Qed.

(** Under the dynamic policy the estimate pins the flow at the source die, also
    after the data have left it and the pin has been released; no operation of
    the behavioural backend releases that pin again. *)
Theorem behavioral_estimate_pins `{Geometry} (M : machine) (st : v5_state) (src des tg sub : Z) :
  ValidateAddressSpace = Ok tt -> machine_wf M -> v5_reachable (g_die_ports M) (g_d2d_cfg M) st ->
  0 <= src < TOTAL_CORES -> 0 <= des < TOTAL_CORES -> 0 <= sub <= 3 -> DieOfGlobal src <> DieOfGlobal des ->
  v5_multiport (g_d2d_cfg M) = true -> select_policy (g_d2d_cfg M) = SELECT_DYNAMIC ->
  exists r st', BuildD2DBehavioralRouteForFlow M st src des tg sub = Ok (r, st') /\
    is_Some (pins st' !! (DieOfGlobal src, dir_code (DieFirstHopDir (DieOfGlobal src) (DieOfGlobal des)), mkFlow src tg sub)).
Proof.
  intros Hgeo Hwf Hst Hs Hd Hsub Hne Hm Hp. apply (v5_reachable_wf Hgeo _ (mw_ports _ Hwf)) in Hst.
  destruct (route_spec Hgeo M Hwf st src des tg sub Hst Hs Hd Hsub) as (r & ds & st' & E & _ & _ & _ & _ & _ & _ & _ & H5).
  exists r, st'. split; [exact E|]. by apply H5.
Qed.

(** ** Witnesses *)

Lemma behavioral_estimate_witness : exists e st' rs,
  @EstimateD2DBehavioralStriped demo_geometry demo_machine v5_initial 0 15 15 10 2 (mkRate 1 2) (mkRate 2 3) 5 = Ok (e, st') /\
  e_d2d_hops e = 2 /\ bottleneck (mkRate 1 2) (mkRate 2 3) (g_d2d_links demo_machine) rs [0%nat; 1%nat] (effective_rate e) /\
  1 <= first_packet_service_cycles e <= bulk_service_cycles e.
Proof.
  destruct (@behavioral_estimate demo_geometry demo_machine v5_initial 0 15 15 10 2 (mkRate 1 2) (mkRate 2 3) 5)
    as (e & st' & rs & E & _ & Hh & Hb & _ & _ & _ & _ & Hf & _);
    [reflexivity|exact demo_machine_wf|apply v5_start|split; reflexivity || (vm_compute; discriminate)|
     split; reflexivity || (vm_compute; discriminate)|vm_compute; discriminate|split; [reflexivity|vm_compute; discriminate]|
     split; [reflexivity|vm_compute; discriminate]|lia|lia|unfold INT_MAX; lia|].
  exists e, st', rs. split; [exact E|]. rewrite Hh in Hb. split; [exact Hh|]. split; [exact Hb|exact Hf].
Defined.

Lemma behavioral_route_is_path_witness : exists r ds st',
  @BuildD2DBehavioralRouteForFlow demo_geometry demo_machine v5_initial 0 15 15 0 = Ok (r, st') /\
  dies r = 0 :: ds /\ length (link_indices r) = 2%nat.
Proof.
  destruct (@behavioral_route_is_path demo_geometry demo_machine v5_initial 0 15 15 0) as (r & ds & st' & E & Hd & _ & _ & Hl & _);
    [reflexivity|exact demo_machine_wf|apply v5_start|split; reflexivity || (vm_compute; discriminate)|
     split; reflexivity || (vm_compute; discriminate)|lia|].
  exists r, ds, st'. split; [exact E|]. split; [exact Hd|]. apply Nat2Z.inj. rewrite Hl. reflexivity.
Defined.

(** The estimate leaves two pins: one of them for a direction in which the flow
    never leaves the source die. *)
Example demo_pins : match @BuildD2DBehavioralRouteForFlow demo_geometry demo_machine v5_initial 0 15 15 0 with
  | Ok (_, st) => map_to_list (pins st) = [((0, dir_code EAST, mkFlow 0 15 0), 6); ((0, dir_code NORTH, mkFlow 0 15 0), 1)]
  | Err _ => False end.
Proof. vm_compute. reflexivity. Qed.
