(* ===== verification/D2DStats.v ===== *)
(** The statistics of the die-to-die links ([CountType], [CountLink],
    [ProbeData] of [src/die/d2d_link.cpp]; the records of [include/die/port.h]):
    packets by type, and the probes that certify a stream of DATA packets.
    The packet counters of type [long] and [int] are not wrapped; the hashes are. *)

From S2P Require Import Prelude Bits MsgWire DieTopology PortSelect HostAttach HbmMemWire Routing.

(** ** Data *)

Definition FNV_OFFSET : Z := 1469598103934665603.

Record D2DDataProbe : Type := mkProbe {
  pkts : Z; seqhash : Z; csum : Z; minseq : Z; maxseq : Z; endseq : Z; end_count : Z; end_length : Z; expect : Z;
  inorder : bool; first_cycle : Z; last_cycle : Z
}.
Definition new_probe : D2DDataProbe := mkProbe 0 FNV_OFFSET FNV_OFFSET (-1) (-1) (-1) 0 (-1) 0 true (-1) (-1).

Record V5SubflowStat : Type := mkSubflow {
  in_pkts : Z; out_pkts : Z; in_seqhash : Z; out_seqhash : Z; in_csum : Z; out_csum : Z;
  out_minseq : Z; out_maxseq : Z; out_endseq : Z; out_end_count : Z; out_end_length : Z; out_expect : Z; out_inorder : bool
}.
Definition new_subflow : V5SubflowStat :=
  mkSubflow 0 0 FNV_OFFSET FNV_OFFSET FNV_OFFSET FNV_OFFSET (-1) (-1) (-1) 0 (-1) 0 true.

Record D2DLinkStat : Type := mkLinkStat {
  ls_local_die : Z; ls_remote_die : Z; ls_dir : Directions; ls_in_by_type : list Z; ls_out_by_type : list Z
}.

(** (link, source, tag, subflow) *)
Definition V5SubflowProbeKey : Type := Z * Z * Z * Z.

(** The file-scope counters. *)
Record link_stats : Type := mkStats {
  g_in_pkts : Z; g_out_pkts : Z; g_in_by_type : list Z; g_out_by_type : list Z;
  g_link_stats : list D2DLinkStat; g_subflow_stats : gmap V5SubflowProbeKey V5SubflowStat;
  g_data_in : D2DDataProbe; g_data_out : D2DDataProbe
}.

(** ** Operations *)

Definition TYPE_COUNT : Z := MSG_TYPE_code MSG_TYPE_NUM.
Definition no_counts : list Z := replicate (Z.to_nat TYPE_COUNT) 0.

(** The counters of [ResetD2DLinkStats]. *)
Definition reset_link_stats (t : D2DPortTable) (links : list D2DLink) : link_stats :=
  mkStats 0 0 no_counts no_counts
    ((fun l => mkLinkStat (local_die l) (remote_die l) (pdir (ports t !!! Z.to_nat (local_port l))) no_counts no_counts) <$> links)
    ∅ new_probe new_probe.

(** The message of a flit, if it is one: a memory flit is skipped, and a type
    field outside the enumeration compares equal to no type. *)
Definition counted_msg (payload : Z) : option Msg :=
  if IsMemWireFlit payload then None else DeserializeMsg payload.

Definition CountType (counts : list Z) (payload : Z) : list Z :=
  match counted_msg payload with
  | None => counts
  | Some m =>
      let type := MSG_TYPE_code (msg_type_ m) in
      if (0 <=? type) && (type <? TYPE_COUNT) then alter Z.succ (Z.to_nat type) counts else counts
  end.

Definition MixWord (h w : Z) : Z := u64 (Z.lxor h w * 1099511628211).
Definition MixPayload (h payload : Z) : Z :=
  foldl (fun h w => MixWord h (get payload (w + 63) w)) h [0; 64; 128; 192].

Definition ProbeData (p : D2DDataProbe) (payload cycle : Z) : D2DDataProbe :=
  match counted_msg payload with
  | None => p
  | Some m =>
      if negb (bool_decide (msg_type_ m = DATA)) then p else
      let first := pkts p =? 0 in
      mkProbe (pkts p + 1) (MixWord (seqhash p) (u64 (seq_id_ m + 1))) (MixPayload (csum p) payload)
        (if first || (seq_id_ m <? minseq p) then seq_id_ m else minseq p)
        (if maxseq p <? seq_id_ m then seq_id_ m else maxseq p)
        (if is_end_ m then seq_id_ m else endseq p)
        (if is_end_ m then end_count p + 1 else end_count p)
        (if is_end_ m then length_ m else end_length p)
        (seq_id_ m + 1)
        (if negb first && negb (seq_id_ m =? expect p) then false else inorder p)
        (if first then cycle else first_cycle p) cycle
  end.

Definition subflow_in (st : V5SubflowStat) (m : Msg) (payload : Z) : V5SubflowStat :=
  mkSubflow (in_pkts st + 1) (out_pkts st) (MixWord (in_seqhash st) (u64 (seq_id_ m + 1))) (out_seqhash st)
    (MixPayload (in_csum st) payload) (out_csum st) (out_minseq st) (out_maxseq st) (out_endseq st) (out_end_count st)
    (out_end_length st) (out_expect st) (out_inorder st).

Definition subflow_out (st : V5SubflowStat) (m : Msg) (payload : Z) : V5SubflowStat :=
  let first := out_pkts st =? 0 in
  mkSubflow (in_pkts st) (out_pkts st + 1) (in_seqhash st) (MixWord (out_seqhash st) (u64 (seq_id_ m + 1)))
    (in_csum st) (MixPayload (out_csum st) payload)
    (if first || (seq_id_ m <? out_minseq st) then seq_id_ m else out_minseq st)
    (if out_maxseq st <? seq_id_ m then seq_id_ m else out_maxseq st)
    (if is_end_ m then seq_id_ m else out_endseq st)
    (if is_end_ m then out_end_count st + 1 else out_end_count st)
    (if is_end_ m then length_ m else out_end_length st)
    (seq_id_ m + 1)
    (if negb first && negb (seq_id_ m =? out_expect st) then false else out_inorder st).

Definition count_link_stat (is_in : bool) (type : Z) (s : D2DLinkStat) : D2DLinkStat :=
  let bump := alter Z.succ (Z.to_nat type) in
  if is_in then mkLinkStat (ls_local_die s) (ls_remote_die s) (ls_dir s) (bump (ls_in_by_type s)) (ls_out_by_type s)
  else mkLinkStat (ls_local_die s) (ls_remote_die s) (ls_dir s) (ls_in_by_type s) (bump (ls_out_by_type s)).

Definition CountLink (ls : list D2DLinkStat) (sub : gmap V5SubflowProbeKey V5SubflowStat) (idx : Z) (is_in : bool) (payload : Z)
    : list D2DLinkStat * gmap V5SubflowProbeKey V5SubflowStat :=
  match counted_msg payload with
  | None => (ls, sub)
  | Some m =>
      if (idx <? 0) || (Z.of_nat (length ls) <=? idx) then (ls, sub) else
      let type := MSG_TYPE_code (msg_type_ m) in
      if (type <? 0) || (TYPE_COUNT <=? type) then (ls, sub) else
      let ls := alter (count_link_stat is_in type) (Z.to_nat idx) ls in
      if negb (bool_decide (msg_type_ m = DATA)) then (ls, sub) else
      let key := (idx, source_ m, tag_id_ m, subflow_ m) in
      let st := default new_subflow (sub !! key) in
      (ls, <[key := (if is_in then subflow_in else subflow_out) st m payload]> sub)
  end.

(** The counting at the capture of a flit and at its delivery; [probe] is the
    call of [ProbeData], which only the data channel makes. *)
Definition count_in (g : link_stats) (idx payload cycle : Z) (probe : bool) : link_stats :=
  let r := CountLink (g_link_stats g) (g_subflow_stats g) idx true payload in
  mkStats (g_in_pkts g + 1) (g_out_pkts g) (CountType (g_in_by_type g) payload) (g_out_by_type g) r.1 r.2
    (if probe then ProbeData (g_data_in g) payload cycle else g_data_in g) (g_data_out g).
Definition count_out (g : link_stats) (idx payload cycle : Z) (probe : bool) : link_stats :=
  let r := CountLink (g_link_stats g) (g_subflow_stats g) idx false payload in
  mkStats (g_in_pkts g) (g_out_pkts g + 1) (g_in_by_type g) (CountType (g_out_by_type g) payload) r.1 r.2
    (g_data_in g) (if probe then ProbeData (g_data_out g) payload cycle else g_data_out g).
