(* ===== verification/D2DLink.v ===== *)
(** The unit of a directed die-to-die link ([D2DLinkUnit] of
    [include/die/d2d_link.h] and [src/die/d2d_link.cpp]), one clock cycle at a
    time, in its four modes: an unbounded delay line, the behavioural backend, a
    single bounded queue with credits, and the production pipeline in which a
    whole flow is stored before it enters the link.

    The process [forward] is a function from the unit, its output signals and the
    globals it touches to their next values; the signals it reads are its input.
    A [sent] signal and its channel are one [option].  An exception ends the
    process, so the state after one is not modelled. *)

From S2P Require Import Prelude MsgWire D2DConfig DieTopology PortSelect HostAttach HbmMemWire Routing.
From S2P Require Import SafAdmission LinkGroup Behavioral D2DStats.

(** ** Parameters *)

Record D2DLinkBound : Type := mkBound {
  b_enabled : bool; whole_flow_saf : bool; data_depth : Z; ctrl_depth : Z; saf_depth : Z; rx_depth : Z;
  b_port_rate : D2DRate; b_rate : D2DRate
}.
Definition no_bound : D2DLinkBound := mkBound false false 0 0 0 0 default_rate default_rate.

Record D2DLinkBehavioral : Type := mkBeh { beh_enabled : bool; beh_port_rate : D2DRate; beh_link_rate : D2DRate }.
Definition no_beh : D2DLinkBehavioral := mkBeh false default_rate default_rate.

Record link_params : Type := mkParams { lp_latency : Z; link_idx : Z; bound : D2DLinkBound; behavioral : D2DLinkBehavioral }.

(** The checks of the constructor. *)
Definition new_D2DLinkUnit (p : link_params) : result link_params :=
  let b := bound p in
  THROW runtime_error "D2DLinkUnit: bounded and behavioral modes are mutually exclusive"
    WHEN b_enabled b && beh_enabled (behavioral p);;
  THROW runtime_error "D2DLinkUnit: behavioral rates must satisfy 0 < num/den <= 1"
    WHEN beh_enabled (behavioral p) && (negb (Valid (beh_port_rate (behavioral p))) || negb (Valid (beh_link_rate (behavioral p))));;
  THROW runtime_error "D2DLinkUnit: behavioral latency must be >= 0" WHEN beh_enabled (behavioral p) && (lp_latency p <? 0);;
  if negb (b_enabled b) then Ok p else
  THROW runtime_error "D2DLinkUnit: bounded data_depth must be >= 1" WHEN data_depth b <? 1;;
  THROW runtime_error "D2DLinkUnit: bounded ctrl_depth must be >= 1" WHEN ctrl_depth b <? 1;;
  THROW runtime_error "D2DLinkUnit: bounded rate must satisfy 0 < num/den <= 1" WHEN negb (Valid (b_rate b));;
  if negb (whole_flow_saf b) then Ok p else
  THROW runtime_error "D2DLinkUnit: production SAF/RX depths must be >= 1" WHEN (saf_depth b <? 1) || (rx_depth b <? 1);;
  THROW runtime_error "D2DLinkUnit: port_rate must satisfy 0 < num/den <= 1" WHEN negb (Valid (b_port_rate b));;
  Ok p.

(** The parameters the monitor gives to the unit of link [idx]. *)
Definition production_params (cfg : D2DLinkConfig) (port_latency idx : Z) : link_params :=
  mkParams port_latency idx
    (if bool_decide (mode cfg = MODE_BOUNDED_SAF)
     then mkBound true true (link_inflight_depth cfg) (ctrl_buffer_depth cfg) (saf_buffer_depth cfg) (rx_buffer_depth cfg)
            (port_rate cfg) (link_rate cfg) else no_bound)
    (if bool_decide (backend cfg = BACKEND_BEHAVIORAL) then mkBeh true (port_rate cfg) (link_rate cfg) else no_beh).

(** ** State *)

Inductive link_counter : Type :=
  | occ_max | occ_ctrl_max | full_cycles | ctrl_full_cycles | upstream_blocked | ctrl_upstream_blocked | rate_stall
  | downstream_stall | ctrl_downstream_stall | saf_occ_max | inflight_occ_max | rx_occ_max | saf_full_cycles
  | inflight_full_cycles | rx_full_cycles | port_rate_stall | link_rate_stall | rx_backpressure_stall | link_group_stall.
#[export] Instance link_counter_eq_dec : EqDecision link_counter.
Proof. solve_decision. Defined.
Definition counts : Type := link_counter -> Z.
Definition bump (k : link_counter) (b : bool) (c : counts) : counts :=
  fun k' => if decide (k' = k) then c k' + b2z b else c k'.
Definition raise_to (k : link_counter) (x : Z) (c : counts) : counts :=
  fun k' => if decide (k' = k) then Z.max x (c k') else c k'.

Record SafFlowBuffer : Type := mkFlowBuf { expected : Z; complete : bool; flow_packets : list Z }.
Definition new_flow_buffer : SafFlowBuffer := mkFlowBuf 0 false [].

(** The members of the class, grouped: the queues of the link, the SAF stage, the
    token buckets, the credits, the tables of the behavioural mode. *)
Record link_queues : Type := mkQueues { fifo : list (Z * Z); cfifo : list (Z * Z); rx_fifo : list Z }.
Record saf_stage : Type := mkStage {
  saf_expected : gmap FlowKey Z; saf_flows : gmap FlowKey SafFlowBuffer; saf_ready : list FlowKey; mem_saf_fifo : list Z
}.
Record link_tokens : Type := mkTokens { tokens : Z; port_tokens : Z }.
Record link_credits : Type := mkCredits {
  data_credit_due : list Z; ctrl_credit_due : list Z; data_credit_active : bool; ctrl_credit_active : bool;
  data_credit_toggle : bool; ctrl_credit_toggle : bool
}.
Record link_events : Type := mkEvents { data_events : list (Z * Z); ctrl_events : list (Z * Z); mem_data_next : Z }.
Record link_unit : Type := mkUnit {
  queues :> link_queues; stage :> saf_stage; bucket :> link_tokens; credits :> link_credits; events :> link_events; counters : counts
}.
Definition initial_unit : link_unit :=
  mkUnit (mkQueues [] [] []) (mkStage ∅ ∅ [] []) (mkTokens 0 0) (mkCredits [] [] false false false false) (mkEvents [] [] 0) (fun _ => 0).

Definition set_queues (x : link_queues) (u : link_unit) : link_unit := mkUnit x (stage u) (bucket u) (credits u) (events u) (counters u).
Definition set_stage (x : saf_stage) (u : link_unit) : link_unit := mkUnit (queues u) x (bucket u) (credits u) (events u) (counters u).
Definition set_bucket (x : link_tokens) (u : link_unit) : link_unit := mkUnit (queues u) (stage u) x (credits u) (events u) (counters u).
Definition set_credits (x : link_credits) (u : link_unit) : link_unit := mkUnit (queues u) (stage u) (bucket u) x (events u) (counters u).
Definition set_events (x : link_events) (u : link_unit) : link_unit := mkUnit (queues u) (stage u) (bucket u) (credits u) x (counters u).
Definition set_counters (f : counts -> counts) (u : link_unit) : link_unit :=
  mkUnit (queues u) (stage u) (bucket u) (credits u) (events u) (f (counters u)).
Definition set_fifo (x : list (Z * Z)) (u : link_unit) : link_unit := set_queues (mkQueues x (cfifo u) (rx_fifo u)) u.
Definition set_cfifo (x : list (Z * Z)) (u : link_unit) : link_unit := set_queues (mkQueues (fifo u) x (rx_fifo u)) u.

(** The output signals. *)
Record link_out : Type := mkOut {
  in_avail : bool; in_ctrl_avail : bool; out_sent : option Z; out_ctrl_sent : option Z;
  data_credit_return : bool; ctrl_credit_return : bool
}.
Definition initial_out : link_out := mkOut false false None None false false.
Definition write_avail (a c : bool) (o : link_out) : link_out :=
  mkOut a c (out_sent o) (out_ctrl_sent o) (data_credit_return o) (ctrl_credit_return o).
Definition write_out (x : option Z) (o : link_out) : link_out :=
  mkOut (in_avail o) (in_ctrl_avail o) x (out_ctrl_sent o) (data_credit_return o) (ctrl_credit_return o).
Definition write_ctrl_out (x : option Z) (o : link_out) : link_out :=
  mkOut (in_avail o) (in_ctrl_avail o) (out_sent o) x (data_credit_return o) (ctrl_credit_return o).
Definition write_data_credit (b : bool) (o : link_out) : link_out :=
  mkOut (in_avail o) (in_ctrl_avail o) (out_sent o) (out_ctrl_sent o) b (ctrl_credit_return o).
Definition write_ctrl_credit (b : bool) (o : link_out) : link_out :=
  mkOut (in_avail o) (in_ctrl_avail o) (out_sent o) (out_ctrl_sent o) (data_credit_return o) b.

(** The input signals of a cycle. *)
Record link_in : Type := mkIn { in_sent : option Z; in_ctrl_sent : option Z; out_avail : bool; out_ctrl_avail : bool }.

Record D2DBehavioralStats : Type := mkBehStats { data_flows : Z; logical_data_packets : Z; service_cycles : Z; fixed_cycles : Z }.

Record link_globals : Type := mkGlobals {
  gl_stats : link_stats; gl_arbs : gmap SafGroupKey V5GroupArbiter; gl_saf : saf_state; gl_v5 : v5_state;
  gl_flows : behavioral_flows; gl_beh : D2DBehavioralStats; gl_progress : Z
}.
Definition put_stats (x : link_stats) (g : link_globals) : link_globals :=
  mkGlobals x (gl_arbs g) (gl_saf g) (gl_v5 g) (gl_flows g) (gl_beh g) (gl_progress g).
Definition put_arbs (x : gmap SafGroupKey V5GroupArbiter) (g : link_globals) : link_globals :=
  mkGlobals (gl_stats g) x (gl_saf g) (gl_v5 g) (gl_flows g) (gl_beh g) (gl_progress g).
Definition put_saf (x : saf_state) (g : link_globals) : link_globals :=
  mkGlobals (gl_stats g) (gl_arbs g) x (gl_v5 g) (gl_flows g) (gl_beh g) (gl_progress g).
Definition put_beh (x : D2DBehavioralStats) (g : link_globals) : link_globals :=
  mkGlobals (gl_stats g) (gl_arbs g) (gl_saf g) (gl_v5 g) (gl_flows g) x (gl_progress g).
Definition progress (g : link_globals) : link_globals :=
  mkGlobals (gl_stats g) (gl_arbs g) (gl_saf g) (gl_v5 g) (gl_flows g) (gl_beh g) (gl_progress g + 1).

Record world : Type := mkWorld { wu : link_unit; wo : link_out; wg : link_globals }.
Definition on_unit (f : link_unit -> link_unit) (w : world) : world := mkWorld (f (wu w)) (wo w) (wg w).
Definition on_out (f : link_out -> link_out) (w : world) : world := mkWorld (wu w) (f (wo w)) (wg w).
Definition on_globals (f : link_globals -> link_globals) (w : world) : world := mkWorld (wu w) (wo w) (f (wg w)).

Definition SafOccupied (s : saf_stage) : Z :=
  map_fold (fun _ b acc => Z.of_nat (length (flow_packets b)) + acc) 0 (saf_flows s) + Z.of_nat (length (mem_saf_fifo s)).
Definition CreditResidual (u : link_unit) : Z :=
  Z.of_nat (length (data_credit_due u)) + Z.of_nat (length (ctrl_credit_due u)) +
  b2z (data_credit_active u) + b2z (ctrl_credit_active u).
Definition link_residual (u : link_unit) : Z :=
  Z.of_nat (length (fifo u)) + Z.of_nat (length (cfifo u)) + Z.of_nat (length (rx_fifo u)) + SafOccupied u +
  Z.of_nat (size (saf_expected u)) + CreditResidual u + Z.of_nat (length (data_events u)) + Z.of_nat (length (ctrl_events u)).

(** ** One cycle *)

Section cycle.
Context `{Geometry} (M : machine) (SPEC_DTE_STREAMING : bool) (p : link_params).
Local Notation lat := (lp_latency p).
Local Notation b := (bound p).

(** The head of a queue is ripe. *)
Definition ripe (cyc : Z) (q : list (Z * Z)) : bool :=
  match q with (ready, _) :: _ => ready <=? cyc | [] => false end.

Definition count_captured (payload cyc : Z) (probe : bool) (g : link_globals) : link_globals :=
  put_stats (count_in (gl_stats g) (link_idx p) payload cyc probe) g.
(** A delivery also counts as progress. *)
Definition count_delivered (payload cyc : Z) (probe : bool) (g : link_globals) : link_globals :=
  progress (put_stats (count_out (gl_stats g) (link_idx p) payload cyc probe) g).

Definition group_grant (cyc : Z) (request : bool) (w : world) : result (bool * world) :=
  V5LinkGroupGrant (g_d2d_links M) (gl_arbs (wg w)) (link_idx p) cyc request ≫= fun r : bool * gmap SafGroupKey V5GroupArbiter =>
  Ok (r.1, on_globals (put_arbs r.2) w).

(** No credits: both returns are held low. *)
Definition open_link (w : world) : world :=
  on_unit (fun u => set_credits (mkCredits (data_credit_due u) (ctrl_credit_due u) false false (data_credit_toggle u) (ctrl_credit_toggle u)) u)
    (on_out (fun o => write_data_credit false (write_ctrl_credit false (write_avail true true o))) w).

Definition capture_data (cyc : Z) (payload : Z) (w : world) : world :=
  on_globals (count_captured payload cyc true) (on_unit (fun u => set_fifo (fifo u ++ [(cyc + lat, payload)]) u) w).
Definition capture_ctrl (cyc : Z) (payload : Z) (w : world) : world :=
  on_globals (count_captured payload cyc false) (on_unit (fun u => set_cfifo (cfifo u ++ [(cyc + lat, payload)]) u) w).
Definition when_some {A} (x : option A) (f : A -> world -> world) (w : world) : world :=
  match x with Some a => f a w | None => w end.

(** The head of the data queue leaves. *)
Definition deliver_data (cyc : Z) (w : world) : world :=
  match fifo (wu w) with
  | (_, payload) :: q =>
      on_globals (count_delivered payload cyc true) (on_unit (set_fifo q) (on_out (write_out (Some payload)) w))
  | [] => w
  end.
Definition deliver_ctrl (cyc : Z) (w : world) : world :=
  match cfifo (wu w) with
  | (_, payload) :: q =>
      on_globals (count_delivered payload cyc false) (on_unit (set_cfifo q) (on_out (write_ctrl_out (Some payload)) w))
  | [] => w
  end.

(** *** The delay line of [functional_v2] *)

Definition forward_functional (cyc : Z) (i : link_in) (w : world) : result world :=
  let w := open_link w in
  let w := when_some (in_sent i) (capture_data cyc) w in
  let w := when_some (in_ctrl_sent i) (capture_ctrl cyc) w in
  let group_request := ripe cyc (fifo (wu w)) && out_avail i in
  group_grant cyc group_request w ≫= fun '((group_ok, w) : bool * world) =>
  let w := if group_request && group_ok then deliver_data cyc w
           else on_unit (set_counters (bump link_group_stall (group_request && negb group_ok))) (on_out (write_out None) w) in
  Ok (if ripe cyc (cfifo (wu w)) && out_ctrl_avail i then deliver_ctrl cyc w else on_out (write_ctrl_out None) w).

(** *** The behavioural backend *)

(** [emplace] into a [multimap]: after the entries of the same key. *)
Fixpoint emplace (x : Z * Z) (l : list (Z * Z)) : list (Z * Z) :=
  match l with
  | [] => [x]
  | y :: l' => if y.1 <=? x.1 then y :: emplace x l' else x :: l
  end.

Definition add_data_event (ready payload : Z) (u : link_unit) : link_unit :=
  set_events (mkEvents (emplace (ready, payload) (data_events u)) (ctrl_events u) (mem_data_next u)) u.
Definition add_ctrl_event (ready payload : Z) (u : link_unit) : link_unit :=
  set_events (mkEvents (data_events u) (emplace (ready, payload) (ctrl_events u)) (mem_data_next u)) u.

(** The cycles a memory flit occupies the link; [int] arithmetic. *)
Definition mem_service : Z :=
  let per r := Z.quot (i32 (den r + num r - 1)) (num r) in
  Z.max 1 (Z.max (per (beh_port_rate (behavioral p))) (per (beh_link_rate (behavioral p)))).

Definition with_tail (m : Msg) (tail : Z) : Msg :=
  mkMsg (is_end_ m) (msg_type_ m) (seq_id_ m) (des_ m) (offset_ m) (tag_id_ m) (source_ m) (length_ m) (refill_ m)
    (config_end_ m) (roofline_packets_ m) (flow_packets_ m) (dte_payload_bits_ m) (dte_stream_source_first_ns_ m)
    (dte_stream_source_done_ns_ m) tail (subflow_ m) (exit_port_ m) (data_ m).

Definition beh_add_flow (n cycles : Z) (s : D2DBehavioralStats) : D2DBehavioralStats :=
  mkBehStats (data_flows s + 1) (logical_data_packets s + n) (service_cycles s + cycles) (fixed_cycles s).
Definition beh_add_fixed (n : Z) (g : link_globals) : link_globals :=
  let s := gl_beh g in put_beh (mkBehStats (data_flows s) (logical_data_packets s) (service_cycles s) (fixed_cycles s + n)) g.

(** The first link of subflow 0 charges the service of the whole flow: the delay
    and the payload, which in streaming mode carries the tail. *)
Definition beh_service (m : Msg) (payload : Z) (g : link_globals) : result (Z * Z * link_globals) :=
  ConsumeD2DBehavioralFlow (gl_flows g) (source_ m) (tag_id_ m) ≫=
    fun '((meta, flows) : D2DBehavioralFlowMeta * behavioral_flows) =>
  THROW runtime_error "Behavioral DATA destination disagrees with flow metadata" WHEN negb (dest_global meta =? des_ m);;
  EstimateD2DBehavioralStriped M (gl_v5 g) (source_ m) (des_ m) (tag_id_ m) (packets meta) (stripes meta)
    (beh_port_rate (behavioral p)) (beh_link_rate (behavioral p)) lat ≫=
    fun '((e, st) : D2DBehavioralEstimate * v5_state) =>
  (if SPEC_DTE_STREAMING then
     THROW logic_error "behavioral D2D first service exceeds bulk service"
       WHEN bulk_service_cycles e <? first_packet_service_cycles e;;
     let tail_cycles := u64 (bulk_service_cycles e - first_packet_service_cycles e) in
     THROW overflow_error "DTE V2b behavioral D2D tail exceeds 32-bit wire capacity" WHEN UINT32_MAX <? tail_cycles;;
     SerializeMsg (with_tail m (u32 tail_cycles)) ≫= fun payload : Z => Ok (payload, first_packet_service_cycles e)
   else Ok (payload, bulk_service_cycles e)) ≫= fun '((payload, service) : Z * Z) =>
  Ok (payload, service,
      mkGlobals (gl_stats g) (gl_arbs g) (gl_saf g) st flows (beh_add_flow (packets meta) (bulk_service_cycles e) (gl_beh g)) (gl_progress g)).

Definition beh_first_link (m : Msg) : bool :=
  (0 <=? link_idx p) && (link_idx p <? Z.of_nat (length (g_d2d_links M))) &&
  (local_die (link_of (g_d2d_links M) (link_idx p)) =? DieOfGlobal (source_ m)).

Definition beh_capture_data (cyc payload : Z) (w : world) : result world :=
  if IsMemWireFlit payload then
    let start := Z.max cyc (mem_data_next (wu w)) in
    let next := start + mem_service in
    Ok (on_globals (count_captured payload cyc true)
          (on_unit (fun u => add_data_event (next + lat) payload (set_events (mkEvents (data_events u) (ctrl_events u) next) u)) w))
  else
    let not_data := runtime_error "V4 Behavioral data channel received a non-DATA message" in
    match DeserializeMsg payload with
    | None => Err not_data
    | Some m =>
        THROW not_data WHEN negb (bool_decide (msg_type_ m = DATA));;
        THROW runtime_error "V4 Behavioral DATA requires roofline_packets >= 1" WHEN roofline_packets_ m <? 1;;
        (if beh_first_link m && (subflow_ m =? 0) then beh_service m payload (wg w) else Ok (payload, 0, wg w)) ≫=
          fun '(((payload, service), g) : Z * Z * link_globals) =>
        let delay := lat + service in
        THROW runtime_error "V4 Behavioral ready-cycle overflow" WHEN LONG_MAX - cyc <? delay;;
        let g := if subflow_ m =? 0 then beh_add_fixed lat g else g in
        Ok (mkWorld (add_data_event (cyc + delay) payload (wu w)) (wo w) (count_captured payload cyc true g))
    end.

Definition beh_capture_ctrl (cyc payload : Z) (w : world) : result world :=
  if IsMemWireFlit payload then Ok (on_globals (count_captured payload cyc false) w) else
  let not_ctrl := runtime_error "V4 Behavioral control channel accepts only REQUEST/ACK" in
  match DeserializeMsg payload with
  | None => Err not_ctrl
  | Some m =>
      THROW not_ctrl WHEN negb (bool_decide (msg_type_ m = REQUEST)) && negb (bool_decide (msg_type_ m = ACK));;
      THROW runtime_error "V4 Behavioral control ready-cycle overflow" WHEN LONG_MAX - cyc <? lat;;
      Ok (on_globals (fun g => count_captured payload cyc false (if subflow_ m =? 0 then beh_add_fixed lat g else g))
            (on_unit (add_ctrl_event (cyc + lat) payload) w))
  end.

Definition when_some_ok (x : option Z) (f : Z -> world -> result world) (w : world) : result world :=
  match x with Some a => f a w | None => Ok w end.

Definition beh_deliver_data (cyc : Z) (avail : bool) (w : world) : world :=
  match data_events (wu w) with
  | (ready, payload) :: l =>
      if (ready <=? cyc) && avail
      then on_globals (count_delivered payload cyc true)
             (on_unit (fun u => set_events (mkEvents l (ctrl_events u) (mem_data_next u)) u) (on_out (write_out (Some payload)) w))
      else on_out (write_out None) w
  | [] => on_out (write_out None) w
  end.
Definition beh_deliver_ctrl (cyc : Z) (avail : bool) (w : world) : world :=
  match ctrl_events (wu w) with
  | (ready, payload) :: l =>
      if (ready <=? cyc) && avail
      then on_globals (count_delivered payload cyc false)
             (on_unit (fun u => set_events (mkEvents (data_events u) l (mem_data_next u)) u) (on_out (write_ctrl_out (Some payload)) w))
      else on_out (write_ctrl_out None) w
  | [] => on_out (write_ctrl_out None) w
  end.

Definition forward_behavioral (cyc : Z) (i : link_in) (w : world) : result world :=
  let w := open_link w in
  when_some_ok (in_sent i) (beh_capture_data cyc) w ≫= fun w : world =>
  when_some_ok (in_ctrl_sent i) (beh_capture_ctrl cyc) w ≫= fun w : world =>
  Ok (beh_deliver_ctrl cyc (out_ctrl_avail i) (beh_deliver_data cyc (out_avail i) w)).

(** *** The bounded single queue *)

(** One credit that is due is returned per cycle. *)
Definition due (cyc : Z) (q : list Z) : bool * list Z :=
  match q with d :: q' => if d <=? cyc then (true, q') else (false, q) | [] => (false, []) end.

Definition bounded_credits (cyc : Z) (w : world) : world :=
  let u := wu w in
  let d := due cyc (data_credit_due u) in
  let c := due cyc (ctrl_credit_due u) in
  on_unit (fun u => set_bucket (mkTokens (tokens u + num (b_rate b)) (port_tokens u))
             (set_credits (mkCredits d.2 c.2 d.1 c.1 (data_credit_toggle u) (ctrl_credit_toggle u)) u))
    (on_out (fun o => write_data_credit d.1 (write_ctrl_credit c.1 o)) w).

Definition bounded_deliver (cyc : Z) (avail : bool) (w : world) : result world :=
  let u := wu w in
  let data_mature := ripe cyc (fifo u) in
  let has_token := den (b_rate b) <=? tokens u in
  let group_request := data_mature && avail && has_token in
  group_grant cyc group_request w ≫= fun '((group_ok, w) : bool * world) =>
  let w := if group_request && group_ok then
      on_unit (fun u => set_bucket (mkTokens (tokens u - den (b_rate b)) (port_tokens u))
                 (set_credits (mkCredits (data_credit_due u ++ [cyc + lat]) (ctrl_credit_due u) (data_credit_active u)
                    (ctrl_credit_active u) (data_credit_toggle u) (ctrl_credit_toggle u)) u)) (deliver_data cyc w)
    else
      on_unit (set_counters (bump downstream_stall (data_mature && negb avail) ∘
                             bump rate_stall (data_mature && avail && negb has_token) ∘
                             bump link_group_stall (data_mature && avail && has_token && negb group_ok)))
        (on_out (write_out None) w) in
  Ok (on_unit (fun u => set_bucket (mkTokens (Z.min (den (b_rate b)) (tokens u)) (port_tokens u)) u) w).

Definition bounded_deliver_ctrl (cyc : Z) (avail : bool) (w : world) : world :=
  let ctrl_mature := ripe cyc (cfifo (wu w)) in
  if ctrl_mature && avail then
    on_unit (fun u => set_credits (mkCredits (data_credit_due u) (ctrl_credit_due u ++ [cyc + lat]) (data_credit_active u)
      (ctrl_credit_active u) (data_credit_toggle u) (ctrl_credit_toggle u)) u) (deliver_ctrl cyc w)
  else on_unit (set_counters (bump ctrl_downstream_stall (ctrl_mature && negb avail))) (on_out (write_ctrl_out None) w).

Definition has_room (q : list (Z * Z)) (depth : Z) : bool := Z.of_nat (length q) <? depth.

Definition bounded_accept (cyc payload : Z) (w : world) : world :=
  if has_room (fifo (wu w)) (data_depth b) then capture_data cyc payload w
  else on_unit (set_counters (bump upstream_blocked true)) w.
Definition bounded_accept_ctrl (cyc payload : Z) (w : world) : world :=
  if has_room (cfifo (wu w)) (ctrl_depth b) then capture_ctrl cyc payload w
  else on_unit (set_counters (bump ctrl_upstream_blocked true)) w.

Definition bounded_publish (w : world) : world :=
  let u := wu w in
  let room := has_room (fifo u) (data_depth b) in
  let croom := has_room (cfifo u) (ctrl_depth b) in
  on_unit (set_counters (raise_to occ_max (Z.of_nat (length (fifo u))) ∘ raise_to occ_ctrl_max (Z.of_nat (length (cfifo u))) ∘
                         bump full_cycles (negb room) ∘ bump ctrl_full_cycles (negb croom)))
    (on_out (write_avail room croom) w).

Definition forward_bounded (cyc : Z) (i : link_in) (w : world) : result world :=
  bounded_deliver cyc (out_avail i) (bounded_credits cyc w) ≫= fun w : world =>
  let w := bounded_deliver_ctrl cyc (out_ctrl_avail i) w in
  let w := when_some (in_sent i) (bounded_accept cyc) w in
  let w := when_some (in_ctrl_sent i) (bounded_accept_ctrl cyc) w in
  Ok (bounded_publish w).

(** *** The production pipeline: store, port and link service, flight, receive *)

Definition saf_begin (w : world) : world :=
  on_unit (fun u => set_bucket (mkTokens (tokens u + num (b_rate b)) (port_tokens u + num (b_port_rate b)))
    (set_credits (mkCredits (data_credit_due u) (ctrl_credit_due u) false false (data_credit_toggle u) (ctrl_credit_toggle u)) u)) w.

(** 1. RX to the remote router. *)
Definition saf_receive (avail : bool) (w : world) : world :=
  match rx_fifo (wu w) with
  | payload :: q =>
      if avail then on_globals progress (on_unit (fun u => set_queues (mkQueues (fifo u) (cfifo u) q) u) (on_out (write_out (Some payload)) w))
      else on_unit (set_counters (bump downstream_stall true)) (on_out (write_out None) w)
  | [] => on_out (write_out None) w
  end.

(** 2. Arrival in RX. *)
Definition saf_arrive (cyc : Z) (w : world) : world :=
  match fifo (wu w) with
  | (ready, payload) :: q =>
      if negb (ready <=? cyc) then w else
      if Z.of_nat (length (rx_fifo (wu w))) <? rx_depth b then
        on_globals (count_delivered payload cyc true)
          (on_unit (fun u => set_queues (mkQueues q (cfifo u) (rx_fifo u ++ [payload])) u) w)
      else on_unit (set_counters (bump rx_backpressure_stall true)) w
  | [] => w
  end.

(** A packet enters the link: tokens are taken and a credit goes back. *)
Definition saf_launch (cyc payload : Z) (w : world) : world :=
  let toggle := negb (data_credit_toggle (wu w)) in
  on_globals (count_captured payload cyc true)
    (on_unit (fun u =>
       set_fifo (fifo u ++ [(cyc + lat, payload)])
         (set_bucket (mkTokens (tokens u - den (b_rate b)) (port_tokens u - den (b_port_rate b)))
           (set_credits (mkCredits (data_credit_due u) (ctrl_credit_due u) (data_credit_active u) (ctrl_credit_active u)
              toggle (ctrl_credit_toggle u)) u))) (on_out (write_data_credit toggle) w)).

Definition saf_mismatch : exn := runtime_error "bounded SAF ready queue/accounting mismatch".

(** The packet to launch and the stage and globals afterwards: a memory flit first,
    else the next packet of the oldest complete flow; the last one frees the flow. *)
Definition saf_pop (s : saf_stage) (g : link_globals) : result (Z * saf_stage * link_globals) :=
  match mem_saf_fifo s with
  | payload :: q => Ok (payload, mkStage (saf_expected s) (saf_flows s) (saf_ready s) q, g)
  | [] =>
      match saf_ready s with
      | [] => Err saf_mismatch
      | key :: ready =>
          match saf_flows s !! key with
          | None => Err saf_mismatch
          | Some f =>
              match flow_packets f with
              | [] => Err saf_mismatch
              | payload :: ps =>
                  THROW saf_mismatch WHEN negb (complete f);;
                  if bool_decide (ps = []) then
                    ReleaseWholeFlowSafLink (g_d2d_cfg M) (g_d2d_links M) (gl_saf g) (link_idx p) key (expected f) ≫= fun saf =>
                    Ok (payload, mkStage (delete key (saf_expected s)) (delete key (saf_flows s)) ready [], put_saf saf g)
                  else Ok (payload, mkStage (saf_expected s)
                             (<[key := mkFlowBuf (expected f) (complete f) ps]> (saf_flows s)) (saf_ready s) [], g)
              end
          end
      end
  end.

(** 3. A complete flow enters the link. *)
Definition saf_inject (cyc : Z) (w : world) : result world :=
  let u := wu w in
  let ready := negb (bool_decide (mem_saf_fifo u = [])) || negb (bool_decide (saf_ready u = [])) in
  let port_ok := den (b_port_rate b) <=? port_tokens u in
  let link_ok := den (b_rate b) <=? tokens u in
  let inflight_room := Z.of_nat (length (fifo u)) <? data_depth b in
  let group_request := ready && port_ok && link_ok && inflight_room in
  group_grant cyc group_request w ≫= fun '((group_ok, w) : bool * world) =>
  (if group_request && group_ok then
     saf_pop (stage (wu w)) (wg w) ≫= fun '(((payload, s), g) : Z * saf_stage * link_globals) =>
     Ok (saf_launch cyc payload (mkWorld (set_stage s (wu w)) (wo w) g))
   else Ok (on_unit (set_counters
          (bump port_rate_stall (ready && negb port_ok) ∘ bump link_rate_stall (ready && port_ok && negb link_ok) ∘
           bump rate_stall (ready && port_ok && link_ok && negb inflight_room) ∘
           bump link_group_stall (ready && port_ok && link_ok && inflight_room && negb group_ok))) w)) ≫= fun w : world =>
  Ok (on_unit (fun u => set_bucket (mkTokens (Z.min (den (b_rate b)) (tokens u)) (Z.min (den (b_port_rate b)) (port_tokens u))) u) w).

(** 4. The control channel; a REQUEST announces the packets of its flow. *)
Definition saf_deliver_ctrl (cyc : Z) (avail : bool) (w : world) : world :=
  let ctrl_mature := ripe cyc (cfifo (wu w)) in
  if ctrl_mature && avail then
    let toggle := negb (ctrl_credit_toggle (wu w)) in
    on_unit (fun u => set_credits (mkCredits (data_credit_due u) (ctrl_credit_due u) (data_credit_active u) (ctrl_credit_active u)
      (data_credit_toggle u) toggle) u) (on_out (write_ctrl_credit toggle) (deliver_ctrl cyc w))
  else on_unit (set_counters (bump ctrl_downstream_stall (ctrl_mature && negb avail))) (on_out (write_ctrl_out None) w).

Definition flow_key (m : Msg) : FlowKey := mkFlow (source_ m) (tag_id_ m) (subflow_ m).

Definition saf_announce (payload : Z) (s : saf_stage) : result saf_stage :=
  match counted_msg payload with
  | None => Ok s
  | Some m =>
      if negb (bool_decide (msg_type_ m = REQUEST)) then Ok s else
      let key := flow_key m in
      THROW runtime_error "bounded SAF REQUEST has invalid flow_packets"
        WHEN (flow_packets_ m <=? 0) || (saf_depth b <? flow_packets_ m);;
      THROW runtime_error "bounded SAF duplicate REQUEST on active link"
        WHEN bool_decide (is_Some (saf_expected s !! key)) || bool_decide (is_Some (saf_flows s !! key));;
      Ok (mkStage (<[key := flow_packets_ m]> (saf_expected s)) (saf_flows s) (saf_ready s) (mem_saf_fifo s))
  end.

Definition saf_accept_ctrl (cyc payload : Z) (w : world) : result world :=
  THROW runtime_error "bounded CTRL producer exceeded advertised capacity" WHEN negb (has_room (cfifo (wu w)) (ctrl_depth b));;
  saf_announce payload (stage (wu w)) ≫= fun s : saf_stage =>
  Ok (capture_ctrl cyc payload (on_unit (set_stage s) w)).

(** 5. A packet from the router is stored. *)
Definition saf_store (payload : Z) (s : saf_stage) : result saf_stage :=
  THROW runtime_error "bounded SAF stage overflow despite path reservation" WHEN saf_depth b <=? SafOccupied s;;
  if IsMemWireFlit payload then Ok (mkStage (saf_expected s) (saf_flows s) (saf_ready s) (mem_saf_fifo s ++ [payload])) else
  let not_data := runtime_error "bounded SAF DATA channel received a non-DATA packet" in
  match DeserializeMsg payload with
  | None => Err not_data
  | Some m =>
      THROW not_data WHEN negb (bool_decide (msg_type_ m = DATA));;
      let key := flow_key m in
      match saf_expected s !! key with
      | None => Err (runtime_error "bounded SAF DATA arrived before matching REQUEST")
      | Some n =>
          let flow := default new_flow_buffer (saf_flows s !! key) in
          let exp := if expected flow =? 0 then n else expected flow in
          THROW runtime_error "bounded SAF received DATA after tail" WHEN complete flow;;
          let ps := flow_packets flow ++ [payload] in
          THROW runtime_error "bounded SAF flow exceeded declared packet count" WHEN exp <? Z.of_nat (length ps);;
          THROW runtime_error "bounded SAF DATA tail does not match REQUEST flow_packets"
            WHEN is_end_ m && (negb (Z.of_nat (length ps) =? exp) || negb (seq_id_ m =? exp));;
          Ok (mkStage (saf_expected s) (<[key := mkFlowBuf exp (is_end_ m) ps]> (saf_flows s))
                (if is_end_ m then saf_ready s ++ [key] else saf_ready s) (mem_saf_fifo s))
      end
  end.

Definition saf_accept (payload : Z) (w : world) : result world :=
  saf_store payload (stage (wu w)) ≫= fun s : saf_stage => Ok (on_unit (set_stage s) w).

(** 6. Diagnostics. *)
Definition saf_publish (w : world) : world :=
  let u := wu w in
  let occ := SafOccupied u in
  let saf_room := occ <? saf_depth b in
  let ctrl_room := has_room (cfifo u) (ctrl_depth b) in
  on_unit (set_counters (raise_to saf_occ_max occ ∘ raise_to inflight_occ_max (Z.of_nat (length (fifo u))) ∘
                         raise_to rx_occ_max (Z.of_nat (length (rx_fifo u))) ∘ bump saf_full_cycles (negb saf_room) ∘
                         bump inflight_full_cycles (data_depth b <=? Z.of_nat (length (fifo u))) ∘
                         bump rx_full_cycles (rx_depth b <=? Z.of_nat (length (rx_fifo u))) ∘ bump ctrl_full_cycles (negb ctrl_room)))
    (on_out (write_avail saf_room ctrl_room) w).

Definition forward_bounded_saf (cyc : Z) (i : link_in) (w : world) : result world :=
  let w := saf_arrive cyc (saf_receive (out_avail i) (saf_begin w)) in
  saf_inject cyc w ≫= fun w : world =>
  let w := saf_deliver_ctrl cyc (out_ctrl_avail i) w in
  when_some_ok (in_ctrl_sent i) (saf_accept_ctrl cyc) w ≫= fun w : world =>
  when_some_ok (in_sent i) saf_accept w ≫= fun w : world =>
  Ok (saf_publish w).

(** The loop body of [forward]. *)
Definition forward (cyc : Z) (i : link_in) (w : world) : result world :=
  if beh_enabled (behavioral p) then forward_behavioral cyc i w
  else if b_enabled b then (if whole_flow_saf b then forward_bounded_saf cyc i w else forward_bounded cyc i w)
  else forward_functional cyc i w.
End cycle.
