(* ===== verification/D2DLine.v ===== *)
(** The link in [functional_v2] mode is a delay line, and what the behavioural
    mode does to a memory response (modes of [src/die/d2d_link.cpp]). *)

From S2P Require Import Prelude D2DConfig DieTopology PortSelect HostAttach MsgWire HbmMemWire Routing.
From S2P Require Import SafAdmission LinkGroup Behavioral D2DStats D2DLink.

(** ** Runs *)

(** Consecutive cycles from [cyc]; the outputs of each. *)
Fixpoint run_link `{Geometry} (M : machine) (s : bool) (p : link_params) (cyc : Z) (ins : list link_in) (w : world)
    : result (list link_out * world) :=
  match ins with
  | [] => Ok ([], w)
  | i :: ins =>
      forward M s p (cyc + 1) i w ≫= fun w1 : world =>
      run_link M s p (cyc + 1) ins w1 ≫= fun r : list link_out * world => Ok (wo w1 :: r.1, r.2)
  end.

Definition functional (p : link_params) : Prop := beh_enabled (behavioral p) = false /\ b_enabled (bound p) = false.

(** A link without a group is granted every request. *)
Definition ungrouped (links : list D2DLink) (idx : Z) : Prop :=
  idx < 0 \/ Z.of_nat (length links) <= idx \/ grouped links idx = false.

Lemma group_grant_ungrouped M p cyc req w : ungrouped (g_d2d_links M) (link_idx p) -> exists w',
  group_grant M p cyc req w = Ok (req, w') /\ wu w' = wu w /\ wo w' = wo w.
Proof.
  intros Hu. unfold group_grant, V5LinkGroupGrant. destruct (_ || _) eqn:E; [eexists; by split|].
  apply orb_false_iff in E as [E1 E2]. apply Z.ltb_ge in E1. apply Z.leb_gt in E2.
  destruct Hu as [?|[?|Hg]]; [lia|lia|]. rewrite Hg. cbn. eexists. by split.
Qed.

(** ** One channel of the functional mode *)

Definition enqueue (ready : Z) (x : option Z) (q : list (Z * Z)) : list (Z * Z) :=
  match x with Some payload => q ++ [(ready, payload)] | None => q end.
Definition line_out (cyc : Z) (go : bool) (q : list (Z * Z)) : option Z * list (Z * Z) :=
  match q with
  | (ready, payload) :: q' => if (ready <=? cyc) && go then (Some payload, q') else (None, q)
  | [] => (None, [])
  end.

Definition probe_opt (cyc : Z) (x : option Z) (q : D2DDataProbe) : D2DDataProbe :=
  match x with Some payload => ProbeData q payload cyc | None => q end.
Definition data_probes (w : world) : D2DDataProbe * D2DDataProbe := (g_data_in (gl_stats (wg w)), g_data_out (gl_stats (wg w))).

Lemma when_capture_data p cyc x w : let w' := when_some x (capture_data p cyc) w in
  fifo (wu w') = enqueue (cyc + lp_latency p) x (fifo (wu w)) /\ cfifo (wu w') = cfifo (wu w) /\
  data_probes w' = (probe_opt cyc x (data_probes w).1, (data_probes w).2).
Proof. by destruct x. Qed.
Lemma when_capture_ctrl p cyc x w : let w' := when_some x (capture_ctrl p cyc) w in
  fifo (wu w') = fifo (wu w) /\ cfifo (wu w') = enqueue (cyc + lp_latency p) x (cfifo (wu w)) /\
  data_probes w' = data_probes w.
Proof. by destruct x. Qed.

(** A cycle of the functional mode is one step of each channel; [go] is the grant
    of the group. *)
Lemma functional_step M p cyc i w w' : forward_functional M p cyc i w = Ok w' -> exists go,
  (out_sent (wo w'), fifo (wu w')) = line_out cyc (out_avail i && go) (enqueue (cyc + lp_latency p) (in_sent i) (fifo (wu w))) /\
  (out_ctrl_sent (wo w'), cfifo (wu w')) = line_out cyc (out_ctrl_avail i) (enqueue (cyc + lp_latency p) (in_ctrl_sent i) (cfifo (wu w))) /\
  g_data_in (gl_stats (wg w')) = probe_opt cyc (in_sent i) (g_data_in (gl_stats (wg w))) /\
  g_data_out (gl_stats (wg w')) = probe_opt cyc (out_sent (wo w')) (g_data_out (gl_stats (wg w))).
Proof.
  unfold forward_functional. set (w0 := open_link w).
  destruct (when_capture_data p cyc (in_sent i) w0) as (F1 & C1 & O1). set (w1 := when_some (in_sent i) _ w0) in *.
  destruct (when_capture_ctrl p cyc (in_ctrl_sent i) w1) as (F2 & C2 & O2). set (w2 := when_some (in_ctrl_sent i) _ w1) in *.
  change (fifo (wu w0)) with (fifo (wu w)) in F1. change (cfifo (wu w0)) with (cfifo (wu w)) in C1.
  rewrite F1 in F2. rewrite C1 in C2. rewrite O1 in O2. change (data_probes w0) with (data_probes w) in O2. clearbody w1 w2. clear F1 C1 O1 w0 w1.
  unfold group_grant. destruct (V5LinkGroupGrant _ _ _ _ _) as [[go arbs]|]; [|done]. cbn [mbind result_bind fst snd].
  set (w3 := on_globals (put_arbs arbs) w2). change (data_probes w2) with (data_probes w3) in O2.
  change (fifo (wu w2)) with (fifo (wu w3)) in *. change (cfifo (wu w2)) with (cfifo (wu w3)) in *. clearbody w3.
  intros H. injection H as <-. exists go. rewrite <- F2, <- C2. injection O2 as O2 O3. rewrite <- O2, <- O3. clear F2 C2 O2 O3.
  unfold ripe, deliver_ctrl, deliver_data, line_out.
  destruct (fifo (wu w3)) as [|[r x] q] eqn:F; destruct (cfifo (wu w3)) as [|[r' x'] q'] eqn:C; cbn [andb].
  - cbn. rewrite C. cbn. by rewrite F, C.
  - cbn. rewrite C. destruct ((r' <=? cyc) && out_ctrl_avail i); cbn; by rewrite F, ?C.
  - destruct (r <=? cyc); cbn [andb]; [destruct (out_avail i); cbn [andb]; [destruct go|]|]; cbn; rewrite C; cbn; by rewrite ?F, ?C.
  - destruct (r <=? cyc); cbn [andb]; [destruct (out_avail i); cbn [andb]; [destruct go|]|]; cbn; rewrite C;
      destruct ((r' <=? cyc) && out_ctrl_avail i); cbn; by rewrite ?F, ?C.
Qed.

Lemma functional_total M p cyc i w : ungrouped (g_d2d_links M) (link_idx p) -> exists w', forward_functional M p cyc i w = Ok w' /\
  (out_sent (wo w'), fifo (wu w')) = line_out cyc (out_avail i) (enqueue (cyc + lp_latency p) (in_sent i) (fifo (wu w))).
Proof.
  intros Hu. assert (forall w, exists w', group_grant M p cyc (ripe cyc (fifo (wu w)) && out_avail i) w =
    Ok (ripe cyc (fifo (wu w)) && out_avail i, w') /\ wu w' = wu w) as Hg.
  { intros w1. destruct (group_grant_ungrouped M p cyc (ripe cyc (fifo (wu w1)) && out_avail i) w1 Hu) as (w2 & -> & E & _). by exists w2. }
  unfold forward_functional. set (w0 := open_link w).
  destruct (when_capture_data p cyc (in_sent i) w0) as (F1 & _ & _). set (w1 := when_some (in_sent i) _ w0) in *.
  destruct (when_capture_ctrl p cyc (in_ctrl_sent i) w1) as (F2 & _ & _). set (w2 := when_some (in_ctrl_sent i) _ w1) in *.
  change (fifo (wu w0)) with (fifo (wu w)) in F1. rewrite F1 in F2. clearbody w1 w2. rewrite <- F2.
  destruct (Hg w2) as (w3 & -> & U). cbn [mbind result_bind]. rewrite <- U. eexists. split; [reflexivity|].
  unfold ripe, deliver_ctrl, deliver_data, line_out.
  destruct (fifo (wu w3)) as [|[r x] q] eqn:F; destruct (cfifo (wu w3)) as [|[r' x'] q'] eqn:C; cbn [andb].
  - cbn. rewrite C. cbn. by rewrite F.
  - cbn. rewrite C. destruct ((r' <=? cyc) && out_ctrl_avail i); cbn; by rewrite F.
  - destruct ((r <=? cyc) && out_avail i); cbn; rewrite C; cbn; by rewrite ?F.
  - destruct ((r <=? cyc) && out_avail i); cbn; rewrite C; destruct ((r' <=? cyc) && out_ctrl_avail i); cbn; by rewrite ?F.
Qed.

(** ** The shift register *)

(** The queue of a register whose oldest cell leaves at cycle [c]. *)
Fixpoint queue_of (c : Z) (reg : list (option Z)) : list (Z * Z) :=
  match reg with
  | [] => []
  | Some x :: reg => (c, x) :: queue_of (c + 1) reg
  | None :: reg => queue_of (c + 1) reg
  end.

Lemma queue_of_snoc c reg x : queue_of c (reg ++ [x]) = enqueue (c + Z.of_nat (length reg)) x (queue_of c reg).
Proof.
  revert c. induction reg as [|[y|] reg IH]; intros c; cbn [app queue_of length].
  - destruct x; cbn; [by rewrite Z.add_0_r|done].
  - rewrite IH. replace (c + Z.of_nat (S (length reg))) with (c + 1 + Z.of_nat (length reg)) by lia. by destruct x.
  - rewrite IH. by replace (c + Z.of_nat (S (length reg))) with (c + 1 + Z.of_nat (length reg)) by lia.
Qed.

Lemma queue_of_later c c' reg : c' < c -> line_out c' true (queue_of c reg) = (None, queue_of c reg).
Proof.
  revert c. induction reg as [|[y|] reg IH]; intros c Hc; cbn; [done| |apply IH; lia].
  destruct (Z.leb_spec c c'); [lia|done].
Qed.

Lemma queue_of_out c x reg : line_out c true (queue_of c (x :: reg)) = (x, queue_of (c + 1) reg).
Proof. destruct x as [y|]; cbn; [by rewrite Z.leb_refl|]. apply queue_of_later. lia. Qed.

Lemma queue_of_none c n : queue_of c (replicate n None) = [].
Proof. revert c. induction n; intros c; cbn; [done|apply IHn]. Qed.

(** One cycle of a register. *)
Lemma shift_step c reg x : exists y reg', reg ++ [x] = y :: reg' /\
  line_out c true (enqueue (c + Z.of_nat (length reg)) x (queue_of c reg)) = (y, queue_of (c + 1) reg').
Proof.
  rewrite <- queue_of_snoc. destruct (reg ++ [x]) as [|y reg'] eqn:E; [by destruct reg|]. exists y, reg'. split; [done|]. apply queue_of_out.
Qed.

(** The two registers step by step with the unit. *)
Lemma delay_run `{Geometry} M s p cyc ins w reg creg :
  functional p -> ungrouped (g_d2d_links M) (link_idx p) ->
  lp_latency p = Z.of_nat (length reg) -> lp_latency p = Z.of_nat (length creg) ->
  fifo (wu w) = queue_of (cyc + 1) reg -> cfifo (wu w) = queue_of (cyc + 1) creg ->
  (forall i, i ∈ ins -> out_avail i = true /\ out_ctrl_avail i = true) ->
  exists os w', run_link M s p cyc ins w = Ok (os, w') /\
    (out_sent <$> os) = take (length ins) (reg ++ (in_sent <$> ins)) /\
    (out_ctrl_sent <$> os) = take (length ins) (creg ++ (in_ctrl_sent <$> ins)) /\
    fifo (wu w') = queue_of (cyc + Z.of_nat (length ins) + 1) (drop (length ins) (reg ++ (in_sent <$> ins))) /\
    cfifo (wu w') = queue_of (cyc + Z.of_nat (length ins) + 1) (drop (length ins) (creg ++ (in_ctrl_sent <$> ins))).
Proof.
  intros [Hb Hd] Hu. revert cyc w reg creg. induction ins as [|i ins IH]; intros cyc w reg creg Hl Hcl Hq Hc Hav; cbn [run_link].
  { exists [], w. cbn. rewrite !app_nil_r, Z.add_0_r. by rewrite !drop_0. }
  unfold forward. rewrite Hb, Hd. destruct (functional_total M p (cyc + 1) i w Hu) as (w1 & E & Hf). rewrite E. cbn [mbind result_bind].
  destruct (functional_step M p (cyc + 1) i w w1 E) as (go & _ & Hcf & _). destruct (Hav i (list_elem_of_here _ _)) as [Ha Hca].
  rewrite Ha, Hq, Hl in Hf. rewrite Hca, Hc, Hcl in Hcf.
  destruct (shift_step (cyc + 1) reg (in_sent i)) as (y & reg' & Er & Eo). rewrite Eo in Hf. injection Hf as Hy Hf.
  destruct (shift_step (cyc + 1) creg (in_ctrl_sent i)) as (cy & creg' & Ecr & Eco). rewrite Eco in Hcf. injection Hcf as Hcy Hcf.
  pose proof (f_equal length Er) as Lr. pose proof (f_equal length Ecr) as Lcr. rewrite length_app in Lr, Lcr. cbn in Lr, Lcr.
  destruct (IH (cyc + 1) w1 reg' creg') as (os & w' & -> & H1 & H2 & H3 & H4); [lia|lia|done|done|intros j Hj; apply Hav; by right|].
  exists (wo w1 :: os), w'. split; [done|]. cbn [fmap list_fmap length].
  replace (cyc + Z.of_nat (S (length ins)) + 1) with (cyc + 1 + Z.of_nat (length ins) + 1) by lia.
  rewrite !(cons_middle _ _ (_ <$> ins)), !(app_assoc _ [_]), Er, Ecr. cbn [app take drop]. unfold fmap in *. by rewrite H1, H2, H3, H4, Hy, Hcy.
Qed.

(** C21: while both receivers are ready, an ungrouped link in [functional_v2] mode is
    exactly a delay line of its latency on each of its two channels: the flit sent
    in a cycle is the one received [latency] cycles before, and there is none
    before the first.  The cycles never fail. *)
Theorem functional_delay_line `{Geometry} (M : machine) (s : bool) (p : link_params) (ins : list link_in) (o : link_out) (g : link_globals) :
  functional p -> ungrouped (g_d2d_links M) (link_idx p) -> 0 <= lp_latency p ->
  (forall i, i ∈ ins -> out_avail i = true /\ out_ctrl_avail i = true) ->
  exists os w', run_link M s p 0 ins (mkWorld initial_unit o g) = Ok (os, w') /\
    let delay (xs : list (option Z)) := take (length xs) (replicate (Z.to_nat (lp_latency p)) None ++ xs) in
    (out_sent <$> os) = delay (in_sent <$> ins) /\ (out_ctrl_sent <$> os) = delay (in_ctrl_sent <$> ins).
Proof.
  intros Hp Hu Hl Hav. destruct (delay_run M s p 0 ins (mkWorld initial_unit o g) (replicate (Z.to_nat (lp_latency p)) None)
    (replicate (Z.to_nat (lp_latency p)) None) Hp Hu) as (os & w' & E & H1 & H2 & _); try done; try by rewrite length_replicate; lia.
  1, 2: by rewrite queue_of_none.
  exists os, w'. split; [done|]. cbv beta zeta. by rewrite !length_fmap.
Qed.

(** ** Back pressure and group arbitration *)

(** A channel over consecutive cycles: what is sent, and whether it may deliver. *)
Fixpoint line_run (lat cyc : Z) (l : list (option Z * bool)) (q : list (Z * Z)) : list (option Z) * list (Z * Z) :=
  match l with
  | [] => ([], q)
  | (x, go) :: l =>
      let r := line_out (cyc + 1) go (enqueue (cyc + 1 + lat) x q) in
      let r' := line_run lat (cyc + 1) l r.2 in (r.1 :: r'.1, r'.2)
  end.

Lemma enqueue_app ready x q : enqueue ready x q = q ++ enqueue ready x [].
Proof. destruct x; cbn; [done|by rewrite app_nil_r]. Qed.

Lemma line_run_spec lat cyc l q : exists del, q ++ queue_of (cyc + 1 + lat) (fst <$> l) = del ++ (line_run lat cyc l q).2 /\
  snd <$> del = omap id (line_run lat cyc l q).1 /\ Forall (fun e => e.1 <= cyc + Z.of_nat (length l)) del.
Proof.
  revert cyc q. induction l as [|[x go] l IH]; intros cyc q; cbn [line_run].
  { exists []. cbn. by rewrite app_nil_r. }
  set (r := line_out _ _ _). destruct (IH (cyc + 1) r.2) as (del & E1 & E2 & E3).
  assert (exists d, enqueue (cyc + 1 + lat) x q = d ++ r.2 /\ snd <$> d = omap id [r.1] /\ Forall (fun e => e.1 <= cyc + 1) d) as (d & D1 & D2 & D3).
  { unfold r. destruct (enqueue _ _ _) as [|[ready y] q']; cbn; [by exists []|].
    destruct (Z.leb_spec ready (cyc + 1)); cbn; [|by exists []]. destruct go; [|by exists []].
    exists [(ready, y)]. cbn. split; [done|]. split; [done|]. by repeat constructor. }
  exists (d ++ del). rewrite enqueue_app in D1. split; [|split].
  - cbn [fst snd fmap list_fmap queue_of]. rewrite <- app_assoc, <- E1, app_assoc, <- D1, <- app_assoc. f_equal.
    replace (cyc + 1 + 1 + lat) with (cyc + 1 + lat + 1) by lia. by destruct x.
  - rewrite fmap_app, D2, E2. cbn. by destruct r.1.
  - apply Forall_app. cbn [length]. split; (eapply list.Forall_impl; [eassumption|]); intros e He; cbn beta in *; lia.
Qed.

Lemma line_run_take lat cyc l q n : (line_run lat cyc (take n l) q).1 = take n (line_run lat cyc l q).1.
Proof.
  revert cyc q n. induction l as [|[x go] l IH]; intros cyc q [|n]; cbn; [done..|]. by rewrite IH.
Qed.

Lemma queue_of_bounds c reg : Forall (fun e => c <= e.1) (queue_of c reg).
Proof.
  revert c. induction reg as [|[x|] reg IH]; intros c; cbn; [done|constructor; [cbn; lia|]|];
    (eapply list.Forall_impl; [apply IH|]); intros e He; cbn beta in *; lia.
Qed.

Lemma queue_of_take_drop c reg n : queue_of c reg = queue_of c (take n reg) ++ queue_of (c + Z.of_nat n) (drop n reg).
Proof.
  revert c n. induction reg as [|x reg IH]; intros c [|n]; cbn; try done; [by rewrite Z.add_0_r|].
  rewrite (IH (c + 1) n). replace (c + Z.of_nat (S n)) with (c + 1 + Z.of_nat n) by lia. by destruct x.
Qed.

Lemma queue_of_payloads c reg : snd <$> queue_of c reg = omap id reg.
Proof. revert c. induction reg as [|[x|] reg IH]; intros c; cbn; [done|f_equal; apply IH|apply IH]. Qed.

(** From the empty queue: in order, nothing lost, nothing early. *)
Lemma line_run_in_order lat l : 0 <= lat ->
  omap id (line_run lat 0 l []).1 ++ (snd <$> (line_run lat 0 l []).2) = omap id (fst <$> l) /\
  forall n, (n <= length l)%nat -> omap id (take n (line_run lat 0 l []).1) `prefix_of` omap id (take (n - Z.to_nat lat) (fst <$> l)).
Proof.
  intros Hl. split.
  - destruct (line_run_spec lat 0 l []) as (del & E1 & E2 & _). rewrite <- E2, <- fmap_app, <- E1. cbn. apply queue_of_payloads.
  - intros n Hn. rewrite <- line_run_take. destruct (line_run_spec lat 0 (take n l) []) as (del & E1 & E2 & E3).
    rewrite <- E2. cbn [app] in E1. rewrite (queue_of_take_drop _ _ (n - Z.to_nat lat)) in E1.
    rewrite fmap_take, take_take, Nat.min_l in E1 by lia. set (early := queue_of _ (take (n - Z.to_nat lat) (fst <$> l))) in *.
    assert (length del <= length early)%nat as Hlen.
    { destruct (Nat.le_gt_cases (length del) (length early)) as [|Hgt]; [done|]. exfalso.
      destruct (lookup_lt_is_Some_2 del (length early) Hgt) as [e He]. rewrite list.Forall_forall in E3.
      pose proof (E3 e (list_elem_of_lookup_2 _ _ _ He)) as Hle. rewrite length_take, Nat.min_l in Hle by lia.
      rewrite <- (lookup_app_l del (line_run lat 0 (take n l) []).2), <- E1 in He by lia. rewrite lookup_app_r, Nat.sub_diag in He by lia.
      pose proof (queue_of_bounds (0 + 1 + lat + Z.of_nat (n - Z.to_nat lat)) (drop (n - Z.to_nat lat) (take n (fst <$> l)))) as Hb.
      rewrite list.Forall_forall in Hb. pose proof (Hb e (list_elem_of_lookup_2 _ _ _ He)). lia. }
    apply (f_equal (take (length del))) in E1. rewrite take_app_length, take_app_le in E1 by done. rewrite <- E1, fmap_take.
    unfold early. rewrite queue_of_payloads. eexists. symmetry. apply take_drop.
Qed.

(** A functional run is a run of each channel, and of the probes of the data channel. *)
Definition probe_all (q : D2DDataProbe) (xs : list Z) : D2DDataProbe := foldl (fun q x => ProbeData q x 0) q xs.
(** A probe without its time stamps. *)
Definition untimed (q : D2DDataProbe) : D2DDataProbe :=
  mkProbe (pkts q) (seqhash q) (csum q) (minseq q) (maxseq q) (endseq q) (end_count q) (end_length q) (expect q) (inorder q) 0 0.

Lemma untimed_step q q' x c c' : untimed q = untimed q' -> untimed (ProbeData q x c) = untimed (ProbeData q' x c').
Proof.
  intros E. destruct q, q'. unfold untimed in E. cbn in E. injection E as -> -> -> -> -> -> -> -> -> ->.
  unfold ProbeData. destruct (counted_msg x) as [m|]; [|done]. by destruct (negb _).
Qed.

Lemma untimed_all q q' xs : untimed q = untimed q' -> untimed (probe_all q xs) = untimed (probe_all q' xs).
Proof. revert q q'. induction xs as [|x xs IH]; intros q q' E; cbn; [done|]. apply IH. by apply untimed_step. Qed.

Lemma functional_run `{Geometry} M s p cyc ins w os w' : functional p -> run_link M s p cyc ins w = Ok (os, w') -> exists ld lc,
  fst <$> ld = in_sent <$> ins /\ fst <$> lc = in_ctrl_sent <$> ins /\
  line_run (lp_latency p) cyc ld (fifo (wu w)) = (out_sent <$> os, fifo (wu w')) /\
  line_run (lp_latency p) cyc lc (cfifo (wu w)) = (out_ctrl_sent <$> os, cfifo (wu w')) /\
  untimed (g_data_in (gl_stats (wg w'))) = untimed (probe_all (g_data_in (gl_stats (wg w))) (omap in_sent ins)) /\
  untimed (g_data_out (gl_stats (wg w'))) = untimed (probe_all (g_data_out (gl_stats (wg w))) (omap out_sent os)).
Proof.
  intros [Hb Hd]. revert cyc w os. induction ins as [|i ins IH]; intros cyc w os; cbn [run_link].
  { intros [= <- <-]. exists [], []. split_and!; done. }
  unfold forward. rewrite Hb, Hd. intros H'. inv_ok. destruct r0 as [os2 w2]. cbn [fst snd] in *. destruct (IH (cyc + 1) r os2 Hr0) as (ld & lc & E1 & E2 & E3 & E4 & E5 & E6).
  destruct (functional_step M p (cyc + 1) i w r Hr) as (go & F & C & P1 & P2).
  exists ((in_sent i, out_avail i && go) :: ld), ((in_ctrl_sent i, out_ctrl_avail i) :: lc). cbn [line_run fmap list_fmap fst snd]. unfold fmap in *.
  rewrite E1, E2. split; [done|]. split; [done|]. rewrite <- F, <- C. cbn [fst snd]. rewrite E3, E4. split; [done|]. split; [done|].
  rewrite E5, E6, P1, P2. split; [destruct (in_sent i) eqn:Ei|destruct (out_sent (wo r)) eqn:Eo]; cbn; rewrite ?Ei, ?Eo; cbn; try done;
    by apply untimed_all, untimed_step.
Qed.

(** C22: in [functional_v2] mode, whatever the back pressure of the receivers and the
    grants of the link group, each channel delivers a prefix of what was sent, in
    order and no flit earlier than [latency] cycles after it was sent, and what
    was not delivered is in the queue.  Once the data queue is empty the probes of
    the two ends agree in every field but the times. *)
Theorem functional_lossless `{Geometry} (M : machine) (s : bool) (p : link_params) (ins : list link_in) (o : link_out) (g : link_globals)
    (os : list link_out) (w' : world) :
  functional p -> 0 <= lp_latency p -> untimed (g_data_in (gl_stats g)) = untimed (g_data_out (gl_stats g)) ->
  run_link M s p 0 ins (mkWorld initial_unit o g) = Ok (os, w') ->
  omap out_sent os ++ (snd <$> fifo (wu w')) = omap in_sent ins /\
  omap out_ctrl_sent os ++ (snd <$> cfifo (wu w')) = omap in_ctrl_sent ins /\
  (forall n, (n <= length ins)%nat ->
     omap out_sent (take n os) `prefix_of` omap in_sent (take (n - Z.to_nat (lp_latency p)) ins) /\
     omap out_ctrl_sent (take n os) `prefix_of` omap in_ctrl_sent (take (n - Z.to_nat (lp_latency p)) ins)) /\
  (fifo (wu w') = [] -> untimed (g_data_in (gl_stats (wg w'))) = untimed (g_data_out (gl_stats (wg w')))).
Proof.
  intros Hp Hl Hpr H'. destruct (functional_run M s p 0 ins _ os w' Hp H') as (ld & lc & E1 & E2 & E3 & E4 & E5 & E6).
  cbn [wu initial_unit queues fifo cfifo wg] in *.
  assert (forall A (f : A -> option Z) (l : list A), omap f l = omap id (f <$> l)) as Hom by (intros A f l; induction l as [|x l IHl]; cbn; [done|by rewrite IHl]).
  destruct (line_run_in_order (lp_latency p) ld Hl) as [D1 D2]. destruct (line_run_in_order (lp_latency p) lc Hl) as [C1 C2].
  rewrite E3 in D1, D2. rewrite E4 in C1, C2. rewrite E1 in D1, D2. rewrite E2 in C1, C2. cbn [fst snd] in *.
  assert (length ld = length ins) as L1 by (apply (f_equal length) in E1; by rewrite !length_fmap in E1).
  assert (length lc = length ins) as L2 by (apply (f_equal length) in E2; by rewrite !length_fmap in E2).
  rewrite L1 in D2. rewrite L2 in C2.
  split; [by rewrite (Hom _ out_sent), (Hom _ in_sent), D1|]. split; [by rewrite (Hom _ out_ctrl_sent), (Hom _ in_ctrl_sent), C1|]. split.
  - intros n Hn. rewrite (Hom _ out_sent), (Hom _ in_sent), (Hom _ out_ctrl_sent), (Hom _ in_ctrl_sent), !fmap_take. split; [by apply D2|by apply C2].
  - intros Hf. rewrite E5, E6. rewrite Hf in D1. cbn in D1. rewrite app_nil_r in D1. rewrite (Hom _ in_sent), (Hom _ out_sent), <- D1. by apply untimed_all.
Qed.

(** ** A memory response on a behavioural link *)

(** The flits of a memory response travel on the control channel.  A behavioural
    link counts such a flit as captured but does not put it into its table of
    events, so it is never delivered. *)
Theorem behavioral_drops_mem_response `{Geometry} (M : machine) (s : bool) (p : link_params) (cyc : Z) (i : link_in) (flit : Z) (w w' : world) :
  beh_enabled (behavioral p) = true -> in_sent i = None -> in_ctrl_sent i = Some flit -> IsMemWireFlit flit = true ->
  forward M s p cyc i w = Ok w' ->
  (exists gone, ctrl_events (wu w) = gone ++ ctrl_events (wu w')) /\ (exists gone, data_events (wu w) = gone ++ data_events (wu w')) /\
  g_in_pkts (gl_stats (wg w')) = g_in_pkts (gl_stats (wg w)) + 1.
Proof.
  intros Hb Hd Hc Hm. unfold forward. rewrite Hb. unfold forward_behavioral. rewrite Hd, Hc. cbn [when_some_ok mbind result_bind].
  unfold beh_capture_ctrl. rewrite Hm. cbn [mbind result_bind]. intros E. injection E as <-.
  set (w1 := on_globals _ _). assert (ctrl_events (wu w1) = ctrl_events (wu w) /\ data_events (wu w1) = data_events (wu w) /\
    g_in_pkts (gl_stats (wg w1)) = g_in_pkts (gl_stats (wg w)) + 1) as (<- & <- & <-) by done. clearbody w1.
  unfold beh_deliver_data. destruct (data_events (wu w1)) as [|[r x] l] eqn:D.
  - unfold beh_deliver_ctrl. cbn. destruct (ctrl_events (wu w1)) as [|[r' x'] l'] eqn:C; cbn; [rewrite C, D; by eauto using app_nil_l|].
    destruct ((r' <=? cyc) && _); cbn; rewrite ?C, ?D; split_and!; try done; try (by exists []). by exists [(r', x')].
  - destruct ((r <=? cyc) && _); unfold beh_deliver_ctrl; cbn; (destruct (ctrl_events (wu w1)) as [|[r' x'] l'] eqn:C; cbn;
      [rewrite ?C, ?D; split_and!; try done; try (by exists []); by exists [(r, x)]|]);
      destruct ((r' <=? cyc) && _); cbn; rewrite ?C, ?D; split_and!; try done; try (by exists []); try (by exists [(r, x)]); by exists [(r', x')].
Qed.

(** ** Witnesses *)

Definition demo_params (lat : Z) : link_params := mkParams lat 0 no_bound no_beh.
Definition demo_globals : link_globals :=
  mkGlobals (reset_link_stats demo_table demo_links) ∅ (mkSaf [] ∅ ∅ ∅ 0 0) v5_initial ∅ (mkBehStats 0 0 0 0) 0.
Definition demo_inputs : list link_in := (fun x => mkIn x None true true) <$> [Some 5; None; Some 6; Some 7; None; None; None].

Lemma functional_delay_line_witness : exists os w',
  @run_link demo_geometry demo_machine false (demo_params 2) 0 demo_inputs (mkWorld initial_unit initial_out demo_globals) = Ok (os, w') /\
  (out_sent <$> os) = [None; None; Some 5; None; Some 6; Some 7; None].
Proof.
  destruct (@functional_delay_line demo_geometry demo_machine false (demo_params 2) demo_inputs initial_out demo_globals) as (os & w' & E & H & _).
  - by split.
  - right; right. vm_compute. reflexivity.
  - cbn. lia.
  - intros i Hi. apply list_elem_of_fmap in Hi as (x & -> & _). by split.
  - exists os, w'. split; [exact E|]. rewrite H. reflexivity.
Defined.

Lemma functional_lossless_witness : match @run_link demo_geometry demo_machine false (demo_params 2) 0 demo_inputs
    (mkWorld initial_unit initial_out demo_globals) with
  | Ok (os, w') => omap out_sent os ++ (snd <$> fifo (wu w')) = [5; 6; 7]
  | Err _ => False end.
Proof.
  destruct (run_link _ _ _ _ _ _) as [[os w']|e] eqn:E; [|vm_compute in E; discriminate E].
  destruct (@functional_lossless demo_geometry demo_machine false (demo_params 2) demo_inputs initial_out demo_globals os w') as (H & _);
    [by split|cbn; lia|reflexivity|exact E|]. rewrite H. reflexivity.
Defined.
