(* ===== verification/D2DSaf.v ===== *)
(** The production pipeline of a link ([forward_bounded_saf] of
    [src/die/d2d_link.cpp]): the SAF stage stores each flow until it is complete
    and releases it in one burst; with the reservations of [SafAdmission] none of
    its exceptions can occur. *)

From S2P Require Import Prelude MsgWire D2DConfig DieTopology PortSelect HostAttach HbmMemWire Routing.
From S2P Require Import SafAdmission LinkGroup Behavioral D2DStats D2DLink D2DLine.

(** ** The flow of a flit *)

Definition flow_of (x : Z) : option FlowKey := flow_key <$> counted_msg x.
Definition is_tail (x : Z) : bool := match counted_msg x with Some m => is_end_ m | None => false end.
Definition of_flow (k : FlowKey) (xs : list Z) : list Z := List.filter (fun x => bool_decide (flow_of x = Some k)) xs.
Definition mem_flits (xs : list Z) : list Z := List.filter IsMemWireFlit xs.
Definition msg_flits (xs : list Z) : list Z := List.filter (fun x => negb (IsMemWireFlit x)) xs.

Lemma of_flow_app k xs ys : of_flow k (xs ++ ys) = of_flow k xs ++ of_flow k ys.
Proof. apply List.filter_app. Qed.
Lemma mem_flits_app xs ys : mem_flits (xs ++ ys) = mem_flits xs ++ mem_flits ys.
Proof. apply List.filter_app. Qed.
Lemma data_flits_app xs ys : msg_flits (xs ++ ys) = msg_flits xs ++ msg_flits ys.
Proof. apply List.filter_app. Qed.

Lemma of_flow_one k x : of_flow k [x] = if decide (flow_of x = Some k) then [x] else [].
Proof. unfold of_flow. cbn. by repeat case_decide || case_bool_decide. Qed.
Lemma flow_of_mem x k : flow_of x = Some k -> IsMemWireFlit x = false.
Proof. unfold flow_of, counted_msg. by destruct (IsMemWireFlit x). Qed.
Lemma of_flow_mem k x : IsMemWireFlit x = true -> of_flow k [x] = [].
Proof. intros Hm. rewrite of_flow_one, decide_False; [done|]. intros E%flow_of_mem. congruence. Qed.

(** ** The stage *)

Definition empty_stage : saf_stage := mkStage ∅ ∅ [] [].

Inductive stage_event : Type := Announced (x : Z) | Stored (x : Z) | Launched (x : Z).
Definition stored (tr : list stage_event) : list Z := omap (fun e => match e with Stored x => Some x | _ => None end) tr.
Definition launched (tr : list stage_event) : list Z := omap (fun e => match e with Launched x => Some x | _ => None end) tr.

Section stage.
Context `{G : Geometry} (M : machine) (p : link_params).
Local Notation depth := (saf_depth (bound p)).

(** The operations on the stage from its start, in any order. *)
Inductive stage_trace : list stage_event -> saf_stage -> Prop :=
  | trace_start : stage_trace [] empty_stage
  | trace_announce tr s x s' : stage_trace tr s -> saf_announce p x s = Ok s' -> stage_trace (tr ++ [Announced x]) s'
  | trace_store tr s x s' : stage_trace tr s -> saf_store p x s = Ok s' -> stage_trace (tr ++ [Stored x]) s'
  | trace_launch tr s g x s' g' : stage_trace tr s -> saf_pop M p s g = Ok (x, s', g') -> stage_trace (tr ++ [Launched x]) s'.

(** What the three operations do when they succeed. *)
Lemma saf_announce_inv x s s' : saf_announce p x s = Ok s' -> s' = s \/ exists m,
  counted_msg x = Some m /\ msg_type_ m = REQUEST /\ 0 < flow_packets_ m <= depth /\
  saf_expected s !! flow_key m = None /\ saf_flows s !! flow_key m = None /\
  s' = mkStage (<[flow_key m := flow_packets_ m]> (saf_expected s)) (saf_flows s) (saf_ready s) (mem_saf_fifo s).
Proof using.
  unfold saf_announce. destruct (counted_msg x) as [m|]; [|intros [= ->]; by left].
  case_bool_decide as Hr; [|intros [= ->]; by left]. cbn [negb]. intros E. inv_ok. right. exists m. split_guards.
  repeat match goal with Hb : bool_decide (is_Some _) = false |- _ => apply bool_decide_eq_false in Hb; apply eq_None_not_Some in Hb end.
  split_and!; done || lia.
Qed.

Lemma saf_store_inv x s s' : saf_store p x s = Ok s' -> SafOccupied s < depth /\
  ((IsMemWireFlit x = true /\ s' = mkStage (saf_expected s) (saf_flows s) (saf_ready s) (mem_saf_fifo s ++ [x])) \/
   exists m n, counted_msg x = Some m /\ msg_type_ m = DATA /\ saf_expected s !! flow_key m = Some n /\
     let f := default new_flow_buffer (saf_flows s !! flow_key m) in
     let e := if expected f =? 0 then n else expected f in
     complete f = false /\ Z.of_nat (length (flow_packets f)) + 1 <= e /\
     (is_end_ m = true -> Z.of_nat (length (flow_packets f)) + 1 = e /\ seq_id_ m = e) /\
     s' = mkStage (saf_expected s) (<[flow_key m := mkFlowBuf e (is_end_ m) (flow_packets f ++ [x])]> (saf_flows s))
            (if is_end_ m then saf_ready s ++ [flow_key m] else saf_ready s) (mem_saf_fifo s)).
Proof using.
  unfold saf_store. intros E. apply throw_bind_ok in E as [Hd E]. split_guards. split; [done|].
  destruct (IsMemWireFlit x) eqn:Hm; [left; by simplify_eq|]. right.
  destruct (DeserializeMsg x) as [m|] eqn:Ed; [|done]. apply throw_bind_ok in E as [Ht E]. cbv zeta in E.
  destruct (saf_expected s !! flow_key m) as [n|] eqn:En; [|done]. inv_ok. exists m, n. unfold counted_msg. rewrite Hm.
  rewrite length_app in *. cbn [length] in *. split_guards. apply bool_decide_eq_true in Ht. cbv zeta. split_and!; try done; try lia.
  intros He. rewrite He in Hguard1. cbn [andb] in Hguard1. split_guards. split; lia.
Qed.

Lemma saf_pop_inv s g x s' g' : saf_pop M p s g = Ok (x, s', g') ->
  (exists q, mem_saf_fifo s = x :: q /\ g' = g /\ s' = mkStage (saf_expected s) (saf_flows s) (saf_ready s) q) \/
  (exists k r f ps, mem_saf_fifo s = [] /\ saf_ready s = k :: r /\ saf_flows s !! k = Some f /\ flow_packets f = x :: ps /\
    complete f = true /\
    ((ps = [] /\ s' = mkStage (delete k (saf_expected s)) (delete k (saf_flows s)) r [] /\
      exists saf, ReleaseWholeFlowSafLink (g_d2d_cfg M) (g_d2d_links M) (gl_saf g) (link_idx p) k (expected f) = Ok saf /\ g' = put_saf saf g) \/
     (ps <> [] /\ g' = g /\ s' = mkStage (saf_expected s) (<[k := mkFlowBuf (expected f) true ps]> (saf_flows s)) (saf_ready s) []))).
Proof using.
  unfold saf_pop. destruct (mem_saf_fifo s) as [|y q] eqn:Em; [|intros [= -> <- <-]; left; by exists q].
  destruct (saf_ready s) as [|k r] eqn:Er; [done|]. destruct (saf_flows s !! k) as [f|] eqn:Ef; [|done].
  destruct (flow_packets f) as [|y ps] eqn:Ep; [done|]. intros E. apply throw_bind_ok in E as [Hc E]. apply negb_false_iff in Hc.
  right. case_bool_decide as Hps.
  - apply bind_ok in E as (saf & Hs & E). injection E as <- <- <-. exists k, r, f, ps. split_and!; try done. left. split; [done|]. split; [done|]. by exists saf.
  - injection E as <- <- <-. exists k, r, f, ps. rewrite Hc. split_and!; try done. right. by split_and!.
Qed.

(** *** The shape of the stage *)

Record flow_wf (k : FlowKey) (f : SafFlowBuffer) : Prop := {
  fw_length : 0 < Z.of_nat (length (flow_packets f)) <= expected f;
  fw_packets : forall x, x ∈ flow_packets f -> flow_of x = Some k;
  fw_tail : if complete f then exists ps x, flow_packets f = ps ++ [x] /\ is_tail x = true /\ Forall (fun y => is_tail y = false) ps
            else Forall (fun y => is_tail y = false) (flow_packets f)
}.

Record stage_wf (s : saf_stage) : Prop := {
  sg_flow : forall k f, saf_flows s !! k = Some f -> saf_expected s !! k = Some (expected f) /\ flow_wf k f;
  sg_expected : forall k n, saf_expected s !! k = Some n -> 0 < n <= depth;
  sg_nodup : NoDup (saf_ready s);
  sg_ready : forall k, k ∈ saf_ready s <-> exists f, saf_flows s !! k = Some f /\ complete f = true
}.

Lemma empty_stage_wf : stage_wf empty_stage.
Proof using.
  split; cbn; [intros k f; by rewrite lookup_empty|intros k n; by rewrite lookup_empty|constructor|].
  intros k. rewrite lookup_empty, elem_of_nil. naive_solver.
Qed.

Lemma saf_announce_wf x s s' : stage_wf s -> saf_announce p x s = Ok s' -> stage_wf s'.
Proof using.
  intros Hs [->|(m & _ & _ & Hn & Hne & Hnf & ->)]%saf_announce_inv; [done|]. split; cbn.
  - intros k f Hf. destruct (sg_flow _ Hs k f Hf) as [He Hw]. split; [|done]. rewrite lookup_insert_ne; [done|]. intros <-. congruence.
  - intros k n [[_ <-]|[_ Hk]]%lookup_insert_Some; [done|by eapply sg_expected].
  - apply Hs.
  - apply (sg_ready _ Hs).
Qed.

Lemma saf_store_wf x s s' : stage_wf s -> saf_store p x s = Ok s' -> stage_wf s'.
Proof using.
  intros Hs [_ [[_ ->]|(m & n & Hm & Ht & Hn & Hc & Hl & He & ->)]]%saf_store_inv; [by destruct Hs|]. cbv zeta in *.
  set (k := flow_key m) in *. set (f := default new_flow_buffer (saf_flows s !! k)) in *.
  assert (expected f = 0 /\ flow_packets f = [] /\ saf_flows s !! k = None \/ expected f = n /\ flow_wf k f /\ saf_flows s !! k = Some f) as Hf.
  { unfold f. destruct (saf_flows s !! k) as [f0|] eqn:Ef; cbn; [right|by left]. destruct (sg_flow _ Hs k f0 Ef) as [Hx Hw].
    rewrite Hn in Hx. by injection Hx as ->. }
  set (e := if expected f =? 0 then n else expected f) in *.
  assert (e = n) as En.
  { unfold e. destruct Hf as [(-> & _)|(-> & _)]; [done|]. by destruct (n =? 0). }
  assert (Forall (fun y => is_tail y = false) (flow_packets f) /\ forall y, y ∈ flow_packets f -> flow_of y = Some k) as [Hopen Hkeys].
  { destruct Hf as [(_ & -> & _)|(_ & Hw & _)]; [split; [done|intros y Hy; by apply elem_of_nil in Hy]|].
    pose proof (fw_tail _ _ Hw) as Htl. rewrite Hc in Htl. split; [done|apply Hw]. }
  assert (flow_of x = Some k) as Hk by (unfold flow_of; by rewrite Hm).
  assert (k ∉ saf_ready s) as Hnr.
  { intros (f0 & Ef & Hc')%(sg_ready _ Hs). unfold f in Hc. rewrite Ef in Hc. cbn in Hc. congruence. }
  split; cbn.
  - intros k' f'. intros [[<- <-]|[Hne Hf']]%lookup_insert_Some; [|by apply (sg_flow _ Hs)]. cbn. rewrite En. split; [done|]. split; cbn.
    + rewrite length_app. cbn. lia.
    + intros y [Hy| ->%list_elem_of_singleton]%elem_of_app; [by apply Hkeys|done].
    + assert (is_tail x = is_end_ m) as Hx by (unfold is_tail; by rewrite Hm). destruct (is_end_ m).
      * exists (flow_packets f), x. by rewrite Hx.
      * apply Forall_app. split; [done|]. by constructor.
  - apply (sg_expected _ Hs).
  - destruct (is_end_ m); [|apply Hs]. apply list.NoDup_app. split; [apply Hs|]. split; [|apply NoDup_singleton].
    intros y Hy ->%list_elem_of_singleton. done.
  - intros k'. destruct (decide (k' = k)) as [->|Hne].
    + rewrite lookup_insert_eq. destruct (is_end_ m) eqn:Em.
      * split; [|intros _; apply elem_of_app; right; left]. intros _. eexists. by split.
      * split; [by intros ?|]. intros (f' & [= <-] & Hc'). done.
    + rewrite lookup_insert_ne by done. rewrite <- (sg_ready _ Hs). destruct (is_end_ m); [|done].
      rewrite elem_of_app, list_elem_of_singleton. naive_solver.
Qed.

Lemma saf_pop_wf s g x s' g' : stage_wf s -> saf_pop M p s g = Ok (x, s', g') -> stage_wf s'.
Proof using.
  intros Hs [(q & Hq & _ & ->)|(k & r & f & ps & Hq & Hr & Hf & Hp & Hc & H)]%saf_pop_inv; [by destruct Hs|].
  pose proof (sg_nodup _ Hs) as Hnd. rewrite Hr in Hnd. apply list.NoDup_cons in Hnd as [Hnk Hnd].
  destruct (sg_flow _ Hs k f Hf) as [He Hw]. destruct H as [(-> & -> & _)|(Hps & _ & ->)]; split; cbn.
  - intros k' f' [Hne Hf']%lookup_delete_Some. destruct (sg_flow _ Hs k' f' Hf') as [He' Hw']. split; [|done]. by rewrite lookup_delete_ne.
  - intros k' n [_ Hn]%lookup_delete_Some. by eapply sg_expected.
  - done.
  - intros k'. destruct (decide (k' = k)) as [->|Hne].
    + rewrite lookup_delete_eq. split; [done|]. intros (f' & [=] & _).
    + rewrite lookup_delete_ne by done. rewrite <- (sg_ready _ Hs), Hr, elem_of_cons. naive_solver.
  - intros k' f' [[<- <-]|[Hne Hf']]%lookup_insert_Some; [|by apply (sg_flow _ Hs)]. cbn. split; [done|].
    pose proof (fw_length _ _ Hw) as Hl. rewrite Hp in Hl. cbn in Hl. split; cbn.
    + destruct ps; [done|cbn in *; lia].
    + intros y Hy. apply (fw_packets _ _ Hw). rewrite Hp. by right.
    + pose proof (fw_tail _ _ Hw) as Ht. rewrite Hc, Hp in Ht. destruct Ht as ([|z zs] & y & E & Hy & Hz); cbn in E; injection E as -> ->; [done|].
      exists zs, y. apply list.Forall_cons in Hz as [_ Hz]. done.
  - apply (sg_expected _ Hs).
  - apply Hs.
  - intros k'. destruct (decide (k' = k)) as [->|Hne].
    + rewrite lookup_insert_eq, Hr. split; [|intros _; left]. intros _. eexists. by split.
    + rewrite lookup_insert_ne by done. apply (sg_ready _ Hs).
Qed.

(** *** What has gone in and what has come out *)

Definition packets_of (s : saf_stage) (k : FlowKey) : list Z := default [] (flow_packets <$> saf_flows s !! k).

(** Two consecutive packets belong to one flow unless the first is a tail. *)
Definition bursts (xs : list Z) : Prop :=
  forall j x y, xs !! j = Some x -> xs !! S j = Some y -> is_tail x = true \/ flow_of x = flow_of y.

Lemma bursts_snoc xs x : bursts xs -> (forall y, list.last xs = Some y -> is_tail y = true \/ flow_of y = flow_of x) -> bursts (xs ++ [x]).
Proof using.
  intros Hb Hx j y z Hy Hz. destruct (decide (S j < length xs)%nat) as [Hj|Hj].
  - rewrite lookup_app_l in Hy, Hz by lia. by apply (Hb j).
  - apply lookup_lt_Some in Hz as Hlt. rewrite length_app in Hlt. cbn in Hlt. assert (S j = length xs) as Hj' by lia.
    rewrite lookup_app_r, Hj', Nat.sub_diag in Hz by lia. cbn in Hz. injection Hz as <-.
    rewrite lookup_app_l in Hy by lia. apply Hx. rewrite last_lookup, <- Hj'. done.
Qed.

Record trace_inv (tr : list stage_event) (s : saf_stage) : Prop := {
  ti_wf : stage_wf s;
  ti_flow : forall k, of_flow k (stored tr) = of_flow k (launched tr) ++ packets_of s k;
  ti_mem : mem_flits (stored tr) = mem_flits (launched tr) ++ mem_saf_fifo s;
  ti_mem_fifo : Forall (fun x => IsMemWireFlit x = true) (mem_saf_fifo s);
  ti_complete : forall k j x, of_flow k (launched tr) !! j = Some x ->
    exists j' y, (j <= j')%nat /\ of_flow k (stored tr) !! j' = Some y /\ is_tail y = true;
  ti_burst : bursts (msg_flits (launched tr));
  ti_open : forall x, list.last (msg_flits (launched tr)) = Some x -> is_tail x = false ->
    exists k, flow_of x = Some k /\ head (saf_ready s) = Some k;
  ti_kinds : forall x, x ∈ stored tr -> IsMemWireFlit x = true \/ is_Some (flow_of x)
}.

Lemma stored_app tr e : stored (tr ++ [e]) = stored tr ++ match e with Stored x => [x] | _ => [] end.
Proof using. unfold stored. rewrite omap_app. by destruct e. Qed.
Lemma launched_app tr e : launched (tr ++ [e]) = launched tr ++ match e with Launched x => [x] | _ => [] end.
Proof using. unfold launched. rewrite omap_app. by destruct e. Qed.

Lemma trace_inv_announce tr s x s' : trace_inv tr s -> saf_announce p x s = Ok s' -> trace_inv (tr ++ [Announced x]) s'.
Proof using.
  intros Ht E. pose proof (saf_announce_wf x s s' (ti_wf _ _ Ht) E) as Hw. apply saf_announce_inv in E.
  assert (saf_flows s' = saf_flows s /\ mem_saf_fifo s' = mem_saf_fifo s /\ saf_ready s' = saf_ready s) as (Ef & Em & Er)
    by by destruct E as [->|(m & _ & _ & _ & _ & _ & ->)].
  destruct Ht. split; rewrite ?stored_app, ?launched_app, ?app_nil_r, ?Em, ?Er; try done. intros k. unfold packets_of. by rewrite Ef.
Qed.

Lemma trace_inv_store tr s x s' : trace_inv tr s -> saf_store p x s = Ok s' -> trace_inv (tr ++ [Stored x]) s'.
Proof using.
  intros Ht E. pose proof (saf_store_wf x s s' (ti_wf _ _ Ht) E) as Hw. apply saf_store_inv in E as [_ E].
  assert (forall k j y, of_flow k (launched tr) !! j = Some y ->
    exists j' z, (j <= j')%nat /\ of_flow k (stored tr ++ [x]) !! j' = Some z /\ is_tail z = true) as Hcomp.
  { intros k j y Hy. destruct (ti_complete _ _ Ht k j y Hy) as (j' & z & Hj & Hz & Htl). exists j', z.
    rewrite of_flow_app, lookup_app_l by (by eapply lookup_lt_Some). done. }
  destruct E as [[Hm ->]|(m & n & Hm & _ & _ & Hc & _ & _ & ->)]; split; rewrite ?stored_app, ?launched_app, ?app_nil_r; cbn [saf_ready mem_saf_fifo];
    try done; try (by apply Ht).
  - intros k. rewrite of_flow_app, (of_flow_mem k x Hm), app_nil_r. apply (ti_flow _ _ Ht).
  - rewrite mem_flits_app, (ti_mem _ _ Ht), <- app_assoc. f_equal. cbn. by rewrite Hm.
  - apply Forall_app. split; [apply Ht|by constructor].
  - intros y [Hy| ->%list_elem_of_singleton]%elem_of_app; [by apply (ti_kinds _ _ Ht)|by left].
  - cbv zeta in *. intros k. rewrite of_flow_app, of_flow_one, (ti_flow _ _ Ht), <- app_assoc. f_equal. unfold packets_of, flow_of. cbn [saf_flows]. rewrite Hm. cbn.
    case_decide as Ek; [injection Ek as <-; rewrite lookup_insert_eq; cbn; by destruct (saf_flows s !! flow_key m)|].
    rewrite lookup_insert_ne by congruence. by rewrite app_nil_r.
  - cbv zeta in *. rewrite mem_flits_app, (ti_mem _ _ Ht). unfold counted_msg in Hm. cbn. destruct (IsMemWireFlit x); [done|]. by rewrite app_nil_r.
  - cbv zeta in *. intros y Hy Hyt. destruct (ti_open _ _ Ht y Hy Hyt) as (k & Hk & Hh). exists k. split; [done|].
    destruct (is_end_ m); [|done]. by destruct (saf_ready s).
  - intros y [Hy| ->%list_elem_of_singleton]%elem_of_app; [by apply (ti_kinds _ _ Ht)|right; unfold flow_of; by rewrite Hm].
Qed.

Lemma trace_inv_launch tr s g x s' g' : trace_inv tr s -> saf_pop M p s g = Ok (x, s', g') -> trace_inv (tr ++ [Launched x]) s'.
Proof using.
  intros Ht E. pose proof (saf_pop_wf s g x s' g' (ti_wf _ _ Ht) E) as Hw. apply saf_pop_inv in E.
  destruct E as [(q & Hq & _ & ->)|(k & r & f & ps & Hq & Hr & Hf & Hp & Hc & H)].
  - pose proof (ti_mem_fifo _ _ Ht) as Hmm. rewrite Hq in Hmm. apply list.Forall_cons in Hmm as [Hm Hmm].
    split; rewrite ?stored_app, ?launched_app, ?app_nil_r; cbn [saf_ready mem_saf_fifo]; try done; try (by apply Ht).
    + intros k. rewrite of_flow_app, (of_flow_mem k x Hm), app_nil_r. apply (ti_flow _ _ Ht).
    + rewrite mem_flits_app, (ti_mem _ _ Ht), Hq, <- app_assoc. cbn. by rewrite Hm.
    + intros k j y. rewrite of_flow_app, (of_flow_mem k x Hm), app_nil_r. apply (ti_complete _ _ Ht).
    + rewrite data_flits_app. cbn. rewrite Hm. cbn. rewrite app_nil_r. apply Ht.
    + intros y. rewrite data_flits_app. cbn. rewrite Hm. cbn. rewrite app_nil_r. apply (ti_open _ _ Ht).
  - destruct (sg_flow _ (ti_wf _ _ Ht) k f Hf) as [_ Hfw].
    assert (flow_of x = Some k) as Hk by (apply (fw_packets _ _ Hfw); rewrite Hp; left).
    pose proof (flow_of_mem x k Hk) as Hnm.
    pose proof (fw_tail _ _ Hfw) as Htl. rewrite Hc, Hp in Htl.
    assert (packets_of s k = x :: ps) as Hpk by (unfold packets_of; by rewrite Hf; cbn; rewrite Hp).
    assert (forall k', packets_of s k' = (if decide (k' = k) then [x] else []) ++ packets_of s' k') as Hpk'.
    { intros k'. unfold packets_of in *. destruct H as [(-> & -> & _)|(_ & _ & ->)]; cbn [saf_flows]; case_decide as Ek; subst.
      - by rewrite lookup_delete_eq, Hpk.
      - by rewrite lookup_delete_ne.
      - by rewrite lookup_insert_eq, Hpk.
      - by rewrite lookup_insert_ne. }
    assert (mem_saf_fifo s' = []) as Hmf by by destruct H as [(_ & -> & _)|(_ & _ & ->)].
    split; rewrite ?stored_app, ?launched_app, ?app_nil_r, ?Hmf; try done; try (by apply Ht).
    + intros k'. rewrite of_flow_app, of_flow_one, (ti_flow _ _ Ht), Hpk', <- app_assoc. f_equal. f_equal. rewrite Hk. by repeat case_decide; simplify_eq.
    + rewrite mem_flits_app, (ti_mem _ _ Ht), Hq, !app_nil_r. cbn. rewrite Hnm. by rewrite app_nil_r.
    + intros k' j y. rewrite of_flow_app, of_flow_one, Hk. case_decide as Ek; [injection Ek as <-|rewrite app_nil_r; apply (ti_complete _ _ Ht)].
      intros Hj. destruct Htl as (zs & z & Ez & Hz & _). pose proof (ti_flow _ _ Ht k) as Hfl. rewrite Hpk, Ez in Hfl.
      exists (length (of_flow k (launched tr)) + length zs)%nat, z. split.
      * apply lookup_lt_Some in Hj. rewrite length_app in Hj. cbn in Hj. destruct zs; cbn in *; lia.
      * split; [|done]. rewrite Hfl, lookup_app_r, lookup_app_r by lia. by replace (_ + _ - _ - _)%nat with 0%nat by lia.
    + rewrite data_flits_app. cbn. rewrite Hnm. cbn. apply bursts_snoc; [apply Ht|]. intros y Hy. destruct (is_tail y) eqn:Hyt; [by left|right].
      destruct (ti_open _ _ Ht y Hy Hyt) as (k' & Hk' & Hh). rewrite Hr in Hh. cbn in Hh. congruence.
    + intros y. rewrite data_flits_app. cbn. rewrite Hnm. cbn. rewrite last_snoc. intros [= <-] Hxt. exists k. split; [done|].
      destruct H as [(-> & _)|(_ & _ & ->)]; [|cbn; by rewrite Hr]. exfalso. destruct Htl as ([|z zs] & y & E & Hy & _); cbn in E; [injection E as ->; congruence|by destruct zs].
Qed.

Lemma stage_trace_inv tr s : stage_trace tr s -> trace_inv tr s.
Proof using.
  induction 1 as [|tr s x s' _ IH E|tr s x s' _ IH E|tr s g x s' g' _ IH E].
  - split; try done.
    + apply empty_stage_wf.
    + intros x Hx. by apply elem_of_nil in Hx.
  - by eapply trace_inv_announce.
  - by eapply trace_inv_store.
  - by eapply trace_inv_launch.
Qed.
End stage.

(** ** The pipeline *)

Definition pipeline (p : link_params) : Prop :=
  beh_enabled (behavioral p) = false /\ b_enabled (bound p) = true /\ whole_flow_saf (bound p) = true.

(** The flits on the link and in RX, first out first. *)
Definition on_line (u : link_unit) : list Z := rx_fifo u ++ (snd <$> fifo u).
Definition opt_list {A} (x : option A) : list A := match x with Some a => [a] | None => [] end.

Section cycle_trace.
Context `{G : Geometry} (M : machine) (p : link_params).

Lemma saf_receive_spec avail w : let w' := saf_receive avail w in
  stage (wu w') = stage (wu w) /\ opt_list (out_sent (wo w')) ++ on_line (wu w') = on_line (wu w) /\ wg w' = wg w \/
  stage (wu w') = stage (wu w) /\ opt_list (out_sent (wo w')) ++ on_line (wu w') = on_line (wu w) /\ wg w' = progress (wg w).
Proof using.
  unfold saf_receive, on_line. destruct (rx_fifo (wu w)) as [|x q] eqn:E; [left; cbn; by rewrite E|].
  destruct avail; [right|left]; cbn; by rewrite ?E.
Qed.

Lemma saf_arrive_spec cyc w : let w' := saf_arrive p cyc w in
  stage (wu w') = stage (wu w) /\ on_line (wu w') = on_line (wu w) /\ wo w' = wo w /\ gl_saf (wg w') = gl_saf (wg w) /\ gl_arbs (wg w') = gl_arbs (wg w).
Proof using.
  unfold saf_arrive, on_line. destruct (fifo (wu w)) as [|[r x] q] eqn:E; [by rewrite E|].
  destruct (negb _); [by rewrite E|]. destruct (_ <? _); cbn; [|by rewrite E]. by rewrite <- app_assoc.
Qed.

(** Injection pops the stage once, or does nothing to it. *)
Lemma saf_inject_inv cyc w w' : saf_inject M p cyc w = Ok w' -> wo w' = wo w /\ stage (wu w') = stage (wu w) /\ on_line (wu w') = on_line (wu w) \/
  exists x s g g', saf_pop M p (stage (wu w)) g = Ok (x, s, g') /\ stage (wu w') = s /\ on_line (wu w') = on_line (wu w) ++ [x] /\
    out_sent (wo w') = out_sent (wo w).
Proof using.
  unfold saf_inject, group_grant. cbv zeta. intros E. apply bind_ok in E as ([go w1] & Hg & E). apply bind_ok in Hg as (r & _ & Hg). injection Hg as <- <-.
  apply bind_ok in E as (w2 & Hw2 & E). injection E as <-. destruct (_ && r.1).
  - right. apply bind_ok in Hw2 as ([[x s] g'] & Hpop & Hw2). injection Hw2 as <-. cbn in Hpop.
    exists x, s, (put_arbs r.2 (wg w)), g'. split; [exact Hpop|]. split; [done|]. split; [|done].
    unfold on_line. cbn. by rewrite fmap_app, app_assoc.
  - left. by injection Hw2 as <-.
Qed.

Lemma saf_deliver_ctrl_spec cyc avail w : let w' := saf_deliver_ctrl p cyc avail w in
  stage (wu w') = stage (wu w) /\ on_line (wu w') = on_line (wu w) /\ out_sent (wo w') = out_sent (wo w) /\ gl_saf (wg w') = gl_saf (wg w).
Proof using.
  unfold saf_deliver_ctrl, deliver_ctrl. destruct (_ && _); [|done]. cbn. destruct (cfifo (wu w)) as [|[r x] q]; by cbn.
Qed.

Definition announced_event (x : option Z) : list stage_event := Announced <$> opt_list x.
Definition stored_event (x : option Z) : list stage_event := Stored <$> opt_list x.

Lemma cycle_trace cyc i w w' tr : forward_bounded_saf M p cyc i w = Ok w' -> stage_trace M p tr (stage (wu w)) -> exists l,
  stage_trace M p (tr ++ (Launched <$> l) ++ announced_event (in_ctrl_sent i) ++ stored_event (in_sent i)) (stage (wu w')) /\
  opt_list (out_sent (wo w')) ++ on_line (wu w') = on_line (wu w) ++ l.
Proof using.
  unfold forward_bounded_saf. intros E Ht. apply bind_ok in E as (w1 & E1 & E). apply bind_ok in E as (w3 & E3 & E). apply bind_ok in E as (w4 & E4 & E).
  injection E as <-. set (w0 := saf_arrive p cyc (saf_receive (out_avail i) (saf_begin p w))) in *.
  assert (stage (wu w0) = stage (wu w) /\ opt_list (out_sent (wo w0)) ++ on_line (wu w0) = on_line (wu w)) as [S0 L0].
  { destruct (saf_arrive_spec cyc (saf_receive (out_avail i) (saf_begin p w))) as (S & L & O & _). fold w0 in S, L, O. rewrite S, L, O.
    by destruct (saf_receive_spec (out_avail i) (saf_begin p w)) as [(-> & -> & _)|(-> & -> & _)]. }
  clearbody w0.
  assert (exists l, stage_trace M p (tr ++ (Launched <$> l)) (stage (wu w1)) /\ opt_list (out_sent (wo w1)) ++ on_line (wu w1) = on_line (wu w) ++ l)
    as (l & T1 & L1).
  { destruct (saf_inject_inv cyc w0 w1 E1) as [(O & S & L)|(x & s & g & g' & Hpop & S & L & O)].
    - exists []. rewrite app_nil_r, S, S0, O, L, L0. by rewrite app_nil_r.
    - exists [x]. rewrite S, O, L, app_assoc, L0. split; [|done]. cbn. rewrite S0 in Hpop. by eapply trace_launch. }
  destruct (saf_deliver_ctrl_spec cyc (out_ctrl_avail i) w1) as (S2 & L2 & O2 & _). set (w2 := saf_deliver_ctrl _ _ _ w1) in *. clearbody w2.
  rewrite <- S2 in T1. rewrite <- L2, <- O2 in L1.
  assert (stage_trace M p ((tr ++ (Launched <$> l)) ++ announced_event (in_ctrl_sent i)) (stage (wu w3)) /\
    out_sent (wo w3) = out_sent (wo w2) /\ on_line (wu w3) = on_line (wu w2)) as (T3 & O3 & L3).
  { destruct (in_ctrl_sent i) as [x|]; cbn in E3 |- *; [|injection E3 as <-; by rewrite app_nil_r]. unfold saf_accept_ctrl in E3.
    apply throw_bind_ok in E3 as [_ E3]. apply bind_ok in E3 as (s & Hs & E3). injection E3 as <-. split; [|done]. by eapply trace_announce. }
  assert (stage_trace M p (((tr ++ (Launched <$> l)) ++ announced_event (in_ctrl_sent i)) ++ stored_event (in_sent i)) (stage (wu w4)) /\
    out_sent (wo w4) = out_sent (wo w3) /\ on_line (wu w4) = on_line (wu w3)) as (T4 & O4 & L4).
  { destruct (in_sent i) as [x|]; cbn in E4 |- *; [|injection E4 as <-; by rewrite app_nil_r]. unfold saf_accept in E4.
    apply bind_ok in E4 as (s & Hs & E4). injection E4 as <-. split; [|done]. by eapply trace_store. }
  exists l. rewrite <- !app_assoc in T4. split; [exact T4|]. change (opt_list (out_sent (wo w4)) ++ on_line (wu w4) = on_line (wu w) ++ l). congruence.
Qed.

Lemma stored_events_app tr l a x : stored (tr ++ (Launched <$> l) ++ announced_event a ++ stored_event x) = stored tr ++ opt_list x.
Proof using.
  unfold stored. rewrite !omap_app. f_equal. assert (omap (fun e => match e with Stored x => Some x | _ => None end) (Launched <$> l) = []) as ->
    by (induction l; [done|done]). by destruct a, x.
Qed.
Lemma launched_events_app tr l a x : launched (tr ++ (Launched <$> l) ++ announced_event a ++ stored_event x) = launched tr ++ l.
Proof using.
  unfold launched. rewrite !omap_app. f_equal. assert (omap (fun e => match e with Launched x => Some x | _ => None end) (Launched <$> l) = l) as ->
    by (induction l as [|y l IH]; [done|cbn; by rewrite IH]). destruct a, x; cbn; by rewrite app_nil_r.
Qed.

Lemma run_trace s cyc ins w os w' tr del : pipeline p -> run_link M s p cyc ins w = Ok (os, w') -> stage_trace M p tr (stage (wu w)) ->
  del ++ on_line (wu w) = launched tr -> exists tr', stage_trace M p tr' (stage (wu w')) /\
    stored tr' = stored tr ++ omap in_sent ins /\ del ++ omap out_sent os ++ on_line (wu w') = launched tr'.
Proof using.
  intros (Hb & He & Hs). revert cyc w os tr del. induction ins as [|i ins IH]; intros cyc w os tr del; cbn [run_link].
  { intros [= <- <-] Ht Hl. exists tr. cbn. by rewrite app_nil_r. }
  unfold forward. rewrite Hb, He, Hs. intros E Ht Hl. apply bind_ok in E as (w1 & E1 & E). apply bind_ok in E as ([os2 w2] & E2 & E). injection E as <- <-.
  destruct (cycle_trace _ _ _ _ _ E1 Ht) as (l & T & L).
  destruct (IH (cyc + 1) w1 os2 _ (del ++ opt_list (out_sent (wo w1))) E2 T) as (tr' & T' & S' & L').
  { rewrite launched_events_app, <- app_assoc, L, app_assoc. by rewrite Hl. }
  exists tr'. split; [done|]. rewrite S', stored_events_app, <- L'. cbn. rewrite <- !app_assoc. by destruct (in_sent i), (out_sent (wo w1)).
Qed.
End cycle_trace.

Lemma initial_trace `{Geometry} M p : stage_trace M p [] (stage initial_unit).
Proof. apply trace_start. Qed.

Lemma filter_prefix (f : Z -> bool) xs ys : xs `prefix_of` ys -> List.filter f xs `prefix_of` List.filter f ys.
Proof. intros [k ->]. rewrite List.filter_app. by eexists. Qed.

Lemma bursts_prefix xs ys : xs `prefix_of` ys -> bursts ys -> bursts xs.
Proof. intros [k ->] Hb j x y Hx Hy. apply (Hb j); by apply lookup_app_l_Some. Qed.

(** C20: after any number of cycles of the production pipeline that did not stop
    with an exception, whatever the back pressure, the rates and the grants of
    the link group, what came out of the link is as follows.  Per flow it is a
    prefix of what went in, in order and without loss or repetition; likewise the
    memory flits.  No packet of a flow is out before the tail of that flow was
    sent in: the flow is stored whole before it leaves.  The packets of a flow
    leave in one burst, not interleaved with other flows.  Once the unit is empty
    everything has come out. *)
Theorem saf_link_store_forward `{Geometry} (M : machine) (s : bool) (p : link_params) (ins : list link_in) (o : link_out) (g : link_globals)
    (os : list link_out) (w' : world) :
  pipeline p -> run_link M s p 0 ins (mkWorld initial_unit o g) = Ok (os, w') ->
  let sent : list Z := omap in_sent ins in
  let out : list Z := omap out_sent os in
  (forall k, of_flow k out `prefix_of` of_flow k sent) /\ mem_flits out `prefix_of` mem_flits sent /\
  (forall k j x, of_flow k out !! j = Some x -> exists j' y, (j <= j')%nat /\ of_flow k sent !! j' = Some y /\ is_tail y = true) /\
  bursts (msg_flits out) /\
  (link_residual (wu w') = 0 -> (forall k, of_flow k out = of_flow k sent) /\ mem_flits out = mem_flits sent).
Proof.
  intros Hp E. destruct (run_trace M p s 0 ins _ os w' [] [] Hp E (initial_trace M p) eq_refl) as (tr & T & Hs & Hl).
  cbn [app] in Hs, Hl. apply stage_trace_inv in T. cbv zeta. change (stored [] ++ omap in_sent ins) with (omap in_sent ins) in Hs.
  rewrite <- Hs. assert (omap out_sent os `prefix_of` launched tr) as Hpre by (rewrite <- Hl; by eexists).
  assert (forall k, of_flow k (omap out_sent os) `prefix_of` of_flow k (launched tr)) as Hk by (intros k; by apply filter_prefix).
  split; [|split; [|split; [|split]]].
  - intros k. etransitivity; [apply Hk|]. rewrite (ti_flow _ _ _ T). by eexists.
  - etransitivity; [by apply filter_prefix|]. rewrite (ti_mem _ _ _ T). by eexists.
  - intros k j x Hx. apply (ti_complete _ _ _ T k j x). by eapply prefix_lookup_Some.
  - eapply bursts_prefix; [by apply filter_prefix|apply T].
  - unfold link_residual, SafOccupied. intros Hr. set (fl := map_fold _ _ _) in Hr.
    assert (0 <= fl) as Hfl by (apply (map_sum_nonneg (fun b => Z.of_nat (length (flow_packets b)))); intros; lia).
    assert (0 <= CreditResidual (wu w')) by (unfold CreditResidual, b2z; destruct (data_credit_active _), (ctrl_credit_active _); lia).
    assert (rx_fifo (wu w') = [] /\ fifo (wu w') = [] /\ mem_saf_fifo (wu w') = [] /\ fl = 0) as (E1 & E2 & E3 & E4).
    { split_and!; [apply length_zero_iff_nil|apply length_zero_iff_nil|apply length_zero_iff_nil|]; lia. }
    unfold on_line in Hl. rewrite E1, E2 in Hl. cbn in Hl. rewrite app_nil_r in Hl. rewrite Hl. split.
    + intros k. rewrite (ti_flow _ _ _ T). unfold packets_of. destruct (saf_flows (wu w') !! k) as [f|] eqn:Ef; cbn; [|by rewrite app_nil_r].
      pose proof (map_sum_elem_le (fun b => Z.of_nat (length (flow_packets b))) (saf_flows (wu w')) k f ltac:(intros; cbn; lia) Ef) as Hle.
      unfold map_sum in Hle. fold fl in Hle. assert (flow_packets f = []) as -> by (apply length_zero_iff_nil; lia). by rewrite app_nil_r.
    + by rewrite (ti_mem _ _ _ T), E3, app_nil_r.
Qed.

(** *** A flow of two packets over link 0 *)

Definition saf_params : link_params := production_params demo_saf_cfg 1 0.
Definition demo_msg (t : MSG_TYPE) (last : bool) (seq n : Z) : Z :=
  match SerializeMsg (mkMsg last t seq 15 0 1 0 0 false false 0 n 0 0 0 0 0 (-1) 1) with Ok w => w | Err _ => 0 end.
Definition demo_saf_inputs : list link_in :=
  [mkIn None (Some (demo_msg REQUEST false 0 2)) true true; mkIn (Some (demo_msg DATA false 1 0)) None true true;
   mkIn None None true true; mkIn (Some (demo_msg DATA true 2 0)) None true true] ++ replicate 5 (mkIn None None true true).
Definition demo_saf_globals : link_globals :=
  mkGlobals (reset_link_stats demo_table demo_links) (ResetV5LinkGroupRuntime demo_links)
    (ReserveSafPlans demo_saf_cfg demo_links (reset_demo demo_links) [mkPlan (demo_flow 1) 2 [0]]).1 v5_initial ∅ (mkBehStats 0 0 0 0) 0.
Definition demo_saf_run : result (list link_out * world) :=
  @run_link demo_geometry demo_saf_machine false saf_params 0 demo_saf_inputs (mkWorld initial_unit initial_out demo_saf_globals).
Definition demo_saf_end : world := match demo_saf_run with Ok (_, w) => w | Err _ => mkWorld initial_unit initial_out demo_saf_globals end.
Definition demo_saf_out : list Z := match demo_saf_run with Ok (os, _) => omap out_sent os | Err _ => [] end.

Lemma saf_link_store_forward_witness : of_flow (demo_flow 1) demo_saf_out = [demo_msg DATA false 1 0; demo_msg DATA true 2 0] /\
  WholeFlowSafReservedPackets (gl_saf (wg demo_saf_end)) = 0.
Proof.
  assert (is_ok demo_saf_run = true) as Hok by (vm_compute; reflexivity).
  destruct demo_saf_run as [[os w']|e] eqn:E; [clear Hok|discriminate Hok].
  destruct (@saf_link_store_forward demo_geometry demo_saf_machine false saf_params demo_saf_inputs initial_out demo_saf_globals os w')
    as (_ & _ & _ & _ & Hd); [by split_and!|exact E|].
  assert (w' = demo_saf_end) as Ew by (unfold demo_saf_end; by rewrite E).
  destruct Hd as [Hd _]; [rewrite Ew; vm_compute; reflexivity|].
  split; [|vm_compute; reflexivity]. unfold demo_saf_out. rewrite E, Hd. vm_compute. reflexivity.
Defined.
