(* ===== verification/D2DSafety.v ===== *)
(** The reservations of [SafAdmission] protect the pipeline of [D2DLink]: in a
    system that reserves before it sends, announces each reserved flow once and
    respects the credits, no cycle of a production link ends in an exception. *)

From S2P Require Import Prelude MsgWire D2DConfig DieTopology PortSelect HostAttach HbmMemWire Routing.
From S2P Require Import SafAdmission LinkGroup Behavioral D2DStats D2DLink D2DLine D2DSaf.

(** ** The reservations of one link *)

Lemma reserve_held cfg links s plans i k n : bounded cfg = true -> saf_wf links s -> plans_wf links plans -> valid_idx (link_admission s) i ->
  held s i k = Some n -> held (ReserveSafPlans cfg links s plans).1 i k = Some n.
Proof.
  intros Hb Hs Hp Hi Hh. destruct (reserve_spec cfg links s plans Hb Hs Hp) as [([Hf _] & c & Hl & _ & _ & ->)|(_ & e & ->)]; [|done].
  destruct (plans_fresh _ _ _ Hs Hp Hf). unfold held. cbn [fst link_admission]. rewrite Hl. apply add_links_spec; auto.
Qed.

Lemma reserve_depth cfg links s plans depth : bounded cfg = true -> saf_wf links s -> plans_wf links plans -> has_depth depth s ->
  has_depth depth (ReserveSafPlans cfg links s plans).1.
Proof.
  intros Hb Hs Hp Hd. destruct (reserve_spec cfg links s plans Hb Hs Hp) as [(_ & c & Hl & Hg & _ & ->)|(_ & e & ->)]; [|done].
  split; cbn [fst link_admission group_admission]; rewrite ?Hl, ?Hg.
  - apply add_links_depth; [|apply Hd]. intros r Hr. by apply (plans_valid _ _ _ Hs Hp).
  - apply add_groups_depth, Hd.
Qed.

Lemma held_room links s i k n depth : saf_wf links s -> has_depth depth s -> valid_idx (link_admission s) i -> held s i k = Some n -> 0 < n <= depth.
Proof.
  intros Hs [Hd _] Hi Hh. pose proof (valid_lookup _ _ Hi) as Ha. destruct (sw_links _ _ Hs _ _ Ha) as [Hsum Hb Hpos].
  rewrite (Hd _ _ Ha), Hsum in Hb. unfold held in Hh. pose proof (Hpos _ _ Hh).
  pose proof (map_sum_elem_le id _ _ _ (fun k' n' H => Z.lt_le_incl _ _ (Hpos k' n' H)) Hh) as Hle. unfold id in Hle at 1. lia.
Qed.

(** *** Stored packets against reserved ones *)

Definition room_of (f : option SafFlowBuffer) : Z := match f with Some b => Z.of_nat (length (flow_packets b)) | None => 0 end.
Definition stored_sum (fl : gmap FlowKey SafFlowBuffer) : Z := map_sum (fun b => Z.of_nat (length (flow_packets b))) fl.

Lemma stored_below (r : gmap FlowKey Z) (fl : gmap FlowKey SafFlowBuffer) : (forall k n, r !! k = Some n -> 0 < n) ->
  (forall k b, fl !! k = Some b -> exists n, r !! k = Some n /\ Z.of_nat (length (flow_packets b)) <= n) -> stored_sum fl <= map_sum id r.
Proof.
  revert fl. induction r as [|k n r Hk IH] using map_ind; intros fl Hpos Hle.
  - assert (fl = ∅) as ->; [|done]. apply map_empty. intros k. apply eq_None_not_Some. intros [b Hb]. destruct (Hle _ _ Hb) as (n & Hn & _). by rewrite lookup_empty in Hn.
  - rewrite map_sum_insert by done.
    assert (stored_sum (delete k fl) <= map_sum id r) as Hrest.
    { apply IH.
      - intros k' n' Hk'. apply (Hpos k'). rewrite lookup_insert_ne; [done|]. intros ->. congruence.
      - intros k' b [Hne Hb]%lookup_delete_Some. destruct (Hle _ _ Hb) as (n' & Hn & ?). rewrite lookup_insert_ne in Hn by done. by exists n'. }
    destruct (fl !! k) as [b|] eqn:Eb.
    + destruct (Hle _ _ Eb) as (n' & Hn & Hl). rewrite lookup_insert_eq in Hn. injection Hn as <-. unfold stored_sum in *.
      rewrite (map_sum_delete _ _ _ _ Eb). unfold id at 1. lia.
    + rewrite delete_id in Hrest by done. pose proof (Hpos k n (lookup_insert_eq _ _ _)). unfold id at 1. lia.
Qed.

Lemma stored_room (r : gmap FlowKey Z) (fl : gmap FlowKey SafFlowBuffer) k n : (forall k n, r !! k = Some n -> 0 < n) ->
  (forall k b, fl !! k = Some b -> exists n, r !! k = Some n /\ Z.of_nat (length (flow_packets b)) <= n) ->
  r !! k = Some n -> room_of (fl !! k) < n -> stored_sum fl < map_sum id r.
Proof.
  intros Hpos Hle Hk Hlt. rewrite (map_sum_delete id r k n Hk).
  assert (stored_sum (delete k fl) <= map_sum id (delete k r)) as Hrest.
  { apply stored_below.
    - intros k' n' [_ ?]%lookup_delete_Some. by eapply Hpos.
    - intros k' b [Hne Hb]%lookup_delete_Some. destruct (Hle _ _ Hb) as (n' & Hn & ?). exists n'. by rewrite lookup_delete_ne. }
  unfold stored_sum in *. destruct (fl !! k) as [b|] eqn:Eb; cbn in Hlt.
  - rewrite (map_sum_delete _ _ _ _ Eb). unfold id at 1. lia.
  - rewrite delete_id in Hrest by done. unfold id at 1. lia.
Qed.

(** ** The grants of a link group *)

Lemma grant_total links cyc arbs i req : arbs_wf links cyc arbs ->
  exists b arbs', V5LinkGroupGrant links arbs i cyc req = Ok (b, arbs') /\ arbs_wf links cyc arbs'.
Proof.
  intros Ha. destruct (decide (link_ok links i)) as [Hi|Hi].
  - destruct (one_call_ok links cyc ([], arbs) i req Ha Hi) as (a & r & Hl & E & ->). unfold one_call in E. apply bind_ok in E as ([b arbs'] & Eg & E).
    cbn in Eg. exists b, arbs'. split; [exact Eg|]. injection E as _ ->. by apply (one_call_wf links cyc ([], arbs)).
  - exists req, arbs. split; [|done]. unfold V5LinkGroupGrant. destruct (_ || _) eqn:E; [done|]. apply orb_false_iff in E as [E1 E2].
    apply Z.ltb_ge in E1. apply Z.leb_gt in E2. destruct (grouped links i) eqn:Eg; [|done]. destruct Hi. split; [lia|done].
Qed.

(** ** The environment of a link *)

(** Flows announced on the link under their present reservation: the packets
    announced and those already sent. *)
Notation flights := (gmap FlowKey (Z * Z)).

Section safety.
Context `{G : Geometry} (M : machine) (s : bool) (port_latency idx : Z).
Context (Hmode : mode (g_d2d_cfg M) = MODE_BOUNDED_SAF) (Hback : backend (g_d2d_cfg M) = BACKEND_CYCLE).
Context (Hidx : 0 <= idx < Z.of_nat (length (g_d2d_links M))).
Local Notation cfg := (g_d2d_cfg M).
Local Notation links := (g_d2d_links M).
Local Notation p := (production_params cfg port_latency idx).
Local Notation depth := (saf_buffer_depth cfg).

(** A REQUEST announces, once, a flow that holds a reservation on the link, with
    its number of packets. *)
Definition announces (saf : saf_state) (f : flights) (x : option Z) (f' : flights) : Prop :=
  match x ≫= counted_msg with
  | Some m => if decide (msg_type_ m = REQUEST)
              then f !! flow_key m = None /\ idx ∈ links_of saf (flow_key m) /\ held saf idx (flow_key m) = Some (flow_packets_ m) /\
                   f' = <[flow_key m := (flow_packets_ m, 0)]> f
              else f' = f
  | None => f' = f
  end.

(** The data channel carries memory flits and the packets of announced flows, the
    last of which is marked and numbered. *)
Definition sends (f : flights) (x : option Z) (f' : flights) : Prop :=
  match x with
  | None => f' = f
  | Some w => IsMemWireFlit w = true /\ f' = f \/ exists m n c,
      counted_msg w = Some m /\ msg_type_ m = DATA /\ f !! flow_key m = Some (n, c) /\ c < n /\
      is_end_ m = (c + 1 =? n) /\ (is_end_ m = true -> seq_id_ m = n) /\ f' = <[flow_key m := (n, c + 1)]> f
  end.

(** The credits of the upstream router: room on the control channel, and in the
    stage, which reservations imply while no memory flit is in it. *)
Definition within_credits (u : link_unit) (i : link_in) : Prop :=
  (is_Some (in_ctrl_sent i) -> Z.of_nat (length (cfifo u)) < ctrl_buffer_depth cfg) /\
  (forall x, in_sent i = Some x -> SafOccupied u < depth \/ mem_saf_fifo u = [] /\ IsMemWireFlit x = false).

(** The flows whose reservation is still held. *)
Definition current (saf : saf_state) (f : flights) : flights := base.filter (fun kv => is_Some (held saf idx kv.1)) f.

(** The states of the link among the steps of the rest of the system: time,
    reservations of others, releases and arbitration of other links. *)
Inductive link_reach : Z -> world -> flights -> Prop :=
  | reach_start o g : saf_reachable cfg links (gl_saf g) -> gl_arbs g = ResetV5LinkGroupRuntime links ->
      link_reach 0 (mkWorld initial_unit o g) ∅
  | reach_tick now w f : link_reach now w f -> link_reach (now + 1) w f
  | reach_reserve now w f plans : link_reach now w f -> plans_wf links plans ->
      link_reach now (on_globals (put_saf (ReserveSafPlans cfg links (gl_saf (wg w)) plans).1) w) f
  | reach_release now w f i k n saf : link_reach now w f -> i <> idx ->
      ReleaseWholeFlowSafLink cfg links (gl_saf (wg w)) i k n = Ok saf -> link_reach now (on_globals (put_saf saf) w) f
  | reach_grant now w f i req b arbs : link_reach now w f -> V5LinkGroupGrant links (gl_arbs (wg w)) i now req = Ok (b, arbs) ->
      link_reach now (on_globals (put_arbs arbs) w) f
  | reach_cycle now w f i f1 f2 w' : link_reach now w f -> announces (gl_saf (wg w)) f (in_ctrl_sent i) f1 -> sends f1 (in_sent i) f2 ->
      within_credits (wu w) i -> forward M s p now i w = Ok w' -> link_reach now w' (current (gl_saf (wg w')) f2).

(** ** The invariant *)

Definition stage_at (b : option SafFlowBuffer) (n c : Z) : Prop :=
  match b with
  | None => c = 0
  | Some b => if complete b then c = n else c = Z.of_nat (length (flow_packets b)) /\ c < n
  end.

Record safe (now : Z) (t : saf_stage) (saf : saf_state) (arbs : arbs_map) (f : flights) : Prop := {
  sf_stage : stage_wf p t;
  sf_saf : saf_wf links saf;
  sf_depth : has_depth depth saf;
  sf_arbs : arbs_wf links now arbs;
  sf_expected : forall k n, saf_expected t !! k = Some n <-> exists c, f !! k = Some (n, c);
  sf_held : forall k n c, f !! k = Some (n, c) -> held saf idx k = Some n;
  sf_at : forall k n c, f !! k = Some (n, c) -> 0 <= c /\ stage_at (saf_flows t !! k) n c
}.

Lemma idx_valid saf : saf_wf links saf -> valid_idx (link_admission saf) idx.
Proof using Hidx. intros Hs. unfold valid_idx. by rewrite (sw_len _ _ Hs). Qed.

Lemma held_links saf k n : saf_wf links saf -> held saf idx k = Some n -> idx ∈ links_of saf k.
Proof using Hidx. intros Hs Hh. apply (sw_flow _ _ Hs). split; [by apply idx_valid|by exists n]. Qed.

Lemma bounded_cfg : bounded cfg = true.
Proof using Hmode. unfold bounded. by rewrite bool_decide_eq_true_2. Qed.

Lemma current_held saf f : (forall k n c, f !! k = Some (n, c) -> held saf idx k = Some n) -> current saf f = f.
Proof using. intros Hh. apply map_filter_id. intros k [n c] Hk. exists n. by eapply Hh. Qed.

Lemma current_insert saf f k v n : held saf idx k = Some n -> current saf (<[k := v]> f) = <[k := v]> (current saf f).
Proof using. intros Hh. unfold current. apply map_filter_insert_True. by exists n. Qed.

(** *** No exception *)

(** The stage has room for every packet of an announced flow. *)
Lemma stage_room now t saf arbs f k n c : safe now t saf arbs f -> f !! k = Some (n, c) -> c < n -> mem_saf_fifo t = [] -> SafOccupied t < depth.
Proof using Hidx.
  intros Hs Hk Hc Hm. unfold SafOccupied. rewrite Hm. fold (map_sum (fun b => Z.of_nat (length (flow_packets b))) (saf_flows t)).
  fold (stored_sum (saf_flows t)). cbn [length]. pose proof (idx_valid _ (sf_saf _ _ _ _ _ Hs)) as Hv. pose proof (valid_lookup _ _ Hv) as Ha.
  destruct (sw_links _ _ (sf_saf _ _ _ _ _ Hs) _ _ Ha) as [Hsum Hb Hpos]. rewrite (proj1 (sf_depth _ _ _ _ _ Hs) _ _ Ha) in Hb.
  assert (stored_sum (saf_flows t) < map_sum id (reservations_ (link_admission saf !!! Z.to_nat idx))); [|lia].
  apply (stored_room _ _ k n Hpos).
  - intros k' b Hb'. destruct (sg_flow _ _ (sf_stage _ _ _ _ _ Hs) k' b Hb') as [He Hw]. exists (expected b). split; [|apply fw_length in Hw; lia].
    apply (sf_expected _ _ _ _ _ Hs) in He as [c' Hf]. by apply (sf_held _ _ _ _ _ Hs) in Hf.
  - by apply (sf_held _ _ _ _ _ Hs) in Hk.
  - destruct (sf_at _ _ _ _ _ Hs _ _ _ Hk) as [? Hat]. unfold room_of, stage_at in *. destruct (saf_flows t !! k) as [b|]; [|lia].
    destruct (complete b); lia.
Qed.

Lemma store_ok now t saf arbs f x f' : safe now t saf arbs f -> sends f (Some x) f' -> (SafOccupied t < depth \/ mem_saf_fifo t = [] /\ IsMemWireFlit x = false) ->
  exists t', saf_store p x t = Ok t'.
Proof using Hidx Hmode.
  intros Hs Hx Hroom. assert (SafOccupied t < depth) as Hocc.
  { destruct Hroom as [?|[Hm Hx']]; [done|]. destruct Hx as [[? _]|(m & n & c & _ & _ & Hk & Hc & _)]; [congruence|]. by eapply stage_room. }
  unfold saf_store, production_params, bound, saf_depth. rewrite bool_decide_eq_true_2 by done. rewrite throw_bind_false by lia.
  destruct (IsMemWireFlit x) eqn:Em; [by eexists|]. destruct Hx as [[? _]|(m & n & c & Hm & Ht & Hk & Hc & He & Hseq & _)]; [congruence|].
  unfold counted_msg in Hm. rewrite Em in Hm. rewrite Hm, throw_bind_false by by rewrite bool_decide_eq_true_2.
  assert (saf_expected t !! flow_key m = Some n) as -> by (apply (sf_expected _ _ _ _ _ Hs); by exists c).
  destruct (sf_at _ _ _ _ _ Hs _ _ _ Hk) as [Hc0 Hat].
  assert (let b := default new_flow_buffer (saf_flows t !! flow_key m) in
    complete b = false /\ (if expected b =? 0 then n else expected b) = n /\ Z.of_nat (length (flow_packets b)) = c) as (Hcomp & Hexp & Hlen).
  { unfold stage_at in Hat. destruct (saf_flows t !! flow_key m) as [b|] eqn:Eb; cbn; [|by rewrite Hat].
    destruct (sg_flow _ _ (sf_stage _ _ _ _ _ Hs) _ _ Eb) as [Hx' _]. assert (expected b = n) as ->.
    { apply (sf_expected _ _ _ _ _ Hs) in Hx' as [c' Hx']. congruence. }
    destruct (complete b); [lia|]. destruct Hat as [-> _]. split; [done|]. split; [by destruct (n =? 0)|done]. }
  cbv zeta. rewrite Hcomp, Hexp, length_app. cbn [length]. rewrite throw_bind_false by done. rewrite Nat2Z.inj_add, Hlen. rewrite throw_bind_false by (apply Z.ltb_ge; clear -Hc; lia).
  rewrite throw_bind_false; [by eexists|]. rewrite He. destruct (Z.eqb_spec (c + 1) n) as [En|]; [|done].
  rewrite Hseq by (rewrite He; lia). apply orb_false_iff. split; [|by rewrite Z.eqb_refl]. apply negb_false_iff, Z.eqb_eq. exact En.
Qed.

(** *** The operations keep the invariant *)

Lemma safe_store now t saf arbs f x f' t' : safe now t saf arbs f -> sends f (Some x) f' -> saf_store p x t = Ok t' -> safe now t' saf arbs f'.
Proof using Hidx.
  intros Hs Hx E. pose proof (saf_store_wf p x t t' (sf_stage _ _ _ _ _ Hs) E) as Hw. pose proof Hs as [_ H2 H3 H4 He Hh Hat]. apply saf_store_inv in E as [_ E].
  destruct Hx as [[Hm ->]|(m & n & c & Hm & Ht & Hk & Hc & Hend & Hseq & ->)].
  { destruct E as [[_ ->]|(m & n & Hm' & _)]; [by split|]. unfold counted_msg in Hm'. by rewrite Hm in Hm'. }
  destruct E as [[Hm' _]|(m' & n' & Hm' & _ & Hn' & Hcomp & Hl & Hend' & ->)].
  { unfold counted_msg in Hm. by rewrite Hm' in Hm. }
  rewrite Hm in Hm'. injection Hm' as <-. cbv zeta in *. destruct (Hat _ _ _ Hk) as [Hc0 Hst].
  split; try done; cbn [saf_expected saf_flows].
  - intros k n0. rewrite He. destruct (decide (k = flow_key m)) as [->|Hne]; [|by rewrite lookup_insert_ne].
    rewrite lookup_insert_eq, Hk. naive_solver.
  - intros k n0 c0 [[<- [= <- <-]]|[Hne Hk']]%lookup_insert_Some; by eapply Hh.
  - intros k n0 c0 [[<- [= <- <-]]|[Hne Hk']]%lookup_insert_Some; [|rewrite lookup_insert_ne by done; by apply Hat].
    rewrite lookup_insert_eq. cbn. split; [lia|]. rewrite length_app. cbn [length].
    assert (room_of (saf_flows t !! flow_key m) = c) as Hroom.
    { unfold stage_at, room_of in *. destruct (saf_flows t !! flow_key m) as [b|]; [|done]. cbn in Hcomp. rewrite Hcomp in Hst. lia. }
    assert (Z.of_nat (length (flow_packets (default new_flow_buffer (saf_flows t !! flow_key m)))) = c) as Hlen
      by (unfold room_of in Hroom; destruct (saf_flows t !! flow_key m); exact Hroom).
    rewrite Hend. destruct (Z.eqb_spec (c + 1) n) as [|Hn1]; [done|]. rewrite Nat2Z.inj_add, Hlen. split; [done|]. clear -Hn1 Hc. lia.
Qed.

Lemma announce_ok now t saf arbs f x f' : safe now t saf arbs f -> announces saf f (Some x) f' -> exists t', saf_announce p x t = Ok t'.
Proof using Hidx Hmode.
  intros Hs Hx. unfold saf_announce, announces in *. cbn in Hx. destruct (counted_msg x) as [m|]; [|by eexists].
  case_decide as Ht; [|rewrite bool_decide_eq_false_2 by done; by eexists]. destruct Hx as (Hf & _ & Hh & _).
  rewrite bool_decide_eq_true_2 by done. cbn [negb]. unfold production_params, bound, saf_depth. rewrite (bool_decide_eq_true_2 _ Hmode).
  pose proof (held_room _ _ _ _ _ depth (sf_saf _ _ _ _ _ Hs) (sf_depth _ _ _ _ _ Hs) (idx_valid _ (sf_saf _ _ _ _ _ Hs)) Hh) as Hr.
  rewrite throw_bind_false by (apply orb_false_iff; lia).
  assert (saf_expected t !! flow_key m = None) as He.
  { apply eq_None_not_Some. intros [n Hn]. apply (sf_expected _ _ _ _ _ Hs) in Hn as [c Hn]. congruence. }
  rewrite throw_bind_false; [by eexists|]. rewrite He. cbn. apply bool_decide_eq_false_2. intros [b Hb].
  apply (sg_flow _ _ (sf_stage _ _ _ _ _ Hs)) in Hb as [Hb _]. congruence.
Qed.

Lemma safe_announce now t saf arbs f x f' t' : safe now t saf arbs f -> announces saf f (Some x) f' -> saf_announce p x t = Ok t' -> safe now t' saf arbs f'.
Proof using Hidx.
  intros Hs Hx E. pose proof (saf_announce_wf p x t t' (sf_stage _ _ _ _ _ Hs) E) as Hw. pose proof Hs as [_ H2 H3 H4 He Hh Hat].
  unfold announces in Hx. cbn in Hx. unfold saf_announce in E. destruct (counted_msg x) as [m|]; [|by injection E as <-; subst].
  case_decide as Ht; [|rewrite bool_decide_eq_false_2 in E by done; injection E as <-; by subst]. destruct Hx as (Hf & _ & Hheld & ->).
  rewrite bool_decide_eq_true_2 in E by done. cbn [negb] in E. inv_ok. split_guards.
  split; try done; cbn [saf_expected saf_flows].
  - intros k n. destruct (decide (k = flow_key m)) as [->|Hne]; [|by rewrite !lookup_insert_ne].
    rewrite !lookup_insert_eq. naive_solver.
  - intros k n c [[<- [= <- <-]]|[Hne Hk']]%lookup_insert_Some; [done|by eapply Hh].
  - intros k n c [[<- [= <- <-]]|[Hne Hk']]%lookup_insert_Some; [|by apply Hat]. split; [done|].
    assert (saf_flows t !! flow_key m = None) as ->; [|done]. apply eq_None_not_Some. intros [b Hb].
    apply (sg_flow _ _ (sf_stage _ _ _ _ _ Hs)) in Hb as [Hb _]. apply He in Hb as [c Hb]. congruence.
Qed.

(** A ready stage serves a packet, and the release of a finished flow succeeds. *)
Lemma safe_pop now t g arbs f : safe now t (gl_saf g) arbs f -> mem_saf_fifo t <> [] \/ saf_ready t <> [] -> exists x t' g',
  saf_pop M p t g = Ok (x, t', g') /\ safe now t' (gl_saf g') arbs (current (gl_saf g') f) /\ gl_arbs g' = gl_arbs g /\
  (forall k n, held (gl_saf g) idx k = Some n -> (forall c, f !! k = Some (n, c) -> c < n) -> held (gl_saf g') idx k = Some n).
Proof using Hidx Hmode.
  intros Hs Hready. pose proof (sf_stage _ _ _ _ _ Hs) as Hst.
  assert (Hwf : forall x t' g', saf_pop M p t g = Ok (x, t', g') -> stage_wf p t') by (intros x t' g' E; by eapply saf_pop_wf).
  revert Hwf. unfold saf_pop. destruct (mem_saf_fifo t) as [|y q] eqn:Em.
  2:{ intros Hwf. eexists _, _, _. split; [done|]. rewrite (current_held _ _ (sf_held _ _ _ _ _ Hs)). split; [|by split].
      pose proof (Hwf _ _ _ eq_refl). by destruct Hs; split. }
  destruct (saf_ready t) as [|k r] eqn:Er; [by destruct Hready|].
  destruct (proj1 (sg_ready _ _ Hst k)) as (b & Hb & Hc); [rewrite Er; left|]. rewrite Hb.
  destruct (sg_flow _ _ Hst _ _ Hb) as [He Hw]. destruct (flow_packets b) as [|x ps] eqn:Ep; [apply fw_length in Hw; rewrite Ep in Hw; cbn in Hw; lia|].
  rewrite Hc. cbn [negb throw_if mbind result_bind]. pose proof He as Hf. apply (sf_expected _ _ _ _ _ Hs) in Hf as [c Hf].
  pose proof (sf_held _ _ _ _ _ Hs _ _ _ Hf) as Hh. pose proof (held_links _ _ _ (sf_saf _ _ _ _ _ Hs) Hh) as Hl.
  case_bool_decide as Hps.
  - change (link_idx p) with idx. destruct (release_spec cfg links (gl_saf g) idx k (expected b) bounded_cfg (sf_saf _ _ _ _ _ Hs)) as [(_ & _ & ->)|[[] _]]; [|done].
    cbn [mbind result_bind]. intros Hwf. eexists _, _, _. split; [done|]. cbn [gl_saf gl_arbs put_saf].
    pose proof (sf_saf _ _ _ _ _ Hs) as Hsw. pose proof (idx_valid _ Hsw) as Hv.
    assert (forall k' n, held (released links (gl_saf g) idx k (expected b)) idx k' = Some n <-> k' <> k /\ held (gl_saf g) idx k' = Some n) as Hrel.
    { intros k' n. rewrite released_held by done. case_decide; naive_solver. }
    assert (current (released links (gl_saf g) idx k (expected b)) f = delete k f) as ->.
    { apply map_eq. intros k'. unfold current. destruct (delete k f !! k') as [[n' c']|] eqn:Ek.
      - apply lookup_delete_Some in Ek as [Hne Hk]. apply map_lookup_filter_Some. split; [done|]. exists n'. apply Hrel. split; [done|]. by eapply sf_held.
      - apply map_lookup_filter_None. apply lookup_delete_None in Ek as [<-|?]; [right|by left]. intros [n' c'] _ [n0 Hn]. apply Hrel in Hn. naive_solver. }
    split; [|split; [done|]].
    + split; cbn [saf_expected saf_flows].
      * by eapply Hwf.
      * by apply released_wf.
      * by apply released_depth; [..|apply (sf_depth _ _ _ _ _ Hs)].
      * apply (sf_arbs _ _ _ _ _ Hs).
      * intros k' n. rewrite lookup_delete_Some, (sf_expected _ _ _ _ _ Hs). setoid_rewrite lookup_delete_Some. naive_solver.
      * intros k' n c' [Hne Hk]%lookup_delete_Some. apply Hrel. split; [done|]. by eapply sf_held.
      * intros k' n c' [Hne Hk]%lookup_delete_Some. rewrite lookup_delete_ne by done. by eapply sf_at.
    + intros k' n Hk' Hn. apply Hrel. split; [|done]. intros ->. destruct (sf_at _ _ _ _ _ Hs _ _ _ Hf) as [_ Hat]. rewrite Hb in Hat. cbn in Hat.
      rewrite Hc in Hat. assert (n = expected b) as -> by congruence. pose proof (Hn _ Hf). lia.
  - intros Hwf. eexists _, _, _. split; [done|]. rewrite (current_held _ _ (sf_held _ _ _ _ _ Hs)). split; [|by split].
    pose proof (Hwf _ _ _ eq_refl) as Hst'. pose proof Hs as [_ H2 H3 H4 H5 H6 Hat]. split; try done; cbn [saf_flows].
    intros k' n c' Hk. destruct (Hat _ _ _ Hk) as [Hc0 Hst2]. split; [done|]. destruct (decide (k' = k)) as [->|Hne].
    + rewrite lookup_insert_eq. rewrite Hb in Hst2. cbn in *. by rewrite Hc in Hst2.
    + by rewrite lookup_insert_ne.
Qed.

(** *** One cycle *)

Record same (w w' : world) : Prop := {
  sm_stage : stage (wu w') = stage (wu w);
  sm_saf : gl_saf (wg w') = gl_saf (wg w);
  sm_arbs : gl_arbs (wg w') = gl_arbs (wg w);
  sm_ctrl : (length (cfifo (wu w')) <= length (cfifo (wu w)))%nat
}.
Lemma same_trans w1 w2 w3 : same w1 w2 -> same w2 w3 -> same w1 w3.
Proof. intros [] []. split; try congruence. lia. Qed.

Lemma begin_same w : same w (saf_begin p w).
Proof. done. Qed.
Lemma receive_same avail w : same w (saf_receive avail w).
Proof. unfold saf_receive. destruct (rx_fifo (wu w)); [done|]. by destruct avail. Qed.
Lemma arrive_same cyc w : same w (saf_arrive p cyc w).
Proof. unfold saf_arrive. destruct (fifo (wu w)) as [|[r x] q]; [done|]. destruct (negb _); [done|]. by destruct (_ <? _). Qed.
Lemma deliver_ctrl_same cyc avail w : same w (saf_deliver_ctrl p cyc avail w).
Proof.
  unfold saf_deliver_ctrl, deliver_ctrl. destruct (_ && _); [|done]. destruct (cfifo (wu w)) as [|[r x] q] eqn:E.
  - split; cbn; rewrite ?E; done.
  - split; cbn; rewrite ?E; try done. cbn. lia.
Qed.

Definition safe_world (now : Z) (w : world) (f : flights) : Prop := safe now (stage (wu w)) (gl_saf (wg w)) (gl_arbs (wg w)) f.
Lemma same_safe now w w' f : same w w' -> safe_world now w f -> safe_world now w' f.
Proof. unfold safe_world. intros [-> -> -> _]. done. Qed.

(** Popping the stage makes room. *)
Definition room_kept (t t' : saf_stage) : Prop := SafOccupied t' <= SafOccupied t /\ (mem_saf_fifo t = [] -> mem_saf_fifo t' = []).

Lemma pop_room t g x t' g' : saf_pop M p t g = Ok (x, t', g') -> room_kept t t'.
Proof.
  unfold room_kept, SafOccupied. intros [(q & -> & _ & ->)|(k & r & b & ps & Hq & _ & Hb & Hp & _ & H)]%saf_pop_inv; [cbn; split; [lia|done]|].
  rewrite Hq. pose proof (map_sum_delete (fun b => Z.of_nat (length (flow_packets b))) _ _ _ Hb) as Hd.
  pose proof (map_sum_update (fun b => Z.of_nat (length (flow_packets b))) _ _ _ (mkFlowBuf (expected b) true ps) Hb) as Hu.
  unfold map_sum in Hd, Hu. rewrite Hp in Hd, Hu. cbn [length flow_packets] in Hd, Hu.
  destruct H as [(-> & -> & _)|(_ & _ & ->)]; cbn [saf_flows mem_saf_fifo length]; (split; [lia|done]).
Qed.

Lemma inject_safe now w f : safe_world now w f -> exists w',
  saf_inject M p now w = Ok w' /\ safe_world now w' (current (gl_saf (wg w')) f) /\ cfifo (wu w') = cfifo (wu w) /\
  room_kept (stage (wu w)) (stage (wu w')) /\
  (forall k n, held (gl_saf (wg w)) idx k = Some n -> (forall c, f !! k = Some (n, c) -> c < n) -> held (gl_saf (wg w')) idx k = Some n).
Proof using Hidx Hmode.
  intros Hs. unfold saf_inject, group_grant. cbv zeta. set (ready := negb _ || negb _). set (req := ready && _ && _ && _).
  destruct (grant_total links now (gl_arbs (wg w)) (link_idx p) req (sf_arbs _ _ _ _ _ Hs)) as (b & arbs & -> & Ha).
  cbn [mbind result_bind fst snd]. set (w1 := on_globals (put_arbs arbs) w).
  assert (safe_world now w1 f) as Hs1 by by destruct Hs; split.
  destruct (req && b) eqn:Eg.
  - assert (mem_saf_fifo (wu w) <> [] \/ saf_ready (wu w) <> []) as Hready.
    { apply andb_true_iff in Eg as [Eg _]. unfold req in Eg. apply andb_true_iff in Eg as [Eg _]. apply andb_true_iff in Eg as [Eg _].
      apply andb_true_iff in Eg as [Eg _]. unfold ready in Eg. apply orb_true_iff in Eg as [E|E]; apply negb_true_iff, bool_decide_eq_false in E; [by left|by right]. }
    destruct (safe_pop now (stage (wu w1)) (wg w1) arbs f Hs1 Hready) as (x & t & g & E & Hs2 & Harb & Hh). rewrite E. cbn [mbind result_bind].
    eexists. split; [reflexivity|]. split; [|split; [done|split; [by eapply pop_room|exact Hh]]].
    unfold safe_world. cbn. rewrite Harb. exact Hs2.
  - cbn [mbind result_bind]. eexists. split; [reflexivity|]. cbn. rewrite (current_held _ _ (sf_held _ _ _ _ _ Hs)).
    split; [exact Hs1|]. split; [done|]. split; [split; [lia|done]|done].
Qed.

(** What the upstream router may send stays so while other flows finish. *)
Lemma announces_current saf saf' f x f1 : announces saf f x f1 -> saf_wf links saf' ->
  (forall k n, held saf idx k = Some n -> (forall c, f !! k = Some (n, c) -> c < n) -> held saf' idx k = Some n) ->
  announces saf' (current saf' f) x (current saf' f1).
Proof using Hidx.
  intros Ha Hs' Hh. unfold announces in *. destruct (x ≫= counted_msg) as [m|]; [|by subst]. case_decide; [|by subst].
  destruct Ha as (Hf & _ & Hheld & ->). assert (held saf' idx (flow_key m) = Some (flow_packets_ m)) as Hheld' by (apply Hh; [done|]; intros c; congruence).
  split; [|split; [by eapply held_links|split; [done|by eapply current_insert]]]. apply map_lookup_filter_None. by left.
Qed.

Lemma sends_current saf' f x f' : sends f x f' ->
  (forall k n c, f !! k = Some (n, c) -> c < n -> held saf' idx k = Some n) -> sends (current saf' f) x (current saf' f').
Proof.
  intros Hx Hh. unfold sends in *. destruct x as [w|]; [|by subst]. destruct Hx as [[Hm ->]|(m & n & c & Hm & Ht & Hk & Hc & He & Hseq & ->)]; [by left|].
  right. exists m, n, c. pose proof (Hh _ _ _ Hk Hc) as Hheld. split_and!; try done; [|by eapply current_insert].
  apply map_lookup_filter_Some. split; [done|]. by exists n.
Qed.

Lemma announces_live saf f x f1 : announces saf f x f1 -> forall k n c, f1 !! k = Some (n, c) ->
  f !! k = Some (n, c) \/ f !! k = None /\ held saf idx k = Some n.
Proof.
  unfold announces. destruct (x ≫= counted_msg) as [m|]; [|intros ->; by left]. case_decide; [|intros ->; by left].
  intros (Hf & _ & Hheld & ->) k n c [[<- [= <- <-]]|[_ Hk]]%lookup_insert_Some; [by right|by left].
Qed.

Lemma cycle_safe now w f i f1 f2 : safe_world now w f -> announces (gl_saf (wg w)) f (in_ctrl_sent i) f1 -> sends f1 (in_sent i) f2 ->
  within_credits (wu w) i -> exists w', forward M s p now i w = Ok w' /\ safe_world now w' (current (gl_saf (wg w')) f2).
Proof using Hback Hidx Hmode.
  intros Hs Ha Hx [Hcc Hcd]. assert (forward M s p now i w = forward_bounded_saf M p now i w) as ->.
  { unfold forward. cbn [behavioral bound production_params]. by rewrite Hback, Hmode. }
  unfold forward_bounded_saf. set (w0 := saf_arrive p now _).
  assert (same w w0) as H0 by (eapply same_trans; [apply begin_same|]; eapply same_trans; [apply receive_same|apply arrive_same]).
  clearbody w0. pose proof (same_safe _ _ _ _ H0 Hs) as Hs0. destruct (inject_safe now w0 f Hs0) as (w1 & E1 & Hs1 & Hcf1 & [Hocc Hmem] & Hkeep).
  rewrite E1. cbn [mbind result_bind]. set (w2 := saf_deliver_ctrl p now (out_ctrl_avail i) w1).
  pose proof (deliver_ctrl_same now (out_ctrl_avail i) w1) as H2. fold w2 in H2. clearbody w2.
  pose proof (same_safe _ _ _ _ H2 Hs1) as Hs2. rewrite <- (sm_saf _ _ H2) in Hs2, Hkeep.
  rewrite (sm_saf _ _ H0) in Hkeep. pose proof (announces_current _ _ _ _ _ Ha (sf_saf _ _ _ _ _ Hs2) Hkeep) as Ha2.
  assert (forall k n c, f1 !! k = Some (n, c) -> c < n -> held (gl_saf (wg w2)) idx k = Some n) as Hlive.
  { intros k n c Hk Hc. destruct (announces_live _ _ _ _ Ha _ _ _ Hk) as [Hf|[Hf Hh]].
    - apply Hkeep; [rewrite <- (sm_saf _ _ H0); by eapply (sf_held _ _ _ _ _ Hs0)|]. intros c' Hc'. congruence.
    - apply Hkeep; [done|]. intros c' Hc'. congruence. }
  pose proof (sends_current _ _ _ _ Hx Hlive) as Hx2. set (f1' := current _ f1) in *. set (f2' := current _ f2) in *.
  assert (exists w3, when_some_ok (in_ctrl_sent i) (saf_accept_ctrl p now) w2 = Ok w3 /\ safe_world now w3 f1' /\ gl_saf (wg w3) = gl_saf (wg w2) /\
    room_kept (stage (wu w2)) (stage (wu w3))) as (w3 & -> & Hs3 & Hsaf3 & Hr3).
  { destruct (in_ctrl_sent i) as [x|] eqn:Ei; cbn [when_some_ok].
    - destruct (announce_ok _ _ _ _ _ _ _ Hs2 Ha2) as [t Et]. unfold saf_accept_ctrl, has_room. rewrite throw_bind_false.
      2:{ apply negb_false_iff. unfold production_params, bound. rewrite (bool_decide_eq_true_2 _ Hmode). cbn [ctrl_depth].
          pose proof (Hcc ltac:(by eexists)). pose proof (sm_ctrl _ _ H0). pose proof (sm_ctrl _ _ H2). rewrite Hcf1 in *. lia. }
      rewrite Et. cbn [mbind result_bind]. eexists. split; [reflexivity|]. split; [by eapply (safe_announce _ _ _ _ _ x)|]. split; [done|].
      unfold room_kept, SafOccupied. cbn. apply saf_announce_inv in Et as [->|(m & _ & _ & _ & _ & _ & ->)]; cbn; (split; [lia|done]).
    - exists w2. split; [done|]. unfold announces in Ha2. cbn in Ha2. rewrite Ha2. split; [done|]. split; [done|]. split; [lia|done]. }
  cbn [mbind result_bind].
  assert (exists w4, when_some_ok (in_sent i) (saf_accept p) w3 = Ok w4 /\ safe_world now w4 f2' /\ gl_saf (wg w4) = gl_saf (wg w2)) as (w4 & -> & Hs4 & Hsaf4).
  { destruct (in_sent i) as [x|] eqn:Ei; cbn [when_some_ok].
    - destruct (store_ok _ _ _ _ _ _ _ Hs3 Hx2) as [t Et].
      { destruct Hr3 as [Ho3 Hm3]. rewrite (sm_stage _ _ H2) in Ho3, Hm3. rewrite (sm_stage _ _ H0) in Hocc, Hmem.
        destruct (Hcd _ eq_refl) as [Hlt|[Hm He]]; [left; cbn; lia|right; split; [by apply Hm3, Hmem|done]]. }
      unfold saf_accept. rewrite Et. cbn [mbind result_bind]. eexists. split; [reflexivity|]. split; [by eapply (safe_store _ _ _ _ _ x)|done].
    - exists w3. split; [done|]. unfold sends in Hx2. by rewrite Hx2. }
  cbn [mbind result_bind]. eexists. split; [reflexivity|]. cbn. rewrite Hsaf4. exact Hs4.
Qed.

Lemma start_safe o g : saf_reachable cfg links (gl_saf g) -> gl_arbs g = ResetV5LinkGroupRuntime links ->
  safe_world 0 (mkWorld initial_unit o g) ∅.
Proof using Hmode.
  intros Hr Ha. destruct (saf_reachable_inv _ _ _ bounded_cfg Hr) as [Hs Hd]. unfold safe_world. cbn. split; try done.
  - apply empty_stage_wf.
  - rewrite Ha. apply (arbs_wf_later _ (-1)); [lia|apply reset_arbs_wf].
  - intros k n. cbn. rewrite lookup_empty. split; [done|]. intros (c & Hc). by rewrite lookup_empty in Hc.
Qed.

Lemma reach_safe now w f : link_reach now w f -> safe_world now w f.
Proof using Hback Hidx Hmode.
  induction 1 as [o g Hr Ha|now w f _ IH|now w f plans _ IH Hp|now w f i k n saf _ IH Hi Hrel|now w f i req b arbs _ IH Hg|
                  now w f i f1 f2 w' _ IH Ha Hx Hc E].
  - by apply start_safe.
  - destruct IH. split; try done. by apply (arbs_wf_later _ now); [lia|].
  - destruct IH as [H1 H2 H3 H4 H5 H6 H7]. split; try done; cbn.
    + by apply reserve_wf; [apply bounded_cfg|..].
    + by apply reserve_depth; [apply bounded_cfg|..].
    + intros k n c Hk. apply reserve_held; [apply bounded_cfg|done|done|by apply idx_valid|by eapply H6].
  - destruct IH as [H1 H2 H3 H4 H5 H6 H7].
    destruct (release_spec cfg links (gl_saf (wg w)) i k n bounded_cfg H2) as [(Hl & Hh & E)|[_ E]]; rewrite Hrel in E; [|done].
    injection E as ->. split; try done; cbn.
    + by apply released_wf.
    + by apply released_depth.
    + intros k' n' c Hk. rewrite released_held by by (try apply idx_valid). rewrite decide_False by congruence. by eapply H6.
  - destruct (grant_total links now (gl_arbs (wg w)) i req (sf_arbs _ _ _ _ _ IH)) as (b' & arbs' & E & Ha). rewrite Hg in E. injection E as <- <-.
    by destruct IH; split.
  - destruct (cycle_safe _ _ _ _ _ _ IH Ha Hx Hc) as (w1 & E1 & Hs). rewrite E in E1. by injection E1 as <-.
Qed.
End safety.

(** C23: the contract between admission and the links.  However the system reserves,
    releases and arbitrates around a production link, as long as flows are
    announced once, under a reservation of their size, sent completely and with
    their last packet marked, and the upstream router stays within its credits,
    every cycle of the link succeeds: no overflow of the stage or of the control
    channel, no duplicate, unannounced or oversized flow, no mismatched tail, no
    failing release, no inconsistent ready queue and no missing arbiter.  A data
    packet of an announced flow always finds room in the stage, without credit,
    while memory flits stay out of it. *)
Theorem saf_link_never_fails `{Geometry} (M : machine) (s : bool) (port_latency idx now : Z) (w : world) (f : flights) :
  mode (g_d2d_cfg M) = MODE_BOUNDED_SAF -> backend (g_d2d_cfg M) = BACKEND_CYCLE -> 0 <= idx < Z.of_nat (length (g_d2d_links M)) ->
  link_reach M s port_latency idx now w f ->
  (forall i f1 f2, announces idx (gl_saf (wg w)) f (in_ctrl_sent i) f1 -> sends f1 (in_sent i) f2 -> within_credits M (wu w) i ->
     exists w', forward M s (production_params (g_d2d_cfg M) port_latency idx) now i w = Ok w') /\
  (forall k n c, f !! k = Some (n, c) -> c < n -> mem_saf_fifo (wu w) = [] -> SafOccupied (wu w) < saf_buffer_depth (g_d2d_cfg M)) /\
  (forall k n, saf_expected (wu w) !! k = Some n -> held (gl_saf (wg w)) idx k = Some n /\ 0 < n <= saf_buffer_depth (g_d2d_cfg M)).
Proof.
  intros Hm Hb Hi Hr. pose proof (reach_safe M s port_latency idx Hm Hb Hi _ _ _ Hr) as Hs. split; [|split].
  - intros i f1 f2 Ha Hx Hc. destruct (cycle_safe M s port_latency idx Hm Hb Hi _ _ _ _ _ _ Hs Ha Hx Hc) as (w' & E & _). by exists w'.
  - intros k n c Hk Hc Hmem. by eapply (stage_room M port_latency idx Hi).
  - intros k n Hk. apply (sf_expected _ _ _ _ _ _ _ _ Hs) in Hk as [c Hk]. pose proof (sf_held _ _ _ _ _ _ _ _ Hs _ _ _ Hk) as Hh. split; [done|].
    eapply held_room; [apply (sf_saf _ _ _ _ _ _ _ _ Hs)|apply (sf_depth _ _ _ _ _ _ _ _ Hs)| |exact Hh].
    by eapply idx_valid, sf_saf.
Qed.

(** *** The REQUEST of a reserved flow *)

Definition demo_start : world := mkWorld initial_unit initial_out
  (mkGlobals (reset_link_stats demo_table demo_links) (ResetV5LinkGroupRuntime demo_links) (reset_demo demo_links) v5_initial ∅ (mkBehStats 0 0 0 0) 0).
Definition demo_plan : list SafPlan := [mkPlan (demo_flow 1) 2 [0]].
Definition demo_admitted : world := on_globals (put_saf (ReserveSafPlans demo_saf_cfg demo_links (gl_saf (wg demo_start)) demo_plan).1) demo_start.
Definition demo_request_in : link_in := mkIn None (Some (demo_msg REQUEST false 0 2)) true true.

Lemma demo_plan_wf : plans_wf demo_links demo_plan.
Proof.
  split; [by apply (bool_decide_unpack _); vm_compute|]. intros q ->%list_elem_of_singleton.
  split; cbn; try done; try (by apply (bool_decide_unpack _); vm_compute). intros i ->%list_elem_of_singleton. split; [lia|by vm_compute].
Qed.

Lemma demo_reach : @link_reach demo_geometry demo_saf_machine false 1 0 1 demo_admitted ∅.
Proof. apply (reach_tick _ _ _ _ 0), reach_reserve; [|exact demo_plan_wf]. apply reach_start; [apply reset_demo_reachable|done]. Qed.

Lemma demo_announces : announces 0 (gl_saf (wg demo_admitted)) ∅ (in_ctrl_sent demo_request_in) {[demo_flow 1 := (2, 0)]}.
Proof.
  assert (exists m, counted_msg (demo_msg REQUEST false 0 2) = Some m /\ msg_type_ m = REQUEST /\ flow_key m = demo_flow 1 /\ flow_packets_ m = 2)
    as (m & Hm & Ht & Hk & Hn) by (vm_compute; eexists; done).
  unfold announces. cbn [in_ctrl_sent demo_request_in mbind option_bind]. rewrite Hm, decide_True, Hk, Hn by done. split; [done|].
  split; [by apply (bool_decide_unpack _); vm_compute|]. split; [by vm_compute|done].
Qed.

Lemma saf_link_never_fails_witness : exists w',
  @forward demo_geometry demo_saf_machine false (production_params demo_saf_cfg 1 0) 1 demo_request_in demo_admitted = Ok w'.
Proof.
  destruct (@saf_link_never_fails demo_geometry demo_saf_machine false 1 0 1 demo_admitted ∅) as (H & _);
    [reflexivity|reflexivity|split; [lia|vm_compute; reflexivity]|exact demo_reach|].
  apply (H demo_request_in {[demo_flow 1 := (2, 0)]} {[demo_flow 1 := (2, 0)]}); [exact demo_announces|reflexivity|].
  split; [intros _; vm_compute; reflexivity|discriminate].
Defined.
