(* ===== verification/HbmNetwork.v ===== *)
(** The transport of memory transactions over the routers
    ([src/memory/hbm_network.cpp], [include/memory/hbm_network.h]): routing of
    memory flits, assembly of requests at a memory attachment and of responses at
    a core, and the statistics.  The handling of a request by the endpoint is an
    argument; its worker threads are the steps [worker_take] and [worker_done]. *)

From S2P Require Import Prelude HbmAddressMap MsgWire D2DConfig DieTopology PortSelect HostAttach HbmMemWire Routing.

(** ** Routing *)

Definition AttachmentRouter `{Geometry} (t : hbm_tables) (stack_id channel_id : Z) : result Z :=
  match List.find (fun s => st_stack_id s =? stack_id) (g_hbm_stacks t) with
  | None => Err (runtime_error "HBM route: unknown stack")
  | Some stack =>
      match List.find (fun c => (ch_stack_id c =? stack_id) && (ch_channel_id c =? channel_id)) (g_hbm_channels t) with
      | None => Err (runtime_error "HBM route: unknown stack/channel attachment")
      | Some c => Ok (GlobalId (st_compute_die_id stack) (ch_mem_tile c))
      end
  end.

Definition mem_subflow (r : MemFlitRoute) : Z := if request_direction r then 2 else 3.

Definition MemFlitNextHop `{Geometry} (M : machine) (t : hbm_tables) (st : v5_state) (wire router_id : Z)
    : result (Directions * v5_state) :=
  InspectMemWireFlit wire ≫= fun route : MemFlitRoute =>
  (if request_direction route then AttachmentRouter t (r_stack_id route) (r_channel_id route) else Ok (r_source_core route)) ≫=
    fun destination : Z =>
  THROW runtime_error "HBM route: invalid destination" WHEN (destination <? 0) || (TOTAL_CORES <=? destination);;
  if DieOfGlobal destination =? DieOfGlobal router_id then
    GetNextHop (g_host_attach M) destination router_id (-1) ≫= fun d : Directions => Ok (d, st)
  else
    let anchor := GlobalId (DieOfGlobal router_id) (LocalOfGlobal (r_source_core route)) in
    CrossDieSelectExit M st anchor destination (r_source_core route) (r_txid route) (mem_subflow route) ≫=
      fun '((exit, st) : Z * v5_state) =>
    CrossDieStep M destination router_id exit ≫= fun d : Directions => Ok (d, st).

(** ** State *)

Definition TxKey : Type := Z * Z. (* source core, txid *)

(** [HBMEndpointAgent]; the number of workers in a request is [ep_active]. *)
Record endpoint : Type := mkEndpoint {
  ep_partial : gmap TxKey (list Z); ep_completed : list (list Z); ep_active : Z
}.
Definition new_endpoint : endpoint := mkEndpoint ∅ [] 0.

Record HBMNetworkStats : Type := mkNetStats {
  logical_requests : Z; ns_reads : Z; ns_writes : Z; request_bytes : Z; response_bytes : Z; request_flits : Z; response_flits : Z;
  noc_hops : Z; c2c_request_hops : Z; c2c_response_hops : Z; injection_stalls : Z; shared_noc_contention : Z; mem_mem_noc_contention : Z
}.
Definition no_net_stats : HBMNetworkStats := mkNetStats 0 0 0 0 0 0 0 0 0 0 0 0 0.

(** A waiter holds its response once it is complete. *)
Record HBMNetwork : Type := mkNet {
  net_depth : Z; (* completed_queue_depth *)
  waiters : gmap TxKey (option MemMsg);
  response_assemblies : gmap TxKey (list Z);
  endpoints : gmap (Z * Z) endpoint;
  net_stats : HBMNetworkStats
}.
Definition set_waiters (x : gmap TxKey (option MemMsg)) (n : HBMNetwork) : HBMNetwork :=
  mkNet (net_depth n) x (response_assemblies n) (endpoints n) (net_stats n).
Definition set_assemblies (x : gmap TxKey (list Z)) (n : HBMNetwork) : HBMNetwork :=
  mkNet (net_depth n) (waiters n) x (endpoints n) (net_stats n).
Definition set_endpoints (x : gmap (Z * Z) endpoint) (n : HBMNetwork) : HBMNetwork :=
  mkNet (net_depth n) (waiters n) (response_assemblies n) x (net_stats n).
Definition set_stats (x : HBMNetworkStats) (n : HBMNetwork) : HBMNetwork :=
  mkNet (net_depth n) (waiters n) (response_assemblies n) (endpoints n) x.

(** [catch (const std::runtime_error &)]; [overflow_error] derives from it. *)
Definition is_runtime_error (e : exn) : bool := match e with runtime_error _ | overflow_error _ => true | _ => false end.
Definition caught {A} (r : result A) : result (option A) :=
  match r with Ok a => Ok (Some a) | Err e => if is_runtime_error e then Ok None else Err e end.

(** ** The endpoint agent *)

(** The flits of the key so far, with [wire] appended, in canonical order. *)
Definition append_flit (partial : gmap TxKey (list Z)) (key : TxKey) (wire : Z) : list Z := default [] (partial !! key) ++ [wire].

Definition TryAccept (depth : Z) (ep : endpoint) (wire : Z) : result (bool * endpoint) :=
  InspectMemWireFlit wire ≫= fun route : MemFlitRoute =>
  let key : TxKey := (r_source_core route, r_txid route) in
  let assembly := append_flit (ep_partial ep) key wire in
  CanonicalizeMemWireFlits assembly ≫= fun canonical : list Z =>
  caught (DeserializeMemMsg canonical) ≫= fun msg : option MemMsg =>
  let complete := bool_decide (is_Some msg) in
  if complete && (depth <=? Z.of_nat (length (ep_completed ep))) then
    Ok (false, mkEndpoint (<[key := removelast assembly]> (ep_partial ep)) (ep_completed ep) (ep_active ep))
  else if complete then
    Ok (true, mkEndpoint (delete key (ep_partial ep)) (ep_completed ep ++ [canonical]) (ep_active ep))
  else Ok (true, mkEndpoint (<[key := assembly]> (ep_partial ep)) (ep_completed ep) (ep_active ep)).

(** A worker takes the oldest request; the request goes to the endpoint and the
    flits of its response to the router of the attachment. *)
Definition worker_take (ep : endpoint) : option (result MemMsg * endpoint) :=
  match ep_completed ep with
  | [] => None
  | wire :: q => Some (DeserializeMemMsg wire, mkEndpoint (ep_partial ep) q (ep_active ep + 1))
  end.
Definition worker_reply {S} (HandleRequest : S -> MemMsg -> result (MemMsg * S)) (s : S) (request : MemMsg) : result (list Z * S) :=
  HandleRequest s request ≫= fun '((response, s) : MemMsg * S) =>
  SerializeMemMsg response ≫= fun wire : list Z => Ok (wire, s).
Definition worker_done (ep : endpoint) : endpoint := mkEndpoint (ep_partial ep) (ep_completed ep) (ep_active ep - 1).

Definition endpoint_residual (ep : endpoint) : Z :=
  map_sum (fun l => Z.of_nat (length l)) (ep_partial ep) + Z.of_nat (length (ep_completed ep)) + ep_active ep.

(** ** The network *)

Definition count_request (request : MemMsg) (flits : Z) (s : HBMNetworkStats) : HBMNetworkStats :=
  let rd := bool_decide (command request = kRead) in
  mkNetStats (u64 (logical_requests s + 1)) (u64 (ns_reads s + b2z rd)) (u64 (ns_writes s + b2z (negb rd)))
    (u64 (request_bytes s + length_bytes request)) (response_bytes s) (u64 (request_flits s + flits))
    (response_flits s) (noc_hops s) (c2c_request_hops s) (c2c_response_hops s) (injection_stalls s)
    (shared_noc_contention s) (mem_mem_noc_contention s).

(** [Exchange] until the flits are injected, and after the response is complete.
    The waiter is entered before the request is serialized, outside the [try]. *)
Definition Exchange_begin (n : HBMNetwork) (request : MemMsg) : HBMNetwork * result (list Z) :=
  if negb (bool_decide (message_type request = kMsgRequest)) then (n, Err (runtime_error "HBMNetwork::Exchange expects a request")) else
  let key : TxKey := (source_core request, txid request) in
  if bool_decide (is_Some (waiters n !! key)) then (n, Err (runtime_error "HBMNetwork: duplicate outstanding source/txid")) else
  let n := set_waiters (<[key := None]> (waiters n)) n in
  match SerializeMemMsg request with
  | Err e => (n, Err e)
  | Ok wire => (set_stats (count_request request (Z.of_nat (length wire)) (net_stats n)) n, Ok wire)
  end.

Definition Exchange_end (n : HBMNetwork) (key : TxKey) : option (MemMsg * HBMNetwork) :=
  match waiters n !! key with
  | Some (Some response) => Some (response, set_waiters (delete key (waiters n)) n)
  | _ => None
  end.

Definition TryAcceptRequestFlit `{Geometry} (t : hbm_tables) (n : HBMNetwork) (router_id wire : Z) : result (bool * HBMNetwork) :=
  let wrong := runtime_error "HBMNetwork: request delivered to wrong MEM tile" in
  InspectMemWireFlit wire ≫= fun route : MemFlitRoute =>
  THROW wrong WHEN negb (request_direction route);;
  AttachmentRouter t (r_stack_id route) (r_channel_id route) ≫= fun at_ : Z =>
  THROW wrong WHEN negb (at_ =? router_id);;
  let key := (r_stack_id route, r_channel_id route) in
  match endpoints n !! key with
  | None => Err (runtime_error "HBMNetwork: no endpoint bridge")
  | Some ep =>
      TryAccept (net_depth n) ep wire ≫= fun '((ok, ep) : bool * endpoint) =>
      Ok (ok, set_endpoints (<[key := ep]> (endpoints n)) n)
  end.

Definition count_response (canonical : list Z) (response : MemMsg) (s : HBMNetworkStats) : HBMNetworkStats :=
  mkNetStats (logical_requests s) (ns_reads s) (ns_writes s) (request_bytes s)
    (u64 (response_bytes s + Z.of_nat (length (payload response)))) (request_flits s)
    (u64 (response_flits s + Z.of_nat (length canonical))) (noc_hops s) (c2c_request_hops s) (c2c_response_hops s)
    (injection_stalls s) (shared_noc_contention s) (mem_mem_noc_contention s).

Definition TryAcceptResponseFlit (n : HBMNetwork) (router_id wire : Z) : result (bool * HBMNetwork) :=
  InspectMemWireFlit wire ≫= fun route : MemFlitRoute =>
  THROW runtime_error "HBMNetwork: response delivered to wrong core"
    WHEN request_direction route || negb (r_source_core route =? router_id);;
  let key : TxKey := (r_source_core route, r_txid route) in
  match waiters n !! key with
  | None => Err (runtime_error "HBMNetwork: response has no matching waiter")
  | Some _ =>
      let assembly := append_flit (response_assemblies n) key wire in
      CanonicalizeMemWireFlits assembly ≫= fun canonical : list Z =>
      caught (DeserializeMemMsg canonical) ≫= fun msg : option MemMsg =>
      match msg with
      | Some response => Ok (true, set_stats (count_response canonical response (net_stats n))
                                (set_waiters (<[key := Some response]> (waiters n))
                                  (set_assemblies (delete key (response_assemblies n)) n)))
      | None => Ok (true, set_assemblies (<[key := assembly]> (response_assemblies n)) n)
      end
  end.

(** The tail of a transaction frees the exit port that the dynamic policy pinned. *)
Definition RecordHop `{Geometry} (M : machine) (n : HBMNetwork) (st : v5_state) (router_id : Z) (output_dir : Directions) (wire : Z)
    : result (HBMNetwork * v5_state) :=
  if bool_decide (output_dir = CENTER) then Ok (n, st) else
  let s := net_stats n in
  let hop (rq rs : Z) := set_stats (mkNetStats (logical_requests s) (ns_reads s) (ns_writes s) (request_bytes s) (response_bytes s)
    (request_flits s) (response_flits s) (u64 (noc_hops s + 1)) (u64 (c2c_request_hops s + rq)) (u64 (c2c_response_hops s + rs))
    (injection_stalls s) (shared_noc_contention s) (mem_mem_noc_contention s)) n in
  if negb (IsC2CEgressEdge (g_die_ports M) router_id output_dir) then Ok (hop 0 0, st) else
  InspectMemWireFlit wire ≫= fun route : MemFlitRoute =>
  let rq := request_direction route in
  let logical_tail := (rq && transaction_end route) || (negb rq && bool_decide (r_kind route = kResponse)) in
  (if logical_tail && bool_decide (select_policy (g_d2d_cfg M) = SELECT_DYNAMIC) then
     ReleaseV5DynamicPort (g_die_ports M) (g_d2d_cfg M) st (DieOfGlobal router_id) output_dir
       (mkFlow (r_source_core route) (r_txid route) (mem_subflow route))
   else Ok st) ≫= fun st : v5_state =>
  Ok (hop (b2z rq) (b2z (negb rq)), st).

Definition count_contention (shared : bool) (n : HBMNetwork) : HBMNetwork :=
  let s := net_stats n in
  set_stats (mkNetStats (logical_requests s) (ns_reads s) (ns_writes s) (request_bytes s) (response_bytes s) (request_flits s)
    (response_flits s) (noc_hops s) (c2c_request_hops s) (c2c_response_hops s) (injection_stalls s)
    (u64 (shared_noc_contention s + b2z shared)) (u64 (mem_mem_noc_contention s + b2z (negb shared)))) n.

Definition net_residual (n : HBMNetwork) : Z :=
  Z.of_nat (size (waiters n)) + map_sum (fun l => Z.of_nat (length l)) (response_assemblies n) + map_sum endpoint_residual (endpoints n).
