(* ===== verification/Router.v ===== *)
(** The router of a core ([RouterUnit] of [include/router/router.h] and
    [src/router/router.cpp]): one pass of the process [router_execute], from its
    state, the signals it reads and the globals it touches to the next state, the
    signals it writes and whether it asks to run again in the next cycle.
    An array indexed by direction is a function of [Directions]; a [sent] signal
    and its channel are one [option]. *)

From S2P Require Import Prelude CollTypes CollCodec CollTree CollReduce.
From S2P Require Import HbmAddressMap MsgWire D2DConfig DieTopology PortSelect HostAttach HbmMemWire Routing HbmNetwork.

Definition MAX_BUFFER_PACKET_SIZE : Z := 3.

(** ** State *)

Definition per_dir (A : Type) : Type := Directions -> A.
Definition set_dir {A} (d : Directions) (x : A) (f : per_dir A) : per_dir A := fun d' => if decide (d' = d) then x else f d'.
Definition all_dirs {A} (x : A) : per_dir A := fun _ => x.

(** The five inputs, in the order of their codes, and the four sides. *)
Definition dirs : list Directions := [WEST; EAST; NORTH; SOUTH; CENTER].
Definition sides : list Directions := [WEST; EAST; NORTH; SOUTH].

(** The buffers and channels of a direction, data or control. *)
Definition size_of (q : list Z) : Z := Z.of_nat (length q).
Definition has_space (q : list Z) : bool := size_of q <? MAX_BUFFER_PACKET_SIZE.

Record credit_lane : Type := mkCredit { c_enabled : bool; c_seen : bool; c_credits : Z; c_capacity : Z }.
Definition no_credit : credit_lane := mkCredit false false 0 0.

(** [ScheduledReduce]; times in nanoseconds. *)
Record scheduled_reduce : Type := mkSched { sr_ready : Z; sr_output : Directions; sr_operand : CollReduceOperand }.

(** In-network collectives. *)
Record coll_state : Type := mkColl {
  collective_fork : fork;
  reduce_header : per_dir (option Z); (* pending header *)
  reduce_match : CollOperandMatchBuffer;
  reduce_active : gmap CollReduceMatchKey CollReduceOperand;
  reduce_scheduled : list scheduled_reduce;
  reduce_dca_available : Z;
  collective_rr_start : nat;
  cooldown : per_dir bool;
  center_armed : bool
}.

(** The queues towards the host, at an attachment tile. *)
Record host_side : Type := mkHost { host_i : list Z; host_o : list Z; host_ctrl_o : list Z }.

Record router : Type := mkRouter {
  buffer_i : per_dir (list Z); buffer_o : per_dir (list Z); ctrl_buffer_i : per_dir (list Z); ctrl_buffer_o : per_dir (list Z);
  input_lock_ref : per_dir Z; output_lock : per_dir Z; output_lock_ref : per_dir Z;
  data_credit : per_dir credit_lane; ctrl_credit : per_dir credit_lane;
  coll : coll_state; host : option host_side
}.

(** The constructor. *)
Definition new_router (attached : bool) : router :=
  mkRouter (all_dirs []) (all_dirs []) (all_dirs []) (all_dirs []) (all_dirs 0) (all_dirs (-1)) (all_dirs 0)
    (all_dirs no_credit) (all_dirs no_credit)
    (mkColl new_fork (all_dirs None) (mkMatchBuffer 16 64 0 ∅) ∅ [] 0 0 (all_dirs false) true)
    (if attached then Some (mkHost [] [] []) else None).

Definition set_bi (x : per_dir (list Z)) (r : router) : router :=
  mkRouter x (buffer_o r) (ctrl_buffer_i r) (ctrl_buffer_o r) (input_lock_ref r) (output_lock r) (output_lock_ref r) (data_credit r) (ctrl_credit r) (coll r) (host r).
Definition set_bo (x : per_dir (list Z)) (r : router) : router :=
  mkRouter (buffer_i r) x (ctrl_buffer_i r) (ctrl_buffer_o r) (input_lock_ref r) (output_lock r) (output_lock_ref r) (data_credit r) (ctrl_credit r) (coll r) (host r).
Definition set_ci (x : per_dir (list Z)) (r : router) : router :=
  mkRouter (buffer_i r) (buffer_o r) x (ctrl_buffer_o r) (input_lock_ref r) (output_lock r) (output_lock_ref r) (data_credit r) (ctrl_credit r) (coll r) (host r).
Definition set_co (x : per_dir (list Z)) (r : router) : router :=
  mkRouter (buffer_i r) (buffer_o r) (ctrl_buffer_i r) x (input_lock_ref r) (output_lock r) (output_lock_ref r) (data_credit r) (ctrl_credit r) (coll r) (host r).
Definition set_locks (l n : per_dir Z) (r : router) : router :=
  mkRouter (buffer_i r) (buffer_o r) (ctrl_buffer_i r) (ctrl_buffer_o r) (input_lock_ref r) l n (data_credit r) (ctrl_credit r) (coll r) (host r).
Definition set_credit (d c : per_dir credit_lane) (r : router) : router :=
  mkRouter (buffer_i r) (buffer_o r) (ctrl_buffer_i r) (ctrl_buffer_o r) (input_lock_ref r) (output_lock r) (output_lock_ref r) d c (coll r) (host r).
Definition set_coll (x : coll_state) (r : router) : router :=
  mkRouter (buffer_i r) (buffer_o r) (ctrl_buffer_i r) (ctrl_buffer_o r) (input_lock_ref r) (output_lock r) (output_lock_ref r) (data_credit r) (ctrl_credit r) x (host r).
Definition set_host (x : option host_side) (r : router) : router :=
  mkRouter (buffer_i r) (buffer_o r) (ctrl_buffer_i r) (ctrl_buffer_o r) (input_lock_ref r) (output_lock r) (output_lock_ref r) (data_credit r) (ctrl_credit r) (coll r) x.

Definition push_i (d : Directions) (x : Z) (r : router) : router := set_bi (set_dir d (buffer_i r d ++ [x]) (buffer_i r)) r.
Definition pop_i (d : Directions) (r : router) : router := set_bi (set_dir d (tail (buffer_i r d)) (buffer_i r)) r.
Definition push_o (d : Directions) (x : Z) (r : router) : router := set_bo (set_dir d (buffer_o r d ++ [x]) (buffer_o r)) r.
Definition pop_o (d : Directions) (r : router) : router := set_bo (set_dir d (tail (buffer_o r d)) (buffer_o r)) r.
Definition push_ci (d : Directions) (x : Z) (r : router) : router := set_ci (set_dir d (ctrl_buffer_i r d ++ [x]) (ctrl_buffer_i r)) r.
Definition pop_ci (d : Directions) (r : router) : router := set_ci (set_dir d (tail (ctrl_buffer_i r d)) (ctrl_buffer_i r)) r.
Definition push_co (d : Directions) (x : Z) (r : router) : router := set_co (set_dir d (ctrl_buffer_o r d ++ [x]) (ctrl_buffer_o r)) r.
Definition pop_co (d : Directions) (r : router) : router := set_co (set_dir d (tail (ctrl_buffer_o r d)) (ctrl_buffer_o r)) r.

Definition set_fork (x : fork) (c : coll_state) : coll_state :=
  mkColl x (reduce_header c) (reduce_match c) (reduce_active c) (reduce_scheduled c) (reduce_dca_available c) (collective_rr_start c) (cooldown c) (center_armed c).
Definition set_header (d : Directions) (x : option Z) (c : coll_state) : coll_state :=
  mkColl (collective_fork c) (set_dir d x (reduce_header c)) (reduce_match c) (reduce_active c) (reduce_scheduled c) (reduce_dca_available c) (collective_rr_start c) (cooldown c) (center_armed c).
Definition set_match (x : CollOperandMatchBuffer) (a : gmap CollReduceMatchKey CollReduceOperand) (c : coll_state) : coll_state :=
  mkColl (collective_fork c) (reduce_header c) x a (reduce_scheduled c) (reduce_dca_available c) (collective_rr_start c) (cooldown c) (center_armed c).
Definition set_scheduled (x : list scheduled_reduce) (t : Z) (c : coll_state) : coll_state :=
  mkColl (collective_fork c) (reduce_header c) (reduce_match c) (reduce_active c) x t (collective_rr_start c) (cooldown c) (center_armed c).
Definition set_rr (i : nat) (c : coll_state) : coll_state :=
  mkColl (collective_fork c) (reduce_header c) (reduce_match c) (reduce_active c) (reduce_scheduled c) (reduce_dca_available c) i (cooldown c) (center_armed c).
Definition set_cooldown (d : Directions) (b : bool) (c : coll_state) : coll_state :=
  mkColl (collective_fork c) (reduce_header c) (reduce_match c) (reduce_active c) (reduce_scheduled c) (reduce_dca_available c) (collective_rr_start c) (set_dir d b (cooldown c)) (center_armed c).
Definition set_armed (b : bool) (c : coll_state) : coll_state :=
  mkColl (collective_fork c) (reduce_header c) (reduce_match c) (reduce_active c) (reduce_scheduled c) (reduce_dca_available c) (collective_rr_start c) (cooldown c) b.
Definition on_coll (f : coll_state -> coll_state) (r : router) : router := set_coll (f (coll r)) r.

(** The signals read in a pass. *)
Record router_in : Type := mkRin {
  data_sent_i : per_dir (option Z); ctrl_sent_i : per_dir (option Z); host_sent_i : option Z;
  channel_avail_i : per_dir bool; ctrl_channel_avail_i : per_dir bool; core_busy_i : bool; ctrl_core_busy_i : bool;
  d2d_data_credit_i : per_dir bool; d2d_ctrl_credit_i : per_dir bool
}.
Definition quiet : router_in :=
  mkRin (all_dirs None) (all_dirs None) None (all_dirs true) (all_dirs true) false false (all_dirs false) (all_dirs false).

(** The signals written in a pass. *)
Record router_out : Type := mkRout {
  data_sent_o : per_dir (option Z); ctrl_sent_o : per_dir (option Z); host_sent_o : option Z; host_ctrl_sent_o : option Z;
  channel_avail_o : per_dir bool; ctrl_channel_avail_o : per_dir bool; host_channel_avail_o : bool
}.
Definition silent (avail : bool) : router_out := mkRout (all_dirs None) (all_dirs None) None None (all_dirs false) (all_dirs false) avail.
Definition send_data (d : Directions) (x : Z) (o : router_out) : router_out :=
  mkRout (set_dir d (Some x) (data_sent_o o)) (ctrl_sent_o o) (host_sent_o o) (host_ctrl_sent_o o) (channel_avail_o o) (ctrl_channel_avail_o o) (host_channel_avail_o o).
Definition send_ctrl (d : Directions) (x : Z) (o : router_out) : router_out :=
  mkRout (data_sent_o o) (set_dir d (Some x) (ctrl_sent_o o)) (host_sent_o o) (host_ctrl_sent_o o) (channel_avail_o o) (ctrl_channel_avail_o o) (host_channel_avail_o o).
Definition send_host (x y : option Z) (o : router_out) : router_out :=
  mkRout (data_sent_o o) (ctrl_sent_o o) x y (channel_avail_o o) (ctrl_channel_avail_o o) (host_channel_avail_o o).
Definition publish_avail (a c : per_dir bool) (h : bool) (o : router_out) : router_out :=
  mkRout (data_sent_o o) (ctrl_sent_o o) (host_sent_o o) (host_ctrl_sent_o o) a c h.

(** The globals: statistics per die, the port selection, the collective fabric and
    the memory network, if there is one. *)
Record router_globals : Type := mkRg {
  g_v5 : v5_state; g_repin : repin_stats; g_fabric : fabric; g_reduce_nodes : reduce_nodes; g_net : option HBMNetwork;
  g_die_router_pkts : list Z; g_die_mesh_pkts : list Z; g_die_noc_sends : list Z; g_die_noc_stalls : list Z;
  g_d2d_source_stalls : Z; g_protocol_progress : Z; g_max_output_lock_ref : Z
}.
Definition put_v5 (x : v5_state) (g : router_globals) : router_globals :=
  mkRg x (g_repin g) (g_fabric g) (g_reduce_nodes g) (g_net g) (g_die_router_pkts g) (g_die_mesh_pkts g) (g_die_noc_sends g) (g_die_noc_stalls g) (g_d2d_source_stalls g) (g_protocol_progress g) (g_max_output_lock_ref g).
Definition put_repin (x : repin_stats) (g : router_globals) : router_globals :=
  mkRg (g_v5 g) x (g_fabric g) (g_reduce_nodes g) (g_net g) (g_die_router_pkts g) (g_die_mesh_pkts g) (g_die_noc_sends g) (g_die_noc_stalls g) (g_d2d_source_stalls g) (g_protocol_progress g) (g_max_output_lock_ref g).
Definition put_fabric (x : fabric) (g : router_globals) : router_globals :=
  mkRg (g_v5 g) (g_repin g) x (g_reduce_nodes g) (g_net g) (g_die_router_pkts g) (g_die_mesh_pkts g) (g_die_noc_sends g) (g_die_noc_stalls g) (g_d2d_source_stalls g) (g_protocol_progress g) (g_max_output_lock_ref g).
Definition put_net (x : option HBMNetwork) (g : router_globals) : router_globals :=
  mkRg (g_v5 g) (g_repin g) (g_fabric g) (g_reduce_nodes g) x (g_die_router_pkts g) (g_die_mesh_pkts g) (g_die_noc_sends g) (g_die_noc_stalls g) (g_d2d_source_stalls g) (g_protocol_progress g) (g_max_output_lock_ref g).
Definition put_die (pkts mesh sends stalls : list Z) (g : router_globals) : router_globals :=
  mkRg (g_v5 g) (g_repin g) (g_fabric g) (g_reduce_nodes g) (g_net g) pkts mesh sends stalls (g_d2d_source_stalls g) (g_protocol_progress g) (g_max_output_lock_ref g).
Definition put_counts (stalls progress lock : Z) (g : router_globals) : router_globals :=
  mkRg (g_v5 g) (g_repin g) (g_fabric g) (g_reduce_nodes g) (g_net g) (g_die_router_pkts g) (g_die_mesh_pkts g) (g_die_noc_sends g) (g_die_noc_stalls g) stalls progress lock.

(** A vector counter; an index outside the vector is skipped. *)
Definition count_at (die : Z) (l : list Z) : list Z := if die <? 0 then l else alter Z.succ (Z.to_nat die) l.

(** ** A pass of [router_execute] *)

(** The router, its outputs, the globals, and the flag that asks for another pass. *)
Record rworld : Type := mkRw { rr : router; ro : router_out; rg : router_globals; flag_trigger : bool }.
Definition on_r (f : router -> router) (w : rworld) : rworld := mkRw (f (rr w)) (ro w) (rg w) (flag_trigger w).
Definition on_o (f : router_out -> router_out) (w : rworld) : rworld := mkRw (rr w) (f (ro w)) (rg w) (flag_trigger w).
Definition on_g (f : router_globals -> router_globals) (w : rworld) : rworld := mkRw (rr w) (ro w) (f (rg w)) (flag_trigger w).
Definition again (w : rworld) : rworld := mkRw (rr w) (ro w) (rg w) true.

Definition is_collective (x : Z) : bool := IsCollDataWire x || IsCollReduceHeaderWire x || IsCollReducePayloadWire x.

Definition dir_of (code : Z) : Directions :=
  match code with 0 => WEST | 1 => EAST | 2 => NORTH | 3 => SOUTH | _ => CENTER end.

Definition with_child (o : CollReduceOperand) (child : Z) : CollReduceOperand :=
  mkCollReduceOperand (o_tree_id o) (o_collective o) (o_phase_id o) (o_chunk_id o) child (o_dtype o) (o_op o) (o_valid_elements o) (o_payload o).
Definition with_payload (o : CollReduceOperand) (x : Z) : CollReduceOperand :=
  mkCollReduceOperand (o_tree_id o) (o_collective o) (o_phase_id o) (o_chunk_id o) (o_child_id o) (o_dtype o) (o_op o) (o_valid_elements o) x.

(** A return credit is the flip of the link's event bit. *)
Definition credit_event (what : string) (event : bool) (c : credit_lane) : result (credit_lane * bool) :=
  let flipped := c_enabled c && negb (eqb event (c_seen c)) in
  THROW runtime_error what WHEN flipped && (c_capacity c <=? c_credits c);;
  Ok (mkCredit (c_enabled c) event (if flipped then c_credits c + 1 else c_credits c) (c_capacity c), flipped).
Definition spend (c : credit_lane) : credit_lane :=
  mkCredit (c_enabled c) (c_seen c) (if c_enabled c then c_credits c - 1 else c_credits c) (c_capacity c).
Definition may_send (c : credit_lane) (avail : bool) : bool := if c_enabled c then 0 <? c_credits c else avail.

Section pass.
Context `{Geometry} (M : machine) (t : hbm_tables) (SPEC_NOC_COLL_ENABLED : bool) (rid now : Z) (inp : router_in).
Local Notation die := (DieOfGlobal rid).
Local Notation egress d := (IsC2CEgressEdge (g_die_ports M) rid d).

(** *** Scheduled reductions, credits, inputs *)

Fixpoint emit_scheduled (l : list scheduled_reduce) (w : rworld) : result (list scheduled_reduce * rworld) :=
  match l with
  | [] => Ok ([], w)
  | it :: l =>
      if (now <? sr_ready it) || (MAX_BUFFER_PACKET_SIZE <? size_of (buffer_o (rr w) (sr_output it)) + 2) then
        emit_scheduled l w ≫= fun '((kept, w) : list scheduled_reduce * rworld) => Ok (it :: kept, w)
      else
        SerializeCollReduceOperand (sr_operand it) ≫= fun wire : list Z =>
        emit_scheduled l (again (on_r (fun r => foldl (fun r x => push_o (sr_output it) x r) r wire) w))
  end.
Definition drain_scheduled (w : rworld) : result rworld :=
  emit_scheduled (reduce_scheduled (coll (rr w))) w ≫= fun '((kept, w) : list scheduled_reduce * rworld) =>
  Ok (on_r (on_coll (fun c => set_scheduled kept (reduce_dca_available c) c)) w).

Definition read_credits (w : rworld) (d : Directions) : result rworld :=
  credit_event "D2D data credit overflow" (d2d_data_credit_i inp d) (data_credit (rr w) d) ≫= fun '((dc, b1) : credit_lane * bool) =>
  credit_event "D2D control credit overflow" (d2d_ctrl_credit_i inp d) (ctrl_credit (rr w) d) ≫= fun '((cc, b2) : credit_lane * bool) =>
  let w := on_r (fun r => set_credit (set_dir d dc (data_credit r)) (set_dir d cc (ctrl_credit r)) r) w in
  Ok (if b1 || b2 then again w else w).

Definition CountDieRouterPkt (d : Directions) (from_c2c : bool) (g : router_globals) : router_globals :=
  if die <? 0 then g else
  put_counts (g_d2d_source_stalls g) (g_protocol_progress g + 1) (g_max_output_lock_ref g)
    (put_die (count_at die (g_die_router_pkts g))
       (if negb from_c2c && negb (bool_decide (d = CENTER)) then count_at die (g_die_mesh_pkts g) else g_die_mesh_pkts g)
       (g_die_noc_sends g) (g_die_noc_stalls g) g).

(** A flit taken from a channel: repinned when it comes over a link, counted. *)
Definition take_flit (d : Directions) (temp : Z) (g : router_globals) : result (Z * router_globals) :=
  receive M (g_v5 g) (g_repin g) rid d temp ≫= fun '(((temp, st), rp) : Z * v5_state * repin_stats) =>
  Ok (temp, CountDieRouterPkt d (egress d) (put_repin rp (put_v5 st g))).

Definition data_input (w : rworld) (d : Directions) : result rworld :=
  match data_sent_i inp d with
  | None => Ok (if decide (d = CENTER) then on_r (on_coll (set_armed true)) w else w)
  | Some temp =>
      let from_core := bool_decide (d = CENTER) && is_collective temp in
      if from_core && negb (center_armed (coll (rr w))) then Ok w else
      let w := if from_core then on_r (on_coll (set_armed false)) w else w in
      take_flit d temp (rg w) ≫= fun '((temp, g) : Z * router_globals) =>
      Ok (again (on_r (push_i d temp) (on_g (fun _ => g) w)))
  end.
Definition ctrl_input (w : rworld) (d : Directions) : result rworld :=
  match ctrl_sent_i inp d with
  | None => Ok w
  | Some temp =>
      take_flit d temp (rg w) ≫= fun '((temp, g) : Z * router_globals) =>
      Ok (again (on_r (push_ci d temp) (on_g (fun _ => g) w)))
  end.
Definition host_input (w : rworld) : rworld :=
  match host (rr w), host_sent_i inp with
  | Some h, Some temp => again (on_r (set_host (Some (mkHost (host_i h ++ [temp]) (host_o h) (host_ctrl_o h)))) w)
  | _, _ => w
  end.

(** *** Outputs *)

(** The source die of a pinned flow sees its last packet leave. *)
Definition MaybeReleaseV5DynamicPin (m : Msg) (d : Directions) (st : v5_state) : result v5_state :=
  if negb (bool_decide (select_policy (g_d2d_cfg M) = SELECT_DYNAMIC)) || negb (egress d) then Ok st else
  let data_done := bool_decide (msg_type_ m = DATA) && is_end_ m in
  let ack_done := bool_decide (msg_type_ m = ACK) in
  if negb data_done && negb ack_done then Ok st else
  ReleaseV5DynamicPort (g_die_ports M) (g_d2d_cfg M) st die d (mkFlow (source_ m) (tag_id_ m) (subflow_ m)).

Definition record_hop (d : Directions) (temp : Z) (g : router_globals) : result router_globals :=
  match g_net g with
  | None => Ok g
  | Some n => RecordHop M n (g_v5 g) rid d temp ≫= fun '((n, st) : HBMNetwork * v5_state) => Ok (put_net (Some n) (put_v5 st g))
  end.
Definition release_pin (d : Directions) (m : Msg) (g : router_globals) : result router_globals :=
  MaybeReleaseV5DynamicPin m d (g_v5 g) ≫= fun st : v5_state => Ok (put_v5 st g).
Definition record_shared (d : Directions) (collective : bool) (g : router_globals) : router_globals :=
  if SPEC_NOC_COLL_ENABLED then put_fabric (RecordCollectiveSharedOutput (g_fabric g) (u16 rid) (dir_code d) collective) g else g.

(** The books of a flit that leaves on a data channel. *)
Definition account_data (d : Directions) (temp : Z) (g : router_globals) : result router_globals :=
  if is_collective temp then Ok (record_shared d true g)
  else if IsMemWireFlit temp then record_hop d temp g
  else match DeserializeMsg temp with
       | None => Ok g
       | Some m => release_pin d m (if bool_decide (msg_type_ m = DATA) then record_shared d false g else g)
       end.

Definition stall (d : Directions) (g : router_globals) : router_globals :=
  if egress d then put_counts (g_d2d_source_stalls g + 1) (g_protocol_progress g) (g_max_output_lock_ref g) g
  else put_die (g_die_router_pkts g) (g_die_mesh_pkts g) (g_die_noc_sends g) (count_at die (g_die_noc_stalls g)) g.

Definition data_output (w : rworld) (d : Directions) : result rworld :=
  let r := rr w in
  match buffer_o r d with
  | [] => Ok w
  | temp :: _ =>
      if negb (may_send (data_credit r d) (channel_avail_i inp d)) then Ok (on_g (stall d) w)
      else if cooldown (coll r) d then Ok (again (on_r (on_coll (set_cooldown d false)) w))
      else
        account_data d temp (rg w) ≫= fun g : router_globals =>
        let g := if egress d then g
                 else put_die (g_die_router_pkts g) (g_die_mesh_pkts g) (count_at die (g_die_noc_sends g)) (g_die_noc_stalls g) g in
        Ok (again (on_o (send_data d temp) (on_g (fun _ => g)
          (on_r (fun r => set_credit (set_dir d (spend (data_credit r d)) (data_credit r)) (ctrl_credit r)
             (on_coll (fun c => if is_collective temp then set_cooldown d true c else c) (pop_o d r))) w))))
  end.

Definition account_ctrl (d : Directions) (temp : Z) (g : router_globals) : result router_globals :=
  if IsMemWireFlit temp then record_hop d temp g
  else match DeserializeMsg temp with None => Ok g | Some m => release_pin d m g end.

Definition ctrl_output (w : rworld) (d : Directions) : result rworld :=
  let r := rr w in
  if negb (may_send (ctrl_credit r d) (ctrl_channel_avail_i inp d)) then Ok w else
  match ctrl_buffer_o r d with
  | [] => Ok w
  | temp :: _ =>
      account_ctrl d temp (rg w) ≫= fun g : router_globals =>
      Ok (again (on_o (send_ctrl d temp) (on_g (fun _ => g)
        (on_r (fun r => set_credit (data_credit r) (set_dir d (spend (ctrl_credit r d)) (ctrl_credit r)) (pop_co d r)) w))))
  end.

Definition host_output (w : rworld) : rworld :=
  match host (rr w) with
  | None => w
  | Some h =>
      let w1 := on_o (send_host (head (host_o h)) (head (host_ctrl_o h)))
                  (on_r (set_host (Some (mkHost (host_i h) (tail (host_o h)) (tail (host_ctrl_o h))))) w) in
      if bool_decide (host_o h = []) && bool_decide (host_ctrl_o h = []) then w1 else again w1
  end.

Definition core_output (w : rworld) : result rworld :=
  match buffer_o (rr w) CENTER with
  | [] => Ok w
  | front :: _ =>
      (if IsMemWireFlit front then
         match g_net (rg w) with
         | None => Err (runtime_error "MEM request reached core without HBMNetwork")
         | Some n =>
             TryAcceptRequestFlit t n rid front ≫= fun '((ok, n) : bool * HBMNetwork) =>
             let w := on_g (put_net (Some n)) w in Ok (if ok then on_r (pop_o CENTER) w else w)
         end
       else if cooldown (coll (rr w)) CENTER then Ok (on_r (on_coll (set_cooldown CENTER false)) w)
       else if core_busy_i inp then Ok w
       else Ok (on_o (send_data CENTER front)
              (on_r (fun r => on_coll (fun c => if is_collective front then set_cooldown CENTER true c else c) (pop_o CENTER r)) w)))
      ≫= fun w : rworld => Ok (again w)
  end.

Definition core_ctrl_output (w : rworld) : result rworld :=
  match ctrl_buffer_o (rr w) CENTER with
  | [] => Ok w
  | front :: _ =>
      (if IsMemWireFlit front then
         match g_net (rg w) with
         | None => Err (runtime_error "MEM response reached core without HBMNetwork")
         | Some n =>
             TryAcceptResponseFlit n rid front ≫= fun '((ok, n) : bool * HBMNetwork) =>
             let w := on_g (put_net (Some n)) w in Ok (if ok then on_r (pop_co CENTER) w else w)
         end
       else if ctrl_core_busy_i inp then Ok w
       else Ok (on_o (send_ctrl CENTER front) (on_r (pop_co CENTER) w)))
      ≫= fun w : rworld => Ok (again w)
  end.

(** *** From inputs to outputs *)

Definition bad_type : exn := logic_error "message type outside the enumeration".
Definition not_attached (what : string) : exn := runtime_error what.

Definition host_route (w : rworld) : result rworld :=
  match host (rr w) with
  | Some h =>
      match host_i h with
      | [] => Ok w
      | temp :: q =>
          match DeserializeMsg temp with
          | None => Err bad_type
          | Some m =>
              GetNextHop (g_host_attach M) (des_ m) rid (-1) ≫= fun next : Directions =>
              if has_space (buffer_o (rr w) next) && (output_lock (rr w) next =? -1)
              then Ok (again (on_r (fun r => push_o next temp (set_host (Some (mkHost q (host_o h) (host_ctrl_o h))) r)) w))
              else Ok w
          end
      end
  | None => Ok w
  end.

Definition host_push (temp : Z) (h : host_side) : host_side := mkHost (host_i h) (host_o h ++ [temp]) (host_ctrl_o h).
Definition host_ctrl_push (temp : Z) (h : host_side) : host_side := mkHost (host_i h) (host_o h) (host_ctrl_o h ++ [temp]).

Definition note_contention (shared : bool) (g : router_globals) : router_globals := put_net (count_contention shared <$> g_net g) g.

Definition ctrl_route (w : rworld) (d : Directions) : result rworld :=
  match ctrl_buffer_i (rr w) d with
  | [] => Ok w
  | temp :: _ =>
      if IsMemWireFlit temp then
        MemFlitNextHop M t (g_v5 (rg w)) temp rid ≫= fun '((out, st) : Directions * v5_state) =>
        let w := on_g (put_v5 st) w in
        let q := ctrl_buffer_o (rr w) out in
        if negb (has_space q) then Ok w else
        let w := match q with x :: _ => if IsMemWireFlit x then w else on_g (note_contention true) w | [] => w end in
        Ok (again (on_r (fun r => push_co out temp (pop_ci d r)) w))
      else
        match DeserializeMsg temp with
        | None => Err (runtime_error "ControlMsgNextHop requires a control message")
        | Some m =>
            ControlMsgNextHop M m rid ≫= fun out : Directions =>
            if bool_decide (out = HOST) then
              match host (rr w) with
              | None => Err (not_attached "HOST ctrl route reached a non-attachment tile")
              | Some h =>
                  if negb (has_space (host_ctrl_o h)) then Ok w
                  else Ok (again (on_r (fun r => set_host (Some (host_ctrl_push temp h)) (pop_ci d r)) w))
              end
            else if negb (has_space (ctrl_buffer_o (rr w) out)) then Ok w
            else Ok (again (on_r (fun r => push_co out temp (pop_ci d r)) w))
        end
  end.

(** An input that moved a collective or memory flit hands the turn to the next. *)
Definition next_turn (i : nat) (w : rworld) : rworld := again (on_r (on_coll (set_rr (S i mod 5))) w).
Definition dir_at (i : nat) : Directions := nth i dirs CENTER.

Definition reduce_header_in (d : Directions) (temp : Z) (w : rworld) : result rworld :=
  THROW runtime_error "second reduce header arrived before payload" WHEN bool_decide (is_Some (reduce_header (coll (rr w)) d));;
  Ok (again (on_r (fun r => on_coll (set_header d (Some temp)) (pop_i d r)) w)).

(** The match entry of an operand, opened by the first one; [None] when the table is full. *)
Definition open_match (key : CollReduceMatchKey) (node : CollReduceTreeNode) (o : CollReduceOperand) (c : coll_state)
    : result (option coll_state) :=
  if bool_decide (is_Some (reduce_active c !! key)) then Ok (Some c) else
  Open (reduce_match c) key (expected_inputs node) (o_dtype o) (o_op o) (o_valid_elements o) ≫=
    fun '((b, ok) : CollOperandMatchBuffer * bool) =>
  Ok (if ok then Some (set_match b (<[key := o]> (reduce_active c)) c) else None).

(** The completed reduction is computed and queued towards the parent. *)
Definition finish_match (key : CollReduceMatchKey) (node : CollReduceTreeNode) (c : coll_state) : result coll_state :=
  Consume (reduce_match c) key ≫= fun '((b, res) : CollOperandMatchBuffer * CollDcaResult) =>
  match reduce_active c !! key with
  | None => Err (out_of_range "map::at")
  | Some o =>
      let reinject := with_child (with_payload o (dca_payload res)) (u16 rid) in
      let available := Z.max now (reduce_dca_available c) + service_cycles res * CYCLE in
      Ok (set_scheduled (reduce_scheduled c ++ [mkSched available (dir_of (parent_output node)) reinject]) available
            (set_match b (delete key (reduce_active c)) c))
  end.

Definition reduce_payload_in (i : nat) (temp : Z) (w : rworld) : result rworld :=
  let d := dir_at i in
  let c := coll (rr w) in
  match reduce_header c d with
  | None => Err (runtime_error "reduce payload arrived without header")
  | Some header =>
      if (16 <=? length (reduce_scheduled c))%nat then Ok w else
      DeserializeCollReduceOperand [header; temp] ≫= fun o : CollReduceOperand =>
      let o := with_child o (dir_code d) in
      let key := mkMatchKey (o_collective o) (o_phase_id o) (o_chunk_id o) in
      LookupCollectiveReduceNode (g_reduce_nodes (rg w)) (o_tree_id o) (u16 rid) ≫= fun node : CollReduceTreeNode =>
      open_match key node o c ≫= fun oc : option coll_state =>
      match oc with
      | None => Ok w
      | Some c =>
          let a := Accept (reduce_match c) key (o_child_id o) (o_dtype o) (o_op o) (o_valid_elements o) (o_payload o) in
          let c := set_match a.1 (reduce_active c) c in
          match a.2 with
          | BACKPRESSURE => Ok (on_r (set_coll c) w)
          | DUPLICATE | UNEXPECTED | MISMATCH => Err (runtime_error "invalid in-network reduce operand")
          | st =>
              (if bool_decide (st = READY) then finish_match key node (set_header d None c) else Ok (set_header d None c)) ≫= fun c : coll_state =>
              Ok (next_turn i (on_r (fun r => pop_i d (set_coll c r)) w))
          end
      end
  end.

Definition multicast_in (i : nat) (temp : Z) (w : rworld) : result rworld :=
  let d := dir_at i in
  DeserializeCollData temp ≫= fun h : CollDataHeader =>
  LookupCollectiveTreeEntry (g_fabric (rg w)) (mkTreeKey (h_tree_id h) (u16 rid) (dir_code d)) ≫= fun outputs : Z =>
  let available := (fun d => has_space (buffer_o (rr w) d)) <$> dirs in
  let k := h_packet h in
  let lock_key := mkLockKey (h_tree_id h) (pk_collective k) (pk_phase_id k) (pk_chunk_id k) in
  let can_commit := CanCommit (collective_fork (coll (rr w))) outputs available lock_key in
  let w := on_g (fun g => put_fabric (RecordCollectiveForkAttempt (g_fabric g) (h_tree_id h) (u16 rid) outputs can_commit) g) w in
  if negb can_commit then Ok w else
  match Commit (collective_fork (coll (rr w))) outputs (h_seq_id h =? 1) (h_is_end h) lock_key with
  | (_, Some e) => Err e
  | (f, None) =>
      Ok (next_turn i (on_r (fun r =>
        foldl (fun r d => if Z.testbit outputs (dir_code d) then push_o d temp r else r) (pop_i d (on_coll (set_fork f) r)) dirs) w))
  end.

Definition mem_in (i : nat) (temp : Z) (w : rworld) : result rworld :=
  MemFlitNextHop M t (g_v5 (rg w)) temp rid ≫= fun '((out, st) : Directions * v5_state) =>
  let w := on_g (put_v5 st) w in
  let q := buffer_o (rr w) out in
  if negb (has_space q) then Ok w else
  let w := match q with x :: _ => on_g (note_contention (negb (IsMemWireFlit x))) w | [] => w end in
  Ok (next_turn i (on_r (fun r => push_o out temp (pop_i (dir_at i) r)) w)).

Definition lock_output (out : Directions) (tag n : Z) (r : router) : router :=
  set_locks (set_dir out tag (output_lock r)) (set_dir out n (output_lock_ref r)) r.

(** The first packet of a flow between cores takes the lock of its output, or a
    share of it; [None] when another tag holds it. *)
Definition take_lock (m : Msg) (out : Directions) (w : rworld) : option rworld :=
  if negb (bool_decide (msg_type_ m = DATA) && (seq_id_ m =? 1) && negb (IsHostEndpoint (des_ m)) && negb (IsHostEndpoint (source_ m)))
  then Some w else
  let held := output_lock (rr w) out in
  if (held =? -1) || (held =? tag_id_ m) then
    let n := output_lock_ref (rr w) out + 1 in
    Some (on_g (fun g => put_counts (g_d2d_source_stalls g) (g_protocol_progress g) (Z.max n (g_max_output_lock_ref g)) g)
            (on_r (lock_output out (tag_id_ m) n) w))
  else None.

(** The last one gives its share back; an error in the log stops the simulation. *)
Definition drop_lock (m : Msg) (out : Directions) (w : rworld) : result rworld :=
  if negb (bool_decide (msg_type_ m = DATA) && is_end_ m && negb (IsHostEndpoint (source_ m)) && negb (IsHostEndpoint (des_ m)))
  then Ok w else
  let n := output_lock_ref (rr w) out - 1 in
  THROW logic_error "output reference below zero" WHEN n <? 0;;
  Ok (on_r (lock_output out (if n =? 0 then -1 else output_lock (rr w) out) n) w).

Definition message_in (d : Directions) (temp : Z) (w : rworld) : result rworld :=
  match DeserializeMsg temp with
  | None => Err bad_type
  | Some m =>
      DataMsgNextHop M m rid ≫= fun out : Directions =>
      THROW not_attached "HOST data route reached a non-attachment tile"
        WHEN bool_decide (out = HOST) && bool_decide (host (rr w) = None);;
      if negb (IsHostEndpoint (des_ m)) && negb (output_lock (rr w) out =? -1) && negb (output_lock (rr w) out =? tag_id_ m) then Ok w
      else if negb (match host (rr w) with
                    | Some h => if decide (out = HOST) then has_space (host_o h) else has_space (buffer_o (rr w) out)
                    | None => has_space (buffer_o (rr w) out) end) then Ok w
      else match take_lock m out w with
           | None => Ok w
           | Some w =>
               drop_lock m out w ≫= fun w : rworld =>
               Ok (again (on_r (fun r =>
                 if decide (out = HOST) then set_host (host_push temp <$> host r) (pop_i d r) else push_o out temp (pop_i d r)) w))
           end
  end.

Definition data_route (w : rworld) (i : nat) : result rworld :=
  match buffer_i (rr w) (dir_at i) with
  | [] => Ok w
  | temp :: _ =>
      if IsCollReduceHeaderWire temp then reduce_header_in (dir_at i) temp w
      else if IsCollReducePayloadWire temp then reduce_payload_in i temp w
      else if IsCollDataWire temp then multicast_in i temp w
      else if IsMemWireFlit temp then mem_in i temp w
      else message_in (dir_at i) temp w
  end.
(** The start of the turns is read again at every step. *)
Definition data_route_step (w : rworld) (step : nat) : result rworld :=
  data_route w ((collective_rr_start (coll (rr w)) + step) mod 5).

Definition publish (w : rworld) : rworld :=
  let r := rr w in
  on_o (publish_avail (fun d => has_space (buffer_i r d)) (fun d => has_space (ctrl_buffer_i r d))
          (match host r with Some h => has_space (host_i h) | None => false end)) w.

Definition router_execute (r : router) (g : router_globals) : result rworld :=
  drain_scheduled (mkRw r (silent false) g false) ≫= fun w : rworld =>
  foldM read_credits w sides ≫= fun w : rworld =>
  foldM data_input w dirs ≫= fun w : rworld =>
  foldM ctrl_input w dirs ≫= fun w : rworld =>
  let w := host_input w in
  foldM data_output w sides ≫= fun w : rworld =>
  foldM ctrl_output w sides ≫= fun w : rworld =>
  core_output (host_output w) ≫= fun w : rworld =>
  core_ctrl_output w ≫= fun w : rworld =>
  host_route w ≫= fun w : rworld =>
  foldM ctrl_route w dirs ≫= fun w : rworld =>
  foldM data_route_step w (seq 0 5) ≫= fun w : rworld =>
  let w := publish w in
  Ok (if bool_decide (reduce_scheduled (coll (rr w)) = []) then w else again w).
End pass.

(** *** Injection of memory flits, credits, residual *)

(** [InjectMemRequestFlit] and [InjectMemResponseFlit]: the caller waits while
    there is no space; [None] then. *)
Definition InjectMemRequestFlit (wire : Z) (r : router) : result (option router) :=
  let bad := runtime_error "InjectMemRequestFlit: not a request flit" in
  THROW bad WHEN negb (IsMemWireFlit wire);;
  InspectMemWireFlit wire ≫= fun route : MemFlitRoute =>
  THROW bad WHEN negb (request_direction route);;
  Ok (if has_space (buffer_i r CENTER) then Some (push_i CENTER wire r) else None).
Definition InjectMemResponseFlit (wire : Z) (r : router) : result (option router) :=
  let bad := runtime_error "InjectMemResponseFlit: not a response flit" in
  THROW bad WHEN negb (IsMemWireFlit wire);;
  InspectMemWireFlit wire ≫= fun route : MemFlitRoute =>
  THROW bad WHEN request_direction route;;
  Ok (if has_space (ctrl_buffer_i r CENTER) then Some (push_ci CENTER wire r) else None).

Definition enable_credit (what : string) (d : Directions) (initial : Z) (c : credit_lane) : result credit_lane :=
  THROW runtime_error what WHEN negb (is_side d) || (initial <? 1);;
  Ok (mkCredit true (c_seen c) initial initial).
Definition EnableD2DDataCredit (d : Directions) (initial : Z) (r : router) : result router :=
  enable_credit "invalid D2D data credit configuration" d initial (data_credit r d) ≫= fun c : credit_lane =>
  Ok (set_credit (set_dir d c (data_credit r)) (ctrl_credit r) r).
Definition EnableD2DCtrlCredit (d : Directions) (initial : Z) (r : router) : result router :=
  enable_credit "invalid D2D control credit configuration" d initial (ctrl_credit r d) ≫= fun c : credit_lane =>
  Ok (set_credit (data_credit r) (set_dir d c (ctrl_credit r)) r).

Definition balanced (c : credit_lane) : bool := negb (c_enabled c) || (c_credits c =? c_capacity c).
Definition D2DDataCreditsBalanced (r : router) : bool := forallb (fun d => balanced (data_credit r d)) sides.
Definition D2DCtrlCreditsBalanced (r : router) : bool := forallb (fun d => balanced (ctrl_credit r d)) sides.

Definition sum_dirs (f : Directions -> Z) : Z := foldr (fun d acc => f d + acc) 0 dirs.
Definition router_residual (r : router) : Z :=
  let c := coll r in
  CollTree.Residual (collective_fork c) + (CollReduce.Residual (reduce_match c) + Z.of_nat (size (reduce_active c)) +
    Z.of_nat (length (reduce_scheduled c))) + sum_dirs (fun d => b2z (bool_decide (is_Some (reduce_header c d)))) +
  sum_dirs (fun d => Z.max 0 (input_lock_ref r d) + Z.max 0 (output_lock_ref r d) + (size_of (buffer_i r d) + size_of (buffer_o r d)) +
                     (size_of (ctrl_buffer_i r d) + size_of (ctrl_buffer_o r d))) +
  match host r with Some h => size_of (host_i h) + size_of (host_o h) + size_of (host_ctrl_o h) | None => 0 end.
