(* ===== verification/RouterFlow.v ===== *)
(** What a pass of the router does to the flits: every queue is first in first
    out, every flit that leaves an input goes where routing sends it, and none is
    lost, repeated or made up.  What a reduction keeps of its operands, and what a
    memory flit does at its network, is a ledger, and a pass is a list of events that
    move flits and change the ledger. *)

From S2P Require Import Prelude Bits CollTypes CollCodec CollTree CollReduce.
From S2P Require Import HbmAddressMap MsgWire D2DConfig DieTopology PortSelect HostAttach HbmMemWire Routing HbmNetwork Router.

(** ** Queues and moves *)

Inductive spot : Type := InData (d : Directions) | InCtrl (d : Directions) | InHost
                        | OutData (d : Directions) | OutCtrl (d : Directions) | OutHost | OutHostCtrl.
#[export] Instance spot_eq_dec : EqDecision spot.
Proof. solve_decision. Defined.

Definition at_host (f : host_side -> list Z) (r : router) : list Z := match host r with Some h => f h | None => [] end.
Definition queue (r : router) (q : spot) : list Z :=
  match q with
  | InData d => buffer_i r d | InCtrl d => ctrl_buffer_i r d | InHost => at_host host_i r
  | OutData d => buffer_o r d | OutCtrl d => ctrl_buffer_o r d | OutHost => at_host host_o r | OutHostCtrl => at_host host_ctrl_o r
  end.
Definition is_input (q : spot) : bool := match q with InData _ | InCtrl _ | InHost => true | _ => false end.

(** A flit leaves one queue and enters others; a reduction result comes from none. *)
Record move : Type := mkMove { mv_from : option spot; mv_to : list spot; mv_flit : Z }.
Definition taken (q : spot) (l : list move) : list Z := omap (fun m => if decide (mv_from m = Some q) then Some (mv_flit m) else None) l.
Definition entered (q : spot) (l : list move) : list Z := l ≫= fun m => (fun _ => mv_flit m) <$> List.filter (fun q' => bool_decide (q' = q)) (mv_to m).

Lemma taken_app q l l' : taken q (l ++ l') = taken q l ++ taken q l'.
Proof. apply omap_app. Qed.
Lemma entered_app q l l' : entered q (l ++ l') = entered q l ++ entered q l'.
Proof. apply bind_app. Qed.

(** ** The balance of the queues *)

Record balance (mv : list move) (ins outs : spot -> list Z) (r r' : router) : Prop := {
  ba_in : forall q, is_input q = true -> queue r q ++ ins q = taken q mv ++ queue r' q;
  ba_out : forall q, is_input q = false -> queue r q ++ entered q mv = outs q ++ queue r' q
}.
Definition none : spot -> list Z := fun _ => [].
Definition both (f g : spot -> list Z) : spot -> list Z := fun q => f q ++ g q.
Definition only (q : spot) (x : Z) : spot -> list Z := fun q' => if decide (q' = q) then [x] else [].

Lemma balance_refl r : balance [] none none r r.
Proof. split; intros q _; cbn; by rewrite ?app_nil_r. Qed.

Lemma balance_same r r' : (forall q, queue r' q = queue r q) -> balance [] none none r r'.
Proof. intros E. split; intros q _; cbn; by rewrite ?app_nil_r. Qed.

Lemma balance_trans mv1 mv2 i1 i2 o1 o2 r1 r2 r3 : balance mv1 i1 o1 r1 r2 -> balance mv2 i2 o2 r2 r3 ->
  balance (mv1 ++ mv2) (both i1 i2) (both o1 o2) r1 r3.
Proof.
  intros [A1 A2] [B1 B2]. split; intros q Hq; unfold both.
  - by rewrite taken_app, app_assoc, A1, <- app_assoc, B1, app_assoc.
  - by rewrite entered_app, app_assoc, A2, <- app_assoc, B2, app_assoc.
Qed.

Lemma balance_ext mv i i' o o' r r' : (forall q, i q = i' q) -> (forall q, o q = o' q) -> balance mv i o r r' -> balance mv i' o' r r'.
Proof. intros Hi Ho [A B]. split; intros q Hq; rewrite <- ?Hi, <- ?Ho; auto. Qed.

Lemma balance_queue mv i o r r' r'' : (forall q, queue r'' q = queue r' q) -> balance mv i o r r' -> balance mv i o r r''.
Proof. intros E [A B]. split; intros q Hq; rewrite E; auto. Qed.

Lemma balance_queue_l mv i o r r' r'' : (forall q, queue r'' q = queue r q) -> balance mv i o r r' -> balance mv i o r'' r'.
Proof. intros E [A B]. split; intros q Hq; rewrite E; auto. Qed.

(** *** The primitive operations *)

Definition set_queue (q : spot) (x : list Z) (r : router) : router :=
  match q with
  | InData d => set_bi (set_dir d x (buffer_i r)) r
  | InCtrl d => set_ci (set_dir d x (ctrl_buffer_i r)) r
  | OutData d => set_bo (set_dir d x (buffer_o r)) r
  | OutCtrl d => set_co (set_dir d x (ctrl_buffer_o r)) r
  | InHost => set_host ((fun h => mkHost x (host_o h) (host_ctrl_o h)) <$> host r) r
  | OutHost => set_host ((fun h => mkHost (host_i h) x (host_ctrl_o h)) <$> host r) r
  | OutHostCtrl => set_host ((fun h => mkHost (host_i h) (host_o h) x) <$> host r) r
  end.
Definition present (q : spot) (r : router) : Prop :=
  match q with InHost | OutHost | OutHostCtrl => is_Some (host r) | _ => True end.

Lemma queue_set q x r q' : present q r -> queue (set_queue q x r) q' = if decide (q' = q) then x else queue r q'.
Proof.
  intros Hp. destruct q, q'; cbn in *; unfold set_dir, at_host; cbn; try (destruct Hp as [h ->]; cbn); repeat case_decide; congruence || done.
Qed.

Lemma present_set q x r q' : present q' (set_queue q x r) <-> present q' r.
Proof. destruct q, q'; cbn; try done; by rewrite fmap_is_Some. Qed.

Lemma balance_arrive q x r : is_input q = true -> present q r -> balance [] (only q x) none r (set_queue q (queue r q ++ [x]) r).
Proof.
  intros Hi Hp. split; intros q' Hq'; rewrite queue_set by done; unfold only; case_decide; subst; cbn; rewrite ?app_nil_r; try done. congruence.
Qed.

Lemma balance_leave q x l r : is_input q = false -> present q r -> queue r q = x :: l -> balance [] none (only q x) r (set_queue q l r).
Proof.
  intros Hi Hp E. split; intros q' Hq'; rewrite queue_set by done; unfold only; case_decide; subst; cbn; rewrite ?app_nil_r, ?E; try done. congruence.
Qed.

Lemma balance_take q x l r : is_input q = true -> present q r -> queue r q = x :: l -> balance [mkMove (Some q) [] x] none none r (set_queue q l r).
Proof.
  intros Hi Hp E. split; intros q' Hq'; rewrite queue_set by done.
  - cbn. repeat case_decide; subst; rewrite ?app_nil_r, ?E; try done; congruence.
  - cbn. case_decide; subst; [congruence|]. by rewrite ?app_nil_r.
Qed.

Lemma balance_make q x r : is_input q = false -> present q r -> balance [mkMove None [q] x] none none r (set_queue q (queue r q ++ [x]) r).
Proof.
  intros Hi Hp. split; intros q' Hq'; rewrite queue_set by done; cbn.
  - repeat case_decide; subst; try congruence; by rewrite ?app_nil_r.
  - case_bool_decide; case_decide; subst; try congruence; cbn; by rewrite ?app_nil_r.
Qed.

(** A flit that goes on: taken from one queue, put into others. *)
Definition made (x : Z) (q : spot) : move := mkMove None [q] x.

Lemma entered_move q o qs x : entered q [mkMove o qs x] = (fun _ => x) <$> List.filter (fun q' => bool_decide (q' = q)) qs.
Proof. unfold entered. cbn. by rewrite app_nil_r. Qed.
Lemma taken_made q x qs : taken q (made x <$> qs) = [].
Proof. by induction qs. Qed.
Lemma entered_made q x qs : entered q (made x <$> qs) = (fun _ => x) <$> List.filter (fun q' => bool_decide (q' = q)) qs.
Proof.
  induction qs as [|y qs IH]; [done|]. rewrite fmap_cons. change (made x y :: ?l) with ([made x y] ++ l). rewrite entered_app, IH.
  unfold made at 1. rewrite entered_move. cbn. by case_bool_decide.
Qed.

Lemma balance_join q qs x r r' : balance ([mkMove (Some q) [] x] ++ (made x <$> qs)) none none r r' -> balance [mkMove (Some q) qs x] none none r r'.
Proof.
  intros [A B]. split; intros q' Hq'.
  - rewrite (A q' Hq'), taken_app, taken_made. by rewrite app_nil_r.
  - rewrite <- (B q' Hq'), entered_app, entered_made, !entered_move. done.
Qed.

(** Operations that leave the queues alone. *)
Lemma queue_credit d c r q : queue (set_credit d c r) q = queue r q. Proof. by destruct q. Qed.
Lemma queue_coll f r q : queue (on_coll f r) q = queue r q. Proof. by destruct q. Qed.
Lemma queue_set_coll c r q : queue (set_coll c r) q = queue r q. Proof. by destruct q. Qed.
Lemma queue_locks l n r q : queue (set_locks l n r) q = queue r q. Proof. by destruct q. Qed.
#[export] Hint Rewrite queue_credit queue_coll queue_set_coll queue_locks : queues.
Ltac same_queues := apply balance_same; intros ?; cbn [rr on_r on_g on_o again]; autorewrite with queues; done.

Lemma queue_pop q r r0 x l : (forall k, queue r0 k = queue r k) -> present q r -> present q r0 -> queue r q = x :: l ->
  forall k, queue (set_queue q (tail (queue r0 q)) r0) k = queue (set_queue q l r) k.
Proof. intros E Hp Hp0 Hq k. rewrite !queue_set, !E, Hq by done. done. Qed.

Definition goes_to (ctrl : bool) (out : Directions) : spot :=
  if decide (out = HOST) then (if ctrl then OutHostCtrl else OutHost) else (if ctrl then OutCtrl out else OutData out).

Section pass.
Context `{G : Geometry} (M : machine) (t : hbm_tables) (spec : bool) (rid now : Z) (inp : router_in).

(** A move that routing prescribes, given the entries of the distribution trees. *)
Inductive legit (entries : tree_map) : move -> Prop :=
  | legit_message d out x m : is_collective x = false -> IsMemWireFlit x = false -> DeserializeMsg x = Some m -> DataMsgNextHop M m rid = Ok out ->
      legit entries (mkMove (Some (InData d)) [goes_to false out] x)
  | legit_control d out x m : IsMemWireFlit x = false -> DeserializeMsg x = Some m -> ControlMsgNextHop M m rid = Ok out ->
      legit entries (mkMove (Some (InCtrl d)) [goes_to true out] x)
  | legit_memory (ctrl : bool) d out x st st' : IsMemWireFlit x = true -> MemFlitNextHop M t st x rid = Ok (out, st') ->
      legit entries (if ctrl then mkMove (Some (InCtrl d)) [OutCtrl out] x else mkMove (Some (InData d)) [OutData out] x)
  | legit_host out x m : DeserializeMsg x = Some m -> GetNextHop (g_host_attach M) (des_ m) rid (-1) = Ok out ->
      legit entries (mkMove (Some InHost) [OutData out] x)
  | legit_multicast d x h outputs : IsCollDataWire x = true -> DeserializeCollData x = Ok h ->
      entries !! mkTreeKey (h_tree_id h) (u16 rid) (dir_code d) = Some outputs ->
      legit entries (mkMove (Some (InData d)) (OutData <$> List.filter (fun o => Z.testbit outputs (dir_code o)) dirs) x).

(** What the router holds of the reductions, what the network holds but for its statistics, and whether
    the next collective flit of the core is a new one. *)
Record ledger : Type := mkLedger {
  lg_header : per_dir (option Z); lg_match : CollOperandMatchBuffer; lg_active : gmap CollReduceMatchKey CollReduceOperand;
  lg_scheduled : list scheduled_reduce; lg_dca : Z; lg_net : option HBMNetwork; lg_armed : bool
}.
Definition ledger_of (r : router) (g : router_globals) : ledger :=
  let c := coll r in
  mkLedger (reduce_header c) (reduce_match c) (reduce_active c) (reduce_scheduled c) (reduce_dca_available c) (set_stats no_net_stats <$> g_net g) (center_armed c).
Definition with_headers (h : per_dir (option Z)) (L : ledger) : ledger := mkLedger h (lg_match L) (lg_active L) (lg_scheduled L) (lg_dca L) (lg_net L) (lg_armed L).
Definition with_match (b : CollOperandMatchBuffer) (a : gmap CollReduceMatchKey CollReduceOperand) (L : ledger) : ledger :=
  mkLedger (lg_header L) b a (lg_scheduled L) (lg_dca L) (lg_net L) (lg_armed L).
Definition with_scheduled (l : list scheduled_reduce) (t : Z) (L : ledger) : ledger := mkLedger (lg_header L) (lg_match L) (lg_active L) l t (lg_net L) (lg_armed L).
Definition with_net (n : HBMNetwork) (L : ledger) : ledger :=
  mkLedger (lg_header L) (lg_match L) (lg_active L) (lg_scheduled L) (lg_dca L) (Some (set_stats no_net_stats n)) (lg_armed L).
Definition with_armed (b : bool) (L : ledger) : ledger := mkLedger (lg_header L) (lg_match L) (lg_active L) (lg_scheduled L) (lg_dca L) (lg_net L) b.

(** A flit is forwarded; the operand at the head of an input opens an entry; a header is kept for its
    payload; an operand is kept in its entry, or completes it; a result goes out; the network takes a
    memory flit off its output, or does not; the core's collective flit has been read, or is gone. *)
Inductive event : Type :=
  | Forward (m : move) | OpenMatch (d : Directions) (x : Z) | KeepHeader (d : Directions) (x : Z) | KeepOperand (d : Directions) (x : Z)
  | FinishReduce (d : Directions) (x : Z) | EmitResult (it : scheduled_reduce) | NetTake (ctrl : bool) (x : Z) | NetRefuse (ctrl : bool) (x : Z)
  | ArmCore (b : bool).
Definition result_wire (it : scheduled_reduce) : list Z := match SerializeCollReduceOperand (sr_operand it) with Ok wire => wire | Err _ => [] end.
Definition moves_of (e : event) : list move :=
  match e with
  | Forward m => [m]
  | KeepHeader d x | KeepOperand d x | FinishReduce d x => [mkMove (Some (InData d)) [] x]
  | EmitResult it => (fun x => made x (OutData (sr_output it))) <$> result_wire it
  | _ => []
  end.
Definition net_took (ctrl : bool) (evs : list event) : list Z :=
  omap (fun e => match e with NetTake c x => if eqb c ctrl then Some x else None | _ => None end) evs.
(** What a step that is not quiet does: the network takes a flit, the core's input is armed or not. *)
Definition noted (evs : list event) : list event := List.filter (fun e => match e with NetTake _ _ | ArmCore _ => true | _ => false end) evs.
Definition armed_after (b : bool) (evs : list event) : bool := foldl (fun b e => match e with ArmCore b' => b' | _ => b end) b evs.
Lemma noted_app evs1 evs2 : noted (evs1 ++ evs2) = noted evs1 ++ noted evs2.
Proof using. apply List.filter_app. Qed.
Lemma net_took_app ctrl evs1 evs2 : net_took ctrl (evs1 ++ evs2) = net_took ctrl evs1 ++ net_took ctrl evs2.
Proof using. apply omap_app. Qed.
Lemma net_took_noted ctrl evs : net_took ctrl evs = net_took ctrl (noted evs).
Proof using. induction evs as [|e evs IH]; [done|]. change (net_took ctrl ([e] ++ evs) = net_took ctrl (noted ([e] ++ evs))). rewrite noted_app, !net_took_app, IH. by destruct e. Qed.
Lemma armed_noted b evs : armed_after b evs = armed_after b (noted evs).
Proof using. revert b. induction evs as [|e evs IH]; intros b; [done|]. destruct e; apply IH. Qed.
Lemma armed_app b evs1 evs2 : armed_after b (evs1 ++ evs2) = armed_after (armed_after b evs1) evs2.
Proof using. apply foldl_app. Qed.

(** The distribution trees and the nodes of the reductions. *)
Definition tables : Type := tree_map * reduce_nodes.
Definition trees_of (w : rworld) : tables := (g_tree_entries (g_fabric (rg w)), g_reduce_nodes (rg w)).

(** The operand of a payload and of the header kept for it, its node and the key of its entry. *)
Record operand_at (T : tables) (L : ledger) (d : Directions) (x : Z) (o : CollReduceOperand) (node : CollReduceTreeNode) (key : CollReduceMatchKey) : Prop := {
  oa_wire : IsCollReducePayloadWire x = true;
  oa_decode : exists h o0, lg_header L d = Some h /\ DeserializeCollReduceOperand [h; x] = Ok o0 /\ o = with_child o0 (dir_code d);
  oa_node : T.2 !! (o_tree_id o, u16 rid) = Some node;
  oa_key : key = mkMatchKey (o_collective o) (o_phase_id o) (o_chunk_id o)
}.
Definition entry_open (node : CollReduceTreeNode) (o : CollReduceOperand) : match_state :=
  mkMatchState (expected_inputs node) 0 (o_dtype o) (o_op o) (o_valid_elements o) [].
Definition entry_with (o : CollReduceOperand) (s : match_state) : match_state :=
  mkMatchState (ms_expected s) (Z.lor (ms_received s) (Z.shiftl 1 (o_child_id o))) (ms_dtype s) (ms_op s) (ms_count s) (ms_values s ++ [o_payload o]).
(** The entry waits for this child and has not had it yet. *)
Record entry_takes (o : CollReduceOperand) (s : match_state) : Prop := {
  et_expected : Z.testbit (ms_expected s) (o_child_id o) = true;
  et_new : Z.testbit (ms_received s) (o_child_id o) = false;
  et_same : ms_dtype s = o_dtype o /\ ms_op s = o_op o /\ ms_count s = o_valid_elements o
}.

Inductive happens (T : tables) : ledger -> event -> ledger -> Prop :=
  | hp_forward L m : legit T.1 m -> happens T L (Forward m) L
  | hp_header L d x : IsCollReduceHeaderWire x = true -> lg_header L d = None -> happens T L (KeepHeader d x) (with_headers (set_dir d (Some x) (lg_header L)) L)
  | hp_open L d x o node key : operand_at T L d x o node key -> states (lg_match L) !! key = None -> lg_active L !! key = None ->
      Z.of_nat (size (states (lg_match L))) <> hcap (lg_match L) ->
      happens T L (OpenMatch d x) (with_match (mkMatchBuffer (hcap (lg_match L)) (ocap (lg_match L)) (operands (lg_match L))
        (<[key := entry_open node o]> (states (lg_match L)))) (<[key := o]> (lg_active L)) L)
  | hp_keep L d x o node key s : operand_at T L d x o node key -> states (lg_match L) !! key = Some s -> entry_takes o s -> operands (lg_match L) <> ocap (lg_match L) ->
      ms_received (entry_with o s) <> ms_expected s ->
      happens T L (KeepOperand d x) (with_headers (set_dir d None (lg_header L)) (with_match
        (mkMatchBuffer (hcap (lg_match L)) (ocap (lg_match L)) (operands (lg_match L) + 1) (<[key := entry_with o s]> (states (lg_match L)))) (lg_active L) L))
  | hp_finish L d x o node key s first payload cycles : operand_at T L d x o node key -> states (lg_match L) !! key = Some s -> entry_takes o s ->
      operands (lg_match L) <> ocap (lg_match L) -> ms_received (entry_with o s) = ms_expected s -> lg_active L !! key = Some first ->
      ReduceIntegerOperands (ms_values s ++ [o_payload o]) (ms_dtype s) (ms_op s) (ms_count s) = Ok payload ->
      CollDcaServiceCycles (u64 (ms_count s * CollDTypeBits (ms_dtype s))) (u64 (ms_count s * u64 (popcount (ms_expected s) - 1))) 128 54 = Ok cycles ->
      let ready := Z.max now (lg_dca L) + cycles * CYCLE in
      happens T L (FinishReduce d x) (with_scheduled (lg_scheduled L ++ [mkSched ready (dir_of (parent_output node)) (with_child (with_payload first payload) (u16 rid))]) ready
        (with_headers (set_dir d None (lg_header L)) (with_match (mkMatchBuffer (hcap (lg_match L)) (ocap (lg_match L))
          (operands (lg_match L) - Z.of_nat (length (ms_values s))) (delete key (states (lg_match L)))) (delete key (lg_active L)) L)))
  | hp_emit L l1 it l2 wire : lg_scheduled L = l1 ++ it :: l2 -> sr_ready it <= now -> SerializeCollReduceOperand (sr_operand it) = Ok wire ->
      happens T L (EmitResult it) (with_scheduled (l1 ++ l2) (lg_dca L) L)
  | hp_take L (ctrl : bool) x n n' : IsMemWireFlit x = true -> lg_net L = Some (set_stats no_net_stats n) ->
      (if ctrl then TryAcceptResponseFlit n rid x else TryAcceptRequestFlit t n rid x) = Ok (true, n') -> happens T L (NetTake ctrl x) (with_net n' L)
  | hp_refuse L (ctrl : bool) x n n' : IsMemWireFlit x = true -> lg_net L = Some (set_stats no_net_stats n) ->
      (if ctrl then TryAcceptResponseFlit n rid x else TryAcceptRequestFlit t n rid x) = Ok (false, n') -> happens T L (NetRefuse ctrl x) (with_net n' L)
  | hp_arm L b : happens T L (ArmCore b) (with_armed b L).

Inductive acts (T : tables) : ledger -> list event -> ledger -> Prop :=
  | acts_nil L : acts T L [] L
  | acts_cons L1 e L2 evs L3 : happens T L1 e L2 -> acts T L2 evs L3 -> acts T L1 (e :: evs) L3.
Lemma acts_app T L1 L2 L3 evs1 evs2 : acts T L1 evs1 L2 -> acts T L2 evs2 L3 -> acts T L1 (evs1 ++ evs2) L3.
Proof using. induction 1; [done|]. intros H2. econstructor; eauto. Qed.
Lemma acts_one T L e L' : happens T L e L' -> acts T L [e] L'.
Proof using. intros H. by eapply acts_cons, acts_nil. Qed.

Definition ledger_w (w : rworld) : ledger := ledger_of (rr w) (rg w).

Record step (evs : list event) (ins outs : spot -> list Z) (w w' : rworld) : Prop := {
  st_balance : balance (evs ≫= moves_of) ins outs (rr w) (rr w');
  st_acts : acts (trees_of w) (ledger_w w) evs (ledger_w w');
  st_trees : trees_of w' = trees_of w
}.

Lemma step_trans evs1 evs2 i1 i2 o1 o2 w1 w2 w3 : step evs1 i1 o1 w1 w2 -> step evs2 i2 o2 w2 w3 ->
  step (evs1 ++ evs2) (both i1 i2) (both o1 o2) w1 w3.
Proof using.
  intros [A1 A2 A3] [B1 B2 B3]. split; [rewrite bind_app; by eapply balance_trans| |congruence].
  eapply acts_app; [done|]. by rewrite A3 in B2.
Qed.
Lemma step_ext mv i i' o o' w w' : (forall q, i q = i' q) -> (forall q, o q = o' q) -> step mv i o w w' -> step mv i' o' w w'.
Proof using. intros Hi Ho [A B C]. split; [by eapply balance_ext|done|done]. Qed.
Lemma step_refl w : step [] none none w w.
Proof using. split; [apply balance_refl|constructor|done]. Qed.

(** Steps that forward flits and keep the books of reductions: no arrivals, no departures, nothing for the network. *)
Definition quiet_step (w w' : rworld) : Prop := exists evs, step evs none none w w' /\ ro w' = ro w /\ noted evs = [].
Lemma quiet_refl w : quiet_step w w.
Proof using. exists []. split; [apply step_refl|done]. Qed.
Lemma quiet_trans w1 w2 w3 : quiet_step w1 w2 -> quiet_step w2 w3 -> quiet_step w1 w3.
Proof using.
  intros (mv1 & A & Ea & Na) (mv2 & B & Eb & Nb). exists (mv1 ++ mv2). split; [|split; [congruence|by rewrite noted_app, Na, Nb]].
  eapply step_ext; [..|by eapply step_trans]; intros q; done.
Qed.
Lemma quiet_fold {A} (f : rworld -> A -> result rworld) l w w' : (forall w x w', f w x = Ok w' -> quiet_step w w') -> foldM f w l = Ok w' -> quiet_step w w'.
Proof using.
  intros Hf. apply (foldM_inv f (fun w1 => quiet_step w w1)); [|apply quiet_refl]. intros w1 x w2 _ Hw E. eapply quiet_trans; [exact Hw|by eapply Hf].
Qed.

(** A step that touches neither queues, nor trees, nor outputs, nor the ledger. *)
Lemma quiet_same w w' : (forall q, queue (rr w') q = queue (rr w) q) -> trees_of w' = trees_of w -> ro w' = ro w -> ledger_w w' = ledger_w w -> quiet_step w w'.
Proof using. intros Hq He Ho HL. exists []. split; [|done]. split; [by apply balance_same|rewrite HL; constructor|done]. Qed.

(** One event that takes a flit from an input. *)
Lemma quiet_event w w' e m : moves_of e = [m] -> balance [m] none none (rr w) (rr w') -> happens (trees_of w) (ledger_w w) e (ledger_w w') ->
  trees_of w' = trees_of w -> ro w' = ro w -> quiet_step w w'.
Proof using.
  intros Em Hb Hh He Ho. exists [e]. split; [|split; [done|by destruct e]]. split; [cbn; by rewrite app_nil_r, Em|by apply acts_one|done].
Qed.

(** One flit goes from an input to outputs. *)
Lemma balance_forward w q x l qs r' w' : is_input q = true -> present q (rr w) -> queue (rr w) q = x :: l ->
  balance (made x <$> qs) none none (set_queue q l (rr w)) r' -> (forall q, queue (rr w') q = queue r' q) -> balance [mkMove (Some q) qs x] none none (rr w) (rr w').
Proof using.
  intros Hi Hp Hq Hb Hr. apply balance_join. eapply balance_ext; [..|eapply balance_trans; [by apply balance_take|]]; [done|done|]. by eapply balance_queue.
Qed.
Lemma quiet_forward w q x l qs r' w' : is_input q = true -> present q (rr w) -> queue (rr w) q = x :: l ->
  balance (made x <$> qs) none none (set_queue q l (rr w)) r' -> (forall q, queue (rr w') q = queue r' q) ->
  legit (trees_of w).1 (mkMove (Some q) qs x) -> trees_of w' = trees_of w -> ro w' = ro w -> ledger_w w' = ledger_w w -> quiet_step w w'.
Proof using.
  intros Hi Hp Hq Hb Hr Hl He Ho HL. apply (quiet_event w w' (Forward (mkMove (Some q) qs x)) (mkMove (Some q) qs x)); [done| | |done|done].
  - by eapply balance_forward.
  - rewrite HL. by constructor.
Qed.

Lemma quiet_forward1 w q x l q' w' : is_input q = true -> is_input q' = false -> present q (rr w) -> present q' (rr w) -> queue (rr w) q = x :: l ->
  (forall k, queue (rr w') k = if decide (k = q) then l else if decide (k = q') then queue (rr w) q' ++ [x] else queue (rr w) k) ->
  legit (trees_of w).1 (mkMove (Some q) [q'] x) -> trees_of w' = trees_of w -> ro w' = ro w -> ledger_w w' = ledger_w w -> quiet_step w w'.
Proof using.
  intros Hi Ho Hp Hp' Hq Hk Hl He Hro HL. assert (q' <> q) as Hne by congruence.
  eapply (quiet_forward w q x l [q'] (set_queue q' (queue (set_queue q l (rr w)) q' ++ [x]) (set_queue q l (rr w)))); try done.
  - apply balance_make; [done|by apply present_set].
  - intros k. rewrite Hk, !queue_set by by try apply present_set. rewrite (decide_False (P := q' = q)) by done.
    repeat case_decide; congruence || done.
Qed.

(** *** The phases *)

Lemma fold_push o xs r : balance ((fun x => made x (OutData o)) <$> xs) none none r (foldl (fun r x => push_o o x r) r xs).
Proof using.
  revert r. induction xs as [|x xs IH]; intros r; [apply balance_refl|]. cbn [foldl fmap list_fmap].
  eapply (balance_ext ([_] ++ _)); [..|eapply balance_trans; [by apply (balance_make (OutData o))|apply IH]]; done.
Qed.

Lemma emit_events l pre w kept w1 : emit_scheduled now l w = Ok (kept, w1) -> exists evs,
  balance (evs ≫= moves_of) none none (rr w) (rr w1) /\ ledger_w w1 = ledger_w w /\ trees_of w1 = trees_of w /\ ro w1 = ro w /\ noted evs = [] /\
  forall T L, lg_scheduled L = pre ++ l -> acts T L evs (with_scheduled (pre ++ kept) (lg_dca L) L).
Proof using.
  revert pre w kept w1. induction l as [|it l IH]; intros pre w kept w1; cbn [emit_scheduled].
  { intros [= <- <-]. exists []. split; [apply balance_refl|]. do 4 (split; [done|]). intros T L <-. destruct L; constructor. }
  destruct (_ || _) eqn:Ew.
  - intros E. apply bind_ok in E as ([kept' w2] & E1 & E). injection E as <- <-. destruct (IH (pre ++ [it]) _ _ _ E1) as (evs & H1 & H2 & H3 & H4 & H5 & H6).
    exists evs. do 5 (split; [done|]). intros T L HL. specialize (H6 T L). rewrite <- !app_assoc in H6. by apply H6.
  - intros E. apply bind_ok in E as (wire & Hw & E). destruct (IH pre _ _ _ E) as (evs & H1 & H2 & H3 & H4 & H5 & H6).
    assert (forall r, reduce_header (coll (foldl (fun r x => push_o (sr_output it) x r) r wire)) = reduce_header (coll r) /\
      coll (foldl (fun r x => push_o (sr_output it) x r) r wire) = coll r) as Hcoll.
    { clear. induction wire as [|x wire IH]; intros r; [done|]. cbn. destruct (IH (push_o (sr_output it) x r)) as [-> ->]. done. }
    exists (EmitResult it :: evs). split; [|split; [|split; [done|split; [done|split; [done|]]]]].
    + rewrite bind_cons. apply (balance_ext _ (both none none) none (both none none) none); [done|done|]. eapply balance_trans; [|exact H1]. cbn. unfold result_wire. rewrite Hw. apply fold_push.
    + rewrite H2. unfold ledger_w, ledger_of. cbn. by rewrite (proj2 (Hcoll (rr w))).
    + intros T L HL. eapply acts_cons; [by eapply (hp_emit T L pre it l wire HL); [lia|]|]. specialize (H6 T (with_scheduled (pre ++ l) (lg_dca L) L) eq_refl). exact H6.
Qed.
Lemma drain_quiet w w' : drain_scheduled now w = Ok w' -> quiet_step w w'.
Proof using.
  unfold drain_scheduled. intros E. apply bind_ok in E as ([kept w1] & E1 & E). injection E as <-.
  destruct (emit_events _ [] _ _ _ E1) as (evs & H1 & H2 & H3 & H4 & H5 & H6). exists evs. split; [|by split]. split; [|..|done].
  - eapply balance_queue; [|exact H1]. intros q. cbn. by rewrite queue_coll.
  - specialize (H6 (trees_of w) (ledger_w w) eq_refl). replace (ledger_w (on_r _ w1)) with (with_scheduled ([] ++ kept) (lg_dca (ledger_w w)) (ledger_w w)); [done|].
    rewrite <- H2. done.
Qed.

Lemma read_credits_quiet w d w' : read_credits inp w d = Ok w' -> quiet_step w w'.
Proof using.
  unfold read_credits. intros E. apply bind_ok in E as ([dc b1] & _ & E). apply bind_ok in E as ([cc b2] & _ & E). injection E as <-.
  apply quiet_same; [intros q; destruct (b1 || b2); cbn; by rewrite queue_credit|by destruct (b1 || b2)..].
Qed.

Lemma record_fork_entries g tree router outs b : g_tree_entries (RecordCollectiveForkAttempt g tree router outs b) = g_tree_entries g.
Proof using. done. Qed.

Lemma next_turn_quiet i w : quiet_step w (next_turn i w).
Proof using. apply quiet_same; [intros q; apply queue_coll|done|done|done]. Qed.

Ltac queue_cases := intros []; cbn; unfold set_dir, at_host; cbn; repeat case_decide; simplify_eq; try done; try congruence.

(** The ledger is in the collective state of the router and in the globals. *)
Lemma ledger_coll r r' g : coll r' = coll r -> ledger_of r' g = ledger_of r g.
Proof using. intros E. unfold ledger_of. by rewrite E. Qed.

Lemma header_in_quiet d x w w' : head (buffer_i (rr w) d) = Some x -> IsCollReduceHeaderWire x = true -> reduce_header_in d x w = Ok w' -> quiet_step w w'.
Proof using.
  intros Hh Hx E. unfold reduce_header_in in E. apply throw_bind_ok in E as [Hn E]. injection E as <-.
  destruct (buffer_i (rr w) d) as [|y l] eqn:Eb; [done|]. injection Hh as ->. apply bool_decide_eq_false in Hn.
  apply (quiet_event _ _ (KeepHeader d x) (mkMove (Some (InData d)) [] x)); [done| | |done|done].
  - eapply (balance_forward w (InData d) x l [] (set_queue (InData d) l (rr w))); try done.
    + apply balance_refl.
    + by apply (queue_pop (InData d) (rr w) _ x l).
  - apply hp_header; [done|]. cbn. destruct (reduce_header (coll (rr w)) d); [destruct Hn; by eexists|done].
Qed.

(** Opening an entry, when there is none. *)
Lemma open_match_acts T d x node key o c oc L : open_match key node o c = Ok (Some oc) -> operand_at T L d x o node key ->
  L = mkLedger (reduce_header c) (reduce_match c) (reduce_active c) (reduce_scheduled c) (reduce_dca_available c) (lg_net L) (center_armed c) ->
  exists evs, evs ≫= moves_of = [] /\ noted evs = [] /\
    let L' := with_match (reduce_match oc) (reduce_active oc) L in acts T L evs L' /\ operand_at T L' d x o node key /\
    reduce_header oc = reduce_header c /\ reduce_scheduled oc = reduce_scheduled c /\ reduce_dca_available oc = reduce_dca_available c /\ center_armed oc = center_armed c.
Proof using.
  intros E Hop HL. unfold open_match in E. case_bool_decide as Ha.
  - injection E as <-. exists []. split; [done|]. split; [done|]. rewrite HL. cbn. split; [constructor|]. split; [|done]. by rewrite HL in Hop.
  - apply bind_ok in E as ([b ok] & Eo & E). destruct ok; [|done]. injection E as <-. unfold Open in Eo. apply throw_bind_ok in Eo as [Hg Eo]. apply throw_bind_ok in Eo as [_ Eo].
    destruct (_ =? _) eqn:Es in Eo; [done|]. injection Eo as <-. apply orb_false_iff in Hg as [_ Hg]. apply bool_decide_eq_false in Hg.
    exists [OpenMatch d x]. split; [done|]. split; [done|]. split; [|split; [by destruct Hop as [A1 A2 A3 A4]; split|done]]. apply acts_one.
    assert (lg_match L = reduce_match c /\ lg_active L = reduce_active c) as [Em Eact] by (by rewrite HL). cbn. unfold set_match. cbn. rewrite <- Em, <- Eact in *.
    eapply (hp_open T L d x o node key Hop); [by apply eq_None_not_Some|by apply eq_None_not_Some|lia].
Qed.

Lemma entry_takes_of o s child : 0 <= o_child_id o -> child = o_child_id o -> Z.land (ms_expected s) (Z.shiftl 1 child) <> 0 -> Z.land (ms_received s) (Z.shiftl 1 child) = 0 ->
  ms_dtype s = o_dtype o -> ms_op s = o_op o -> ms_count s = o_valid_elements o -> entry_takes o s.
Proof using. intros H0 -> H1 H2 H3 H4 H5. split; [by apply land_bit_nonzero|by apply land_bit_zero|done]. Qed.

Lemma payload_in_quiet i x w w' : head (buffer_i (rr w) (dir_at i)) = Some x -> IsCollReducePayloadWire x = true ->
  reduce_payload_in rid now i x w = Ok w' -> quiet_step w w'.
Proof using.
  intros Hh Hx E. unfold reduce_payload_in in E. cbv zeta in E. set (d := dir_at i) in *. destruct (reduce_header _ _) as [hdr|] eqn:Ehdr; [|done].
  destruct (_ <=? _)%nat; [injection E as <-; apply quiet_refl|]. apply bind_ok in E as (o0 & Edec & E). apply bind_ok in E as (node & En & E).
  set (o := with_child o0 (dir_code d)) in *. set (key := mkMatchKey _ _ _) in *.
  apply bind_ok in E as ([c|] & Eopen & E); [|injection E as <-; apply quiet_refl].
  assert (operand_at (trees_of w) (ledger_w w) d x o node key) as Hop.
  { split; [done|by exists hdr, o0| |done]. unfold LookupCollectiveReduceNode in En. cbn. destruct (g_reduce_nodes _ !! _) eqn:El in En; [|done]. by injection En as ->. }
  destruct (open_match_acts _ d x node key o _ c (ledger_w w) Eopen Hop eq_refl) as (evs & Hm & Hn & Hacts & Hop' & Eh & Es & Ed & Ea).
  destruct (Accept _ _ _ _ _ _ _) as [b st] eqn:Eacc. cbn [fst snd] in E. apply Accept_cases in Eacc.
  destruct (buffer_i (rr w) d) as [|y l] eqn:Eb; [done|]. injection Hh as ->.
  assert (forall c', balance [mkMove (Some (InData d)) [] x] none none (rr w) (rr (next_turn i (on_r (fun r => pop_i d (set_coll c' r)) w)))) as Hbal.
  { intros c'. eapply (balance_forward w (InData d) x l [] (set_queue (InData d) l (rr w))); try done.
    - apply balance_refl.
    - intros k. cbn [rr on_r next_turn again]. rewrite queue_coll. by apply (queue_pop (InData d) (rr w) (set_coll c' (rr w)) x l); [intros k'; apply queue_set_coll|..]. }
  assert (forall e w', moves_of e = [mkMove (Some (InData d)) [] x] -> (exists c', w' = next_turn i (on_r (fun r => pop_i d (set_coll c' r)) w)) ->
    happens (trees_of w) (with_match (reduce_match c) (reduce_active c) (ledger_w w)) e (ledger_w w') -> quiet_step w w') as Hdone.
  { intros e w1 Em [c' ->] He. exists (evs ++ [e]). split; [|split; [done|rewrite noted_app, Hn; by destruct e]].
    split; [rewrite bind_app, Hm; cbn; rewrite Em; apply Hbal|eapply acts_app; [exact Hacts|by apply acts_one]|done]. }
  assert (0 <= o_child_id o) as Hchild by (by destruct d).
  destruct st; try done.
  - destruct Eacc as [(_ & _ & ?)|(s & Hs & _ & H1 & H2 & H3 & H4 & H5 & H6 & -> & [[? _]|[_ Hne]])]; [done|done|].
    rewrite bool_decide_false in E by done. cbn [mbind result_bind] in E. injection E as <-.
    apply (Hdone (KeepOperand d x)); [done|by eexists|]. cbn [set_match set_header reduce_match reduce_active].
    pose proof (hp_keep (trees_of w) (with_match (reduce_match c) (reduce_active c) (ledger_w w)) d x o node key s Hop' Hs (entry_takes_of o s _ Hchild eq_refl H1 H2 H3 H4 H5) H6 Hne) as Hk.
    unfold ledger_w, ledger_of, with_headers, with_match in *. cbn in *. by rewrite Eh, Es, Ed, Ea.
  - destruct Eacc as [(_ & ? & _)|(s & Hs & _ & H1 & H2 & H3 & H4 & H5 & H6 & -> & [[_ Heq]|[? _]])]; [done| |done].
    rewrite bool_decide_true in E by done. apply bind_ok in E as (c' & Ef & E). injection E as <-.
    unfold finish_match in Ef. apply bind_ok in Ef as ([b' res] & Ec & Ef). cbn [set_header set_match reduce_match reduce_active] in Ec, Ef.
    destruct (reduce_active c !! key) as [first|] eqn:Efirst; [|done]. injection Ef as <-.
    unfold Consume in Ec. cbn [states] in Ec. rewrite lookup_insert_eq in Ec. apply throw_bind_ok in Ec as [_ Ec]. apply bind_ok in Ec as (p & Ep & Ec). apply bind_ok in Ec as (cy & Ecy & Ec).
    injection Ec as <- <-. cbn in Ep, Ecy.
    apply (Hdone (FinishReduce d x)); [done|by eexists|].
    pose proof (hp_finish (trees_of w) (with_match (reduce_match c) (reduce_active c) (ledger_w w)) d x o node key s first p cy Hop' Hs (entry_takes_of o s _ Hchild eq_refl H1 H2 H3 H4 H5) H6 Heq Efirst Ep Ecy) as Hk.
    unfold ledger_w, ledger_of, with_headers, with_match, with_scheduled in *. cbn in *. rewrite Eh, Es, Ed, Ea. rewrite length_app in *. cbn in *.
    rewrite delete_insert_eq. replace (operands (reduce_match c) + 1 - Z.of_nat (length (ms_values s) + 1)) with (operands (reduce_match c) - Z.of_nat (length (ms_values s))) by lia. exact Hk.
  - destruct Eacc as [(-> & _)|(s & _ & _ & _ & _ & _ & _ & _ & _ & _ & [[? _]|[? _]])]; [|done|done]. injection E as <-.
    exists evs. split; [|by split]. split; [rewrite Hm; apply balance_same; intros q; apply queue_set_coll| |done].
    unfold ledger_w, ledger_of, with_match in *. cbn in *. by rewrite Eh, Es, Ed, Ea.
Qed.

Lemma multicast_in_quiet i x w w' : head (buffer_i (rr w) (dir_at i)) = Some x -> IsCollDataWire x = true ->
  multicast_in rid i x w = Ok w' -> quiet_step w w'.
Proof using.
  intros Hh Hx E. unfold multicast_in in E. cbv zeta in E. apply bind_ok in E as (h & Eh & E). apply bind_ok in E as (outputs & Eo & E).
  set (can := CanCommit _ _ _ _) in E. set (w1 := on_g _ w) in E.
  assert (quiet_step w w1) as Hw1 by by apply quiet_same.
  destruct can; cbn [negb] in E; [|by injection E as <-]. destruct (Commit _ _ _ _ _) as [f [e|]]; [done|]. injection E as <-.
  eapply quiet_trans; [exact Hw1|]. eapply quiet_trans; [|apply next_turn_quiet].
  destruct (buffer_i (rr w) (dir_at i)) as [|y l] eqn:Eb; [done|]. injection Hh as ->.
  set (qs := OutData <$> List.filter (fun o => Z.testbit outputs (dir_code o)) dirs).
  assert (forall ds r, balance (made x <$> (OutData <$> List.filter (fun o => Z.testbit outputs (dir_code o)) ds)) none none r
    (foldl (fun r d => if Z.testbit outputs (dir_code d) then push_o d x r else r) r ds)) as Hfold.
  { induction ds as [|d ds IH]; intros r; [apply balance_refl|]. cbn [foldl List.filter]. destruct (Z.testbit outputs (dir_code d)); [|apply IH].
    rewrite !fmap_cons. eapply (balance_ext ([_] ++ _)); [..|eapply balance_trans; [by apply (balance_make (OutData d))|apply IH]]; done. }
  assert (forall ds r, coll (foldl (fun r d => if Z.testbit outputs (dir_code d) then push_o d x r else r) r ds) = coll r) as Hcoll.
  { induction ds as [|d ds IH]; intros r; [done|]. cbn [foldl]. rewrite IH. by destruct (Z.testbit _ _). }
  eapply (quiet_forward w1 (InData (dir_at i)) x l qs); [done|done|exact Eb| | | |done|done|exact (ledger_coll _ _ (rg w1) (Hcoll dirs _))].
  - eapply balance_queue_l; [|apply Hfold]. intros k. symmetry. 
    by apply (queue_pop (InData (dir_at i)) (rr w) (on_coll (set_fork f) (rr w)) x l); [intros k'; apply queue_coll|..].
  - done.
  - eapply legit_multicast; [done|exact Eh|]. unfold LookupCollectiveTreeEntry in Eo. destruct (g_tree_entries _ !! _) eqn:El in Eo; [|done].
    injection Eo as ->. exact El.
Qed.

Lemma contention_quiet shared w : quiet_step w (on_g (note_contention shared) w).
Proof using. apply quiet_same; [done|done|done|]. unfold ledger_w, ledger_of. cbn. by destruct (g_net (rg w)). Qed.

Lemma mem_in_quiet i x w w' : head (buffer_i (rr w) (dir_at i)) = Some x -> IsMemWireFlit x = true -> mem_in M t rid i x w = Ok w' -> quiet_step w w'.
Proof using.
  intros Hh Hx E. unfold mem_in in E. apply bind_ok in E as ([out st] & En & E). cbv zeta in E. set (w1 := on_g (put_v5 st) w) in E.
  assert (quiet_step w w1) as Hw1 by by apply quiet_same.
  destruct (has_space _); cbn [negb] in E; [|by injection E as <-]. injection E as <-. set (w2 := match buffer_o _ _ with [] => _ | _ => _ end).
  assert (quiet_step w1 w2 /\ rr w2 = rr w1) as [Hw2 Er2] by (unfold w2; destruct (buffer_o _ _); split; (apply quiet_refl || apply contention_quiet) || done).
  clearbody w2. eapply quiet_trans; [exact Hw1|]. eapply quiet_trans; [exact Hw2|]. eapply quiet_trans; [|apply next_turn_quiet].
  set (d := dir_at i) in *. clearbody d. destruct (buffer_i (rr w) d) as [|y l] eqn:Eb; [done|]. injection Hh as ->.
  apply (quiet_forward1 _ (InData d) x l (OutData out)); try done.
  - cbn. by rewrite Er2.
  - intros k. cbn [rr on_r]. rewrite Er2. destruct k; cbn; unfold set_dir; repeat case_decide; simplify_eq; try done. by rewrite Eb.
  - by eapply (legit_memory _ false).
Qed.

Lemma take_lock_same m out w w' : take_lock m out w = Some w' ->
  quiet_step w w' /\ (forall q, queue (rr w') q = queue (rr w) q) /\ host (rr w') = host (rr w).
Proof using.
  unfold take_lock. destruct (negb _); [intros [= <-]; split; [apply quiet_refl|done]|].
  destruct (_ || _); [|done]. intros [= <-]. assert (forall q, queue (rr (on_g (fun g => g) w)) q = queue (rr w) q) by done.
  split; [|split; [intros q; apply queue_locks|done]]. apply quiet_same; [intros q; apply queue_locks|done|done|done].
Qed.
Lemma drop_lock_same m out w w' : drop_lock m out w = Ok w' ->
  quiet_step w w' /\ (forall q, queue (rr w') q = queue (rr w) q) /\ host (rr w') = host (rr w).
Proof using.
  unfold drop_lock. destruct (negb _); [intros [= <-]; split; [apply quiet_refl|done]|]. intros E. apply throw_bind_ok in E as [_ E]. injection E as <-.
  split; [|split; [intros q; apply queue_locks|done]]. apply quiet_same; [intros q; apply queue_locks|done|done|done].
Qed.

Lemma message_in_quiet d x w w' : head (buffer_i (rr w) d) = Some x -> is_collective x = false -> IsMemWireFlit x = false ->
  message_in M rid d x w = Ok w' -> quiet_step w w'.
Proof using.
  intros Hh Hc Hm E. unfold message_in in E. destruct (DeserializeMsg x) as [m|] eqn:Ed; [|done]. apply bind_ok in E as (out & Eo & E).
  apply throw_bind_ok in E as [Hatt E]. destruct (negb (IsHostEndpoint _) && _ && _); [injection E as <-; apply quiet_refl|]. destruct (negb _); [injection E as <-; apply quiet_refl|].
  destruct (take_lock m out w) as [w1|] eqn:E1; [|injection E as <-; apply quiet_refl]. apply bind_ok in E as (w2 & E2 & E). injection E as <-.
  apply take_lock_same in E1 as (S1 & Q1 & H1). apply drop_lock_same in E2 as (S2 & Q2 & H2).
  eapply quiet_trans; [exact S1|]. eapply quiet_trans; [exact S2|]. assert (forall q, queue (rr w2) q = queue (rr w) q) as Q by (intros; congruence).
  assert (out = HOST -> is_Some (host (rr w2))) as Hs.
  { intros ->. rewrite H2, H1. rewrite bool_decide_eq_true_2 in Hatt by done. cbn in Hatt. apply bool_decide_eq_false in Hatt. by apply not_eq_None_Some. }
  clear Hatt. clear S1 S2 Q1 Q2 H1 H2. clear w1.
  destruct (buffer_i (rr w) d) as [|y l] eqn:Eb; [done|]. injection Hh as ->. pose proof (Q (InData d)) as Qd. cbn in Qd. rewrite Eb in Qd.
  apply (quiet_forward1 _ (InData d) x l (goes_to false out)); try done.
  - unfold goes_to. by destruct (decide (out = HOST)).
  - unfold goes_to. destruct (decide (out = HOST)); [by apply Hs|done].
  - intros k. cbn [rr on_r again]. unfold goes_to. destruct (decide (out = HOST)) as [->|Eout].
    + destruct k; cbn; unfold set_dir, at_host; cbn; repeat case_decide; simplify_eq; try done; try by rewrite Qd.
      all: by destruct (Hs eq_refl) as [h ->].
    + destruct k; cbn; unfold set_dir; repeat case_decide; simplify_eq; try done. by rewrite Qd.
  - by eapply legit_message.
  - unfold ledger_w. cbn [rr on_r again rg]. apply ledger_coll. by destruct (decide _).
Qed.

Lemma data_route_quiet w n w' : data_route_step M t rid now w n = Ok w' -> quiet_step w w'.
Proof using.
  unfold data_route_step, data_route. set (i := (_ mod 5)%nat). clearbody i. destruct (buffer_i (rr w) (dir_at i)) as [|x l] eqn:Eb; [intros [= <-]; apply quiet_refl|].
  assert (head (buffer_i (rr w) (dir_at i)) = Some x) as Hh by by rewrite Eb.
  destruct (IsCollReduceHeaderWire x) eqn:E1; [by apply header_in_quiet|]. destruct (IsCollReducePayloadWire x) eqn:E2; [by apply payload_in_quiet|].
  destruct (IsCollDataWire x) eqn:E3; [by apply multicast_in_quiet|]. destruct (IsMemWireFlit x) eqn:E4; [by apply mem_in_quiet|].
  apply message_in_quiet; [done| |done]. unfold is_collective. by rewrite E1, E2, E3.
Qed.

Lemma ctrl_route_quiet w d w' : ctrl_route M t rid w d = Ok w' -> quiet_step w w'.
Proof using.
  unfold ctrl_route. destruct (ctrl_buffer_i (rr w) d) as [|x l] eqn:Eb; [intros [= <-]; apply quiet_refl|]. destruct (IsMemWireFlit x) eqn:Em.
  - intros E. apply bind_ok in E as ([out st] & En & E). cbv zeta in E. set (w1 := on_g (put_v5 st) w) in E.
    assert (quiet_step w w1) as Hw1 by by apply quiet_same.
    destruct (has_space _); cbn [negb] in E; [|by injection E as <-]. injection E as <-. set (w2 := match ctrl_buffer_o _ _ with [] => _ | _ => _ end).
    assert (quiet_step w1 w2 /\ rr w2 = rr w1) as [Hw2 Er2].
    { unfold w2. destruct (ctrl_buffer_o _ _) as [|y q]; [split; [apply quiet_refl|done]|]. destruct (IsMemWireFlit y); split; (apply quiet_refl || apply contention_quiet) || done. }
    clearbody w2. eapply quiet_trans; [exact Hw1|]. eapply quiet_trans; [exact Hw2|].
    apply (quiet_forward1 _ (InCtrl d) x l (OutCtrl out)); try done.
    + cbn. by rewrite Er2.
    + intros k. cbn [rr on_r again]. rewrite Er2. destruct k; cbn; unfold set_dir; repeat case_decide; simplify_eq; try done. by rewrite Eb.
    + by eapply (legit_memory _ true).
  - destruct (DeserializeMsg x) as [m|] eqn:Ed; [|done]. intros E. apply bind_ok in E as (out & Eo & E).
    assert (legit (trees_of w).1 (mkMove (Some (InCtrl d)) [goes_to true out] x)) as Hl by by eapply legit_control.
    unfold goes_to in Hl. destruct (decide (out = HOST)) as [->|Hne].
    + rewrite bool_decide_eq_true_2 in E by done. destruct (host (rr w)) as [h|] eqn:Eh; [|done]. destruct (has_space _); [|injection E as <-; apply quiet_refl].
      injection E as <-. apply (quiet_forward1 _ (InCtrl d) x l OutHostCtrl); try done.
      * cbn. by rewrite Eh.
      * intros []; cbn; unfold set_dir, at_host; cbn; rewrite ?Eh; repeat case_decide; simplify_eq; try done. by rewrite Eb.
    + rewrite bool_decide_eq_false_2 in E by done. destruct (has_space _); [|injection E as <-; apply quiet_refl]. injection E as <-.
      apply (quiet_forward1 _ (InCtrl d) x l (OutCtrl out)); try done.
      intros []; cbn; unfold set_dir; repeat case_decide; simplify_eq; try done. by rewrite Eb.
Qed.

Lemma host_route_quiet w w' : host_route M rid w = Ok w' -> quiet_step w w'.
Proof using.
  unfold host_route. destruct (host (rr w)) as [h|] eqn:Eh; [|intros [= <-]; apply quiet_refl].
  destruct (host_i h) as [|x l] eqn:Ei; [intros [= <-]; apply quiet_refl|]. destruct (DeserializeMsg x) as [m|] eqn:Ed; [|done].
  intros E. apply bind_ok in E as (out & Eo & E). destruct (_ && _); [|injection E as <-; apply quiet_refl]. injection E as <-.
  apply (quiet_forward1 _ InHost x l (OutData out)); try done.
  - cbn. by rewrite Eh.
  - cbn. unfold at_host. by rewrite Eh.
  - intros []; cbn; unfold set_dir, at_host; cbn; rewrite ?Eh; repeat case_decide; simplify_eq; done.
  - by eapply legit_host.
Qed.

(** *** Arrivals *)

Definition repinned (d : Directions) (x x' : Z) : Prop :=
  exists st g st' g', receive M st g rid d x = Ok (x', st', g').

(** What a channel brings: its flit, repinned if it comes over a link; a
    collective flit that the core still holds on the channel is not read again. *)
Definition arrival (armed : bool) (d : Directions) (xs : list Z) : Prop :=
  match data_sent_i inp d with
  | None => xs = []
  | Some x => if bool_decide (d = CENTER) && is_collective x && negb armed then xs = [] else exists x', repinned d x x' /\ xs = [x']
  end.
Definition ctrl_arrival (d : Directions) (xs : list Z) : Prop :=
  match ctrl_sent_i inp d with None => xs = [] | Some x => exists x', repinned d x x' /\ xs = [x'] end.
Definition core_armed (armed : bool) : bool :=
  match data_sent_i inp CENTER with None => true | Some x => if is_collective x then false else armed end.
Definition input_events (armed : bool) (d : Directions) : list event :=
  if decide (d = CENTER) then match data_sent_i inp CENTER with None => [ArmCore true] | Some x => if is_collective x && armed then [ArmCore false] else [] end
  else [].

(** The globals that the ledger and the tables look at. *)
Definition books (g : router_globals) : tree_map * reduce_nodes * option HBMNetwork :=
  (g_tree_entries (g_fabric g), g_reduce_nodes g, set_stats no_net_stats <$> g_net g).
Lemma books_trees r o g f w : books g = books (rg w) -> trees_of (mkRw r o g f) = trees_of w.
Proof using. intros [= E1 E2 _]. unfold trees_of. cbn. by rewrite E1, E2. Qed.
Lemma books_ledger r g g' : books g' = books g -> ledger_of r g' = ledger_of r g.
Proof using. intros [= _ _ E]. unfold ledger_of. by rewrite E. Qed.

Lemma take_flit_spec d x g x' g' : take_flit M rid d x g = Ok (x', g') -> repinned d x x' /\ books g' = books g.
Proof using.
  unfold take_flit. intros E. apply bind_ok in E as ([[y st] rp] & Er & E). injection E as <- <-. split; [by eexists _, _, _, _|].
  unfold CountDieRouterPkt. by destruct (_ <? _).
Qed.

Definition arrive_only (q : spot) (xs : list Z) : spot -> list Z := fun q' => if decide (q' = q) then xs else [].
Lemma arrive_none q w w' evs : step evs none none w w' -> step evs (arrive_only q []) none w w'.
Proof using. apply step_ext; [|done]. intros q'. unfold arrive_only. by case_decide. Qed.
Lemma acts_armed T L evs L' : acts T L evs L' -> lg_armed L' = armed_after (lg_armed L) evs.
Proof using. induction 1 as [|L1 e L2 evs L3 He _ IH]; [done|]. rewrite IH. by destruct He. Qed.
Lemma step_armed evs i o w w' : step evs i o w w' -> center_armed (coll (rr w')) = armed_after (center_armed (coll (rr w))) evs.
Proof using.
  intros [_ H _]. exact (acts_armed _ _ _ _ H).
Qed.

Lemma data_input_step w d w' : data_input M rid inp w d = Ok w' -> exists xs,
  step (input_events (center_armed (coll (rr w))) d) (arrive_only (InData d) xs) none w w' /\ ro w' = ro w /\ arrival (center_armed (coll (rr w))) d xs.
Proof using.
  unfold data_input, arrival, input_events. destruct (data_sent_i inp d) as [x|] eqn:Ed.
  - set (fc := bool_decide _ && _). destruct (fc && _) eqn:Ef.
    { intros [= <-]. exists []. apply andb_true_iff in Ef as [[Hd%bool_decide_eq_true Hx]%andb_true_iff Ha%negb_true_iff]. subst d.
      rewrite decide_True by done. rewrite Ed, Hx, Ha. split; [apply arrive_none, step_refl|done]. }
    intros E. apply bind_ok in E as ([x' g] & Et & E). apply take_flit_spec in Et as [Hr Hf]. injection E as <-.
    exists [x']. split; [|split; [by destruct fc|by exists x']]. split.
    + assert ((if decide (d = CENTER) then match data_sent_i inp CENTER with None => [ArmCore true]
        | Some x => if is_collective x && center_armed (coll (rr w)) then [ArmCore false] else [] end else []) ≫= moves_of = []) as ->
        by (repeat case_match; done).
      eapply (balance_queue_l _ _ _ (rr (if fc then on_r (on_coll (set_armed false)) w else w))); [intros q; symmetry; destruct fc; [apply queue_coll|done]|].
      by apply (balance_arrive (InData d)).
    + assert (ledger_w (again (on_r (push_i d x') (on_g (fun _ => g) (if fc then on_r (on_coll (set_armed false)) w else w)))) =
        if fc then with_armed false (ledger_w w) else ledger_w w) as -> by (destruct fc; exact (books_ledger _ _ _ Hf)).
      unfold fc in *. destruct (decide _) as [->|Hd].
      * rewrite bool_decide_true by done. rewrite Ed. cbn. destruct (is_collective x); [|constructor]. cbn in Ef. rewrite bool_decide_true in Ef by done.
        apply negb_false_iff in Ef as ->. apply acts_one. constructor.
      * rewrite bool_decide_false by done. constructor.
    + apply books_trees. by destruct fc.
  - intros [= <-]. exists []. split; [|split; [by destruct (decide _)|done]]. apply arrive_none. destruct (decide (d = CENTER)) as [->|]; [|apply step_refl].
    rewrite Ed. split; [apply balance_same; intros q; apply queue_coll|apply acts_one; by apply (hp_arm _ (ledger_w w) true)|done].
Qed.

Lemma ctrl_input_step w d w' : ctrl_input M rid inp w d = Ok w' -> exists xs,
  step [] (arrive_only (InCtrl d) xs) none w w' /\ ro w' = ro w /\ ctrl_arrival d xs.
Proof using.
  unfold ctrl_input, ctrl_arrival. destruct (ctrl_sent_i inp d) as [x|].
  - intros E. apply bind_ok in E as ([x' g] & Et & E). apply take_flit_spec in Et as [Hr Hf]. injection E as <-.
    exists [x']. split; [|split; [done|by exists x']]. split; [by apply (balance_arrive (InCtrl d))| |by apply books_trees].
    unfold ledger_w at 2. cbn [rr rg again on_r on_g]. rewrite (books_ledger _ (rg w) g Hf). constructor.
  - intros [= <-]. exists []. split; [apply arrive_none, step_refl|done].
Qed.

Lemma host_input_step w : exists xs, step [] (arrive_only InHost xs) none w (host_input inp w) /\ ro (host_input inp w) = ro w /\
  xs = match host (rr w), host_sent_i inp with Some _, Some x => [x] | _, _ => [] end.
Proof using.
  unfold host_input. destruct (host (rr w)) as [h|] eqn:Eh; [destruct (host_sent_i inp) as [x|]|].
  2-3: by exists []; split; [apply arrive_none, step_refl|].
  exists [x]. split; [|done]. split; [|constructor|done].
  eapply balance_queue; [|apply (balance_arrive InHost x (rr w)); [done|cbn; by rewrite Eh]]. intros []; cbn; unfold at_host; by rewrite ?Eh.
Qed.

Lemma fold_arrive (f : rworld -> Directions -> result rworld) (mk : Directions -> spot) (P : Directions -> list Z -> Prop) b ds w w' :
  (forall w d w', d ∈ ds -> center_armed (coll (rr w)) = b -> f w d = Ok w' -> exists xs, step [] (arrive_only (mk d) xs) none w w' /\ ro w' = ro w /\ P d xs) ->
  (forall d d', mk d = mk d' -> d = d') -> NoDup ds -> center_armed (coll (rr w)) = b -> foldM f w ds = Ok w' -> exists ins,
  step [] ins none w w' /\ ro w' = ro w /\ (forall d, d ∈ ds -> P d (ins (mk d))) /\ (forall q, (forall d, d ∈ ds -> q <> mk d) -> ins q = []).
Proof using.
  intros Hf Hinj. revert w. induction ds as [|d ds IH]; intros w Hnd Hb E; cbn in E.
  { injection E as <-. exists none. split; [apply step_refl|]. split; [done|]. split; [|done]. intros d Hd. by apply elem_of_nil in Hd. }
  apply list.NoDup_cons in Hnd as [Hd Hnd]. apply bind_ok in E as (w1 & E1 & E). apply Hf in E1 as (xs & S1 & R1 & P1); [|by left|done].
  destruct (IH (fun w d w' Hd' => Hf w d w' (list_elem_of_further _ _ _ Hd')) _ Hnd (eq_trans (step_armed _ _ _ _ _ S1) Hb) E) as (ins & S2 & R2 & P2 & N2).
  exists (both (arrive_only (mk d) xs) ins). split; [|split; [congruence|split]].
  - eapply (step_ext ([] ++ []) _ _ (both none none) none); [done|done|by eapply step_trans].
  - intros d' [->|Hd']%elem_of_cons; unfold both, arrive_only.
    + rewrite decide_True by done. rewrite (N2 (mk d)); [by rewrite app_nil_r|]. intros d' Hd' ->%Hinj. done.
    + rewrite decide_False by (intros ->%Hinj; done). by apply P2.
  - intros q Hq. unfold both, arrive_only. rewrite decide_False by (apply Hq; left). cbn. apply N2. intros d' Hd'. apply Hq. by right.
Qed.

(** *** Departures *)

Lemma record_hop_books d x g g' : record_hop M rid d x g = Ok g' -> books g' = books g.
Proof using.
  unfold record_hop. destruct (g_net g) as [n|] eqn:En; [|by intros [= <-]]. intros E. apply bind_ok in E as ([n' st] & Er & [= <-]).
  unfold books. cbn. rewrite En. cbn. f_equal. f_equal. unfold RecordHop in Er. destruct (bool_decide _); [by injection Er as <- _|].
  destruct (negb _); [by injection Er as <- _|]. apply bind_ok in Er as (route & _ & Er). cbv zeta in Er. apply bind_ok in Er as (st1 & _ & Er). by injection Er as <- _.
Qed.
Lemma account_data_books d x g g' : account_data M spec rid d x g = Ok g' -> books g' = books g.
Proof using.
  unfold account_data, release_pin, record_shared. destruct (is_collective x); [intros [= <-]; by destruct spec|].
  destruct (IsMemWireFlit x); [apply record_hop_books|].
  destruct (DeserializeMsg x) as [m|]; [|by intros [= <-]]. intros E. apply bind_ok in E as (st & _ & [= <-]).
  by destruct (bool_decide _), spec.
Qed.
Lemma account_ctrl_books d x g g' : account_ctrl M rid d x g = Ok g' -> books g' = books g.
Proof using.
  unfold account_ctrl, release_pin. destruct (IsMemWireFlit x); [apply record_hop_books|].
  destruct (DeserializeMsg x) as [m|]; [|by intros [= <-]]. intros E. by apply bind_ok in E as (st & _ & [= <-]).
Qed.

Definition depart_only (q : spot) (o : option Z) : spot -> list Z := arrive_only q (option_list o).
Definition sent_data (d : Directions) (o : option Z) (out : router_out) : router_out := match o with Some x => send_data d x out | None => out end.
Definition sent_ctrl (d : Directions) (o : option Z) (out : router_out) : router_out := match o with Some x => send_ctrl d x out | None => out end.

Lemma step_depart evs q x l w w' : is_input q = false -> present q (rr w) -> queue (rr w) q = x :: l ->
  (forall k, queue (rr w') k = if decide (k = q) then l else queue (rr w) k) -> evs ≫= moves_of = [] -> acts (trees_of w) (ledger_w w) evs (ledger_w w') ->
  trees_of w' = trees_of w -> step evs none (depart_only q (Some x)) w w'.
Proof using.
  intros Hq Hp E Hk Hm Ha He. split; [|done|done]. rewrite Hm. eapply balance_queue; [|by apply balance_leave]. intros k. rewrite Hk. by rewrite queue_set.
Qed.
Lemma step_stay evs q w w' : (forall k, queue (rr w') k = queue (rr w) k) -> evs ≫= moves_of = [] -> acts (trees_of w) (ledger_w w) evs (ledger_w w') ->
  trees_of w' = trees_of w -> step evs none (depart_only q None) w w'.
Proof using.
  intros Hk Hm Ha He. split; [|done|done]. rewrite Hm. apply (balance_ext [] none none none); [done| |by apply balance_same].
  intros k. unfold depart_only, arrive_only. by case_decide.
Qed.
Lemma acts_same T L L' : L' = L -> acts T L [] L'.
Proof using. intros ->. constructor. Qed.

Lemma data_output_step w d w' : data_output M spec rid inp w d = Ok w' -> exists o,
  step [] none (depart_only (OutData d) o) w w' /\ ro w' = sent_data d o (ro w).
Proof using.
  unfold data_output. destruct (buffer_o (rr w) d) as [|x l] eqn:Eb; [intros [= <-]; exists None; split; [by apply step_stay; [..|constructor|]|done]|].
  destruct (negb _).
  { intros [= <-]. exists None. split; [|done]. assert (books (stall M rid d (rg w)) = books (rg w)) as Hs by (unfold stall; by destruct (IsC2CEgressEdge _ _ _)).
    apply step_stay; [done|done|apply acts_same, (books_ledger _ _ _ Hs)|by apply books_trees]. }
  destruct (cooldown _ _); [intros [= <-]; exists None; split; [apply step_stay; [intros k; apply queue_coll|done|by apply acts_same|done]|done]|].
  intros E. apply bind_ok in E as (g & Eg & E). apply account_data_books in Eg. injection E as <-. set (g' := if IsC2CEgressEdge _ _ _ then g else _).
  assert (books g' = books (rg w)) as Hg by (unfold g'; by destruct (IsC2CEgressEdge _ _ _)). exists (Some x). split; [|done]. apply (step_depart _ _ _ l); try done.
  - intros k. cbn [rr on_o on_g on_r again]. rewrite queue_credit, queue_coll. destruct k; cbn; unfold set_dir; repeat case_decide; simplify_eq; try done. by rewrite Eb.
  - apply acts_same. transitivity (ledger_of (rr w) g'); [unfold ledger_w, ledger_of; cbn; by destruct (is_collective x)|by apply books_ledger].
  - by apply books_trees.
Qed.

Lemma ctrl_output_step w d w' : ctrl_output M rid inp w d = Ok w' -> exists o,
  step [] none (depart_only (OutCtrl d) o) w w' /\ ro w' = sent_ctrl d o (ro w).
Proof using.
  unfold ctrl_output. destruct (negb _); [intros [= <-]; exists None; split; [by apply step_stay; [..|constructor|]|done]|].
  destruct (ctrl_buffer_o (rr w) d) as [|x l] eqn:Eb; [intros [= <-]; exists None; split; [by apply step_stay; [..|constructor|]|done]|].
  intros E. apply bind_ok in E as (g & Eg & E). apply account_ctrl_books in Eg. injection E as <-. exists (Some x). split; [|done]. apply (step_depart _ _ _ l); try done.
  - intros k. cbn [rr on_o on_g on_r again]. rewrite queue_credit. destruct k; cbn; unfold set_dir; repeat case_decide; simplify_eq; try done. by rewrite Eb.
  - apply acts_same. exact (books_ledger (rr w) _ _ Eg).
  - by apply books_trees.
Qed.

(** What the core's outputs do to the network. *)
Definition of_net (ctrl : bool) (e : event) : Prop := exists x, e = NetTake ctrl x \/ e = NetRefuse ctrl x.
Lemma of_net_moves ctrl evs : Forall (of_net ctrl) evs -> evs ≫= moves_of = [].
Proof using. induction 1 as [|e evs (x & [-> | ->]) _ IH]; done. Qed.
Lemma of_net_other ctrl evs : Forall (of_net ctrl) evs -> net_took (negb ctrl) evs = [].
Proof using. induction 1 as [|e evs (x & [-> | ->]) _ IH]; [done| |done]. cbn. by destruct ctrl. Qed.
Lemma of_net_armed ctrl b evs : Forall (of_net ctrl) evs -> armed_after b evs = b.
Proof using. induction 1 as [|e evs (x & [-> | ->]) _ IH]; done. Qed.

(** The outcome of an output towards the core: nothing; a flit sent; or a memory flit that the network takes or not. *)
Definition core_step (ctrl : bool) (q : spot) (send : option Z -> router_out -> router_out) (w w' : rworld) : Prop := exists evs o sent,
  step evs none (depart_only q o) w w' /\ ro w' = send sent (ro w) /\ option_list o = option_list sent ++ net_took ctrl evs /\ Forall (of_net ctrl) evs.
Lemma core_stay ctrl q send w w' : (forall k, queue (rr w') k = queue (rr w) k) -> ledger_w w' = ledger_w w -> trees_of w' = trees_of w -> ro w' = send None (ro w) ->
  core_step ctrl q send w w'.
Proof using. intros Hk HL HT Ho. exists [], None, None. split; [apply step_stay; [done|done|by apply acts_same|done]|]. split; [done|]. split; [done|constructor]. Qed.
Lemma core_send ctrl q send x l w w' : is_input q = false -> present q (rr w) -> queue (rr w) q = x :: l -> (forall k, queue (rr w') k = if decide (k = q) then l else queue (rr w) k) ->
  ledger_w w' = ledger_w w -> trees_of w' = trees_of w -> ro w' = send (Some x) (ro w) -> core_step ctrl q send w w'.
Proof using.
  intros Hq Hp E Hk HL HT Ho. exists [], (Some x), (Some x). split; [apply (step_depart _ _ _ l); try done; by apply acts_same|]. split; [done|]. split; [done|constructor].
Qed.
Lemma core_net (ctrl : bool) q send x l n n' (ok : bool) w w' : is_input q = false -> present q (rr w) -> queue (rr w) q = x :: l -> IsMemWireFlit x = true -> g_net (rg w) = Some n ->
  (if ctrl then TryAcceptResponseFlit n rid x else TryAcceptRequestFlit t n rid x) = Ok (ok, n') ->
  (forall k, queue (rr w') k = if ok then (if decide (k = q) then l else queue (rr w) k) else queue (rr w) k) ->
  ledger_w w' = with_net n' (ledger_w w) -> trees_of w' = trees_of w -> ro w' = send None (ro w) -> core_step ctrl q send w w'.
Proof using.
  intros Hq Hp E Hm Hn Ht Hk HL HT Ho. assert (lg_net (ledger_w w) = Some (set_stats no_net_stats n)) as Hn' by (cbn; by rewrite Hn). destruct ok.
  - exists [NetTake ctrl x], (Some x), None. split; [apply (step_depart _ _ _ l); try done; rewrite HL; apply acts_one; by eapply hp_take|].
    split; [done|]. split; [cbn; by rewrite eqb_reflx|]. repeat constructor. exists x. by left.
  - exists [NetRefuse ctrl x], None, None. split; [apply step_stay; try done; rewrite HL; apply acts_one; by eapply hp_refuse|].
    split; [done|]. split; [done|]. repeat constructor. exists x. by right.
Qed.

Lemma core_output_step w w' : core_output t rid inp w = Ok w' -> core_step false (OutData CENTER) (sent_data CENTER) w w'.
Proof using.
  unfold core_output. destruct (buffer_o (rr w) CENTER) as [|x l] eqn:Eb; [intros [= <-]; by apply core_stay|].
  intros E. apply bind_ok in E as (w1 & E & E1). injection E1 as <-. destruct (IsMemWireFlit x) eqn:Em.
  - destruct (g_net (rg w)) as [n|] eqn:En; [|done]. apply bind_ok in E as ([ok n'] & Et & E). injection E as <-.
    apply (core_net _ _ _ x l n n' ok); try done; [|by destruct ok..].
    destruct ok; [|done]. intros []; cbn; unfold set_dir; repeat case_decide; simplify_eq; try done. by rewrite Eb.
  - destruct (cooldown _ _); [injection E as <-; by apply core_stay; [intros k; apply queue_coll|..]|].
    destruct (core_busy_i inp); injection E as <-; [by apply core_stay|]. apply (core_send _ _ _ x l); try done.
    + intros k. cbn [rr on_o on_g on_r again]. rewrite queue_coll. destruct k; cbn; unfold set_dir; repeat case_decide; simplify_eq; try done. by rewrite Eb.
    + unfold ledger_w, ledger_of. cbn. by destruct (is_collective x).
Qed.

Lemma core_ctrl_output_step w w' : core_ctrl_output rid inp w = Ok w' -> core_step true (OutCtrl CENTER) (sent_ctrl CENTER) w w'.
Proof using.
  unfold core_ctrl_output. destruct (ctrl_buffer_o (rr w) CENTER) as [|x l] eqn:Eb; [intros [= <-]; by apply core_stay|].
  intros E. apply bind_ok in E as (w1 & E & E1). injection E1 as <-. destruct (IsMemWireFlit x) eqn:Em.
  - destruct (g_net (rg w)) as [n|] eqn:En; [|done]. apply bind_ok in E as ([ok n'] & Et & E). injection E as <-.
    apply (core_net _ _ _ x l n n' ok); try done; [|by destruct ok..].
    destruct ok; [|done]. intros []; cbn; unfold set_dir; repeat case_decide; simplify_eq; try done. by rewrite Eb.
  - destruct (ctrl_core_busy_i inp); injection E as <-; [by apply core_stay|]. apply (core_send _ _ _ x l); try done.
    intros []; cbn; unfold set_dir; repeat case_decide; simplify_eq; try done. by rewrite Eb.
Qed.

Definition host_departs (r : router) : spot -> list Z :=
  fun q => match q with OutHost => option_list (head (at_host host_o r)) | OutHostCtrl => option_list (head (at_host host_ctrl_o r)) | _ => [] end.

Lemma host_output_step w : step [] none (host_departs (rr w)) w (host_output w) /\
  data_sent_o (ro (host_output w)) = data_sent_o (ro w) /\ ctrl_sent_o (ro (host_output w)) = ctrl_sent_o (ro w) /\
  (host_sent_o (ro w) = None -> host_sent_o (ro (host_output w)) = head (at_host host_o (rr w))) /\
  (host_ctrl_sent_o (ro w) = None -> host_ctrl_sent_o (ro (host_output w)) = head (at_host host_ctrl_o (rr w))).
Proof using.
  unfold host_output. destruct (host (rr w)) as [h|] eqn:Eh.
  - set (w1 := on_o _ _). assert (step [] none (host_departs (rr w)) w w1) as Hs.
    { split; [|constructor|done]. split; intros q Hq; [destruct q; try done; unfold w1; cbn; unfold at_host; cbn; by rewrite ?Eh, ?app_nil_r|].
      destruct q; try done; unfold w1, host_departs; cbn; unfold at_host; cbn; rewrite ?Eh, ?app_nil_r; try done; [by destruct (host_o h)|by destruct (host_ctrl_o h)]. }
    unfold at_host. rewrite Eh. destruct (_ && _); [by split_and!|]. split; [|done]. by destruct Hs; split.
  - unfold at_host. rewrite Eh. split; [|by split_and!]. split; [|constructor|done].
    split; intros q Hq; cbn; rewrite ?app_nil_r; try done. unfold host_departs, at_host. rewrite Eh. by destruct q.
Qed.

(** *** The whole pass *)

Lemma fold_depart (f : rworld -> Directions -> result rworld) (mk : Directions -> spot) (sent : Directions -> option Z -> router_out -> router_out) ds w w' :
  (forall w d w', f w d = Ok w' -> exists o, step [] none (depart_only (mk d) o) w w' /\ ro w' = sent d o (ro w)) ->
  (forall d d', mk d = mk d' -> d = d') -> NoDup ds -> foldM f w ds = Ok w' -> exists outs,
  step [] none outs w w' /\ ro w' = foldl (fun out d => sent d (head (outs (mk d))) out) (ro w) ds /\
  (forall d, d ∈ ds -> outs (mk d) = option_list (head (outs (mk d)))) /\ (forall q, (forall d, d ∈ ds -> q <> mk d) -> outs q = []).
Proof using.
  intros Hf Hinj. revert w. induction ds as [|d ds IH]; intros w Hnd E; cbn in E.
  { injection E as <-. exists none. split; [apply step_refl|]. split; [done|]. split; [|done]. intros d Hd. by apply elem_of_nil in Hd. }
  apply list.NoDup_cons in Hnd as [Hd Hnd]. apply bind_ok in E as (w1 & E1 & E). apply Hf in E1 as (o & S1 & R1).
  destruct (IH _ Hnd E) as (outs & S2 & R2 & P2 & N2). exists (both (depart_only (mk d) o) outs).
  assert (both (depart_only (mk d) o) outs (mk d) = option_list o) as Ed.
  { unfold both, depart_only, arrive_only. rewrite decide_True by done. rewrite (N2 (mk d)); [apply app_nil_r|]. by intros d' Hd' ->%Hinj. }
  assert (forall d', d' ∈ ds -> both (depart_only (mk d) o) outs (mk d') = outs (mk d')) as Eo.
  { intros d' Hd'. unfold both, depart_only, arrive_only. rewrite decide_False by (intros ->%Hinj; done). done. }
  split; [|split; [|split]].
  - eapply (step_ext ([] ++ []) (both none none) none _ _); [done|done|by eapply step_trans].
  - cbn [foldl]. rewrite Ed, R2, R1. replace (head (option_list o)) with o by (by destruct o). generalize (sent d o (ro w)) as out. clear -Eo.
    induction ds as [|d1 ds IH]; intros out; [done|]. cbn. rewrite Eo by left. apply IH. intros d' Hd'. apply Eo. by right.
  - intros d' [->|Hd']%elem_of_cons; [rewrite Ed; by destruct o|]. rewrite (Eo _ Hd'). by apply P2.
  - intros q Hq. unfold both, depart_only, arrive_only. rewrite decide_False by (apply Hq; left). cbn. apply N2. intros d' Hd'. apply Hq. by right.
Qed.

(** What enters and what leaves in a pass, against the signals read and written. *)
Definition arrives (r : router) (ins : spot -> list Z) : Prop :=
  (forall d, if decide (d ∈ dirs) then arrival (center_armed (coll r)) d (ins (InData d)) /\ ctrl_arrival d (ins (InCtrl d))
             else ins (InData d) = [] /\ ins (InCtrl d) = []) /\
  ins InHost = match host r, host_sent_i inp with Some _, Some x => [x] | _, _ => [] end.
Definition departs (evs : list event) (out : router_out) (outs : spot -> list Z) : Prop :=
  (forall d, d <> CENTER -> outs (OutData d) = option_list (data_sent_o out d) /\ outs (OutCtrl d) = option_list (ctrl_sent_o out d)) /\
  outs (OutData CENTER) = option_list (data_sent_o out CENTER) ++ net_took false evs /\
  outs (OutCtrl CENTER) = option_list (ctrl_sent_o out CENTER) ++ net_took true evs /\
  outs OutHost = option_list (host_sent_o out) /\ outs OutHostCtrl = option_list (host_ctrl_sent_o out).

Lemma all_inputs w w1 w2 b : center_armed (coll (rr w)) = b -> host (rr w2) = host (rr w) ->
  foldM (data_input M rid inp) w dirs = Ok w1 -> foldM (ctrl_input M rid inp) w1 dirs = Ok w2 ->
  exists ins, step (input_events b CENTER) ins none w (host_input inp w2) /\ ro (host_input inp w2) = ro w /\ arrives (rr w) ins.
Proof using.
  intros Hb Eh E1 E2. assert (NoDup dirs /\ NoDup sides) as [Hn Hn'] by (apply (bool_decide_unpack _); vm_compute; done).
  change dirs with (sides ++ [CENTER]) in E1. rewrite foldM_app in E1. apply bind_ok in E1 as (wa & E0 & E1). cbn [foldM] in E1. apply bind_ok in E1 as (wb & E1 & [= ->]).
  apply (fold_arrive _ InData (arrival b) b) in E0 as (i0 & S0 & R0 & P0 & N0); [|..|done|done]; [| |congruence].
  2:{ intros v d v' Hd Ev Ed. apply data_input_step in Ed as (xs & Sd & Rd & Pd). rewrite Ev in *. exists xs. split; [|done].
      unfold input_events in Sd. rewrite decide_False in Sd; [done|]. intros ->. revert Hd. by apply (bool_decide_unpack _); vm_compute. }
  assert (center_armed (coll (rr wa)) = b) as Hba by (by rewrite (step_armed _ _ _ _ _ S0)).
  apply data_input_step in E1 as (x1 & S1 & R1 & P1). rewrite Hba in *.
  apply (fold_arrive _ InCtrl ctrl_arrival (center_armed (coll (rr w1)))) in E2 as (i2 & S2 & R2 & P2 & N2); [|intros; by eapply ctrl_input_step|congruence|done|done].
  destruct (host_input_step w2) as (xs & S3 & R3 & P3).
  exists (both (both (both i0 (arrive_only (InData CENTER) x1)) i2) (arrive_only InHost xs)). split; [|split; [congruence|split]].
  - replace (input_events b CENTER) with ((([] ++ input_events b CENTER) ++ []) ++ []) by (by rewrite !app_nil_r).
    eapply (step_ext _ _ _ (both (both (both none none) none) none) none); [done|done|]. by eapply step_trans; [eapply step_trans; [eapply step_trans|]|].
  - intros d. unfold both, arrive_only. rewrite !(decide_False (P := _ = InHost)) by done. rewrite !app_nil_r. rewrite Hb.
    rewrite (N0 (InCtrl d)), (N2 (InData d)), app_nil_r by (intros; congruence). cbn [app].
    destruct (decide (d = CENTER)) as [->|Hd].
    + rewrite (N0 (InData CENTER)), (decide_True (P := InData CENTER = _)) by (done || (intros d' Hd' [= <-]; revert Hd'; apply (bool_decide_unpack _); vm_compute; done)). cbn [app].
      rewrite decide_True by (apply (bool_decide_unpack _); vm_compute; done). split; [done|]. apply P2. apply (bool_decide_unpack _); vm_compute; done.
    + rewrite (decide_False (P := InData d = _)) by congruence. rewrite app_nil_r. case_decide as Hin.
      * split; [|by apply P2]. apply P0. change dirs with (sides ++ [CENTER]) in Hin. apply elem_of_app in Hin as [?|Hin%list_elem_of_singleton]; done.
      * split; [apply N0|apply N2]; intros d' Hd' [= <-]; [|done]. apply Hin. change dirs with (sides ++ [CENTER]). apply elem_of_app. by left.
  - unfold both, arrive_only. rewrite (N0 InHost), (N2 InHost), (decide_False (P := InHost = InData _)) by done. rewrite decide_True by done. cbn. by rewrite <- Eh.
Qed.

Lemma data_sends f out : (forall d, data_sent_o out d = None) -> let out' := foldl (fun out d => sent_data d (f d) out) out sides in
  (forall d, data_sent_o out' d = if decide (d ∈ sides) then f d else None) /\
  ctrl_sent_o out' = ctrl_sent_o out /\ host_sent_o out' = host_sent_o out /\ host_ctrl_sent_o out' = host_ctrl_sent_o out.
Proof using.
  destruct out; intros H; cbn in H; cbn. destruct (f WEST) eqn:E1, (f EAST) eqn:E2, (f NORTH) eqn:E3, (f SOUTH) eqn:E4; (split; [intros []; vm_compute; rewrite ?H, ?E1, ?E2, ?E3, ?E4; done|done]).
Qed.
Lemma ctrl_sends f out : (forall d, ctrl_sent_o out d = None) -> let out' := foldl (fun out d => sent_ctrl d (f d) out) out sides in
  (forall d, ctrl_sent_o out' d = if decide (d ∈ sides) then f d else None) /\
  data_sent_o out' = data_sent_o out /\ host_sent_o out' = host_sent_o out /\ host_ctrl_sent_o out' = host_ctrl_sent_o out.
Proof using.
  destruct out; intros H; cbn in H; cbn. destruct (f WEST) eqn:E1, (f EAST) eqn:E2, (f NORTH) eqn:E3, (f SOUTH) eqn:E4; (split; [intros []; vm_compute; rewrite ?H, ?E1, ?E2, ?E3, ?E4; done|done]).
Qed.
Lemma core_sends s s' out : let out' := sent_ctrl CENTER s' (sent_data CENTER s out) in
  (forall d, data_sent_o out' d = if decide (d = CENTER) then from_option Some (data_sent_o out CENTER) s else data_sent_o out d) /\
  (forall d, ctrl_sent_o out' d = if decide (d = CENTER) then from_option Some (ctrl_sent_o out CENTER) s' else ctrl_sent_o out d) /\
  host_sent_o out' = host_sent_o out /\ host_ctrl_sent_o out' = host_ctrl_sent_o out.
Proof using. destruct s, s'; cbn; unfold set_dir; (split; [|split; [|done]]); intros d; by repeat case_decide; subst. Qed.

Lemma all_outputs w w1 w2 w3 w4 : ro w = silent false ->
  foldM (data_output M spec rid inp) w sides = Ok w1 -> foldM (ctrl_output M rid inp) w1 sides = Ok w2 ->
  core_output t rid inp (host_output w2) = Ok w3 -> core_ctrl_output rid inp w3 = Ok w4 ->
  exists evs outs, step evs none outs w w4 /\ departs evs (ro w4) outs /\ forall b, armed_after b evs = b.
Proof using.
  intros E0 E1 E2 E3 E4. assert (NoDup sides) as Hn by (apply (bool_decide_unpack _); vm_compute; done).
  assert (CENTER ∉ sides) as Hcs by (apply (bool_decide_unpack _); vm_compute; done).
  apply (fold_depart _ OutData sent_data) in E1 as (o1 & S1 & R1 & P1 & N1); [|apply data_output_step|congruence|done].
  apply (fold_depart _ OutCtrl sent_ctrl) in E2 as (o2 & S2 & R2 & P2 & N2); [|apply ctrl_output_step|congruence|done].
  destruct (host_output_step w2) as (S3 & Dd & Dc & Dh & Dhc).
  apply core_output_step in E3 as (e3 & o3 & s3 & S4 & R4 & L3 & F3). apply core_ctrl_output_step in E4 as (e4 & o4 & s4 & S5 & R5 & L4 & F4).
  exists (e3 ++ e4), (both (both (both (both o1 o2) (host_departs (rr w2))) (depart_only (OutData CENTER) o3)) (depart_only (OutCtrl CENTER) o4)). split.
  { replace (e3 ++ e4) with (((([] ++ []) ++ []) ++ e3) ++ e4) by done.
    eapply (step_ext _ (both (both (both (both none none) none) none) none)); [done|done|].
    eapply step_trans; [eapply step_trans; [eapply step_trans; [eapply step_trans|]|]|]; done. }
  pose proof (of_net_other false e3 F3) as O3. pose proof (of_net_other true e4 F4) as O4. cbn [negb] in O3, O4.
  split; [|intros b; by rewrite armed_app, (of_net_armed false b), (of_net_armed true)].
  destruct (data_sends (fun d => head (o1 (OutData d))) (ro w)) as (Fd & Fc & Fh & Fhc); [by rewrite E0|]. rewrite <- R1 in *.
  destruct (ctrl_sends (fun d => head (o2 (OutCtrl d))) (ro w1)) as (Gc & Gd & Gh & Ghc); [by rewrite Fc, E0|]. rewrite <- R2 in *.
  destruct (core_sends s3 s4 (ro (host_output w2))) as (Hd & Hc & Hh & Hhc). rewrite <- R4, <- R5 in *.
  rewrite Dd, Gd in Hd. rewrite Dc in Hc. rewrite Dh in Hh by (rewrite Gh, Fh, E0; done). rewrite Dhc in Hhc by (rewrite Ghc, Fhc, E0; done).
  clear Dd Dc Dh Dhc Gd Gh Ghc Fc Fh Fhc.
  split; [|split; [|split; [|split]]]; unfold both, depart_only, arrive_only, host_departs.
  - intros d Hnc. rewrite Hd, Hc, !(decide_False (P := d = CENTER)), Fd, Gc by done.
    rewrite !(decide_False (P := OutData d = _)), !(decide_False (P := OutCtrl d = _)) by congruence. rewrite !app_nil_r. rewrite (N2 (OutData d)), (N1 (OutCtrl d)), app_nil_r by (intros; congruence).
    cbn [app]. case_decide as Hs; [by auto|]. split; [apply N1|apply N2]; by intros d' Hd' [= <-].
  - rewrite (N1 (OutData CENTER)), (N2 (OutData CENTER)); [|by intros d Hin|by intros d Hin [= <-]].
    rewrite decide_True, decide_False by done. cbn [app]. rewrite app_nil_r, net_took_app, O4, app_nil_r, L3. rewrite Hd, decide_True, Fd by done. by destruct s3.
  - rewrite (N1 (OutCtrl CENTER)), (N2 (OutCtrl CENTER)); [|by intros d Hin [= <-]|by intros d Hin].
    rewrite decide_False, decide_True by done. cbn [app]. rewrite net_took_app, O3, L4. rewrite Hc, decide_True, Gc by done. by destruct s4.
  - rewrite (N1 OutHost), (N2 OutHost), !decide_False by done. by rewrite Hh, !app_nil_r.
  - rewrite (N1 OutHostCtrl), (N2 OutHostCtrl), !decide_False by done. by rewrite Hhc, !app_nil_r.
Qed.

(** The host side comes and goes with the tile, not with a pass. *)
Lemma drain_host w w' : drain_scheduled now w = Ok w' -> host (rr w') = host (rr w).
Proof using.
  unfold drain_scheduled. generalize (reduce_scheduled (coll (rr w))) as l. intros l E. apply bind_ok in E as ([kept w1] & E & [= <-]). cbn.
  revert w kept w1 E. induction l as [|it l IH]; intros w kept w1; cbn; [by intros [= _ <-]|]. destruct (_ || _).
  - intros E. apply bind_ok in E as ([k w2] & E & [= _ <-]). by apply IH in E.
  - intros E. apply bind_ok in E as (wire & _ & E). apply IH in E. rewrite E. cbn. clear. generalize (rr w) as r.
    induction wire as [|x wire IH]; intros r; [done|]. cbn. by rewrite IH.
Qed.
Lemma read_credits_host w d w' : read_credits inp w d = Ok w' -> host (rr w') = host (rr w).
Proof using. unfold read_credits. intros E. apply bind_ok in E as ([dc b1] & _ & E). apply bind_ok in E as ([cc b2] & _ & [= <-]). by destruct (b1 || b2). Qed.
Lemma data_input_host w d w' : data_input M rid inp w d = Ok w' -> host (rr w') = host (rr w).
Proof using.
  unfold data_input. destruct (data_sent_i inp d); [|intros [= <-]; by case_decide]. destruct (_ && _); [by intros [= <-]|].
  intros E. apply bind_ok in E as ([x g] & _ & [= <-]). cbn. by destruct (_ && _).
Qed.
Lemma ctrl_input_host w d w' : ctrl_input M rid inp w d = Ok w' -> host (rr w') = host (rr w).
Proof using. unfold ctrl_input. destruct (ctrl_sent_i inp d); [|by intros [= <-]]. intros E. by apply bind_ok in E as ([x g] & _ & [= <-]). Qed.
Lemma fold_host (f : rworld -> Directions -> result rworld) l w w' :
  (forall w d w', f w d = Ok w' -> host (rr w') = host (rr w)) -> foldM f w l = Ok w' -> host (rr w') = host (rr w).
Proof using. intros Hf. apply (foldM_inv f (fun w1 => host (rr w1) = host (rr w))); [|done]. intros w1 x w2 _ Hw E. rewrite <- Hw. by eapply Hf. Qed.

Lemma execute_steps r g w : router_execute M t spec rid now inp r g = Ok w -> exists evs ins outs,
  step evs ins outs (mkRw r (silent false) g false) w /\ arrives r ins /\ departs evs (ro w) outs /\
  armed_after (center_armed (coll r)) evs = core_armed (center_armed (coll r)).
Proof using.
  unfold router_execute. set (w0 := mkRw _ _ _ _). intros E.
  apply bind_ok in E as (w1 & E1 & E). apply bind_ok in E as (w2 & E2 & E). apply bind_ok in E as (w3 & E3 & E). apply bind_ok in E as (w4 & E4 & E).
  apply bind_ok in E as (w5 & E5 & E). apply bind_ok in E as (w6 & E6 & E). apply bind_ok in E as (w7 & E7 & E). apply bind_ok in E as (w8 & E8 & E).
  apply bind_ok in E as (w9 & E9 & E). apply bind_ok in E as (wa & Ea & E). apply bind_ok in E as (wb & Eb & E).
  assert (host (rr w2) = host r) as Eh2.
  { apply fold_host in E2; [|apply read_credits_host]. apply drain_host in E1. by rewrite E2, E1. }
  assert (host (rr w4) = host (rr w2)) as Eh.
  { apply fold_host in E4; [|apply ctrl_input_host]. apply fold_host in E3; [|apply data_input_host]. by rewrite E4, E3. }
  apply drain_quiet in E1. apply (quiet_fold (read_credits inp)) in E2; [|intros; by eapply read_credits_quiet].
  destruct (quiet_trans _ _ _ E1 E2) as (m1 & S1 & R1 & N1).
  assert (center_armed (coll (rr w2)) = center_armed (coll r)) as Ha by (by rewrite (step_armed _ _ _ _ _ S1), armed_noted, N1).
  destruct (all_inputs _ _ _ _ Ha Eh E3 E4) as (ins & S2 & R2 & Hins).
  destruct (all_outputs (host_input inp w4) w5 w6 w7 w8) as (e3 & outs & S3 & Houts & A3); [by rewrite R2, R1|done..|].
  apply host_route_quiet in E9. apply (quiet_fold (ctrl_route M t rid)) in Ea; [|intros; by eapply ctrl_route_quiet].
  apply (quiet_fold (data_route_step M t rid now)) in Eb; [|intros; by eapply data_route_quiet].
  destruct (quiet_trans _ _ _ E9 (quiet_trans _ _ _ Ea Eb)) as (m2 & S4 & R4 & N4).
  assert (step m2 none none w8 w /\ departs e3 (ro w) outs) as [S5 Hd].
  { assert (rr w = rr wb /\ rg w = rg wb /\ departs e3 (ro w) outs) as (Er & Eg & Hd).
    { destruct (bool_decide _); injection E as <-; (split; [done|split; [done|]]); revert Houts; rewrite <- R4; done. }
    split; [|done]. destruct S4 as [A B C]. unfold ledger_w, trees_of in *. rewrite <- Er, <- Eg in *. done. }
  set (b := center_armed (coll r)) in *. exists (((m1 ++ input_events b CENTER) ++ e3) ++ m2), ins, outs. split; [|split; [|split]].
  - eapply (step_ext _ (both (both (both none ins) none) none) _ (both (both (both none none) outs) none)).
    + intros q. unfold both, none. cbn. by rewrite !app_nil_r.
    + intros q. unfold both, none. cbn. by rewrite !app_nil_r.
    + eapply step_trans; [eapply step_trans; [eapply step_trans|]|]; done.
  - destruct Hins as [A B]. unfold arrives. rewrite <- Eh2. fold b. rewrite <- Ha. done.
  - assert (forall ctrl, net_took ctrl (((m1 ++ input_events b CENTER) ++ e3) ++ m2) = net_took ctrl e3) as En.
    { intros ctrl. rewrite !net_took_app, (net_took_noted _ m1), (net_took_noted _ m2), N1, N4, app_nil_r. unfold input_events. by repeat case_match. }
    destruct Hd as (D1 & D2 & D3 & D4). split; [done|]. by rewrite !En.
  - rewrite !armed_app, A3, (armed_noted _ m2), N4, (armed_noted _ m1), N1. cbn. unfold core_armed, input_events. rewrite decide_True by done.
    destruct (data_sent_i inp CENTER) as [x|]; [|done]. destruct (is_collective x); [|done]. by destruct b.
Qed.
End pass.

(** C7: a pass of the router loses, repeats and makes up nothing.  Every queue of the
    router, the host queues included, is first in first out: what it held and what
    arrived is what was taken from it and what it holds; what it held and what was
    put into it is what left and what it holds.  Between them lies a list of events,
    and the events that move a flit are those the code allows: a message goes to its next
    hop and to no other queue, a memory flit towards its tile or core, a multicast flit
    to all the outputs of its tree entry at once; a reduction header is kept for its
    payload, an operand is kept in its entry, the last operand of an entry closes it and
    schedules the result computed from all of them, and a scheduled result whose time
    has come is sent and struck off.  Run over these events, the books of the
    reductions and of the memory network are after the pass what they were before it
    changed by exactly those events.  What arrived is what the channels brought, where a
    collective flit of the core is read again only if the core let go of it since; what
    left is what the signals carry and, towards the core, the memory flits that the
    network accepted. *)
Theorem router_pass_conserves `{Geometry} (M : machine) (t : hbm_tables) (spec : bool) (rid now : Z) (inp : router_in) (r : router)
    (g : router_globals) (w : rworld) :
  router_execute M t spec rid now inp r g = Ok w -> exists evs ins outs,
  (forall q, is_input q = true -> queue r q ++ ins q = taken q (evs ≫= moves_of) ++ queue (rr w) q) /\
  (forall q, is_input q = false -> queue r q ++ entered q (evs ≫= moves_of) = outs q ++ queue (rr w) q) /\
  acts M t rid now (g_tree_entries (g_fabric g), g_reduce_nodes g) (ledger_of r g) evs (ledger_of (rr w) (rg w)) /\
  arrives M rid inp r ins /\ departs evs (ro w) outs /\ center_armed (coll (rr w)) = core_armed inp (center_armed (coll r)).
Proof.
  intros (evs & ins & outs & S & Ha & Hd & Hc)%execute_steps. exists evs, ins, outs. rewrite (step_armed _ _ _ _ _ _ _ _ _ S), <- Hc.
  destruct S as [[Hi Ho] Hl _]. by split_and!.
Qed.

(** *** Two packets through a router *)

Definition demo_tables : hbm_tables := mkTables [] [] ∅ 4.
Definition demo_router_globals : router_globals :=
  mkRg v5_initial (mkRepin 0 0 0) ResetCollectiveFabric ∅ None (replicate 4 0) (replicate 4 0) (replicate 4 0) (replicate 4 0) 0 0 0.
(** A packet of a flow to the core next door. *)
Definition demo_packet (n : Z) (last : bool) : Z :=
  match SerializeMsg (mkMsg last DATA n 1 0 1 0 0 false false 0 0 0 0 0 0 0 (-1) 0) with Ok x => x | Err _ => 0 end.
Definition demo_sent (x : Z) : router_in :=
  mkRin (set_dir CENTER (Some x) (all_dirs None)) (all_dirs None) None (all_dirs true) (all_dirs true) false false (all_dirs false) (all_dirs false).
Definition demo_pass (inp : router_in) (r : router) (g : router_globals) : result rworld :=
  @router_execute demo_geometry demo_machine demo_tables false 0 0 inp r g.
Definition demo_mid : rworld :=
  match demo_pass (demo_sent (demo_packet 1 false)) (new_router false) demo_router_globals with
  | Ok w => w | Err _ => mkRw (new_router false) (silent false) demo_router_globals false end.
Definition demo_second : result rworld := demo_pass (demo_sent (demo_packet 2 true)) (rr demo_mid) (rg demo_mid).

(** The first packet waits in the east output; as the second enters it, it leaves. *)
Lemma router_pass_conserves_witness : queue (rr demo_mid) (OutData EAST) = [demo_packet 1 false] /\ exists evs outs,
  outs (OutData EAST) = [demo_packet 1 false] /\ entered (OutData EAST) (evs ≫= moves_of) = [demo_packet 2 true] /\
  exists L, @acts demo_geometry demo_machine demo_tables 0 0 (∅, ∅) (ledger_of (rr demo_mid) (rg demo_mid)) evs L.
Proof.
  assert (queue (rr demo_mid) (OutData EAST) = [demo_packet 1 false]) as Hq by (vm_compute; reflexivity). split; [exact Hq|].
  assert (match demo_second with Ok w => Some (queue (rr w) (OutData EAST), data_sent_o (ro w) EAST) | Err _ => None end =
    Some ([demo_packet 2 true], Some (demo_packet 1 false))) as Hw by (vm_compute; reflexivity).
  destruct demo_second as [w|e] eqn:E; [|discriminate Hw].
  unfold demo_second, demo_pass in E. apply (@router_pass_conserves demo_geometry demo_machine demo_tables false) in E.
  destruct E as (evs & ins & outs & _ & Hout & Hl & _ & (Hd & _) & _).
  injection Hw as Hw1 Hw2.
  specialize (Hout (OutData EAST) eq_refl). destruct (Hd EAST) as [Hd1 _]; [discriminate|]. change (queue (rr w) (OutData EAST)) with (buffer_o (rr w) EAST) in Hout.
  rewrite Hd1, Hw1, Hw2, Hq in Hout.
  exists evs, outs. split; [by rewrite Hd1, Hw2|]. split; [by injection Hout as ->|].
  assert (g_tree_entries (g_fabric (rg demo_mid)) = ∅) as He by (vm_compute; reflexivity). rewrite He in Hl.
  assert (g_reduce_nodes (rg demo_mid) = ∅) as Hn by (vm_compute; reflexivity). rewrite Hn in Hl. by eexists.
Defined.
