(* ===== verification/HbmAssembly.v ===== *)
(** Assembly of memory transactions ([HBMEndpointAgent::TryAccept],
    [TryAcceptResponseFlit]): the flits of a transaction, in any order and mixed
    with those of others, are decoded once they are all there, and not before. *)

From S2P Require Import Prelude HbmAddressMap MsgWire D2DConfig DieTopology PortSelect HostAttach HbmMemWire Routing.
From S2P Require Import HbmNetwork.

(** ** Errors of the decoder *)

(** The decoder raises nothing but [runtime_error]. *)
Definition only_runtime {A} (r : result A) : Prop := match r with Ok _ => True | Err e => is_runtime_error e = true end.

Lemma only_runtime_bind {A B} (r : result A) (f : A -> result B) : only_runtime r -> (forall a, only_runtime (f a)) -> only_runtime (r ≫= f).
Proof. destruct r; cbn; auto. Qed.
Lemma only_runtime_throw {A} c what (k : result A) : only_runtime k -> only_runtime (THROW runtime_error what WHEN c;; k).
Proof. by destruct c. Qed.
Lemma Kind_runtime w : only_runtime (Kind w).
Proof. unfold Kind. apply only_runtime_throw. cbv zeta. repeat (case_match; [done|]). done. Qed.
Lemma read_data_runtime k id ds : only_runtime (read_data k id ds).
Proof.
  unfold read_data. apply only_runtime_bind; [|done]. generalize ([] : list Z, [] : list Z, 0) as acc.
  generalize (Z.of_nat (length ds)) as n. intros n. induction ds as [|d ds IH]; intros acc; cbn; [done|].
  apply only_runtime_bind; [|intros a; apply IH]. unfold read_flit. apply only_runtime_bind; [apply Kind_runtime|]. intros k'.
  apply only_runtime_throw. cbv zeta. apply only_runtime_throw. by apply only_runtime_throw.
Qed.
Lemma DeserializeMemMsg_runtime ws : only_runtime (DeserializeMemMsg ws).
Proof.
  unfold DeserializeMemMsg. destruct ws as [|w rest]; [done|]. apply only_runtime_bind; [apply Kind_runtime|]. intros k. cbv zeta.
  destruct (bool_decide (k = kRequest)).
  - apply only_runtime_throw, only_runtime_throw, only_runtime_bind; [apply read_data_runtime|]. intros r. by apply only_runtime_throw.
  - apply only_runtime_bind; [apply Kind_runtime|]. intros k'. apply only_runtime_throw, only_runtime_throw, only_runtime_bind; [apply read_data_runtime|].
    intros r. by apply only_runtime_throw.
Qed.
Lemma caught_spec {A} (r : result A) : only_runtime r -> caught r = Ok (match r with Ok a => Some a | Err _ => None end).
Proof. destruct r; cbn; [done|]. by intros ->. Qed.

(** ** Incomplete transactions *)

Lemma Ok_inj {A} (a b : A) : Ok a = Ok b -> a = b.
Proof. by intros [= ->]. Qed.

Lemma read_flit_inv k id last acc d acc' : read_flit k id last acc d = Ok acc' ->
  acc'.2 = acc.2 + 1 /\ get_field d 48 16 = acc.2 /\ (get_field d 72 1 <> 0 <-> acc.2 + 1 = last).
Proof.
  unfold read_flit. intros E. apply bind_ok in E as (k' & _ & E). apply throw_bind_ok in E as [Hc E]. cbv zeta in E.
  apply throw_bind_ok in E as [_ E]. apply throw_bind_ok in E as [He E]. apply Ok_inj in E as <-. cbn [snd].
  apply orb_false_iff in Hc as [_ Hc]. apply negb_false_iff, Z.eqb_eq in Hc. apply negb_false_iff, eqb_prop in He.
  split; [done|]. split; [done|]. destruct (Z.eqb_spec (get_field d 72 1) 0), (Z.eqb_spec (acc.2 + 1) last); cbn in He; split; intros; done || congruence.
Qed.

Lemma read_flits_count k id last l acc acc' : foldM (read_flit k id last) acc l = Ok acc' -> acc'.2 = acc.2 + Z.of_nat (length l).
Proof.
  revert acc. induction l as [|d l IH]; intros acc; cbn [foldM length]; [intros [= <-]; lia|].
  intros E. apply bind_ok in E as (a & Ea & E). apply read_flit_inv in Ea as (Ha & _ & _). apply IH in E. lia.
Qed.

(** Fewer data flits than the payload needs are refused: the last one read is not marked as the last. *)
Lemma read_data_short m k id ds ds' : Z.of_nat (length ds) = ceil_div (length_bytes m) kMemFlitPayloadBytes ->
  (forall j d, ds !! j = Some d -> data_flit_of m k (Z.of_nat j) d) -> (forall d, d ∈ ds' -> d ∈ ds) ->
  ds' <> [] -> (length ds' < length ds)%nat -> is_ok (read_data k id ds') = false.
Proof.
  intros Hlen Hall Hsub Hne Hlt. destruct (read_data k id ds') as [r|e] eqn:E; [exfalso|done].
  unfold read_data in E. apply bind_ok in E as (acc & E & _). destruct ds' as [|d pre _] using rev_ind; [done|].
  rewrite foldM_app in E. apply bind_ok in E as (a & Ea & E). cbn [foldM] in E. apply bind_ok in E as (a' & E & _).
  apply read_flits_count in Ea. apply read_flit_inv in E as (_ & Hseq & Hend). rewrite length_app in *. cbn [length snd] in *.
  assert (d ∈ ds) as [j Hj]%list_elem_of_lookup by (apply Hsub, elem_of_app; right; left). pose proof (Hall _ _ Hj) as Hd.
  rewrite (df_seq _ _ _ _ Hd) in Hseq. destruct Hend as [_ Hend]. specialize (Hend ltac:(lia)). rewrite (df_end _ _ _ _ Hd) in Hend.
  destruct (Z.eqb_spec (Z.of_nat j * kMemFlitPayloadBytes + valid_at m (Z.of_nat j)) (length_bytes m)) as [Heq|]; [|by cbn in Hend].
  pose proof (ceil_div_spec (length_bytes m) kMemFlitPayloadBytes ltac:(done)) as Hc. rewrite <- Hlen in Hc.
  apply lookup_lt_Some in Hj. unfold valid_at, kMemFlitPayloadBytes in *. lia.
Qed.

(** ** The flits of a transaction *)

(** The transaction a flit belongs to, and the order of the flits in it. *)
Definition tx_of (m : MemMsg) : TxKey := (source_core m, txid m).
Definition flit_tx (w : Z) : TxKey := (r_source_core (route w), r_txid (route w)).
Definition flit_lt (v w : Z) : Prop := flit_key (route v) < flit_key (route w).

Record wire_of (m : MemMsg) (ws : list Z) : Prop := {
  wo_tx : forall w, w ∈ ws -> is_ok (InspectMemWireFlit w) = true /\ flit_tx w = tx_of m;
  wo_sorted : StronglySorted flit_lt ws;
  wo_full : DeserializeMemMsg ws = Ok (received m);
  wo_short : forall c, (forall w, w ∈ c -> w ∈ ws) -> StronglySorted flit_lt c -> (length c < length ws)%nat -> is_ok (DeserializeMemMsg c) = false;
  wo_some : ws <> [];
  wo_dir : forall w, w ∈ ws -> request_direction (route w) = bool_decide (message_type m = kMsgRequest);
  wo_place : forall w, w ∈ ws -> message_type m = kMsgRequest -> r_stack_id (route w) = stack_id m /\ r_channel_id (route w) = channel_id m
}.

Lemma flit_tx_data m k sq d : flit_rank k = 1 -> 0 <= txid m < 2 ^ 31 -> data_flit_of m k sq d -> flit_tx d = tx_of m.
Proof.
  intros Hk Hid Hd. unfold flit_tx, route, InspectMemWireFlit. rewrite (Kind_spec _ _ _ (df_flit _ _ _ _ Hd)). cbn [mbind result_bind].
  rewrite (flit_of_id _ _ _ Hid (df_flit _ _ _ _ Hd)), (df_source _ _ _ _ Hd). by destruct k.
Qed.

Lemma data_flit_facts m k ds d : flit_rank k = 1 -> 0 <= txid m < 2 ^ 31 -> data_of k m ds -> d ∈ ds ->
  (is_ok (InspectMemWireFlit d) = true /\ flit_tx d = tx_of m) /\ Kind d = Ok k /\ 65536 <= flit_key (route d) < 2 * 65536.
Proof.
  intros Hk Hid Hds Hd. destruct (data_keys m k ds Hk Hds) as [H _]. destruct (H _ Hd) as [Hok Hkey]. split; [|split; [|done]].
  - split; [done|]. unfold data_of in Hds. destruct (carries_data m); [|subst; by apply elem_of_nil in Hd]. destruct Hds as [_ Hall].
    apply list_elem_of_lookup in Hd as [j Hj]. by eapply flit_tx_data, Hall.
  - unfold data_of in Hds. destruct (carries_data m); [|subst; by apply elem_of_nil in Hd]. destruct Hds as [_ Hall].
    apply list_elem_of_lookup in Hd as [j Hj]. eapply Kind_spec, df_flit, Hall, Hj.
Qed.

Lemma data_flit_place m k ds d : k = kWriteData \/ k = kReadData -> data_of k m ds -> d ∈ ds ->
  request_direction (route d) = bool_decide (k = kWriteData) /\ r_stack_id (route d) = stack_id m /\ r_channel_id (route d) = channel_id m.
Proof.
  intros Hk Hds Hd. unfold data_of in Hds. destruct (carries_data m); [|subst; by apply elem_of_nil in Hd]. destruct Hds as [_ Hall].
  apply list_elem_of_lookup in Hd as [j Hj]. pose proof (Hall _ _ Hj) as Hf. unfold route, InspectMemWireFlit.
  rewrite (Kind_spec _ _ _ (df_flit _ _ _ _ Hf)). cbn [mbind result_bind].
  rewrite (df_stack _ _ _ _ Hf), (df_channel _ _ _ _ Hf). by destruct Hk as [-> | ->].
Qed.

(** A transaction with data flits carries data, and a positive length. *)
Lemma data_of_some m k ds : data_of k m ds -> ds <> [] -> carries_data m = true /\ 0 < length_bytes m /\
  (forall ds', (forall d, d ∈ ds' -> d ∈ ds) -> ds' <> [] -> (length ds' < length ds)%nat -> forall id, is_ok (read_data k id ds') = false).
Proof.
  unfold data_of. destruct (carries_data m); [|done]. intros [Hlen Hall] Hne. split; [done|]. split.
  - destruct ds; [done|]. cbn [length] in Hlen. pose proof (ceil_div_spec (length_bytes m) kMemFlitPayloadBytes ltac:(done)) as Hc.
    rewrite <- Hlen in Hc. unfold kMemFlitPayloadBytes in Hc. lia.
  - intros ds' Hsub Hne' Hlt id. by eapply read_data_short.
Qed.

Lemma request_short m req ds c : mem_valid m -> message_type m = kMsgRequest -> request_of m req -> data_of kWriteData m ds ->
  (forall w, w ∈ c -> w ∈ req :: ds) -> StronglySorted flit_lt c -> (length c < length (req :: ds))%nat -> is_ok (DeserializeMemMsg c) = false.
Proof.
  intros Hv Ht Hreq Hds Hsub Hs Hlt. destruct (DeserializeMemMsg c) as [x|e] eqn:E; [exfalso|done].
  destruct c as [|w rest]; [done|]. apply StronglySorted_cons in Hs as [Hw _]. rewrite list.Forall_forall in Hw. unfold flit_lt in Hw.
  destruct (flit_inspect _ _ _ (rq_flit _ _ Hreq)) as [_ Hkr]. cbn in Hkr.
  assert (Hrest : forall v, v ∈ rest -> v ∈ ds).
  { intros v Hv'. specialize (Hw _ Hv'). pose proof (Hsub v ltac:(by right)) as [->|?]%elem_of_cons; [|done]. exfalso.
    pose proof (Hsub w ltac:(left)) as [->|Hwd]%elem_of_cons; [lia|].
    destruct (data_flit_facts m kWriteData ds w eq_refl (mv_txid m Hv) Hds Hwd) as (_ & _ & ?). lia. }
  unfold DeserializeMemMsg in E. pose proof (Hsub w ltac:(left)) as [->|Hwd]%elem_of_cons.
  - rewrite (Kind_spec _ _ _ (rq_flit _ _ Hreq)) in E. cbn [mbind result_bind] in E. cbv zeta in E. rewrite bool_decide_eq_true_2 in E by done.
    apply throw_bind_ok in E as [_ E]. apply throw_bind_ok in E as [_ E]. apply bind_ok in E as (r & Er & E). apply throw_bind_ok in E as [Hc _].
    rewrite (rq_command _ _ Hreq), command_of_b2z, (rq_length _ _ Hreq) in Hc. cbn [length] in Hlt.
    destruct (data_of_some _ _ _ Hds) as (Hcar & Hpos & Hshort); [destruct ds; [cbn in Hlt; lia|done]|].
    unfold carries_data in Hcar. rewrite Ht in Hcar. rewrite Hcar in Hc. destruct rest as [|v rest].
    + apply Ok_inj in Er as <-. apply negb_false_iff, Z.eqb_eq in Hc. cbn [fst length Z.of_nat] in Hc. lia.
    + specialize (Hshort (v :: rest) Hrest ltac:(done) ltac:(cbn [length] in *; lia)). specialize (Hshort (i32 (get_field req 16 32))). by rewrite Er in Hshort.
  - destruct (data_flit_facts m kWriteData ds w eq_refl (mv_txid m Hv) Hds Hwd) as (_ & Hk & _).
    rewrite Hk in E. cbn [mbind result_bind] in E. cbv zeta in E. rewrite bool_decide_eq_false_2 in E by done.
    assert (List.last (w :: rest) 0 ∈ ds) as Hlast.
    { destruct rest as [|v rest] using rev_ind; [done|]. rewrite app_comm_cons, last_last. apply Hrest, elem_of_app. right. left. }
    destruct (data_flit_facts m kWriteData ds _ eq_refl (mv_txid m Hv) Hds Hlast) as (_ & Hk' & _). rewrite Hk' in E. done.
Qed.

Lemma response_short m ds resp c : mem_valid m -> message_type m = kMsgResponse -> response_of m resp -> data_of kReadData m ds ->
  (forall w, w ∈ c -> w ∈ ds ++ [resp]) -> StronglySorted flit_lt c -> (length c < length (ds ++ [resp]))%nat -> is_ok (DeserializeMemMsg c) = false.
Proof.
  intros Hv Ht Hresp Hds Hsub Hs Hlt. destruct (DeserializeMemMsg c) as [x|e] eqn:E; [exfalso|done].
  destruct (flit_inspect _ _ _ (rs_flit _ _ Hresp)) as [_ Hkr]. cbn in Hkr. pose proof (Kind_spec _ _ _ (rs_flit _ _ Hresp)) as HKr.
  assert (Hkind : forall w, w ∈ c -> exists k, Kind w = Ok k /\ k <> kRequest).
  { intros w [Hw|Hw%list_elem_of_singleton]%Hsub%elem_of_app; [|subst; by exists kResponse].
    destruct (data_flit_facts m kReadData ds w eq_refl (mv_txid m Hv) Hds Hw) as (_ & Hk & _). by exists kReadData. }
  destruct c as [|z pre _] using rev_ind; [done|].
  assert (Hlast : z ∈ ds ++ [resp]) by (apply Hsub, elem_of_app; right; left).
  assert (exists w rest, pre ++ [z] = w :: rest) as (w & rest & Ec) by (destruct pre; by eexists _, _).
  destruct (Hkind w) as (k & Hk & Hkn); [rewrite Ec; left|].
  unfold DeserializeMemMsg in E. rewrite Ec in E. rewrite Hk in E. cbn [mbind result_bind] in E. cbv zeta in E.
  rewrite (bool_decide_eq_false_2 (k = kRequest)) in E by done. rewrite <- Ec, last_last, removelast_last in E.
  apply elem_of_app in Hlast as [Hz|Hz%list_elem_of_singleton].
  { destruct (data_flit_facts m kReadData ds z eq_refl (mv_txid m Hv) Hds Hz) as (_ & Hk' & _). rewrite Hk' in E. done. }
  subst z. rewrite HKr in E. cbn [mbind result_bind] in E. apply throw_bind_ok in E as [_ E]. apply throw_bind_ok in E as [_ E].
  apply bind_ok in E as (r & Er & E). apply throw_bind_ok in E as [Hc _].
  rewrite (rs_command _ _ Hresp), command_of_b2z, (rs_status _ _ Hresp), (rs_length _ _ Hresp) in Hc.
  rewrite !length_app in Hlt. cbn [length] in Hlt.
  assert (Hpre : forall v, v ∈ pre -> v ∈ ds).
  { intros v Hvp. assert (flit_lt v resp) as Hvl by (apply StronglySorted_app in Hs as (Hs & _); apply Hs; [done|left]).
    assert (v ∈ ds ++ [resp]) as [?|Hvr%list_elem_of_singleton]%elem_of_app by (apply Hsub, elem_of_app; by left); [done|]. subst. unfold flit_lt in Hvl. lia. }
  destruct (data_of_some _ _ _ Hds) as (Hcar & Hpos & Hshort); [destruct ds; [cbn in Hlt; lia|done]|].
  unfold carries_data in Hcar. rewrite Ht in Hcar. rewrite Hcar in Hc. destruct pre as [|v pre].
  - apply Ok_inj in Er as <-. apply negb_false_iff, Z.eqb_eq in Hc. cbn [fst length Z.of_nat] in Hc. lia.
  - specialize (Hshort (v :: pre) Hpre ltac:(done) ltac:(cbn [length] in *; lia)). specialize (Hshort (i32 (get_field w 16 32))). by rewrite Er in Hshort.
Qed.

(** The flits that [SerializeMemMsg] makes are a transaction. *)
Lemma serialize_wire m : mem_valid m -> payload_fits m -> exists ws, SerializeMemMsg m = Ok ws /\ wire_of m ws.
Proof.
  intros Hv Hfit. destruct (message_type m) eqn:Ht.
  - destruct (serialize_request m Hv Hfit Ht) as (req & ds & E & Hreq & Hds). exists (req :: ds). split; [done|].
    destruct (data_keys m kWriteData ds eq_refl Hds) as [Hk Hsort]. destruct (flit_inspect _ _ _ (rq_flit _ _ Hreq)) as [Hok Hkey].
    split; [| |by apply deserialize_request| |done|..].
    + intros w [->|Hw]%elem_of_cons; [|by apply (data_flit_facts m kWriteData ds w eq_refl (mv_txid m Hv) Hds Hw)]. split; [done|].
      unfold flit_tx, route, InspectMemWireFlit. rewrite (Kind_spec _ _ _ (rq_flit _ _ Hreq)). cbn [mbind result_bind r_source_core r_txid].
      by rewrite (flit_of_id _ _ _ (mv_txid m Hv) (rq_flit _ _ Hreq)), (rq_source _ _ Hreq).
    + apply StronglySorted_cons. split; [|done]. apply list.Forall_forall. intros w Hw. destruct (Hk w Hw) as [_ ?]. unfold flit_lt. rewrite Hkey. cbn. lia.
    + intros c. by apply (request_short m).
    + intros w [->|Hw]%elem_of_cons; rewrite Ht; [|by apply (data_flit_place m kWriteData ds w (or_introl eq_refl) Hds Hw)].
      unfold route, InspectMemWireFlit. by rewrite (Kind_spec _ _ _ (rq_flit _ _ Hreq)).
    + intros w [->|Hw]%elem_of_cons _; [|by apply (data_flit_place m kWriteData ds w (or_introl eq_refl) Hds Hw)].
      unfold route, InspectMemWireFlit. rewrite (Kind_spec _ _ _ (rq_flit _ _ Hreq)). cbn. by rewrite (rq_stack _ _ Hreq), (rq_channel _ _ Hreq).
  - destruct (serialize_response m Hv Hfit Ht) as (ds & resp & E & Hresp & Hds). exists (ds ++ [resp]). split; [done|].
    destruct (data_keys m kReadData ds eq_refl Hds) as [Hk Hsort]. destruct (flit_inspect _ _ _ (rs_flit _ _ Hresp)) as [Hok Hkey].
    split; [| |by apply deserialize_response| |by destruct ds| |by rewrite Ht].
    + intros w [Hw|Hw%list_elem_of_singleton]%elem_of_app; [by apply (data_flit_facts m kReadData ds w eq_refl (mv_txid m Hv) Hds Hw)|subst]. split; [done|].
      unfold flit_tx, route, InspectMemWireFlit. rewrite (Kind_spec _ _ _ (rs_flit _ _ Hresp)). cbn [mbind result_bind r_source_core r_txid].
      by rewrite (flit_of_id _ _ _ (mv_txid m Hv) (rs_flit _ _ Hresp)), (rs_source _ _ Hresp).
    + apply StronglySorted_app. split; [|split; [done|apply StronglySorted_cons; split; [by apply Forall_nil|apply SSorted_nil]]].
      intros v w Hvd ->%list_elem_of_singleton. destruct (Hk v Hvd) as [_ ?]. unfold flit_lt. rewrite Hkey. cbn. lia.
    + intros c. by apply (response_short m).
    + intros w [Hw|Hw%list_elem_of_singleton]%elem_of_app; rewrite Ht; [by apply (data_flit_place m kReadData ds w (or_intror eq_refl) Hds Hw)|subst].
      unfold route, InspectMemWireFlit. by rewrite (Kind_spec _ _ _ (rs_flit _ _ Hresp)).
Qed.

Lemma flit_lt_irrefl ws : StronglySorted flit_lt ws -> NoDup ws.
Proof.
  induction ws as [|w ws IH]; intros Hs; [constructor|]. apply StronglySorted_cons in Hs as [Hw Hs]. apply list.NoDup_cons. split; [|by apply IH].
  intros Hin. rewrite list.Forall_forall in Hw. specialize (Hw _ Hin). unfold flit_lt in Hw. lia.
Qed.

Lemma sorted_filter (P : Z -> Prop) `{!forall x, Decision (P x)} ws : StronglySorted flit_lt ws -> StronglySorted flit_lt (base.filter P ws).
Proof.
  induction ws as [|w ws IH]; intros Hs; [constructor|]. apply StronglySorted_cons in Hs as [Hw Hs]. rewrite filter_cons.
  case_decide; [|by apply IH]. apply StronglySorted_cons. split; [|by apply IH]. rewrite !list.Forall_forall in *.
  intros x [_ Hx]%list_elem_of_filter. by apply Hw.
Qed.

Lemma canonical_perm ws c : CanonicalizeMemWireFlits ws = Ok c -> c ≡ₚ ws.
Proof.
  unfold CanonicalizeMemWireFlits. destruct (_ <=? _)%nat; [by intros [= ->]|]. intros E. apply bind_ok in E as (l & El & [= <-]).
  rewrite stable_sort_perm. assert (fst <$> l = ws) as ->; [|done].
  refine (foldM_prefix_inv _ (fun pre (l : list routed) => fst <$> l = pre) ws [] _ _ eq_refl El). intros pre x post s s' _ <- E.
  apply bind_ok in E as (r & _ & [= <-]). by rewrite fmap_app.
Qed.

(** The flits so far and those to come: the decoder accepts them when there are no more to come. *)
Lemma gather m ws ws' rest : wire_of m ws -> ws' ++ rest ≡ₚ ws -> exists c, CanonicalizeMemWireFlits ws' = Ok c /\
  (rest = [] -> c = ws) /\ caught (DeserializeMemMsg c) = Ok (if bool_decide (rest = []) then Some (received m) else None).
Proof.
  intros Hw Hp. set (c := base.filter (fun w => w ∈ ws') ws).
  assert (NoDup ws) as Hnd by (eapply flit_lt_irrefl, wo_sorted, Hw).
  assert (NoDup ws') as Hnd' by (rewrite <- Hp in Hnd; by apply list.NoDup_app in Hnd as [? _]).
  assert (forall w, w ∈ ws' -> w ∈ ws) as Hsub by (intros w ?; rewrite <- Hp; apply elem_of_app; by left).
  assert (ws' ≡ₚ c) as Hc.
  { apply NoDup_Permutation; [done|by apply list.NoDup_filter|]. intros x. unfold c. rewrite list_elem_of_filter. naive_solver. }
  assert (StronglySorted flit_lt c) as Hs by (apply sorted_filter, wo_sorted with m, Hw).
  exists c. split; [|split].
  - apply canonical_order; [|done|done]. intros w [_ H]%list_elem_of_filter. by apply (wo_tx _ _ Hw).
  - intros ->. rewrite app_nil_r in Hp. unfold c. clear -Hp. assert (forall l : list Z, (forall w, w ∈ l -> w ∈ ws') -> base.filter (fun w => w ∈ ws') l = l) as Hf.
    { intros l. induction l as [|x l IH]; intros H; [done|]. rewrite filter_cons, decide_True by (apply H; left). by rewrite IH by (intros w Hw; apply H; by right). }
    apply Hf. intros w Hw. by rewrite Hp.
  - rewrite (caught_spec _ (DeserializeMemMsg_runtime c)). destruct (decide (rest = [])) as [->|Hne].
    + rewrite bool_decide_eq_true_2 by done. assert (c = ws) as ->; [|by rewrite (wo_full _ _ Hw)].
      assert (c ≡ₚ ws) as Hcw by (rewrite <- Hp, app_nil_r; by symmetry). clear -Hcw Hs Hw.
      apply (StronglySorted_unique_strong flit_lt); [|done|apply Hw|done]. intros x y _ _. unfold flit_lt. lia.
    + rewrite bool_decide_eq_false_2 by done. assert (is_ok (DeserializeMemMsg c) = false) as Hf.
      { apply (wo_short _ _ Hw); [by intros w [_ ?]%list_elem_of_filter|done|].
        apply Permutation_length in Hc. apply Permutation_length in Hp. rewrite length_app in Hp. destruct rest; [done|]. cbn [length] in Hp. lia. }
      by destruct (DeserializeMemMsg c).
Qed.

(** ** The endpoint agent *)

Definition of_tx (key : TxKey) (c : list Z) : Prop := flit_tx (hd 0 c) = key.
#[export] Instance of_tx_dec key c : Decision (of_tx key c).
Proof. unfold of_tx. apply _. Defined.

(** What [TryAccept] does with the flits of the key, as a function of what the decoder says. *)
Definition accept_outcome (depth : Z) (ep : endpoint) (key : TxKey) (prev : list Z) (w : Z) (c : list Z) (msg : option MemMsg) : bool * endpoint :=
  match msg with
  | Some _ =>
      if depth <=? Z.of_nat (length (ep_completed ep)) then (false, mkEndpoint (<[key := prev]> (ep_partial ep)) (ep_completed ep) (ep_active ep))
      else (true, mkEndpoint (delete key (ep_partial ep)) (ep_completed ep ++ [c]) (ep_active ep))
  | None => (true, mkEndpoint (<[key := prev ++ [w]]> (ep_partial ep)) (ep_completed ep) (ep_active ep))
  end.

Lemma TryAccept_iff depth ep w res : TryAccept depth ep w = Ok res <->
  is_ok (InspectMemWireFlit w) = true /\ exists c msg, let prev := default [] (ep_partial ep !! flit_tx w) in
  CanonicalizeMemWireFlits (prev ++ [w]) = Ok c /\ caught (DeserializeMemMsg c) = Ok msg /\ res = accept_outcome depth ep (flit_tx w) prev w c msg.
Proof.
  unfold TryAccept, append_flit, flit_tx, route. destruct (InspectMemWireFlit w) as [r|e]; [|split; [done|by intros [? _]]]. cbn [mbind result_bind is_ok].
  cbv zeta. set (prev := default [] (ep_partial ep !! _)). rewrite removelast_last. split.
  - intros E. apply bind_ok in E as (c & Ec & E). apply bind_ok in E as (msg & Em & E). split; [done|]. exists c, msg. split; [done|]. split; [done|].
    apply Ok_inj. rewrite <- E. unfold accept_outcome. destruct msg; cbn [is_Some]; [|by rewrite bool_decide_eq_false_2 by (by intros [? ?])].
    rewrite bool_decide_eq_true_2 by done. cbn [andb]. by destruct (_ <=? _).
  - intros (_ & c & msg & Ec & Em & ->). rewrite Ec. cbn [mbind result_bind]. rewrite Em. cbn [mbind result_bind]. unfold accept_outcome.
    destruct msg; [|by rewrite bool_decide_eq_false_2 by (by intros [? ?])].
    rewrite bool_decide_eq_true_2 by done. cbn [andb]. by destruct (_ <=? _).
Qed.

(** The life of an agent: the flits it accepted, in order, and the requests its workers took. *)
Inductive ep_run (depth : Z) : list Z -> list (list Z) -> endpoint -> Prop :=
  | run_new : ep_run depth [] [] new_endpoint
  | run_flit l hs ep w ep' : ep_run depth l hs ep -> TryAccept depth ep w = Ok (true, ep') -> ep_run depth (l ++ [w]) hs ep'
  | run_refused l hs ep w ep' : ep_run depth l hs ep -> TryAccept depth ep w = Ok (false, ep') -> ep_run depth l hs ep'
  | run_take l hs ep c r ep' : ep_run depth l hs ep -> head (ep_completed ep) = Some c -> worker_take ep = Some (r, ep') -> ep_run depth l (hs ++ [c]) ep'
  | run_done l hs ep : ep_run depth l hs ep -> ep_run depth l hs (worker_done ep).

Definition keyed (ep : endpoint) : Prop := forall k l w, ep_partial ep !! k = Some l -> w ∈ l -> flit_tx w = k.

Lemma accept_keyed depth ep w b ep' : keyed ep -> TryAccept depth ep w = Ok (b, ep') -> keyed ep'.
Proof.
  intros Hk (_ & c & msg & _ & _ & E)%TryAccept_iff. unfold accept_outcome in E. set (prev := default [] (ep_partial ep !! flit_tx w)) in *.
  assert (forall x, x ∈ prev -> flit_tx x = flit_tx w) as Hprev.
  { intros x Hx. unfold prev in Hx. destruct (ep_partial ep !! flit_tx w) as [l|] eqn:El; [by eapply Hk|by apply elem_of_nil in Hx]. }
  intros k l x. destruct msg; [destruct (_ <=? _)|]; injection E as -> ->; cbn [ep_partial].
  - intros [[<- <-]|[_ ?]]%lookup_insert_Some; [by apply Hprev|by eapply Hk].
  - intros [_ ?]%lookup_delete_Some. by eapply Hk.
  - intros [[<- <-]|[_ ?]]%lookup_insert_Some; [|by eapply Hk]. intros [?|Hx%list_elem_of_singleton]%elem_of_app; [by apply Hprev|by rewrite Hx].
Qed.

(** A completed request is made of the flits of one transaction. *)
Lemma accept_completed depth ep w b ep' : keyed ep -> TryAccept depth ep w = Ok (b, ep') ->
  ep_completed ep' = ep_completed ep \/ exists c, ep_completed ep' = ep_completed ep ++ [c] /\ of_tx (flit_tx w) c.
Proof.
  intros Hk (_ & c & msg & Ec & _ & E)%TryAccept_iff. unfold accept_outcome in E. set (prev := default [] (ep_partial ep !! flit_tx w)) in *.
  destruct msg; [destruct (_ <=? _)|]; injection E as -> ->; cbn [ep_completed]; [by left| |by left]. right. exists c. split; [done|].
  apply canonical_perm in Ec. unfold of_tx. assert (hd 0 c ∈ prev ++ [w]) as Hh.
  { destruct c as [|x c]; [apply Permutation_length in Ec; rewrite length_app in Ec; cbn in Ec; lia|]. cbn [hd]. rewrite <- Ec. left. }
  apply elem_of_app in Hh as [Hh|Hh%list_elem_of_singleton]; [|by rewrite Hh]. unfold prev in Hh.
  destruct (ep_partial ep !! flit_tx w) as [l|] eqn:El; [by eapply Hk|by apply elem_of_nil in Hh].
Qed.

Lemma accept_other depth ep w b ep' key : TryAccept depth ep w = Ok (b, ep') -> flit_tx w <> key -> ep_partial ep' !! key = ep_partial ep !! key.
Proof.
  intros (_ & c & msg & _ & _ & E)%TryAccept_iff Hne. unfold accept_outcome in E.
  destruct msg; [destruct (_ <=? _)|]; injection E as -> ->; cbn [ep_partial]; by rewrite ?lookup_insert_ne, ?lookup_delete_ne.
Qed.

Lemma run_keyed depth l hs ep : ep_run depth l hs ep -> keyed ep.
Proof.
  induction 1 as [|l hs ep w ep' _ IH E|l hs ep w ep' _ IH E|l hs ep c r ep' _ IH Hc E|l hs ep _ IH].
  - intros k l w H. unfold new_endpoint in H. cbn in H. by rewrite lookup_empty in H.
  - by eapply accept_keyed.
  - by eapply accept_keyed.
  - unfold worker_take in E. destruct (ep_completed ep); [done|]. by injection E as <- <-.
  - done.
Qed.

(** Once the last flit is there, and not before, the request is complete. *)
Lemma accept_mine depth ep m ws w rest : wire_of m ws -> let key := tx_of m in let prev := default [] (ep_partial ep !! key) in
  prev ++ w :: rest ≡ₚ ws ->
  TryAccept depth ep w = Ok (accept_outcome depth ep key prev w ws (if bool_decide (rest = []) then Some (received m) else None)).
Proof.
  intros Hw key prev Hp. assert (w ∈ ws) as Hin by (rewrite <- Hp; apply elem_of_app; right; left). destruct (wo_tx _ _ Hw w Hin) as [Hok Htx].
  apply TryAccept_iff. split; [done|]. rewrite Htx. fold key prev.
  destruct (gather m ws (prev ++ [w]) rest Hw) as (c & Ec & Hc & Hd); [by rewrite <- app_assoc|]. exists c, (if bool_decide (rest = []) then Some (received m) else None).
  split; [done|]. split; [done|]. case_bool_decide as Hr; [|done]. by rewrite Hc.
Qed.

Section transaction.
Context (depth : Z) (m : MemMsg) (ws : list Z) (Hw : wire_of m ws).
Local Notation key := (tx_of m).
Definition mine (l : list Z) : list Z := base.filter (fun w => flit_tx w = key) l.
Definition ours (cs : list (list Z)) : list (list Z) := base.filter (of_tx key) cs.

Lemma mine_snoc l w : mine (l ++ [w]) = mine l ++ (if decide (flit_tx w = key) then [w] else []).
Proof using. unfold mine. rewrite list.filter_app. done. Qed.
Lemma ours_snoc cs c : ours (cs ++ [c]) = ours cs ++ (if decide (of_tx key c) then [c] else []).
Proof using. unfold ours. rewrite list.filter_app. done. Qed.

Lemma ours_ws : of_tx key ws.
Proof using Hw. unfold of_tx. pose proof (wo_some _ _ Hw). destruct ws as [|w l]; [done|]. by apply (wo_tx _ _ Hw); left. Qed.

Definition progress (l : list Z) (hs : list (list Z)) (ep : endpoint) : Prop := forall rest, mine l ++ rest ≡ₚ ws ->
  if decide (rest = []) then default [] (ep_partial ep !! key) = [] /\ ours (hs ++ ep_completed ep) = [ws]
  else default [] (ep_partial ep !! key) = mine l /\ ours (hs ++ ep_completed ep) = [].

Lemma run_progress l hs ep : ep_run depth l hs ep -> progress l hs ep.
Proof using Hw.
  induction 1 as [|l hs ep w ep' Hr IH E|l hs ep w ep' Hr IH E|l hs ep c r ep' _ IH Hc E|l hs ep _ IH]; intros rest Hp.
  - case_decide as Hd; [subst; apply Permutation_nil_l in Hp; by destruct (wo_some _ _ Hw)|]. by cbn; rewrite lookup_empty.
  - pose proof (run_keyed _ _ _ _ Hr) as Hk. destruct (decide (flit_tx w = key)) as [Htx|Htx].
    + rewrite mine_snoc, decide_True, <- app_assoc in Hp by done. specialize (IH _ Hp). rewrite decide_False in IH by done. destruct IH as [IH1 IH2].
      pose proof (accept_mine depth ep m ws w rest Hw) as HT. cbv zeta in HT. rewrite IH1 in HT. specialize (HT Hp). rewrite E in HT.
      apply Ok_inj in HT. unfold accept_outcome in HT. case_decide as Hd; [rewrite bool_decide_eq_true_2 in HT by done|rewrite bool_decide_eq_false_2 in HT by done].
      * destruct (_ <=? _); [done|]. injection HT as ->. cbn [ep_partial ep_completed]. rewrite lookup_delete_eq. split; [done|].
        rewrite app_assoc, ours_snoc, IH2, decide_True by apply ours_ws. done.
      * injection HT as ->. cbn [ep_partial ep_completed]. by rewrite lookup_insert_eq, mine_snoc, decide_True.
    + rewrite mine_snoc, decide_False, app_nil_r in Hp by done. specialize (IH _ Hp). rewrite (accept_other _ _ _ _ _ _ E Htx).
      rewrite mine_snoc, (decide_False (P := flit_tx w = key)), app_nil_r by done.
      assert (ours (hs ++ ep_completed ep') = ours (hs ++ ep_completed ep)) as ->; [|done].
      destruct (accept_completed _ _ _ _ _ Hk E) as [->|(c & -> & Hc)]; [done|]. rewrite app_assoc, ours_snoc, decide_False; [by rewrite app_nil_r|].
      unfold of_tx in *. congruence.
  - specialize (IH _ Hp). pose proof (run_keyed _ _ _ _ Hr) as Hk. apply TryAccept_iff in E as (_ & c & msg & _ & _ & E). unfold accept_outcome in E.
    destruct msg; [|done]. destruct (_ <=? _); [|done]. injection E as ->. cbn [ep_partial ep_completed].
    assert (default [] (<[flit_tx w:=default [] (ep_partial ep !! flit_tx w)]> (ep_partial ep) !! key) = default [] (ep_partial ep !! key)) as ->; [|done].
    destruct (decide (flit_tx w = key)) as [->|Hne]; [by rewrite lookup_insert_eq|by rewrite lookup_insert_ne].
  - specialize (IH _ Hp). unfold worker_take in E. destruct (ep_completed ep) as [|c' q] eqn:Eq; [done|]. injection E as _ <-. injection Hc as <-.
    cbn [ep_partial ep_completed]. by rewrite <- app_assoc.
  - by apply IH.
Qed.
End transaction.

(** C11: an endpoint agent puts requests together exactly.  Whatever flits of whatever
    transactions arrive in whatever order, and however they mix with refusals and
    with the workers, once all the flits of a request have been accepted the request
    has been completed exactly once, decodes to what was sent and has left the
    assembly; before that, it has not been completed, and its next flit is accepted
    without an error, unless it is the last and the queue of completed requests is full. *)
Theorem request_assembled (depth : Z) (m : MemMsg) (l : list Z) (hs : list (list Z)) (ep : endpoint) :
  mem_valid m -> payload_fits m -> ep_run depth l hs ep -> exists ws, SerializeMemMsg m = Ok ws /\
  (mine m l ≡ₚ ws -> default [] (ep_partial ep !! tx_of m) = [] /\ ours m (hs ++ ep_completed ep) = [ws] /\
     DeserializeMemMsg ws = Ok (received m)) /\
  (forall w rest, mine m l ++ w :: rest ≡ₚ ws -> ours m (hs ++ ep_completed ep) = [] /\ exists ep',
     TryAccept depth ep w = Ok (negb (bool_decide (rest = []) && (depth <=? Z.of_nat (length (ep_completed ep)))), ep')).
Proof.
  intros Hv Hfit Hr. destruct (serialize_wire m Hv Hfit) as (ws & E & Hw). exists ws. split; [done|].
  pose proof (run_progress depth m ws Hw _ _ _ Hr) as Hp. split.
  - intros Hm. specialize (Hp []). rewrite app_nil_r in Hp. destruct (Hp Hm) as [H1 H2]. split; [done|]. split; [done|apply Hw].
  - intros w rest Hm. destruct (Hp _ Hm) as [H1 H2]. split; [done|].
    rewrite (accept_mine depth ep m ws w rest Hw) by (by rewrite H1). unfold accept_outcome. case_bool_decide; [|by eexists].
    destruct (_ <=? _); by eexists.
Qed.

(** The write of [demo_write], its flits in reverse, and a read of another core in between. *)
Definition demo_read : MemMsg := mkMem 9 kMsgRequest 4 1 0 2 0x1000 kRead 8 true 0 [] [].
Definition flits_of (m : MemMsg) : list Z := match SerializeMemMsg m with Ok ws => ws | Err _ => [] end.
Definition demo_order : list Z := List.rev (flits_of demo_write) ++ flits_of demo_read.
Definition demo_accept (ep : endpoint) (w : Z) : endpoint := match TryAccept 4 ep w with Ok (_, ep') => ep' | Err _ => ep end.
Definition demo_agent : endpoint := foldl demo_accept new_endpoint demo_order.

Lemma request_assembled_witness : ours demo_write (ep_completed demo_agent) = [flits_of demo_write].
Proof.
  assert (ep_run 4 demo_order [] demo_agent) as Hr.
  { assert (exists a b c d, demo_order = [a; b; c; d]) as (a & b & c & d & E) by (vm_compute; by eexists _, _, _, _).
    unfold demo_agent. rewrite E. cbn [foldl].
    assert (forall l ep w, ep_run 4 l [] ep -> match TryAccept 4 ep w with Ok (b, _) => b | _ => false end = true -> ep_run 4 (l ++ [w]) [] (demo_accept ep w)) as Hs.
    { intros l ep w Hl Hok. unfold demo_accept. destruct (TryAccept 4 ep w) as [[[] ep']|] eqn:Et; try discriminate Hok. by eapply run_flit. }
    change [a; b; c; d] with (((([] ++ [a]) ++ [b]) ++ [c]) ++ [d]).
    assert (a = nth 0 demo_order 0 /\ b = nth 1 demo_order 0 /\ c = nth 2 demo_order 0 /\ d = nth 3 demo_order 0) as (-> & -> & -> & ->) by (by rewrite E).
    clear E. repeat apply Hs; try apply run_new; vm_compute; reflexivity. }
  destruct (request_assembled 4 demo_write demo_order [] demo_agent) as (ws & E & H & _); [| |exact Hr|].
  - split; cbn; try (unfold in_u); try lia; [unfold kMemMsgMaxPayloadBytes; lia| |by left]. intros x Hx. apply elem_of_seqZ in Hx. lia.
  - split; [intros _; reflexivity|discriminate].
  - assert (flits_of demo_write = ws) as Ef by (unfold flits_of; rewrite E; reflexivity).
    assert (mine demo_write demo_order = List.rev (flits_of demo_write)) as Em by (vm_compute; reflexivity).
    rewrite Ef in *. rewrite Em in H. destruct H as (_ & H2 & _); [symmetry; apply Permutation_rev|]. rewrite app_nil_l in H2. exact H2.
Defined.

(** ** An exchange over the network *)

Definition deliver {N} (accept : N -> Z -> result (bool * N)) (n : N) (l : list Z) : result N :=
  foldM (fun n w => accept n w ≫= fun '((ok, n) : bool * N) => if ok then Ok n else Err (runtime_error "no room")) n l.

Section exchange.
Context `{Geometry} (t : hbm_tables) {S : Type} (HandleRequest : S -> MemMsg -> result (MemMsg * S)).

Definition place_of (m : MemMsg) : Z * Z := (stack_id m, channel_id m).

(** One [Exchange] from end to end, with nothing else under way for its key and its endpoint: the
    flits of the request arrive at the MEM tile in the order [there], where [TryAccept] takes
    them, a worker serves the request, and those of the response arrive at the core in the
    order [back], where [TryAcceptResponseFlit] takes them.  The two orders stand for the routers. *)
Definition exchange (there back : list Z -> list Z) (mem_tile : Z) (s : S) (n : HBMNetwork) (m : MemMsg) : result (MemMsg * S * HBMNetwork) :=
  let '(n, wire) := Exchange_begin n m in wire ≫= fun wire : list Z =>
  deliver (fun n => TryAcceptRequestFlit t n mem_tile) n (there wire) ≫= fun n : HBMNetwork =>
  match endpoints n !! place_of m ≫= worker_take with
  | None => Err (runtime_error "no request")
  | Some (request, ep) =>
      request ≫= fun request : MemMsg =>
      worker_reply HandleRequest s request ≫= fun '((wire, s) : list Z * S) =>
      let n := set_endpoints (<[place_of m := worker_done ep]> (endpoints n)) n in
      deliver (fun n => TryAcceptResponseFlit n (source_core m)) n (back wire) ≫= fun n : HBMNetwork =>
      match Exchange_end n (tx_of m) with None => Err (runtime_error "no response") | Some (response, n) => Ok (response, s, n) end
  end.

(** The call that the adapter makes when no transport is bound. *)
Definition direct (s : S) (m : MemMsg) : result (MemMsg * S) :=
  SerializeMemMsg m ≫= fun wire : list Z => DeserializeMemMsg wire ≫= fun request : MemMsg =>
  HandleRequest s request ≫= fun '((response, s) : MemMsg * S) =>
  SerializeMemMsg response ≫= fun wire : list Z => DeserializeMemMsg wire ≫= fun response : MemMsg => Ok (response, s).

Lemma request_flit n mem_tile m ws w ep res : wire_of m ws -> message_type m = kMsgRequest -> w ∈ ws ->
  AttachmentRouter t (stack_id m) (channel_id m) = Ok mem_tile -> endpoints n !! place_of m = Some ep -> TryAccept (net_depth n) ep w = Ok res ->
  TryAcceptRequestFlit t n mem_tile w = Ok (res.1, set_endpoints (<[place_of m := res.2]> (endpoints n)) n).
Proof using.
  intros Hw Ht Hin Ha He E. destruct (wo_tx _ _ Hw w Hin) as [Hok _]. pose proof (wo_dir _ _ Hw w Hin) as Hd. destruct (wo_place _ _ Hw w Hin Ht) as [Hs Hc].
  unfold TryAcceptRequestFlit. apply is_ok_true in Hok as [r Hr]. unfold route in Hd, Hs, Hc. rewrite Hr in Hd, Hs, Hc |- *. cbn [mbind result_bind].
  rewrite Hd, Ht, bool_decide_eq_true_2 by done. cbn [negb]. rewrite throw_bind_false by done. rewrite Hs, Hc, Ha. cbn [mbind result_bind].
  rewrite Z.eqb_refl, throw_bind_false by done. cbv zeta. unfold place_of in *. rewrite He, E. by destruct res.
Qed.

Lemma deliver_request mem_tile m ws : wire_of m ws -> message_type m = kMsgRequest -> AttachmentRouter t (stack_id m) (channel_id m) = Ok mem_tile ->
  forall l n ep, endpoints n !! place_of m = Some ep -> l <> [] -> default [] (ep_partial ep !! tx_of m) ++ l ≡ₚ ws ->
  Z.of_nat (length (ep_completed ep)) < net_depth n ->
  deliver (fun n => TryAcceptRequestFlit t n mem_tile) n l =
    Ok (set_endpoints (<[place_of m := mkEndpoint (delete (tx_of m) (ep_partial ep)) (ep_completed ep ++ [ws]) (ep_active ep)]> (endpoints n)) n).
Proof using.
  intros Hw Ht Ha l. induction l as [|w l IH]; intros n ep He Hne Hp Hd; [done|]. unfold deliver in *. cbn [foldM].
  assert (w ∈ ws) as Hin by (rewrite <- Hp; apply elem_of_app; right; left).
  rewrite (request_flit n mem_tile m ws w ep _ Hw Ht Hin Ha He (accept_mine _ ep m ws w l Hw Hp)). unfold accept_outcome.
  destruct (decide (l = [])) as [->|Hl].
  - rewrite bool_decide_eq_true_2 by done. destruct (Z.leb_spec (net_depth n) (Z.of_nat (length (ep_completed ep)))); [lia|]. done.
  - rewrite bool_decide_eq_false_2 by done. cbn [mbind result_bind fst snd].
    rewrite (IH _ (mkEndpoint (<[tx_of m := default [] (ep_partial ep !! tx_of m) ++ [w]]> (ep_partial ep)) (ep_completed ep) (ep_active ep))).
    + cbn [ep_partial ep_completed ep_active endpoints set_endpoints net_depth]. unfold set_endpoints. cbn. by rewrite insert_insert_eq, delete_insert_eq.
    + cbn. by rewrite lookup_insert_eq.
    + done.
    + cbn [ep_partial]. rewrite lookup_insert_eq. cbn. by rewrite <- app_assoc.
    + cbn. lia.
Qed.

Definition prev_response (n : HBMNetwork) (m : MemMsg) : list Z := default [] (response_assemblies n !! tx_of m).

Lemma response_flit n m ws w rest : wire_of m ws -> message_type m = kMsgResponse -> is_Some (waiters n !! tx_of m) -> prev_response n m ++ w :: rest ≡ₚ ws ->
  TryAcceptResponseFlit n (source_core m) w = Ok (true,
    if decide (rest = []) then set_stats (count_response ws (received m) (net_stats n)) (set_waiters (<[tx_of m := Some (received m)]> (waiters n))
                                 (set_assemblies (delete (tx_of m) (response_assemblies n)) n))
    else set_assemblies (<[tx_of m := prev_response n m ++ [w]]> (response_assemblies n)) n).
Proof using.
  intros Hw Ht [o Ho] Hp. assert (w ∈ ws) as Hin by (rewrite <- Hp; apply elem_of_app; right; left).
  destruct (wo_tx _ _ Hw w Hin) as [Hok Htx]. pose proof (wo_dir _ _ Hw w Hin) as Hd. unfold TryAcceptResponseFlit.
  apply is_ok_true in Hok as [r Hr]. unfold flit_tx, route in Hd, Htx. rewrite Hr in Hd, Htx |- *. cbn [mbind result_bind].
  assert (r_source_core r = source_core m) as Hs by (by injection Htx). rewrite Hd, Ht, Hs, Z.eqb_refl, bool_decide_eq_false_2 by done. cbn [negb orb].
  rewrite throw_bind_false by done. cbv zeta. rewrite <- Hs, Htx, Ho. unfold append_flit.
  destruct (gather m ws (prev_response n m ++ [w]) rest Hw) as (c & Ec & Hc & Hcd); [by rewrite <- app_assoc|].
  fold (prev_response n m). rewrite Ec. cbn [mbind result_bind]. rewrite Hcd. cbn [mbind result_bind].
  destruct (decide (rest = [])) as [Hr'|Hr']; [rewrite bool_decide_eq_true_2 by done; by rewrite Hc|by rewrite bool_decide_eq_false_2].
Qed.

Lemma deliver_response m ws : wire_of m ws -> message_type m = kMsgResponse -> forall l n, l <> [] -> is_Some (waiters n !! tx_of m) ->
  prev_response n m ++ l ≡ₚ ws -> deliver (fun n => TryAcceptResponseFlit n (source_core m)) n l =
    Ok (set_stats (count_response ws (received m) (net_stats n)) (set_waiters (<[tx_of m := Some (received m)]> (waiters n))
          (set_assemblies (delete (tx_of m) (response_assemblies n)) n))).
Proof using.
  intros Hw Ht l. induction l as [|w l IH]; intros n Hne Ho Hp; [done|]. unfold deliver in *. cbn [foldM].
  rewrite (response_flit n m ws w l Hw Ht Ho Hp). cbn [mbind result_bind]. destruct (decide (l = [])) as [->|Hl]; [done|].
  rewrite IH; [|done|done|].
  - unfold set_stats, set_waiters, set_assemblies. cbn. by rewrite delete_insert_eq.
  - unfold prev_response. cbn [response_assemblies set_assemblies]. rewrite lookup_insert_eq. cbn. by rewrite <- app_assoc.
Qed.

(** No transaction of the key is under way, and the endpoint has nothing to do. *)
Record idle (n : HBMNetwork) (m : MemMsg) (ep : endpoint) : Prop := {
  id_depth : 0 < net_depth n; id_endpoint : endpoints n !! place_of m = Some ep; id_completed : ep_completed ep = [];
  id_partial : ep_partial ep !! tx_of m = None; id_waiter : waiters n !! tx_of m = None; id_assembly : response_assemblies n !! tx_of m = None
}.
Record answer_of (m resp : MemMsg) : Prop := {
  an_valid : mem_valid resp; an_fits : payload_fits resp; an_type : message_type resp = kMsgResponse; an_tx : tx_of resp = tx_of m
}.

Lemma begin_ok n m ws : message_type m = kMsgRequest -> waiters n !! tx_of m = None -> SerializeMemMsg m = Ok ws ->
  exists st, Exchange_begin n m = (set_stats st (set_waiters (<[tx_of m := None]> (waiters n)) n), Ok ws).
Proof using.
  intros Ht Hn E. unfold Exchange_begin. rewrite Ht, bool_decide_eq_true_2 by done. cbn [negb]. unfold tx_of in *. rewrite Hn.
  rewrite bool_decide_eq_false_2 by (by intros [? ?]). rewrite E. by eexists.
Qed.

Lemma exchange_spec there back mem_tile s n m ep resp s' : mem_valid m -> payload_fits m -> message_type m = kMsgRequest ->
  (forall l, there l ≡ₚ l) -> (forall l, back l ≡ₚ l) -> AttachmentRouter t (stack_id m) (channel_id m) = Ok mem_tile -> idle n m ep ->
  HandleRequest s (received m) = Ok (resp, s') -> answer_of m resp ->
  exists st, exchange there back mem_tile s n m = Ok (received resp, s', set_stats st n).
Proof using.
  intros Hv Hf Ht Hthere Hback Ha [Hd He Hc Hp Hwt Has] Hs [Rv Rf Rt Rx].
  destruct (serialize_wire m Hv Hf) as (ws & E & Hw). destruct (serialize_wire resp Rv Rf) as (wr & Er & Hr).
  destruct (begin_ok n m ws Ht Hwt E) as (st & Eb). unfold exchange. rewrite Eb. cbn [mbind result_bind].
  assert (forall l l' : list Z, l ≡ₚ l' -> l' <> [] -> l <> []) as Hne by (intros l l' Hl Hn ->; by apply Permutation_nil_l in Hl).
  assert (source_core m = source_core resp) as -> by (unfold tx_of in Rx; congruence).
  rewrite (deliver_request mem_tile m ws Hw Ht Ha _ _ ep);
    [|done|by eapply Hne, Hw|by rewrite Hp, Hthere|cbn; rewrite Hc; cbn; lia].
  cbn [mbind result_bind set_endpoints endpoints]. rewrite lookup_insert_eq. cbn [mbind option_bind worker_take ep_completed]. rewrite Hc. cbn [app worker_take ep_completed].
  rewrite (wo_full _ _ Hw). cbn [mbind result_bind]. unfold worker_reply. rewrite Hs. cbn [mbind result_bind]. rewrite Er. cbn [mbind result_bind]. cbv zeta.
  rewrite (deliver_response resp wr Hr Rt); [|by eapply Hne, Hr|by rewrite Rx; cbn; rewrite lookup_insert_eq|].
  2:{ unfold prev_response. rewrite Rx. cbn. by rewrite Has, Hback. }
  cbn [mbind result_bind]. unfold Exchange_end. rewrite Rx. cbn [waiters set_waiters set_stats]. rewrite lookup_insert_eq. eexists. do 2 f_equal.
  unfold set_waiters, set_stats, set_assemblies, set_endpoints. cbn. rewrite !insert_insert_eq, delete_insert_eq, !delete_id by done.
  rewrite insert_id; [done|]. rewrite He. f_equal. unfold worker_done. cbn. destruct ep as [p q a]. cbn in *. rewrite Hc. f_equal. lia.
Qed.

Lemma direct_spec s m resp s' : mem_valid m -> payload_fits m -> HandleRequest s (received m) = Ok (resp, s') -> answer_of m resp ->
  direct s m = Ok (received resp, s').
Proof using.
  intros Hv Hf Hs [Rv Rf _ _]. destruct (serialize_wire m Hv Hf) as (ws & E & Hw). destruct (serialize_wire resp Rv Rf) as (wr & Er & Hr).
  unfold direct. rewrite E. cbn [mbind result_bind]. rewrite (wo_full _ _ Hw). cbn [mbind result_bind]. rewrite Hs. cbn [mbind result_bind].
  rewrite Er. cbn [mbind result_bind]. by rewrite (wo_full _ _ Hr).
Qed.
End exchange.

(** C10: the network transport gives the core the same answer as a direct call of the
    endpoint.  On a network without a transaction of the same key, with a free
    endpoint, the request and the response cross in any orders of their flits; the
    endpoint handles the request once, the core gets what [CoreMemAdapter] gets
    without a transport, and the network is left as it was but for its statistics. *)
Theorem exchange_is_direct `{Geometry} (t : hbm_tables) {S : Type} (HandleRequest : S -> MemMsg -> result (MemMsg * S)) (there back : list Z -> list Z)
    (mem_tile : Z) (s s' : S) (n : HBMNetwork) (m resp : MemMsg) (ep : endpoint) :
  mem_valid m -> payload_fits m -> message_type m = kMsgRequest -> (forall l, there l ≡ₚ l) -> (forall l, back l ≡ₚ l) ->
  AttachmentRouter t (stack_id m) (channel_id m) = Ok mem_tile -> idle n m ep -> HandleRequest s (received m) = Ok (resp, s') -> answer_of m resp ->
  exists answer st, direct HandleRequest s m = Ok (answer, s') /\ exchange t HandleRequest there back mem_tile s n m = Ok (answer, s', set_stats st n).
Proof.
  intros Hv Hf Ht H1 H2 Ha Hi Hs Hr. destruct (exchange_spec t HandleRequest there back mem_tile s n m ep resp s' Hv Hf Ht H1 H2 Ha Hi Hs Hr) as (st & E).
  exists (received resp), st. split; [by apply direct_spec|done].
Qed.

Definition demo_hbm : hbm_tables :=
  mkTables [mkStack 0 1 "hbm" 0 0 1 1024 kChannel 1] [mkChannel 0 2 3] ∅ 4.
Definition demo_serve (s : Z) (m : MemMsg) : result (MemMsg * Z) :=
  Ok (mkMem (txid m) kMsgResponse (source_core m) (home_die m) (stack_id m) (channel_id m) (address m) (command m) 0 true 0 [] [], s + length_bytes m).
Definition demo_net : HBMNetwork := mkNet 1 ∅ ∅ {[(0, 2) := new_endpoint]} no_net_stats.

Lemma demo_write_valid : mem_valid demo_write /\ payload_fits demo_write.
Proof.
  split; [|split; [intros _; reflexivity|discriminate]].
  split; cbn; try (unfold in_u); try lia; [unfold kMemMsgMaxPayloadBytes; lia| |by left]. intros x Hx. apply elem_of_seqZ in Hx. lia.
Qed.

Lemma exchange_is_direct_witness : exists answer st, status answer = 0 /\
  @exchange demo_geometry demo_hbm Z demo_serve (@List.rev Z) id 7 5 demo_net demo_write = Ok (answer, 25, set_stats st demo_net).
Proof.
  destruct demo_write_valid as [Hv Hf].
  destruct (@exchange_is_direct demo_geometry demo_hbm Z demo_serve (@List.rev Z) id 7 5 25 demo_net demo_write
    (mkMem 7 kMsgResponse 3 1 0 2 0x1234 kWrite 0 true 0 [] []) new_endpoint) as (answer & st & Hd & He).
  - exact Hv.
  - exact Hf.
  - reflexivity.
  - intros l. symmetry. apply Permutation_rev.
  - done.
  - vm_compute. reflexivity.
  - split; vm_compute; reflexivity.
  - vm_compute. reflexivity.
  - split; [|split; [discriminate|discriminate]|reflexivity|reflexivity].
    split; cbn; unfold in_u, kMemMsgMaxPayloadBytes; try lia. intros x Hx. by apply elem_of_nil in Hx.
  - exists answer, st. split; [|exact He]. assert (match @direct Z demo_serve 5 demo_write with Ok (a, _) => status a | _ => 1 end = 0) as Hst by (vm_compute; reflexivity).
    rewrite Hd in Hst. exact Hst.
Defined.

(** The waiter of a request that cannot be serialized stays, so that its key is
    refused from then on: the serialization comes after the insertion and outside the [try]. *)
Lemma unserialized_waiter_stays : let bad := mkMem 7 kMsgRequest 3 1 0 2 0x1234 kWrite 20 true 0 [] [] in
  let n := (Exchange_begin demo_net bad).1 in
  (Exchange_begin demo_net bad).2 = Err (runtime_error "SerializeMemMsg: write payload size must equal length") /\
  (Exchange_begin n demo_write).2 = Err (runtime_error "HBMNetwork: duplicate outstanding source/txid").
Proof. split; vm_compute; reflexivity. Qed.
