(* ===== verification/HbmEndpoint.v ===== *)
(** A memory endpoint and its behavioural backend ([src/memory/mem_endpoint_unit.cpp],
    [include/memory/mem_endpoint_unit.h], [include/memory/behavioral_hbm_backend.h],
    [include/memory/hbm_backend.h]).  The two processes of the endpoint and the
    blocking call are the operations [HandleRequest_begin], [DispatchLoop] and
    [CompletionLoop]; times are picoseconds.  The time that a transfer takes on the
    channel comes from a division of floating-point numbers and is a field of the
    configuration. *)

From S2P Require Import Prelude HbmMemWire.

(** ** The backend *)

(** [BehavioralHBMBackendConfig]; [stream_time] is [length_bytes / effective_GBps]. *)
Record backend_cfg : Type := mkBackendCfg {
  stream_time : Z -> Z; base_latency : Z; read_to_write_turnaround : Z; write_to_read_turnaround : Z
}.
Record HBMBackendStats : Type := mkBackendStats {
  bs_requests : Z; bs_reads : Z; bs_writes : Z; bs_bytes : Z; bs_completed : Z; bs_failed : Z; bs_service_time : Z
}.

(** [BehavioralHBMBackend]; [last_command] is [None] until there has been one. *)
Record backend : Type := mkBackend { backing : gmap Z Z; next_available : Z; last_command : option MemCommand; be_stats : HBMBackendStats }.
Definition new_backend : backend := mkBackend ∅ 0 None (mkBackendStats 0 0 0 0 0 0 0).

Definition TransferTime (cfg : backend_cfg) (length_bytes : Z) : result Z :=
  THROW runtime_error "BehavioralHBMBackend::TransferTime: length must be > 0" WHEN length_bytes <=? 0;;
  Ok (base_latency cfg + stream_time cfg length_bytes).

Definition byte_enabled (enables : list Z) (i : nat) : bool := bool_decide (enables = []) || negb (enables !!! i =? 0).
Definition store_byte (addr : Z) (data enables : list Z) (b : gmap Z Z) (i : nat) : gmap Z Z :=
  if byte_enabled enables i then <[u64 (addr + Z.of_nat i) := data !!! i]> b else b.
Definition store (addr : Z) (data enables : list Z) (b : gmap Z Z) : gmap Z Z := foldl (store_byte addr data enables) b (seq 0 (length data)).
Definition load_byte (b : gmap Z Z) (a : Z) : Z := default 0 (b !! a).
Definition load (addr : Z) (n : nat) (b : gmap Z Z) : list Z := (fun i => load_byte b (u64 (addr + Z.of_nat i))) <$> seq 0 n.

Definition turnaround (cfg : backend_cfg) (last : option MemCommand) (cmd : MemCommand) : Z :=
  match last with
  | Some c => if decide (c = cmd) then 0 else match c with kRead => read_to_write_turnaround cfg | kWrite => write_to_read_turnaround cfg end
  | None => 0
  end.
Definition count_submit (cmd : MemCommand) (bytes service : Z) (s : HBMBackendStats) : HBMBackendStats :=
  let rd := bool_decide (cmd = kRead) in
  mkBackendStats (u64 (bs_requests s + 1)) (u64 (bs_reads s + b2z rd)) (u64 (bs_writes s + b2z (negb rd))) (u64 (bs_bytes s + bytes))
    (u64 (bs_completed s + 1)) (bs_failed s) (bs_service_time s + service).

(** The payload after the transaction, the delay of its completion, the service time. *)
Record submitted : Type := mkSubmitted { sb_payload : list Z; sb_delay : Z; sb_service : Z }.
Definition Submit (cfg : backend_cfg) (now : Z) (cmd : MemCommand) (addr : Z) (data enables : list Z) (b : backend) : result (submitted * backend) :=
  THROW runtime_error "BehavioralHBMBackend::Submit: malformed transaction" WHEN bool_decide (data = []);;
  THROW runtime_error "BehavioralHBMBackend::Submit: byte-enable size mismatch"
    WHEN negb (bool_decide (enables = [])) && negb (length enables =? length data)%nat;;
  let start := Z.max (next_available b) now + turnaround cfg (last_command b) cmd in
  TransferTime cfg (Z.of_nat (length data)) ≫= fun service : Z =>
  let b' x := mkBackend x (start + service) (Some cmd) (count_submit cmd (Z.of_nat (length data)) service (be_stats b)) in
  match cmd with
  | kWrite => Ok (mkSubmitted data (start + service - now) service, b' (store addr data enables (backing b)))
  | kRead => Ok (mkSubmitted (load addr (length data) (backing b)) (start + service - now) service, b' (backing b))
  end.

(** ** The endpoint *)

Record MemEndpointStats : Type := mkEpStats {
  es_requests : Z; es_bytes : Z; es_queue_stalls : Z; es_completed : Z; es_queue_wait : Z; es_response_time : Z
}.
Record PendingEntry : Type := mkPending {
  pe_req : MemMsg; pe_arrival : Z; pe_issued : Z; pe_due : Z; pe_service : Z; pe_status : Z; pe_payload : list Z
}.
Record unit_params : Type := mkUnitParams { eu_stack : Z; eu_channel : Z; queue_depth : Z; max_outstanding : Z; eu_cfg : backend_cfg }.
Record MemEndpointUnit : Type := mkUnit {
  queue_ : list PendingEntry; scheduled_ : list PendingEntry; in_flight_ : Z; eu_backend : backend; eu_stats : MemEndpointStats
}.

Definition new_endpoint_unit (p : unit_params) : result MemEndpointUnit :=
  THROW runtime_error "MemEndpointUnit: queue depth/max outstanding must be > 0" WHEN (queue_depth p <=? 0) || (max_outstanding p <=? 0);;
  Ok (mkUnit [] [] 0 new_backend (mkEpStats 0 0 0 0 0 0)).

Definition check_request (p : unit_params) (req : MemMsg) : result unit :=
  THROW runtime_error "MemEndpointUnit: malformed/misrouted request"
    WHEN negb (bool_decide (message_type req = kMsgRequest)) || (txid req <? 0) || (length_bytes req <=? 0) ||
         negb (stack_id req =? eu_stack p) || negb (channel_id req =? eu_channel p);;
  THROW runtime_error "MemEndpointUnit: write payload mismatch"
    WHEN bool_decide (command req = kWrite) && negb (Z.of_nat (length (payload req)) =? length_bytes req);;
  throw_if (negb (bool_decide (byte_enable req = [])) && negb (Z.of_nat (length (byte_enable req)) =? length_bytes req))
    (runtime_error "MemEndpointUnit: byte-enable mismatch").

(** [HandleRequest] until it waits for the completion; [false] when the queue is
    full and the caller waits for room. *)
Definition HandleRequest_begin (p : unit_params) (now : Z) (req : MemMsg) (u : MemEndpointUnit) : result (bool * MemEndpointUnit) :=
  check_request p req ≫= fun _ =>
  let s := eu_stats u in
  if queue_depth p <=? Z.of_nat (length (queue_ u)) then
    Ok (false, mkUnit (queue_ u) (scheduled_ u) (in_flight_ u) (eu_backend u)
      (mkEpStats (es_requests s) (es_bytes s) (u64 (es_queue_stalls s + 1)) (es_completed s) (es_queue_wait s) (es_response_time s)))
  else
    Ok (true, mkUnit (queue_ u ++ [mkPending req now 0 0 0 0 []]) (scheduled_ u) (in_flight_ u) (eu_backend u)
      (mkEpStats (u64 (es_requests s + 1)) (u64 (es_bytes s + length_bytes req)) (es_queue_stalls s) (es_completed s) (es_queue_wait s) (es_response_time s))).

(** The payload of the transaction: the data of a write, room for those of a read. *)
Definition tx_payload (req : MemMsg) : list Z :=
  if decide (command req = kWrite) then payload req else replicate (Z.to_nat (length_bytes req)) 0.

(** One turn of the inner loop of [DispatchLoop]; the backend calls
    [ScheduleCompletion] before [Submit] returns. *)
Definition dispatch (p : unit_params) (now : Z) (e : PendingEntry) (q : list PendingEntry) (u : MemEndpointUnit) : result MemEndpointUnit :=
  let req := pe_req e in
  Submit (eu_cfg p) now (command req) (address req) (tx_payload req) (byte_enable req) (eu_backend u) ≫= fun '((sb, b) : submitted * backend) =>
  let s := eu_stats u in
  Ok (mkUnit q (scheduled_ u ++ [mkPending req (pe_arrival e) now (now + sb_delay sb) (sb_service sb) 0 (sb_payload sb)]) (in_flight_ u + 1) b
        (mkEpStats (es_requests s) (es_bytes s) (es_queue_stalls s) (es_completed s) (es_queue_wait s + (now - pe_arrival e)) (es_response_time s))).
Fixpoint dispatch_loop (p : unit_params) (now : Z) (q : list PendingEntry) (u : MemEndpointUnit) : result MemEndpointUnit :=
  match q with
  | [] => Ok u
  | e :: q => if in_flight_ u <? max_outstanding p then dispatch p now e q u ≫= fun u : MemEndpointUnit => dispatch_loop p now q u else Ok u
  end.
Definition DispatchLoop (p : unit_params) (now : Z) (u : MemEndpointUnit) : result MemEndpointUnit := dispatch_loop p now (queue_ u) u.

(** The response of a completed entry. *)
Definition response (e : PendingEntry) : MemMsg :=
  let req := pe_req e in
  let data := bool_decide (command req = kRead) && (pe_status e =? 0) in
  mkMem (txid req) kMsgResponse (source_core req) (home_die req) (stack_id req) (channel_id req) (address req) (command req)
    (if data then length_bytes req else 0) true (pe_status e) (if data then pe_payload e else []) (if data then replicate (length (pe_payload e)) 0xff else []).

Definition is_due (now : Z) (e : PendingEntry) : Prop := pe_due e <= now.
#[export] Instance is_due_dec now e : Decision (is_due now e).
Proof. unfold is_due. apply _. Defined.
Definition count_done (now : Z) (ready : list PendingEntry) (s : MemEndpointStats) : MemEndpointStats :=
  foldl (fun s e => mkEpStats (es_requests s) (es_bytes s) (es_queue_stalls s) (u64 (es_completed s + 1)) (es_queue_wait s)
                      (es_response_time s + (now - pe_arrival e))) s ready.
Definition CompletionLoop (now : Z) (u : MemEndpointUnit) : list (PendingEntry * MemMsg) * MemEndpointUnit :=
  let ready := base.filter (is_due now) (scheduled_ u) in
  ((fun e => (e, response e)) <$> ready,
   mkUnit (queue_ u) (base.filter (fun e => ~ is_due now e) (scheduled_ u)) (in_flight_ u - Z.of_nat (length ready)) (eu_backend u)
     (count_done now ready (eu_stats u))).

Definition QueueDepthNow (u : MemEndpointUnit) : Z := Z.of_nat (length (queue_ u)) + in_flight_ u.

(** ** A serial memory *)

(** A request applied to the bytes of the channel, and the data it leaves in its transaction. *)
Definition apply_req (b : gmap Z Z) (req : MemMsg) : gmap Z Z :=
  if decide (command req = kWrite) then store (address req) (payload req) (byte_enable req) b else b.
Definition data_of_req (b : gmap Z Z) (req : MemMsg) : list Z :=
  if decide (command req = kWrite) then payload req else load (address req) (Z.to_nat (length_bytes req)) b.
Definition memory_after (reqs : list MemMsg) : gmap Z Z := foldl apply_req ∅ reqs.

(** Transactions with the data that the requests before them leave. *)
Definition served (D : list PendingEntry) : Prop :=
  forall i e, D !! i = Some e -> pe_status e = 0 /\ pe_payload e = data_of_req (memory_after (pe_req <$> take i D)) (pe_req e).

Lemma memory_after_snoc reqs r : memory_after (reqs ++ [r]) = apply_req (memory_after reqs) r.
Proof. apply foldl_snoc. Qed.

Lemma served_snoc D e : served D -> pe_status e = 0 -> pe_payload e = data_of_req (memory_after (pe_req <$> D)) (pe_req e) -> served (D ++ [e]).
Proof.
  intros HD Hs Hp i e' [[Hi Hl]|[-> <-]]%lookup_snoc_Some.
  - rewrite take_app_le by lia. by apply HD.
  - by rewrite take_app_length.
Qed.

Lemma submit_spec p now req b : check_request p req = Ok tt -> exists sb b',
  Submit (eu_cfg p) now (command req) (address req) (tx_payload req) (byte_enable req) b = Ok (sb, b') /\
  sb_payload sb = data_of_req (backing b) req /\ backing b' = apply_req (backing b) req.
Proof.
  unfold check_request. intros E. apply throw_bind_ok in E as [H1 E]. apply throw_bind_ok in E as [H2 E]. apply throw_if_ok in E.
  apply orb_false_iff in H1 as [H1 _]. apply orb_false_iff in H1 as [H1 _]. apply orb_false_iff in H1 as [_ Hlen].
  assert (Z.of_nat (length (tx_payload req)) = length_bytes req) as Hl.
  { unfold tx_payload. destruct (decide (command req = kWrite)) as [Hc|Hc]; [|rewrite length_replicate; lia].
    rewrite bool_decide_eq_true_2 in H2 by done. cbn in H2. by apply negb_false_iff, Z.eqb_eq in H2. }
  unfold Submit. rewrite (bool_decide_eq_false_2 (tx_payload req = [])) by (intros Hn; rewrite Hn in Hl; cbn in Hl; lia).
  cbn [throw_if mbind result_bind]. rewrite throw_bind_false.
  2:{ destruct (negb (bool_decide (byte_enable req = []))); [|done]. cbn in E |- *. apply negb_false_iff, Z.eqb_eq in E.
      apply negb_false_iff, Nat.eqb_eq. lia. }
  cbv zeta. unfold TransferTime. rewrite Hl. rewrite throw_bind_false by lia. cbn [mbind result_bind].
  unfold apply_req, data_of_req. destruct (decide (command req = kWrite)) as [Ew|Ew].
  - assert (tx_payload req = payload req) as -> by (unfold tx_payload; by rewrite decide_True). rewrite Ew. eexists _, _. split; [reflexivity|]. done.
  - destruct (command req) eqn:Ec; [|done]. eexists _, _. split; [reflexivity|]. cbn [sb_payload backing]. split; [|done]. f_equal. lia.
Qed.

(** ** Runs *)

(** Requests accepted, answers given; the calls and the turns of the processes come in any order and at any times. *)
Inductive unit_run (p : unit_params) : list MemMsg -> list (PendingEntry * MemMsg) -> MemEndpointUnit -> Prop :=
  | ur_new u : new_endpoint_unit p = Ok u -> unit_run p [] [] u
  | ur_accept R A u now req u' : unit_run p R A u -> HandleRequest_begin p now req u = Ok (true, u') -> unit_run p (R ++ [req]) A u'
  | ur_wait R A u now req u' : unit_run p R A u -> HandleRequest_begin p now req u = Ok (false, u') -> unit_run p R A u'
  | ur_dispatch R A u now u' : unit_run p R A u -> DispatchLoop p now u = Ok u' -> unit_run p R A u'
  | ur_complete R A u now A' u' : unit_run p R A u -> CompletionLoop now u = (A', u') -> unit_run p R (A ++ A') u'.

Record unit_inv (p : unit_params) (R : list MemMsg) (A : list (PendingEntry * MemMsg)) (u : MemEndpointUnit) (D : list PendingEntry) : Prop := {
  ui_order : pe_req <$> D ++ queue_ u = R;
  ui_once : A.*1 ++ scheduled_ u ≡ₚ D;
  ui_served : served D;
  ui_memory : backing (eu_backend u) = memory_after (pe_req <$> D);
  ui_answers : forall e r, (e, r) ∈ A -> r = response e;
  ui_flight : in_flight_ u = Z.of_nat (length (scheduled_ u)) /\ in_flight_ u <= max_outstanding p;
  ui_queue : Z.of_nat (length (queue_ u)) <= queue_depth p;
  ui_checked : forall r, r ∈ R -> check_request p r = Ok tt;
  ui_params : 0 < queue_depth p /\ 0 < max_outstanding p
}.

Lemma unit_checked p R A u D e : unit_inv p R A u D -> e ∈ queue_ u -> check_request p (pe_req e) = Ok tt.
Proof. intros Hi He. apply (ui_checked _ _ _ _ _ Hi). rewrite <- (ui_order _ _ _ _ _ Hi). apply list_elem_of_fmap. exists e. split; [done|]. apply elem_of_app. by right. Qed.

Lemma dispatch_inv p now e q R A u D : unit_inv p R A u D -> queue_ u = e :: q -> in_flight_ u < max_outstanding p ->
  exists u' D', dispatch p now e q u = Ok u' /\ unit_inv p R A u' D' /\ queue_ u' = q.
Proof.
  intros Hi Hq Hlt. assert (check_request p (pe_req e) = Ok tt) as Hc by (eapply unit_checked; [done|rewrite Hq; left]).
  destruct (submit_spec p now (pe_req e) (eu_backend u) Hc) as (sb & b & E & Hp & Hb). unfold dispatch. cbv zeta. rewrite E. cbn [mbind result_bind].
  set (e' := mkPending _ _ _ _ _ _ _). eexists _, (D ++ [e']). split; [reflexivity|]. split; [|done].
  destruct Hi as [H1 H2 H3 H4 H5 H6 H7 H8 H9]. split; cbn [queue_ scheduled_ in_flight_ eu_backend]; try done.
  - rewrite <- H1, Hq, !fmap_app, <- app_assoc. done.
  - by rewrite app_assoc, H2.
  - apply served_snoc; [done|done|]. cbn [pe_payload pe_req e']. by rewrite Hp, H4.
  - rewrite fmap_app. cbn [fmap list_fmap pe_req e']. by rewrite memory_after_snoc, <- H4.
  - rewrite length_app. cbn [length]. lia.
  - rewrite Hq in H7. cbn [length] in H7. lia.
Qed.

Lemma dispatch_loop_inv p now q R A u D : unit_inv p R A u D -> queue_ u = q ->
  exists u' D', dispatch_loop p now q u = Ok u' /\ unit_inv p R A u' D' /\ (length (queue_ u') <= length q)%nat /\
    (in_flight_ u < max_outstanding p -> q <> [] -> (length (queue_ u') < length q)%nat).
Proof.
  revert u D. induction q as [|e q IH]; intros u D Hi Hq; cbn [dispatch_loop].
  - exists u, D. split; [done|]. split; [done|]. rewrite Hq. by split.
  - destruct (Z.ltb_spec (in_flight_ u) (max_outstanding p)) as [Hlt|Hge].
    + destruct (dispatch_inv p now e q R A u D Hi Hq Hlt) as (u1 & D1 & E & Hi1 & Hq1). rewrite E. cbn [mbind result_bind].
      destruct (IH u1 D1 Hi1 Hq1) as (u' & D' & E' & Hi' & Hle & _). exists u', D'. split; [done|]. split; [done|]. cbn [length]. split; [lia|intros _ _; lia].
    + exists u, D. split; [done|]. split; [done|]. rewrite Hq. split; [done|]. intros; lia.
Qed.

Lemma filter_split (P : PendingEntry -> Prop) `{!forall x, Decision (P x)} l : base.filter P l ++ base.filter (fun x => ~ P x) l ≡ₚ l.
Proof.
  induction l as [|x l IH]; [done|]. rewrite !filter_cons. destruct (decide (P x)), (decide (~ P x)); try done; cbn; [by rewrite IH|].
  by rewrite <- Permutation_middle, IH.
Qed.

Lemma completion_inv p now R A u D A' u' : unit_inv p R A u D -> CompletionLoop now u = (A', u') -> unit_inv p R (A ++ A') u' D.
Proof.
  intros [H1 H2 H3 H4 H5 H6 H7 H8 H9] [= <- <-]. pose proof (filter_split (is_due now) (scheduled_ u)) as Hs.
  split; cbn [queue_ scheduled_ in_flight_ eu_backend]; try done.
  - rewrite fmap_app, <- list_fmap_compose. rewrite (list_fmap_ext _ id _) by done. rewrite list_fmap_id, <- app_assoc. by rewrite Hs.
  - intros e r [He|He]%elem_of_app; [by apply H5|]. by apply list_elem_of_fmap in He as (e' & [= -> ->] & _).
  - apply Permutation_length in Hs. rewrite length_app in Hs. lia.
Qed.

Lemma begin_inv p now R A u D req u' : unit_inv p R A u D -> HandleRequest_begin p now req u = Ok (true, u') -> unit_inv p (R ++ [req]) A u' D.
Proof.
  intros [H1 H2 H3 H4 H5 H6 H7 H8 H9] E. unfold HandleRequest_begin in E. apply bind_ok in E as ([] & Ec & E). cbv zeta in E.
  destruct (Z.leb_spec (queue_depth p) (Z.of_nat (length (queue_ u)))); [done|]. injection E as <-.
  split; cbn [queue_ scheduled_ in_flight_ eu_backend]; try done.
  - by rewrite app_assoc, fmap_app, H1.
  - rewrite length_app. cbn [length]. lia.
  - intros r [Hr|Hr%list_elem_of_singleton]%elem_of_app; [by apply H8|by subst].
Qed.

Lemma wait_inv p now R A u D req u' : unit_inv p R A u D -> HandleRequest_begin p now req u = Ok (false, u') -> unit_inv p R A u' D.
Proof.
  intros [] E. unfold HandleRequest_begin in E. apply bind_ok in E as ([] & Ec & E). cbv zeta in E.
  destruct (_ <=? _); [|done]. injection E as <-. by split.
Qed.

Lemma run_inv p R A u : unit_run p R A u -> exists D, unit_inv p R A u D.
Proof.
  induction 1 as [u E|R A u now req u' _ [D IH] E|R A u now req u' _ [D IH] E|R A u now u' _ [D IH] E|R A u now A' u' _ [D IH] E].
  - apply throw_bind_ok in E as [Hp E]. injection E as <-. apply orb_false_iff in Hp as [? ?]. exists []. split; cbn; try done; try lia.
    intros e r He. by apply elem_of_nil in He. intros r Hr. by apply elem_of_nil in Hr.
  - exists D. by eapply begin_inv.
  - exists D. by eapply wait_inv.
  - destruct (dispatch_loop_inv p now _ R A u D IH eq_refl) as (u1 & D1 & E1 & H1 & _). exists D1. unfold DispatchLoop in E. rewrite E1 in E. by injection E as <-.
  - exists D. by eapply completion_inv.
Qed.

(** After a late enough completion nothing is in flight. *)
Lemma complete_all u : exists now, (CompletionLoop now u).2.(scheduled_) = [].
Proof.
  assert (exists now, forall e, e ∈ scheduled_ u -> pe_due e <= now) as [now Hn].
  { induction (scheduled_ u) as [|e l [now IH]]; [exists 0; intros e He; by apply elem_of_nil in He|].
    exists (Z.max now (pe_due e)). intros e' [->|He]%elem_of_cons; [lia|]. specialize (IH _ He). lia. }
  exists now. cbn. induction (scheduled_ u) as [|e l IH]; [done|]. rewrite filter_cons, decide_False.
  - apply IH. intros e' He. apply Hn. by right.
  - intros H. apply H. apply Hn. left.
Qed.

Lemma run_drains p R A u : unit_run p R A u -> exists A' u', unit_run p R (A ++ A') u' /\ queue_ u' = [] /\ scheduled_ u' = [].
Proof.
  remember (length (queue_ u)) as n eqn:En. revert A u En. induction n as [n IH] using lt_wf_ind. intros A u En Hr.
  destruct (complete_all u) as (now & Hs). destruct (CompletionLoop now u) as [A1 u1] eqn:E1. cbn [snd] in Hs.
  assert (queue_ u1 = queue_ u) as Hq by (by injection E1 as _ <-).
  pose proof (ur_complete p R A u now A1 u1 Hr E1) as Hr1. destruct (queue_ u) as [|e q] eqn:Eq; [exists A1, u1; by split_and!|].
  destruct (run_inv _ _ _ _ Hr1) as (D & Hi). destruct (dispatch_loop_inv p now (queue_ u1) R (A ++ A1) u1 D Hi eq_refl) as (u2 & D2 & E2 & _ & _ & Hlt).
  assert (length (queue_ u2) < n)%nat as Hd.
  { rewrite En, <- Hq. apply Hlt; [|by rewrite Hq]. destruct (ui_flight _ _ _ _ _ Hi) as [-> _]. rewrite Hs. cbn. apply (ui_params _ _ _ _ _ Hi). }
  destruct (IH _ Hd (A ++ A1) u2 eq_refl) as (A' & u' & Hr' & Hq' & Hs'); [by eapply ur_dispatch|].
  exists (A1 ++ A'), u'. rewrite app_assoc. by split_and!.
Qed.

(** C9: an endpoint is a serial memory.  In whatever order its two processes and its
    callers run, the accepted requests are put to the backend one by one in the
    order of acceptance; every transaction gets the data that the requests before
    it leave, and the channel holds what they all leave.  Each dispatched request
    is answered at most once, by its own response with its own data, never more
    than [max_outstanding] are in flight and never more than [queue_depth] wait.
    A dispatch never fails, and from every state the endpoint can answer
    everything it has accepted. *)
Theorem endpoint_serial (p : unit_params) (R : list MemMsg) (A : list (PendingEntry * MemMsg)) (u : MemEndpointUnit) : unit_run p R A u ->
  (exists D, pe_req <$> D ++ queue_ u = R /\ A.*1 ++ scheduled_ u ≡ₚ D /\ served D /\ backing (eu_backend u) = memory_after (pe_req <$> D)) /\
  (forall e r, (e, r) ∈ A -> r = response e) /\
  in_flight_ u = Z.of_nat (length (scheduled_ u)) /\ in_flight_ u <= max_outstanding p /\ Z.of_nat (length (queue_ u)) <= queue_depth p /\
  (forall now, is_ok (DispatchLoop p now u) = true) /\
  (exists A' u', unit_run p R (A ++ A') u' /\ queue_ u' = [] /\ scheduled_ u' = []).
Proof.
  intros Hr. pose proof (run_drains _ _ _ _ Hr) as Hdrain. destruct (run_inv _ _ _ _ Hr) as (D & Hi).
  assert (forall now, is_ok (DispatchLoop p now u) = true) as Hok.
  { intros now. destruct (dispatch_loop_inv p now _ R A u D Hi eq_refl) as (u1 & D1 & E1 & _). unfold DispatchLoop. by rewrite E1. }
  destruct Hi as [H1 H2 H3 H4 H5 [H6 H6'] H7 H8 H9]. split; [by exists D|]. by split_and!.
Qed.

(** *** A write and an overlapping read *)

Definition demo_unit_params : unit_params := mkUnitParams 0 2 4 1 (mkBackendCfg (fun n => n * 1000) 500 0 0).
Definition demo_read_back : MemMsg := mkMem 9 kMsgRequest 4 1 0 2 0x1238 kRead 4 true 0 [] [].
Definition demo_unit0 : MemEndpointUnit := mkUnit [] [] 0 new_backend (mkEpStats 0 0 0 0 0 0).
Definition demo_begin (req : MemMsg) (u : MemEndpointUnit) : MemEndpointUnit :=
  match HandleRequest_begin demo_unit_params 0 req u with Ok (_, u) => u | Err _ => u end.
Definition demo_dispatch (now : Z) (u : MemEndpointUnit) : MemEndpointUnit := match DispatchLoop demo_unit_params now u with Ok u => u | Err _ => u end.
Definition demo_unit1 : MemEndpointUnit := demo_dispatch 0 (demo_begin demo_read_back (demo_begin demo_write demo_unit0)).
Definition demo_unit2 : MemEndpointUnit := demo_dispatch 30000 (CompletionLoop 30000 demo_unit1).2.

Lemma endpoint_serial_witness : exists D, pe_req <$> D = [demo_write; demo_read_back] /\ served D /\
  data_of_req (memory_after [demo_write]) demo_read_back = [104; 105; 106; 107].
Proof.
  assert (unit_run demo_unit_params [demo_write; demo_read_back] (CompletionLoop 30000 demo_unit1).1 demo_unit2) as Hr.
  { apply (ur_dispatch _ _ _ (CompletionLoop 30000 demo_unit1).2 30000); [|vm_compute; reflexivity].
    apply (ur_complete _ _ [] demo_unit1 30000 (CompletionLoop 30000 demo_unit1).1); [|by destruct (CompletionLoop 30000 demo_unit1)].
    apply (ur_dispatch _ _ _ (demo_begin demo_read_back (demo_begin demo_write demo_unit0)) 0); [|vm_compute; reflexivity].
    apply (ur_accept _ [demo_write] _ (demo_begin demo_write demo_unit0) 0); [|vm_compute; reflexivity].
    apply (ur_accept _ [] _ demo_unit0 0); [|vm_compute; reflexivity]. by apply ur_new. }
  destruct (endpoint_serial _ _ _ _ Hr) as ((D & Ho & _ & Hs & _) & _).
  exists D. assert (queue_ demo_unit2 = []) as Hq by (vm_compute; reflexivity). rewrite Hq, app_nil_r in Ho.
  split; [exact Ho|]. split; [exact Hs|]. vm_compute. reflexivity.
Defined.
