(* ===== verification/HbmAccess.v ===== *)
(** The memory access of a core ([src/memory/core_mem_adapter.cpp],
    [include/memory/core_mem_adapter.h]): transaction ids, the split of an access
    into chunks of one channel, and the flat memory that the split, the address
    map, the wire format and the endpoints make up.  The carrier of a request is an
    interface, [Transport], with the endpoints themselves and the network as instances. *)

From S2P Require Import Prelude HbmAddressMap MsgWire D2DConfig DieTopology PortSelect HostAttach HbmMemWire Routing.
From S2P Require Import HbmNetwork HbmAssembly HbmEndpoint.

(** ** The adapter *)

Record CoreMemAdapter : Type := mkAdapter {
  core_id : Z; txid_wrap_ : Z; next_txid_ : Z; last_txid_ : Z; outstanding_txids_ : gset Z; endpoints_ : gset (Z * Z); transport_ : bool
}.
Definition new_adapter (core wrap : Z) : result CoreMemAdapter :=
  THROW runtime_error "CoreMemAdapter: txid_wrap must be > 0" WHEN wrap <=? 0;;
  Ok (mkAdapter core wrap 0 (-1) ∅ ∅ false).
Definition set_ids (next last : Z) (out : gset Z) (a : CoreMemAdapter) : CoreMemAdapter :=
  mkAdapter (core_id a) (txid_wrap_ a) next last out (endpoints_ a) (transport_ a).

Definition BindEndpoint (key : Z * Z) (a : CoreMemAdapter) : result CoreMemAdapter :=
  THROW runtime_error "CoreMemAdapter: duplicate endpoint binding" WHEN bool_decide (key ∈ endpoints_ a);;
  Ok (mkAdapter (core_id a) (txid_wrap_ a) (next_txid_ a) (last_txid_ a) (outstanding_txids_ a) ({[key]} ∪ endpoints_ a) (transport_ a)).
Definition BindTransport (a : CoreMemAdapter) : result CoreMemAdapter :=
  THROW runtime_error "CoreMemAdapter: transport already bound" WHEN transport_ a;;
  Ok (mkAdapter (core_id a) (txid_wrap_ a) (next_txid_ a) (last_txid_ a) (outstanding_txids_ a) (endpoints_ a) true).

(** The candidates go around once. *)
Fixpoint alloc_loop (attempts : nat) (a : CoreMemAdapter) : result (Z * CoreMemAdapter) :=
  match attempts with
  | O => Err (runtime_error "CoreMemAdapter: txid space exhausted by outstanding transactions")
  | S attempts =>
      let candidate := next_txid_ a in
      let next := (next_txid_ a + 1) mod txid_wrap_ a in
      if decide (candidate ∈ outstanding_txids_ a) then alloc_loop attempts (set_ids next (last_txid_ a) (outstanding_txids_ a) a)
      else Ok (candidate, set_ids next candidate ({[candidate]} ∪ outstanding_txids_ a) a)
  end.
Definition AllocateTxid (a : CoreMemAdapter) : result (Z * CoreMemAdapter) := alloc_loop (Z.to_nat (txid_wrap_ a)) a.
Definition ReleaseTxid (id : Z) (a : CoreMemAdapter) : CoreMemAdapter := set_ids (next_txid_ a) (last_txid_ a) (outstanding_txids_ a ∖ {[id]}) a.

Definition chunk_request (a : CoreMemAdapter) (id : Z) (cmd : MemCommand) (d : AddressDecodeResult) (data enable : list Z) : MemMsg :=
  mkMem id kMsgRequest (core_id a) (HbmAddressMap.home_die d) (HbmAddressMap.stack_id d) (HbmAddressMap.channel_id d) (local_address d) cmd
    (Z.of_nat (length (if decide (cmd = kWrite) then data else enable))) true 0 (if decide (cmd = kWrite) then data else []) enable.

Definition response_matches (req resp : MemMsg) : bool :=
  (txid resp =? txid req) && bool_decide (message_type resp = kMsgResponse) && (source_core resp =? source_core req) && (status resp =? 0) &&
  bool_decide (command resp = command req).

Section access.
Context {T : Type} (call : T -> MemMsg -> result (MemMsg * T)) (CORES_PER_DIE : Z) (t : hbm_tables) (p : AddressPolicyConfig).

(** The id is released on every way out; the carrier keeps its state only on success. *)
Definition IssueChunk (cmd : MemCommand) (d : AddressDecodeResult) (data enable : list Z) (a : CoreMemAdapter) (s : T)
    : CoreMemAdapter * result (MemMsg * T) :=
  if negb (transport_ a) && negb (bool_decide ((HbmAddressMap.stack_id d, HbmAddressMap.channel_id d) ∈ endpoints_ a)) then
    (a, Err (runtime_error "CoreMemAdapter::Access: no MemEndpointUnit bound for decoded stack/channel"))
  else
    match AllocateTxid a with
    | Err e => (a, Err e)
    | Ok (id, a) =>
        let req := chunk_request a id cmd d data enable in
        (ReleaseTxid id a,
         call s req ≫= fun '((resp, s) : MemMsg * T) =>
         THROW runtime_error "CoreMemAdapter::Access: malformed or mismatched response" WHEN negb (response_matches req resp);;
         Ok (resp, s))
    end.

Definition same_run (first next : AddressDecodeResult) (chunk : Z) : bool :=
  (HbmAddressMap.home_die next =? HbmAddressMap.home_die first) && (HbmAddressMap.stack_id next =? HbmAddressMap.stack_id first) &&
  (HbmAddressMap.channel_id next =? HbmAddressMap.channel_id first) && (local_address next =? u64 (local_address first + chunk)).

(** The inner loop: the chunk grows while the bytes stay together; fuel for one turn per byte. *)
Fixpoint grow_chunk (fuel : nat) (phys len die offset chunk : Z) (first : AddressDecodeResult) : result Z :=
  match fuel with
  | O => Err (logic_error "fuel")
  | S fuel =>
      if (offset + chunk <? len) && (chunk <? kMemMsgMaxPayloadBytes) then
        DecodeAddress t p (u64 (phys + (offset + chunk))) die ≫= fun next : AddressDecodeResult =>
        if same_run first next chunk then grow_chunk fuel phys len die offset (chunk + 1) first else Ok chunk
      else Ok chunk
  end.

Definition slice (l : list Z) (offset chunk : Z) : list Z := take (Z.to_nat chunk) (drop (Z.to_nat offset) l).

(** The loop over the chunks, with the id of the first response and the payload so far. *)
Fixpoint access_loop (fuel : nat) (cmd : MemCommand) (phys len die : Z) (data enables : list Z) (offset : Z) (id : Z) (got : list Z)
    (a : CoreMemAdapter) (s : T) : CoreMemAdapter * result (Z * list Z * T) :=
  if negb (offset <? len) then (a, Ok (id, got, s)) else
  match fuel with
  | O => (a, Err (logic_error "fuel"))
  | S fuel =>
      match DecodeAddress t p (u64 (phys + offset)) die ≫= fun first : AddressDecodeResult =>
            grow_chunk (Z.to_nat len) phys len die offset 1 first ≫= fun chunk : Z => Ok (first, chunk) with
      | Err e => (a, Err e)
      | Ok (first, chunk) =>
          let part := if decide (cmd = kWrite) then slice data offset chunk else [] in
          let '(a, r) := IssueChunk cmd first part (slice enables offset chunk) a s in
          match r with
          | Err e => (a, Err e)
          | Ok (resp, s) =>
              access_loop fuel cmd phys len die data enables (offset + chunk) (if id <? 0 then txid resp else id)
                (if decide (cmd = kRead) then got ++ payload resp else got) a s
          end
      end
  end.

Definition Access (cmd : MemCommand) (phys len : Z) (data enable : list Z) (a : CoreMemAdapter) (s : T) : CoreMemAdapter * result (MemMsg * T) :=
  if len <=? 0 then (a, Err (runtime_error "CoreMemAdapter::Access: length_bytes out of range")) else
  if UINT64_MAX - len <? phys then (a, Err (runtime_error "CoreMemAdapter::Access: address range overflows")) else
  if bool_decide (cmd = kWrite) && negb (Z.of_nat (length data) =? len) then
    (a, Err (runtime_error "CoreMemAdapter::Access: write_data size must equal length_bytes")) else
  if negb (bool_decide (enable = [])) && negb (Z.of_nat (length enable) =? len) then
    (a, Err (runtime_error "CoreMemAdapter::Access: byte_enable size must equal length_bytes")) else
  let enables := if decide (enable = []) then replicate (Z.to_nat len) 0xff else enable in
  let die := if (0 <=? core_id a) && (0 <? CORES_PER_DIE) then core_id a / CORES_PER_DIE else -1 in
  let '(a, r) := access_loop (Z.to_nat len) cmd phys len die data enables 0 (-1) [] a s in
  (a, r ≫= fun '((id, got, s) : Z * list Z * T) =>
      Ok (mkMem id kMsgResponse (core_id a) (-1) (-1) (-1) 0 cmd (if decide (cmd = kRead) then len else 0) true 0 got enables, s)).
End access.

(** ** The interface of a carrier *)

(** A carrier of requests: its call, the channels it reaches, the bytes they hold,
    and when it is ready for a call. *)
Class Transport (T : Type) := mkTransport {
  t_call : T -> MemMsg -> result (MemMsg * T); t_places : T -> gset (Z * Z); t_bytes : T -> Z * Z -> gmap Z Z; t_ready : T -> Prop
}.
(** A ready carrier serves a request for a channel it reaches: the response
    matches, a read gets the bytes of the channel, a write changes them, and only them. *)
Class TransportOk (T : Type) `{Transport T} := t_call_ok : forall (s : T) (m : MemMsg),
  t_ready s -> place_of m ∈ t_places s -> mem_valid m -> payload_fits m -> message_type m = kMsgRequest -> 0 < length_bytes m ->
  exists resp s', t_call s m = Ok (resp, s') /\ t_ready s' /\ t_places s' = t_places s /\ response_matches m resp = true /\
    payload resp = (if decide (command m = kRead) then load (address m) (Z.to_nat (length_bytes m)) (t_bytes s (place_of m)) else []) /\
    t_bytes s' (place_of m) = apply_req (t_bytes s (place_of m)) (received m) /\
    (forall k, k <> place_of m -> t_bytes s' k = t_bytes s k).

(** ** Bytes *)

Lemma u64_offset_inj addr i j : 0 <= i < 2 ^ 64 -> 0 <= j < 2 ^ 64 -> u64 (addr + i) = u64 (addr + j) -> i = j.
Proof.
  intros Hi Hj E. unfold u64, wrap in E.
  assert (((addr + i) - addr) mod 2 ^ 64 = ((addr + j) - addr) mod 2 ^ 64) as E' by (rewrite Zminus_mod, E, <- Zminus_mod; done).
  replace (addr + i - addr) with i in E' by lia. replace (addr + j - addr) with j in E' by lia. rewrite !Z.mod_small in E' by lia. done.
Qed.

Lemma store_out addr data en n b x : (forall i, (i < n)%nat -> u64 (addr + Z.of_nat i) <> x) ->
  load_byte (foldl (store_byte addr data en) b (seq 0 n)) x = load_byte b x.
Proof.
  induction n as [|n IH]; intros Hx; [done|]. rewrite seq_S, foldl_snoc, Nat.add_0_l. unfold store_byte at 1.
  rewrite <- IH by (intros i Hi; apply Hx; lia). destruct (byte_enabled en n); [|done].
  unfold load_byte. by rewrite lookup_insert_ne by (apply Hx; lia).
Qed.

Lemma store_in addr data en n b i : Z.of_nat n <= 2 ^ 64 -> (i < n)%nat -> load_byte (foldl (store_byte addr data en) b (seq 0 n)) (u64 (addr + Z.of_nat i)) =
  if byte_enabled en i then data !!! i else load_byte b (u64 (addr + Z.of_nat i)).
Proof.
  intros Hn. induction n as [|n IH]; intros Hi; [lia|]. rewrite seq_S, foldl_snoc, Nat.add_0_l. unfold store_byte at 1.
  destruct (decide (i = n)) as [->|Hne].
  - destruct (byte_enabled en n).
    + unfold load_byte. by rewrite lookup_insert_eq.
    + apply store_out. intros j Hj E. apply u64_offset_inj in E; lia.
  - rewrite <- IH by lia. destruct (byte_enabled en n); [|done]. unfold load_byte.
    rewrite lookup_insert_ne; [done|]. intros E. apply u64_offset_inj in E; lia.
Qed.

(** ** The address map, read from the side of the core *)

Definition same_place (r : AddressDecodeResult) (k : Z * Z) : Prop := k = (HbmAddressMap.stack_id r, HbmAddressMap.channel_id r).

Section map.
Context (t : hbm_tables) (p : AddressPolicyConfig) (Hwf : tables_wf t) (Hp : policy_typed p) (Hval : ValidateAddressPolicy t p = Ok tt).

Lemma decode_inj a a' c c' r r' : in_u 64 a -> in_u 64 a' -> DecodeAddress t p a c = Ok r -> DecodeAddress t p a' c' = Ok r' ->
  HbmAddressMap.stack_id r = HbmAddressMap.stack_id r' -> HbmAddressMap.channel_id r = HbmAddressMap.channel_id r' -> local_address r = local_address r' -> a = a'.
Proof using Hwf Hp Hval.
  intros Ha Ha' E E' H1 H2 H3. destruct (decide (ap_mode p = kGlobalInterleave)) as [Hm|Hm].
  - by apply (decode_injective_global t p a a' c c' r r').
  - by apply (decode_injective_local t p a a' c c' r r').
Qed.

Lemma decode_local a c r : in_u 64 a -> DecodeAddress t p a c = Ok r -> in_u 64 (local_address r).
Proof using Hp.
  intros Ha E. apply DecodeAddress_ok in E as (_ & Hs & Hc & H). destruct Hp as (T1 & T2 & _ & T4). rewrite list.Forall_forall in T4.
  assert (forall stacks o home msg, in_u 64 o -> stacks <> [] -> HbmAddressMap.place t p stacks o home msg = Ok r -> in_u 64 (local_address r)) as Hpl.
  { intros stacks o home msg Ho Hne E.
    destruct (place_ok t p stacks o home msg r Ho ltac:(unfold in_u in *; lia) ltac:(unfold in_u in *; lia) Hne E) as (_ & _ & Hi & Hch & _ & Hj & Hl & Hle & _).
    cbv zeta in *. set (i := (Interleave o _ _).2) in *. split; [|unfold in_u in *; lia]. rewrite Hl.
    apply Interleave_spec; [unfold in_u in *; lia| |done]. clear -Hch. destruct (StackChannelList t (HbmAddressMap.stack_id r)); [done|cbn; lia]. }
  destruct H as [(_ & Hne & E)|(_ & hr & Hin & Hcov & Hne & E)]; [eapply (Hpl _ a); [done|exact Hne|exact E]|].
  apply covers_offset in Hcov. specialize (T4 _ Hin) as [Tb Ts]. eapply (Hpl _ (a - hr_base hr)); [unfold in_u in *; lia|done|exact E].
Qed.

Lemma same_run_spec first next chunk : same_run first next chunk = true <->
  HbmAddressMap.home_die next = HbmAddressMap.home_die first /\ HbmAddressMap.stack_id next = HbmAddressMap.stack_id first /\
  HbmAddressMap.channel_id next = HbmAddressMap.channel_id first /\ local_address next = u64 (local_address first + chunk).
Proof using. unfold same_run. rewrite !andb_true_iff, !Z.eqb_eq. tauto. Qed.

(** A chunk: bytes that follow one another in one channel. *)
Definition together (phys die offset n : Z) (first : AddressDecodeResult) : Prop :=
  forall i, 0 <= i < n -> exists r, DecodeAddress t p (phys + (offset + i)) die = Ok r /\ same_run first r i = true.

Lemma grow_spec fuel phys len die offset chunk first : 0 <= phys -> 0 <= offset -> phys + len <= UINT64_MAX ->
  (forall i, 0 <= i < len -> exists r, DecodeAddress t p (phys + i) die = Ok r) ->
  together phys die offset chunk first -> 1 <= chunk <= kMemMsgMaxPayloadBytes -> offset + chunk <= len -> len - (offset + chunk) < Z.of_nat fuel ->
  exists n, grow_chunk t p fuel phys len die offset chunk first = Ok n /\ 1 <= n <= kMemMsgMaxPayloadBytes /\ offset + n <= len /\ together phys die offset n first.
Proof using.
  intros Hphys Hoff Hend Hdec. unfold UINT64_MAX in Hend. revert chunk. induction fuel as [|fuel IH]; intros chunk Ht Hc Hle Hf; [lia|]. cbn [grow_chunk].
  destruct (Z.ltb_spec (offset + chunk) len) as [Hlt|Hge]; [|cbn [andb]; by exists chunk].
  destruct (Z.ltb_spec chunk kMemMsgMaxPayloadBytes) as [Hlt'|Hge]; [|cbn [andb]; by exists chunk]. cbn [andb].
  rewrite u64_id by (unfold UINT64_MAX; lia). destruct (Hdec (offset + chunk) ltac:(lia)) as [r Hr]. rewrite Hr. cbn [mbind result_bind].
  destruct (same_run first r chunk) eqn:Es; [|by exists chunk]. apply IH; try lia.
  intros i Hi. destruct (decide (i = chunk)) as [->|]; [by exists r|]. apply Ht. lia.
Qed.
End map.

(** ** One chunk *)

Definition place_r (r : AddressDecodeResult) : Z * Z := (HbmAddressMap.stack_id r, HbmAddressMap.channel_id r).
(** The identifiers fit the fields of a flit. *)
Definition wire_ids (r : AddressDecodeResult) : Prop :=
  0 <= HbmAddressMap.home_die r <= 0xfff /\ 0 <= HbmAddressMap.stack_id r <= 0xfff /\ 0 <= HbmAddressMap.channel_id r <= 0xfff.

Record adapter_ok (a : CoreMemAdapter) : Prop := {
  ao_core : 0 <= core_id a <= 0xffff; ao_wrap : 0 < txid_wrap_ a <= 2 ^ 31; ao_next : 0 <= next_txid_ a < txid_wrap_ a; ao_out : outstanding_txids_ a = ∅
}.
Definition same_binding (a a' : CoreMemAdapter) : Prop :=
  core_id a' = core_id a /\ txid_wrap_ a' = txid_wrap_ a /\ endpoints_ a' = endpoints_ a /\ transport_ a' = transport_ a.

Lemma alloc_ok a : adapter_ok a -> exists a', AllocateTxid a = Ok (next_txid_ a, a') /\ same_binding a a' /\ adapter_ok (ReleaseTxid (next_txid_ a) a').
Proof.
  intros [H1 H2 H3 H4]. unfold AllocateTxid. destruct (Z.to_nat (txid_wrap_ a)) as [|n] eqn:En; [lia|]. cbn [alloc_loop].
  rewrite decide_False by (rewrite H4; set_solver). eexists. split; [reflexivity|]. split; [done|].
  unfold ReleaseTxid, set_ids. split; cbn; try done; [apply Z.mod_pos_bound; lia|]. rewrite H4. set_solver.
Qed.

(** In general: the first free candidate after the last one, unless all are taken. *)
Lemma alloc_loop_spec n a : 0 < txid_wrap_ a -> 0 <= next_txid_ a < txid_wrap_ a ->
  match alloc_loop n a with
  | Ok (id, a') => 0 <= id < txid_wrap_ a /\ id ∉ outstanding_txids_ a /\ outstanding_txids_ a' = {[id]} ∪ outstanding_txids_ a /\ 0 <= next_txid_ a' < txid_wrap_ a
  | Err _ => forall i, (i < n)%nat -> (next_txid_ a + Z.of_nat i) mod txid_wrap_ a ∈ outstanding_txids_ a
  end.
Proof.
  revert a. induction n as [|n IH]; intros a Hw Hn; cbn [alloc_loop]; [intros; lia|]. case_decide as Hin.
  - specialize (IH (set_ids ((next_txid_ a + 1) mod txid_wrap_ a) (last_txid_ a) (outstanding_txids_ a) a) Hw (Z.mod_pos_bound _ _ Hw)).
    destruct (alloc_loop n _) as [[id a']|e]; [exact IH|]. intros [|i] Hi; [rewrite Z.add_0_r, Z.mod_small by lia; done|].
    specialize (IH i ltac:(lia)). cbn [set_ids next_txid_ txid_wrap_ outstanding_txids_] in IH. rewrite Zplus_mod_idemp_l in IH.
    replace (next_txid_ a + Z.of_nat (S i)) with (next_txid_ a + 1 + Z.of_nat i) by lia. done.
  - split; [done|]. split; [done|]. split; [done|]. apply Z.mod_pos_bound. lia.
Qed.

Section chunk.
Context {T : Type} `{TransportOk T}.
Context (t : hbm_tables) (p : AddressPolicyConfig) (Hwf : tables_wf t) (Hp : policy_typed p) (Hval : ValidateAddressPolicy t p = Ok tt).

Definition reachable (s : T) (die a : Z) : Prop := in_u 64 a /\ exists r, DecodeAddress t p a die = Ok r /\ place_r r ∈ t_places s /\ wire_ids r.
Definition flat (s : T) (die a : Z) : Z :=
  match DecodeAddress t p a die with Ok r => load_byte (t_bytes s (place_r r)) (local_address r) | Err _ => 0 end.
Definition bound (a : CoreMemAdapter) (s : T) : Prop := transport_ a = true \/ t_places s ⊆ endpoints_ a.

Lemma issue_ok cmd d data en a s : adapter_ok a -> bound a s -> t_ready s -> place_r d ∈ t_places s -> wire_ids d -> in_u 64 (local_address d) ->
  1 <= Z.of_nat (length en) <= kMemMsgMaxPayloadBytes -> (cmd = kWrite -> length data = length en /\ forall x, x ∈ data -> in_u 8 x) ->
  exists resp s' a', let m := chunk_request a (next_txid_ a) cmd d data en in
    IssueChunk t_call cmd d data en a s = (a', Ok (resp, s')) /\ adapter_ok a' /\ same_binding a a' /\ t_ready s' /\ t_places s' = t_places s /\
    0 <= txid resp /\ payload resp = (if decide (cmd = kRead) then load (local_address d) (length en) (t_bytes s (place_r d)) else []) /\
    t_bytes s' (place_r d) = apply_req (t_bytes s (place_r d)) (received m) /\ (forall k, k <> place_r d -> t_bytes s' k = t_bytes s k).
Proof.
  intros Ha Hb Hr Hpl Hids Hloc Hen Hdata. destruct (alloc_ok a Ha) as (a1 & Ea & Hbind & Hok).
  set (m := chunk_request a (next_txid_ a) cmd d data en).
  assert (length_bytes m = Z.of_nat (length en)) as Hlen.
  { unfold m, chunk_request. cbn [length_bytes]. destruct (decide (cmd = kWrite)) as [Hc|]; [|done]. by rewrite (proj1 (Hdata Hc)). }
  destruct (t_call_ok s m Hr) as (resp & s' & Ec & Hr' & Hpl' & Hm & Hpay & Hby & Hoth); [exact Hpl| | |done|lia|].
  - destruct Hids as (I1 & I2 & I3), Ha as [A1 A2 A3 A4]. split; try (unfold m, chunk_request; cbn [txid source_core home_die stack_id channel_id address status]; lia || done).
    + lia.
    + intros x. unfold m, chunk_request. cbn [payload]. destruct (decide (cmd = kWrite)) as [Hc|]; [by apply Hdata|]. intros Hx. by apply elem_of_nil in Hx.
    + right. by rewrite Hlen.
  - split; [|intros _ Hc; unfold m, chunk_request in *; cbn [command payload] in *; by rewrite Hc].
    unfold carries_data, m, chunk_request. cbn [message_type command payload length_bytes]. intros Hc%bool_decide_eq_true. by rewrite !decide_True.
  - exists resp, s', (ReleaseTxid (next_txid_ a) a1). cbv zeta. fold m. split_and!; try done.
    + unfold IssueChunk. destruct (_ && _) eqn:Eb.
      { exfalso. apply andb_true_iff in Eb as [E1 E2]. apply negb_true_iff in E1, E2. apply bool_decide_eq_false in E2.
        destruct Hb as [Hb|Hb]; [congruence|]. apply E2, Hb. exact Hpl. }
      rewrite Ea. cbv zeta. f_equal. assert (chunk_request a1 (next_txid_ a) cmd d data en = m) as -> by (unfold m, chunk_request; by destruct Hbind as (-> & _)).
      rewrite Ec. cbn [mbind result_bind]. by rewrite throw_bind_false by (by rewrite Hm).
    + apply andb_true_iff in Hm as [Hm _]. do 3 apply andb_true_iff in Hm as [Hm _]. apply Z.eqb_eq in Hm. rewrite Hm. apply Ha.
    + rewrite Hpay. unfold m at 1, chunk_request. cbn [command]. destruct (decide (cmd = kRead)); [|done]. rewrite Hlen. by rewrite Nat2Z.id.
Qed.

Lemma received_enable m i : byte_enable m <> [] -> Z.of_nat (length (byte_enable m)) = length_bytes m -> carries_data m = true ->
  (i < length (byte_enable m))%nat -> byte_enabled (byte_enable (received m)) i = negb (byte_enable m !!! i =? 0).
Proof using.
  intros Hne Hl Hc Hi. assert (byte_enable (received m) = enable_bytes m) as -> by (unfold received; rewrite Hc; by destruct (message_type m)).
  unfold byte_enabled. rewrite bool_decide_eq_false_2.
  - pose proof (enable_bytes_at m (Z.of_nat i) ltac:(lia)) as E. rewrite Nat2Z.id in E. cbn [orb]. rewrite E. unfold enabled.
    rewrite bool_decide_eq_false_2, Nat2Z.id by done. cbn [orb]. by destruct (byte_enable m !!! i =? 0).
  - intros E. apply (f_equal length) in E. unfold enable_bytes in E. rewrite length_fmap, length_seqZ in E. cbn in E. lia.
Qed.

(** The state after a chunk, seen through the address map. *)
Lemma flat_chunk cmd d data en a s s' phys die offset : let n := Z.of_nat (length en) in let m := chunk_request a (next_txid_ a) cmd d data en in
  0 <= phys -> 0 <= offset -> phys + offset + n <= UINT64_MAX -> DecodeAddress t p (phys + offset) die = Ok d -> together t p phys die offset n d ->
  1 <= n <= kMemMsgMaxPayloadBytes -> (cmd = kWrite -> length data = length en) ->
  t_bytes s' (place_r d) = apply_req (t_bytes s (place_r d)) (received m) -> (forall k, k <> place_r d -> t_bytes s' k = t_bytes s k) ->
  (forall x, reachable s die x -> flat s' die x =
     if bool_decide (cmd = kWrite) && (phys + offset <=? x) && (x <? phys + offset + n) && negb (en !!! Z.to_nat (x - (phys + offset)) =? 0)
     then data !!! Z.to_nat (x - (phys + offset)) else flat s die x) /\
  load (local_address d) (length en) (t_bytes s (place_r d)) = (fun i => flat s die (phys + offset + i)) <$> seqZ 0 n.
Proof using Hwf Hp Hval.
  intros n m Hphys Hoff Hend Hd Ht Hn Hdata Hby Hoth. unfold UINT64_MAX, kMemMsgMaxPayloadBytes in *.
  assert (Hat : forall i, 0 <= i < n -> exists r, DecodeAddress t p (phys + offset + i) die = Ok r /\ place_r r = place_r d /\ local_address r = u64 (local_address d + i)).
  { intros i Hi. destruct (Ht i Hi) as (r & Er & Hs). apply same_run_spec in Hs as (_ & H2 & H3 & H4). exists r. rewrite Z.add_assoc in Er.
    split; [done|]. split; [|done]. unfold place_r. by rewrite H2, H3. }
  assert (Hflat : forall s0 i, 0 <= i < n -> flat s0 die (phys + offset + i) = load_byte (t_bytes s0 (place_r d)) (u64 (local_address d + i))).
  { intros s0 i Hi. destruct (Hat i Hi) as (r & Er & Hr & Hl). unfold flat. by rewrite Er, Hr, Hl. }
  assert (bytes_m : payload (received m) = (if decide (cmd = kWrite) then data else []) /\ address (received m) = local_address d /\ command (received m) = cmd).
  { unfold received, m, chunk_request, carries_data. cbn. split; [|done]. clear. by destruct cmd. }
  destruct bytes_m as (Hpay & Hadr & Hcmd). split.
  - intros x (Hx & rx & Ex & Hpx & _). destruct (decide (phys + offset <= x < phys + offset + n)) as [Hin|Hout].
    + remember (x - (phys + offset)) as i eqn:Ei. assert (x = phys + offset + i) as -> by lia. clear Ei.
      rewrite !Hflat by lia. rewrite Hby. unfold apply_req. rewrite Hcmd.
      destruct (Z.leb_spec (phys + offset) (phys + offset + i)); [|lia]. destruct (Z.ltb_spec (phys + offset + i) (phys + offset + n)); [|lia]. rewrite !andb_true_r.
      destruct (decide (cmd = kWrite)) as [Hc|Hc]; [|by rewrite (bool_decide_eq_false_2 (cmd = kWrite))]. rewrite (bool_decide_eq_true_2 (cmd = kWrite)) by done. cbn [andb].
      rewrite Hpay, Hadr. unfold store. rewrite (Hdata Hc).
      replace (local_address d + i) with (local_address d + Z.of_nat (Z.to_nat i)) by lia. rewrite store_in by lia.
      rewrite received_enable.
      * cbn [byte_enable m chunk_request]. by destruct (en !!! Z.to_nat i =? 0).
      * unfold m, chunk_request. cbn [byte_enable]. intros ->. cbn in *. lia.
      * unfold m, chunk_request. cbn [byte_enable length_bytes]. rewrite decide_True by done. by rewrite (Hdata Hc).
      * unfold m, chunk_request, carries_data. cbn. by rewrite bool_decide_eq_true_2.
      * unfold m, chunk_request. cbn [byte_enable]. lia.
    + assert (flat s' die x = flat s die x) as ->.
      { unfold flat. rewrite Ex. destruct (decide (place_r rx = place_r d)) as [Hpl|Hpl]; [|by rewrite Hoth].
        rewrite Hpl, Hby. unfold apply_req. rewrite Hcmd. destruct (decide (cmd = kWrite)) as [Hc|]; [|done].
        rewrite Hpay, Hadr. unfold store. apply store_out. intros i Hi E. rewrite (Hdata Hc) in Hi.
        destruct (Hat (Z.of_nat i) ltac:(lia)) as (r & Er & Hr & Hl).
        assert (x = phys + offset + Z.of_nat i); [|lia].
        unfold place_r in Hpl, Hr. apply (decode_inj t p Hwf Hp Hval _ _ die die rx r); try done; try congruence. unfold in_u. lia. }
      destruct (bool_decide (cmd = kWrite)); [|done]. cbn [andb]. destruct (Z.leb_spec (phys + offset) x), (Z.ltb_spec x (phys + offset + n)); try done; lia.
  - unfold load. rewrite <- (Nat2Z.id (length en)). fold n. apply list_eq. intros i. rewrite !list_lookup_fmap.
    destruct (decide (i < Z.to_nat n)%nat) as [Hi|Hi].
    + rewrite lookup_seq_lt, lookup_seqZ_lt by lia. cbn. rewrite Hflat by lia. do 3 f_equal. 
    + rewrite lookup_seq_ge, lookup_seqZ_ge by lia. done.
Qed.

Lemma slice_length (l : list Z) offset n : 0 <= offset -> 0 <= n -> offset + n <= Z.of_nat (length l) -> length (slice l offset n) = Z.to_nat n.
Proof using. intros Ho Hn Hl. unfold slice. rewrite length_take, length_drop. lia. Qed.
Lemma slice_at (l : list Z) offset n i : 0 <= offset -> 0 <= i < n -> offset + n <= Z.of_nat (length l) -> slice l offset n !!! Z.to_nat i = l !!! Z.to_nat (offset + i).
Proof using.
  intros Ho Hi Hl. unfold slice. apply list_lookup_total_correct. rewrite lookup_take_lt, lookup_drop by lia.
  replace (Z.to_nat offset + Z.to_nat i)%nat with (Z.to_nat (offset + i)) by lia. apply list_lookup_lookup_total_lt. lia.
Qed.
Lemma slice_elem (l : list Z) offset n x : x ∈ slice l offset n -> x ∈ l.
Proof using. unfold slice. intros Hx. by apply elem_of_take, list_elem_of_lookup in Hx as (i & Hx & _) || (apply list_elem_of_lookup in Hx as [i Hi]; apply lookup_take_Some in Hi as [Hi _]; rewrite lookup_drop in Hi; by eapply list_elem_of_lookup_2). Qed.

(** ** The whole access *)

(** The bytes that a write leaves: the enabled ones of its range. *)
Definition written (cmd : MemCommand) (phys len offset : Z) (data enables : list Z) (f : Z -> Z) (x : Z) : Z :=
  if bool_decide (cmd = kWrite) && (phys + offset <=? x) && (x <? phys + len) && negb (enables !!! Z.to_nat (x - phys) =? 0)
  then data !!! Z.to_nat (x - phys) else f x.

Lemma reachable_places s s' die x : t_places s' = t_places s -> reachable s die x -> reachable s' die x.
Proof using. unfold reachable. by intros ->. Qed.

(** The bytes of the first chunk and of the rest make up those of the range. *)
Lemma written_split cmd phys len offset n data enables f x : 0 <= offset -> 0 <= n -> offset + n <= len -> Z.of_nat (length enables) = len ->
  (cmd = kWrite -> length data = length enables) -> let part := if decide (cmd = kWrite) then slice data offset n else [] in
  written cmd phys len (offset + n) data enables (fun x => if bool_decide (cmd = kWrite) && (phys + offset <=? x) && (x <? phys + offset + n) &&
     negb (slice enables offset n !!! Z.to_nat (x - (phys + offset)) =? 0) then part !!! Z.to_nat (x - (phys + offset)) else f x) x =
  written cmd phys len offset data enables f x.
Proof using.
  intros Ho Hn Hle Hen Hdata part. unfold written. destruct (decide (cmd = kWrite)) as [Hc|Hc]; [|by rewrite bool_decide_eq_false_2].
  rewrite (bool_decide_eq_true_2 (cmd = kWrite)) by done. cbn [andb]. specialize (Hdata Hc).
  destruct (Z.leb_spec (phys + (offset + n)) x), (Z.ltb_spec x (phys + len)), (Z.leb_spec (phys + offset) x), (Z.ltb_spec x (phys + offset + n));
    cbn [andb]; try lia; try done.
  rewrite slice_at by lia. unfold part. rewrite slice_at by lia. replace (offset + (x - (phys + offset))) with (x - phys) by lia. done.
Qed.

Lemma loop_end fuel cmd phys len die data enables id got a s : adapter_ok a -> t_ready s ->
  exists id' s' a', access_loop t_call t p fuel cmd phys len die data enables len id got a s =
      (a', Ok (id', got ++ (if decide (cmd = kRead) then (fun i => flat s die (phys + i)) <$> seqZ len (len - len) else []), s')) /\
    adapter_ok a' /\ same_binding a a' /\ t_ready s' /\ t_places s' = t_places s /\ (id' = id \/ 0 <= id') /\ (len < len -> 0 <= id') /\
    (forall x, reachable s die x -> flat s' die x = written cmd phys len len data enables (flat s die) x).
Proof using.
  intros Ha Hr. exists id, s, a. rewrite Z.sub_diag. change (seqZ len 0) with (@nil Z). cbn [fmap list_fmap].
  assert ((if decide (cmd = kRead) then [] else []) = @nil Z) as -> by (by destruct (decide _)). rewrite app_nil_r.
  split_and!; try done; [destruct fuel; cbn [access_loop]; by rewrite Z.ltb_irrefl|by left|lia|].
  intros x _. unfold written. destruct (Z.leb_spec (phys + len) x), (Z.ltb_spec x (phys + len)); try lia; by rewrite ?andb_false_r.
Qed.

Lemma loop_ok cmd phys len die data enables : 0 <= phys -> phys + len <= UINT64_MAX -> Z.of_nat (length enables) = len ->
  (cmd = kWrite -> length data = length enables /\ forall x, x ∈ data -> in_u 8 x) -> forall fuel offset id got a s,
  0 <= offset <= len -> len - offset <= Z.of_nat fuel -> adapter_ok a -> bound a s -> t_ready s -> (forall i, 0 <= i < len -> reachable s die (phys + i)) ->
  exists id' s' a', access_loop t_call t p fuel cmd phys len die data enables offset id got a s =
      (a', Ok (id', got ++ (if decide (cmd = kRead) then (fun i => flat s die (phys + i)) <$> seqZ offset (len - offset) else []), s')) /\
    adapter_ok a' /\ same_binding a a' /\ t_ready s' /\ t_places s' = t_places s /\ (id' = id \/ 0 <= id') /\ (offset < len -> 0 <= id') /\
    (forall x, reachable s die x -> flat s' die x = written cmd phys len offset data enables (flat s die) x).
Proof.
  intros Hphys Hend Hen Hdata. unfold UINT64_MAX in Hend. induction fuel as [|fuel IH]; intros offset id got a s Ho Hf Ha Hb Hr Hreach;
    (destruct (Z.eq_dec offset len) as [->|Hne]; [by apply loop_end|]); [lia|].
  cbn [access_loop]. destruct (Z.ltb_spec offset len) as [Hlt|]; [|lia]. cbn [negb].
  destruct (Hreach offset ltac:(lia)) as (Hin & d & Ed & Hpl & Hids). rewrite u64_id by (unfold UINT64_MAX; lia). rewrite Ed. cbn [mbind result_bind].
  destruct (grow_spec t p (Z.to_nat len) phys len die offset 1 d) as (n & Eg & Hn & Hle & Ht); try (unfold UINT64_MAX, kMemMsgMaxPayloadBytes; lia).
  { intros i Hi. destruct (Hreach i Hi) as (_ & r & Er & _). by exists r. }
  { intros i Hi. assert (i = 0) as -> by lia. exists d. rewrite Z.add_0_r. split; [done|]. apply same_run_spec. split; [done|]. split; [done|]. split; [done|].
    rewrite Z.add_0_r. pose proof (decode_local t p Hp _ _ _ Hin Ed) as [? ?]. by rewrite u64_id by (unfold UINT64_MAX; lia). }
  rewrite Eg. cbn [mbind result_bind]. set (en := slice enables offset n). set (part := if decide (cmd = kWrite) then slice data offset n else []).
  assert (length en = Z.to_nat n) as Hlen by (apply slice_length; lia).
  assert (cmd = kWrite -> length part = length en /\ forall x, x ∈ part -> in_u 8 x) as Hpart.
  { intros Hc. destruct (Hdata Hc) as [Hd1 Hd2]. unfold part. rewrite decide_True by done. split; [rewrite Hlen; apply slice_length; lia|].
    intros x Hx. by apply Hd2, (slice_elem data offset n). }
  destruct (issue_ok cmd d part en a s Ha Hb Hr Hpl Hids (decode_local t p Hp _ _ _ Hin Ed)) as (resp & s1 & a1 & HI); [lia|done|]. cbv zeta in HI.
  destruct HI as (EI & Ha1 & Hbd & Hr1 & Hpl1 & Hid & Hpay & Hby & Hoth). rewrite EI. cbn beta iota.
  destruct (flat_chunk cmd d part en a s s1 phys die offset) as [Hflat Hload]; try (rewrite ?Hlen, ?Z2Nat.id by lia; unfold UINT64_MAX, kMemMsgMaxPayloadBytes in *; lia || done).
  { by apply Hpart. }
  rewrite Hlen, Z2Nat.id in Hflat, Hload by lia. cbv zeta in Hflat.
  assert (bound a1 s1) as Hb1 by (destruct Hbd as (_ & _ & E1 & E2); unfold bound; rewrite E1, E2, Hpl1; exact Hb).
  assert (forall i, 0 <= i < len -> reachable s1 die (phys + i)) as Hreach1 by (intros i Hi; apply (reachable_places s); [done|by apply Hreach]).
  destruct (IH (offset + n) (if id <? 0 then txid resp else id) (if decide (cmd = kRead) then got ++ payload resp else got) a1 s1) as
    (id' & s' & a' & E & Ha' & Hbd' & Hr' & Hpl' & Hid' & _ & Hfl'); try done; try lia.
  exists id', s', a'. split; [|split_and!]; try done.
  - rewrite E. do 4 f_equal. destruct (decide (cmd = kRead)) as [Hc|Hc]; [|done]. rewrite <- app_assoc. f_equal. rewrite Hpay, Hlen, Hload.
    replace (len - offset) with (n + (len - (offset + n))) by lia. rewrite seqZ_app by lia. rewrite fmap_app. f_equal.
    + apply list_eq. intros i. rewrite !list_lookup_fmap. destruct (decide (Z.of_nat i < n)) as [Hi|Hi].
      * rewrite !lookup_seqZ_lt by lia. cbn. do 2 f_equal. lia.
      * rewrite !lookup_seqZ_ge by lia. done.
    + apply list_fmap_ext. intros i j Hj. apply lookup_seqZ in Hj as [-> Hj]. rewrite Hflat by (apply Hreach; lia). by rewrite Hc.
  - destruct Hbd as (B1 & B2 & B3 & B4), Hbd' as (C1 & C2 & C3 & C4). unfold same_binding. by rewrite C1, C2, C3, C4.
  - congruence.
  - destruct Hid' as [->|?]; [|by right]. destruct (Z.ltb_spec id 0); [by right|by left].
  - intros _. destruct Hid' as [->|?]; [|done]. destruct (Z.ltb_spec id 0); lia.
  - intros x Hx. rewrite Hfl' by (by apply (reachable_places s)). rewrite <- (written_split cmd phys len offset n) by (done || lia || by apply Hdata).
    unfold written. rewrite Hflat by done. done.
Qed.

Lemma access_spec CORES_PER_DIE cmd phys len data enable a s : 0 < CORES_PER_DIE -> adapter_ok a -> bound a s -> t_ready s ->
  0 <= phys -> 0 < len -> phys + len <= UINT64_MAX -> (cmd = kWrite -> Z.of_nat (length data) = len /\ forall x, x ∈ data -> in_u 8 x) ->
  (enable = [] \/ Z.of_nat (length enable) = len) -> let die := core_id a / CORES_PER_DIE in (forall i, 0 <= i < len -> reachable s die (phys + i)) ->
  let enables := if decide (enable = []) then replicate (Z.to_nat len) 0xff else enable in
  exists resp s' a', Access t_call CORES_PER_DIE t p cmd phys len data enable a s = (a', Ok (resp, s')) /\
    adapter_ok a' /\ same_binding a a' /\ t_ready s' /\ t_places s' = t_places s /\
    resp = mkMem (txid resp) kMsgResponse (core_id a) (-1) (-1) (-1) 0 cmd (if decide (cmd = kRead) then len else 0) true 0
             (if decide (cmd = kRead) then (fun i => flat s die (phys + i)) <$> seqZ 0 len else []) enables /\ 0 <= txid resp /\
    (forall x, reachable s die x -> flat s' die x = written cmd phys len 0 data enables (flat s die) x).
Proof.
  intros Hcpd Ha Hb Hr Hphys Hlen Hend Hdata Hen die Hreach enables. unfold UINT64_MAX in Hend.
  assert (Z.of_nat (length enables) = len) as Hl.
  { unfold enables. destruct (decide (enable = [])) as [|Hn]; [rewrite length_replicate; lia|]. by destruct Hen. }
  destruct (loop_ok cmd phys len die data enables Hphys ltac:(unfold UINT64_MAX; lia) Hl) with (fuel := Z.to_nat len) (offset := 0) (id := -1) (got := @nil Z) (a := a) (s := s)
    as (id' & s' & a' & E & Ha' & Hbd & Hr' & Hpl & _ & Hid & Hfl); try done; try lia.
  { intros Hc. destruct (Hdata Hc) as [Hd1 Hd2]. split; [lia|done]. }
  unfold Access. destruct (Z.leb_spec len 0); [lia|]. destruct (Z.ltb_spec (UINT64_MAX - len) phys); [unfold UINT64_MAX in *; lia|].
  destruct (_ && _) eqn:E1.
  { apply andb_true_iff in E1 as [Hc%bool_decide_eq_true E1]. apply negb_true_iff, Z.eqb_neq in E1. by destruct (Hdata Hc). }
  destruct (negb (bool_decide (enable = [])) && _) eqn:E2.
  { apply andb_true_iff in E2 as [Hc E2]. apply negb_true_iff in Hc, E2. apply bool_decide_eq_false in Hc. apply Z.eqb_neq in E2. by destruct Hen. }
  cbv zeta. fold enables. destruct Ha as [A1 A2 A3 A4]. destruct (Z.leb_spec 0 (core_id a)); [|lia]. destruct (Z.ltb_spec 0 CORES_PER_DIE); [|lia]. cbn [andb].
  fold die. rewrite E. cbn [mbind result_bind app]. rewrite Z.sub_0_r. eexists _, s', a'. split; [reflexivity|]. cbn [txid]. split_and!; try done; [by destruct Hbd as (-> & _)|by apply Hid].
Qed.
End chunk.
