(* ===== verification/HbmCarriers.v ===== *)
(** The carriers of the requests of a core: the endpoints called directly, and the
    endpoints behind the network ([src/memory/core_mem_adapter.cpp],
    [src/memory/hbm_network.cpp]).  Both are instances of the interface of
    [HbmAccess], so an access is an access to one flat memory over either. *)

From S2P Require Import Prelude HbmAddressMap MsgWire D2DConfig DieTopology PortSelect HostAttach HbmMemWire Routing.
From S2P Require Import HbmNetwork HbmAssembly HbmEndpoint HbmAccess.

(** ** A request alone at its endpoint *)

(** [HandleRequest] from the call to its return, when nothing else is under way:
    the request is dispatched at once and completes when it is due. *)
Definition serve (p : unit_params) (now : Z) (m : MemMsg) (u : MemEndpointUnit) : result (MemMsg * Z * MemEndpointUnit) :=
  HandleRequest_begin p now m u ≫= fun '((ok, u) : bool * MemEndpointUnit) =>
  THROW logic_error "queue full" WHEN negb ok;;
  DispatchLoop p now u ≫= fun u : MemEndpointUnit =>
  match scheduled_ u with
  | [e] =>
      match CompletionLoop (pe_due e) u with
      | ([(_, resp)], u) => Ok (resp, pe_due e, u)
      | _ => Err (logic_error "not completed")
      end
  | _ => Err (logic_error "not dispatched")
  end.

Definition bytes_ok (b : gmap Z Z) : Prop := forall a x, b !! a = Some x -> in_u 8 x.
Record unit_idle (p : unit_params) (u : MemEndpointUnit) : Prop := {
  un_queue : queue_ u = []; un_scheduled : scheduled_ u = []; un_flight : in_flight_ u = 0;
  un_depth : 0 < queue_depth p; un_max : 0 < max_outstanding p; un_bytes : bytes_ok (backing (eu_backend u))
}.

Lemma store_bytes addr data en b : (forall x, x ∈ data -> in_u 8 x) -> bytes_ok b -> bytes_ok (store addr data en b).
Proof.
  intros Hd Hb. unfold store. assert (forall n, (n <= length data)%nat -> bytes_ok (foldl (store_byte addr data en) b (seq 0 n))) as H; [|by apply H].
  induction n as [|n IH]; intros Hn; [done|]. rewrite seq_S, foldl_snoc, Nat.add_0_l. unfold store_byte at 1. destruct (byte_enabled en n); [|apply IH; lia].
  intros a x [[_ <-]|[_ Hx]]%lookup_insert_Some; [|by eapply IH; [lia|]].
  apply Hd. apply list_elem_of_lookup. exists n. apply list_lookup_lookup_total_lt. lia.
Qed.

Lemma load_bytes addr n b x : bytes_ok b -> x ∈ load addr n b -> in_u 8 x.
Proof.
  intros Hb (i & -> & _)%list_elem_of_fmap. unfold load_byte. destruct (b !! _) as [y|] eqn:E; [by eapply Hb|]. cbn. unfold in_u. lia.
Qed.

Lemma serve_spec p now m u : unit_idle p u -> check_request p m = Ok tt -> (forall x, x ∈ payload m -> in_u 8 x) ->
  exists due e u', serve p now m u = Ok (response e, due, u') /\ unit_idle p u' /\ backing (eu_backend u') = apply_req (backing (eu_backend u)) m /\
    pe_req e = m /\ pe_status e = 0 /\ pe_payload e = data_of_req (backing (eu_backend u)) m.
Proof.
  intros [H1 H2 H3 H4 H5 H6] Hc Hby. unfold serve, HandleRequest_begin. rewrite Hc. cbn [mbind result_bind]. cbv zeta. rewrite H1. cbn [length].
  destruct (Z.leb_spec (queue_depth p) (Z.of_nat 0)); [lia|]. cbn [mbind result_bind negb]. rewrite throw_bind_false by done.
  unfold DispatchLoop. cbn [queue_ app dispatch_loop in_flight_]. rewrite H3. destruct (Z.ltb_spec 0 (max_outstanding p)); [|lia].
  unfold dispatch. cbn [pe_req pe_arrival eu_backend scheduled_ in_flight_ eu_stats]. destruct (submit_spec p now m (eu_backend u) Hc) as (sb & b & E & Hp & Hb).
  rewrite E. cbn [mbind result_bind]. rewrite H2. cbn [app dispatch_loop mbind result_bind scheduled_ pe_due].
  set (e := mkPending _ _ _ _ _ _ _). unfold CompletionLoop. cbn [scheduled_ queue_ in_flight_ eu_backend eu_stats].
  rewrite !filter_cons. rewrite decide_True by (unfold is_due; cbn; lia). rewrite decide_False by (intros Hn; apply Hn; unfold is_due; cbn; lia).
  change (base.filter (is_due (now + sb_delay sb)) (@nil PendingEntry)) with (@nil PendingEntry). cbn [fmap list_fmap].
  eexists _, e, _. split; [reflexivity|]. split; [|by split_and!]. split; cbn [queue_ scheduled_ in_flight_ eu_backend length]; try done.
  rewrite Hb. unfold apply_req. destruct (decide (command m = kWrite)); [by apply store_bytes|done].
Qed.

(** ** The endpoints of a core *)

(** The endpoints by stack and channel, with the time of the calls. *)
Record channels : Type := mkChannels { ch_now : Z; ch_units : gmap (Z * Z) (unit_params * MemEndpointUnit) }.
Definition serve_at (c : channels) (m : MemMsg) : result (MemMsg * channels) :=
  match ch_units c !! place_of m with
  | None => Err (runtime_error "CoreMemAdapter::Access: no MemEndpointUnit bound for decoded stack/channel")
  | Some (p, u) =>
      serve p (ch_now c) m u ≫= fun '((resp, due, u) : MemMsg * Z * MemEndpointUnit) =>
      Ok (resp, mkChannels due (<[place_of m := (p, u)]> (ch_units c)))
  end.
Definition channel_bytes (c : channels) (k : Z * Z) : gmap Z Z := match ch_units c !! k with Some (_, u) => backing (eu_backend u) | None => ∅ end.
Definition channels_ready (c : channels) : Prop := forall k p u, ch_units c !! k = Some (p, u) -> k = (eu_stack p, eu_channel p) /\ unit_idle p u.

Lemma received_request m : message_type m = kMsgRequest -> received m = mkMem (txid m) kMsgRequest (source_core m) (home_die m) (stack_id m) (channel_id m)
  (address m) (command m) (length_bytes m) true 0 (if carries_data m then payload m else []) (if carries_data m then enable_bytes m else []).
Proof. unfold received. by intros ->. Qed.
Lemma request_carries m : message_type m = kMsgRequest -> carries_data m = bool_decide (command m = kWrite).
Proof. unfold carries_data. by intros ->. Qed.

Lemma check_received p m : message_type m = kMsgRequest -> 0 <= txid m -> 0 < length_bytes m -> payload_fits m -> place_of m = (eu_stack p, eu_channel p) ->
  check_request p (received m) = Ok tt.
Proof.
  intros Ht Htx Hl [Hfit _] [= Hs Hc]. rewrite received_request by done. unfold check_request. cbn [message_type txid length_bytes stack_id channel_id command payload byte_enable].
  rewrite Hs, Hc, !Z.eqb_refl, (bool_decide_eq_true_2 (kMsgRequest = kMsgRequest)) by done. cbn [negb orb]. destruct (Z.ltb_spec (txid m) 0); [lia|]. destruct (Z.leb_spec (length_bytes m) 0); [lia|].
  rewrite throw_bind_false by done. rewrite request_carries in * by done. destruct (decide (command m = kWrite)) as [Hw|Hw].
  - rewrite (bool_decide_eq_true_2 (command m = kWrite)) in * by done. rewrite Hfit, Z.eqb_refl by done. cbn [negb andb]. rewrite throw_bind_false by done.
    unfold throw_if. assert (Z.of_nat (length (enable_bytes m)) = length_bytes m) as -> by (unfold enable_bytes; rewrite length_fmap, length_seqZ; lia).
    by rewrite Z.eqb_refl, andb_false_r.
  - rewrite (bool_decide_eq_false_2 (command m = kWrite)) by done. cbn [andb]. rewrite throw_bind_false by done. done.
Qed.

Lemma response_answer b m e : mem_valid m -> payload_fits m -> message_type m = kMsgRequest -> 0 < length_bytes m -> bytes_ok b ->
  pe_req e = received m -> pe_status e = 0 -> pe_payload e = data_of_req b (received m) ->
  answer_of m (response e) /\ response_matches m (received (response e)) = true /\
  payload (received (response e)) = if decide (command m = kRead) then load (address m) (Z.to_nat (length_bytes m)) b else [].
Proof.
  intros [V1 V2 V3 V4 V5 V6 V7 V8 V9 V10] Hfit Ht Hlen Hb Er Es Ep. rewrite received_request in Er, Ep by done.
  unfold data_of_req in Ep. cbn [command address length_bytes payload] in Ep.
  assert (response e = if decide (command m = kRead)
    then mkMem (txid m) kMsgResponse (source_core m) (home_die m) (stack_id m) (channel_id m) (address m) kRead (length_bytes m) true 0
           (load (address m) (Z.to_nat (length_bytes m)) b) (replicate (Z.to_nat (length_bytes m)) 0xff)
    else mkMem (txid m) kMsgResponse (source_core m) (home_die m) (stack_id m) (channel_id m) (address m) (command m) 0 true 0 [] []) as ->.
  { unfold response. rewrite Er, Es. cbn [command txid source_core home_die stack_id channel_id address length_bytes]. destruct (decide (command m = kRead)) as [Hc|Hc].
    - rewrite Hc in *. rewrite bool_decide_eq_true_2 by done. cbn [andb Z.eqb]. rewrite Ep. rewrite decide_False by done. f_equal.
      unfold load. by rewrite length_fmap, length_seq.
    - by rewrite bool_decide_eq_false_2 by done. }
  assert (Hll : Z.of_nat (length (load (address m) (Z.to_nat (length_bytes m)) b)) = length_bytes m) by (unfold load; rewrite length_fmap, length_seq; lia).
  destruct (decide (command m = kRead)) as [Hc|Hc]; (split; [split; [split| |done|done]|split]);
    try (cbn [txid source_core home_die stack_id channel_id address status length_bytes]; unfold in_u; lia || done).
  - intros x. by apply load_bytes.
  - right. cbn [byte_enable length_bytes]. rewrite length_replicate. lia.
  - unfold response_matches, received. cbn. by rewrite !Z.eqb_refl, Hc, bool_decide_eq_true_2.
  - intros x Hx. by apply elem_of_nil in Hx.
  - by left.
  - unfold response_matches, received. cbn. by rewrite !Z.eqb_refl, (bool_decide_eq_true_2 (command m = command m)) by done.
  - cbn. by destruct (bool_decide _ && _).
Qed.

Lemma serve_at_spec c m : channels_ready c -> place_of m ∈ dom (ch_units c) -> mem_valid m -> payload_fits m -> message_type m = kMsgRequest -> 0 < length_bytes m ->
  exists resp c', serve_at c (received m) = Ok (resp, c') /\ answer_of m resp /\ channels_ready c' /\ dom (ch_units c') = dom (ch_units c) /\
    response_matches m (received resp) = true /\
    payload (received resp) = (if decide (command m = kRead) then load (address m) (Z.to_nat (length_bytes m)) (channel_bytes c (place_of m)) else []) /\
    channel_bytes c' (place_of m) = apply_req (channel_bytes c (place_of m)) (received m) /\ (forall k, k <> place_of m -> channel_bytes c' k = channel_bytes c k).
Proof.
  intros Hr Hin Hv Hf Ht Hl. apply elem_of_dom in Hin as [[p u] Hu]. destruct (Hr _ _ _ Hu) as [Hk Hi].
  assert (place_of (received m) = place_of m) as Hpl by (by rewrite received_request).
  destruct (serve_spec p (ch_now c) (received m) u Hi) as (due & e & u' & E & Hi' & Hb & Eq & Es & Ep).
  - apply check_received; try done. apply Hv.
  - rewrite received_request by done. cbn [payload]. destruct (carries_data m); [apply Hv|]. intros x Hx. by apply elem_of_nil in Hx.
  - assert (channel_bytes c (place_of m) = backing (eu_backend u)) as Hcb by (unfold channel_bytes; by rewrite Hu).
    destruct (response_answer (backing (eu_backend u)) m e Hv Hf Ht Hl (un_bytes _ _ Hi) Eq Es Ep) as (Ha & Hm & Hp).
    exists (response e), (mkChannels due (<[place_of m := (p, u')]> (ch_units c))). unfold serve_at. rewrite Hpl, Hu, E. cbn [mbind result_bind ch_units].
    rewrite Hcb. split_and!; try done.
    + intros k p' u1 Hku. cbn [ch_units] in Hku. apply lookup_insert_Some in Hku as [[<- [= <- <-]]|[_ H]]; [by split|by apply Hr].
    + cbn [ch_units]. rewrite dom_insert_L. apply subseteq_union_1_L. apply singleton_subseteq_l, elem_of_dom. by eexists.
    + unfold channel_bytes at 1. cbn [ch_units]. by rewrite lookup_insert_eq.
    + intros k Hne. unfold channel_bytes. cbn [ch_units]. by rewrite lookup_insert_ne.
Qed.

(** The endpoints called directly. *)
#[export] Instance direct_transport : Transport channels :=
  {| t_call := direct serve_at; t_places c := dom (ch_units c); t_bytes := channel_bytes; t_ready := channels_ready |}.
#[export] Instance direct_transport_ok : TransportOk channels.
Proof.
  intros c m Hr Hin Hv Hf Ht Hl. destruct (serve_at_spec c m Hr Hin Hv Hf Ht Hl) as (resp & c' & E & Ha & H). exists (received resp), c'.
  split; [by apply (direct_spec serve_at c m resp c')|exact H].
Qed.

(** ** The endpoints behind the network *)

Record mem_fabric : Type := mkFabric { fb_channels : channels; fb_net : HBMNetwork }.

Section network.
Context `{Geometry} (t : hbm_tables) (there back : list Z -> list Z).

Definition network_call (f : mem_fabric) (m : MemMsg) : result (MemMsg * mem_fabric) :=
  AttachmentRouter t (stack_id m) (channel_id m) ≫= fun mem_tile : Z =>
  exchange t serve_at there back mem_tile (fb_channels f) (fb_net f) m ≫= fun '((resp, c, n) : MemMsg * channels * HBMNetwork) =>
  Ok (resp, mkFabric c n).

(** Every endpoint is attached and idle, and no transaction is under way. *)
Record fabric_ready (f : mem_fabric) : Prop := {
  fr_channels : channels_ready (fb_channels f); fr_depth : 0 < net_depth (fb_net f);
  fr_waiters : waiters (fb_net f) = ∅; fr_assemblies : response_assemblies (fb_net f) = ∅;
  fr_attached : forall k, k ∈ dom (ch_units (fb_channels f)) -> is_ok (AttachmentRouter t k.1 k.2) = true /\
    exists ep, endpoints (fb_net f) !! k = Some ep /\ ep_completed ep = [] /\ ep_partial ep = ∅
}.

#[export] Instance network_transport : Transport mem_fabric :=
  {| t_call := network_call; t_places f := dom (ch_units (fb_channels f)); t_bytes f := channel_bytes (fb_channels f); t_ready := fabric_ready |}.

Context (Hthere : forall l, there l ≡ₚ l) (Hback : forall l, back l ≡ₚ l).

#[export] Instance network_transport_ok : TransportOk mem_fabric.
Proof using Hthere Hback.
  intros [c n] m [Hr Hd Hw Ha Hat] Hin Hv Hf Ht Hl. cbn in Hr, Hd, Hw, Ha, Hat, Hin.
  destruct (serve_at_spec c m Hr Hin Hv Hf Ht Hl) as (resp & c' & E & Han & Hr' & Hdom & H1).
  destruct (Hat _ Hin) as (Hok & ep & He & Hc & Hp). apply is_ok_true in Hok as [tile Et].
  destruct (exchange_spec t serve_at there back tile c n m ep resp c' Hv Hf Ht Hthere Hback Et) as (st & Ex); [|done|done|].
  { split; try done; [rewrite Hp|rewrite Hw|rewrite Ha]; apply lookup_empty. }
  exists (received resp), (mkFabric c' (set_stats st n)). split; [|split; [|split; [exact Hdom|exact H1]]].
  - cbn [t_call network_transport]. unfold network_call. cbn [place_of fst snd] in Et. rewrite Et. cbn [mbind result_bind fb_channels fb_net]. by rewrite Ex.
  - split; cbn [fb_channels fb_net set_stats net_depth waiters response_assemblies endpoints]; try done. intros k Hk. apply Hat. by rewrite <- Hdom.
Qed.
End network.

(** ** One flat memory *)

(** C8: what a core sees is one flat memory.  An access of any length at any reachable
    range, split into chunks by the address map, carried as flits and served by the
    endpoints of several channels, succeeds on a ready carrier: a read gets the bytes of
    its range in order, a write changes exactly the enabled bytes of its range, and no
    byte anywhere else, in any channel, changes.  The carrier is ready for the next
    access and no transaction id stays taken.  The endpoints called directly are
    such a carrier, and so are those behind the network, whatever the orders of
    the flits on the way. *)
Theorem access_flat_memory {T : Type} `{TransportOk T} (t : hbm_tables) (p : AddressPolicyConfig) (CORES_PER_DIE : Z) (cmd : MemCommand) (phys len : Z)
    (data enable : list Z) (a : CoreMemAdapter) (s : T) :
  tables_wf t -> policy_typed p -> ValidateAddressPolicy t p = Ok tt -> 0 < CORES_PER_DIE -> adapter_ok a -> bound a s -> t_ready s ->
  0 <= phys -> 0 < len -> phys + len <= UINT64_MAX -> (cmd = kWrite -> Z.of_nat (length data) = len /\ forall x, x ∈ data -> in_u 8 x) ->
  (enable = [] \/ Z.of_nat (length enable) = len) -> let die := core_id a / CORES_PER_DIE in (forall i, 0 <= i < len -> reachable t p s die (phys + i)) ->
  let enables := if decide (enable = []) then replicate (Z.to_nat len) 0xff else enable in
  exists resp s' a', Access t_call CORES_PER_DIE t p cmd phys len data enable a s = (a', Ok (resp, s')) /\
    payload resp = (if decide (cmd = kRead) then (fun i => flat t p s die (phys + i)) <$> seqZ 0 len else []) /\
    (forall x, reachable t p s die x -> flat t p s' die x = written cmd phys len 0 data enables (flat t p s die) x) /\
    adapter_ok a' /\ same_binding a a' /\ t_ready s' /\ t_places s' = t_places s /\ 0 <= txid resp /\ message_type resp = kMsgResponse /\ status resp = 0.
Proof.
  intros H1 H2 H3 H4 H5 H6 H7 H8 H9 H10 H11 H12 die H13 enables.
  destruct (access_spec t p H1 H2 H3 CORES_PER_DIE cmd phys len data enable a s H4 H5 H6 H7 H8 H9 H10 H11 H12 H13) as
    (resp & s' & a' & E & Ha & Hb & Hr & Hpl & Hresp & Hid & Hfl).
  exists resp, s', a'. split_and!; try done; by rewrite Hresp.
Qed.

(** *** A masked write over two channels, carried by the network *)

Definition demo_unit (k : Z * Z) : unit_params * MemEndpointUnit :=
  (mkUnitParams k.1 k.2 4 2 (mkBackendCfg (fun n => n * 1000) 500 0 0), mkUnit [] [] 0 new_backend (mkEpStats 0 0 0 0 0 0)).
Definition demo_places : list (Z * Z) := [(0, 0); (0, 1); (1, 0); (1, 1)].
Definition demo_fabric : mem_fabric :=
  mkFabric (mkChannels 0 (list_to_map ((fun k => (k, demo_unit k)) <$> demo_places)))
    (mkNet 2 ∅ ∅ (list_to_map ((fun k => (k, new_endpoint)) <$> demo_places)) no_net_stats).
Definition demo_adapter : CoreMemAdapter := mkAdapter 3 64 0 (-1) ∅ ∅ true.
Definition reachable_dec (f : mem_fabric) (die a : Z) : bool :=
  bool_decide (0 <= a < 2 ^ 64) && match DecodeAddress ex_numa (ex_policy kNumaLocalInterleave) a die with
  | Ok r => bool_decide (place_r r ∈ dom (ch_units (fb_channels f))) && bool_decide (0 <= HbmAddressMap.home_die r <= 0xfff) &&
            bool_decide (0 <= HbmAddressMap.stack_id r <= 0xfff) && bool_decide (0 <= HbmAddressMap.channel_id r <= 0xfff)
  | Err _ => false
  end.
Definition demo_write_access : CoreMemAdapter * result (MemMsg * mem_fabric) :=
  @Access mem_fabric (@network_call demo_geometry ex_numa (@List.rev Z) id) 16 ex_numa (ex_policy kNumaLocalInterleave) kWrite 125 6 [1; 2; 3; 4; 5; 6]
    [1; 1; 0; 1; 1; 1] demo_adapter demo_fabric.

Lemma reachable_dec_ok f die a : reachable_dec f die a = true ->
  @reachable mem_fabric (@network_transport demo_geometry ex_numa (@List.rev Z) id) ex_numa (ex_policy kNumaLocalInterleave) f die a.
Proof.
  unfold reachable_dec, reachable. intros [H1 H2]%andb_true_iff. apply bool_decide_eq_true in H1. split; [exact H1|].
  destruct (DecodeAddress _ _ _ _) as [r|]; [|done]. exists r. split; [done|].
  apply andb_true_iff in H2 as [H2 H5%bool_decide_eq_true]. apply andb_true_iff in H2 as [H2 H4%bool_decide_eq_true].
  apply andb_true_iff in H2 as [H2%bool_decide_eq_true H3%bool_decide_eq_true]. by split_and!.
Qed.

Lemma demo_fabric_ready : @fabric_ready demo_geometry ex_numa demo_fabric.
Proof.
  split; [|done..|].
  - intros k p u Hu. apply elem_of_list_to_map_2 in Hu. cbn in Hu.
    repeat (apply elem_of_cons in Hu as [[= -> -> ->]|Hu]; [split; [done|by split]|]). by apply elem_of_nil in Hu.
  - intros k Hk. change (dom (ch_units (fb_channels demo_fabric))) with (dom (list_to_map ((fun k => (k, demo_unit k)) <$> demo_places) : gmap (Z * Z) _)) in Hk.
    rewrite dom_list_to_map_L in Hk. cbn in Hk.
    assert (k ∈ demo_places) as Hk' by (unfold demo_places; set_solver). clear Hk. unfold demo_places in Hk'.
    repeat (apply elem_of_cons in Hk' as [->|Hk']; [split; [vm_compute; reflexivity|by exists new_endpoint]|]). by apply elem_of_nil in Hk'.
Qed.

Lemma access_flat_memory_witness : exists resp s' a', demo_write_access = (a', Ok (resp, s')) /\
  (fun x => @flat mem_fabric (@network_transport demo_geometry ex_numa (@List.rev Z) id) ex_numa (ex_policy kNumaLocalInterleave) s' 0 x) <$> [124; 125; 126; 127; 128; 130; 131]
    = [0; 1; 2; 0; 4; 6; 0].
Proof.
  set (T := @network_transport demo_geometry ex_numa (@List.rev Z) id).
  destruct (@access_flat_memory mem_fabric T (@network_transport_ok demo_geometry ex_numa (@List.rev Z) id (fun l => symmetry (Permutation_rev l)) (fun l => reflexivity l))
    ex_numa (ex_policy kNumaLocalInterleave) 16 kWrite 125 6 [1; 2; 3; 4; 5; 6] [1; 1; 0; 1; 1; 1] demo_adapter demo_fabric)
    as (resp & s' & a' & E & _ & Hf & _).
  - apply (bool_decide_unpack _). vm_compute. done.
  - apply (bool_decide_unpack _). vm_compute. done.
  - vm_compute. reflexivity.
  - lia.
  - by split; cbn; try lia.
  - by left.
  - exact demo_fabric_ready.
  - lia.
  - lia.
  - unfold UINT64_MAX. lia.
  - intros _. split; [reflexivity|]. intros x Hx. unfold in_u. repeat (apply elem_of_cons in Hx as [->|Hx]; [lia|]). by apply elem_of_nil in Hx.
  - by right.
  - intros i Hi. apply reachable_dec_ok. assert (i = 0 \/ i = 1 \/ i = 2 \/ i = 3 \/ i = 4 \/ i = 5) as Hc by lia.
    destruct Hc as [->|[->|[->|[->|[->| ->]]]]]; vm_compute; reflexivity.
  - exists resp, s', a'. split; [exact E|]. cbn [fmap list_fmap].
    rewrite !Hf by (apply reachable_dec_ok; vm_compute; reflexivity). vm_compute. reflexivity.
Defined.
