(* ===== verification/SramManager.v ===== *)
(** The block allocator of the scratchpad of a core
    ([include/unit_module/sram_manager/sram_manager.cpp]).  An allocation is a list
    of blocks of [block_size_] bytes; the code seems to look for contiguous runs,
    but what it takes are the lowest free blocks, and the callers walk an allocation
    with [get_address_with_offset], so that an allocation is a range of virtual
    addresses.  A failed [assert] and [exit] are errors of their own; output is left out. *)

From S2P Require Import Prelude.

Definition assertion (what : string) : exn := logic_error (String.append "assert: " what).

(** ** The state *)

Record SramManager : Type := mkSram {
  sram_start_address_ : Z; total_sram_size_ : Z; block_size_ : Z; num_blocks_ : Z;
  block_status_ : list bool; allocations_ : gmap Z (list Z); free_block_indices_ : list Z; next_allocation_id_ : Z
}.
Definition set_blocks (status : list bool) (allocs : gmap Z (list Z)) (free : list Z) (next : Z) (m : SramManager) : SramManager :=
  mkSram (sram_start_address_ m) (total_sram_size_ m) (block_size_ m) (num_blocks_ m) status allocs free next.

Definition new_sram (start total bs nb : Z) : result SramManager :=
  THROW invalid_argument "Block size cannot be zero." WHEN bs =? 0;;
  if total =? 0 then Ok (mkSram start total bs 0 [] ∅ [] 1) else
  let n := Z.quot total bs in
  THROW assertion "num_blocks_ must not be negative" WHEN n <? 0;;
  Ok (mkSram start total bs n (replicate (Z.to_nat n) false) ∅ (seqZ 0 n) 1).

(** An [AllocationID] is a [float]: whole numbers, up to the one at which adding one changes nothing. *)
Definition float_limit : Z := 2 ^ 24.
Definition float_inc (id : Z) : Z := if id <? float_limit then id + 1 else id.

(** ** Allocation *)

(** The inner loop: free blocks that follow [first], while fewer than [wanted]; and the rest of the list. *)
Fixpoint contiguous (first k wanted : Z) (it : list Z) : list Z * list Z :=
  match it with
  | b :: rest => if (k <? wanted) && (b =? first + k) then let '(run, rest') := contiguous first (k + 1) wanted rest in (b :: run, rest') else ([], it)
  | [] => ([], [])
  end.

(** The search over the free list; fuel for one turn per free block. *)
Fixpoint search (fuel : nat) (needed : Z) (potential : list Z) (tmp : Z) (it : list Z) : result (list Z) :=
  match it, fuel with
  | [], _ => Err (assertion "No suitable contiguous block sequence found")
  | _, O => Err (logic_error "fuel")
  | first :: rest, S fuel =>
      let '(run, rest) := contiguous first 1 tmp rest in
      let potential := potential ++ first :: run in
      if Z.of_nat (length potential) =? needed then Ok potential else search fuel needed potential (i32 (tmp - Z.of_nat (length potential))) rest
  end.

Definition blocks_needed (m : SramManager) (requested_size : Z) : Z := Z.quot (i32 (requested_size + block_size_ m - 1)) (block_size_ m).
Definition mark_used (m : SramManager) (status : list bool) (b : Z) : result (list bool) :=
  THROW assertion "Trying to mark out-of-bounds block" WHEN negb (b <? num_blocks_ m);;
  Ok (<[Z.to_nat b := true]> status).

(** What [allocate] and [allocate_append] share: the blocks, the statuses and the free list after it. *)
Definition take_blocks (m : SramManager) (requested_size : Z) : result (list Z * list bool * list Z) :=
  THROW assertion "requested_size is zero." WHEN requested_size =? 0;;
  THROW assertion "num_blocks_ is zero" WHEN num_blocks_ m =? 0;;
  let needed := blocks_needed m requested_size in
  THROW assertion "blocks_needed is zero" WHEN needed =? 0;;
  THROW assertion "blocks_needed exceeds total available blocks" WHEN num_blocks_ m <? needed;;
  THROW assertion "not enough free blocks available" WHEN Z.of_nat (length (free_block_indices_ m)) <? u64 needed;;
  search (length (free_block_indices_ m)) needed [] needed (free_block_indices_ m) ≫= fun potential : list Z =>
  foldM (mark_used m) (block_status_ m) potential ≫= fun status : list bool =>
  Ok (potential, status, foldl (fun free b => base.filter (fun x => x <> b) free) (free_block_indices_ m) potential).

Definition allocate (requested_size : Z) (m : SramManager) : result (Z * SramManager) :=
  take_blocks m requested_size ≫= fun '((potential, status, free) : list Z * list bool * list Z) =>
  let id := next_allocation_id_ m in
  Ok (id, set_blocks status (<[id := potential]> (allocations_ m)) free (float_inc id) m).

Definition allocate_append (requested_size id : Z) (m : SramManager) : result (Z * SramManager) :=
  take_blocks m requested_size ≫= fun '((potential, status, free) : list Z * list bool * list Z) =>
  Ok (id, set_blocks status (<[id := default [] (allocations_ m !! id) ++ potential]> (allocations_ m)) free (next_allocation_id_ m) m).

(** ** Deallocation *)

Definition free_block (m : SramManager) (s : list bool * list Z) (b : Z) : result (list bool * list Z) :=
  THROW assertion "Trying to free invalid block index" WHEN negb ((0 <=? b) && (b <? num_blocks_ m));;
  THROW assertion "block was already free." WHEN negb (default false (s.1 !! Z.to_nat b));;
  Ok (<[Z.to_nat b := false]> s.1, s.2 ++ [b]).

Definition deallocate (id : Z) (m : SramManager) : result (bool * SramManager) :=
  if id =? 0 then Ok (false, m) else
  match allocations_ m !! id with
  | None => Err (logic_error "exit: Allocation ID not found!")
  | Some blocks =>
      foldM (free_block m) (block_status_ m, free_block_indices_ m) blocks ≫= fun '((status, free) : list bool * list Z) =>
      Ok (true, set_blocks status (delete id (allocations_ m)) (merge_sort Z.le free) (next_allocation_id_ m) m)
  end.

(** ** Addresses *)

Definition SRAM_BITWIDTH : Z := 128.
Definition get_address (id : Z) (m : SramManager) : Z :=
  match allocations_ m !! id with
  | Some (b :: _) => if block_size_ m =? 0 then 0 else i32 (sram_start_address_ m + b * block_size_ m)
  | _ => 0
  end.
Definition get_address_index (id : Z) (m : SramManager) : Z :=
  match allocations_ m !! id with
  | Some (b :: _) => if block_size_ m =? 0 then 0 else Z.quot (i32 ((sram_start_address_ m + b * block_size_ m) * 8)) SRAM_BITWIDTH
  | _ => 0
  end.
Definition get_allocation_byte_capacity (id : Z) (m : SramManager) : result Z :=
  match allocations_ m !! id with
  | None => Err (assertion "Allocation ID not found")
  | Some [] => Err (assertion "Allocation is empty")
  | Some blocks => THROW assertion "Block size is zero." WHEN block_size_ m =? 0;; Ok (i32 (Z.of_nat (length blocks) * block_size_ m))
  end.
Definition get_free_blocks_count (m : SramManager) : Z := Z.of_nat (length (free_block_indices_ m)).
Definition get_used_blocks_count (m : SramManager) : Z :=
  if num_blocks_ m =? 0 then 0 else num_blocks_ m - Z.of_nat (length (free_block_indices_ m)).

(** [uintptr_t block_base]. *)
Definition block_base (m : SramManager) (b : Z) : Z := u64 (i32 (sram_start_address_ m + b * block_size_ m)).
Fixpoint find_block (m : SramManager) (current : Z) (blocks : list Z) : result (list Z) :=
  match blocks with
  | [] => Err (assertion "Current address not within allocation range.")
  | b :: rest =>
      if (block_base m b <=? u64 current) && (u64 current <? u64 (block_base m b + block_size_ m)) then Ok blocks else find_block m current rest
  end.
(** The walk over the blocks; [inside] in the block of the current address, at the start of its block after it. *)
Fixpoint walk (m : SramManager) (inside : bool) (current remaining : Z) (blocks : list Z) : result Z :=
  match blocks with
  | [] => Err (assertion "Offset exceeds allocation size!")
  | b :: rest =>
      let base := block_base m b in
      let left := if inside then i32 (block_size_ m - (u64 current - base)) else block_size_ m in
      let current := if inside then current else i32 base in
      if remaining <? left then Ok (i32 (base + (u64 current - base) + remaining))
      else if remaining =? left then match rest with [] => Err (assertion "i + 1 < block_indices.size()") | b :: _ => Ok (i32 (block_base m b)) end
      else walk m false current (remaining - left) rest
  end.
Definition get_address_with_offset (id current offset_bytes : Z) (m : SramManager) : result Z :=
  match allocations_ m !! id with
  | None | Some [] => Err (assertion "Invalid AllocationID or empty allocation.")
  | Some blocks =>
      THROW assertion "Block size is zero." WHEN block_size_ m =? 0;;
      find_block m current blocks ≫= fun suffix : list Z => walk m true current offset_bytes suffix
  end.

(** ** The search takes the lowest free blocks *)

Lemma contiguous_split first k wanted it : let '(run, rest) := contiguous first k wanted it in
  it = run ++ rest /\ (run <> [] -> k + Z.of_nat (length run) <= wanted).
Proof.
  revert k. induction it as [|b it IH]; intros k; cbn [contiguous]; [done|].
  destruct ((k <? wanted) && (b =? first + k)) eqn:E; [|done]. apply andb_true_iff in E as [Hk%Z.ltb_lt _].
  specialize (IH (k + 1)). destruct (contiguous first (k + 1) wanted it) as [run rest]. destruct IH as [-> IH]. split; [done|]. intros _.
  cbn [length]. destruct run as [|x run]; [cbn; lia|]. specialize (IH ltac:(done)). lia.
Qed.

Lemma search_takes fuel needed potential tmp it : let p := Z.of_nat (length potential) in let n := Z.of_nat (length it) in
  p < needed <= p + n -> p + n < 2 ^ 16 -> (length it <= fuel)%nat -> tmp <= needed - p -> 2 * (needed - tmp) <= p * (p + 1) ->
  search fuel needed potential tmp it = Ok (potential ++ take (Z.to_nat (needed - p)) it).
Proof.
  revert potential tmp it. induction fuel as [|fuel IH]; intros potential tmp it p n Hn Hb Hf Ht Hl; (destruct it as [|first it]; [cbn in *; lia|]); [cbn in Hf; lia|].
  cbn [search]. pose proof (contiguous_split first 1 tmp it) as Hc. destruct (contiguous first 1 tmp it) as [run rest]. destruct Hc as [-> Hrun].
  set (potential' := potential ++ first :: run). assert (Z.of_nat (length potential') = p + 1 + Z.of_nat (length run)) as Hp' by (unfold potential', p; rewrite length_app; cbn; lia).
  assert (n = 1 + Z.of_nat (length run) + Z.of_nat (length rest)) as Hn' by (unfold n; cbn; rewrite length_app; lia).
  assert (Z.of_nat (length potential') <= needed) as Hle by (destruct run as [|x run]; [cbn in Hp'; lia|specialize (Hrun ltac:(done)); lia]).
  assert (potential ++ first :: run ++ rest = potential' ++ rest) as Happ by (unfold potential'; by rewrite <- app_assoc).
  destruct (Z.eqb_spec (Z.of_nat (length potential')) needed) as [He|He].
  - f_equal. unfold potential'. f_equal. replace (Z.to_nat (needed - p)) with (length (first :: run)) by (cbn [length]; lia).
    change (first :: run ++ rest) with ((first :: run) ++ rest). by rewrite take_app_length.
  - assert (0 <= p) as Hp0 by (unfold p; lia). rewrite swrap_small by nia. rewrite IH.
    + f_equal. unfold potential'. rewrite <- app_assoc. f_equal. replace (Z.to_nat (needed - p)) with (length (first :: run) + Z.to_nat (needed - Z.of_nat (length potential')))%nat by (cbn [length]; lia).
      change (first :: run ++ rest) with ((first :: run) ++ rest). rewrite take_app_add. done.
    + lia.
    + lia.
    + cbn [length] in Hf. rewrite length_app in Hf. lia.
    + lia.
    + nia.
Qed.

Lemma filter_keeps (P : Z -> Prop) `{!forall x, Decision (P x)} (l : list Z) : (forall x, x ∈ l -> P x) -> base.filter P l = l.
Proof.
  induction l as [|x l IH]; intros HP; [done|]. rewrite filter_cons_True by (apply HP; left). f_equal. apply IH. intros y Hy. apply HP. by right.
Qed.

Lemma remove_prefix (p q : list Z) : NoDup (p ++ q) -> foldl (fun free b => base.filter (fun x => x <> b) free) (p ++ q) p = q.
Proof.
  revert q. induction p as [|b p IH]; intros q Hn; [done|]. cbn [foldl app]. apply list.NoDup_cons in Hn as [Hb Hn].
  rewrite filter_cons_False by (intros H; by apply H). rewrite filter_keeps; [by apply IH|]. by intros x Hx ->.
Qed.

Lemma marked m bs status : (forall b, b ∈ bs -> 0 <= b < num_blocks_ m) -> length status = Z.to_nat (num_blocks_ m) ->
  exists status', foldM (mark_used m) status bs = Ok status' /\ length status' = length status /\
    forall b, 0 <= b < num_blocks_ m -> status' !! Z.to_nat b = if decide (b ∈ bs) then Some true else status !! Z.to_nat b.
Proof.
  revert status. induction bs as [|x bs IH]; intros status Hr Hl; cbn [foldM].
  - exists status. split; [done|]. split; [done|]. intros b _. rewrite decide_False; [done|]. apply not_elem_of_nil.
  - assert (0 <= x < num_blocks_ m) as Hx by (apply Hr; left). unfold mark_used at 1. rewrite throw_bind_false by (apply negb_false_iff, Z.ltb_lt; lia).
    destruct (IH (<[Z.to_nat x:=true]> status)) as (status' & E & Hl' & Hs); [by intros b Hb; apply Hr; right|by rewrite length_insert|].
    exists status'. split; [done|]. split; [by rewrite Hl', length_insert|]. intros b Hb. rewrite Hs by done. destruct (decide (b ∈ bs)) as [Hi|Hi].
    + by rewrite decide_True by (by right).
    + destruct (decide (b = x)) as [->|Hne].
      * rewrite list_lookup_insert_eq by lia. by rewrite decide_True by left.
      * rewrite list_lookup_insert_ne by lia. rewrite decide_False; [done|]. intros [?|?]%elem_of_cons; done.
Qed.

Lemma freed m bs status free : (forall b, b ∈ bs -> 0 <= b < num_blocks_ m) -> length status = Z.to_nat (num_blocks_ m) -> NoDup bs ->
  (forall b, b ∈ bs -> status !! Z.to_nat b = Some true) ->
  exists status', foldM (free_block m) (status, free) bs = Ok (status', free ++ bs) /\ length status' = length status /\
    forall b, 0 <= b < num_blocks_ m -> status' !! Z.to_nat b = if decide (b ∈ bs) then Some false else status !! Z.to_nat b.
Proof.
  revert status free. induction bs as [|x bs IH]; intros status free Hr Hl Hn Hu; cbn [foldM].
  - exists status. rewrite app_nil_r. split; [done|]. split; [done|]. intros b _. rewrite decide_False; [done|]. apply not_elem_of_nil.
  - apply list.NoDup_cons in Hn as [Hx Hn]. assert (0 <= x < num_blocks_ m) as Hxr by (apply Hr; left).
    unfold free_block at 1. rewrite throw_bind_false by (apply negb_false_iff, andb_true_iff; split; [apply Z.leb_le|apply Z.ltb_lt]; lia).
    rewrite throw_bind_false by (cbn [fst]; by rewrite Hu by left). cbn [fst snd].
    destruct (IH (<[Z.to_nat x:=false]> status) (free ++ [x])) as (status' & E & Hl' & Hs); try done.
    { intros b Hb. apply Hr. by right. }
    { by rewrite length_insert. }
    { intros b Hb. rewrite list_lookup_insert_ne; [by apply Hu; right|]. assert (0 <= b < num_blocks_ m) by (apply Hr; by right). intros He.
      assert (b = x) as -> by lia. done. }
    exists status'. rewrite E, <- app_assoc. split; [done|]. split; [by rewrite Hl', length_insert|]. intros b Hb. rewrite Hs by done. destruct (decide (b ∈ bs)) as [Hi|Hi].
    + by rewrite decide_True by (by right).
    + destruct (decide (b = x)) as [->|Hne].
      * rewrite list_lookup_insert_eq by lia. by rewrite decide_True by left.
      * rewrite list_lookup_insert_ne by lia. rewrite decide_False; [done|]. intros [?|?]%elem_of_cons; done.
Qed.

(** ** The invariant *)

Definition held (m : SramManager) : list Z := concat (map_to_list (allocations_ m)).*2.
Record sram_wf (m : SramManager) : Prop := {
  sw_size : 0 < block_size_ m; sw_start : 0 <= sram_start_address_ m; sw_blocks : 0 <= num_blocks_ m < 2 ^ 16;
  sw_end : sram_start_address_ m + num_blocks_ m * block_size_ m <= INT_MAX;
  sw_length : length (block_status_ m) = Z.to_nat (num_blocks_ m);
  sw_sorted : StronglySorted Z.le (free_block_indices_ m);
  sw_partition : free_block_indices_ m ++ held m ≡ₚ seqZ 0 (num_blocks_ m);
  sw_status : forall b, 0 <= b < num_blocks_ m -> block_status_ m !! Z.to_nat b = Some (bool_decide (b ∉ free_block_indices_ m));
  sw_ids : forall id bs, allocations_ m !! id = Some bs -> 1 <= id < next_allocation_id_ m /\ bs <> [];
  sw_next : 1 <= next_allocation_id_ m <= float_limit
}.

Section wf.
Context (m : SramManager) (Hm : sram_wf m).

Lemma wf_nodup : NoDup (free_block_indices_ m ++ held m).
Proof using Hm. rewrite (sw_partition m Hm). apply NoDup_seqZ. Qed.
Lemma wf_range b : b ∈ free_block_indices_ m ++ held m <-> 0 <= b < num_blocks_ m.
Proof using Hm. rewrite (sw_partition m Hm), elem_of_seqZ. lia. Qed.
Lemma wf_count : Z.of_nat (length (free_block_indices_ m)) + Z.of_nat (length (held m)) = num_blocks_ m.
Proof using Hm.
  pose proof (Permutation_length (sw_partition m Hm)) as Hl. rewrite length_app, length_seqZ in Hl. pose proof (sw_blocks m Hm). lia.
Qed.
Lemma held_elem b : b ∈ held m <-> exists id bs, allocations_ m !! id = Some bs /\ b ∈ bs.
Proof using.
  unfold held. rewrite list_elem_of_In, in_concat. split.
  - intros (bs & Hbs & Hb). apply list_elem_of_In in Hb, Hbs. apply list_elem_of_fmap in Hbs as ([id bs'] & -> & Hin).
    exists id, bs'. split; [by apply elem_of_map_to_list|done].
  - intros (id & bs & Hid & Hb). exists bs. rewrite <- !list_elem_of_In. split; [|done]. apply list_elem_of_fmap. exists (id, bs). split; [done|]. by apply elem_of_map_to_list.
Qed.
Lemma wf_used b : b ∈ held m -> block_status_ m !! Z.to_nat b = Some true.
Proof using Hm.
  intros Hb. rewrite (sw_status m Hm) by (apply wf_range, elem_of_app; by right). rewrite bool_decide_eq_true_2; [done|].
  intros Hf. pose proof wf_nodup as Hn. apply list.NoDup_app in Hn as (_ & Hd & _). by apply (Hd b).
Qed.

(** The blocks of one allocation, and of the others. *)
Lemma held_split id bs : allocations_ m !! id = Some bs -> held m ≡ₚ bs ++ concat (map_to_list (delete id (allocations_ m))).*2.
Proof using.
  intros Hid. unfold held. rewrite <- (insert_delete_id (allocations_ m) id bs Hid) at 1. by rewrite map_to_list_insert by apply lookup_delete_eq.
Qed.
End wf.

(** ** The operations *)

Definition blocks_for (m : SramManager) (requested_size : Z) : Z := ceil_div requested_size (block_size_ m).

Section ops.
Context (m : SramManager) (Hm : sram_wf m) (requested_size : Z) (Hreq : 0 < requested_size) (Hmax : requested_size + block_size_ m - 1 <= INT_MAX).

Lemma needed_spec : blocks_needed m requested_size = blocks_for m requested_size /\ 0 < blocks_for m requested_size.
Proof using Hm Hreq Hmax.
  pose proof (sw_size m Hm). unfold blocks_needed, blocks_for, INT_MAX in *. rewrite swrap_small by lia. rewrite Z.quot_div_nonneg by lia.
  rewrite ceil_div_alt by lia. split; [done|]. by apply ceil_div_pos.
Qed.

Lemma take_enough : blocks_for m requested_size <= Z.of_nat (length (free_block_indices_ m)) ->
  let k := Z.to_nat (blocks_for m requested_size) in exists status,
  take_blocks m requested_size = Ok (take k (free_block_indices_ m), status, drop k (free_block_indices_ m)) /\ length status = Z.to_nat (num_blocks_ m) /\
  (forall b, 0 <= b < num_blocks_ m -> status !! Z.to_nat b = Some (bool_decide (b ∉ drop k (free_block_indices_ m)))).
Proof using Hm Hreq Hmax.
  intros Hk k. destruct needed_spec as [En Hpos]. pose proof (wf_count m Hm) as Hc. pose proof (sw_blocks m Hm) as Hb.
  unfold take_blocks. rewrite throw_bind_false by lia. rewrite throw_bind_false by lia. cbv zeta. rewrite En.
  rewrite throw_bind_false by lia. rewrite throw_bind_false by lia. rewrite throw_bind_false by (rewrite wrap_small by (unfold in_u; lia); lia).
  rewrite search_takes by (cbn; lia). cbn [mbind result_bind app]. rewrite Z.sub_0_r. fold k. set (p := take k (free_block_indices_ m)). set (q := drop k (free_block_indices_ m)).
  assert (free_block_indices_ m = p ++ q) as Ef by (symmetry; apply take_drop).
  pose proof (wf_nodup m Hm) as Hn. rewrite Ef in Hn. apply list.NoDup_app in Hn as (Hn & _ & _).
  destruct (marked m p (block_status_ m)) as (status & E & Hl & Hs); [intros b Hpb; apply (wf_range m Hm); rewrite Ef; set_solver|apply Hm|].
  exists status. rewrite E. cbn [mbind result_bind]. split; [|split; [by rewrite Hl, (sw_length m Hm)|]].
  - do 2 f_equal. rewrite Ef. by apply remove_prefix.
  - intros b Hbr. rewrite Hs by done. rewrite (sw_status m Hm) by done. rewrite Ef. apply list.NoDup_app in Hn as (_ & Hd & _).
    destruct (decide (b ∈ p)) as [Hp|Hp].
    + rewrite bool_decide_eq_true_2; [done|]. by apply Hd.
    + f_equal. apply bool_decide_ext. rewrite elem_of_app. tauto.
Qed.

Lemma take_short : Z.of_nat (length (free_block_indices_ m)) < blocks_for m requested_size -> is_ok (take_blocks m requested_size) = false.
Proof using Hm Hreq Hmax.
  intros Hk. destruct needed_spec as [En Hpos]. pose proof (sw_blocks m Hm) as Hb. unfold take_blocks.
  destruct (throw_if (requested_size =? 0) _) as [[]|]; [|done]. cbn [mbind result_bind]. destruct (throw_if (num_blocks_ m =? 0) _) as [[]|]; [|done]. cbn [mbind result_bind].
  cbv zeta. rewrite En. destruct (throw_if (blocks_for m requested_size =? 0) _) as [[]|]; [|done]. cbn [mbind result_bind].
  destruct (Z.ltb_spec (num_blocks_ m) (blocks_for m requested_size)); [done|]. cbn [throw_if mbind result_bind]. rewrite wrap_small by (unfold in_u; lia).
  destruct (Z.ltb_spec (Z.of_nat (length (free_block_indices_ m))) (blocks_for m requested_size)); [done|lia].
Qed.
End ops.

(** New contents of the tables: well formed when they partition the blocks. *)
Lemma set_blocks_wf m status allocs free next : sram_wf m -> length status = Z.to_nat (num_blocks_ m) -> StronglySorted Z.le free ->
  free ++ concat (map_to_list allocs).*2 ≡ₚ seqZ 0 (num_blocks_ m) ->
  (forall b, 0 <= b < num_blocks_ m -> status !! Z.to_nat b = Some (bool_decide (b ∉ free))) ->
  (forall id bs, allocs !! id = Some bs -> 1 <= id < next /\ bs <> []) -> 1 <= next <= float_limit -> sram_wf (set_blocks status allocs free next m).
Proof. intros []. by split. Qed.

Lemma taken m k : sram_wf m -> StronglySorted Z.le (drop k (free_block_indices_ m)) /\
  drop k (free_block_indices_ m) ++ take k (free_block_indices_ m) ++ held m ≡ₚ seqZ 0 (num_blocks_ m).
Proof.
  intros Hm. split.
  - pose proof (sw_sorted m Hm) as Hs. rewrite <- (take_drop k (free_block_indices_ m)) in Hs. by apply StronglySorted_app_1_r in Hs.
  - rewrite <- (sw_partition m Hm). rewrite app_assoc. apply Permutation_app_tail. rewrite (Permutation_app_comm (drop _ _)). by rewrite take_drop.
Qed.

Lemma take_some {A} (l : list A) n : 0 < n <= Z.of_nat (length l) -> take (Z.to_nat n) l <> [].
Proof. intros Hn E. apply (f_equal length) in E. rewrite length_take in E. cbn in E. lia. Qed.

Lemma allocate_spec m n : sram_wf m -> 0 < n -> n + block_size_ m - 1 <= INT_MAX -> next_allocation_id_ m < float_limit ->
  blocks_for m n <= Z.of_nat (length (free_block_indices_ m)) -> let k := Z.to_nat (blocks_for m n) in
  exists status, allocate n m = Ok (next_allocation_id_ m, set_blocks status (<[next_allocation_id_ m := take k (free_block_indices_ m)]> (allocations_ m))
      (drop k (free_block_indices_ m)) (next_allocation_id_ m + 1) m) /\
    sram_wf (set_blocks status (<[next_allocation_id_ m := take k (free_block_indices_ m)]> (allocations_ m))
      (drop k (free_block_indices_ m)) (next_allocation_id_ m + 1) m).
Proof.
  intros Hm Hn Hmax Hid Hk k. destruct (take_enough m Hm n Hn Hmax Hk) as (status & E & Hl & Hs). destruct (taken m k Hm) as [Hsort Hpart].
  assert (allocations_ m !! next_allocation_id_ m = None) as Hfresh.
  { destruct (allocations_ m !! next_allocation_id_ m) as [bs|] eqn:Eb; [|done]. apply (sw_ids m Hm) in Eb. lia. }
  exists status. split.
  - unfold allocate. rewrite E. cbn [mbind result_bind]. cbv zeta. unfold float_inc. destruct (Z.ltb_spec (next_allocation_id_ m) float_limit); [done|lia].
  - pose proof (sw_next m Hm) as Hnext. apply set_blocks_wf; try done; [| |lia].
    + rewrite map_to_list_insert by done. done.
    + intros id bs [[<- <-]|[_ Hb]]%lookup_insert_Some.
      * split; [lia|]. apply take_some. destruct (needed_spec m Hm n Hn Hmax). lia.
      * apply (sw_ids m Hm) in Hb. destruct Hb. split; [lia|done].
Qed.

Definition blocks_of (m : SramManager) (id : Z) : list Z := default [] (allocations_ m !! id).
Lemma blocks_split m id : held m ≡ₚ blocks_of m id ++ concat (map_to_list (delete id (allocations_ m))).*2.
Proof. unfold blocks_of. destruct (allocations_ m !! id) as [bs|] eqn:E; [by apply held_split|]. unfold held. by rewrite delete_id. Qed.

Lemma append_spec m n id : sram_wf m -> 0 < n -> n + block_size_ m - 1 <= INT_MAX -> 1 <= id < next_allocation_id_ m ->
  blocks_for m n <= Z.of_nat (length (free_block_indices_ m)) -> let k := Z.to_nat (blocks_for m n) in
  exists status, allocate_append n id m = Ok (id, set_blocks status (<[id := blocks_of m id ++ take k (free_block_indices_ m)]> (allocations_ m))
      (drop k (free_block_indices_ m)) (next_allocation_id_ m) m) /\
    sram_wf (set_blocks status (<[id := blocks_of m id ++ take k (free_block_indices_ m)]> (allocations_ m)) (drop k (free_block_indices_ m)) (next_allocation_id_ m) m).
Proof.
  intros Hm Hn Hmax Hid Hk k. destruct (take_enough m Hm n Hn Hmax Hk) as (status & E & Hl & Hs). destruct (taken m k Hm) as [Hsort Hpart].
  exists status. split.
  - unfold allocate_append. by rewrite E.
  - apply set_blocks_wf; try done; [| |by apply Hm].
    + rewrite <- insert_delete_eq. rewrite map_to_list_insert by apply lookup_delete_eq. cbn. rewrite <- Hpart, (blocks_split m id).
      apply Permutation_app_head. rewrite <- app_assoc. rewrite !app_assoc. apply Permutation_app_tail. apply Permutation_app_comm.
    + intros id' bs' [[<- <-]|[_ Hb]]%lookup_insert_Some; [|by apply (sw_ids m Hm) in Hb].
      split; [done|]. intros [_ Ht]%app_eq_nil. destruct (needed_spec m Hm n Hn Hmax). by apply (take_some (free_block_indices_ m) (blocks_for m n)); [lia|].
Qed.

Lemma deallocate_spec m id bs : sram_wf m -> allocations_ m !! id = Some bs -> exists status,
  deallocate id m = Ok (true, set_blocks status (delete id (allocations_ m)) (merge_sort Z.le (free_block_indices_ m ++ bs)) (next_allocation_id_ m) m) /\
  sram_wf (set_blocks status (delete id (allocations_ m)) (merge_sort Z.le (free_block_indices_ m ++ bs)) (next_allocation_id_ m) m).
Proof.
  intros Hm Hid. pose proof (held_split m id bs Hid) as Hh. pose proof (wf_nodup m Hm) as Hn.
  assert (forall b, b ∈ bs -> b ∈ held m) as Hin by (intros b Hb; apply (held_elem m); by exists id, bs).
  destruct (freed m bs (block_status_ m) (free_block_indices_ m)) as (status & E & Hl & Hs).
  - intros b Hb. apply (wf_range m Hm), elem_of_app. right. by apply Hin.
  - apply Hm.
  - rewrite Hh in Hn. apply list.NoDup_app in Hn as (_ & _ & Hn). by apply list.NoDup_app in Hn as (Hn & _ & _).
  - intros b Hb. by apply (wf_used m Hm), Hin.
  - exists status. pose proof (sw_ids m Hm id bs Hid) as [Hid1 _]. split.
    + unfold deallocate. destruct (Z.eqb_spec id 0); [lia|]. rewrite Hid, E. done.
    + assert (merge_sort Z.le (free_block_indices_ m ++ bs) ≡ₚ free_block_indices_ m ++ bs) as Hp by apply merge_sort_Permutation.
      apply set_blocks_wf; try done; try apply Hm.
      * by rewrite Hl, (sw_length m Hm).
      * by apply (StronglySorted_merge_sort Z.le).
      * rewrite Hp, <- app_assoc, <- Hh. apply Hm.
      * intros b Hb. rewrite Hs by done. rewrite (sw_status m Hm) by done. destruct (decide (b ∈ bs)) as [Hi|Hi].
        -- rewrite bool_decide_eq_false_2; [done|]. intros Hnot. apply Hnot. rewrite Hp. apply elem_of_app. by right.
        -- f_equal. apply bool_decide_ext. rewrite Hp, elem_of_app. tauto.
      * intros id' bs' [_ Hb]%lookup_delete_Some. by apply (sw_ids m Hm) in Hb.
Qed.

(** ** Virtual addresses *)

(** The address of byte [v] of an allocation. *)
Definition vaddr (m : SramManager) (blocks : list Z) (v : Z) : Z :=
  sram_start_address_ m + blocks !!! Z.to_nat (v / block_size_ m) * block_size_ m + v mod block_size_ m.

Section address.
Context (m : SramManager) (Hm : sram_wf m).
Notation size := (block_size_ m).

Lemma vaddr_first b rest v : 0 <= v < size -> vaddr m (b :: rest) v = sram_start_address_ m + b * size + v.
Proof using. intros Hv. unfold vaddr. by rewrite Z.div_small, Z.mod_small by lia. Qed.
Lemma vaddr_rest b rest v : 0 <= v -> vaddr m (b :: rest) (v + size) = vaddr m rest v.
Proof using Hm.
  intros Hv. pose proof (sw_size m Hm). unfold vaddr. replace (v + size) with (v + 1 * size) by lia. rewrite Z.div_add, Z_mod_plus_full by lia.
  pose proof (Z.div_pos v size ltac:(lia) ltac:(lia)). replace (Z.to_nat (v / size + 1)) with (S (Z.to_nat (v / size))) by lia. done.
Qed.

Lemma block_base_in b r : 0 <= b < num_blocks_ m -> 0 <= r <= size ->
  block_base m b = sram_start_address_ m + b * size /\ 0 <= sram_start_address_ m + b * size + r <= INT_MAX.
Proof using Hm.
  intros Hb Hr. pose proof (sw_size m Hm). pose proof (sw_start m Hm). pose proof (sw_end m Hm). unfold INT_MAX in *.
  assert (b * size + size <= num_blocks_ m * size) by nia. split; [|nia]. unfold block_base. rewrite swrap_small by nia. apply wrap_small. unfold in_u. nia.
Qed.

Lemma find_block_spec blocks : NoDup blocks -> (forall b, b ∈ blocks -> 0 <= b < num_blocks_ m) -> forall v, 0 <= v < Z.of_nat (length blocks) * size ->
  find_block m (vaddr m blocks v) blocks = Ok (drop (Z.to_nat (v / size)) blocks).
Proof using Hm.
  pose proof (sw_size m Hm) as Hsz. induction blocks as [|b rest IH]; intros Hn Hr v Hv; [cbn in Hv; lia|]. apply list.NoDup_cons in Hn as [Hb Hn].
  destruct (block_base_in b size ltac:(apply Hr; left) ltac:(lia)) as [Eb Hbr]. unfold INT_MAX in Hbr. cbn [find_block]. rewrite Eb.
  destruct (Z.lt_ge_cases v size) as [Hlt|Hge].
  - destruct (block_base_in b 0 ltac:(apply Hr; left) ltac:(lia)) as [_ Hb0]. unfold INT_MAX in Hb0.
    rewrite vaddr_first by lia. rewrite (wrap_small 64 (_ + v)) by (unfold in_u; nia). rewrite wrap_small by (unfold in_u; nia).
    destruct (Z.leb_spec (sram_start_address_ m + b * size) (sram_start_address_ m + b * size + v)); [|lia].
    destruct (Z.ltb_spec (sram_start_address_ m + b * size + v) (sram_start_address_ m + b * size + size)); [|lia]. cbn [andb]. by rewrite Z.div_small by lia.
  - replace v with (v - size + size) by lia. rewrite vaddr_rest by lia. replace (v - size + size) with (v - size + 1 * size) by lia. rewrite Z.div_add by lia.
    assert (0 <= v - size < Z.of_nat (length rest) * size) as Hv' by (cbn [length] in Hv; nia).
    pose proof (Z.div_pos (v - size) size ltac:(lia) ltac:(lia)) as Hdiv. replace (Z.to_nat ((v - size) / size + 1)) with (S (Z.to_nat ((v - size) / size))) by lia. cbn [drop].
    rewrite <- IH by (done || (intros x Hx; apply Hr; by right)).
    set (i := Z.to_nat ((v - size) / size)). assert (i < length rest)%nat as Hi by (apply Nat2Z.inj_lt; unfold i; rewrite Z2Nat.id by lia; apply Z.div_lt_upper_bound; lia).
    set (x := rest !!! i). assert (x ∈ rest) as Hx by (apply list_elem_of_lookup; exists i; by apply list_lookup_lookup_total_lt).
    pose proof (Z.mod_pos_bound (v - size) size Hsz) as Hmod. set (r := (v - size) mod size) in *.
    assert (vaddr m rest (v - size) = sram_start_address_ m + x * size + r) as -> by done.
    destruct (block_base_in x r ltac:(apply Hr; by right) ltac:(lia)) as [_ Hxr]. unfold INT_MAX in Hxr.
    rewrite (wrap_small 64 (_ + r)) by (unfold in_u; lia). rewrite wrap_small by (unfold in_u; nia).
    assert (x <> b) as Hne by (by intros ->).
    destruct (Z.leb_spec (sram_start_address_ m + b * size) (sram_start_address_ m + x * size + r)); [|done].
    destruct (Z.ltb_spec (sram_start_address_ m + x * size + r) (sram_start_address_ m + b * size + size)); [|done]. exfalso. apply Hne. nia.
Qed.

Lemma walk_out blocks : (forall b, b ∈ blocks -> 0 <= b < num_blocks_ m) -> forall cur off, 0 <= off ->
  if off <? Z.of_nat (length blocks) * size then walk m false cur off blocks = Ok (vaddr m blocks off) else is_ok (walk m false cur off blocks) = false.
Proof using Hm.
  pose proof (sw_size m Hm) as Hsz. induction blocks as [|b rest IH]; intros Hr cur off Hoff; [destruct (Z.ltb_spec off (Z.of_nat (@length Z []) * size)); [cbn [length Z.of_nat] in *; lia|done]|].
  destruct (block_base_in b (Z.min off size) ltac:(apply Hr; left) ltac:(lia)) as [Eb Hbr]. destruct (block_base_in b 0 ltac:(apply Hr; left) ltac:(lia)) as [_ Hb0]. unfold INT_MAX in *.
  cbn [walk]. rewrite Eb. rewrite !(swrap_small 32 (_ + b * size)) by lia. rewrite (wrap_small 64 (_ + b * size)) by (unfold in_u; lia).
  destruct (Z.ltb_spec off size) as [Hlt|Hge].
  - destruct (Z.ltb_spec off (Z.of_nat (length (b :: rest)) * size)); [|cbn [length] in *; nia]. rewrite vaddr_first by lia. f_equal.
    rewrite swrap_small; lia.
  - destruct (Z.eqb_spec off size) as [->|Hne].
    + destruct rest as [|b' rest]; [destruct (Z.ltb_spec size (Z.of_nat (length [b]) * size)); [cbn [length] in *; lia|done]|].
      destruct (Z.ltb_spec size (Z.of_nat (length (b :: b' :: rest)) * size)); [|cbn [length] in *; nia].
      replace size with (0 + size) at 1 by lia. rewrite vaddr_rest by lia. rewrite vaddr_first by lia.
      destruct (block_base_in b' 0 ltac:(apply Hr; right; left) ltac:(lia)) as [-> Hb']. unfold INT_MAX in *. rewrite swrap_small by lia. f_equal. lia.
    + specialize (IH (fun x Hx => Hr x (list_elem_of_further _ _ _ Hx)) (sram_start_address_ m + b * size) (off - size) ltac:(lia)).
      destruct (Z.ltb_spec (off - size) (Z.of_nat (length rest) * size)), (Z.ltb_spec off (Z.of_nat (length (b :: rest)) * size)); try (cbn [length] in *; nia); [|done].
      rewrite IH. f_equal. rewrite <- (vaddr_rest b) by lia. f_equal. lia.
Qed.

Lemma walk_in b rest r off : (forall x, x ∈ b :: rest -> 0 <= x < num_blocks_ m) -> 0 <= r < size -> 0 <= off <= INT_MAX ->
  let cur := sram_start_address_ m + b * size + r in
  if r + off <? Z.of_nat (length (b :: rest)) * size then walk m true cur off (b :: rest) = Ok (vaddr m (b :: rest) (r + off))
  else is_ok (walk m true cur off (b :: rest)) = false.
Proof using Hm.
  intros Hr Hrr Hoff cur. pose proof (sw_size m Hm) as Hsz. assert (0 <= b < num_blocks_ m) as Hb by (apply Hr; left).
  destruct (block_base_in b size Hb ltac:(lia)) as [Eb Hbs]. destruct (block_base_in b 0 Hb ltac:(lia)) as [_ Hb0]. unfold INT_MAX in *.
  cbn [walk]. rewrite Eb. rewrite (wrap_small 64 cur) by (unfold in_u, cur; lia). rewrite (swrap_small 32 (size - _)) by (unfold cur; lia).
  replace (size - (cur - (sram_start_address_ m + b * size))) with (size - r) by (unfold cur; lia).
  destruct (Z.ltb_spec off (size - r)) as [Hlt|Hge].
  - destruct (Z.ltb_spec (r + off) (Z.of_nat (length (b :: rest)) * size)); [|cbn [length] in *; nia]. rewrite vaddr_first by lia. f_equal.
    rewrite swrap_small; unfold cur; lia.
  - assert (forall x, x ∈ rest -> 0 <= x < num_blocks_ m) as Hr' by (intros x Hx; apply Hr; by right).
    destruct (Z.eqb_spec off (size - r)) as [He|Hne].
    + destruct rest as [|b' rest]; [destruct (Z.ltb_spec (r + off) (Z.of_nat (length [b]) * size)); [cbn [length] in *; lia|done]|].
      destruct (Z.ltb_spec (r + off) (Z.of_nat (length (b :: b' :: rest)) * size)); [|cbn [length] in *; nia].
      replace (r + off) with (0 + size) by lia. rewrite vaddr_rest by lia. rewrite vaddr_first by lia.
      destruct (block_base_in b' 0 ltac:(apply Hr'; left) ltac:(lia)) as [-> Hb']. unfold INT_MAX in *. rewrite swrap_small by lia. f_equal. lia.
    + pose proof (walk_out rest Hr' cur (off - (size - r)) ltac:(lia)) as Hw.
      destruct (Z.ltb_spec (off - (size - r)) (Z.of_nat (length rest) * size)), (Z.ltb_spec (r + off) (Z.of_nat (length (b :: rest)) * size)); try (cbn [length] in *; nia); [|done].
      rewrite Hw. f_equal. rewrite <- (vaddr_rest b) by lia. f_equal. lia.
Qed.

Lemma vaddr_drop blocks i v : 0 <= v -> (i <= length blocks)%nat -> vaddr m (drop i blocks) v = vaddr m blocks (Z.of_nat i * size + v).
Proof using Hm.
  intros Hv. revert i. induction blocks as [|b rest IH]; intros [|i] Hi; [cbn; f_equal; lia|cbn in Hi; lia|cbn; f_equal; lia|].
  cbn [drop]. rewrite IH by (cbn in Hi; lia). pose proof (sw_size m Hm). rewrite <- (vaddr_rest b) by nia. f_equal. lia.
Qed.
End address.

(** ** Runs *)

(** Managers that calls produce as the program makes them: the ids stay below the limit of the
    [float], beyond which [id_limit_leaks], and blocks are appended to ids given out before, live or
    released.  The code checks neither. *)
Inductive sram_run (start total bs : Z) : SramManager -> Prop :=
  | sr_new nb m : new_sram start total bs nb = Ok m -> sram_run start total bs m
  | sr_allocate m n id m' : sram_run start total bs m -> 0 < n -> n + bs - 1 <= INT_MAX -> next_allocation_id_ m < float_limit ->
      allocate n m = Ok (id, m') -> sram_run start total bs m'
  | sr_append m n id m' : sram_run start total bs m -> 0 < n -> n + bs - 1 <= INT_MAX -> 1 <= id < next_allocation_id_ m ->
      allocate_append n id m = Ok (id, m') -> sram_run start total bs m'
  | sr_deallocate m id b m' : sram_run start total bs m -> deallocate id m = Ok (b, m') -> sram_run start total bs m'.

(** The geometry of a scratchpad: within the range of an [int], fewer than [2^16] blocks. *)
Definition sram_geometry (start total bs : Z) : Prop := 0 <= start /\ 0 <= total /\ 0 < bs /\ start + total <= INT_MAX /\ total / bs < 2 ^ 16.

Lemma seqZ_sorted n i : StronglySorted Z.le (seqZ i (Z.of_nat n)).
Proof.
  revert i. induction n as [|n IH]; intros i; [constructor|]. rewrite seqZ_cons by lia. replace (Z.pred (Z.of_nat (S n))) with (Z.of_nat n) by lia.
  constructor; [apply IH|]. apply list.Forall_forall. intros x Hx%elem_of_seqZ. lia.
Qed.

Lemma new_sram_wf start total bs nb m : sram_geometry start total bs -> new_sram start total bs nb = Ok m ->
  sram_wf m /\ sram_start_address_ m = start /\ block_size_ m = bs /\ num_blocks_ m = total / bs.
Proof.
  intros (H1 & H2 & H3 & H4 & H5) E. unfold new_sram in E. apply throw_bind_ok in E as [_ E]. pose proof (Z.div_pos total bs H2 H3).
  pose proof (Z.mul_div_le total bs H3).
  assert (exists n, 0 <= n < 2 ^ 16 /\ n = total / bs /\ m = mkSram start total bs n (replicate (Z.to_nat n) false) ∅ (seqZ 0 n) 1) as (n & Hn & En & ->).
  { destruct (Z.eqb_spec total 0) as [->|].
    - injection E as <-. exists 0. rewrite Z.div_0_l by lia. by split_and!.
    - cbv zeta in E. apply throw_bind_ok in E as [_ E]. rewrite Z.quot_div_nonneg in E by lia. injection E as <-. exists (total / bs). by split_and!. }
  split; [|by subst]. split; cbn [sram_start_address_ total_sram_size_ block_size_ num_blocks_ block_status_ allocations_ free_block_indices_ next_allocation_id_]; try done; try lia.
  - by rewrite length_replicate.
  - rewrite <- (Z2Nat.id n) by lia. apply seqZ_sorted.
  - unfold held. cbn. by rewrite map_to_list_empty, app_nil_r.
  - intros b Hb. rewrite lookup_replicate_2 by lia. f_equal. symmetry. apply bool_decide_eq_false_2. intros Hnot. apply Hnot. apply elem_of_seqZ. lia.
Qed.

(** What the calls leave alone. *)
Definition same_geometry (m m' : SramManager) : Prop :=
  sram_start_address_ m' = sram_start_address_ m /\ block_size_ m' = block_size_ m /\ num_blocks_ m' = num_blocks_ m.

Lemma take_ok_enough m n r : sram_wf m -> 0 < n -> n + block_size_ m - 1 <= INT_MAX -> take_blocks m n = Ok r ->
  blocks_for m n <= Z.of_nat (length (free_block_indices_ m)).
Proof.
  intros Hm Hn Hmax E. destruct (Z.le_gt_cases (blocks_for m n) (Z.of_nat (length (free_block_indices_ m)))); [done|].
  pose proof (take_short m Hm n Hn Hmax ltac:(lia)) as Hs. by rewrite E in Hs.
Qed.

Lemma allocate_wf m n id m' : sram_wf m -> 0 < n -> n + block_size_ m - 1 <= INT_MAX -> next_allocation_id_ m < float_limit ->
  allocate n m = Ok (id, m') -> sram_wf m' /\ same_geometry m m'.
Proof.
  intros Hm Hn Hmax Hid E. pose proof E as E'. unfold allocate in E'. apply bind_ok in E' as (r & Er & _).
  destruct (allocate_spec m n Hm Hn Hmax Hid (take_ok_enough m n r Hm Hn Hmax Er)) as (st & Ea & Hwf). rewrite E in Ea. by injection Ea as -> ->.
Qed.
Lemma append_wf m n id m' : sram_wf m -> 0 < n -> n + block_size_ m - 1 <= INT_MAX -> 1 <= id < next_allocation_id_ m ->
  allocate_append n id m = Ok (id, m') -> sram_wf m' /\ same_geometry m m'.
Proof.
  intros Hm Hn Hmax Hid E. pose proof E as E'. unfold allocate_append in E'. apply bind_ok in E' as (r & Er & _).
  destruct (append_spec m n id Hm Hn Hmax Hid (take_ok_enough m n r Hm Hn Hmax Er)) as (st & Ea & Hwf). rewrite E in Ea. by injection Ea as ->.
Qed.
Lemma deallocate_wf m id b m' : sram_wf m -> deallocate id m = Ok (b, m') -> sram_wf m' /\ same_geometry m m'.
Proof.
  intros Hm E. pose proof E as E'. unfold deallocate in E'. destruct (id =? 0); [injection E' as _ <-; by split|].
  destruct (allocations_ m !! id) as [bs|] eqn:Hid; [|done]. destruct (deallocate_spec m id bs Hm Hid) as (st & Ed & Hwf).
  rewrite E in Ed. by injection Ed as _ ->.
Qed.

Lemma run_wf start total bs m : sram_geometry start total bs -> sram_run start total bs m ->
  sram_wf m /\ sram_start_address_ m = start /\ block_size_ m = bs /\ num_blocks_ m = total / bs.
Proof.
  intros Hg Hr. induction Hr as [nb m E|m n id m' _ (Hm & E1 & E2 & E3) Hn Hmax Hid E|m n id m' _ (Hm & E1 & E2 & E3) Hn Hmax Hid E|m id b m' _ (Hm & E1 & E2 & E3) E].
  - by eapply new_sram_wf.
  - rewrite <- E2 in Hmax. destruct (allocate_wf m n id m' Hm Hn Hmax Hid E) as (Hm' & G1 & G2 & G3). split; [done|]. by rewrite G1, G2, G3.
  - rewrite <- E2 in Hmax. destruct (append_wf m n id m' Hm Hn Hmax Hid E) as (Hm' & G1 & G2 & G3). split; [done|]. by rewrite G1, G2, G3.
  - destruct (deallocate_wf m id b m' Hm E) as (Hm' & G1 & G2 & G3). split; [done|]. by rewrite G1, G2, G3.
Qed.

(** ** Consequences of the invariant *)

Lemma status_held m : sram_wf m -> forall b, 0 <= b < num_blocks_ m -> block_status_ m !! Z.to_nat b = Some (bool_decide (b ∈ held m)).
Proof.
  intros Hm b Hb. rewrite (sw_status m Hm) by done. f_equal. apply bool_decide_ext.
  pose proof (proj2 (wf_range m Hm b) Hb) as Hin. rewrite elem_of_app in Hin. pose proof (wf_nodup m Hm) as Hn. apply list.NoDup_app in Hn as (_ & Hd & _).
  specialize (Hd b). tauto.
Qed.
Lemma used_count m : sram_wf m -> get_used_blocks_count m = Z.of_nat (length (held m)).
Proof.
  intros Hm. unfold get_used_blocks_count. pose proof (wf_count m Hm). destruct (Z.eqb_spec (num_blocks_ m) 0); lia.
Qed.
Lemma held_once m (Hm : sram_wf m) id id' l l' b : allocations_ m !! id = Some l -> allocations_ m !! id' = Some l' -> b ∈ l -> b ∈ l' -> id = id'.
Proof.
  intros Hl Hl' Hb Hb'. destruct (decide (id = id')) as [|Hne]; [done|exfalso].
  pose proof (wf_nodup m Hm) as Hn. rewrite (held_split m id l Hl) in Hn. apply list.NoDup_app in Hn as (_ & _ & Hn). apply list.NoDup_app in Hn as (_ & Hd & _).
  apply (Hd b Hb). rewrite list_elem_of_In, in_concat. exists l'. rewrite <- !list_elem_of_In. split; [|done].
  apply list_elem_of_fmap. exists (id', l'). split; [done|]. apply elem_of_map_to_list. by rewrite lookup_delete_ne.
Qed.

(** Tables with the same free list have the same statuses. *)
Lemma same_status m m' : sram_wf m -> sram_wf m' -> num_blocks_ m' = num_blocks_ m -> free_block_indices_ m' = free_block_indices_ m -> block_status_ m' = block_status_ m.
Proof.
  intros Hm Hm' Hnb Hf. apply list_eq. intros i. destruct (decide (i < length (block_status_ m))%nat) as [Hi|Hi].
  - rewrite (sw_length m Hm) in Hi. rewrite <- (Nat2Z.id i). rewrite (sw_status m' Hm'), (sw_status m Hm) by lia. by rewrite Hf.
  - rewrite !lookup_ge_None_2; [done|lia|]. rewrite (sw_length m' Hm'), Hnb, <- (sw_length m Hm). lia.
Qed.

Lemma allocate_release m n : sram_wf m -> 0 < n -> n + block_size_ m - 1 <= INT_MAX -> next_allocation_id_ m < float_limit ->
  let k := Z.to_nat (blocks_for m n) in
  if blocks_for m n <=? get_free_blocks_count m
  then exists m', allocate n m = Ok (next_allocation_id_ m, m') /\ allocations_ m' = <[next_allocation_id_ m := take k (free_block_indices_ m)]> (allocations_ m) /\
         free_block_indices_ m' = drop k (free_block_indices_ m) /\
         exists m'', deallocate (next_allocation_id_ m) m' = Ok (true, m'') /\ allocations_ m'' = allocations_ m /\
           free_block_indices_ m'' = free_block_indices_ m /\ block_status_ m'' = block_status_ m
  else is_ok (allocate n m) = false.
Proof.
  intros Hm Hn Hmax Hid k. unfold get_free_blocks_count. destruct (Z.leb_spec (blocks_for m n) (Z.of_nat (length (free_block_indices_ m)))) as [Hk|Hk].
  - destruct (allocate_spec m n Hm Hn Hmax Hid Hk) as (st & E & Hm'). fold k in E, Hm'. set (m' := set_blocks _ _ _ _ _) in *. exists m'. split_and!; try done.
    assert (allocations_ m !! next_allocation_id_ m = None) as Hfresh.
    { destruct (allocations_ m !! next_allocation_id_ m) as [bs|] eqn:Eb; [|done]. apply (sw_ids m Hm) in Eb. lia. }
    destruct (deallocate_spec m' (next_allocation_id_ m) (take k (free_block_indices_ m)) Hm') as (st' & E' & Hm''); [cbn; by rewrite lookup_insert_eq|].
    eexists. split; [exact E'|]. split; [cbn; by rewrite delete_insert_id|].
    assert (merge_sort Z.le (drop k (free_block_indices_ m) ++ take k (free_block_indices_ m)) = free_block_indices_ m) as Hf.
    { apply (StronglySorted_unique Z.le); [apply (sw_sorted _ Hm'')|apply Hm|]. rewrite merge_sort_Permutation, Permutation_app_comm. by rewrite take_drop. }
    split; [exact Hf|]. by apply (same_status m _ Hm Hm'').
  - unfold allocate. pose proof (take_short m Hm n Hn Hmax Hk) as Hs. by destruct (take_blocks m n).
Qed.

Lemma append_grants m n id : sram_wf m -> 0 < n -> n + block_size_ m - 1 <= INT_MAX -> 1 <= id < next_allocation_id_ m ->
  let k := Z.to_nat (blocks_for m n) in
  if blocks_for m n <=? get_free_blocks_count m
  then exists m', allocate_append n id m = Ok (id, m') /\ allocations_ m' = <[id := blocks_of m id ++ take k (free_block_indices_ m)]> (allocations_ m) /\
         free_block_indices_ m' = drop k (free_block_indices_ m)
  else is_ok (allocate_append n id m) = false.
Proof.
  intros Hm Hn Hmax Hid k. unfold get_free_blocks_count. destruct (Z.leb_spec (blocks_for m n) (Z.of_nat (length (free_block_indices_ m)))) as [Hk|Hk].
  - destruct (append_spec m n id Hm Hn Hmax Hid Hk) as (st & E & _). by eexists.
  - unfold allocate_append. pose proof (take_short m Hm n Hn Hmax Hk) as Hs. by destruct (take_blocks m n).
Qed.

Section addresses.
Context (m : SramManager) (Hm : sram_wf m).

Lemma block_of id blocks b : allocations_ m !! id = Some blocks -> b ∈ blocks -> 0 <= b < num_blocks_ m.
Proof using Hm. intros Hid Hb. apply (wf_range m Hm), elem_of_app. right. apply (held_elem m). by exists id, blocks. Qed.
Lemma blocks_nodup id blocks : allocations_ m !! id = Some blocks -> NoDup blocks.
Proof using Hm.
  intros Hid. pose proof (wf_nodup m Hm) as Hn. rewrite (held_split m id blocks Hid) in Hn. apply list.NoDup_app in Hn as (_ & _ & Hn). by apply list.NoDup_app in Hn as (Hn & _ & _).
Qed.

(** The block and the place in it of a byte. *)
Lemma vaddr_block id blocks v : allocations_ m !! id = Some blocks -> 0 <= v < Z.of_nat (length blocks) * block_size_ m ->
  exists b, blocks !! Z.to_nat (v / block_size_ m) = Some b /\ 0 <= b < num_blocks_ m /\ vaddr m blocks v = sram_start_address_ m + b * block_size_ m + v mod block_size_ m.
Proof using Hm.
  intros Hid Hv. pose proof (sw_size m Hm) as Hsz. pose proof (Z.div_pos v (block_size_ m) ltac:(lia) ltac:(lia)) as Hdiv.
  assert (Z.to_nat (v / block_size_ m) < length blocks)%nat as Hi by (apply Nat2Z.inj_lt; rewrite Z2Nat.id by lia; apply Z.div_lt_upper_bound; lia).
  pose proof (list_lookup_lookup_total_lt _ _ Hi) as Hb. eexists. split; [exact Hb|]. split; [|done]. eapply block_of; [done|]. by eapply list_elem_of_lookup_2.
Qed.

Lemma vaddr_range id blocks v : allocations_ m !! id = Some blocks -> 0 <= v < Z.of_nat (length blocks) * block_size_ m ->
  sram_start_address_ m <= vaddr m blocks v < sram_start_address_ m + num_blocks_ m * block_size_ m.
Proof using Hm.
  intros Hid Hv. destruct (vaddr_block id blocks v Hid Hv) as (b & _ & Hb & ->). pose proof (sw_size m Hm). pose proof (Z.mod_pos_bound v (block_size_ m) ltac:(lia)). nia.
Qed.

Lemma vaddr_inj id id' blocks blocks' v v' : allocations_ m !! id = Some blocks -> allocations_ m !! id' = Some blocks' ->
  0 <= v < Z.of_nat (length blocks) * block_size_ m -> 0 <= v' < Z.of_nat (length blocks') * block_size_ m -> vaddr m blocks v = vaddr m blocks' v' -> id = id' /\ v = v'.
Proof using Hm.
  intros Hid Hid' Hv Hv' E. pose proof (sw_size m Hm) as Hsz. destruct (vaddr_block id blocks v Hid Hv) as (b & Hb & _ & Ev). destruct (vaddr_block id' blocks' v' Hid' Hv') as (b' & Hb' & _ & Ev').
  pose proof (Z.mod_pos_bound v (block_size_ m) Hsz). pose proof (Z.mod_pos_bound v' (block_size_ m) Hsz). rewrite Ev, Ev' in E.
  assert (b = b') as <- by nia. assert (id = id') as <- by (apply (held_once m Hm id id' blocks blocks' b Hid Hid'); by eapply list_elem_of_lookup_2).
  split; [done|]. rewrite Hid in Hid'. injection Hid' as <-. pose proof (NoDup_lookup _ _ _ _ (blocks_nodup id blocks Hid) Hb Hb') as Hi.
  pose proof (Z.div_pos v (block_size_ m) ltac:(lia) ltac:(lia)). pose proof (Z.div_pos v' (block_size_ m) ltac:(lia) ltac:(lia)).
  rewrite (Z.div_mod v (block_size_ m)), (Z.div_mod v' (block_size_ m)) by lia. assert (v / block_size_ m = v' / block_size_ m) as -> by lia. lia.
Qed.

Lemma whole_blocks id blocks : allocations_ m !! id = Some blocks ->
  get_allocation_byte_capacity id m = Ok (Z.of_nat (length blocks) * block_size_ m) /\ get_address id m = vaddr m blocks 0.
Proof using Hm.
  intros Hid. pose proof (sw_size m Hm) as Hsz. pose proof (sw_start m Hm) as Hs. pose proof (sw_end m Hm) as He. unfold INT_MAX in He.
  assert (Z.of_nat (length blocks) <= num_blocks_ m) as Hl.
  { pose proof (wf_count m Hm) as Hc. rewrite (Permutation_length (held_split m id blocks Hid)), length_app in Hc. lia. }
  pose proof (proj2 (sw_ids m Hm id blocks Hid)) as Hne. destruct blocks as [|b rest] eqn:Eb; [done|]. rewrite <- Eb in *.
  unfold get_allocation_byte_capacity, get_address. rewrite Hid, Eb, <- Eb. rewrite throw_bind_false by lia. destruct (Z.eqb_spec (block_size_ m) 0); [lia|]. split.
  - rewrite swrap_small by nia. by rewrite Eb.
  - rewrite Eb, vaddr_first by lia. destruct (block_base_in m Hm b 0) as [_ Hb]; [apply (block_of id blocks); [done|rewrite Eb; left]|lia|]. unfold INT_MAX in Hb.
    rewrite swrap_small by lia. lia.
Qed.
End addresses.

Lemma offset_spec m id blocks v off : sram_wf m -> allocations_ m !! id = Some blocks ->
  0 <= v < Z.of_nat (length blocks) * block_size_ m -> 0 <= off <= INT_MAX ->
  if v + off <? Z.of_nat (length blocks) * block_size_ m
  then get_address_with_offset id (vaddr m blocks v) off m = Ok (vaddr m blocks (v + off))
  else is_ok (get_address_with_offset id (vaddr m blocks v) off m) = false.
Proof.
  intros Hm Hid Hv Hoff. pose proof (sw_size m Hm) as Hsz.
  assert (forall b, b ∈ blocks -> 0 <= b < num_blocks_ m) as Hr by (intros b; by apply (block_of m Hm id)).
  pose proof (blocks_nodup m Hm id blocks Hid) as Hn.
  unfold get_address_with_offset. rewrite Hid. destruct blocks as [|b0 bs0] eqn:Eb; [cbn in Hv; lia|]. rewrite <- Eb in *. clear b0 bs0 Eb.
  rewrite throw_bind_false by lia. rewrite (find_block_spec m Hm blocks Hn Hr v Hv). cbn [mbind result_bind].
  pose proof (Z.div_pos v (block_size_ m) ltac:(lia) ltac:(lia)) as Hdiv. set (i := Z.to_nat (v / block_size_ m)).
  assert (i < length blocks)%nat as Hi by (apply Nat2Z.inj_lt; unfold i; rewrite Z2Nat.id by lia; apply Z.div_lt_upper_bound; lia).
  pose proof (Z.mod_pos_bound v (block_size_ m) Hsz) as Hmod. pose proof (Z.div_mod v (block_size_ m) ltac:(lia)) as Hdm.
  pose proof (drop_S blocks (blocks !!! i) i (list_lookup_lookup_total_lt _ _ Hi)) as Ed. rewrite Ed.
  pose proof (walk_in m Hm (blocks !!! i) (drop (S i) blocks) (v mod block_size_ m) off) as Hw. rewrite <- Ed in Hw |- *.
  specialize (Hw (fun x Hx => Hr x (subseteq_drop i blocks x Hx)) Hmod Hoff). cbv zeta in Hw. fold (vaddr m blocks v) in Hw.
  rewrite length_drop in Hw. rewrite (vaddr_drop m Hm) in Hw by lia.
  assert (Z.of_nat i = v / block_size_ m) as Ei by (unfold i; lia). replace (Z.of_nat i * block_size_ m + (v mod block_size_ m + off)) with (v + off) in Hw by lia.
  assert (sram_start_address_ m + blocks !!! i * block_size_ m + v mod block_size_ m = vaddr m blocks v) as Ev by done. rewrite Ev in Hw.
  destruct (Z.ltb_spec (v mod block_size_ m + off) (Z.of_nat (length blocks - i) * block_size_ m)), (Z.ltb_spec (v + off) (Z.of_nat (length blocks) * block_size_ m)); done || nia.
Qed.

(** ** Properties *)


(** Eight blocks with a hole: a request is served from both sides of it. *)
Definition demo_sram (calls : list (SramManager -> result SramManager)) : result SramManager :=
  foldl (fun r f => r ≫= f) (new_sram 4096 512 64 8) calls.
Definition call_allocate (n : Z) (m : SramManager) : result SramManager := allocate n m ≫= fun x : Z * SramManager => Ok x.2.
Definition call_deallocate (id : Z) (m : SramManager) : result SramManager := deallocate id m ≫= fun x : bool * SramManager => Ok x.2.
Definition demo_calls : list (SramManager -> result SramManager) := [call_allocate 100; call_allocate 60; call_allocate 128; call_deallocate 2].

Lemma demo_sram_run : exists m, demo_sram demo_calls = Ok m /\ sram_run 4096 512 64 m.
Proof.
  unfold demo_calls, demo_sram. cbn [foldl].
  assert (exists m0, new_sram 4096 512 64 8 = Ok m0 /\ sram_run 4096 512 64 m0) as (m0 & E0 & R0) by (eexists; split; [reflexivity|by eapply (sr_new _ _ _ 8)]).
  assert (forall m n, sram_run 4096 512 64 m -> 0 < n <= 128 -> next_allocation_id_ m < float_limit -> forall m', call_allocate n m = Ok m' -> sram_run 4096 512 64 m') as Ha.
  { intros m n Hr Hn Hid m' E. unfold call_allocate in E. apply bind_ok in E as ([id m1] & E & [= <-]). eapply (sr_allocate _ _ _ m n id); [done|lia|unfold INT_MAX; lia|done|done]. }
  rewrite E0. cbn [mbind result_bind].
  assert (exists m1, call_allocate 100 m0 = Ok m1) as [m1 E1] by (injection E0 as <-; eexists; vm_compute; reflexivity). rewrite E1. cbn [mbind result_bind].
  assert (exists m2, call_allocate 60 m1 = Ok m2) as [m2 E2] by (injection E0 as <-; vm_compute in E1; injection E1 as <-; eexists; vm_compute; reflexivity). rewrite E2. cbn [mbind result_bind].
  assert (exists m3, call_allocate 128 m2 = Ok m3) as [m3 E3].
  { injection E0 as <-. vm_compute in E1. injection E1 as <-. vm_compute in E2. injection E2 as <-. eexists; vm_compute; reflexivity. } rewrite E3. cbn [mbind result_bind].
  assert (next_allocation_id_ m0 = 1 /\ next_allocation_id_ m1 = 2 /\ next_allocation_id_ m2 = 3 /\ exists m4, call_deallocate 2 m3 = Ok m4) as (N0 & N1 & N2 & m4 & E4).
  { injection E0 as <-. vm_compute in E1. injection E1 as <-. vm_compute in E2. injection E2 as <-. vm_compute in E3. injection E3 as <-.
    split; [done|]. split; [done|]. split; [done|]. eexists; vm_compute; reflexivity. }
  exists m4. split; [exact E4|]. unfold call_deallocate in E4. apply bind_ok in E4 as ([b m5] & E4 & [= <-]).
  apply (sr_deallocate _ _ _ m3 2 b); [|exact E4].
  apply (Ha m2 128); [|lia|rewrite N2; unfold float_limit; lia|done]. apply (Ha m1 60); [|lia|rewrite N1; unfold float_limit; lia|done].
  apply (Ha m0 100); [done|lia|rewrite N0; unfold float_limit; lia|done].
Qed.


(** C15: an allocation is a range of virtual addresses.  Its bytes lie, in order, in
    its blocks, wherever these are; from the address of byte [v], moving [off]
    bytes gives the address of byte [v + off], when that lies in the allocation, and
    fails otherwise, the byte just past the end included.  Addresses stay in the
    scratchpad, and bytes of allocations never share an address. *)
Theorem sram_virtual_addresses (start total bs : Z) (m : SramManager) (id : Z) (blocks : list Z) (v : Z) : sram_geometry start total bs -> sram_run start total bs m ->
  allocations_ m !! id = Some blocks -> get_allocation_byte_capacity id m = Ok (Z.of_nat (length blocks) * bs) /\ get_address id m = vaddr m blocks 0 /\
  (0 <= v < Z.of_nat (length blocks) * bs ->
    start <= vaddr m blocks v < start + total /\
    (forall id' blocks' v', allocations_ m !! id' = Some blocks' -> 0 <= v' < Z.of_nat (length blocks') * bs -> vaddr m blocks v = vaddr m blocks' v' -> id = id' /\ v = v') /\
    forall off, 0 <= off <= INT_MAX ->
      if v + off <? Z.of_nat (length blocks) * bs
      then get_address_with_offset id (vaddr m blocks v) off m = Ok (vaddr m blocks (v + off))
      else is_ok (get_address_with_offset id (vaddr m blocks v) off m) = false).
Proof.
  intros Hg Hr Hid. destruct (run_wf start total bs m Hg Hr) as (Hm & Es & Ebs & Enb). subst start bs.
  destruct (whole_blocks m Hm id blocks Hid) as [Hcap Haddr]. split; [done|]. split; [done|]. intros Hv. split; [|split].
  - pose proof (vaddr_range m Hm id blocks v Hid Hv). destruct Hg as (_ & Ht & Hb & _). rewrite Enb in *. pose proof (Z.mul_div_le total (block_size_ m) Hb). lia.
  - intros id' blocks' v' Hid' Hv' E. by apply (vaddr_inj m Hm id id' blocks blocks' v v').
  - intros off Hoff. by apply offset_spec.
Qed.

Lemma sram_virtual_addresses_witness : exists m, demo_sram (demo_calls ++ [call_allocate 130]) = Ok m /\
  get_address_with_offset 4 (4096 + 2 * 64 + 60) 10 m = Ok (4096 + 5 * 64 + 6).
Proof.
  destruct demo_sram_run as (m & E & Hr).
  assert (exists m', allocate 130 m = Ok (4, m') /\ demo_sram (demo_calls ++ [call_allocate 130]) = Ok m' /\ next_allocation_id_ m = 4 /\
    allocations_ m' !! 4 = Some [2; 5; 6] /\ vaddr m' [2; 5; 6] 60 = 4096 + 2 * 64 + 60 /\ vaddr m' [2; 5; 6] 70 = 4096 + 5 * 64 + 6) as (m' & E' & Ed & Hid & Hl & V1 & V2).
  { vm_compute in E. injection E as <-. eexists. split; [vm_compute; reflexivity|]. by split_and!; vm_compute. }
  exists m'. split; [exact Ed|].
  assert (sram_run 4096 512 64 m') as Hr' by (apply (sr_allocate _ _ _ m 130 4); [exact Hr|lia|unfold INT_MAX; lia|rewrite Hid; unfold float_limit; lia|exact E']).
  destruct (sram_virtual_addresses 4096 512 64 m' 4 [2; 5; 6] 60) as (_ & _ & H).
  - unfold sram_geometry, INT_MAX. split_and!; try lia. vm_compute. reflexivity.
  - exact Hr'.
  - exact Hl.
  - destruct H as (_ & _ & H); [cbn [length]; lia|]. specialize (H 10 ltac:(unfold INT_MAX; lia)). rewrite V1 in H.
    change (60 + 10 <? Z.of_nat (length [2; 5; 6]) * 64) with true in H. change (60 + 10) with 70 in H. rewrite V2 in H. exact H.
Defined.

(** When the float of the ids stops growing, the next allocation takes over the
    entry of the last one, whose blocks stay used with no id to free them. *)
Lemma id_limit_leaks : exists m m1 m2, demo_sram [] = Ok m /\ let m := set_blocks (block_status_ m) (allocations_ m) (free_block_indices_ m) float_limit m in
  allocate 64 m = Ok (float_limit, m1) /\ allocate 64 m1 = Ok (float_limit, m2) /\ held m2 = [1] /\ free_block_indices_ m2 = [2; 3; 4; 5; 6; 7].
Proof. eexists _, _, _. split; [vm_compute; reflexivity|]. split; [vm_compute; reflexivity|]. split; [vm_compute; reflexivity|]. split; vm_compute; reflexivity. Qed.
