(* ===== verification/MemSystem.v ===== *)
(** The configuration of the distributed memory: the parser of the memory system and
    of its address policy, the placement of the MEM ports, its validation, the route of a
    memory access and the endpoints of a run ([src/die/port_config.cpp],
    [src/memory/hbm_address_map.cpp], [src/memory/hbm_runtime.cpp]).  The specification that
    DRAMSys resolves from its own files, and what is compared with it, is left out.  Sums
    and products of [int]s are exact: where they would overflow the C++ has no meaning. *)

From S2P Require Import Prelude Json HbmAddressMap MsgWire D2DConfig DieTopology PortSelect HostAttach HbmMemWire Routing.
From S2P Require Import HbmNetwork HbmEndpoint HbmAccess.

(** [j.at(key).get<unsigned long long>()] and [j.at(key).get<double>()] *)
Definition ullong_at (j : json) (key : string) : result Z := json_at j key ≫= get_ullong.
Definition double_at (j : json) (key : string) : result double := json_at j key ≫= get_double.

(** ** The address policy *)

Definition mode_of_string (s : string) : result AddressPolicyMode :=
  if String.eqb s "local_interleave" then Ok kLocalInterleave
  else if String.eqb s "numa_local_interleave" then Ok kNumaLocalInterleave
  else if String.eqb s "global_interleave" then Ok kGlobalInterleave
  else Err (runtime_error "address_policy: unknown mode").

Definition parse_home_range (acc : list HomeRange) (r : json) : result (list HomeRange) :=
  int_at r "die_id" ≫= fun die : Z =>
  ullong_at r "base" ≫= fun base : Z =>
  ullong_at r "size_bytes" ≫= fun size : Z =>
  Ok (acc ++ [mkHomeRange die base size]).

Definition no_policy : AddressPolicyConfig := mkAddressPolicy false kNumaLocalInterleave [] 256 256 256 false.
Definition ParseAddressPolicy (j : json) : result AddressPolicyConfig :=
  match find_key j "address_policy" with
  | None => Ok no_policy
  | Some ap =>
      or_default ap "mode" get_string "numa_local_interleave"%string ≫= fun m : string =>
      mode_of_string m ≫= fun mode : AddressPolicyMode =>
      (match find_key ap "home_ranges" with Some l => foldM parse_home_range [] (json_items l) | None => Ok [] end) ≫= fun ranges : list HomeRange =>
      or_default ap "stack_interleave_bytes" get_ullong 256 ≫= fun stack : Z =>
      or_default ap "channel_interleave_bytes" get_ullong 256 ≫= fun channel : Z =>
      or_default ap "pseudo_channel_interleave_bytes" get_ullong 256 ≫= fun pseudo : Z =>
      or_default ap "allow_gaps" get_bool false ≫= fun gaps : bool =>
      Ok (mkAddressPolicy true mode ranges stack channel pseudo gaps)
  end.

(** ** The memory system *)

Inductive HBMBackendKind : Type := kBehavioral | kDRAMSys.
Inductive HBMPortGranularity : Type := pkChannel | pkAggregated.
#[export] Instance HBMPortGranularity_eq_dec : EqDecision HBMPortGranularity.
Proof. solve_decision. Defined.
Inductive MemoryTopology : Type := kLegacyPrivateTopology | kDistributedHbm.
#[export] Instance MemoryTopology_eq_dec : EqDecision MemoryTopology.
Proof. solve_decision. Defined.
Inductive MemoryCachePolicy : Type := kNone | kLegacyPrivateCache.

Definition GranularityFromStr (s : string) : result HBMBackendGranularity :=
  if String.eqb s "channel" then Ok kChannel else if String.eqb s "stack" then Ok kStack
  else Err (runtime_error "memory_system: unknown backend_granularity").
Definition BackendKindFromStr (s : string) : result HBMBackendKind :=
  if String.eqb s "behavioral" then Ok kBehavioral else if String.eqb s "dramsys" then Ok kDRAMSys
  else Err (runtime_error "memory_system: unknown backend").
Definition PortGranularityFromStr (s : string) : result HBMPortGranularity :=
  if String.eqb s "channel" then Ok pkChannel else if String.eqb s "aggregated" then Ok pkAggregated
  else Err (runtime_error "memory_system: unknown port_granularity").

(** The rest of [HBMProfile], and of [HBMStackConfig]. *)
Record profile_rates : Type := mkRates { generation : string; data_rate_gbps_per_pin : double; stack_bus_width_bits : Z }.
Record stack_backend : Type := mkBackendOf {
  backend_kind : HBMBackendKind; port_granularity : HBMPortGranularity; channel_dram_config : string; bandwidth_cap_GBps : option double;
  behavioral_efficiency : double; behavioral_base_latency_ns : double; behavioral_read_to_write_ns : double; behavioral_write_to_read_ns : double
}.
Record mem_system : Type := mkMemSystem {
  g_memory_system_active : bool; g_memory_topology : MemoryTopology; g_memory_cache_policy : MemoryCachePolicy;
  ms_profiles : gmap string HBMProfile; ms_rates : gmap string profile_rates;
  ms_stacks : list (HBMStackConfig * stack_backend); g_address_policy : AddressPolicyConfig
}.
Definition legacy_system : mem_system := mkMemSystem false kLegacyPrivateTopology kLegacyPrivateCache ∅ ∅ [] no_policy.

Definition double_pos (x : double) : bool := 0 <? x.1.
Definition double_neg (x : double) : bool := x.1 <? 0.
Definition double_le_one (x : double) : bool := x.1 <=? Z.pos x.2.

Definition profile_maps : Type := gmap string HBMProfile * gmap string profile_rates.
Definition parse_profile (acc : profile_maps) (e : string * json) : result profile_maps :=
  let pj := e.2 in
  str_at pj "generation" ≫= fun generation : string =>
  int_at pj "channels_per_stack" ≫= fun channels : Z =>
  int_at pj "pseudo_channels_per_channel" ≫= fun pseudo : Z =>
  double_at pj "data_rate_gbps_per_pin" ≫= fun rate : double =>
  int_at pj "stack_bus_width_bits" ≫= fun width : Z =>
  THROW runtime_error "memory_system.profiles: channels_per_stack must be > 0" WHEN channels <=? 0;;
  THROW runtime_error "memory_system.profiles: pseudo_channels_per_channel must be > 0" WHEN pseudo <=? 0;;
  THROW runtime_error "memory_system.profiles: data_rate_gbps_per_pin must be > 0" WHEN negb (double_pos rate);;
  THROW runtime_error "memory_system.profiles: stack_bus_width_bits must be > 0" WHEN width <=? 0;;
  Ok (<[e.1 := mkProfile channels pseudo]> acc.1, <[e.1 := mkRates generation rate width]> acc.2).

(** The loop over a value with [it.key()], which only an object has. *)
Definition parse_profiles (j : json) : result profile_maps :=
  match j with
  | JObj m => foldM parse_profile (∅, ∅) m
  | JNull | JArr [] => Ok (∅, ∅)
  | _ => Err (json_error "cannot use key() for non-object iterators")
  end.

Section system.
Context `{Geometry}.

(** The fields of one element of [hbm_stacks], in the order in which they are read. *)
Definition read_stack (sj : json) : result (HBMStackConfig * stack_backend) :=
  int_at sj "stack_id" ≫= fun id : Z =>
  int_at sj "compute_die_id" ≫= fun die : Z =>
  str_at sj "profile" ≫= fun profile : string =>
  str_at sj "side" ≫= fun ss : string => SideFromStr ss ≫= fun side : Directions =>
  int_at sj "start_idx" ≫= fun start : Z =>
  int_at sj "phy_span_tiles" ≫= fun span : Z =>
  ullong_at sj "capacity_bytes" ≫= fun capacity : Z =>
  or_default sj "backend_granularity" (fun v => get_string v ≫= GranularityFromStr) kChannel ≫= fun gran : HBMBackendGranularity =>
  or_default sj "backend" (fun v => get_string v ≫= BackendKindFromStr) kDRAMSys ≫= fun kind : HBMBackendKind =>
  or_default sj "port_granularity" (fun v => get_string v ≫= PortGranularityFromStr) pkChannel ≫= fun pg : HBMPortGranularity =>
  value_or sj "channels_per_mem_port" get_int 1 ≫= fun cpp : Z =>
  str_at sj "channel_dram_config" ≫= fun dram : string =>
  or_default sj "bandwidth_cap_GBps" (fun v => get_double v ≫= fun d : double => Ok (Some d)) None ≫= fun cap : option double =>
  value_or sj "behavioral_efficiency" get_double (1, 1%positive) ≫= fun eff : double =>
  value_or sj "behavioral_base_latency_ns" get_double (0, 1%positive) ≫= fun base : double =>
  value_or sj "behavioral_read_to_write_ns" get_double (0, 1%positive) ≫= fun r2w : double =>
  value_or sj "behavioral_write_to_read_ns" get_double (0, 1%positive) ≫= fun w2r : double =>
  Ok (mkStack id die profile (dir_code side) start span capacity gran cpp, mkBackendOf kind pg dram cap eff base r2w w2r).

Definition bad_stack (s : string) : exn := runtime_error (String.append "memory_system.hbm_stacks: " s).
Definition check_stack (profiles : gmap string HBMProfile) (prev : list (HBMStackConfig * stack_backend)) (x : HBMStackConfig * stack_backend) : result unit :=
  let '(s, b) := x in
  THROW bad_stack "stack_id must be >= 0" WHEN st_stack_id s <? 0;;
  THROW bad_stack "compute_die_id out of range" WHEN (st_compute_die_id s <? 0) || (DIE_COUNT <=? st_compute_die_id s);;
  match profiles !! st_profile s with
  | None => Err (bad_stack "references unknown profile")
  | Some profile =>
      THROW bad_stack "phy_span_tiles must be > 0" WHEN st_phy_span_tiles s <=? 0;;
      THROW bad_stack "capacity_bytes must be > 0" WHEN st_capacity_bytes s =? 0;;
      THROW bad_stack "channel_dram_config must not be empty" WHEN String.eqb (channel_dram_config b) "";;
      THROW bad_stack "behavioral efficiency must be in (0,1]"
        WHEN negb (double_pos (behavioral_efficiency b) && double_le_one (behavioral_efficiency b)) || double_neg (behavioral_base_latency_ns b) ||
             double_neg (behavioral_read_to_write_ns b) || double_neg (behavioral_write_to_read_ns b);;
      THROW bad_stack "channels_per_mem_port must be > 0" WHEN st_channels_per_mem_port s <=? 0;;
      THROW bad_stack "port_granularity='channel' requires channels_per_mem_port=1"
        WHEN bool_decide (port_granularity b = pkChannel) && negb (st_channels_per_mem_port s =? 1);;
      THROW bad_stack "port_granularity='aggregated' requires channels_per_mem_port in range"
        WHEN bool_decide (port_granularity b = pkAggregated) &&
             ((st_channels_per_mem_port s <=? 1) || (channels_per_stack profile <? st_channels_per_mem_port s));;
      throw_if (existsb (fun q => st_stack_id q.1 =? st_stack_id s) prev) (bad_stack "duplicate stack_id")
  end.
Definition parse_stack (profiles : gmap string HBMProfile) (acc : list (HBMStackConfig * stack_backend)) (sj : json) : result (list (HBMStackConfig * stack_backend)) :=
  read_stack sj ≫= fun x : HBMStackConfig * stack_backend => check_stack profiles acc x ≫= fun _ => Ok (acc ++ [x]).

Definition ParseMemorySystem (hw_json : json) : result mem_system :=
  match find_key hw_json "memory_system" with
  | None => Ok legacy_system
  | Some ms =>
      value_or ms "topology" get_string "distributed_hbm"%string ≫= fun topology : string =>
      if String.eqb topology "legacy_private" then
        THROW runtime_error "memory_system: legacy_private topology cannot declare hbm_stacks/address_policy"
          WHEN contains ms "hbm_stacks" || contains ms "address_policy";;
        Ok legacy_system
      else
        THROW runtime_error "memory_system: unknown topology" WHEN negb (String.eqb topology "distributed_hbm");;
        value_or ms "cache_policy" get_string "none"%string ≫= fun cache : string =>
        THROW runtime_error "memory_system: distributed_hbm currently requires cache_policy='none'" WHEN negb (String.eqb cache "none");;
        (match find_key ms "profiles" with Some j => parse_profiles j | None => Ok (∅, ∅) end) ≫= fun '((profiles, rates) : profile_maps) =>
        (match find_key ms "hbm_stacks" with Some l => foldM (parse_stack profiles) [] (json_items l) | None => Ok [] end)
          ≫= fun stacks : list (HBMStackConfig * stack_backend) =>
        ParseAddressPolicy ms ≫= fun policy : AddressPolicyConfig =>
        Ok (mkMemSystem true kDistributedHbm kNone profiles rates stacks policy)
  end.

(** ** The MEM ports *)

Definition dir_of_code (c : Z) : Directions :=
  if c =? 0 then WEST else if c =? 1 then EAST else if c =? 2 then NORTH else if c =? 3 then SOUTH else if c =? 4 then CENTER else if c =? 5 then DIRECTIONS else HOST.
Definition stack_side (s : HBMStackConfig) : Directions := dir_of_code (st_side s).

Definition attach_channel (s : HBMStackConfig) (acc : list HBMChannelConfig) (c : Z) : result (list HBMChannelConfig) :=
  TileFor (stack_side s) (i32 (st_start_idx s + Z.quot c (st_channels_per_mem_port s))) ≫= fun tile : Z => Ok (acc ++ [mkChannel (st_stack_id s) c tile]).
Definition n_channels (profile : HBMProfile) (s : HBMStackConfig) : Z :=
  if decide (st_backend_granularity s = kChannel) then channels_per_stack profile else 1.
Definition attach_stack (profiles : gmap string HBMProfile) (acc : list HBMChannelConfig) (s : HBMStackConfig) : result (list HBMChannelConfig) :=
  match profiles !! st_profile s with
  | None => Ok acc
  | Some profile => foldM (attach_channel s) acc (seqZ 0 (n_channels profile s))
  end.
Definition BuildMemAttach (ms : mem_system) : result (list HBMChannelConfig) :=
  if negb (g_memory_system_active ms) then Ok [] else foldM (attach_stack (ms_profiles ms)) [] (ms_stacks ms).*1.

Definition bad_attach (s : string) : exn := runtime_error (String.append "memory_system: " s).
Definition check_id (profiles : gmap string HBMProfile) (seen : gset Z) (s : HBMStackConfig) : result (gset Z) :=
  THROW bad_attach "duplicate stack_id" WHEN bool_decide (st_stack_id s ∈ seen);;
  THROW bad_attach "references unknown profile" WHEN negb (bool_decide (is_Some (profiles !! st_profile s)));;
  Ok ({[st_stack_id s]} ∪ seen).
Definition claim_tile (s : HBMStackConfig) (occupied : gset Z) (i : Z) : result (gset Z) :=
  TileFor (stack_side s) (i32 (st_start_idx s + i)) ≫= fun tile : Z =>
  THROW bad_attach "tile conflicts" WHEN bool_decide (tile ∈ occupied);;
  Ok ({[tile]} ∪ occupied).
Definition expected_ports (profile : HBMProfile) (s : HBMStackConfig) : Z :=
  Z.quot (i32 (channels_per_stack profile + st_channels_per_mem_port s - 1)) (st_channels_per_mem_port s).
Definition place_stack (profiles : gmap string HBMProfile) (occupied : gset Z) (s : HBMStackConfig) : result (gset Z) :=
  match profiles !! st_profile s with
  | None => Err (bad_attach "references unknown profile")
  | Some profile =>
      THROW bad_attach "phy_span_tiles too small" WHEN st_phy_span_tiles s <? expected_ports profile s;;
      THROW bad_attach "tile span exceeds edge extent"
        WHEN (st_start_idx s <? 0) || (EdgeLen (stack_side s) <? i32 (st_start_idx s + st_phy_span_tiles s));;
      foldM (claim_tile s) occupied (seqZ 0 (st_phy_span_tiles s))
  end.
Definition template_tiles (dp : D2DPortTable) : gset Z := if active dp then list_to_set (tile <$> ports dp) else ∅.
Definition stacks_on (stacks : list HBMStackConfig) (die : Z) : list HBMStackConfig := base.filter (fun s => st_compute_die_id s = die) stacks.
Definition check_die (dp : D2DPortTable) (profiles : gmap string HBMProfile) (stacks : list HBMStackConfig) (die : Z) : result unit :=
  foldM (place_stack profiles) (template_tiles dp) (stacks_on stacks die) ≫= fun _ => Ok tt.
Definition ValidateMemAttach (dp : D2DPortTable) (ms : mem_system) : result unit :=
  if negb (g_memory_system_active ms) then Ok tt else
  foldM (check_id (ms_profiles ms)) ∅ (ms_stacks ms).*1 ≫= fun _ =>
  foldM (fun _ => check_die dp (ms_profiles ms) (ms_stacks ms).*1) tt (seqZ 0 DIE_COUNT).

(** The tables of the address map. *)
Definition tables_of (ms : mem_system) (channels : list HBMChannelConfig) : hbm_tables :=
  mkTables (ms_stacks ms).*1 channels (ms_profiles ms) DIE_COUNT.
End system.

(** ** Routes and endpoints *)

Record MemRouteResult : Type := mkMemRoute {
  mr_current_die : Z; mr_home_die : Z; mr_stack_id : Z; mr_channel_id : Z; mr_target_mem_tile : Z; mr_next_c2c_port : Z; mr_local : bool
}.
Definition find_channel (t : hbm_tables) (stack channel : Z) : option HBMChannelConfig :=
  List.find (fun c => (ch_stack_id c =? stack) && (ch_channel_id c =? channel)) (g_hbm_channels t).
Definition ResolveMemRoute `{Geometry} (M : machine) (t : hbm_tables) (p : AddressPolicyConfig) (st : v5_state) (current_die ingress_tile : Z) (target : AddressDecodeResult)
    : result (MemRouteResult * v5_state) :=
  THROW runtime_error "MemRouteTable: invalid current die/tile"
    WHEN (current_die <? 0) || (DieTopology.DIE_COUNT <=? current_die) || (ingress_tile <? 0) || (CORES_PER_DIE <=? ingress_tile);;
  THROW runtime_error "MemRouteTable: local_interleave forbids remote HBM access"
    WHEN bool_decide (ap_mode p = kLocalInterleave) && negb (HbmAddressMap.home_die target =? current_die);;
  match find_channel t (HbmAddressMap.stack_id target) (HbmAddressMap.channel_id target) with
  | None => Err (runtime_error "MemRouteTable: target stack/channel has no MEM attachment")
  | Some c =>
      let home := HbmAddressMap.home_die target in
      let route port local := mkMemRoute current_die home (HbmAddressMap.stack_id target) (HbmAddressMap.channel_id target) (ch_mem_tile c) port local in
      if current_die =? home then Ok (route (-1) true, st)
      else CrossDieSelectExit M st (GlobalId current_die ingress_tile) (GlobalId home (ch_mem_tile c)) (-1) 0 0 ≫= fun '((port, st) : Z * v5_state) =>
           Ok (route port false, st)
  end.

(** An endpoint of a run: [None] where DRAMSys serves the channel. *)
Record HBMRuntimeInstance : Type := mkInstance { ri_stack_id : Z; ri_channel_id : Z; ri_backend : option backend_cfg }.
Definition instance_key (i : HBMRuntimeInstance) : Z * Z := (ri_stack_id i, ri_channel_id i).
Definition Find (l : list HBMRuntimeInstance) (stack channel : Z) : option HBMRuntimeInstance :=
  List.find (fun i => (ri_stack_id i =? stack) && (ri_channel_id i =? channel)) l.
Definition BindAdapter (l : list HBMRuntimeInstance) (a : CoreMemAdapter) : result CoreMemAdapter := foldM (fun a i => BindEndpoint (instance_key i) a) a l.

Section runtime.
(** The bandwidth of an instance that DRAMSys resolves from a file, and the times that
    the behavioural configuration computes from it in floating point. *)
Context (resolve : string -> result double) (behavioral_config : HBMStackConfig -> stack_backend -> HBMProfile -> double -> result backend_cfg).

Definition find_stack (ms : mem_system) (id : Z) : option (HBMStackConfig * stack_backend) := List.find (fun x => st_stack_id x.1 =? id) (ms_stacks ms).
Definition build_instance (ms : mem_system) (acc : gset (Z * Z) * list HBMRuntimeInstance) (c : HBMChannelConfig) : result (gset (Z * Z) * list HBMRuntimeInstance) :=
  let key := (ch_stack_id c, ch_channel_id c) in
  THROW runtime_error "BuildHBMBackends: duplicate stack/channel instance" WHEN bool_decide (key ∈ acc.1);;
  match find_stack ms (ch_stack_id c) with
  | None => Err (runtime_error "BuildHBMBackends: attachment references unknown stack")
  | Some (s, b) =>
      (match backend_kind b with
       | kDRAMSys => Ok None
       | kBehavioral =>
           resolve (channel_dram_config b) ≫= fun bandwidth : double =>
           match ms_profiles ms !! st_profile s with
           | None => Err (out_of_range "unordered_map::at")
           | Some profile => behavioral_config s b profile bandwidth ≫= fun cfg : backend_cfg => Ok (Some cfg)
           end
       end) ≫= fun backend : option backend_cfg =>
      Ok ({[key]} ∪ acc.1, acc.2 ++ [mkInstance (ch_stack_id c) (ch_channel_id c) backend])
  end.
Definition BuildHBMBackends (ms : mem_system) (channels : list HBMChannelConfig) (sc_is_running : bool) : result (list HBMRuntimeInstance) :=
  THROW runtime_error "BuildHBMBackends requires an active distributed_hbm config"
    WHEN negb (g_memory_system_active ms) || negb (bool_decide (g_memory_topology ms = kDistributedHbm));;
  THROW runtime_error "BuildHBMBackends must run before the first sc_start" WHEN sc_is_running;;
  foldM (build_instance ms) (∅, []) channels ≫= fun acc : gset (Z * Z) * list HBMRuntimeInstance =>
  THROW runtime_error "BuildHBMBackends: no backend instance built" WHEN bool_decide (acc.2 = []);;
  Ok acc.2.
End runtime.

(** ** Loops that claim *)

(** A loop that claims one thing after another and stops at a thing that is taken. *)
Section claims.
Context {A K : Type} `{Countable K} (f : gset K -> A -> result (gset K)) (key : A -> K) (P : A -> Prop).
Context (Hf : forall s x, is_ok (f s x) = true <-> key x ∉ s /\ P x) (Hf' : forall s x s', f s x = Ok s' -> s' = {[key x]} ∪ s).

Lemma claim_loop l s : is_ok (foldM f s l) = true <-> NoDup (key <$> l) /\ (forall x, x ∈ l -> key x ∉ s /\ P x).
Proof using Hf Hf'.
  revert s. induction l as [|x l IH]; intros s; cbn [foldM fmap list_fmap].
  - split; [|done]. intros _. split; [constructor|]. intros x Hx. by apply elem_of_nil in Hx.
  - pose proof (Hf s x) as Hx. destruct (f s x) as [s'|e] eqn:E; cbn [is_ok] in Hx.
    + rewrite IH, (Hf' _ _ _ E), list.NoDup_cons. destruct (proj1 Hx eq_refl) as [Hk HP]. split.
      * intros [Hn Ha]. split.
        -- split; [|done]. intros (y & Hy & Hin)%list_elem_of_fmap. destruct (Ha y Hin) as [Hn' _]. set_solver.
        -- intros y [->|Hy]%elem_of_cons; [done|]. destruct (Ha y Hy). set_solver.
      * intros [[Hk' Hn] Ha]. split; [done|]. intros y Hy. destruct (Ha y ltac:(by right)) as [Hn' HPy]. split; [|done].
        intros [Heq%elem_of_singleton|?]%elem_of_union; [|done]. apply Hk'. rewrite <- Heq. by apply list_elem_of_fmap_2.
    + split; [done|]. intros [_ Ha]. apply Hx. apply Ha. left.
Qed.

Lemma claimed l s s' : foldM f s l = Ok s' -> s' = list_to_set (key <$> l) ∪ s.
Proof using Hf'.
  clear Hf P. revert s. induction l as [|x l IH]; intros s E; cbn [foldM] in E; [injection E as <-; set_solver|].
  destruct (f s x) as [s1|] eqn:E1; [|done]. rewrite (IH _ E), (Hf' _ _ _ E1). set_solver.
Qed.
End claims.

(** ** What the parser accepts *)

Definition profile_wf (p : HBMProfile) : Prop := 0 < channels_per_stack p <= INT_MAX /\ 0 < pseudo_channels_per_channel p <= INT_MAX.
Record stack_wf `{Geometry} (profiles : gmap string HBMProfile) (x : HBMStackConfig * stack_backend) : Prop := {
  swf_id : 0 <= st_stack_id x.1; swf_die : 0 <= st_compute_die_id x.1 < DieTopology.DIE_COUNT; swf_side : is_side (stack_side x.1) = true;
  swf_profile : exists pr, profiles !! st_profile x.1 = Some pr /\ profile_wf pr /\
    (port_granularity x.2 = pkChannel -> st_channels_per_mem_port x.1 = 1) /\
    (port_granularity x.2 = pkAggregated -> 2 <= st_channels_per_mem_port x.1 <= channels_per_stack pr);
  swf_span : 0 < st_phy_span_tiles x.1; swf_capacity : 0 < st_capacity_bytes x.1 < 2 ^ 64
}.

Lemma get_ullong_range j x : get_ullong j = Ok x -> in_u 64 x.
Proof.
  destruct j as [| [] | | | | | ]; cbn -[wrap]; intros H; try done; apply HbmAssembly.Ok_inj in H as <-; try (unfold in_u, b2z; lia); by apply wrap_in_u.
Qed.
Lemma SideFromStr_side s d : SideFromStr s = Ok d -> is_side d = true.
Proof. unfold SideFromStr. repeat (destruct (String.eqb _ _); [by intros [= <-]|]). done. Qed.
Lemma dir_of_side d : is_side d = true -> dir_of_code (dir_code d) = d.
Proof. by destruct d. Qed.

Lemma or_default_ok {A} j key (get : json -> result A) x y (P : A -> Prop) : P x -> (forall v z, get v = Ok z -> P z) -> or_default j key get x = Ok y -> P y.
Proof. unfold or_default. intros Hx Hg. destruct (find_key j key); [apply Hg|by intros [= <-]]. Qed.

Lemma read_stack_ok `{Geometry} sj x : read_stack sj = Ok x -> is_side (stack_side x.1) = true /\ in_u 64 (st_capacity_bytes x.1).
Proof.
  unfold read_stack. intros E.
  do 3 (apply bind_ok in E as (? & _ & E)). apply bind_ok in E as (ss & _ & E). apply bind_ok in E as (side & Hside & E).
  do 2 (apply bind_ok in E as (? & _ & E)). apply bind_ok in E as (cap & Hcap & E). do 10 (apply bind_ok in E as (? & _ & E)). injection E as <-.
  apply bind_ok in Hcap as (? & _ & Hcap). cbn [fst st_capacity_bytes]. unfold stack_side. cbn [st_side].
  apply SideFromStr_side in Hside. rewrite dir_of_side by done. split; [done|]. by eapply get_ullong_range.
Qed.

Lemma parse_profile_ok acc e acc' : parse_profile acc e = Ok acc' -> exists pr, acc'.1 = <[e.1 := pr]> acc.1 /\ profile_wf pr.
Proof.
  unfold parse_profile. intros E. apply bind_ok in E as (g & _ & E). apply bind_ok in E as (c & Hc & E). apply bind_ok in E as (q & Hq & E).
  do 2 (apply bind_ok in E as (? & _ & E)). apply throw_bind_ok in E as [H1 E]. apply throw_bind_ok in E as [H2 E]. do 2 (apply throw_bind_ok in E as [_ E]).
  injection E as <-. exists (mkProfile c q). split; [done|]. apply bind_ok in Hc as (? & _ & Hc). apply bind_ok in Hq as (? & _ & Hq).
  apply get_int_range in Hc, Hq. unfold profile_wf. cbn. lia.
Qed.
Lemma parse_profiles_ok j acc : parse_profiles j = Ok acc -> forall k pr, acc.1 !! k = Some pr -> profile_wf pr.
Proof.
  assert (forall m s s', foldM parse_profile s m = Ok s' -> (forall k pr, s.1 !! k = Some pr -> profile_wf pr) -> forall k pr, s'.1 !! k = Some pr -> profile_wf pr) as Hloop.
  { intros m s s' E Hs. apply (foldM_inv parse_profile (fun s => forall k pr, s.1 !! k = Some pr -> profile_wf pr) m s s'); [|done|done].
    intros t x t' _ Ht Et k pr Hk. apply parse_profile_ok in Et as (pr' & Eq & Hpr). rewrite Eq in Hk.
    apply lookup_insert_Some in Hk as [[_ <-]|[_ Hk]]; [done|by eapply Ht]. }
  unfold parse_profiles. destruct j as [| | | | |[|]|m]; try done; intros E; try (injection E as <-; intros k pr Hk; cbn in Hk; by rewrite lookup_empty in Hk).
  apply (Hloop m _ _ E). intros k pr Hk. cbn in Hk. by rewrite lookup_empty in Hk.
Qed.

Lemma check_stack_ok `{Geometry} profiles prev x : (forall k pr, profiles !! k = Some pr -> profile_wf pr) -> is_side (stack_side x.1) = true -> in_u 64 (st_capacity_bytes x.1) ->
  check_stack profiles prev x = Ok tt -> stack_wf profiles x /\ st_stack_id x.1 ∉ st_stack_id <$> prev.*1.
Proof.
  intros Hpr Hside Hcap E. destruct x as [s b]. cbn [fst snd] in *. unfold check_stack in E. apply throw_bind_ok in E as [H1 E]. apply throw_bind_ok in E as [H2 E].
  destruct (profiles !! st_profile s) as [pr|] eqn:Ep; [|done]. apply throw_bind_ok in E as [H3 E]. apply throw_bind_ok in E as [H4 E].
  do 2 (apply throw_bind_ok in E as [_ E]). apply throw_bind_ok in E as [H5 E]. apply throw_bind_ok in E as [H6 E]. apply throw_bind_ok in E as [H7 E]. apply throw_if_ok in E.
  split_guards. split.
  - split; cbn [fst snd]; try done; try lia; [|unfold in_u in Hcap; lia]. exists pr. split; [done|]. split; [by eapply Hpr|]. split; intros Hg.
    + rewrite Hg in H6. rewrite bool_decide_eq_true_2 in H6 by done. cbn [andb] in H6. split_guards. lia.
    + rewrite Hg in H7. rewrite bool_decide_eq_true_2 in H7 by done. cbn [andb] in H7. split_guards. lia.
  - intros (q & Hq & Hin)%list_elem_of_fmap. apply list_elem_of_fmap in Hin as (y & -> & Hy).
    assert (existsb (fun q => st_stack_id q.1 =? st_stack_id s) prev = true) as Hx; [|congruence].
    apply existsb_exists. exists y. split; [by apply list_elem_of_In|]. by apply Z.eqb_eq.
Qed.

Lemma parse_stacks_ok `{Geometry} profiles l stacks : (forall k pr, profiles !! k = Some pr -> profile_wf pr) -> foldM (parse_stack profiles) [] l = Ok stacks ->
  (forall x, x ∈ stacks -> stack_wf profiles x) /\ NoDup (st_stack_id <$> stacks.*1).
Proof.
  intros Hpr E. apply (foldM_inv (parse_stack profiles) (fun stacks => (forall x, x ∈ stacks -> stack_wf profiles x) /\ NoDup (st_stack_id <$> stacks.*1)) l [] stacks); [| |done].
  - intros acc sj acc' _ [Ha Hn] E'. unfold parse_stack in E'. apply bind_ok in E' as (x & Hx & E'). apply bind_ok in E' as ([] & Hc & E'). injection E' as <-.
    apply read_stack_ok in Hx as [Hside Hcap]. apply (check_stack_ok profiles acc x Hpr Hside Hcap) in Hc as [Hwf Hnew]. split.
    + intros y [Hy|Hy%list_elem_of_singleton]%elem_of_app; [by apply Ha|by subst].
    + rewrite !fmap_app. apply list.NoDup_app. split; [done|]. split; [|apply NoDup_singleton]. intros i Hi Hi'. apply list_elem_of_singleton in Hi'. by subst i.
  - split; [intros x Hx; by apply elem_of_nil in Hx|constructor].
Qed.

Lemma home_ranges_typed l acc acc' : Forall (fun hr => in_u 64 (hr_base hr) /\ in_u 64 (hr_size_bytes hr)) acc -> foldM parse_home_range acc l = Ok acc' ->
  Forall (fun hr => in_u 64 (hr_base hr) /\ in_u 64 (hr_size_bytes hr)) acc'.
Proof.
  intros Ha E. eapply (foldM_inv parse_home_range (fun acc => Forall _ acc)); [|exact Ha|exact E]. intros s x s' _ Hs E'. unfold parse_home_range in E'.
  apply bind_ok in E' as (d & _ & E'). apply bind_ok in E' as (b & Hb & E'). apply bind_ok in E' as (z & Hz & E'). injection E' as <-.
  apply bind_ok in Hb as (? & _ & Hb). apply bind_ok in Hz as (? & _ & Hz). apply Forall_app. split; [done|]. repeat constructor; by eapply get_ullong_range.
Qed.
Lemma policy_of_parse j p : ParseAddressPolicy j = Ok p -> policy_typed p.
Proof.
  unfold ParseAddressPolicy. destruct (find_key j "address_policy") as [ap|]; intros E.
  - apply bind_ok in E as (m & _ & E). apply bind_ok in E as (mode & _ & E). apply bind_ok in E as (ranges & Hr & E). apply bind_ok in E as (a & Ha & E).
    apply bind_ok in E as (b & Hb & E). apply bind_ok in E as (c & Hc & E). apply bind_ok in E as (g & _ & E). injection E as <-.
    unfold policy_typed. cbn. split_and!; try (eapply (or_default_ok _ _ get_ullong _ _ (in_u 64)); [|by apply get_ullong_range|done]; unfold in_u; lia).
    destruct (find_key ap "home_ranges"); [|injection Hr as <-; constructor]. eapply home_ranges_typed; [|done]. constructor.
  - injection E as <-. unfold policy_typed, no_policy, in_u. cbn. split_and!; try lia. constructor.
Qed.

Lemma parse_system_ok `{Geometry} hw ms : ParseMemorySystem hw = Ok ms -> g_memory_system_active ms = true ->
  (forall k pr, ms_profiles ms !! k = Some pr -> profile_wf pr) /\ (forall x, x ∈ ms_stacks ms -> stack_wf (ms_profiles ms) x) /\
  NoDup (st_stack_id <$> (ms_stacks ms).*1) /\ policy_typed (g_address_policy ms) /\ g_memory_topology ms = kDistributedHbm.
Proof.
  intros E Hact. unfold ParseMemorySystem in E. destruct (find_key hw "memory_system") as [j|]; [|injection E as <-; done].
  apply bind_ok in E as (topology & _ & E). destruct (String.eqb topology "legacy_private"); [apply throw_bind_ok in E as [_ E]; injection E as <-; done|].
  apply throw_bind_ok in E as [_ E]. apply bind_ok in E as (cache & _ & E). apply throw_bind_ok in E as [_ E]. apply bind_ok in E as ([profiles rates] & Hp & E).
  apply bind_ok in E as (stacks & Hs & E). apply bind_ok in E as (policy & Hpol & E). injection E as <-. cbn.
  assert (forall k pr, profiles !! k = Some pr -> profile_wf pr) as Hpr.
  { destruct (find_key j "profiles") as [pj|]; [apply (parse_profiles_ok pj _ Hp)|]. injection Hp as <- <-. intros k pr Hk. by rewrite lookup_empty in Hk. }
  split; [done|]. destruct (find_key j "hbm_stacks") as [l|].
  - apply (parse_stacks_ok profiles _ _ Hpr) in Hs as [Hs Hn]. split; [done|]. split; [done|]. split; [by eapply policy_of_parse|done].
  - injection Hs as <-. split; [intros x Hx; by apply elem_of_nil in Hx|]. split; [constructor|]. split; [by eapply policy_of_parse|done].
Qed.

(** ** The layout *)

Definition tile_at `{Geometry} (side : Directions) (i : Z) : Z := match TileFor side i with Ok t => t | Err _ => -1 end.
Lemma TileFor_at `{Geometry} side i : is_side side = true -> TileFor side i = Ok (tile_at side i).
Proof. by destruct side. Qed.

(** The tiles under a stack, and the configuration of its channels. *)
Definition stack_tiles `{Geometry} (s : HBMStackConfig) : list Z := (fun i => tile_at (stack_side s) (st_start_idx s + i)) <$> seqZ 0 (st_phy_span_tiles s).
Definition port_tile `{Geometry} (s : HBMStackConfig) (c : Z) : Z := tile_at (stack_side s) (st_start_idx s + Z.quot c (st_channels_per_mem_port s)).
Definition channels_of `{Geometry} (profiles : gmap string HBMProfile) (s : HBMStackConfig) : list HBMChannelConfig :=
  match profiles !! st_profile s with
  | Some pr => (fun c => mkChannel (st_stack_id s) c (port_tile s c)) <$> seqZ 0 (n_channels pr s)
  | None => []
  end.

(** A stack fits on its edge and covers its ports. *)
Definition stack_fits `{Geometry} (profiles : gmap string HBMProfile) (s : HBMStackConfig) : Prop :=
  exists pr, profiles !! st_profile s = Some pr /\ ceil_div (channels_per_stack pr) (st_channels_per_mem_port s) <= st_phy_span_tiles s /\ 0 <= st_start_idx s /\
    st_start_idx s + st_phy_span_tiles s <= EdgeLen (stack_side s).
(** A legal layout: the stacks of a die lie on disjoint tiles, away from the ports of the template. *)
Record layout_ok `{Geometry} (dp : D2DPortTable) (profiles : gmap string HBMProfile) (stacks : list HBMStackConfig) : Prop := {
  lo_ids : NoDup (st_stack_id <$> stacks);
  lo_fits : forall s, s ∈ stacks -> stack_fits profiles s;
  lo_apart : forall die, 0 <= die < DieTopology.DIE_COUNT -> NoDup (stacks_on stacks die ≫= stack_tiles);
  lo_free : forall s x, s ∈ stacks -> x ∈ stack_tiles s -> x ∉ template_tiles dp
}.

(** The sums and the tile numbers that the code computes for a stack fit in an [int]. *)
Record int_sized `{Geometry} (profiles : gmap string HBMProfile) (s : HBMStackConfig) : Prop := {
  is_start : INT_MIN <= st_start_idx s;
  is_span : st_start_idx s + st_phy_span_tiles s <= INT_MAX;
  is_ports : forall pr, profiles !! st_profile s = Some pr -> channels_per_stack pr + st_channels_per_mem_port s - 1 <= INT_MAX;
  is_tiles : forall pr i, profiles !! st_profile s = Some pr -> st_start_idx s <= i <= st_start_idx s + channels_per_stack pr ->
    i <= INT_MAX /\ INT_MIN <= tile_at (stack_side s) i <= INT_MAX
}.
(** A stack on an edge, with channels to a port. *)
Record placeable `{Geometry} (profiles : gmap string HBMProfile) (s : HBMStackConfig) : Prop := {
  pl_side : is_side (stack_side s) = true;
  pl_ports : 0 < st_channels_per_mem_port s;
  pl_span : 0 < st_phy_span_tiles s;
  pl_channels : forall pr, profiles !! st_profile s = Some pr -> 0 < channels_per_stack pr;
  pl_sized : int_sized profiles s
}.

Lemma i32_in x : INT_MIN <= x <= INT_MAX -> i32 x = x.
Proof. unfold INT_MIN, INT_MAX. intros Hx. apply swrap_small; lia. Qed.

Section layout.
Context `{G : Geometry}.

Definition wrapped_tile (s : HBMStackConfig) (i : Z) : Z := tile_at (stack_side s) (i32 (st_start_idx s + i)).
Lemma claim_tile_ok s occ i : is_side (stack_side s) = true -> is_ok (claim_tile s occ i) = true <-> wrapped_tile s i ∉ occ /\ True.
Proof using.
  intros Hs. unfold claim_tile. rewrite TileFor_at by done. cbn [mbind result_bind]. fold (wrapped_tile s i). destruct (bool_decide (_ ∈ occ)) eqn:E; cbn.
  - apply bool_decide_eq_true in E. naive_solver.
  - apply bool_decide_eq_false in E. naive_solver.
Qed.
Lemma claim_tile_adds s occ i occ' : is_side (stack_side s) = true -> claim_tile s occ i = Ok occ' -> occ' = {[wrapped_tile s i]} ∪ occ.
Proof using.
  intros Hs E. unfold claim_tile in E. rewrite TileFor_at in E by done. cbn [mbind result_bind] in E. apply throw_bind_ok in E as [_ E]. by injection E as <-.
Qed.
Lemma claimed_tiles profiles s : placeable profiles s -> 0 <= st_start_idx s -> wrapped_tile s <$> seqZ 0 (st_phy_span_tiles s) = stack_tiles s.
Proof using.
  intros Hp H0. unfold stack_tiles. apply list_fmap_ext. intros n i Hi. apply list_elem_of_lookup_2, elem_of_seqZ in Hi. unfold wrapped_tile.
  rewrite i32_in; [done|]. pose proof (is_span _ _ (pl_sized _ _ Hp)). unfold INT_MIN. lia.
Qed.
Lemma expected_ports_ceil profiles s pr : placeable profiles s -> profiles !! st_profile s = Some pr -> expected_ports pr s = ceil_div (channels_per_stack pr) (st_channels_per_mem_port s).
Proof using.
  intros Hp Hpr. pose proof (pl_ports _ _ Hp). pose proof (pl_channels _ _ Hp pr Hpr). pose proof (is_ports _ _ (pl_sized _ _ Hp) pr Hpr).
  unfold expected_ports. rewrite i32_in by (unfold INT_MIN; lia). rewrite Z.quot_div_nonneg by lia. by rewrite ceil_div_alt by lia.
Qed.

Lemma place_stack_ok profiles s occ : placeable profiles s ->
  is_ok (place_stack profiles occ s) = true <-> stack_fits profiles s /\ NoDup (stack_tiles s) /\ forall x, x ∈ stack_tiles s -> x ∉ occ.
Proof using.
  intros Hp. pose proof (pl_side _ _ Hp) as Hs. pose proof (is_span _ _ (pl_sized _ _ Hp)) as Hsp. pose proof (is_start _ _ (pl_sized _ _ Hp)) as Hst. pose proof (pl_span _ _ Hp) as Hpos.
  unfold place_stack, stack_fits. destruct (profiles !! st_profile s) as [pr|] eqn:Epr; [|split; [done|intros [(? & ? & _) _]; done]].
  rewrite (expected_ports_ceil profiles s pr Hp Epr). rewrite i32_in by lia.
  destruct (Z.ltb_spec (st_phy_span_tiles s) (ceil_div (channels_per_stack pr) (st_channels_per_mem_port s))) as [H1|H1]; [split; [done|]; intros [(pr' & [= <-] & ? & _) _]; lia|].
  cbn [throw_if mbind result_bind]. destruct (_ || _) eqn:E.
  - split; [done|]. intros [(pr' & _ & _ & H2 & H3) _]. apply orb_true_iff in E as [E%Z.ltb_lt|E%Z.ltb_lt]; lia.
  - split_guards. cbn [throw_if mbind result_bind].
    rewrite (claim_loop (claim_tile s) (wrapped_tile s) (fun _ => True)); [|intros; by apply claim_tile_ok|intros; by apply claim_tile_adds].
    rewrite (claimed_tiles profiles s Hp) by lia. split.
    + intros [Hn Ha]. split; [exists pr; split_and!; (done || lia)|]. split; [done|]. rewrite <- (claimed_tiles profiles s Hp) by lia.
      intros x (i & -> & Hi)%list_elem_of_fmap. by apply Ha.
    + intros (_ & Hn & Ha). split; [done|]. intros i Hi. split; [|done]. apply Ha. rewrite <- (claimed_tiles profiles s Hp) by lia. by apply list_elem_of_fmap_2.
Qed.
Lemma place_stack_adds profiles s occ occ' : placeable profiles s -> place_stack profiles occ s = Ok occ' -> occ' = list_to_set (stack_tiles s) ∪ occ.
Proof using.
  intros Hp E. pose proof (pl_side _ _ Hp) as Hs. unfold place_stack in E. destruct (profiles !! st_profile s); [|done]. apply throw_bind_ok in E as [_ E]. apply throw_bind_ok in E as [Hg E].
  split_guards. rewrite <- (claimed_tiles profiles s Hp) by lia.
  apply (claimed (claim_tile s) (wrapped_tile s)) in E; [done|]. intros. by apply claim_tile_adds.
Qed.

Lemma place_all profiles l occ : (forall s, s ∈ l -> placeable profiles s) ->
  is_ok (foldM (place_stack profiles) occ l) = true <->
  (forall s, s ∈ l -> stack_fits profiles s) /\ NoDup (l ≫= stack_tiles) /\ forall x, x ∈ l ≫= stack_tiles -> x ∉ occ.
Proof using.
  revert occ. induction l as [|s l IH]; intros occ Hl; cbn [foldM].
  - split; [|done]. intros _. split; [intros s Hs; by apply elem_of_nil in Hs|]. split; [constructor|]. intros x Hx. by apply elem_of_nil in Hx.
  - pose proof (place_stack_ok profiles s occ (Hl s ltac:(left))) as Hp. change ((s :: l) ≫= stack_tiles) with (stack_tiles s ++ (l ≫= stack_tiles)).
    destruct (place_stack profiles occ s) as [occ'|e] eqn:E; cbn [is_ok] in Hp.
    + apply place_stack_adds in E as ->; [|apply Hl; left]. rewrite IH by (intros x Hx; apply Hl; by right). destruct (proj1 Hp eq_refl) as (Hfit & Hn & Ha).
      rewrite list.NoDup_app. split.
      * intros (Hf & Hn' & Ha'). split; [intros x [->|Hx]%elem_of_cons; [done|by apply Hf]|]. split.
        -- split; [done|]. split; [|done]. intros x Hx Hx'. specialize (Ha' x Hx'). set_solver.
        -- intros x [Hx|Hx]%elem_of_app; [by apply Ha|]. specialize (Ha' x Hx). set_solver.
      * intros (Hf & (_ & Hd & Hn') & Ha'). split; [intros x Hx; apply Hf; by right|]. split; [done|]. intros x Hx. specialize (Ha' x ltac:(set_solver)).
        intros [Hx'%elem_of_list_to_set|?]%elem_of_union; [|done]. by apply (Hd x).
    + split; [done|]. intros (Hf & Hn & Ha). apply Hp. split; [apply Hf; left|]. apply list.NoDup_app in Hn as (Hn & _ & _). split; [done|].
      intros x Hx. apply Ha. apply elem_of_app. by left.
Qed.

Lemma check_die_ok dp profiles stacks die : (forall s, s ∈ stacks -> placeable profiles s) ->
  is_ok (check_die dp profiles stacks die) = true <->
  (forall s, s ∈ stacks_on stacks die -> stack_fits profiles s) /\ NoDup (stacks_on stacks die ≫= stack_tiles) /\
  forall x, x ∈ stacks_on stacks die ≫= stack_tiles -> x ∉ template_tiles dp.
Proof using.
  intros Hs. rewrite <- place_all by (intros s [_ Hin]%list_elem_of_filter; by apply Hs). unfold check_die.
  by destruct (foldM (place_stack profiles) (template_tiles dp) (stacks_on stacks die)).
Qed.

Lemma check_id_ok profiles seen s : is_ok (check_id profiles seen s) = true <-> st_stack_id s ∉ seen /\ is_Some (profiles !! st_profile s).
Proof using.
  unfold check_id. destruct (bool_decide (_ ∈ seen)) eqn:E; cbn [throw_if mbind result_bind].
  - apply bool_decide_eq_true in E. split; [done|]. naive_solver.
  - apply bool_decide_eq_false in E. destruct (bool_decide (is_Some _)) eqn:E'; cbn.
    + apply bool_decide_eq_true in E'. naive_solver.
    + apply bool_decide_eq_false in E'. split; [done|]. naive_solver.
Qed.

Lemma stack_placeable profiles s b : stack_wf profiles (s, b) -> int_sized profiles s -> placeable profiles s.
Proof using.
  intros Hwf Hi. destruct (swf_profile _ _ Hwf) as (pr & Ep & Hpr & H1 & H2). cbn [fst snd] in *. split; [apply (swf_side _ _ Hwf)| | | |done].
  - destruct (port_granularity b); [specialize (H1 eq_refl); lia|specialize (H2 eq_refl); lia].
  - apply (swf_span _ _ Hwf).
  - intros pr' Ep'. destruct Hpr as [? _]. assert (pr' = pr) as -> by congruence. lia.
Qed.

Lemma validate_layout dp ms : g_memory_system_active ms = true -> (forall x, x ∈ ms_stacks ms -> stack_wf (ms_profiles ms) x) -> (forall s, s ∈ (ms_stacks ms).*1 -> int_sized (ms_profiles ms) s) ->
  ValidateMemAttach dp ms = Ok tt <-> layout_ok dp (ms_profiles ms) (ms_stacks ms).*1.
Proof using.
  intros Hact Hwf Hint. set (stacks := (ms_stacks ms).*1) in *. set (profiles := ms_profiles ms) in *.
  assert (forall s, s ∈ stacks -> exists b, (s, b) ∈ ms_stacks ms) as Hin.
  { intros s ([s' b] & -> & Hs)%list_elem_of_fmap. by exists b. }
  assert (forall s, s ∈ stacks -> placeable profiles s) as Hside by (intros s Hs; destruct (Hin s Hs) as [b Hb]; by apply (stack_placeable profiles s b (Hwf _ Hb)), Hint).
  assert (ValidateMemAttach dp ms = Ok tt <-> is_ok (ValidateMemAttach dp ms) = true) as -> by (destruct (ValidateMemAttach dp ms) as [[]|]; split; done).
  unfold ValidateMemAttach. rewrite Hact. cbn [negb]. fold stacks profiles.
  pose proof (claim_loop (check_id profiles) st_stack_id (fun s => is_Some (profiles !! st_profile s)) (check_id_ok profiles)) as Hids.
  specialize (Hids ltac:(intros s x s' E; unfold check_id in E; do 2 (apply throw_bind_ok in E as [_ E]); by injection E as <-) stacks ∅).
  pose proof (foldM_is_ok (fun _ => check_die dp profiles stacks) (fun die => is_ok (check_die dp profiles stacks die) = true) (seqZ 0 DieTopology.DIE_COUNT) tt ltac:(done)) as Hdies.
  assert (forall s, s ∈ stacks -> 0 <= st_compute_die_id s < DieTopology.DIE_COUNT /\ s ∈ stacks_on stacks (st_compute_die_id s)) as Hdie.
  { intros s Hs. split; [destruct (Hin s Hs) as [b Hb]; apply (swf_die _ _ (Hwf _ Hb))|]. by apply list_elem_of_filter. }
  transitivity (is_ok (foldM (check_id profiles) ∅ stacks) = true /\ is_ok (foldM (fun _ => check_die dp profiles stacks) tt (seqZ 0 DieTopology.DIE_COUNT)) = true).
  { destruct (foldM (check_id profiles) ∅ stacks); cbn; naive_solver. }
  rewrite Hids, Hdies. split.
  - intros [[Hn _] Hd]. assert (forall die, 0 <= die < DieTopology.DIE_COUNT -> is_ok (check_die dp profiles stacks die) = true) as Hd' by (intros die Hr; apply Hd, elem_of_seqZ; lia).
    split; [done|..].
    + intros s Hs. destruct (Hdie s Hs) as [Hr Hon]. apply (proj1 (check_die_ok dp profiles stacks _ Hside) (Hd' _ Hr)). done.
    + intros die Hr. apply (proj1 (check_die_ok dp profiles stacks _ Hside) (Hd' _ Hr)).
    + intros s x Hs Hx. destruct (Hdie s Hs) as [Hr Hon]. apply (proj1 (check_die_ok dp profiles stacks _ Hside) (Hd' _ Hr)).
      apply list_elem_of_bind. by exists s.
  - intros [H1 H2 H3 H4]. split.
    + split; [done|]. intros s Hs. split; [set_solver|]. destruct (H2 s Hs) as (pr & -> & _). by eexists.
    + intros die Hr%elem_of_seqZ. apply check_die_ok; [done|]. split; [intros s [_ Hs]%list_elem_of_filter; by apply H2|]. split; [apply H3; lia|].
      intros x (s & Hx & Hs)%list_elem_of_bind. apply list_elem_of_filter in Hs as [_ Hs]. by apply (H4 s).
Qed.
End layout.

(** ** The attachment *)

Lemma find_only {A} (P : A -> bool) l x : x ∈ l -> P x = true -> (forall y, y ∈ l -> P y = true -> y = x) -> List.find P l = Some x.
Proof.
  intros Hx HP Hu. destruct (List.find P l) as [y|] eqn:E.
  - apply find_some in E as [Hy HPy]. f_equal. by apply Hu; [apply list_elem_of_In|].
  - apply list_elem_of_In in Hx. pose proof (find_none _ _ E x Hx). congruence.
Qed.

(** The stack and the channel of a decoded address, in every mode. *)
Lemma decoded_channel t p a c r : policy_typed p -> in_u 64 a -> DecodeAddress t p a c = Ok r ->
  (exists s, s ∈ g_hbm_stacks t /\ st_stack_id s = HbmAddressMap.stack_id r /\ (NoDup (st_stack_id <$> g_hbm_stacks t) -> st_compute_die_id s = HbmAddressMap.home_die r)) /\
  HbmAddressMap.channel_id r ∈ StackChannelList t (HbmAddressMap.stack_id r).
Proof.
  intros (T1 & T2 & _ & T4) Ha E. apply DecodeAddress_ok in E as (_ & Hs & Hc & Hm). rewrite list.Forall_forall in T4. unfold in_u in *.
  destruct Hm as [(_ & Hne & E)|(_ & hr & Hin & Hcov & Hne & E)].
  - eapply place_ok in E as (E1 & Hi & _ & _ & E2 & Hj & _ & _ & Eh); try (unfold in_u; lia); [|done]. rewrite E2. split; [|by apply elem_index].
    assert (HbmAddressMap.stack_id r ∈ unique (merge_sort Z.le (st_stack_id <$> g_hbm_stacks t))) as Hst by (rewrite E1; by apply elem_index).
    rewrite unique_elem, merge_sort_Permutation in Hst. apply list_elem_of_fmap in Hst as (s & Es & Hst). destruct (FindStack_some t s Hst) as (s' & Ef & Hst').
    exists s'. split; [done|]. apply find_some in Ef as Ef'. destruct Ef' as [_ Ef'%Z.eqb_eq]. split; [congruence|]. intros _. by rewrite Eh, Es, Ef.
  - specialize (T4 hr Hin) as [Tb Ts]. pose proof (covers_offset _ _ _ _ Hcov) as Hoff.
    eapply place_ok in E as (E1 & Hi & _ & _ & E2 & Hj & _ & _ & Eh); try (unfold in_u in *; lia); [|done]. rewrite E2. split; [|by apply elem_index].
    assert (HbmAddressMap.stack_id r ∈ DieStackList t (hr_die_id hr)) as Hst by (rewrite E1; by apply elem_index).
    apply DieStackList_elem in Hst as (s & Hin' & Es & Ed). exists s. split; [done|]. split; [done|]. intros _. congruence.
Qed.

Section attach.
Context `{G : Geometry} (Hgeo : ValidateAddressSpace = Ok tt) (hw : json) (ms : mem_system).
Context (Hparse : ParseMemorySystem hw = Ok ms) (Hact : g_memory_system_active ms = true).
Notation stacks := (ms_stacks ms).*1.
Notation profiles := (ms_profiles ms).
Definition all_channels : list HBMChannelConfig := stacks ≫= channels_of profiles.

Lemma parsed_stack s : s ∈ stacks -> exists b, (s, b) ∈ ms_stacks ms /\ stack_wf profiles (s, b).
Proof using Hparse Hact.
  intros ([s' b] & -> & Hs)%list_elem_of_fmap. exists b. split; [done|]. by apply (parse_system_ok hw ms Hparse Hact).
Qed.
Lemma parsed_side s : s ∈ stacks -> is_side (stack_side s) = true.
Proof using Hparse Hact. intros (b & _ & Hs)%parsed_stack. apply (swf_side _ _ Hs). Qed.
Lemma parsed_ids : NoDup (st_stack_id <$> stacks).
Proof using Hparse Hact. by apply (parse_system_ok hw ms Hparse Hact). Qed.
Lemma same_stack s s' : s ∈ stacks -> s' ∈ stacks -> st_stack_id s = st_stack_id s' -> s = s'.
Proof using Hparse Hact.
  intros Hs Hs' E. apply list_elem_of_lookup in Hs as [i Hi], Hs' as [j Hj].
  assert (i = j) as <-; [|congruence]. apply (NoDup_lookup _ _ _ (st_stack_id s) parsed_ids); rewrite list_lookup_fmap; [by rewrite Hi|by rewrite Hj, E].
Qed.

Lemma attach_one s pr c acc : s ∈ stacks -> int_sized profiles s -> profiles !! st_profile s = Some pr -> 0 <= c < n_channels pr s ->
  attach_channel s acc c = Ok (acc ++ [mkChannel (st_stack_id s) c (port_tile s c)]).
Proof using Hparse Hact.
  intros Hs Hi Ep Hc. destruct (parsed_stack s Hs) as (b & _ & Hwf). pose proof (stack_placeable profiles s b Hwf Hi) as Hp. unfold attach_channel.
  assert (n_channels pr s <= channels_per_stack pr) as Hn by (pose proof (pl_channels _ _ Hp pr Ep); unfold n_channels; destruct (decide _); lia).
  assert (0 <= Z.quot c (st_channels_per_mem_port s) <= c) as Hq.
  { pose proof (pl_ports _ _ Hp). rewrite Z.quot_div_nonneg by lia. split; [apply Z.div_pos; lia|]. apply Z.div_le_upper_bound; nia. }
  rewrite i32_in; [by rewrite TileFor_at by apply (pl_side _ _ Hp)|]. pose proof (is_start _ _ Hi). split; [lia|].
  apply (is_tiles _ _ Hi pr); [done|lia].
Qed.

Lemma build_ok : (forall s, s ∈ stacks -> int_sized profiles s) -> BuildMemAttach ms = Ok all_channels.
Proof using Hparse Hact.
  intros Hi. unfold BuildMemAttach, all_channels. rewrite Hact. cbn [negb].
  assert (forall s pr l acc, s ∈ stacks -> profiles !! st_profile s = Some pr -> (forall c, c ∈ l -> 0 <= c < n_channels pr s) ->
    foldM (attach_channel s) acc l = Ok (acc ++ ((fun c => mkChannel (st_stack_id s) c (port_tile s c)) <$> l))) as Hone.
  { intros s pr l acc Hs Ep Hl. revert acc. induction l as [|c l IH]; intros acc; cbn [foldM fmap list_fmap]; [by rewrite app_nil_r|].
    rewrite (attach_one s pr) by (done || (by apply Hi) || (apply Hl; left)). cbn [mbind result_bind]. rewrite IH, <- app_assoc by (intros; apply Hl; by right). done. }
  assert (forall l acc, (forall s, s ∈ l -> s ∈ stacks) -> foldM (attach_stack profiles) acc l = Ok (acc ++ (l ≫= channels_of profiles))) as Hall.
  { induction l as [|s l IH]; intros acc Hl; cbn [foldM]; [by rewrite app_nil_r|]. change ((s :: l) ≫= channels_of profiles) with (channels_of profiles s ++ (l ≫= channels_of profiles)).
    unfold attach_stack at 1, channels_of at 1. destruct (profiles !! st_profile s) as [pr|] eqn:Ep.
    - rewrite (Hone s pr) by (done || (apply Hl; left) || (intros c Hc%elem_of_seqZ; lia)). rewrite IH by (intros x Hx; apply Hl; by right). by rewrite <- app_assoc.
    - rewrite IH by (intros x Hx; apply Hl; by right). done. }
  by rewrite Hall.
Qed.

Lemma channel_elem c : c ∈ all_channels <-> exists s pr, s ∈ stacks /\ profiles !! st_profile s = Some pr /\ 0 <= ch_channel_id c < n_channels pr s /\
  c = mkChannel (st_stack_id s) (ch_channel_id c) (port_tile s (ch_channel_id c)).
Proof using.
  unfold all_channels. rewrite list_elem_of_bind. split.
  - intros (s & Hc & Hs). unfold channels_of in Hc. destruct (profiles !! st_profile s) as [pr|] eqn:Ep; [|by apply elem_of_nil in Hc].
    apply list_elem_of_fmap in Hc as (i & -> & Hi%elem_of_seqZ). exists s, pr. cbn. split_and!; (done || lia).
  - intros (s & pr & Hs & Ep & Hi & Ec). exists s. split; [|done]. unfold channels_of. rewrite Ep, Ec. apply list_elem_of_fmap. exists (ch_channel_id c). split; [done|]. apply elem_of_seqZ. lia.
Qed.
Definition channel_key (c : HBMChannelConfig) : Z * Z := (ch_stack_id c, ch_channel_id c).
Lemma same_channel c c' : c ∈ all_channels -> c' ∈ all_channels -> channel_key c = channel_key c' -> c = c'.
Proof using Hparse Hact.
  intros (s & pr & Hs & Ep & Hi & Ec)%channel_elem (s' & pr' & Hs' & Ep' & Hi' & Ec')%channel_elem [= E1 E2].
  rewrite Ec, Ec' in E1. cbn in E1. assert (s = s') as <- by by apply same_stack. rewrite Ec, Ec', E2. done.
Qed.
Lemma channel_keys : NoDup (channel_key <$> all_channels).
Proof using Hparse Hact.
  unfold all_channels. pose proof parsed_ids as Hn. induction stacks as [|s l IH]; [constructor|]. cbn [fmap list_fmap] in Hn. apply list.NoDup_cons in Hn as [Hs Hn].
  change ((s :: l) ≫= channels_of profiles) with (channels_of profiles s ++ (l ≫= channels_of profiles)). rewrite fmap_app. apply list.NoDup_app. split; [|split; [|by apply IH]].
  - unfold channels_of. destruct (profiles !! st_profile s); [|constructor]. rewrite <- list_fmap_compose. apply NoDup_fmap_2_strong; [|apply NoDup_seqZ]. by intros x y _ _ [= ->].
  - intros k (c & -> & Hc)%list_elem_of_fmap (c' & E & Hc')%list_elem_of_fmap. apply list_elem_of_bind in Hc' as (s' & Hc' & Hs').
    unfold channels_of in Hc, Hc'. destruct (profiles !! st_profile s); [|by apply elem_of_nil in Hc]. destruct (profiles !! st_profile s'); [|by apply elem_of_nil in Hc'].
    apply list_elem_of_fmap in Hc as (i & -> & _). apply list_elem_of_fmap in Hc' as (i' & -> & _). injection E as E _. apply Hs. cbn. rewrite E. by apply list_elem_of_fmap_2.
Qed.

Notation tables := (tables_of ms (all_channels)).

Lemma attach_tables_wf : tables_wf tables.
Proof using Hparse Hact. split; [apply parsed_ids|apply channel_keys]. Qed.

Lemma stack_channels s pr : s ∈ stacks -> profiles !! st_profile s = Some pr -> forall c, c ∈ StackChannelList tables (st_stack_id s) <-> 0 <= c < n_channels pr s.
Proof using Hparse Hact.
  intros Hs Ep c. unfold StackChannelList. rewrite merge_sort_Permutation, list_elem_of_fmap. split.
  - intros (x & -> & [Hid Hx]%list_elem_of_filter). apply channel_elem in Hx as (s' & pr' & Hs' & Ep' & Hi & Ec). rewrite Ec in Hid. cbn in Hid.
    assert (s' = s) as -> by by apply same_stack. congruence.
  - intros Hc. exists (mkChannel (st_stack_id s) c (port_tile s c)). split; [done|]. apply list_elem_of_filter. split; [done|]. apply channel_elem. by exists s, pr.
Qed.

Lemma n_channels_pos pr s : profile_wf pr -> 0 < n_channels pr s <= channels_per_stack pr.
Proof using. intros [? _]. unfold n_channels. destruct (decide _); lia. Qed.

Lemma attach_usable : tables_usable tables.
Proof using Hparse Hact.
  unfold tables_usable. apply list.Forall_forall. intros s Hs. cbn [g_hbm_stacks tables_of] in Hs. destruct (parsed_stack s Hs) as (b & _ & Hwf).
  destruct (swf_profile _ _ Hwf) as (pr & Ep & Hpr & _). cbn [fst] in Ep. cbn [g_hbm_profiles tables_of]. rewrite Ep. split; [|apply Hpr]. intros Hnil.
  pose proof (proj2 (stack_channels s pr Hs Ep 0)) as H0. rewrite Hnil in H0. pose proof (n_channels_pos pr s Hpr). by apply elem_of_nil in H0; [|lia].
Qed.

(** A port lies on a tile under its stack. *)
Lemma port_in_span dp s pr c : layout_ok dp profiles stacks -> s ∈ stacks -> profiles !! st_profile s = Some pr -> 0 <= c < n_channels pr s ->
  port_tile s c ∈ stack_tiles s /\ 0 <= port_tile s c < CORES_PER_DIE /\ IsDieEdge (port_tile s c) (stack_side s) = true.
Proof using Hgeo Hparse Hact.
  intros Hl Hs Ep Hc. destruct (parsed_stack s Hs) as (b & _ & Hwf). destruct (swf_profile _ _ Hwf) as (pr' & Ep' & Hpr & H1 & H2). cbn [fst snd] in *.
  assert (pr' = pr) as -> by congruence. destruct (lo_fits _ _ _ Hl s Hs) as (pr' & Ep'' & Hports & Hst & Hend). assert (pr' = pr) as -> by congruence. clear Ep' Ep''.
  assert (0 < st_channels_per_mem_port s) as Hcpp by (destruct (port_granularity b); [specialize (H1 eq_refl); lia|specialize (H2 eq_refl); lia]).
  pose proof (n_channels_pos pr s Hpr) as Hn. destruct Hpr as [Hch _].
  assert (0 <= Z.quot c (st_channels_per_mem_port s) < st_phy_span_tiles s) as Hq.
  { rewrite Z.quot_div_nonneg by lia. split; [apply Z.div_pos; lia|]. eapply Z.lt_le_trans; [|exact Hports].
    apply Z.div_lt_upper_bound; [lia|]. pose proof (ceil_div_spec (channels_per_stack pr) (st_channels_per_mem_port s) Hcpp). lia. }
  split; [unfold stack_tiles; apply list_elem_of_fmap; exists (Z.quot c (st_channels_per_mem_port s)); split; [done|apply elem_of_seqZ; lia]|].
  destruct (TileFor_spec Hgeo (stack_side s) (st_start_idx s + Z.quot c (st_channels_per_mem_port s)) (parsed_side s Hs) ltac:(lia)) as (t & Et & Ht & He & _).
  unfold port_tile, tile_at. by rewrite Et.
Qed.

Lemma attached s pr c : s ∈ stacks -> profiles !! st_profile s = Some pr -> 0 <= c < n_channels pr s ->
  AttachmentRouter tables (st_stack_id s) c = Ok (GlobalId (st_compute_die_id s) (port_tile s c)) /\
  find_channel tables (st_stack_id s) c = Some (mkChannel (st_stack_id s) c (port_tile s c)).
Proof using Hparse Hact.
  intros Hs Ep Hc. set (x := mkChannel (st_stack_id s) c (port_tile s c)).
  assert (List.find (fun c' => (ch_stack_id c' =? st_stack_id s) && (ch_channel_id c' =? c)) all_channels = Some x) as Ef.
  { assert (x ∈ all_channels) as Hx by (apply channel_elem; by exists s, pr). apply find_only; [done|by cbn; rewrite !Z.eqb_refl|].
    intros y Hy [E1%Z.eqb_eq E2%Z.eqb_eq]%andb_true_iff. apply same_channel; [done|done|]. unfold channel_key. by rewrite E1, E2. }
  unfold AttachmentRouter, find_channel. cbn [g_hbm_stacks g_hbm_channels tables_of]. rewrite Ef. split; [|done].
  rewrite (find_only _ stacks s); [done|done|apply Z.eqb_refl|]. intros y Hy E%Z.eqb_eq. by apply same_stack.
Qed.

Lemma runtime_ok resolve config l : BuildHBMBackends resolve config ms all_channels false = Ok l -> instance_key <$> l = channel_key <$> all_channels.
Proof using.
  clear. unfold BuildHBMBackends. intros E. do 2 (apply throw_bind_ok in E as [_ E]). apply bind_ok in E as ([seen l'] & E & E'). apply throw_bind_ok in E' as [_ [= <-]].
  apply (foldM_prefix_inv (build_instance resolve config ms) (fun done_ acc => instance_key <$> acc.2 = channel_key <$> done_)) in E; [done| |done].
  intros pre c post acc acc' _ Hacc E'. unfold build_instance in E'. cbv zeta in E'. apply throw_bind_ok in E' as [_ E'].
  destruct (find_stack ms (ch_stack_id c)) as [[s b]|]; [|done]. apply bind_ok in E' as (be & _ & [= <-]). cbn [snd]. by rewrite !fmap_app, Hacc.
Qed.

Lemma bind_all l a : NoDup (instance_key <$> l) -> endpoints_ a = ∅ -> exists a', BindAdapter l a = Ok a' /\ endpoints_ a' = list_to_set (instance_key <$> l).
Proof using.
  clear. intros Hn Ha. unfold BindAdapter. destruct (foldM_total_prefix (fun a i => BindEndpoint (instance_key i) a) (fun pre a => endpoints_ a = list_to_set (instance_key <$> pre)) l a) as (a' & E & H); [| |by exists a'].
  - intros pre i post b -> Hb. unfold BindEndpoint. rewrite throw_bind_false.
    + eexists. split; [reflexivity|]. cbn [endpoints_]. rewrite Hb, fmap_app. cbn [fmap list_fmap]. set_solver.
    + apply bool_decide_eq_false. rewrite Hb. intros Hin%elem_of_list_to_set. rewrite fmap_app in Hn. apply list.NoDup_app in Hn as (_ & Hd & _). apply (Hd _ Hin). left.
  - by rewrite Ha.
Qed.
End attach.

(** ** Properties *)

(** C13: the validation of the MEM attachment accepts exactly the legal layouts.  For a
    configuration that parses, with numbers whose sums and tiles fit in an [int], the ports are built, one per channel of the backend
    granularity, and the check passes just when every stack fits on its edge with a
    span that covers its ports, and the stacks of each die lie on tiles of their
    own, away from the ports of the template, corners included. *)
Theorem mem_layout_accepted `{Geometry} (hw : json) (ms : mem_system) (dp : D2DPortTable) :
  ParseMemorySystem hw = Ok ms -> g_memory_system_active ms = true -> (forall s, s ∈ (ms_stacks ms).*1 -> int_sized (ms_profiles ms) s) ->
  BuildMemAttach ms = Ok ((ms_stacks ms).*1 ≫= channels_of (ms_profiles ms)) /\
  (ValidateMemAttach dp ms = Ok tt <-> layout_ok dp (ms_profiles ms) (ms_stacks ms).*1).
Proof.
  intros Hp Ha Hi. split; [by eapply build_ok|]. apply validate_layout; [done| |done]. by apply (parse_system_ok hw ms Hp Ha).
Qed.


(** *** Two stacks on opposite corners of a machine of four dies *)

Definition demo_stack_json (id die : Z) (side : string) (start span : Z) (extra : list (string * json)) : json :=
  JObj (app [("stack_id", JInt id); ("compute_die_id", JInt die); ("profile", JStr "hbm"); ("side", JStr side); ("start_idx", JInt start);
   ("phy_span_tiles", JInt span); ("capacity_bytes", JInt 4096); ("backend", JStr "behavioral"); ("channel_dram_config", JStr "hbm2.json")]%string extra).
Definition demo_range_json (die base size : Z) : json := JObj [("die_id", JInt die); ("base", JInt base); ("size_bytes", JInt size)]%string.
Definition demo_mem_json : json :=
  JObj [("memory_system", JObj [
    ("profiles", JObj [("hbm", JObj [("generation", JStr "HBM2"); ("channels_per_stack", JInt 2); ("pseudo_channels_per_channel", JInt 2);
       ("data_rate_gbps_per_pin", JFloat 8 5); ("stack_bus_width_bits", JInt 256)])]);
    ("hbm_stacks", JArr [demo_stack_json 0 0 "W" 0 2 []; demo_stack_json 5 3 "E" 1 1 [("port_granularity", JStr "aggregated"); ("channels_per_mem_port", JInt 2)]]);
    ("address_policy", JObj [("home_ranges", JArr [demo_range_json 0 0 4096; demo_range_json 3 4096 4096])])])]%string.
Definition demo_system : mem_system := match @ParseMemorySystem demo_geometry demo_mem_json with Ok ms => ms | Err _ => legacy_system end.
Definition demo_template : D2DPortTable := mkTable false [] [] [].
Definition demo_channels : list HBMChannelConfig := match @BuildMemAttach demo_geometry demo_system with Ok l => l | Err _ => [] end.
Definition demo_resolve (path : string) : result double := Ok (32, 1%positive).
Definition demo_config (s : HBMStackConfig) (b : stack_backend) (pr : HBMProfile) (d : double) : result backend_cfg := Ok (mkBackendCfg (fun n => n * 31) 500 0 0).
Definition demo_instances : list HBMRuntimeInstance := match BuildHBMBackends demo_resolve demo_config demo_system demo_channels false with Ok l => l | Err _ => [] end.

Definition demo_stacks : list HBMStackConfig := [mkStack 0 0 "hbm" 0 0 2 4096 kChannel 1; mkStack 5 3 "hbm" 1 1 1 4096 kChannel 2]%string.
Lemma demo_sized s : s ∈ (ms_stacks demo_system).*1 -> @int_sized demo_geometry (ms_profiles demo_system) s.
Proof.
  assert ((ms_stacks demo_system).*1 = demo_stacks) as -> by (vm_compute; reflexivity).
  assert (forall k, ms_profiles demo_system !! k = Some (mkProfile 2 2) \/ ms_profiles demo_system !! k = None) as Hpr.
  { assert (ms_profiles demo_system = {["hbm"%string := mkProfile 2 2]}) as -> by (vm_compute; reflexivity).
    intros k. destruct (decide (k = "hbm"%string)) as [->|Hk]; [left; apply lookup_singleton_eq|right; by apply lookup_singleton_ne]. }
  assert (forall s, s ∈ demo_stacks -> 0 <= st_start_idx s <= 1 /\ st_phy_span_tiles s <= 2 /\ st_channels_per_mem_port s <= 2 /\ (stack_side s = WEST \/ stack_side s = EAST)) as Hall.
  { intros x Hx. repeat (apply elem_of_cons in Hx as [->|Hx]; [cbn; split_and!; try lia; (by left) || (by right)|]). by apply elem_of_nil in Hx. }
  intros Hs. destruct (Hall s Hs) as (H1 & H2 & H3 & H4). unfold INT_MAX, INT_MIN in *. split; unfold INT_MAX, INT_MIN; try lia.
  - intros pr Ep. destruct (Hpr (st_profile s)) as [E|E]; rewrite E in Ep; [|done]. injection Ep as <-. cbn. lia.
  - intros pr i Ep Hi. destruct (Hpr (st_profile s)) as [E|E]; rewrite E in Ep; [|done]. injection Ep as <-. cbn in Hi. split; [lia|].
    unfold tile_at. assert (@GRID_X demo_geometry = 2) as Eg by (vm_compute; reflexivity). destruct H4 as [-> | ->]; cbn [TileFor]; rewrite Eg; lia.
Qed.

Lemma mem_layout_accepted_witness : @layout_ok demo_geometry demo_template (ms_profiles demo_system) (ms_stacks demo_system).*1 /\
  ~ @layout_ok demo_geometry (mkTable true [mkPort 0 3 EAST ROLE_HOST EAST 1 0 1 (-1)] [] []) (ms_profiles demo_system) (ms_stacks demo_system).*1.
Proof.
  assert (@ParseMemorySystem demo_geometry demo_mem_json = Ok demo_system) as Ep by (vm_compute; reflexivity).
  assert (g_memory_system_active demo_system = true) as Ea by (vm_compute; reflexivity). split.
  - apply (@mem_layout_accepted demo_geometry demo_mem_json demo_system demo_template Ep Ea demo_sized). vm_compute. reflexivity.
  - intros Hl. apply (@mem_layout_accepted demo_geometry demo_mem_json demo_system _ Ep Ea demo_sized) in Hl. vm_compute in Hl. discriminate Hl.
Defined.

