(* ===== verification/Workload.v ===== *)
(** The ids of a workload: the shift of a workload to another die and the structural check
    that runs before a workload is built ([src/monitor/workload_normalize.cpp]).  A reference
    into a JSON value that is written through is a function that rebuilds the value. *)

From S2P Require Import Prelude Json D2DConfig DieTopology PortSelect HostAttach Routing.

(** ** JSON values that change *)

Fixpoint update_member (key : string) (f : json -> json) (m : list (string * json)) : list (string * json) :=
  match m with
  | [] => []
  | (k, v) :: m' => if String.eqb k key then (k, f v) :: m' else (k, v) :: update_member key f m'
  end.
(** [if (j.contains(key)) f(j.at(key));] *)
Definition at_key (key : string) (f : json -> json) (j : json) : json :=
  match j with JObj m => JObj (update_member key f m) | _ => j end.
(** [for (auto &x : j) f(x);]  A value that is no container is its only element. *)
Definition each (f : json -> json) (j : json) : json :=
  match j with
  | JArr l => JArr (f <$> l)
  | JObj m => JObj ((fun e => (e.1, f e.2)) <$> m)
  | JNull => JNull
  | _ => f j
  end.
(** [j[key] = v;]  The members of an object are kept in the order of their keys. *)
Fixpoint set_member (key : string) (v : json) (m : list (string * json)) : list (string * json) :=
  match m with
  | [] => [(key, v)]
  | (k, w) :: m' => if String.eqb k key then (k, v) :: m' else if String.ltb key k then (key, v) :: m else (k, w) :: set_member key v m'
  end.
Definition set_key (key : string) (v : json) (j : json) : result json :=
  match j with
  | JObj m => Ok (JObj (set_member key v m))
  | JNull => Ok (JObj [(key, v)])
  | _ => Err (json_error "cannot use operator[] with a string argument")
  end.
Definition json_size (j : json) : Z :=
  match j with JArr l => Z.of_nat (length l) | JObj m => Z.of_nat (length m) | JNull => 0 | _ => 1 end.
(** [j.at(i)] *)
Definition json_index (j : json) (i : Z) : result json :=
  match j with
  | JArr l => match (if i <? 0 then None else l !! Z.to_nat i) with Some v => Ok v | None => Err (json_error "array index out of range") end
  | _ => Err (json_error "cannot use at()")
  end.
(** The member as an integer: [x.contains(key) && x.at(key).is_number_integer()], then [x.at(key).get<int>()]. *)
Definition int_member (j : json) (key : string) : option Z :=
  match find_key j key with Some (JInt z) => Some (i32 z) | _ => None end.
Definition member_items (j : json) (key : string) : list json :=
  match find_key j key with Some l => json_items l | None => [] end.

(** ** The shift to another die *)

Section workload.
Context `{Geometry}.

Definition shift (off : Z) (v : json) : json :=
  match v with
  | JInt z => let id := i32 z in if 0 <=? id then JInt (id + off) else v
  | _ => v
  end.
Definition shift_core (off : Z) (core : json) : json :=
  at_key "worklist" (each (at_key "cast" (each (at_key "dest" (shift off)))))
    (at_key "send_global_mem" (shift off) (at_key "prim_copy" (shift off) (at_key "id" (shift off) core))).
Definition NormalizeWorkloadJson (j : json) (die_id : Z) : result json :=
  if die_id =? 0 then Ok j else
  let off := die_id * CORES_PER_DIE in
  let j := at_key "chips" (each (at_key "cores" (each (shift_core off)))) j in
  let j := at_key "source" (each (at_key "dest" (shift off))) j in
  set_key "id_space" (JStr "global") j.

(** ** The structural check *)

Variable links : list D2DLink.

Definition check_bounds (global : bool) (id : Z) (what : string) : result unit :=
  if id <? 0 then Ok tt else
  THROW runtime_error (String.append what " id out of range") WHEN TOTAL_CORES <=? id;;
  throw_if (negb global && (CORES_PER_DIE <=? id)) (runtime_error (String.append what " references a core on die>0 but id_space is die0-local")).

(** One hop of the path between dies. *)
Definition die_hop (dest cur : Z) : result Z :=
  let cx := Z.rem cur DIE_X in let cy := Z.quot cur DIE_X in
  (match DieFirstHopDir cur dest with
   | EAST => Ok (cx + 1, cy) | WEST => Ok (cx - 1, cy) | NORTH => Ok (cx, cy + 1) | SOUTH => Ok (cx, cy - 1)
   | _ => Err (runtime_error "cross-die path: no die-level direction")
   end) ≫= fun '((cx, cy) : Z * Z) =>
  THROW runtime_error "cross-die path leaves the die mesh" WHEN (cx <? 0) || (DIE_X <=? cx) || (cy <? 0) || (DIE_Y <=? cy);;
  let nxt := cy * DIE_X + cx in
  THROW runtime_error "cross-die traffic requires D2D Link" WHEN negb (HasD2DLink links cur nxt) || negb (HasD2DLink links nxt cur);;
  Ok nxt.
(** The loop, with the rounds that its own guard leaves. *)
Fixpoint walk_dies (guard : nat) (dest cur : Z) : result unit :=
  if cur =? dest then Ok tt else
  die_hop dest cur ≫= fun nxt : Z =>
  match guard with
  | O => Err (runtime_error "cross-die path did not converge")
  | S guard => walk_dies guard dest nxt
  end.
Definition path_guard : nat := Z.to_nat (DIE_X + DIE_Y + 2).

Definition tag_of (cast : json) (dest : Z) : Z := default dest (int_member cast "tag").
Definition check_cast (global allow_d2d : bool) (src_die : Z) (tag2dest : gmap Z Z) (cast : json) : result (gmap Z Z) :=
  match int_member cast "dest" with
  | None => Ok tag2dest
  | Some dest =>
      if dest <? 0 then Ok tag2dest else
      check_bounds global dest "cast.dest" ≫= fun _ =>
      let tag := tag_of cast dest in
      THROW runtime_error "tag maps to multiple receiver cores" WHEN match tag2dest !! tag with Some d => negb (d =? dest) | None => false end;;
      let tag2dest := <[tag := dest]> tag2dest in
      let dest_die := Z.quot dest CORES_PER_DIE in
      if dest_die =? src_die then Ok tag2dest else
      walk_dies path_guard dest_die src_die ≫= fun _ =>
      THROW runtime_error "cross-die runtime is disabled for this validation path" WHEN negb allow_d2d;;
      Ok tag2dest
  end.
Definition check_member (global : bool) (j : json) (key what : string) : result unit :=
  match int_member j key with Some id => check_bounds global id what | None => Ok tt end.
Definition core_id (core : json) : Z := default (-1) (int_member core "id").
Definition core_die (core : json) : Z := if 0 <=? core_id core then Z.quot (core_id core) CORES_PER_DIE else 0.
Definition check_workload_core (global allow_d2d : bool) (tag2dest : gmap Z Z) (core : json) : result (gmap Z Z) :=
  check_bounds global (core_id core) "core" ≫= fun _ =>
  check_member global core "prim_copy" "prim_copy" ≫= fun _ =>
  check_member global core "send_global_mem" "send_global_mem" ≫= fun _ =>
  foldM (fun tags work => foldM (check_cast global allow_d2d (core_die core)) tags (member_items work "cast")) tag2dest (member_items core "worklist").
Definition id_space_global (j : json) : result bool :=
  match find_key j "id_space" with Some v => get_string v ≫= fun s : string => Ok (String.eqb s "global") | None => Ok false end.
Definition ValidateWorkloadStructure (j : json) (chip_id : Z) (allow_d2d : bool) : result unit :=
  id_space_global j ≫= fun global : bool =>
  match find_key j "chips" with
  | None => Ok tt
  | Some chips =>
      if json_size chips <=? chip_id then Ok tt else
      json_index chips chip_id ≫= fun chip : json =>
      json_at chip "cores" ≫= fun cores : json =>
      foldM (check_workload_core global allow_d2d) ∅ (json_items cores) ≫= fun _ =>
      foldM (fun _ s => check_member global s "dest" "source.dest") tt (member_items j "source")
  end.
End workload.

(** ** What the check asks for *)

(** Pairs of a tag and its receiver that are entered in a table one by one. *)
Definition extend (t : gmap Z Z) (l : list (Z * Z)) : gmap Z Z := foldl (fun t e => <[e.1 := e.2]> t) t l.
Fixpoint consistent (t : gmap Z Z) (l : list (Z * Z)) : Prop :=
  match l with
  | [] => True
  | e :: l' => (t !! e.1 = None \/ t !! e.1 = Some e.2) /\ consistent (<[e.1 := e.2]> t) l'
  end.
Definition functional (l : list (Z * Z)) : Prop := forall tag d d', (tag, d) ∈ l -> (tag, d') ∈ l -> d = d'.

Lemma consistent_app t l l' : consistent t (l ++ l') <-> consistent t l /\ consistent (extend t l) l'.
Proof. revert t; induction l as [|e l IH]; intros t; cbn; [tauto|]. rewrite IH. tauto. Qed.

Lemma consistent_functional t l : consistent t l <-> functional l /\ forall tag d d', (tag, d) ∈ l -> t !! tag = Some d' -> d' = d.
Proof.
  revert t; induction l as [|[tag d] l IH]; intros t; cbn.
  - split; [|done]. intros _. split; intros ? ? ? He; by apply elem_of_nil in He.
  - rewrite IH. split.
    + intros (Ht & Hf & Hc). assert (forall tag' d', (tag', d') ∈ l -> tag' = tag -> d' = d) as Hsame.
      { intros tag' d' He ->. symmetry. eapply Hc; [exact He|]. by rewrite lookup_insert_eq. }
      split.
      * intros tag' d1 d2 [[= -> ->]|H1]%elem_of_cons [[= <-]|H2]%elem_of_cons; [done|symmetry; by eapply Hsame| |by eapply Hf].
        subst. by eapply Hsame.
      * intros tag' d1 d' [[= -> ->]|H1]%elem_of_cons Hl; [destruct Ht; congruence|].
        destruct (decide (tag' = tag)) as [->|Hn]; [rewrite (Hsame _ _ H1 eq_refl); destruct Ht; congruence|].
        apply (Hc tag' d1 d' H1). by rewrite lookup_insert_ne.
    + intros (Hf & Hc). split; [|split].
      * destruct (t !! tag) as [d'|] eqn:E; [right|by left]. f_equal. eapply Hc; [left|done].
      * intros tag' d1 d2 H1 H2. eapply Hf; by right.
      * intros tag' d1 d' H1. destruct (decide (tag' = tag)) as [->|Hn].
        -- rewrite lookup_insert_eq. intros [= <-]. eapply Hf; [left|by right].
        -- rewrite lookup_insert_ne by done. apply Hc. by right.
Qed.

(** A loop whose body checks its element and enters its pairs. *)
Section entering.
Context {A : Type} (f : gmap Z Z -> A -> result (gmap Z Z)) (pairs : A -> list (Z * Z)) (legal : A -> Prop).
Definition enters : Prop := forall t x, (is_ok (f t x) = true <-> legal x /\ consistent t (pairs x)) /\ forall t', f t x = Ok t' -> t' = extend t (pairs x).

Lemma entering_loop l t : enters -> (is_ok (foldM f t l) = true <-> (forall x, x ∈ l -> legal x) /\ consistent t (l ≫= pairs)) /\
  forall t', foldM f t l = Ok t' -> t' = extend t (l ≫= pairs).
Proof.
  intros Hf. revert t; induction l as [|x l IH]; intros t; cbn.
  - split; [|by intros t' [= <-]]. split; [|done]. intros _. split; [|done]. intros x Hx. by apply elem_of_nil in Hx.
  - destruct (Hf t x) as [Hok Hval]. destruct (f t x) as [t1|e] eqn:E; cbn.
    + specialize (Hval t1 eq_refl) as ->. destruct (IH (extend t (pairs x))) as [IHok IHval]. split.
      * rewrite IHok, consistent_app. destruct Hok as [Hok _]. specialize (Hok eq_refl) as [Hl Hc]. split.
        -- intros [H1 H2]. split; [|done]. intros y [->|Hy]%elem_of_cons; [done|by apply H1].
        -- intros (H1 & _ & H2). split; [|done]. intros y Hy. apply H1. by right.
      * intros t' Ht'. rewrite (IHval t' Ht'). unfold extend. by rewrite foldl_app.
    + split; [|done]. split; [done|]. intros (H1 & H2). apply consistent_app in H2 as [H2 _]. apply Hok. split; [|done]. apply H1. left.
Qed.
End entering.

Section legal.
Context `{Geometry}.

Definition in_bounds (global : bool) (id : Z) : Prop := id < 0 \/ id < TOTAL_CORES /\ (global = true \/ id < CORES_PER_DIE).
Definition opt_bounds (global : bool) (o : option Z) : Prop := match o with Some id => in_bounds global id | None => True end.

(** The receivers of a core: what its casts with a core as destination say, as pairs of the tag and the receiver. *)
Definition cast_pairs (cast : json) : list (Z * Z) :=
  match int_member cast "dest" with
  | Some dest => if dest <? 0 then [] else [(tag_of cast dest, dest)]
  | None => []
  end.
Definition core_pairs (core : json) : list (Z * Z) :=
  member_items core "worklist" ≫= fun work => member_items work "cast" ≫= cast_pairs.

(** The dies on the way, one hop after the other. *)
Fixpoint die_route (dest cur : Z) (n : nat) : Z :=
  match n with O => cur | S n => die_route dest (DieNeighbor cur (DieFirstHopDir cur dest)) n end.
Definition die_linked (links : list D2DLink) (src dest : Z) : Prop :=
  forall n, Z.of_nat n < DieManhattan src dest ->
    HasD2DLink links (die_route dest src n) (die_route dest src (S n)) = true /\ HasD2DLink links (die_route dest src (S n)) (die_route dest src n) = true.
Definition dest_legal (links : list D2DLink) (global allow : bool) (src dest : Z) : Prop :=
  in_bounds global dest /\ (DieOfGlobal dest = src \/ die_linked links src (DieOfGlobal dest) /\ allow = true).
Record core_legal (links : list D2DLink) (global allow : bool) (core : json) : Prop := {
  cl_id : in_bounds global (core_id core);
  cl_prim : opt_bounds global (int_member core "prim_copy");
  cl_send : opt_bounds global (int_member core "send_global_mem");
  cl_casts : forall tag dest, (tag, dest) ∈ core_pairs core -> dest_legal links global allow (core_die core) dest
}.

(** The cores and the sources of a chip of the workload, when they can be read: [None] where the check has nothing to look at. *)
Definition workload_of (j : json) (chip_id : Z) : result (option (bool * list json * list json)) :=
  id_space_global j ≫= fun global : bool =>
  match find_key j "chips" with
  | None => Ok None
  | Some chips =>
      if json_size chips <=? chip_id then Ok None else
      json_index chips chip_id ≫= fun chip : json =>
      json_at chip "cores" ≫= fun cores : json => Ok (Some (global, json_items cores, member_items j "source"))
  end.
Record workload_legal (links : list D2DLink) (allow global : bool) (cores sources : list json) : Prop := {
  wl_cores : forall core, core ∈ cores -> core_legal links global allow core;
  wl_tags : functional (cores ≫= core_pairs);
  wl_sources : forall s, s ∈ sources -> opt_bounds global (int_member s "dest")
}.
End legal.

Section checked.
Context `{G : Geometry} (Hgeo : ValidateAddressSpace = Ok tt) (links : list D2DLink).

Lemma check_bounds_ok global id what : is_ok (check_bounds global id what) = true <-> in_bounds global id.
Proof using.
  unfold check_bounds, in_bounds, throw_if. destruct (Z.ltb_spec id 0); [cbn; intuition lia|].
  destruct (Z.leb_spec TOTAL_CORES id); cbn; [intuition (lia || done)|]. destruct global; cbn; [intuition lia|].
  destruct (Z.leb_spec CORES_PER_DIE id); cbn; intuition (lia || done).
Qed.

Lemma check_member_ok global j key what : is_ok (check_member global j key what) = true <-> opt_bounds global (int_member j key).
Proof using. unfold check_member, opt_bounds. destruct (int_member j key); [apply check_bounds_ok|done]. Qed.

Lemma die_hop_ok dest cur : 0 <= cur < DIE_COUNT -> 0 <= dest < DIE_COUNT -> cur <> dest ->
  let nxt := DieNeighbor cur (DieFirstHopDir cur dest) in
  die_hop links dest cur = throw_if (negb (HasD2DLink links cur nxt) || negb (HasD2DLink links nxt cur)) (runtime_error "cross-die traffic requires D2D Link") ≫= fun _ => Ok nxt.
Proof using Hgeo.
  intros Hc Hd Hn. destruct (first_hop Hgeo cur dest Hc Hd Hn) as (Hs & [Hb _] & _). unfold die_hop, DieNeighbor in *.
  destruct (DieFirstHopDir cur dest); try done; cbn [mbind result_bind] in *;
    (destruct (_ || _ || _ || _) eqn:E in Hb; [lia|]); by rewrite E.
Qed.

Lemma walk_dies_ok guard dest cur : 0 <= cur < DIE_COUNT -> 0 <= dest < DIE_COUNT -> DieManhattan cur dest <= Z.of_nat guard ->
  is_ok (walk_dies links guard dest cur) = true <-> die_linked links cur dest.
Proof using Hgeo.
  revert cur; induction guard as [|g IH]; intros cur Hc Hd Hg; cbn [walk_dies];
    (destruct (Z.eqb_spec cur dest) as [->|Hn]; [split; [|done]; intros _ n Hm; destruct (DieManhattan_nonneg dest dest) as [_ E]; rewrite E in Hm; lia|]);
    destruct (first_hop Hgeo cur dest Hc Hd Hn) as (_ & Hb & Hm); cbv zeta in *;
    pose proof (DieManhattan_nonneg (DieNeighbor cur (DieFirstHopDir cur dest)) dest) as [Hp _]; [lia|].
  rewrite die_hop_ok by done. cbv zeta. unfold throw_if. destruct (_ || _) eqn:E; cbn.
  - split; [done|]. intros Hl. destruct (Hl 0%nat) as [H1 H2]; [lia|]. cbn in H1, H2. rewrite H1, H2 in E. done.
  - rewrite IH by (done || lia). apply orb_false_elim in E as [E1%negb_false_iff E2%negb_false_iff]. split.
    + intros Hl [|n] Hlt; [done|]. apply Hl. lia.
    + intros Hl n Hlt. apply (Hl (S n)). lia.
Qed.

Lemma die_distance src dest : 0 <= src < DIE_COUNT -> 0 <= dest < DIE_COUNT -> DieManhattan src dest <= Z.of_nat path_guard.
Proof using Hgeo.
  intros Hs Hd. destruct (geo_facts Hgeo) as (_ & _ & HX & HY & _). unfold path_guard.
  destruct (index_split DIE_X DIE_Y src HX Hs) as (Hr & Hq & _). destruct (index_split DIE_X DIE_Y dest HX Hd) as (Hr' & Hq' & _).
  unfold DieManhattan. cbv zeta. rewrite Z2Nat.id by lia. repeat match goal with |- context [?a <? ?b] => destruct (Z.ltb_spec a b) end; lia.
Qed.

Lemma die_of_bounded global id : 0 <= id -> in_bounds global id -> 0 <= DieOfGlobal id < DIE_COUNT.
Proof using Hgeo. intros H1 [H2|[H2 _]]; [lia|]. by apply (die_local Hgeo id). Qed.

Lemma check_cast_enters global allow src : 0 <= src < DIE_COUNT ->
  enters (check_cast links global allow src) cast_pairs (fun cast => forall tag dest, (tag, dest) ∈ cast_pairs cast -> dest_legal links global allow src dest).
Proof using Hgeo.
  intros Hs t cast. unfold check_cast, cast_pairs. destruct (int_member cast "dest") as [dest|].
  2: { split; [|by intros t' [= <-]]. split; [|done]. intros _. split; [|done]. intros ? ? Hin. by apply elem_of_nil in Hin. }
  destruct (Z.ltb_spec dest 0) as [Hn|Hn].
  { split; [|by intros t' [= <-]]. split; [|done]. intros _. split; [|done]. intros ? ? Hin. by apply elem_of_nil in Hin. }
  set (tag := tag_of cast dest). fold (DieOfGlobal dest). pose proof (check_bounds_ok global dest "cast.dest") as Hb.
  assert (forall P : Prop, (forall tag' d, (tag', d) ∈ [(tag, dest)] -> dest_legal links global allow src d) /\ consistent t [(tag, dest)] <-> dest_legal links global allow src dest /\ (t !! tag = None \/ t !! tag = Some dest)) as Hone.
  { intros _. cbn. split; [intros (H1 & H2 & _); split; [by apply (H1 tag); left|done]|].
    intros (H1 & H2). split; [|done]. intros tag' d He. apply list_elem_of_singleton in He as [= -> ->]. done. }
  specialize (Hone True). rewrite Hone. clear Hone. unfold dest_legal.
  destruct (check_bounds global dest "cast.dest") as [[]|]; cbn in *; [|split; [intuition done|done]]. destruct Hb as [Hb _]. specialize (Hb eq_refl).
  pose proof (die_of_bounded global dest Hn Hb) as Hdd. unfold throw_if.
  destruct (match t !! tag with Some d => negb (d =? dest) | None => false end) eqn:Et.
  { cbn. split; [|done]. split; [done|]. intros (_ & [E|E]); rewrite E in Et; [done|]. by rewrite Z.eqb_refl in Et. }
  assert (t !! tag = None \/ t !! tag = Some dest) as Htag.
  { destruct (t !! tag) as [d|]; [|by left]. right. apply negb_false_iff, Z.eqb_eq in Et as ->. done. }
  cbn [mbind result_bind]. destruct (Z.eqb_spec (DieOfGlobal dest) src) as [Esrc|Esrc].
  { split; [|by intros t' [= <-]]. cbn. intuition. }
  pose proof (walk_dies_ok path_guard (DieOfGlobal dest) src Hs Hdd (die_distance src _ Hs Hdd)) as Hw.
  destruct (walk_dies links path_guard (DieOfGlobal dest) src) as [[]|]; cbn in *.
  - destruct allow; cbn; (split; [|first [by intros t' [= <-]|done]]); intuition done.
  - split; [|done]. split; [done|]. intros ((_ & [?|[H1 _]]) & _); [done|]. by apply Hw.
Qed.

Lemma core_die_bounded global core : in_bounds global (core_id core) -> 0 <= core_die core < DIE_COUNT.
Proof using Hgeo.
  intros Hb. unfold core_die. destruct (Z.leb_spec 0 (core_id core)); [by eapply die_of_bounded|].
  destruct (geo_facts Hgeo) as (_ & _ & HX & HY & _). unfold DIE_COUNT. nia.
Qed.

Lemma check_core_enters global allow : enters (check_workload_core links global allow) core_pairs (core_legal links global allow).
Proof using Hgeo.
  intros t core. unfold check_workload_core.
  pose proof (check_bounds_ok global (core_id core) "core") as H1. pose proof (check_member_ok global core "prim_copy" "prim_copy") as H2.
  pose proof (check_member_ok global core "send_global_mem" "send_global_mem") as H3.
  destruct (check_bounds global (core_id core) "core") as [[]|]; cbn in *; [|split; [split; [done|intros ([? ? ? ?] & _); tauto]|done]].
  destruct (check_member global core "prim_copy" "prim_copy") as [[]|]; cbn in *; [|split; [split; [done|intros ([? ? ? ?] & _); tauto]|done]].
  destruct (check_member global core "send_global_mem" "send_global_mem") as [[]|]; cbn in *; [|split; [split; [done|intros ([? ? ? ?] & _); tauto]|done]].
  assert (in_bounds global (core_id core)) as Hb by tauto.
  pose proof (check_cast_enters global allow (core_die core) (core_die_bounded global core Hb)) as Hcast.
  destruct (entering_loop (fun tags work => foldM (check_cast links global allow (core_die core)) tags (member_items work "cast"))
    (fun work => member_items work "cast" ≫= cast_pairs)
    (fun work => forall cast, cast ∈ member_items work "cast" -> forall tag dest, (tag, dest) ∈ cast_pairs cast -> dest_legal links global allow (core_die core) dest)
    (member_items core "worklist") t) as [Hok Hval].
  { intros t' work. by apply entering_loop. }
  split; [|done]. unfold core_pairs. rewrite Hok. split.
  - intros (Hc & Hcon). split; [|done]. split; [done|tauto|tauto|].
    intros tag dest (work & Hp & Hw)%list_elem_of_bind. apply list_elem_of_bind in Hp as (cast & Hp & Hcin). by eapply Hc.
  - intros ([_ _ _ Hc] & Hcon). split; [|done]. intros work Hw cast Hcin tag dest Hp. apply (Hc tag dest).
    apply list_elem_of_bind. exists work. split; [|done]. apply list_elem_of_bind. by exists cast.
Qed.

Lemma sources_ok global l : is_ok (foldM (fun _ s => check_member global s "dest" "source.dest") tt l) = true <-> forall s, s ∈ l -> opt_bounds global (int_member s "dest").
Proof using. apply foldM_is_ok. intros _ s _. apply check_member_ok. Qed.
End checked.

(** ** Reading a value that was changed *)

(** A function that leaves what is no container alone. *)
Definition tame (f : json -> json) : Prop := forall j, is_object j = false -> is_array j = false -> f j = j.
Lemma tame_at_key key f : tame (at_key key f).
Proof. by intros []. Qed.

Lemma member_update key key' f m : member key' (update_member key f m) = if String.eqb key' key then f <$> member key' m else member key' m.
Proof.
  induction m as [|[k v] m IH]; cbn; [by destruct (String.eqb key' key)|]. destruct (String.eqb_spec k key) as [->|Hk]; cbn.
  - rewrite (String.eqb_sym key' key). by destruct (String.eqb key key').
  - destruct (String.eqb_spec k key') as [->|Hk']; [|done]. by rewrite (proj2 (String.eqb_neq key' key) Hk).
Qed.
Lemma find_at_key key key' f j : find_key (at_key key f j) key' = if String.eqb key' key then f <$> find_key j key' else find_key j key'.
Proof. destruct j; cbn; try (by destruct (String.eqb key' key)). apply member_update. Qed.
Lemma find_other key key' f j : String.eqb key' key = false -> find_key (at_key key f j) key' = find_key j key'.
Proof. intros E. by rewrite find_at_key, E. Qed.

Lemma items_each f j : tame f -> json_items (each f j) = f <$> json_items j.
Proof. intros Hf. destruct j; cbn; rewrite ?Hf; try done. induction m as [|x m IH]; [done|]. cbn. by f_equal. Qed.
Lemma member_items_each key f j : tame f -> member_items (at_key key (each f) j) key = f <$> member_items j key.
Proof. intros Hf. unfold member_items. rewrite find_at_key, String.eqb_refl. destruct (find_key j key); cbn; [by apply items_each|done]. Qed.
Lemma member_items_other key key' f j : String.eqb key' key = false -> member_items (at_key key f j) key' = member_items j key'.
Proof. intros E. unfold member_items. by rewrite find_other. Qed.
Lemma int_member_other key key' f j : String.eqb key' key = false -> int_member (at_key key f j) key' = int_member j key'.
Proof. intros E. unfold int_member. by rewrite find_other. Qed.

Lemma size_each f j : tame f -> json_size (each f j) = json_size j.
Proof. intros Hf. destruct j; cbn; rewrite ?Hf, ?length_fmap; done. Qed.
Lemma index_each f j i : tame f -> json_index (each f j) i = f <$> json_index j i.
Proof.
  intros Hf. destruct j; cbn; rewrite ?Hf; try done. destruct (i <? 0); [done|]. rewrite list_lookup_fmap. by destruct (l !! Z.to_nat i).
Qed.
Lemma at_at_key key f j : json_at (at_key key f j) key = f <$> json_at j key.
Proof. destruct j; cbn; try done. rewrite member_update, String.eqb_refl. by destruct (member key m). Qed.

Lemma member_set key v m key' : member key' (set_member key v m) = if String.eqb key' key then Some v else member key' m.
Proof.
  induction m as [|[k w] m IH]; cbn; [rewrite String.eqb_sym; by destruct (String.eqb key' key)|].
  destruct (String.eqb_spec k key) as [->|Hk]; cbn; [rewrite String.eqb_sym; by destruct (String.eqb key' key)|].
  destruct (String.ltb key k); cbn; [rewrite (String.eqb_sym key key'); by destruct (String.eqb key' key)|].
  rewrite IH. destruct (String.eqb_spec k key') as [->|?]; [|done]. by rewrite (proj2 (String.eqb_neq key' key) Hk).
Qed.

(** ** The translation of a workload *)

Definition shift_id (off id : Z) : Z := if 0 <=? id then id + off else id.

Section translation.
Context `{G : Geometry} (Hgeo : ValidateAddressSpace = Ok tt) (die : Z) (Hdie : 0 < die < DIE_COUNT).
Local Notation off := (die * CORES_PER_DIE).

(** A local id on the die. *)
Lemma shift_local id : INT_MIN <= id < CORES_PER_DIE ->
  in_bounds true (shift_id off id) /\ (0 <= id -> shift_id off id = GlobalId die id /\ DieOfGlobal (shift_id off id) = die) /\ i32 (shift_id off id) = shift_id off id.
Proof using All.
  intros Hid. destruct (geo_facts Hgeo) as (_ & _ & _ & _ & Hc & _ & Ht & _). unfold shift_id, in_bounds, INT_MIN in *. destruct (Z.leb_spec 0 id) as [Hp|Hp].
  - destruct (global_id_split Hgeo die id) as (H1 & H2 & _); [lia|lia|]. assert (id + off = GlobalId die id) as -> by (unfold GlobalId; lia).
    split; [right; split; [lia|by left]|]. split; [done|]. apply swrap_small; lia.
  - split; [by left|]. split; [lia|]. apply swrap_small; lia.
Qed.

Lemma local_bound id : in_bounds false id -> id < CORES_PER_DIE.
Proof using Hgeo. destruct (geo_facts Hgeo) as (_ & _ & _ & _ & Hc & _). intros [?|[_ [?|?]]]; [lia|done|done]. Qed.

Lemma int_member_range j key id : int_member j key = Some id -> INT_MIN <= id.
Proof using.
  unfold int_member, INT_MIN. destruct (find_key j key) as [[]|]; try done. intros [= <-]. pose proof (swrap_range 32 z ltac:(lia)). lia.
Qed.

Lemma int_member_shift j key : opt_bounds false (int_member j key) ->
  int_member (at_key key (shift off) j) key = shift_id off <$> int_member j key.
Proof using All.
  intros Hb. pose proof (int_member_range j key) as Hr. unfold int_member in *. rewrite find_at_key, String.eqb_refl. destruct (find_key j key) as [v|]; [|done]. cbn [fmap option_fmap option_map] in *.
  destruct v; try done. specialize (Hr _ eq_refl). apply local_bound in Hb. destruct (shift_local (i32 z)) as (_ & _ & E); [lia|]. unfold shift, shift_id in *. cbn [fmap option_fmap option_map].
  destruct (0 <=? i32 z); [by rewrite E|done].
Qed.

Definition core_casts (core : json) : list json := member_items core "worklist" ≫= fun work => member_items work "cast".
Definition receivers (core : json) : list Z := (core_pairs core).*2.
Lemma core_pairs_casts core : core_pairs core = core_casts core ≫= cast_pairs.
Proof using. unfold core_pairs, core_casts. induction (member_items core "worklist") as [|w l IH]; cbn; [done|]. rewrite IH. by rewrite bind_app. Qed.

Lemma casts_shift core : core_casts (shift_core off core) = at_key "dest" (shift off) <$> core_casts core.
Proof using.
  unfold core_casts, shift_core. rewrite member_items_each by apply tame_at_key. rewrite !member_items_other by reflexivity.
  induction (member_items core "worklist") as [|w l IH]; cbn; [done|]. rewrite IH, member_items_each by apply tame_at_key. by rewrite fmap_app.
Qed.

Definition shifted_pair (cast : json) (e : Z * Z) : Z * Z := (tag_of cast (shift_id off e.2), shift_id off e.2).
Lemma pairs_shift cast : (forall tag dest, (tag, dest) ∈ cast_pairs cast -> in_bounds false dest) ->
  cast_pairs (at_key "dest" (shift off) cast) = shifted_pair cast <$> cast_pairs cast.
Proof using All.
  intros Hb. unfold cast_pairs in *. destruct (int_member cast "dest") as [d|] eqn:E.
  - destruct (Z.ltb_spec d 0) as [Hn|Hn].
    + rewrite int_member_shift by (rewrite E; by left). rewrite E. cbn. unfold shift_id. destruct (Z.leb_spec 0 d); [lia|]. by destruct (Z.ltb_spec d 0); [|lia].
    + rewrite int_member_shift by (rewrite E; eapply Hb; left). rewrite E. cbn. unfold shift_id at 1 3. destruct (Z.leb_spec 0 d); [|lia].
      destruct (geo_facts Hgeo) as (_ & _ & _ & _ & Hc & _). destruct (Z.ltb_spec (d + off) 0); [nia|].
      unfold shifted_pair, tag_of. cbn. rewrite int_member_other by reflexivity. unfold shift_id. by destruct (Z.leb_spec 0 d); [|lia].
  - unfold int_member in *. rewrite find_at_key, String.eqb_refl. destruct (find_key cast "dest") as [[]|]; done.
Qed.

(** A core of the die [0] and the core of the die that it becomes. *)
Record translated (core core' : json) : Prop := {
  tr_id : core_id core' = shift_id off (core_id core);
  tr_prim : int_member core' "prim_copy" = shift_id off <$> int_member core "prim_copy";
  tr_send : int_member core' "send_global_mem" = shift_id off <$> int_member core "send_global_mem";
  tr_receivers : receivers core' = shift_id off <$> receivers core;
  tr_die : forall d, d ∈ receivers core' -> DieOfGlobal d = die
}.

Section core.
Context (links : list D2DLink) (core : json) (Hl : core_legal links false false core).

Lemma legal_dest cast : cast ∈ core_casts core -> forall tag dest, (tag, dest) ∈ cast_pairs cast -> 0 <= dest < CORES_PER_DIE /\ in_bounds false dest.
Proof using Hl Hgeo.
  intros Hc tag dest Hp. assert ((tag, dest) ∈ core_pairs core) as Hin by (rewrite core_pairs_casts; apply list_elem_of_bind; by exists cast).
  destruct (cl_casts _ _ _ _ Hl tag dest Hin) as [Hb _]. split; [|done]. split; [|by apply local_bound].
  unfold cast_pairs in Hp. destruct (int_member cast "dest") as [d|]; [|by apply elem_of_nil in Hp].
  destruct (Z.ltb_spec d 0); [by apply elem_of_nil in Hp|]. apply list_elem_of_singleton in Hp as [= _ ->]. done.
Qed.

Lemma pairs_shifted : core_pairs (shift_core off core) = core_casts core ≫= fun cast => shifted_pair cast <$> cast_pairs cast.
Proof using All.
  rewrite core_pairs_casts, casts_shift. pose proof (fun c H => legal_dest c H) as Hd. induction (core_casts core) as [|c l IH]; cbn; [done|].
  rewrite IH by (intros c' Hc'; apply Hd; by right). f_equal. apply pairs_shift. intros tag dest Hp. by eapply (Hd c); [left|].
Qed.

Lemma pair_shifted tag dest : (tag, dest) ∈ core_pairs (shift_core off core) <->
  exists cast tag0 dest0, cast ∈ core_casts core /\ (tag0, dest0) ∈ cast_pairs cast /\ (tag, dest) = shifted_pair cast (tag0, dest0).
Proof using All.
  rewrite pairs_shifted, list_elem_of_bind. split.
  - intros (cast & Hp & Hc). apply list_elem_of_fmap in Hp as ([tag0 dest0] & E & Hp). by exists cast, tag0, dest0.
  - intros (cast & tag0 & dest0 & Hc & Hp & E). exists cast. split; [|done]. apply list_elem_of_fmap. by exists (tag0, dest0).
Qed.

Lemma core_id_shift : core_id (shift_core off core) = shift_id off (core_id core).
Proof using All.
  pose proof (cl_id _ _ _ _ Hl) as Hb. unfold core_id, shift_core in *. rewrite !int_member_other by reflexivity.
  rewrite int_member_shift; [by destruct (int_member core "id")|]. by destruct (int_member core "id").
Qed.

Lemma core_translated : translated core (shift_core off core).
Proof using All.
  assert (receivers (shift_core off core) = shift_id off <$> receivers core) as Hr.
  { unfold receivers. rewrite pairs_shifted, core_pairs_casts. induction (core_casts core) as [|c l IH]; cbn; [done|].
    rewrite !fmap_app, IH. f_equal. rewrite <- !list_fmap_compose. by apply list_fmap_ext. }
  split; [apply core_id_shift|..].
  - unfold shift_core. rewrite !int_member_other by reflexivity. rewrite int_member_shift; rewrite int_member_other by reflexivity; [done|apply (cl_prim _ _ _ _ Hl)].
  - unfold shift_core. rewrite !int_member_other by reflexivity. rewrite int_member_shift; rewrite !int_member_other by reflexivity; [done|apply (cl_send _ _ _ _ Hl)].
  - done.
  - intros d Hd. rewrite Hr in Hd. apply list_elem_of_fmap in Hd as (d0 & -> & Hd). apply list_elem_of_fmap in Hd as ([tag d1] & -> & Hp).
    rewrite core_pairs_casts in Hp. apply list_elem_of_bind in Hp as (cast & Hp & Hc). destruct (legal_dest cast Hc tag d1 Hp) as [Hb _].
    apply shift_local; unfold INT_MIN; cbn; lia.
Qed.

Lemma core_legal_shift links' : 0 <= core_id core -> core_legal links' true false (shift_core off core).
Proof using All.
  intros Hid. destruct core_translated as [E1 E2 E3 E4 E5].
  assert (forall o, opt_bounds false o -> (forall id, o = Some id -> INT_MIN <= id) -> opt_bounds true (shift_id off <$> o)) as Ho.
  { intros [id|] Hb Hm; [|done]. cbn in *. apply local_bound in Hb. by apply shift_local; auto. }
  split.
  - rewrite E1. apply shift_local. pose proof (local_bound _ (cl_id _ _ _ _ Hl)). unfold INT_MIN. lia.
  - rewrite E2. apply Ho; [apply (cl_prim _ _ _ _ Hl)|]. intros id. apply int_member_range.
  - rewrite E3. apply Ho; [apply (cl_send _ _ _ _ Hl)|]. intros id. apply int_member_range.
  - intros tag dest Hp. assert (DieOfGlobal dest = die) as Ed by (apply E5; unfold receivers; apply list_elem_of_fmap; by exists (tag, dest)).
    split; [|left].
    + apply pair_shifted in Hp as (cast & tag0 & dest0 & Hc & Hp & [= _ ->]). destruct (legal_dest cast Hc tag0 dest0 Hp). apply shift_local. unfold INT_MIN. lia.
    + rewrite Ed. unfold core_die. rewrite E1. pose proof (local_bound _ (cl_id _ _ _ _ Hl)) as Hlt.
      destruct (shift_local (core_id core)) as (_ & Hs & _); [unfold INT_MIN; lia|]. destruct (Hs Hid) as [Eg Eg'].
      destruct (geo_facts Hgeo) as (_ & _ & _ & _ & Hc & _). rewrite Eg in *. fold (DieOfGlobal (GlobalId die (core_id core))). rewrite Eg'.
      destruct (Z.leb_spec 0 (GlobalId die (core_id core))) as [|Hneg]; [done|]. unfold GlobalId in Hneg. nia.
Qed.
End core.

(** Tags that name no core of the die. *)
Definition tags_apart (core : json) : Prop :=
  forall cast tag, cast ∈ core_casts core -> int_member cast "tag" = Some tag -> ~ (off <= tag < off + CORES_PER_DIE).

Lemma functional_shift links cores : (forall core, core ∈ cores -> core_legal links false false core) -> (forall core, core ∈ cores -> tags_apart core) ->
  functional (cores ≫= core_pairs) -> functional ((shift_core off <$> cores) ≫= core_pairs).
Proof using All.
  intros Hl Ha Hf tag d d' H1 H2.
  assert (forall dest, (tag, dest) ∈ (shift_core off <$> cores) ≫= core_pairs -> exists core cast dest0, core ∈ cores /\ cast ∈ core_casts core /\
    0 <= dest0 < CORES_PER_DIE /\ dest = dest0 + off /\ tag = tag_of cast dest /\ (tag_of cast dest0, dest0) ∈ cores ≫= core_pairs) as Hx.
  { intros dest Hd. apply list_elem_of_bind in Hd as (core' & Hp & Hc). apply list_elem_of_fmap in Hc as (core & -> & Hc).
    apply (pair_shifted links core (Hl core Hc)) in Hp as (cast & tag0 & dest0 & Hcast & Hp & [= -> ->]).
    destruct (legal_dest links core (Hl core Hc) cast Hcast tag0 dest0 Hp) as [Hb _].
    exists core, cast, dest0. unfold shift_id. destruct (Z.leb_spec 0 dest0); [|lia]. split; [done|]. split; [done|]. split; [done|]. split; [done|]. split; [done|].
    apply list_elem_of_bind. exists core. split; [|done]. rewrite core_pairs_casts. apply list_elem_of_bind. exists cast. split; [|done].
    unfold cast_pairs in *. destruct (int_member cast "dest") as [d0|]; [|by apply elem_of_nil in Hp].
    destruct (d0 <? 0); [by apply elem_of_nil in Hp|]. apply list_elem_of_singleton in Hp as [= -> ->]. left. }
  destruct (Hx d H1) as (c1 & k1 & e1 & Hc1 & Hk1 & Hb1 & -> & Et1 & Hp1). destruct (Hx d' H2) as (c2 & k2 & e2 & Hc2 & Hk2 & Hb2 & -> & Et2 & Hp2).
  unfold tag_of in *. destruct (int_member k1 "tag") as [t1|] eqn:E1, (int_member k2 "tag") as [t2|] eqn:E2; cbn in *.
  - f_equal. apply (Hf tag); congruence.
  - destruct (Ha c1 Hc1 k1 t1 Hk1 E1). lia.
  - destruct (Ha c2 Hc2 k2 t2 Hk2 E2). lia.
  - lia.
Qed.
End translation.

(** ** The whole workload *)

Lemma normalize_reads `{Geometry} (j j' : json) (die chip : Z) : die <> 0 -> NormalizeWorkloadJson j die = Ok j' -> id_space_global j = Ok false ->
  workload_of j' chip = match workload_of j chip with
    | Ok (Some (_, cores, sources)) => Ok (Some (true, shift_core (die * CORES_PER_DIE) <$> cores, at_key "dest" (shift (die * CORES_PER_DIE)) <$> sources))
    | r => r
    end.
Proof.
  intros Hd Hn Hg. set (off := die * CORES_PER_DIE). unfold NormalizeWorkloadJson in Hn. destruct (Z.eqb_spec die 0); [done|]. fold off in Hn.
  set (cf := each (at_key "cores" (each (shift_core off)))) in Hn. set (sf := each (at_key "dest" (shift off))) in Hn.
  destruct j as [| | | | | |m]; try discriminate Hn; cbn [at_key set_key] in Hn.
  { injection Hn as <-. done. }
  injection Hn as <-. set (m' := update_member "source" sf (update_member "chips" cf m)).
  assert (forall k, String.eqb k "id_space" = false -> find_key (JObj (set_member "id_space" (JStr "global") m')) k = find_key (at_key "source" sf (at_key "chips" cf (JObj m))) k) as Hk.
  { intros k E. cbn [find_key at_key]. by rewrite member_set, E. }
  assert (id_space_global (JObj (set_member "id_space" (JStr "global") m')) = Ok true) as Hid by (unfold id_space_global; cbn [find_key]; by rewrite member_set).
  unfold workload_of. rewrite Hg, Hid. cbn [mbind result_bind].
  rewrite Hk by reflexivity. rewrite find_other by reflexivity. rewrite find_at_key, String.eqb_refl. cbn [find_key]. destruct (member "chips" m) as [chips|]; [|done].
  cbn [fmap option_fmap option_map]. unfold cf at 1 2. rewrite size_each by apply tame_at_key. destruct (_ <=? chip); [done|].
  rewrite index_each by apply tame_at_key. destruct (json_index chips chip) as [c|]; [|done]. cbn [fmap result_fmap mbind result_bind].
  rewrite at_at_key. destruct (json_at c "cores") as [cores|]; [|done]. cbn [fmap result_fmap mbind result_bind].
  rewrite items_each by (by intros []). unfold member_items at 1. rewrite Hk by reflexivity. change (match find_key ?x "source" with Some l => json_items l | None => [] end) with (member_items x "source").
  unfold sf at 1. rewrite member_items_each by apply tame_at_key. by rewrite member_items_other by reflexivity.
Qed.

Lemma workload_accepts `{Geometry} (links : list D2DLink) (j : json) (chip : Z) (allow : bool) : ValidateAddressSpace = Ok tt ->
  ValidateWorkloadStructure links j chip allow = Ok tt <->
  match workload_of j chip with
  | Ok (Some (global, cores, sources)) => workload_legal links allow global cores sources
  | Ok None => True
  | Err _ => False
  end.
Proof.
  intros Hgeo. unfold ValidateWorkloadStructure, workload_of. destruct (id_space_global j) as [global|]; [|done]. cbn [mbind result_bind].
  destruct (find_key j "chips") as [chips|]; [|done]. destruct (_ <=? chip); [done|].
  destruct (json_index chips chip) as [c|]; [|done]. cbn [mbind result_bind]. destruct (json_at c "cores") as [cores|]; [|done]. cbn [mbind result_bind].
  pose proof (entering_loop (check_workload_core links global allow) core_pairs (core_legal links global allow) (json_items cores) ∅ (check_core_enters Hgeo links global allow)) as [Hok _].
  pose proof (sources_ok global (member_items j "source")) as Hs. rewrite consistent_functional in Hok.
  assert (forall r : result unit, r = Ok tt <-> is_ok r = true) as Hu by (intros [[]|]; done). rewrite Hu.
  destruct (foldM (check_workload_core links global allow) ∅ (json_items cores)) as [t|]; cbn [mbind result_bind].
  - rewrite Hs. destruct Hok as [Hok _]. destruct (Hok eq_refl) as (Hc & Hf & _). split; [by split|]. by intros [].
  - split; [done|]. intros [Hc Hf _]. apply Hok. split; [done|]. split; [done|]. intros tag d d' _. by rewrite lookup_empty.
Qed.

Lemma machine_linked `{Geometry} (M : machine) src dest : ValidateAddressSpace = Ok tt -> machine_wf M -> 0 <= src < DIE_COUNT -> 0 <= dest < DIE_COUNT -> die_linked (g_d2d_links M) src dest.
Proof.
  intros Hgeo HM Hs Hd n. revert src Hs. assert (forall a b, 0 <= a < DIE_COUNT -> 0 <= b < DIE_COUNT -> (exists k, k ∈ g_d2d_links M /\ local_die k = a /\ remote_die k = b) -> HasD2DLink (g_d2d_links M) a b = true) as Hhas.
  { intros a b Ha Hb (k & Hk & Ea & Eb). unfold HasD2DLink. destruct (_ || _ || _ || _) eqn:E; [exfalso; split_guards; repeat (apply orb_true_iff in E as [E|E]); split_guards; lia|].
    apply existsb_exists. exists k. split; [by apply list_elem_of_In|]. apply andb_true_iff. split; by apply Z.eqb_eq. }
  induction n as [|n IH]; intros src Hs Hn; (destruct (Z.eq_dec src dest) as [->|Hne]; [destruct (DieManhattan_nonneg dest dest) as [_ E]; lia|]);
    destruct (first_hop Hgeo src dest Hs Hd Hne) as (_ & Hb & Hm); cbv zeta in *.
  - cbn. pose proof (ports_toward Hgeo M HM src (DieFirstHopDir src dest) Hs (proj1 Hb)) as Hp. destruct (PortsForDir _ _) as [|e l] eqn:Ee; [done|].
    destruct (exit_directed Hgeo M HM src (DieFirstHopDir src dest) e Hs (proj1 Hb)) as (m & k & _ & _ & Hk & E1 & _ & E2 & _ & _ & Hall); [rewrite Ee; left|].
    split; [apply Hhas; [done|done|by exists k]|]. apply Hhas; [done|done|]. pose proof (tw_ports _ (mw_ports _ HM)) as Hports.
    pose proof (mw_links _ HM) as Hbuilt. rewrite (BuildD2DLinks_built Hgeo _ Hports (mw_active _ HM)) in Hbuilt. destruct (built_links _ Hports _ Hbuilt) as [Hlinks _].
    exists (reverse k). split; [|done]. apply Hlinks, is_link_reverse; [done..|]. apply Hall. by apply list_elem_of_In.
  - apply (IH _ Hb). lia.
Qed.

(** ** Properties *)

(** ** What the translation leaves alone *)

(** A way into a JSON value, and what is seen at its end: a value that is no container, or the
    keys or the length of one that is. *)
Inductive json_step : Type := Member (k : string) | Element (i : nat).
Inductive json_shape : Type := Keys (l : list string) | Length (n : nat) | Scalar (v : json).
Definition shape_of (j : json) : json_shape := match j with JObj m => Keys m.*1 | JArr l => Length (length l) | v => Scalar v end.
Fixpoint at_path (p : list json_step) (j : json) : option json :=
  match p with
  | [] => Some j
  | Member k :: p => match j with JObj m => member k m ≫= at_path p | _ => None end
  | Element i :: p => match j with JArr l => l !! i ≫= at_path p | _ => None end
  end.
Definition seen (p : list json_step) (j : json) : option json_shape := shape_of <$> at_path p j.

(** The places of core ids; [None] stands for any element of a container. *)
Fixpoint fits (pat : list (option string)) (p : list json_step) : bool :=
  match pat, p with
  | [], [] => true
  | Some k :: pat, Member k' :: p => String.eqb k k' && fits pat p
  | None :: pat, _ :: p => fits pat p
  | _, _ => false
  end.
Definition fits_one (pats : list (list (option string))) (p : list json_step) : bool := existsb (fun pat => fits pat p) pats.
Definition in_core : list (list (option string)) :=
  [[Some "id"]; [Some "prim_copy"]; [Some "send_global_mem"]; [Some "worklist"; None; Some "cast"; None; Some "dest"]]%string.
Definition id_places : list (list (option string)) :=
  ((fun pat => app [Some "chips"; None; Some "cores"; None]%string pat) <$> in_core) ++ [[Some "source"; None; Some "dest"]]%string.
(** A core id moves by the offset; a negative integer is no id, and other values are none either. *)
Definition moved (off : Z) (x : json_shape) : json_shape :=
  match x with Scalar (JInt z) => if 0 <=? i32 z then Scalar (JInt (i32 z + off)) else x | _ => x end.

Section frame.
Context (off : Z).

(** A transformer that moves the ids at these places and does nothing else. *)
Definition moves_at (pats : list (list (option string))) (T : json -> json) : Prop :=
  forall j p, seen p (T j) = if fits_one pats p then moved off <$> seen p j else seen p j.

Lemma moves_shift : moves_at [[]] (shift off).
Proof using.
  intros j [|s p]; unfold fits_one; cbn [existsb fits orb].
  - unfold seen. cbn. destruct j; try done. cbn. by destruct (0 <=? i32 z).
  - destruct s; cbn; destruct j as [| |z| | | |]; try done; unfold seen; cbn; by destruct (0 <=? i32 z).
Qed.

Lemma update_keys k f m : (update_member k f m).*1 = m.*1.
Proof using. induction m as [|[k1 v] m IH]; cbn; [done|]. destruct (String.eqb k1 k); cbn; [done|]. by rewrite IH. Qed.

Lemma fits_key k pats s p : fits_one (cons (Some k) <$> pats) (s :: p) = match s with Member k' => String.eqb k k' && fits_one pats p | Element _ => false end.
Proof using.
  unfold fits_one. induction pats as [|pat pats IH]; cbn; [by destruct s; rewrite ?andb_false_r|]. rewrite IH. destruct s; [|done]. by destruct (String.eqb k k0).
Qed.
Lemma fits_any pats s p : fits_one (cons None <$> pats) (s :: p) = fits_one pats p.
Proof using. unfold fits_one. induction pats as [|pat pats IH]; cbn; [done|]. by rewrite IH. Qed.
Lemma fits_nil o pats : fits_one (cons o <$> pats) [] = false.
Proof using. unfold fits_one. induction pats as [|pat pats IH]; [done|]. destruct o; exact IH. Qed.

Lemma moves_key k pats T : moves_at pats T -> moves_at (cons (Some k) <$> pats) (at_key k T).
Proof using.
  intros HT j [|s p]; [rewrite fits_nil; unfold seen; destruct j; try done; cbn; by rewrite update_keys|]. rewrite fits_key.
  destruct j as [| | | | | |m]; try (destruct s; [destruct (_ && _)|]; done). destruct s as [k'|i]; [|done]. unfold seen. cbn [at_key at_path]. rewrite member_update.
  rewrite (String.eqb_sym k' k). destruct (String.eqb_spec k k') as [->|]; [|done]. cbn [andb]. destruct (member k' m) as [v|]; cbn; [apply HT|].
  by destruct (fits_one pats p).
Qed.

Lemma moves_scalar pats T j : moves_at pats T -> fits_one pats [] = false -> shape_of j = Scalar j -> T j = j.
Proof using. intros HT Hn Hj. specialize (HT j []). rewrite Hn in HT. unfold seen in HT. cbn in HT. rewrite Hj in HT. destruct (T j); cbn in HT; congruence. Qed.

Lemma member_map T k m : member k ((fun e : string * json => (e.1, T e.2)) <$> m) = T <$> member k m.
Proof using. induction m as [|[k1 v] m IH]; cbn; [done|]. by destruct (String.eqb k1 k). Qed.

Lemma moves_each pats T : moves_at pats T -> fits_one pats [] = false -> moves_at (cons None <$> pats) (each T).
Proof using.
  intros HT Hn j p. assert (forall v, shape_of v = Scalar v -> each T v = v) as Hs.
  { intros v Hv. destruct v; try done; by apply (moves_scalar pats T). }
  destruct p as [|s p]; [rewrite fits_nil|rewrite fits_any].
  - destruct j; try by rewrite Hs. { unfold seen. cbn. by rewrite length_fmap. } { unfold seen. cbn. by rewrite <- list_fmap_compose. }
  - destruct j as [| | | | |l|m]; try (rewrite Hs by done; destruct s; unfold seen; cbn; by destruct (fits_one pats p)); destruct s as [k|i]; unfold seen; cbn [each at_path]; try (by destruct (fits_one pats p)).
    + rewrite list_lookup_fmap. destruct (l !! i) as [v|]; cbn; [apply HT|]. by destruct (fits_one pats p).
    + rewrite member_map. destruct (member k m) as [v|]; cbn; [apply HT|]. by destruct (fits_one pats p).
Qed.

Lemma moves_comp pats1 pats2 T1 T2 : moves_at pats1 T1 -> moves_at pats2 T2 -> (forall p, fits_one pats1 p = true -> fits_one pats2 p = true -> False) ->
  moves_at (pats1 ++ pats2) (fun j => T2 (T1 j)).
Proof using.
  intros H1 H2 Hd j p. specialize (H1 j p). specialize (H2 (T1 j) p). specialize (Hd p). unfold fits_one in *. rewrite existsb_app.
  rewrite H2, H1. destruct (existsb _ pats1), (existsb _ pats2); cbn; try done. exfalso. by apply Hd.
Qed.

Lemma fits_one_first k pats p : fits_one ((fun pat => Some k :: pat) <$> pats) p = true -> exists q, p = Member k :: q.
Proof using.
  destruct p as [|s p]; [by rewrite fits_nil|]. rewrite fits_key. destruct s as [k'|]; [|done]. intros [->%String.eqb_eq _]%andb_true_iff. by eexists.
Qed.

Lemma moves_core : moves_at in_core (shift_core off).
Proof using.
  unfold in_core, shift_core. assert (forall k, moves_at [[Some k]] (at_key k (shift off))) as Hk by (intros k; apply (moves_key k [[]]), moves_shift).
  assert (moves_at [[Some "worklist"; None; Some "cast"; None; Some "dest"]]%string (at_key "worklist" (each (at_key "cast" (each (at_key "dest" (shift off))))))) as Hw.
  { apply (moves_key _ [[None; Some "cast"; None; Some "dest"]]%string), (moves_each [[Some "cast"; None; Some "dest"]]%string); [|done].
    apply (moves_key _ [[None; Some "dest"]]%string), (moves_each [[Some "dest"]]%string); [apply Hk|done]. }
  apply (moves_comp [[Some "id"]; [Some "prim_copy"]; [Some "send_global_mem"]]%string [_] (fun j => at_key "send_global_mem" (shift off) (at_key "prim_copy" (shift off) (at_key "id" (shift off) j)))); [|exact Hw|].
  - apply (moves_comp [[Some "id"]; [Some "prim_copy"]]%string [_] (fun j => at_key "prim_copy" (shift off) (at_key "id" (shift off) j))); [apply (moves_comp [_] [_]); [apply Hk|apply Hk|]|apply Hk|].
    all: intros p H1 (q & ->)%(fits_one_first _ [_]); done.
  - intros p H1 (q & ->)%(fits_one_first _ [_]). done.
Qed.

Lemma moves_workload : moves_at id_places
  (fun j => at_key "source" (each (at_key "dest" (shift off))) (at_key "chips" (each (at_key "cores" (each (shift_core off)))) j)).
Proof using.
  assert (moves_at (cons (Some "chips"%string) <$> (cons None <$> (cons (Some "cores"%string) <$> (cons None <$> in_core))))
    (at_key "chips" (each (at_key "cores" (each (shift_core off)))))) as Hc.
  { apply moves_key, moves_each; [|done]. apply moves_key, moves_each; [apply moves_core|done]. }
  refine (moves_comp _ [_] _ _ Hc _ _).
  - apply (moves_key "source" [[None; Some "dest"]]%string), (moves_each [[Some "dest"]]%string); [|done]. apply (moves_key _ [[]]), moves_shift.
  - intros p H1 (q & ->)%(fits_one_first _ [_]). done.
Qed.
End frame.

(** The whole translation: the ids at their places move, the workload says that its ids are
    global, and whatever else there is stays as it was. *)
Lemma normalize_frame `{Geometry} j j' die : die <> 0 -> NormalizeWorkloadJson j die = Ok j' -> j <> JNull ->
  find_key j' "id_space" = Some (JStr "global") /\ (forall k, k <> "id_space"%string -> is_Some (find_key j' k) <-> is_Some (find_key j k)) /\
  forall s p, s <> Member "id_space" -> seen (s :: p) j' = if fits_one id_places (s :: p) then moved (die * CORES_PER_DIE) <$> seen (s :: p) j else seen (s :: p) j.
Proof.
  intros Hd E Hj. unfold NormalizeWorkloadJson in E. destruct (Z.eqb_spec die 0); [done|].
  pose proof (moves_workload (die * CORES_PER_DIE) j) as Hm. cbn beta in Hm.
  destruct j as [| | | | | |m]; try done. cbn [at_key set_key] in E, Hm. set (m1 := update_member "source" _ _) in *. injection E as <-. cbn [find_key].
  rewrite member_set, String.eqb_refl. split; [done|]. split.
  - intros k Hk. rewrite member_set, (proj2 (String.eqb_neq _ _) Hk). unfold m1. rewrite !member_update.
    by destruct (String.eqb _ _), (String.eqb _ _); rewrite ?fmap_is_Some.
  - intros s p Hs. rewrite <- Hm. unfold seen. destruct s as [k|i]; [|done]. cbn [at_path]. rewrite member_set, (proj2 (String.eqb_neq k _)) by congruence. done.
Qed.

(** C26: the check of a workload accepts exactly the legal ones: every id lies in the
    machine (on the die 0 unless the ids are global), a tag names one receiver in
    the whole workload, and a core sends to another die only when that is allowed
    and every hop of the way between the dies has a link in both directions.  The
    walk ends in the rounds of its guard and never leaves the mesh; in a machine
    whose links are built from its ports every way is linked. *)
Theorem workload_accepted `{Geometry} (links : list D2DLink) (j : json) (chip : Z) (allow : bool) : ValidateAddressSpace = Ok tt ->
  (ValidateWorkloadStructure links j chip allow = Ok tt <->
   match workload_of j chip with
   | Ok (Some (global, cores, sources)) => workload_legal links allow global cores sources
   | Ok None => True
   | Err _ => False
   end) /\
  (forall src dest, 0 <= src < DIE_COUNT -> 0 <= dest < DIE_COUNT -> is_ok (walk_dies links path_guard dest src) = true <-> die_linked links src dest) /\
  (forall M src dest, machine_wf M -> 0 <= src < DIE_COUNT -> 0 <= dest < DIE_COUNT -> is_ok (walk_dies (g_d2d_links M) path_guard dest src) = true).
Proof.
  intros Hgeo. split; [by apply workload_accepts|]. split.
  - intros src dest Hs Hd. apply walk_dies_ok; [done..|]. by apply die_distance.
  - intros M src dest HM Hs Hd. apply walk_dies_ok; [done|done|done|by apply die_distance|]. by apply machine_linked.
Qed.

(** C27: a workload of the die 0 that is accepted, whose cores have ids and whose explicit tags
    are not ids of cores of the other die, becomes a workload of that
    die: all its core ids move to the same places of that die, its
    messages stay inside the die, and it is accepted there, without any link.
    Nothing else changes: apart from the member [id_space], which then says that the ids are
    global, at every way into the workload there is the same value, or the same keys or
    length of a container, and an id moved by the offset at the places of core ids alone. *)
Theorem normalize_translates `{Geometry} (links links' : list D2DLink) (j : json) (die chip : Z) (cores sources : list json) :
  ValidateAddressSpace = Ok tt -> 0 < die < DIE_COUNT -> ValidateWorkloadStructure links j chip false = Ok tt ->
  workload_of j chip = Ok (Some (false, cores, sources)) -> (forall core, core ∈ cores -> 0 <= core_id core /\ tags_apart die core) ->
  exists j' cores' sources', NormalizeWorkloadJson j die = Ok j' /\ ValidateWorkloadStructure links' j' chip false = Ok tt /\
    workload_of j' chip = Ok (Some (true, cores', sources')) /\ Forall2 (translated die) cores cores' /\
    Forall2 (fun s s' => int_member s' "dest" = shift_id (die * CORES_PER_DIE) <$> int_member s "dest") sources sources' /\
    find_key j' "id_space" = Some (JStr "global") /\ (forall k, k <> "id_space"%string -> is_Some (find_key j' k) <-> is_Some (find_key j k)) /\
    forall s p, s <> Member "id_space" ->
      seen (s :: p) j' = if fits_one id_places (s :: p) then moved (die * CORES_PER_DIE) <$> seen (s :: p) j else seen (s :: p) j.
Proof.
  intros Hgeo Hdie Hv Hw Ht. apply (workload_accepts links j chip false Hgeo) in Hv. rewrite Hw in Hv. destruct Hv as [Hc Hf Hs].
  assert (exists j', NormalizeWorkloadJson j die = Ok j' /\ id_space_global j = Ok false) as (j' & Hn & Hg).
  { unfold workload_of in Hw. destruct (id_space_global j) as [g|]; [|done]. cbn in Hw. destruct j; try done. cbn [find_key] in Hw.
    unfold NormalizeWorkloadJson. destruct (Z.eqb_spec die 0); [lia|]. eexists. split; [reflexivity|].
    destruct (member "chips" m) as [chips|]; [|done]. destruct (_ <=? chip); [done|]. destruct (json_index chips chip) as [c|]; [|done]. cbn in Hw. destruct (json_at c "cores"); [|done]. by injection Hw as -> _ _. }
  pose proof (normalize_reads j j' die chip ltac:(lia) Hn Hg) as Hr. rewrite Hw in Hr.
  assert (forall s, s ∈ sources -> int_member (at_key "dest" (shift (die * CORES_PER_DIE)) s) "dest" = shift_id (die * CORES_PER_DIE) <$> int_member s "dest") as Hsrc.
  { intros s Hin. apply int_member_shift; [done|done|]. by apply Hs. }
  eexists j', _, _. split; [done|]. split; [|split; [exact Hr|split; [|split]]].
  - apply (workload_accepts links' j' chip false Hgeo). rewrite Hr. split.
    + intros core' (core & -> & Hin)%list_elem_of_fmap. destruct (Ht core Hin). by eapply core_legal_shift; [..|apply Hc|].
    + eapply functional_shift; [done|done|exact Hc| |done]. intros core Hin. by apply Ht.
    + intros s' (s & -> & Hin)%list_elem_of_fmap. rewrite Hsrc by done. specialize (Hs s Hin). pose proof (int_member_range s "dest") as Hr'. destruct (int_member s "dest") as [d|]; [|done].
      cbn in *. specialize (Hr' _ eq_refl). apply local_bound in Hs; [|done]. by apply shift_local; [done|done|].
  - apply Forall2_fmap_r, Forall_Forall2_diag, list.Forall_forall. intros core Hin. eapply core_translated; [done|done|by apply Hc].
  - apply Forall2_fmap_r, Forall_Forall2_diag, list.Forall_forall. exact Hsrc.
  - apply (normalize_frame j j' die); [lia|done|]. intros ->. done.
Qed.

(** *** A workload of three cores, on its own die and moved to another *)

Definition demo_core (id : Z) (extra : list (string * json)) : json := JObj (app [("id", JInt id)] extra)%string.
Definition demo_workload : json := JObj [
  ("chips", JArr [JObj [("cores", JArr [
     demo_core 0 [("prim_copy", JInt 1); ("worklist", JArr [JObj [("cast", JArr [JObj [("dest", JInt 3)]; JObj [("dest", JInt 1); ("tag", JInt 40)]; JObj [("dest", JInt (-1))]])]])];
     demo_core 1 [("worklist", JArr [JObj [("cast", JArr [JObj [("dest", JInt 3)]])]])];
     demo_core 3 []])]]);
  ("source", JArr [JObj [("dest", JInt 0)]])]%string.
Definition demo_cores : list json := match @workload_of demo_workload 0 with Ok (Some (_, cores, _)) => cores | _ => [] end.
Definition demo_sources : list json := match @workload_of demo_workload 0 with Ok (Some (_, _, sources)) => sources | _ => [] end.

Lemma workload_accepted_witness : @workload_legal demo_geometry demo_links false false demo_cores demo_sources.
Proof.
  destruct (@workload_accepted demo_geometry demo_links demo_workload 0 false) as [[H _] _]; [vm_compute; reflexivity|].
  exact (H ltac:(vm_compute; reflexivity)).
Defined.

Lemma normalize_translates_witness : exists j', @NormalizeWorkloadJson demo_geometry demo_workload 2 = Ok j' /\
  @ValidateWorkloadStructure demo_geometry [] j' 0 false = Ok tt.
Proof.
  destruct (@normalize_translates demo_geometry demo_links [] demo_workload 2 0 demo_cores demo_sources) as (j' & _ & _ & Hn & Hv & _).
  - vm_compute. reflexivity.
  - vm_compute. split; reflexivity.
  - vm_compute. reflexivity.
  - vm_compute. reflexivity.
  - intros core Hin. assert (demo_cores = [nth 0 demo_cores JNull; nth 1 demo_cores JNull; nth 2 demo_cores JNull]) as E by (vm_compute; reflexivity).
    rewrite E in Hin. repeat (apply elem_of_cons in Hin as [->|Hin]; [split; [vm_compute; discriminate|]; intros cast tag Hc|]); [..|by apply elem_of_nil in Hin].
    all: vm_compute in Hc; repeat (apply elem_of_cons in Hc as [->|Hc]; [vm_compute; intros Ht; first [discriminate Ht|injection Ht as <-; intros [? ?]; congruence]|]); by apply elem_of_nil in Hc.
  - by exists j'.
Defined.

(** The cross-die sends of a workload with global ids need the links. *)
Definition demo_global : json := JObj [("id_space", JStr "global");
  ("chips", JArr [JObj [("cores", JArr [demo_core 0 [("worklist", JArr [JObj [("cast", JArr [JObj [("dest", JInt 15)]])]])]])]])]%string.
Example cross_die_sends : @ValidateWorkloadStructure demo_geometry demo_links demo_global 0 true = Ok tt /\
  is_ok (@ValidateWorkloadStructure demo_geometry demo_links demo_global 0 false) = false /\
  is_ok (@ValidateWorkloadStructure demo_geometry [] demo_global 0 true) = false.
Proof. by vm_compute. Qed.
(** An explicit tag that is the id of a core of the new die meets that core's own tag. *)
Definition demo_tagged : json := JObj [
  ("chips", JArr [JObj [("cores", JArr [
     demo_core 0 [("worklist", JArr [JObj [("cast", JArr [JObj [("dest", JInt 3); ("tag", JInt 5)]; JObj [("dest", JInt 1)]])]])]])]])]%string.
Example explicit_tag_meets : @ValidateWorkloadStructure demo_geometry [] demo_tagged 0 false = Ok tt /\
  (j' ← @NormalizeWorkloadJson demo_geometry demo_tagged 1; @ValidateWorkloadStructure demo_geometry [] j' 0 false) =
  Err (runtime_error "tag maps to multiple receiver cores").
Proof. by vm_compute. Qed.
