(* ===== verification/Proc.v ===== *)
(** Procedures of a SystemC process that keep a shared state and may wait in the middle.
    A process runs without interruption up to a [wait]; there the other processes run,
    and it goes on when it is woken and what it waits for holds.  A logic of
    preconditions for such procedures, with what others may do during a wait. *)

From S2P Require Import Prelude.

(** [Act f] reads the time and the state, changes the state or throws, and goes on;
    [Await poll k] is [while (!poll()) wait(event); k]. *)
Inductive proc (S A : Type) : Type :=
  | Ret (a : A)
  | Act (f : Z -> S -> result (S * proc S A))
  | Await (poll : S -> result (S * bool)) (k : proc S A).
Arguments Ret {S A} a.
Arguments Act {S A} f.
Arguments Await {S A} poll k.

Fixpoint proc_bind_def {S A B} (g : A -> proc S B) (p : proc S A) : proc S B :=
  match p with
  | Ret a => g a
  | Act f => Act (fun now s => match f now s with Ok (s', p') => Ok (s', proc_bind_def g p') | Err e => Err e end)
  | Await poll k => Await poll (proc_bind_def g k)
  end.
#[export] Instance proc_bind S : MBind (proc S) := fun A B g p => proc_bind_def g p.
#[export] Instance proc_ret S : MRet (proc S) := fun A a => Ret a.

Fixpoint proc_rule {S A} (P : proc S A -> Prop) (Hr : forall a, P (Ret a))
    (Ha : forall f, (forall now s s' p', f now s = Ok (s', p') -> P p') -> P (Act f)) (Hw : forall poll k, P k -> P (Await poll k)) (p : proc S A) : P p :=
  match p with
  | Ret a => Hr a
  | Act f => Ha f (fun now s s' p' =>
      match f now s as r return r = Ok (s', p') -> P p' with
      | Ok (s1, p1) => fun E => match E in _ = r return match r with Ok (_, p2) => P p2 | Err _ => True end with eq_refl => proc_rule P Hr Ha Hw p1 end
      | Err e => fun E => match E in _ = r return match r with Ok (_, p2) => P p2 | Err _ => True end with eq_refl => I end
      end)
  | Await poll k => Hw poll k (proc_rule P Hr Ha Hw k)
  end.

Definition raise {S A} (e : exn) : proc S A := Act (fun _ _ => Err e).
(** Going on with the state in hand. *)
Definition look {S A} (k : S -> proc S A) : proc S A := Act (fun _ s => Ok (s, k s)).
(** A change of the state that gives a value. *)
Definition act {S A} (f : Z -> S -> result (S * A)) : proc S A :=
  Act (fun now s => match f now s with Ok (s', a) => Ok (s', Ret a) | Err e => Err e end).
Definition await {S} (poll : S -> result (S * bool)) : proc S unit := Await poll (Ret tt).
(** [for (x : l) body(x);] *)
Fixpoint each_do {S X} (body : X -> proc S unit) (l : list X) : proc S unit :=
  match l with [] => Ret tt | x :: l' => body x ≫= fun _ => each_do body l' end.

(** A process from a wake-up at the time [now] to its end or its next wait. *)
Fixpoint run {S A} (p : proc S A) (now : Z) (s : S) : result (S * (A + proc S A)) :=
  match p with
  | Ret a => Ok (s, inl a)
  | Act f => match f now s with Ok (s', p') => run p' now s' | Err e => Err e end
  | Await poll k =>
      match poll s with
      | Ok (s', true) => run k now s'
      | Ok (s', false) => Ok (s', inr (Await poll k))
      | Err e => Err e
      end
  end.

Lemma run_bind {S A B} (p : proc S A) (g : A -> proc S B) now s :
  run (p ≫= g) now s = match run p now s with
                       | Ok (s', inl a) => run (g a) now s'
                       | Ok (s', inr p') => Ok (s', inr (p' ≫= g))
                       | Err e => Err e
                       end.
Proof.
  revert s. change (p ≫= g) with (proc_bind_def g p). induction p as [a|f IH|poll k IH] using proc_rule; intros s; cbn.
  - done.
  - destruct (f now s) as [[s' p']|e] eqn:E; [|done]. by eapply IH.
  - destruct (poll s) as [[s' []]|e]; [apply IH|done|done].
Qed.
Lemma run_look {S A} (k : S -> proc S A) now s : run (look k) now s = run (k s) now s.
Proof. done. Qed.
Lemma run_act {S A} (f : Z -> S -> result (S * A)) now s : run (act f) now s = match f now s with Ok (s', a) => Ok (s', inl a) | Err e => Err e end.
Proof. cbn. by destruct (f now s) as [[]|]. Qed.

Section logic.
Context {S : Type}.
(** The exceptions that are the caller's fault; the states from which runs go on; what the others may do,
    and what they may rely on while a process waits. *)
Context (allowed : exn -> Prop) (live : S -> Prop) (env : S -> S -> Prop) (inv : S -> Prop).

Definition stable (J : S -> Prop) : Prop := forall s s', J s -> env s s' -> J s'.

(** [p] run from [s] throws nothing but allowed exceptions and ends in [Q]; whenever it waits, it does so
    in a condition that the others keep and from which it goes on in the same way. *)
Fixpoint wp {A} (p : proc S A) (now : Z) (s : S) (Q : A -> S -> Prop) : Prop :=
  match p with
  | Ret a => Q a s
  | Act f => match f now s with Ok (s', p') => wp p' now s' Q | Err e => allowed e end
  | Await poll k =>
      match poll s with
      | Err e => allowed e
      | Ok (s', true) => wp k now s' Q
      | Ok (s', false) => live s' -> exists J : S -> Prop, J s' /\ stable J /\ (forall s, J s -> inv s) /\
          forall now s, J s -> live s ->
          match poll s with
          | Err e => allowed e
          | Ok (s', true) => wp k now s' Q
          | Ok (s', false) => live s' -> J s'
          end
      end
  end.

(** A blocked process that keeps its promise. *)
Definition waiting {A} (p : proc S A) (s : S) (Q : A -> S -> Prop) : Prop :=
  exists poll k (J : S -> Prop), p = Await poll k /\ J s /\ stable J /\ (forall s, J s -> inv s) /\
  forall now s, J s -> live s ->
  match poll s with Err e => allowed e | Ok (s', true) => wp k now s' Q | Ok (s', false) => live s' -> J s' end.

Lemma wp_bind {A B} (p : proc S A) (g : A -> proc S B) now s (R : A -> S -> Prop) (Q : B -> S -> Prop) :
  wp p now s R -> (forall now a s, R a s -> wp (g a) now s Q) -> wp (p ≫= g) now s Q.
Proof using.
  intros Hp Hg. revert now s Hp. change (p ≫= g) with (proc_bind_def g p).
  induction p as [a|f IH|poll k IH] using proc_rule; intros now s Hp; cbn in *.
  - by apply Hg.
  - destruct (f now s) as [[s' p']|e] eqn:E; [|done]. by eapply IH.
  - destruct (poll s) as [[s' []]|e]; [by apply IH| |done]. intros Hl. destruct (Hp Hl) as (J & HJ & Hs & Hi & Hk).
    exists J. split; [done|]. split; [done|]. split; [done|]. intros now' s1 H1 H2. specialize (Hk now' s1 H1 H2).
    destruct (poll s1) as [[s2 []]|]; [by apply IH|done|done].
Qed.

Lemma wp_mono {A} (p : proc S A) now s (R Q : A -> S -> Prop) : wp p now s R -> (forall a s, R a s -> Q a s) -> wp p now s Q.
Proof using.
  intros Hp Hq. revert now s Hp. induction p as [a|f IH|poll k IH] using proc_rule; intros now s Hp; cbn in *.
  - by apply Hq.
  - destruct (f now s) as [[s' p']|e] eqn:E; [|done]. by eapply IH.
  - destruct (poll s) as [[s' []]|e]; [by apply IH| |done]. intros Hl. destruct (Hp Hl) as (J & HJ & Hs & Hi & Hk).
    exists J. split; [done|]. split; [done|]. split; [done|]. intros now' s1 H1 H2. specialize (Hk now' s1 H1 H2).
    destruct (poll s1) as [[s2 []]|]; [by apply IH|done|done].
Qed.

(** The loop rule. *)
Lemma wp_each {X} (body : X -> proc S unit) (I : list X -> S -> Prop) l now s :
  (forall now x l s, I (x :: l) s -> wp (body x) now s (fun _ s' => I l s')) -> I l s -> wp (each_do body l) now s (fun _ s' => I [] s').
Proof using.
  intros Hb. revert now s; induction l as [|x l IH]; intros now s HI; cbn; [done|].
  eapply wp_bind; [by apply Hb|]. intros now' [] s' Hs. by apply IH.
Qed.

(** A run does what [wp] says. *)
Lemma wp_run {A} (p : proc S A) now s (Q : A -> S -> Prop) : wp p now s Q ->
  match run p now s with
  | Err e => allowed e
  | Ok (s', inl a) => Q a s'
  | Ok (s', inr p') => live s' -> waiting p' s' Q
  end.
Proof using.
  revert now s. induction p as [a|f IH|poll k IH] using proc_rule; intros now s Hp; cbn in *.
  - done.
  - destruct (f now s) as [[s' p']|e] eqn:E; [|done]. by eapply IH.
  - destruct (poll s) as [[s' []]|e]; [by apply IH| |done]. intros Hl. destruct (Hp Hl) as (J & HJ & Hs & Hi & Hk).
    exists poll, k, J. done.
Qed.

Lemma waiting_run {A} (p : proc S A) now s (Q : A -> S -> Prop) : waiting p s Q -> live s ->
  match run p now s with
  | Err e => allowed e
  | Ok (s', inl a) => Q a s'
  | Ok (s', inr p') => live s' -> waiting p' s' Q
  end.
Proof using.
  intros (poll & k & J & -> & HJ & Hs & Hi & Hk) Hl. specialize (Hk now s HJ Hl) as Hk'. cbn. destruct (poll s) as [[s' []]|e]; [by apply wp_run| |done].
  intros Hl'. exists poll, k, J. split; [done|]. split; [by apply Hk'|]. done.
Qed.

Lemma waiting_env {A} (p : proc S A) s s' (Q : A -> S -> Prop) : waiting p s Q -> env s s' -> waiting p s' Q.
Proof using. intros (poll & k & J & -> & HJ & Hs & Hk) He. exists poll, k, J. split; [done|]. split; [by eapply Hs|]. done. Qed.
Lemma waiting_inv {A} (p : proc S A) s (Q : A -> S -> Prop) : waiting p s Q -> inv s.
Proof using. intros (poll & k & J & -> & HJ & Hs & Hi & _). by apply Hi. Qed.

(** [p] does not wait at all, as long as runs go on. *)
Fixpoint direct {A} (p : proc S A) (now : Z) (s : S) (Q : A -> S -> Prop) : Prop :=
  match p with
  | Ret a => Q a s
  | Act f => match f now s with Ok (s', p') => direct p' now s' Q | Err e => allowed e end
  | Await poll k => match poll s with Ok (s', true) => direct k now s' Q | Ok (s', false) => ~ live s' | Err e => allowed e end
  end.

Lemma direct_look {A} (k : S -> proc S A) now s (Q : A -> S -> Prop) : direct (k s) now s Q -> direct (look k) now s Q.
Proof using. done. Qed.
Lemma direct_bind {A B} (p : proc S A) (g : A -> proc S B) now s (R : A -> S -> Prop) (Q : B -> S -> Prop) :
  direct p now s R -> (forall a s, R a s -> direct (g a) now s Q) -> direct (p ≫= g) now s Q.
Proof using.
  intros Hp Hg. revert s Hp. change (p ≫= g) with (proc_bind_def g p).
  induction p as [a|f IH|poll k IH] using proc_rule; intros s Hp; cbn in *.
  - by apply Hg.
  - destruct (f now s) as [[s' p']|e] eqn:E; [|done]. by eapply IH.
  - destruct (poll s) as [[s' []]|e]; [by apply IH|done|done].
Qed.
Lemma direct_mono {A} (p : proc S A) now s (R Q : A -> S -> Prop) : direct p now s R -> (forall a s, R a s -> Q a s) -> direct p now s Q.
Proof using.
  intros Hp Hq. revert s Hp. induction p as [a|f IH|poll k IH] using proc_rule; intros s Hp; cbn in *.
  - by apply Hq.
  - destruct (f now s) as [[s' p']|e] eqn:E; [|done]. by eapply IH.
  - destruct (poll s) as [[s' []]|e]; [by apply IH|done|done].
Qed.
Lemma direct_each {X} (body : X -> proc S unit) (I : list X -> S -> Prop) l now s :
  (forall x l s, I (x :: l) s -> direct (body x) now s (fun _ s' => I l s')) -> I l s -> direct (each_do body l) now s (fun _ s' => I [] s').
Proof using.
  intros Hb. revert s; induction l as [|x l IH]; intros s HI; cbn; [done|].
  eapply direct_bind; [by apply Hb|]. intros [] s' Hs. by apply IH.
Qed.
Lemma direct_wp {A} (p : proc S A) now s (Q : A -> S -> Prop) : direct p now s Q -> wp p now s Q.
Proof using.
  revert s. induction p as [a|f IH|poll k IH] using proc_rule; intros s Hp; cbn in *.
  - done.
  - destruct (f now s) as [[s' p']|e] eqn:E; [|done]. by eapply IH.
  - destruct (poll s) as [[s' []]|e]; [by apply IH|done|done].
Qed.
Lemma direct_run {A} (p : proc S A) now s (Q : A -> S -> Prop) : direct p now s Q ->
  match run p now s with
  | Err e => allowed e
  | Ok (s', inl a) => Q a s'
  | Ok (s', inr _) => ~ live s'
  end.
Proof using.
  revert s. induction p as [a|f IH|poll k IH] using proc_rule; intros s Hp; cbn in *.
  - done.
  - destruct (f now s) as [[s' p']|e] eqn:E; [|done]. by eapply IH.
  - destruct (poll s) as [[s' []]|e]; [by apply IH|done|done].
Qed.
End logic.
