(* ===== verification/DteAsync.v ===== *)
(** Asynchronous transfers of a core ([src/dte/dte_async.cpp]): logical tokens over the
    transfer engine, with hazards between their scratchpad ranges, and the collection of
    adjacent descriptors in groups that are issued as one transfer.

    The tracker is used by one process of the core, and flushes groups whose time is up
    in a process of its own; both wait inside their operations, which are therefore
    procedures of [Proc].  A [DteTransferContext *] is the id of its context, as in
    [DteUnit].  Trace output and the ratio of the bandwidth are left out, and the two
    64-bit counters [next_issue_sequence_] and [next_group_id_] do not wrap. *)

From S2P Require Import Prelude MsgWire DteUnit Proc.

(** ** Data *)

Inductive DteAsyncAccess : Type := NONE | READ | WRITE | READ_WRITE.
Definition DTE_ASYNC_INVALID_XFER_ID : Z := UINT64_MAX.
Definition DTE_ASYNC_INVALID_REMOTE_PEER : Z := UINT32_MAX.

Record DteAggregationConfig : Type := mkAgg {
  enabled : bool; max_descriptors : Z; max_payload_bytes : Z; timeout_cycles : Z; address_block_bytes : Z
}.
Record DteAggregationMetrics : Type := mkMetrics {
  logical_descriptors : Z; physical_transfers : Z; coalesced_descriptors : Z; launch_savings : Z; useful_payload_bits : Z; bus_capacity_bits : Z
}.
Record DteAsyncRecord : Type := mkRecord {
  r_token : Z; r_xfer_id : Z; r_context : option Z; r_spm_addr : Z; r_spm_size : Z; r_access : DteAsyncAccess;
  r_spm_read_addr : Z; r_spm_read_size : Z; r_spm_write_addr : Z; r_spm_write_size : Z; r_issue_sequence : Z; r_payload_bits : Z;
  r_direction : DteDir; r_remote_peer : Z; r_remote_addr : Z; r_address_block : Z; r_group_id : Z; r_staged : bool
}.
Definition GroupKey : Type := Z * Z * Z.
Record OpenGroup : Type := mkGroup {
  g_group_id : Z; g_key : GroupKey; g_direction : DteDir; g_tokens : list Z; g_total_payload_bits : Z; g_total_payload_bytes : Z;
  g_next_spm_addr : Z; g_next_remote_addr : Z; g_first_issue_sequence : Z; g_deadline : Z
}.
Record PhysicalBatch : Type := mkBatch { b_xfer_id : Z; b_context : Z; b_remaining_tokens : Z; b_member_count : Z; b_payload_bits : Z }.
Record DteAsyncTracker : Type := mkTracker {
  unit_ : DTEUnit; aggregation_ : DteAggregationConfig; records_ : gmap Z DteAsyncRecord; open_groups_ : gmap Z OpenGroup;
  group_by_key_ : gmap GroupKey Z; physical_batches_ : gmap Z PhysicalBatch; aggregation_metrics_ : DteAggregationMetrics;
  next_issue_sequence_ : Z; next_group_id_ : Z
}.

Definition set_unit (u : DTEUnit) (t : DteAsyncTracker) : DteAsyncTracker :=
  mkTracker u (aggregation_ t) (records_ t) (open_groups_ t) (group_by_key_ t) (physical_batches_ t) (aggregation_metrics_ t) (next_issue_sequence_ t) (next_group_id_ t).
Definition set_records (m : gmap Z DteAsyncRecord) (t : DteAsyncTracker) : DteAsyncTracker :=
  mkTracker (unit_ t) (aggregation_ t) m (open_groups_ t) (group_by_key_ t) (physical_batches_ t) (aggregation_metrics_ t) (next_issue_sequence_ t) (next_group_id_ t).
Definition set_groups (m : gmap Z OpenGroup) (k : gmap GroupKey Z) (t : DteAsyncTracker) : DteAsyncTracker :=
  mkTracker (unit_ t) (aggregation_ t) (records_ t) m k (physical_batches_ t) (aggregation_metrics_ t) (next_issue_sequence_ t) (next_group_id_ t).
Definition set_batches (m : gmap Z PhysicalBatch) (t : DteAsyncTracker) : DteAsyncTracker :=
  mkTracker (unit_ t) (aggregation_ t) (records_ t) (open_groups_ t) (group_by_key_ t) m (aggregation_metrics_ t) (next_issue_sequence_ t) (next_group_id_ t).
Definition set_metrics (m : DteAggregationMetrics) (t : DteAsyncTracker) : DteAsyncTracker :=
  mkTracker (unit_ t) (aggregation_ t) (records_ t) (open_groups_ t) (group_by_key_ t) (physical_batches_ t) m (next_issue_sequence_ t) (next_group_id_ t).

(** [std::map::at] and [emplace]; nothing is emplaced over an element. *)
Definition at_ {V} (m : gmap Z V) (k : Z) : result V := match m !! k with Some v => Ok v | None => Err (out_of_range "map::at") end.
Definition emplace {V} (k : Z) (v : V) (m : gmap Z V) : gmap Z V := match m !! k with Some _ => m | None => <[k := v]> m end.
(** [std::sort] of pairs. *)
Definition pair_le (a b : Z * Z) : Prop := a.1 < b.1 \/ a.1 = b.1 /\ a.2 <= b.2.
#[export] Instance pair_le_dec a b : Decision (pair_le a b).
Proof. unfold pair_le. apply _. Defined.

Definition ValidateDteAggregationConfig (c : DteAggregationConfig) : result unit :=
  if negb (enabled c) then Ok tt else
  THROW invalid_argument "DTE V3b aggregation_max_descriptors must be >= 2" WHEN max_descriptors c <? 2;;
  THROW invalid_argument "DTE V3b aggregation_max_bytes must be > 0" WHEN max_payload_bytes c =? 0;;
  THROW invalid_argument "DTE V3b aggregation_timeout must be > 0 cycles" WHEN timeout_cycles c =? 0;;
  throw_if (address_block_bytes c =? 0) (invalid_argument "DTE V3b aggregation_address_block_bytes must be > 0").
Definition new_DteAsyncTracker (u : DTEUnit) (c : DteAggregationConfig) : result DteAsyncTracker :=
  ValidateDteAggregationConfig c ≫= fun _ => Ok (mkTracker u c ∅ ∅ ∅ ∅ (mkMetrics 0 0 0 0 0 0) 0 0).

(** ** Ranges and hazards *)

Definition AccessForDirection (d : DteDir) : DteAsyncAccess :=
  match d with
  | SPM_TO_REMOTE | SPM_TO_DRAM => READ
  | REMOTE_TO_SPM | DRAM_TO_SPM => WRITE
  | SPM_TO_SPM => READ_WRITE
  | DRAM_TO_REMOTE => NONE
  end.
Definition RangeOverlaps (lhs_addr lhs_size rhs_addr rhs_size : Z) : bool :=
  if (lhs_size =? 0) || (rhs_size =? 0) then false
  else (lhs_addr <? u64 (rhs_addr + rhs_size)) && (rhs_addr <? u64 (lhs_addr + lhs_size)).
Definition HasHazard (x y : DteAsyncRecord) : bool :=
  RangeOverlaps (r_spm_write_addr x) (r_spm_write_size x) (r_spm_read_addr y) (r_spm_read_size y) ||
  RangeOverlaps (r_spm_write_addr x) (r_spm_write_size x) (r_spm_write_addr y) (r_spm_write_size y) ||
  RangeOverlaps (r_spm_read_addr x) (r_spm_read_size x) (r_spm_write_addr y) (r_spm_write_size y).

(** The arguments of [IssueToken]. *)
Record request : Type := mkRequest {
  q_token : Z; q_payload_bits : Z; q_dir : DteDir; q_spm_addr : Z; q_spm_size : Z; q_remote_peer : Z; q_remote_addr : Z; q_address_block : Z
}.
(** The record of a request, with the ranges of [PopulateSpmRanges]. *)
Definition reads_spm (d : DteDir) : bool := match d with SPM_TO_REMOTE | SPM_TO_DRAM | SPM_TO_SPM => true | _ => false end.
Definition write_range (q : request) : Z * Z :=
  match q_dir q with
  | REMOTE_TO_SPM | DRAM_TO_SPM => (q_spm_addr q, q_spm_size q)
  | SPM_TO_SPM => (q_remote_addr q, q_spm_size q)
  | _ => (0, 0)
  end.
Definition new_record (q : request) (sequence : Z) : DteAsyncRecord :=
  let read := if reads_spm (q_dir q) then (q_spm_addr q, q_spm_size q) else (0, 0) in
  mkRecord (q_token q) DTE_ASYNC_INVALID_XFER_ID None (q_spm_addr q) (q_spm_size q) (AccessForDirection (q_dir q))
    read.1 read.2 (write_range q).1 (write_range q).2 sequence (q_payload_bits q)
    (q_dir q) (q_remote_peer q) (q_remote_addr q) (q_address_block q) DTE_ASYNC_INVALID_XFER_ID false.

Definition bad (s : string) : exn := invalid_argument (String.append "DTE " s).
Definition v4_direction (d : DteDir) : bool := match d with SPM_TO_SPM | SPM_TO_DRAM | DRAM_TO_SPM | DRAM_TO_REMOTE => true | _ => false end.
Definition is_dir (d d' : DteDir) : bool := bool_decide (d = d').
Definition ValidateIssue (t : DteAsyncTracker) (q : request) : result unit :=
  let dir := q_dir q in
  THROW bad "async logical token is already outstanding" WHEN bool_decide (is_Some (records_ t !! q_token q));;
  THROW bad "async payload_bits must be > 0" WHEN q_payload_bits q =? 0;;
  THROW bad "V4 direction requires fine_grained_resources=true" WHEN v4_direction dir && negb (fine_grained_resources (config_ (unit_ t)));;
  CeilDivU64 (q_payload_bits q) 8 ≫= fun payload_bytes : Z =>
  (if is_dir dir DRAM_TO_REMOTE then
     throw_if (negb (q_spm_addr q =? 0) || negb (q_spm_size q =? 0)) (bad "DRAM_TO_REMOTE must not declare a local SPM range")
   else
     THROW bad "async spm_size must be > 0" WHEN q_spm_size q =? 0;;
     THROW overflow_error "DTE async SPM address range overflows" WHEN UINT64_MAX - q_spm_size q <? q_spm_addr q;;
     throw_if (q_spm_size q <? payload_bytes) (bad "async payload does not fit in the declared SPM range")) ≫= fun _ =>
  let remote_range_bytes := if is_dir dir SPM_TO_SPM then q_spm_size q else payload_bytes in
  THROW overflow_error "DTE V4 secondary address range overflows" WHEN v4_direction dir && (UINT64_MAX - remote_range_bytes <? q_remote_addr q);;
  THROW bad "DRAM_TO_REMOTE requires remote_peer" WHEN is_dir dir DRAM_TO_REMOTE && (q_remote_peer q =? DTE_ASYNC_INVALID_REMOTE_PEER);;
  if negb (enabled (aggregation_ t)) then Ok tt else
  THROW bad "V3b aggregation supports only remote SPM endpoint directions" WHEN negb (is_dir dir SPM_TO_REMOTE) && negb (is_dir dir REMOTE_TO_SPM);;
  THROW bad "V3b aggregation requires a byte-aligned payload whose size equals spm_size"
    WHEN negb (q_payload_bits q mod 8 =? 0) || negb (payload_bytes =? q_spm_size q);;
  THROW bad "V3b aggregation requires remote_peer" WHEN q_remote_peer q =? DTE_ASYNC_INVALID_REMOTE_PEER;;
  THROW overflow_error "DTE V3b remote address range overflows" WHEN UINT64_MAX - payload_bytes <? q_remote_addr q;;
  let first_block := q_remote_addr q / address_block_bytes (aggregation_ t) in
  let last_block := (q_remote_addr q + payload_bytes - 1) / address_block_bytes (aggregation_ t) in
  throw_if (negb (first_block =? last_block) || negb (first_block =? q_address_block q)) (bad "V3b descriptor must fit in its declared address_block").

Definition CanAppend (c : DteAggregationConfig) (g : OpenGroup) (q : request) : bool :=
  let payload_bytes := q_payload_bits q / 8 in
  if max_descriptors c <=? Z.of_nat (length (g_tokens g)) then false
  else if u64 (max_payload_bytes c - payload_bytes) <? g_total_payload_bytes g then false
  else (g_next_spm_addr g =? q_spm_addr q) && (g_next_remote_addr g =? q_remote_addr q) && (q_spm_size q =? payload_bytes).

(** ** Physical transfers *)

Notation tproc := (proc DteAsyncTracker).

(** [records_.at(token)] bound to the transfer. *)
Definition bind_record (id : Z) (m : gmap Z DteAsyncRecord) (token : Z) : result (gmap Z DteAsyncRecord) :=
  at_ m token ≫= fun r : DteAsyncRecord =>
  Ok (<[token := mkRecord (r_token r) id (Some id) (r_spm_addr r) (r_spm_size r) (r_access r) (r_spm_read_addr r) (r_spm_read_size r) (r_spm_write_addr r)
         (r_spm_write_size r) (r_issue_sequence r) (r_payload_bits r) (r_direction r) (r_remote_peer r) (r_remote_addr r) (r_address_block r) (r_group_id r) false]> m).

Definition accounting_width (c : DTEConfig) (d : DteDir) : Z :=
  if fine_grained_resources c then (if is_dir d SPM_TO_REMOTE then spm_read_width_bits c else spm_write_width_bits c) else bit_width_bits c.
Definition account (c : DTEConfig) (members bits : Z) (d : DteDir) (m : DteAggregationMetrics) : result DteAggregationMetrics :=
  let width := accounting_width c d in
  CeilDivU64 bits width ≫= fun cycles : Z =>
  THROW overflow_error "DTE aggregation bus capacity accounting overflows" WHEN UINT64_MAX / width <? cycles;;
  Ok (mkMetrics (logical_descriptors m) (u64 (physical_transfers m + 1))
        (if 1 <? members then u64 (coalesced_descriptors m + members) else coalesced_descriptors m)
        (if 1 <? members then u64 (launch_savings m + (members - 1)) else launch_savings m)
        (u64 (useful_payload_bits m + bits)) (u64 (bus_capacity_bits m + cycles * width))).

Definition credit (t : DteAsyncTracker) : result (DteAsyncTracker * bool) :=
  let '(u, b) := WaitForCredit (unit_ t) in Ok (set_unit u t, b).
Definition issue_batch (tokens : list Z) (bits : Z) (d : DteDir) (now : Z) (t : DteAsyncTracker) : result (DteAsyncTracker * Z) :=
  Issue now (unit_ t) bits d ≫= fun '((u, id) : DTEUnit * Z) =>
  let n := Z.of_nat (length tokens) in
  foldM (bind_record id) (records_ t) tokens ≫= fun records : gmap Z DteAsyncRecord =>
  account (config_ u) n bits d (aggregation_metrics_ t) ≫= fun metrics : DteAggregationMetrics =>
  Ok (set_metrics metrics (set_batches (emplace id (mkBatch id id n n bits) (physical_batches_ t)) (set_records records (set_unit u t))), id).
Definition IssuePhysical (tokens : list Z) (bits : Z) (d : DteDir) : tproc Z :=
  match tokens with
  | [] => raise (logic_error "DTE async physical batch has no tokens")
  | _ => await credit ≫= fun _ => act (issue_batch tokens bits d)
  end.

(** ** Groups *)

Definition restage (gid : Z) (r : DteAsyncRecord) : DteAsyncRecord :=
  mkRecord (r_token r) (r_xfer_id r) (r_context r) (r_spm_addr r) (r_spm_size r) (r_access r) (r_spm_read_addr r) (r_spm_read_size r) (r_spm_write_addr r)
    (r_spm_write_size r) (r_issue_sequence r) (r_payload_bits r) (r_direction r) (r_remote_peer r) (r_remote_addr r) (r_address_block r) gid true.
Definition StartAggregationGroup (token : Z) (now : Z) (t : DteAsyncTracker) : result (DteAsyncTracker * Z) :=
  at_ (records_ t) token ≫= fun r : DteAsyncRecord =>
  let gid := next_group_id_ t in
  let key : GroupKey := (DteDir_code (r_direction r), r_remote_peer r, r_address_block r) in
  let g := mkGroup gid key (r_direction r) [token] (r_payload_bits r) (r_payload_bits r / 8) (u64 (r_spm_addr r + r_spm_size r))
             (u64 (r_remote_addr r + r_payload_bits r / 8)) (r_issue_sequence r) (now + u64 (timeout_cycles (aggregation_ t) * CYCLE)) in
  Ok (mkTracker (unit_ t) (aggregation_ t) (<[token := restage gid r]> (records_ t)) (emplace gid g (open_groups_ t))
        (<[key := gid]> (group_by_key_ t)) (physical_batches_ t) (aggregation_metrics_ t) (next_issue_sequence_ t) (gid + 1), gid).
Definition AppendToAggregationGroup (gid token : Z) (now : Z) (t : DteAsyncTracker) : result (DteAsyncTracker * Z) :=
  at_ (open_groups_ t) gid ≫= fun g : OpenGroup =>
  at_ (records_ t) token ≫= fun r : DteAsyncRecord =>
  let g' := mkGroup (g_group_id g) (g_key g) (g_direction g) (g_tokens g ++ [token]) (u64 (g_total_payload_bits g + r_payload_bits r))
              (u64 (g_total_payload_bytes g + r_payload_bits r / 8)) (u64 (r_spm_addr r + r_spm_size r))
              (u64 (r_remote_addr r + r_payload_bits r / 8)) (g_first_issue_sequence g) (g_deadline g) in
  Ok (set_groups (<[gid := g']> (open_groups_ t)) (group_by_key_ t) (set_records (<[token := restage gid r]> (records_ t)) t), gid).

(** The last lines of [FlushGroup]: the iterator was found before the wait, and is invalid when the group is gone. *)
Definition close_group (gid : Z) (key : GroupKey) (now : Z) (t : DteAsyncTracker) : result (DteAsyncTracker * unit) :=
  THROW use_after_free WHEN negb (bool_decide (is_Some (open_groups_ t !! gid)));;
  Ok (set_groups (delete gid (open_groups_ t)) (delete key (group_by_key_ t)) t, tt).
Definition FlushGroup (gid : Z) : tproc Z := look (fun t =>
  match open_groups_ t !! gid with
  | None => Ret DTE_ASYNC_INVALID_XFER_ID
  | Some g => IssuePhysical (g_tokens g) (g_total_payload_bits g) (g_direction g) ≫= fun xfer : Z => act (close_group gid (g_key g)) ≫= fun _ => Ret xfer
  end).
Definition flush (e : Z * Z) : tproc unit := FlushGroup e.2 ≫= fun _ => Ret tt.
Definition groups_in_order (p : OpenGroup -> bool) (t : DteAsyncTracker) : list (Z * Z) :=
  merge_sort pair_le (omap (fun e => if p e.2 then Some (g_first_issue_sequence e.2, e.1) else None) (map_to_list (open_groups_ t))).
Definition FlushAllOpenGroups : tproc unit := look (fun t => each_do flush (groups_in_order (fun _ => true) t)).

(** ** Waiting *)

Definition is_completed (u : DTEUnit) (id : Z) : result bool :=
  deref u id ≫= fun c : DteTransferContext => Ok (bool_decide (state c = COMPLETED)).
(** [wait(context.done)] *)
Definition done_event (id : Z) (t : DteAsyncTracker) : result (DteAsyncTracker * bool) :=
  is_completed (unit_ t) id ≫= fun b : bool => Ok (t, b).
Definition check_done (token : Z) (now : Z) (t : DteAsyncTracker) : result (DteAsyncTracker * unit) :=
  match records_ t !! token with
  | None => Err use_after_free
  | Some r =>
      match r_context r with
      | None => Err use_after_free
      | Some id => is_completed (unit_ t) id ≫= fun b : bool =>
          THROW logic_error "DTE async wait woke without a completed transfer" WHEN negb b;; Ok (t, tt)
      end
  end.
Definition context_of (t : DteAsyncTracker) (token : Z) : result Z :=
  at_ (records_ t) token ≫= fun r : DteAsyncRecord =>
  match r_context r with
  | None => Err (logic_error "DTE async token/context mapping is corrupt")
  | Some id => deref (unit_ t) id ≫= fun c : DteTransferContext =>
      THROW logic_error "DTE async token/context mapping is corrupt" WHEN negb (xfer_id c =? r_xfer_id r);; Ok id
  end.
Definition unknown (s : string) : exn := invalid_argument (String.append (String.append "DTE async " s) " references an unknown token").
Definition flush_staged (r : DteAsyncRecord) : tproc unit :=
  if r_staged r then FlushGroup (r_group_id r) ≫= fun _ => Ret tt else Ret tt.
Definition WaitForCompletion (token : Z) : tproc unit := look (fun t =>
  match records_ t !! token with
  | None => raise (unknown "wait")
  | Some r =>
      flush_staged r ≫= fun _ =>
      act (fun now t => context_of t token ≫= fun id : Z => Ok (t, id)) ≫= fun id : Z =>
      await (done_event id) ≫= fun _ =>
      act (check_done token)
  end).
Definition release_token (token : Z) (now : Z) (t : DteAsyncTracker) : result (DteAsyncTracker * unit) :=
  at_ (records_ t) token ≫= fun r : DteAsyncRecord =>
  let corrupt := logic_error "DTE async physical batch accounting is corrupt" in
  match physical_batches_ t !! r_xfer_id r with
  | None => Err corrupt
  | Some b =>
      THROW corrupt WHEN b_remaining_tokens b =? 0;;
      let n := b_remaining_tokens b - 1 in
      let b' := mkBatch (b_xfer_id b) (b_context b) n (b_member_count b) (b_payload_bits b) in
      let t' := set_records (delete token (records_ t)) t in
      if negb (n =? 0) then Ok (set_batches (<[r_xfer_id r := b']> (physical_batches_ t)) t', tt) else
      let '(u, released) := Release (unit_ t) (r_xfer_id r) in
      THROW logic_error "DTE async completed transfer context could not be released" WHEN negb released;;
      Ok (set_batches (delete (r_xfer_id r) (physical_batches_ t)) (set_unit u t'), tt)
  end.
Definition WaitAndRelease (token : Z) : tproc unit := look (fun t =>
  match records_ t !! token with
  | None => raise (unknown "wait")
  | Some _ => WaitForCompletion token ≫= fun _ => act (release_token token)
  end).
Definition WaitToken (token : Z) : tproc unit := WaitAndRelease token.

Definition PollToken (token : Z) (now : Z) (t : DteAsyncTracker) : result (DteAsyncTracker * bool) :=
  match records_ t !! token with
  | None => Err (unknown "poll")
  | Some r => if r_staged r then Ok (t, false) else context_of t token ≫= fun id : Z => is_completed (unit_ t) id ≫= fun b : bool => Ok (t, b)
  end.

Definition tokens_in_order (t : DteAsyncTracker) : list (Z * Z) :=
  merge_sort pair_le ((fun e => (r_issue_sequence e.2, e.1)) <$> map_to_list (records_ t)).
Definition OutstandingTokens (t : DteAsyncTracker) : list Z := (tokens_in_order t).*2.
Definition fence_token (e : Z * Z) : tproc unit := look (fun t =>
  match records_ t !! e.2 with Some _ => WaitAndRelease e.2 | None => Ret tt end).
Definition Fence : tproc unit :=
  FlushAllOpenGroups ≫= fun _ => look (fun t => each_do fence_token (tokens_in_order t)).

(** ** Cancelling *)

Definition drop_tail (gid : Z) (g : OpenGroup) (r : DteAsyncRecord) (token : Z) (t : DteAsyncTracker) : result DteAsyncTracker :=
  let rest := removelast (g_tokens g) in
  let records := delete token (records_ t) in
  match list.last rest with
  | None => Ok (set_groups (delete gid (open_groups_ t)) (delete (g_key g) (group_by_key_ t)) (set_records records t))
  | Some tail_token =>
      at_ records tail_token ≫= fun tail : DteAsyncRecord =>
      let g' := mkGroup (g_group_id g) (g_key g) (g_direction g) rest (u64 (g_total_payload_bits g - r_payload_bits r))
                  (u64 (g_total_payload_bytes g - r_payload_bits r / 8)) (u64 (r_spm_addr tail + r_spm_size tail))
                  (u64 (r_remote_addr tail + r_payload_bits tail / 8)) (g_first_issue_sequence g) (g_deadline g) in
      Ok (set_groups (<[gid := g']> (open_groups_ t)) (group_by_key_ t) (set_records records t))
  end.
Definition CancelStagedToken (token : Z) (t : DteAsyncTracker) : result DteAsyncTracker :=
  at_ (records_ t) token ≫= fun r : DteAsyncRecord =>
  match open_groups_ t !! r_group_id r with
  | None => Err (logic_error "DTE staged token has no open group")
  | Some g =>
      THROW runtime_error "DTE V3b can cancel only the tail of an open aggregation group" WHEN negb (bool_decide (list.last (g_tokens g) = Some token));;
      drop_tail (r_group_id r) g r token t
  end.
Definition CancelToken (token : Z) (now : Z) (t : DteAsyncTracker) : result (DteAsyncTracker * unit) :=
  match records_ t !! token with
  | None => Err (unknown "cancel")
  | Some r =>
      if r_staged r then CancelStagedToken token t ≫= fun t : DteAsyncTracker => Ok (t, tt) else
      match physical_batches_ t !! r_xfer_id r with
      | None => Err (logic_error "DTE async physical batch is absent")
      | Some b =>
          THROW runtime_error "DTE V3b cannot cancel one token from an issued compound descriptor" WHEN negb (b_member_count b =? 1);;
          Cancel now (unit_ t) (r_xfer_id r) ≫= fun '((u, cancelled) : DTEUnit * bool) =>
          THROW runtime_error "DTE async can cancel only a pending transfer" WHEN negb cancelled;;
          let '(u, released) := Release u (r_xfer_id r) in
          THROW logic_error "DTE async cancelled transfer context could not be released" WHEN negb released;;
          Ok (set_records (delete token (records_ t)) (set_batches (delete (r_xfer_id r) (physical_batches_ t)) (set_unit u t)), tt)
      end
  end.

(** ** Issuing *)

Definition incomplete (t : DteAsyncTracker) (r : DteAsyncRecord) : result bool :=
  match r_context r with None => Ok true | Some id => is_completed (unit_ t) id ≫= fun b : bool => Ok (negb b) end.
Definition add_conflict (t : DteAsyncTracker) (incoming : DteAsyncRecord) (acc : list (Z * Z)) (e : Z * DteAsyncRecord) : result (list (Z * Z)) :=
  incomplete t e.2 ≫= fun b : bool => Ok (if b && HasHazard e.2 incoming then acc ++ [(r_issue_sequence e.2, e.1)] else acc).
Definition conflicts (t : DteAsyncTracker) (incoming : DteAsyncRecord) : result (list (Z * Z)) :=
  foldM (add_conflict t incoming) [] (map_to_list (records_ t)) ≫= fun l : list (Z * Z) => Ok (merge_sort pair_le l).

Definition add_record (q : request) (now : Z) (t : DteAsyncTracker) : result (DteAsyncTracker * unit) :=
  let m := aggregation_metrics_ t in
  Ok (mkTracker (unit_ t) (aggregation_ t) (emplace (q_token q) (new_record q (next_issue_sequence_ t)) (records_ t)) (open_groups_ t) (group_by_key_ t) (physical_batches_ t)
        (mkMetrics (u64 (logical_descriptors m + 1)) (physical_transfers m) (coalesced_descriptors m) (launch_savings m) (useful_payload_bits m) (bus_capacity_bits m))
        (next_issue_sequence_ t + 1) (next_group_id_ t), tt).
(** The group that takes the token. *)
Definition stage (q : request) : tproc Z := look (fun t =>
  let key : GroupKey := (DteDir_code (q_dir q), q_remote_peer q, q_address_block q) in
  match group_by_key_ t !! key with
  | None => act (StartAggregationGroup (q_token q))
  | Some current_id =>
      match open_groups_ t !! current_id with
      | None => raise (out_of_range "map::at")
      | Some current =>
          if CanAppend (aggregation_ t) current q then act (AppendToAggregationGroup current_id (q_token q))
          else FlushGroup current_id ≫= fun _ => act (StartAggregationGroup (q_token q))
      end
  end).
Definition flush_full (gid : Z) : tproc Z := look (fun t =>
  match open_groups_ t !! gid with
  | None => raise (out_of_range "map::at")
  | Some g =>
      if (max_descriptors (aggregation_ t) <=? Z.of_nat (length (g_tokens g))) || (max_payload_bytes (aggregation_ t) <=? g_total_payload_bytes g)
      then FlushGroup gid else Ret DTE_ASYNC_INVALID_XFER_ID
  end).
Definition wait_conflict (e : Z * Z) : tproc unit := WaitForCompletion e.2.
Definition issue_record (q : request) : tproc Z := look (fun t =>
  if negb (enabled (aggregation_ t)) || (max_payload_bytes (aggregation_ t) <? q_payload_bits q / 8)
  then IssuePhysical [q_token q] (q_payload_bits q) (q_dir q)
  else stage q ≫= flush_full).
Definition IssueToken (q : request) : tproc Z :=
  act (fun now t => ValidateIssue t q ≫= fun _ => conflicts t (new_record q 0) ≫= fun l : list (Z * Z) => Ok (t, l)) ≫= fun l : list (Z * Z) =>
  each_do wait_conflict l ≫= fun _ =>
  act (add_record q) ≫= fun _ =>
  issue_record q.

(** ** The process that flushes groups whose time is up *)

(** One pass of the loop of [timeoutWorker]: it flushes the groups that are due, if any. *)
Definition timeout_pass : tproc unit := Act (fun now t => Ok (t,
  if negb (enabled (aggregation_ t)) then Ret tt else each_do flush (groups_in_order (fun g => g_deadline g <=? now) t))).

(** ** The processes of a core *)

(** The operations of the primitives of a core ([execute_dte_async]). *)
Inductive core_op : Type := ISSUE (q : request) | WAIT (token : Z) | POLL (token : Z) | FENCE | CANCEL (token : Z).
Definition execute_dte_async (o : core_op) : tproc unit :=
  match o with
  | ISSUE q => IssueToken q ≫= fun _ => Ret tt
  | WAIT token => WaitToken token
  | POLL token => act (PollToken token) ≫= fun _ => Ret tt
  | FENCE => Fence
  | CANCEL token => act (CancelToken token)
  end.
Definition op_typed (o : core_op) : Prop :=
  match o with
  | ISSUE q => in_u 64 (q_payload_bits q) /\ in_u 64 (q_spm_addr q) /\ in_u 64 (q_spm_size q) /\ in_u 64 (q_remote_addr q) /\
      in_u 32 (q_token q) /\ in_u 32 (q_remote_peer q) /\ in_u 32 (q_address_block q)
  | _ => True
  end.

(** The tracker, the operation in which the core waits, and the flush in which the second process waits. *)
Record dte_system : Type := mkSystem { s_now : Z; s_tracker : DteAsyncTracker; s_core : option (tproc unit); s_worker : option (tproc unit) }.
Definition still {A B} (r : A + B) : option B := match r with inl _ => None | inr p => Some p end.
(** Transfers can still be issued: ids of transfers are 64 bits wide. *)
Definition live (t : DteAsyncTracker) : Prop := next_xfer_id_ (unit_ t) < UINT64_MAX.

(** The two processes, the engine and the other users of the engine, who release their own transfers only. *)
Inductive system_step : dte_system -> dte_system -> Prop :=
  | sys_time now now' t c w : live t -> now <= now' -> system_step (mkSystem now t c w) (mkSystem now' t c w)
  | sys_engine fuel now t c w u d : live t -> measure (unit_ t) < Z.of_nat fuel -> scheduler fuel now (unit_ t) = Ok (u, d) ->
      system_step (mkSystem now t c w) (mkSystem now (set_unit u t) c w)
  | sys_other_issue now t c w bits d u o : live t -> 0 <= bits < 2 ^ 64 -> TryIssue now (unit_ t) bits d = Ok (u, o) ->
      system_step (mkSystem now t c w) (mkSystem now (set_unit u t) c w)
  | sys_other_wait now t c w : live t -> system_step (mkSystem now t c w) (mkSystem now (set_unit (WaitForCredit (unit_ t)).1 t) c w)
  | sys_other_release now t c w id : live t -> physical_batches_ t !! id = None ->
      system_step (mkSystem now t c w) (mkSystem now (set_unit (Release (unit_ t) id).1 t) c w)
  | sys_core_start now t w o t' r : live t -> op_typed o -> run (execute_dte_async o) now t = Ok (t', r) ->
      system_step (mkSystem now t None w) (mkSystem now t' (still r) w)
  | sys_core_wake now t w p t' r : live t -> run p now t = Ok (t', r) -> system_step (mkSystem now t (Some p) w) (mkSystem now t' (still r) w)
  | sys_worker_start now t c t' r : live t -> run timeout_pass now t = Ok (t', r) -> system_step (mkSystem now t c None) (mkSystem now t' c (still r))
  | sys_worker_wake now t c p t' r : live t -> run p now t = Ok (t', r) -> system_step (mkSystem now t c (Some p)) (mkSystem now t' c (still r)).
