(* ===== verification/DteAsyncInv.v ===== *)
(** The invariant of the asynchronous transfers: every outstanding token is staged in
    one open group or bound to one transfer of the engine, groups are contiguous on
    both sides, and unfinished transfers do not touch the same bytes. *)

From S2P Require Import Prelude MsgWire DteUnit Proc DteAsync.

(** ** The invariant *)

Definition in_context (id : Z) (r : DteAsyncRecord) : Z := if bool_decide (r_context r = Some id) then 1 else 0.
(** The tokens bound to a transfer. *)
Definition members (t : DteAsyncTracker) (id : Z) : Z := map_sum (in_context id) (records_ t).

(** A record whose transfer has not been seen complete. *)
Definition unfinished (t : DteAsyncTracker) (r : DteAsyncRecord) : Prop :=
  match r_context r with None => True | Some id => forall c, contexts_ (unit_ t) !! id = Some c -> state c <> COMPLETED end.
Definition completed_token (t : DteAsyncTracker) (token : Z) : Prop :=
  exists r id c, records_ t !! token = Some r /\ r_staged r = false /\ r_context r = Some id /\ contexts_ (unit_ t) !! id = Some c /\ state c = COMPLETED.

(** What aggregation asks of a descriptor: whole bytes, and ranges that do not wrap. *)
Record aligned (r : DteAsyncRecord) : Prop := {
  al_bits : r_payload_bits r = 8 * r_spm_size r;
  al_size : 0 < r_spm_size r;
  al_spm : 0 <= r_spm_addr r /\ r_spm_addr r + r_spm_size r <= UINT64_MAX;
  al_remote : 0 <= r_remote_addr r /\ r_remote_addr r + r_spm_size r <= UINT64_MAX
}.
(** The descriptors of a group in their order: adjacent in the scratchpad and at the remote end. *)
Inductive spans : list DteAsyncRecord -> Z -> Z -> Z -> Prop :=
  | spans_one r : aligned r -> spans [r] (r_spm_size r) (r_spm_addr r + r_spm_size r) (r_remote_addr r + r_spm_size r)
  | spans_snoc rs r n a b : spans rs n a b -> aligned r -> r_spm_addr r = a -> r_remote_addr r = b ->
      spans (rs ++ [r]) (n + r_spm_size r) (a + r_spm_size r) (b + r_spm_size r).

Definition record_key (r : DteAsyncRecord) : GroupKey := (DteDir_code (r_direction r), r_remote_peer r, r_address_block r).
Definition staged_member (t : DteAsyncTracker) (gid : Z) (key : GroupKey) (token : Z) (r : DteAsyncRecord) : Prop :=
  records_ t !! token = Some r /\ r_staged r = true /\ r_context r = None /\ r_group_id r = gid /\ record_key r = key.
Record group_ok (t : DteAsyncTracker) (gid : Z) (g : OpenGroup) : Prop := {
  go_id : gid < next_group_id_ t;
  go_key : group_by_key_ t !! g_key g = Some gid;
  go_nodup : NoDup (g_tokens g);
  go_members : exists rs, Forall2 (staged_member t gid (g_key g)) (g_tokens g) rs /\
    spans rs (g_total_payload_bytes g) (g_next_spm_addr g) (g_next_remote_addr g);
  go_bits : g_total_payload_bits g = 8 * g_total_payload_bytes g;
  go_bytes : 0 < g_total_payload_bytes g <= max_payload_bytes (aggregation_ t);
  go_dir : (g_key g).1.1 = DteDir_code (g_direction g)
}.
Record batch_ok (t : DteAsyncTracker) (id : Z) (b : PhysicalBatch) : Prop := {
  bo_context : exists c, contexts_ (unit_ t) !! id = Some c /\ state c <> CANCELLED;
  bo_remaining : b_remaining_tokens b = members t id;
  bo_count : 0 < b_remaining_tokens b <= b_member_count b
}.

Definition staged_in (t : DteAsyncTracker) (token : Z) (r : DteAsyncRecord) : Prop :=
  r_staged r = true /\ r_context r = None /\ exists g, open_groups_ t !! r_group_id r = Some g /\ token ∈ g_tokens g.
Definition bound (t : DteAsyncTracker) (r : DteAsyncRecord) : Prop :=
  r_staged r = false /\ r_context r = Some (r_xfer_id r) /\ is_Some (physical_batches_ t !! r_xfer_id r).
Definition fresh_record (r : DteAsyncRecord) : Prop := r_staged r = false /\ r_context r = None.

Record agg_typed (c : DteAggregationConfig) : Prop := {
  at_descriptors : in_u 32 (max_descriptors c);
  at_bytes : 0 <= max_payload_bytes c /\ 8 * max_payload_bytes c <= UINT64_MAX;
  at_valid : ValidateDteAggregationConfig c = Ok tt
}.

(** [pend] is the token that [IssueToken] has entered and not yet staged or issued. *)
Record good (pend : option Z) (t : DteAsyncTracker) : Prop := {
  gd_unit : dte_ok (unit_ t);
  gd_typed : config_typed (config_ (unit_ t));
  gd_agg : agg_typed (aggregation_ t);
  gd_rec : forall token r, records_ t !! token = Some r -> if decide (pend = Some token) then fresh_record r else staged_in t token r \/ bound t r;
  gd_pend : forall token, pend = Some token -> is_Some (records_ t !! token);
  gd_group : forall gid g, open_groups_ t !! gid = Some g -> group_ok t gid g;
  gd_key : forall k gid, group_by_key_ t !! k = Some gid -> exists g, open_groups_ t !! gid = Some g /\ g_key g = k;
  gd_batch : forall id b, physical_batches_ t !! id = Some b -> batch_ok t id b;
  gd_hazard : forall token token' r r', token <> token' -> records_ t !! token = Some r -> records_ t !! token' = Some r' ->
    unfinished t r -> unfinished t r' -> HasHazard r r' = false;
  gd_idle : enabled (aggregation_ t) = false -> open_groups_ t = ∅
}.

(** The exceptions that are the fault of the caller. *)
Definition caller_error (e : exn) : Prop := match e with logic_error _ | out_of_range _ => False | _ => True end.
(** The condition under which an issue never waits while groups are open: no aggregation, or an engine without a limit on descriptors. *)
Definition prompt (t : DteAsyncTracker) : Prop := enabled (aggregation_ t) = false \/ fine_grained_resources (config_ (unit_ t)) = false.

(** *** What a process may find changed after a wait *)

Definition same_request (r r' : DteAsyncRecord) : Prop :=
  r_payload_bits r' = r_payload_bits r /\ r_spm_addr r' = r_spm_addr r /\ r_spm_size r' = r_spm_size r /\ r_remote_addr r' = r_remote_addr r /\
  r_direction r' = r_direction r /\ r_issue_sequence r' = r_issue_sequence r /\
  r_spm_read_addr r' = r_spm_read_addr r /\ r_spm_read_size r' = r_spm_read_size r /\
  r_spm_write_addr r' = r_spm_write_addr r /\ r_spm_write_size r' = r_spm_write_size r.
(** A token keeps its record, or it was staged and is now bound to a transfer. *)
Definition record_keeps (r r' : DteAsyncRecord) : Prop :=
  r' = r \/ (r_staged r = true /\ r_staged r' = false /\ is_Some (r_context r') /\ same_request r r').
Record keeps (t t' : DteAsyncTracker) : Prop := {
  kp_config : config_ (unit_ t') = config_ (unit_ t);
  kp_agg : aggregation_ t' = aggregation_ t;
  kp_rec : forall token, match records_ t !! token, records_ t' !! token with
           | Some r, Some r' => record_keeps r r' | None, None => True | _, _ => False end;
  kp_batch : forall id, is_Some (physical_batches_ t !! id) -> exists c c', contexts_ (unit_ t) !! id = Some c /\
    contexts_ (unit_ t') !! id = Some c' /\ is_Some (physical_batches_ t' !! id) /\ (state c = COMPLETED -> state c' = COMPLETED)
}.
Record others (t t' : DteAsyncTracker) : Prop := {
  ot_keeps : (exists pend, good pend t) -> keeps t t';
  ot_good : forall pend, good pend t -> good pend t'
}.

Lemma same_request_refl r : same_request r r.
Proof. by repeat split. Qed.
Lemma same_request_trans r1 r2 r3 : same_request r1 r2 -> same_request r2 r3 -> same_request r1 r3.
Proof. unfold same_request. intros. destruct_and?. split_and!; congruence. Qed.

Lemma hazard_same r1 r2 r1' r2' : same_request r1 r1' -> same_request r2 r2' -> HasHazard r1' r2' = HasHazard r1 r2.
Proof.
  intros (? & ? & ? & ? & ? & ? & E1 & E2 & E3 & E4) (? & ? & ? & ? & ? & ? & E5 & E6 & E7 & E8).
  unfold HasHazard. by rewrite E1, E2, E3, E4, E5, E6, E7, E8.
Qed.
Lemma overlaps_comm a n b m : RangeOverlaps a n b m = RangeOverlaps b m a n.
Proof. unfold RangeOverlaps. rewrite orb_comm. destruct (_ || _); [done|]. apply andb_comm. Qed.
Lemma hazard_comm r r' : HasHazard r r' = HasHazard r' r.
Proof.
  unfold HasHazard. rewrite (overlaps_comm (r_spm_write_addr r) _ (r_spm_read_addr r')), (overlaps_comm (r_spm_write_addr r) _ (r_spm_write_addr r')),
    (overlaps_comm (r_spm_read_addr r) _ (r_spm_write_addr r')).
  repeat match goal with |- context [RangeOverlaps ?a ?b ?c ?d] => destruct (RangeOverlaps a b c d) end; done.
Qed.

Lemma keeps_refl pend t : good pend t -> keeps t t.
Proof.
  intros Hg. split; [done|done|..].
  - intros token. destruct (records_ t !! token); [by left|done].
  - intros id [b Hb]. destruct (bo_context _ _ _ (gd_batch _ _ Hg id b Hb)) as (c & Hc & _). exists c, c. split_and!; [done|done|by exists b|done].
Qed.
Lemma record_keeps_trans r1 r2 r3 : record_keeps r1 r2 -> record_keeps r2 r3 -> record_keeps r1 r3.
Proof.
  intros [->|(H1 & H2 & H3 & H4)] [->|(H5 & H6 & H7 & H8)]; [by left|right; done|right; done|]. congruence.
Qed.
Lemma keeps_trans t1 t2 t3 : keeps t1 t2 -> keeps t2 t3 -> keeps t1 t3.
Proof.
  intros [A1 A2 A3 A4] [B1 B2 B3 B4]. split; [congruence|congruence|..].
  - intros token. specialize (A3 token). specialize (B3 token). destruct (records_ t1 !! token), (records_ t2 !! token), (records_ t3 !! token); try done.
    by eapply record_keeps_trans.
  - intros id Hid. destruct (A4 id Hid) as (c1 & c2 & H1 & H2 & H3 & H4). destruct (B4 id H3) as (c2' & c3 & H5 & H6 & H7 & H8).
    rewrite H2 in H5. injection H5 as <-. exists c1, c3. split_and!; [done|done|done|]. intros Hs. by apply H8, H4.
Qed.

(** A token seen complete stays so. *)
Lemma completed_keeps pend t t' token : good pend t -> keeps t t' -> completed_token t token -> completed_token t' token.
Proof.
  intros Hg Hk (r & id & c & Hr & Hs & Hc & Hx & Hst). pose proof (kp_rec _ _ Hk token) as Hkr. rewrite Hr in Hkr.
  destruct (records_ t' !! token) as [r'|] eqn:E; [|done]. destruct Hkr as [->|(H1 & _)]; [|congruence].
  pose proof (gd_rec _ _ Hg token r Hr) as Hrec. destruct (decide (pend = Some token)); [destruct Hrec; congruence|].
  destruct Hrec as [(H1 & _)|(_ & H2 & H3)]; [congruence|]. rewrite Hc in H2. injection H2 as ->.
  destruct (kp_batch _ _ Hk _ H3) as (c1 & c2 & H4 & H5 & _ & H6). rewrite Hx in H4. injection H4 as <-. exists r, (r_xfer_id r), c2. split_and!; auto.
Qed.

Lemma prompt_keeps t t' : keeps t t' -> prompt t -> prompt t'.
Proof. intros Hk. unfold prompt. by rewrite (kp_agg _ _ Hk), (kp_config _ _ Hk). Qed.

(** ** The engine moves on its own *)

(** A step of the engine that keeps the transfers in [B]. *)
Record unit_moves (B : Z -> Prop) (u u' : DTEUnit) : Prop := {
  um_ok : dte_ok u';
  um_config : config_ u' = config_ u;
  um_ctx : forall id c, B id -> contexts_ u !! id = Some c -> exists c', contexts_ u' !! id = Some c' /\
    (state c = COMPLETED -> state c' = COMPLETED) /\ (state c' = CANCELLED -> state c = CANCELLED)
}.
Definition has_batch (t : DteAsyncTracker) (id : Z) : Prop := is_Some (physical_batches_ t !! id).

Lemma evolves_moves B u u' : dte_ok u' -> evolves u u' -> unit_moves B u u'.
Proof.
  intros Hok He. split; [done|apply He|]. intros id c _ Hc. pose proof (ev_ctx _ _ He id) as Hx. rewrite Hc in Hx.
  destruct (contexts_ u' !! id) as [c'|]; [|done]. destruct Hx as (_ & _ & _ & H1 & H2). exists c'. split_and!; [done| |done].
  intros Hs. rewrite H1 by (by left). done.
Qed.
Lemma issue_moves B now u bits d u' o : config_typed (config_ u) -> dte_ok u -> 0 <= bits < 2 ^ 64 -> TryIssue now u bits d = Ok (u', o) -> unit_moves B u u'.
Proof.
  intros Ht Hok Hb E. destruct (TryIssue_ok now u bits d (u', o) Ht Hok Hb E) as (H1 & H2 & H3). cbn in *. split; [done|done|].
  intros id c _ Hc. destruct o as [id'|]; [|destruct H3 as [-> _]; by exists c]. destruct H3 as (_ & Hn & c' & -> & _).
  exists c. rewrite lookup_insert_ne by congruence. done.
Qed.
Lemma wait_moves B u : dte_ok u -> unit_moves B u (WaitForCredit u).1.
Proof. intros Hok. destruct (WaitForCredit_ok u Hok) as (H1 & H2 & H3). split; [done|done|]. intros id c _ Hc. exists c. by rewrite H2. Qed.
Lemma release_moves (B : Z -> Prop) u id : ~ B id -> dte_ok u -> unit_moves B u (Release u id).1.
Proof.
  intros Hn Hok. destruct (Release_ok u id Hok) as (H1 & H2). split; [done|done|]. intros id' c Hb Hc. exists c. split; [|done].
  unfold Release. destruct (contexts_ u !! id) as [c0|]; [|done]. destruct (negb _ && negb _); [done|]. cbn. rewrite lookup_delete_ne; [done|]. by intros ->.
Qed.

Section moved.
Context (pend : option Z) (t : DteAsyncTracker) (u' : DTEUnit) (Hg : good pend t) (Hm : unit_moves (has_batch t) (unit_ t) u').

(** What can be said of a record's transfer. *)
Lemma record_batch token r id : records_ t !! token = Some r -> r_context r = Some id -> has_batch t id /\ id = r_xfer_id r.
Proof using Hg.
  intros Hr Hc. pose proof (gd_rec _ _ Hg token r Hr) as H. destruct (decide _); [destruct H; congruence|].
  destruct H as [(_ & H & _)|(_ & H & Hb)]; [congruence|]. rewrite Hc in H. injection H as ->. done.
Qed.

Lemma unfinished_moved token r : records_ t !! token = Some r -> unfinished (set_unit u' t) r -> unfinished t r.
Proof using Hg Hm.
  intros Hr Hu. unfold unfinished in *. destruct (r_context r) as [id|] eqn:Ec; [|done]. cbn in Hu. intros c Hc Hs.
  destruct (record_batch token r id Hr Ec) as [Hb _]. destruct (um_ctx _ _ _ Hm id c Hb Hc) as (c' & Hc' & H1 & _). exact (Hu c' Hc' (H1 Hs)).
Qed.

Lemma good_moved : good pend (set_unit u' t).
Proof using Hg Hm.
  pose proof Hg as [_ Ht Ha Hr Hp Hgr Hk Hb Hh Hi]. split; try done.
  - apply Hm.
  - cbn. by rewrite (um_config _ _ _ Hm).
  - intros gid g E. destruct (Hgr gid g E). by split.
  - intros id b E. destruct (Hb id b E) as [(c & Hc & Hs) H1 H2]. split; [|done|done].
    destruct (um_ctx _ _ _ Hm id c ltac:(by exists b) Hc) as (c' & Hc' & _ & H4). exists c'. split; [done|]. auto.
  - intros token token' r r' Hn H1 H2 H3 H4. eapply (Hh token token' r r' Hn H1 H2); by eapply unfinished_moved.
Qed.

Lemma keeps_moved : keeps t (set_unit u' t).
Proof using Hg Hm.
  split; [apply Hm|done|..].
  - intros token. cbn. destruct (records_ t !! token); [by left|done].
  - intros id [b Hb]. destruct (bo_context _ _ _ (gd_batch _ _ Hg id b Hb)) as (c & Hc & _).
    destruct (um_ctx _ _ _ Hm id c ltac:(by exists b) Hc) as (c' & Hc' & H1 & _). exists c, c'. split_and!; [done|done|by exists b|done].
Qed.
End moved.

Lemma others_moved t u' : ((exists pend, good pend t) -> unit_moves (has_batch t) (unit_ t) u') -> others t (set_unit u' t).
Proof.
  intros Hm. split.
  - intros [pend Hg]. apply (keeps_moved pend); eauto.
  - intros pend Hg. apply good_moved; eauto.
Qed.
Lemma others_trans t1 t2 t3 : others t1 t2 -> others t2 t3 -> others t1 t3.
Proof.
  intros [A1 A2] [B1 B2]. split; [|auto]. intros [pend Hg]. eapply keeps_trans; [eauto|]. apply B1. eauto.
Qed.

(** ** Issuing a transfer for tokens *)

Lemma map_sum_zero {K A} `{Countable K} (g : A -> Z) (m : gmap K A) : (forall k x, m !! k = Some x -> g x = 0) -> map_sum g m = 0.
Proof.
  induction m as [|k x m Hk IH] using map_ind; intros Hg; [done|]. rewrite map_sum_insert by done. rewrite (Hg k x) by apply lookup_insert_eq.
  rewrite IH; [done|]. intros k' y Hy. apply (Hg k'). rewrite lookup_insert_ne; [done|]. intros ->. congruence.
Qed.

Definition bind_to (id : Z) (r : DteAsyncRecord) : DteAsyncRecord :=
  mkRecord (r_token r) id (Some id) (r_spm_addr r) (r_spm_size r) (r_access r) (r_spm_read_addr r) (r_spm_read_size r) (r_spm_write_addr r)
    (r_spm_write_size r) (r_issue_sequence r) (r_payload_bits r) (r_direction r) (r_remote_peer r) (r_remote_addr r) (r_address_block r) (r_group_id r) false.

Lemma bind_loop id tokens m : NoDup tokens -> (forall token, token ∈ tokens -> exists r, m !! token = Some r /\ r_context r = None) ->
  exists m', foldM (bind_record id) m tokens = Ok m' /\
    (forall token, m' !! token = if decide (token ∈ tokens) then bind_to id <$> m !! token else m !! token) /\
    forall j, map_sum (in_context j) m' = map_sum (in_context j) m + (if decide (j = id) then Z.of_nat (length tokens) else 0).
Proof.
  revert m; induction tokens as [|x l IH]; intros m Hn Hall.
  - exists m. split; [done|]. split; [done|]. intros j. cbn. destruct (decide _); lia.
  - apply list.NoDup_cons in Hn as [Hx Hn]. destruct (Hall x ltac:(left)) as (r & Hr & Hc).
    cbn [foldM]. unfold bind_record at 1, at_. rewrite Hr. cbn [mbind result_bind]. fold (bind_to id r).
    destruct (IH (<[x := bind_to id r]> m) Hn) as (m' & -> & Hl & Hs).
    { intros y Hy. destruct (Hall y ltac:(by right)) as (ry & Hry & Hcy). exists ry. rewrite lookup_insert_ne by congruence. done. }
    exists m'. split; [done|]. split.
    + intros y. rewrite Hl. destruct (decide (y = x)) as [->|Hy].
      * rewrite decide_False by done. rewrite decide_True by left. by rewrite lookup_insert_eq, Hr.
      * rewrite lookup_insert_ne by congruence. destruct (decide (y ∈ l)) as [Hin|Hin].
        -- by rewrite decide_True by (by right).
        -- rewrite decide_False; [done|]. by intros [->|?]%elem_of_cons.
    + intros j. rewrite Hs, (map_sum_update _ _ _ _ _ Hr). unfold in_context at 2 3. rewrite Hc. cbn [r_context bind_to].
      rewrite (bool_decide_false (None = Some j)) by done. cbn [length]. destruct (decide (j = id)) as [->|Hj].
      * rewrite bool_decide_true by done. lia.
      * rewrite bool_decide_false by congruence. lia.
Qed.

Lemma account_errors c n bits d m e : account c n bits d m = Err e -> caller_error e.
Proof.
  unfold account, CeilDivU64, throw_if. destruct (accounting_width c d =? 0); cbn; [by intros [= <-]|]. destruct (UINT64_MAX / _ <? _); cbn; [by intros [= <-]|done].
Qed.
Lemma issue_errors now u bits d e : Issue now u bits d = Err e -> caller_error e.
Proof.
  unfold Issue, TryIssue, RequiredPorts, throw_if. destruct (bits =? 0); cbn; [by intros [= <-]|]. destruct (negb (IsKnownDirection d)); cbn; [by intros [= <-]|].
  destruct (_ && _ && _); cbn; [by intros [= <-]|]. destruct (negb (CanAccept u)); cbn; [by intros [= <-]|]. destruct (_ =? UINT64_MAX); cbn; [by intros [= <-]|].
  destruct (negb (fine_grained_resources _)); cbn; done.
Qed.

(** What an issue leaves. *)
Record issued (tokens : list Z) (id : Z) (t t' : DteAsyncTracker) : Prop := {
  is_fresh : contexts_ (unit_ t) !! id = None;
  is_unit : dte_ok (unit_ t');
  is_config : config_ (unit_ t') = config_ (unit_ t);
  is_context : exists c, contexts_ (unit_ t') = <[id := c]> (contexts_ (unit_ t)) /\ state c = PENDING;
  is_records : forall token, records_ t' !! token = if decide (token ∈ tokens) then bind_to id <$> records_ t !! token else records_ t !! token;
  is_members : forall j, members t' j = members t j + (if decide (j = id) then Z.of_nat (length tokens) else 0);
  is_batches : exists b, physical_batches_ t' = <[id := b]> (physical_batches_ t) /\ b_remaining_tokens b = Z.of_nat (length tokens) /\ b_member_count b = Z.of_nat (length tokens);
  is_groups : open_groups_ t' = open_groups_ t /\ group_by_key_ t' = group_by_key_ t /\ aggregation_ t' = aggregation_ t /\ next_group_id_ t' = next_group_id_ t
}.

Lemma issue_batch_ok pend t tokens bits d now : good pend t -> 0 <= bits < 2 ^ 64 -> NoDup tokens ->
  (forall token, token ∈ tokens -> exists r, records_ t !! token = Some r /\ r_context r = None) ->
  match issue_batch tokens bits d now t with Err e => caller_error e | Ok (t', id) => issued tokens id t t' end.
Proof.
  intros Hg Hb Hn Hall. unfold issue_batch. destruct (Issue now (unit_ t) bits d) as [[u id]|e] eqn:E; cbn [mbind result_bind]; [|by eapply issue_errors].
  unfold Issue in E. destruct (TryIssue now (unit_ t) bits d) as [[u' o]|] eqn:Et; cbn in E; [|done]. destruct o as [id'|]; [|done]. injection E as <- <-.
  destruct (TryIssue_ok now (unit_ t) bits d (u', Some id') (gd_typed _ _ Hg) (gd_unit _ _ Hg) Hb Et) as (H1 & H2 & _ & H3 & c & H4 & H5 & _). cbn in *.
  destruct (bind_loop id' tokens (records_ t) Hn Hall) as (m' & -> & Hl & Hs). cbn [mbind result_bind].
  destruct (account _ _ _ _ _) as [mt|e] eqn:Ea; cbn [mbind result_bind]; [|by eapply account_errors].
  assert (physical_batches_ t !! id' = None) as Hnb.
  { destruct (physical_batches_ t !! id') as [b|] eqn:Eb; [|done]. destruct (bo_context _ _ _ (gd_batch _ _ Hg _ _ Eb)) as (c' & Hc' & _). congruence. }
  split; cbn; try done.
  - by exists c.
  - eexists. unfold emplace. rewrite Hnb. done.
Qed.

Lemma bind_same id r : same_request r (bind_to id r).
Proof. by repeat split. Qed.

(** Records after an issue: the tokens are bound, the others as they were. *)
Lemma issued_record tokens id t t' token r' : issued tokens id t t' -> records_ t' !! token = Some r' ->
  exists r, records_ t !! token = Some r /\ same_request r r' /\ (if decide (token ∈ tokens) then r' = bind_to id r else r' = r).
Proof.
  intros Hi Hr. rewrite (is_records _ _ _ _ Hi) in Hr. destruct (decide (token ∈ tokens)).
  - destruct (records_ t !! token) as [r|]; [|done]. injection Hr as <-. exists r. split_and!; [done|apply bind_same|done].
  - exists r'. split_and!; [done|apply same_request_refl|done].
Qed.

Lemma issued_hazard pend tokens id t t' : good pend t -> (forall token, token ∈ tokens -> exists r, records_ t !! token = Some r /\ r_context r = None) -> issued tokens id t t' ->
  forall token token' r r', token <> token' -> records_ t' !! token = Some r -> records_ t' !! token' = Some r' -> unfinished t' r -> unfinished t' r' -> HasHazard r r' = false.
Proof.
  intros Hg Hall Hi.
  assert (forall token r', records_ t' !! token = Some r' -> unfinished t' r' -> exists r, records_ t !! token = Some r /\ same_request r r' /\ unfinished t r) as Hu.
  { intros token r' Hr Hu. destruct (issued_record _ _ _ _ _ _ Hi Hr) as (r & Hr0 & Hs & Hd). exists r. split_and!; [done|done|].
    destruct (decide (token ∈ tokens)) as [Hin|_].
    - destruct (Hall token Hin) as (r0 & H0 & Hc). assert (r0 = r) as -> by congruence. unfold unfinished. by rewrite Hc.
    - subst r'. unfold unfinished in *. destruct (r_context r) as [j|] eqn:Ec; [|done]. intros c Hc. apply Hu. destruct (is_context _ _ _ _ Hi) as (c' & -> & _).
      rewrite lookup_insert_ne; [done|]. intros <-. rewrite (is_fresh _ _ _ _ Hi) in Hc. done. }
  intros token token' r1 r2 Hn H1 H2 U1 U2. destruct (Hu _ _ H1 U1) as (q1 & Q1 & S1 & V1). destruct (Hu _ _ H2 U2) as (q2 & Q2 & S2 & V2).
  rewrite (hazard_same q1 q2 r1 r2 S1 S2). by eapply (gd_hazard _ _ Hg token token').
Qed.

Lemma issued_batches pend tokens id t t' : good pend t -> tokens <> [] -> issued tokens id t t' -> forall j b, physical_batches_ t' !! j = Some b -> batch_ok t' j b.
Proof.
  intros Hg Hne Hi j b Hb. destruct (is_batches _ _ _ _ Hi) as (b0 & Eb & Hrem & Hcnt). destruct (is_context _ _ _ _ Hi) as (c0 & Ec & Hst).
  rewrite Eb in Hb. apply lookup_insert_Some in Hb as [[<- <-]|[Hj Hb]].
  - split.
    + exists c0. rewrite Ec, lookup_insert_eq. split; [done|]. by rewrite Hst.
    + rewrite (is_members _ _ _ _ Hi), decide_True by done. rewrite Hrem. enough (members t id = 0) by lia.
      unfold members. apply map_sum_zero. intros token r Hr. unfold in_context.
      rewrite bool_decide_false; [done|]. intros Hc. destruct (record_batch _ _ Hg _ _ _ Hr Hc) as [[b' Hb'] _].
      destruct (bo_context _ _ _ (gd_batch _ _ Hg _ _ Hb')) as (c' & Hc' & _). pose proof (is_fresh _ _ _ _ Hi). congruence.
    + rewrite Hrem, Hcnt. destruct tokens; [done|]. cbn. lia.
  - destruct (gd_batch _ _ Hg j b Hb) as [(c & Hc & Hs) H1 H2]. split; [|by rewrite (is_members _ _ _ _ Hi), decide_False, Z.add_0_r by congruence|done].
    exists c. rewrite Ec, lookup_insert_ne by done. done.
Qed.

(** ** Flushing a group *)

Lemma group_member t gid g token : group_ok t gid g -> token ∈ g_tokens g -> exists r, staged_member t gid (g_key g) token r.
Proof.
  intros Hg Hin. destruct (go_members _ _ _ Hg) as (rs & Hf & _). apply list_elem_of_lookup in Hin as (i & Hi).
  destruct (Forall2_lookup_l _ _ _ _ _ Hf Hi) as (r & _ & Hr). by exists r.
Qed.
Lemma member_unissued t gid g : group_ok t gid g -> forall token, token ∈ g_tokens g -> exists r, records_ t !! token = Some r /\ r_context r = None.
Proof. intros Hg token Hin. destruct (group_member t gid g token Hg Hin) as (r & H1 & _ & H2 & _). by exists r. Qed.
Lemma tokens_nonempty t gid g : group_ok t gid g -> g_tokens g <> [].
Proof.
  intros Hg E. destruct (go_members _ _ _ Hg) as (rs & Hf & Hs). rewrite E in Hf. apply Forall2_nil_inv_l in Hf as ->. inversion Hs as [|? ? ? ? ? ? ? ? ? Hx]. by destruct rs.
Qed.
(** A member of one group is in no other. *)
Lemma member_of t gid gid' g g' token : group_ok t gid g -> group_ok t gid' g' -> token ∈ g_tokens g -> token ∈ g_tokens g' -> gid = gid'.
Proof.
  intros H1 H2 I1 I2. destruct (group_member _ _ _ _ H1 I1) as (r & E1 & _ & _ & G1 & _). destruct (group_member _ _ _ _ H2 I2) as (r' & E2 & _ & _ & G2 & _). congruence.
Qed.
Lemma group_frame t t' gid g : group_ok t gid g -> next_group_id_ t <= next_group_id_ t' -> group_by_key_ t' !! g_key g = Some gid -> aggregation_ t' = aggregation_ t ->
  (forall token, token ∈ g_tokens g -> records_ t' !! token = records_ t !! token) -> group_ok t' gid g.
Proof.
  intros [H1 H2 H3 (rs & Hf & Hs) H5 H6 H7] Hn Hk Ha Hr. split; [lia|done|done| |done|by rewrite Ha|done].
  exists rs. split; [|done]. apply Forall2_same_length_lookup. split; [by eapply Forall2_length|].
  intros i token r Ht Hri. destruct (Forall2_lookup_lr _ _ _ _ _ _ Hf Ht Hri) as (E & ?). split; [|done]. rewrite Hr; [done|]. by eapply list_elem_of_lookup_2.
Qed.

Record flushed (gid : Z) (g : OpenGroup) (t t' : DteAsyncTracker) : Prop := {
  fl_other : forall token, token ∉ g_tokens g -> records_ t' !! token = records_ t !! token;
  fl_member : forall token, token ∈ g_tokens g -> exists r, records_ t' !! token = Some r /\ is_Some (r_context r);
  fl_groups : open_groups_ t' = delete gid (open_groups_ t);
  fl_keys : group_by_key_ t' = delete (g_key g) (group_by_key_ t);
  fl_next : next_group_id_ t' = next_group_id_ t
}.

Lemma close_ok pend t gid g id t1 now : good pend t -> open_groups_ t !! gid = Some g -> issued (g_tokens g) id t t1 ->
  exists t2, close_group gid (g_key g) now t1 = Ok (t2, tt) /\ good pend t2 /\ keeps t t2 /\ flushed gid g t t2.
Proof.
  intros Hg Hgr Hi. destruct (is_groups _ _ _ _ Hi) as (Eg & Ek & Ea & En). pose proof (gd_group _ _ Hg gid g Hgr) as Hok.
  assert (forall token, token ∈ g_tokens g -> exists r, records_ t !! token = Some r /\ r_context r = None) as Hall by (by eapply member_unissued).
  unfold close_group. rewrite Eg, Hgr, throw_bind_false by done. eexists. split; [reflexivity|]. set (t2 := set_groups _ _ t1).
  assert (open_groups_ t2 = delete gid (open_groups_ t) /\ group_by_key_ t2 = delete (g_key g) (group_by_key_ t) /\ physical_batches_ t2 = physical_batches_ t1) as (G1 & G2 & G3) by (unfold t2; cbn; by rewrite ?Eg, ?Ek).
  destruct (is_batches _ _ _ _ Hi) as (b0 & Eb & _). destruct (is_context _ _ _ _ Hi) as (c0 & Ec & _).
  assert (forall token r', records_ t2 !! token = Some r' -> exists r, records_ t !! token = Some r /\ same_request r r' /\ (if decide (token ∈ g_tokens g) then r' = bind_to id r else r' = r)) as Hrec by (intros; by eapply issued_record).
  split; [|split].
  - split; try (cbn; rewrite ?(is_config _ _ _ _ Hi), ?Ea; try apply Hg; apply Hi).
    + intros token r' Hr. destruct (Hrec token r' Hr) as (r & Hr0 & _ & Hd). pose proof (gd_rec _ _ Hg token r Hr0) as Hx.
      destruct (decide (token ∈ g_tokens g)) as [Hin|Hin].
      * destruct (group_member _ _ _ _ Hok Hin) as (r1 & E1 & Hs & _). assert (r1 = r) as -> by congruence.
        destruct (decide (pend = Some token)) as [Hp|Hp]; [destruct Hx; congruence|]. right. subst r'. split_and!; [done|done|]. rewrite G3, Eb, lookup_insert_eq. done.
      * subst r'. destruct (decide (pend = Some token)) as [Hp|Hp]; [done|]. destruct Hx as [(H1 & H2 & g' & H3 & H4)|(H1 & H2 & H3)].
        -- left. split_and!; [done|done|]. exists g'. split; [|done]. rewrite G1, lookup_delete_ne; [done|]. intros E. rewrite <- E, Hgr in H3. congruence.
        -- right. split_and!; [done|done|]. rewrite G3, Eb. destruct (decide (id = r_xfer_id r)) as [->|?]; [by rewrite lookup_insert_eq|by rewrite lookup_insert_ne].
    + intros token Hp. destruct (gd_pend _ _ Hg token Hp) as (r & Hr). cbn. rewrite (is_records _ _ _ _ Hi), Hr. by destruct (decide _).
    + intros gid' g' Hg'. rewrite G1 in Hg'. apply lookup_delete_Some in Hg' as [Hne Hg']. pose proof (gd_group _ _ Hg gid' g' Hg') as Hok'.
      eapply group_frame; [done|cbn; lia| |done|].
      * rewrite G2, lookup_delete_ne; [apply Hok'|]. intros E. pose proof (go_key _ _ _ Hok) as K1. pose proof (go_key _ _ _ Hok') as K2. congruence.
      * intros token Hin. cbn. rewrite (is_records _ _ _ _ Hi), decide_False; [done|]. intros Hin'. apply Hne. by eapply member_of.
    + intros k gid' Hk. rewrite G2 in Hk. apply lookup_delete_Some in Hk as [Hne Hk]. destruct (gd_key _ _ Hg k gid' Hk) as (g' & Hg' & Hkey).
      exists g'. split; [|done]. rewrite G1, lookup_delete_ne; [done|]. intros <-. congruence.
    + intros j b Hb. destruct (issued_batches pend _ id t t1 Hg (tokens_nonempty t gid g Hok) Hi j b Hb) as [H1 H2 H3]. by split.
    + intros token token' r r' Hn H1 H2 U1 U2. eapply (issued_hazard _ _ _ _ _ Hg Hall Hi token token'); done.
    + intros Hen. cbn in *. rewrite Ea in Hen. rewrite (gd_idle _ _ Hg Hen) in Hgr. done.
  - split; cbn.
    + by rewrite (is_config _ _ _ _ Hi).
    + done.
    + intros token. rewrite (is_records _ _ _ _ Hi). destruct (decide (token ∈ g_tokens g)) as [Hin|_]; [|destruct (records_ t !! token); [by left|done]].
      destruct (group_member _ _ _ _ Hok Hin) as (r1 & E1 & Hs & _). rewrite E1. right. split_and!; [done|done|done|apply bind_same].
    + intros j [b Hb]. destruct (bo_context _ _ _ (gd_batch _ _ Hg j b Hb)) as (c & Hc & _). assert (j <> id) as Hj by (intros ->; pose proof (is_fresh _ _ _ _ Hi); congruence).
      exists c, c. rewrite Ec, Eb, !lookup_insert_ne by done. split_and!; [done|done|by exists b|done].
  - split; cbn; [|..|congruence].
    + intros token Hin. by rewrite (is_records _ _ _ _ Hi), decide_False.
    + intros token Hin. rewrite (is_records _ _ _ _ Hi), decide_True by done. destruct (Hall token Hin) as (r & -> & _). by eexists.
    + done.
    + done.
Qed.

(** ** The procedures *)

Definition shared (t : DteAsyncTracker) : Prop := (exists pend, good pend t) /\ prompt t.
Notation Wp := (wp caller_error live others shared).
Notation Direct := (direct caller_error live).

Lemma set_unit_same t : set_unit (unit_ t) t = t.
Proof. by destruct t. Qed.

(** An engine without a limit on descriptors gives a credit at once. *)
Lemma credit_at_once pend t : good pend t -> fine_grained_resources (config_ (unit_ t)) = false ->
  match credit t with Ok (t', true) => t' = t | Ok (t', false) => ~ live t' | Err _ => False end.
Proof.
  intros Hg Hf. unfold credit, WaitForCredit, CanAccept, descriptorCapacity. rewrite Hf. cbn [negb].
  destruct (Z.ltb_spec (inflight_count_ (unit_ t)) UINT64_MAX) as [H|H]; [apply set_unit_same|]. unfold live. cbn.
  pose proof (ok_inv _ (gd_unit _ _ Hg)) as Hi. pose proof (inv_ended _ Hi). destruct (inv_counts _ Hi). lia.
Qed.

Lemma group_bits pend t gid g : good pend t -> open_groups_ t !! gid = Some g -> 0 <= g_total_payload_bits g < 2 ^ 64.
Proof.
  intros Hg Hgr. destruct (gd_group _ _ Hg gid g Hgr) as [_ _ _ _ H5 H6 _]. destruct (at_bytes _ (gd_agg _ _ Hg)). unfold UINT64_MAX in *. lia.
Qed.

Lemma flush_ok pend t gid g now (Q : Z -> DteAsyncTracker -> Prop) : good pend t -> prompt t -> open_groups_ t !! gid = Some g ->
  (forall id t', good pend t' -> keeps t t' -> flushed gid g t t' -> Q id t') -> Direct (FlushGroup gid) now t Q.
Proof.
  intros Hg Hp Hgr HQ. unfold FlushGroup. cbn. rewrite Hgr. unfold IssuePhysical.
  pose proof (gd_group _ _ Hg gid g Hgr) as Hok. pose proof (tokens_nonempty _ _ _ Hok) as Hne. destruct (g_tokens g) as [|x l] eqn:Et; [done|]. cbn.
  assert (fine_grained_resources (config_ (unit_ t)) = false) as Hf.
  { destruct Hp as [Hp|Hp]; [|done]. rewrite (gd_idle _ _ Hg Hp) in Hgr. done. }
  pose proof (credit_at_once pend t Hg Hf) as Hc. destruct (credit t) as [[t0 []]|]; [subst t0|done|done].
  cbn. pose proof (issue_batch_ok pend t (g_tokens g) (g_total_payload_bits g) (g_direction g) now Hg (group_bits _ _ _ _ Hg Hgr)
    (go_nodup _ _ _ Hok) (member_unissued _ _ _ Hok)) as Hi. rewrite <- Et.
  destruct (issue_batch (g_tokens g) _ _ now t) as [[t1 id]|]; [|done]. cbn. destruct (close_ok pend t gid g id t1 now Hg Hgr Hi) as (t2 & -> & H2 & H3 & H4). cbn. by apply HQ.
Qed.

(** A round of flushes: what is left to flush is still open. *)
Lemma flush_all_ok pend t0 t l now : good pend t -> prompt t -> keeps t0 t -> NoDup l.*2 -> (forall e, e ∈ l -> is_Some (open_groups_ t !! e.2)) ->
  Direct (each_do flush l) now t (fun _ t' => good pend t' /\ keeps t0 t' /\
    (forall gid, is_Some (open_groups_ t' !! gid) -> is_Some (open_groups_ t !! gid) /\ gid ∉ l.*2) /\ next_group_id_ t' = next_group_id_ t).
Proof.
  intros Hg Hp Hk Hn Hl. revert t Hg Hp Hk Hl; induction l as [|e l IH]; intros t Hg Hp Hk Hl; cbn.
  - split_and!; [done|done| |done]. intros gid Hgid. split; [done|]. apply not_elem_of_nil.
  - cbn in Hn. apply list.NoDup_cons in Hn as [Hx Hn]. destruct (Hl e ltac:(left)) as [g Hgr].
    apply direct_bind with (R := fun _ t' => good pend t' /\ keeps t t' /\ flushed e.2 g t t').
    + unfold flush. eapply direct_bind; [by eapply (flush_ok pend t e.2 g now (fun _ t' => good pend t' /\ keeps t t' /\ flushed e.2 g t t'))|]. by intros.
    + intros [] t' (H1 & H2 & H3). cbn beta. assert (Direct (each_do flush l) now t' (fun _ t'' => good pend t'' /\ keeps t0 t'' /\
        (forall gid, is_Some (open_groups_ t'' !! gid) -> is_Some (open_groups_ t' !! gid) /\ gid ∉ l.*2) /\ next_group_id_ t'' = next_group_id_ t')) as Hd.
      { apply IH; [done|done|by eapply prompt_keeps|by eapply keeps_trans|]. intros e' He'. rewrite (fl_groups _ _ _ _ H3), lookup_delete_ne; [apply Hl; by right|].
        intros E. apply Hx. rewrite E. by apply list_elem_of_fmap_2. }
      eapply direct_mono; [exact Hd|]. cbn. intros [] t'' (G1 & G2 & G3 & G4). split_and!; [done|done| |by rewrite G4, (fl_next _ _ _ _ H3)].
      intros gid Hgid. destruct (G3 gid Hgid) as [G5 G6]. rewrite (fl_groups _ _ _ _ H3) in G5. destruct G5 as [g' G5]. apply lookup_delete_Some in G5 as [G5 G7].
      split; [by eexists|]. intros [->|?]%elem_of_cons; done.
Qed.

(** *** Issuing a single token *)

Lemma fresh_no_group t gid g token : good (Some token) t -> open_groups_ t !! gid = Some g -> token ∉ g_tokens g.
Proof.
  intros Hg Hgr Hin. destruct (group_member _ _ _ _ (gd_group _ _ Hg gid g Hgr) Hin) as (r & Hr & Hs & _).
  pose proof (gd_rec _ _ Hg token r Hr) as H. rewrite decide_True in H by done. destruct H. congruence.
Qed.
Lemma fresh_unissued t token : good (Some token) t -> forall x, x ∈ [token] -> exists r, records_ t !! x = Some r /\ r_context r = None.
Proof.
  intros Hg x Hx%list_elem_of_singleton. subst. destruct (gd_pend _ _ Hg token eq_refl) as (r & Hr). exists r. split; [done|].
  pose proof (gd_rec _ _ Hg token r Hr) as H. rewrite decide_True in H by done. by destruct H.
Qed.

Lemma issued_good t token id t' : good (Some token) t -> issued [token] id t t' -> good None t'.
Proof.
  intros Hg Hi. destruct (is_groups _ _ _ _ Hi) as (Eg & Ek & Ea & En).
  destruct (is_batches _ _ _ _ Hi) as (b0 & Eb & _). pose proof (fresh_unissued t token Hg) as Hall.
  split; try (rewrite ?(is_config _ _ _ _ Hi), ?Ea; try apply Hg; apply Hi).
  - intros x r' Hr. destruct (issued_record _ _ _ _ _ _ Hi Hr) as (r & Hr0 & _ & Hd). pose proof (gd_rec _ _ Hg x r Hr0) as Hx. rewrite decide_False by done.
    destruct (decide (x ∈ [token])) as [Hin|Hin].
    + right. subst r'. split_and!; [done|done|]. cbn. rewrite Eb, lookup_insert_eq. done.
    + subst r'. rewrite decide_False in Hx by (intros [= ->]; apply Hin; left). destruct Hx as [(H1 & H2 & g & H3 & H4)|(H1 & H2 & H3)].
      * left. split_and!; [done|done|]. exists g. by rewrite Eg.
      * right. split_and!; [done|done|]. rewrite Eb. destruct (decide (id = r_xfer_id r)) as [->|?]; [by rewrite lookup_insert_eq|by rewrite lookup_insert_ne].
  - done.
  - intros gid g Hgr. rewrite Eg in Hgr. pose proof (gd_group _ _ Hg gid g Hgr) as Hok. eapply group_frame; [done|lia| |done|].
    + rewrite Ek. apply Hok.
    + intros x Hin. rewrite (is_records _ _ _ _ Hi), decide_False; [done|]. intros ->%list_elem_of_singleton. by eapply fresh_no_group.
  - intros k gid Hk. rewrite Ek in Hk. rewrite Eg. by apply (gd_key _ _ Hg).
  - intros j b Hb. refine (issued_batches _ _ _ _ _ Hg _ Hi j b Hb). discriminate.
  - by eapply (issued_hazard (Some token)).
  - intros Hen. rewrite Eg. apply (gd_idle _ _ Hg). by rewrite <- Ea.
Qed.

Lemma credit_good pend t : good pend t -> exists t' b, credit t = Ok (t', b) /\ good pend t' /\ aggregation_ t' = aggregation_ t.
Proof.
  intros Hg. unfold credit. pose proof (wait_moves (has_batch t) (unit_ t) (gd_unit _ _ Hg)) as Hm. destruct (WaitForCredit (unit_ t)) as [u b]. cbn in Hm.
  eexists _, b. split; [done|]. split; [by apply good_moved|done].
Qed.

Lemma issue_single_ok t token bits d now : good (Some token) t -> prompt t -> in_u 64 bits ->
  Wp (IssuePhysical [token] bits d) now t (fun _ t' => good None t' /\ prompt t').
Proof.
  intros Hg Hp Hb.
  assert (forall now t, good (Some token) t -> prompt t -> Wp (act (issue_batch [token] bits d)) now t (fun _ t' => good None t' /\ prompt t')) as Hwp.
  { intros now' s Hs Hps. cbn. pose proof (issue_batch_ok _ s [token] bits d now' Hs Hb (NoDup_singleton _) (fresh_unissued _ _ Hs)) as Hi.
    destruct (issue_batch [token] bits d now' s) as [[t' id]|]; [|done]. cbn. split; [by eapply issued_good|].
    destruct (is_groups _ _ _ _ Hi) as (_ & _ & Ea & _). unfold prompt in *. by rewrite Ea, (is_config _ _ _ _ Hi). }
  unfold IssuePhysical. cbn. destruct (enabled (aggregation_ t)) eqn:Een.
  - pose proof (credit_at_once _ t Hg) as Hc. assert (fine_grained_resources (config_ (unit_ t)) = false) as Hf by (destruct Hp; [congruence|done]).
    specialize (Hc Hf). destruct (credit t) as [[t0 []]|]; [subst; by apply Hwp|done|done].
  - destruct (credit_good _ t Hg) as (t' & b & -> & Hg' & Ea'). assert (enabled (aggregation_ t') = false) as Ee by (by rewrite Ea'). destruct b; [apply Hwp; [done|by left]|]. intros _.
    exists (fun s => good (Some token) s /\ enabled (aggregation_ s) = false). split; [done|]. split; [|split].
    + intros s s' [H1 H2] Ho. split; [by apply Ho|]. by rewrite (kp_agg _ _ (ot_keeps _ _ Ho (ex_intro _ _ H1))).
    + intros s [H1 H2]. split; [by eexists|by left].
    + intros now' s [H1 H2] _. destruct (credit_good _ s H1) as (s' & b & -> & Hs' & Ea). rewrite <- Ea in H2. destruct b; [apply Hwp; [done|by left]|]. done.
Qed.

(** *** Waiting for a token *)

(** The transfer of a token that is bound. *)
Lemma token_context t token r : good None t -> records_ t !! token = Some r -> r_staged r = false ->
  exists c b, r_context r = Some (r_xfer_id r) /\ contexts_ (unit_ t) !! r_xfer_id r = Some c /\ state c <> CANCELLED /\ xfer_id c = r_xfer_id r /\
    physical_batches_ t !! r_xfer_id r = Some b /\ batch_ok t (r_xfer_id r) b.
Proof.
  intros Hg Hr Hs. pose proof (gd_rec _ _ Hg token r Hr) as H. rewrite decide_False in H by done. destruct H as [(H1 & _)|(_ & H1 & b & Hb)]; [congruence|].
  pose proof (gd_batch _ _ Hg _ b Hb) as Hbo. destruct (bo_context _ _ _ Hbo) as (c & Hc & Hst). exists c, b. split_and!; try done.
  by apply (id_ctx _ _ (inv_ids _ (ok_inv _ (gd_unit _ _ Hg)) (r_xfer_id r)) c).
Qed.

Lemma context_of_ok t token r : good None t -> records_ t !! token = Some r -> r_staged r = false -> context_of t token = Ok (r_xfer_id r).
Proof.
  intros Hg Hr Hs. destruct (token_context t token r Hg Hr Hs) as (c & b & E1 & E2 & _ & E3 & _).
  unfold context_of, at_, deref. rewrite Hr. cbn. rewrite E1, E2. cbn. by rewrite E3, Z.eqb_refl.
Qed.
Lemma is_completed_ok u id c : contexts_ u !! id = Some c -> is_completed u id = Ok (bool_decide (state c = COMPLETED)).
Proof. unfold is_completed, deref. by intros ->. Qed.

(** What holds while the core waits for a token: the token stays bound to the same transfer. *)
Definition awaits (t0 : DteAsyncTracker) (token id : Z) (t : DteAsyncTracker) : Prop :=
  good None t /\ prompt t /\ keeps t0 t /\ exists r, records_ t !! token = Some r /\ r_staged r = false /\ r_xfer_id r = id.
Lemma awaits_stable t0 token id : stable others (awaits t0 token id).
Proof.
  intros s s' (H1 & H2 & H3 & r & H4 & H5 & H6) Ho. pose proof (ot_keeps _ _ Ho (ex_intro _ _ H1)) as Hk.
  split; [by apply Ho|]. split; [by eapply prompt_keeps|]. split; [by eapply keeps_trans|].
  pose proof (kp_rec _ _ Hk token) as Hr. rewrite H4 in Hr. destruct (records_ s' !! token) as [r'|]; [|done]. destruct Hr as [->|(Hx & _)]; [|congruence]. by exists r.
Qed.

Lemma wait_done_ok t0 t token id now : awaits t0 token id t ->
  Wp (await (done_event id) ≫= fun _ => act (check_done token)) now t (fun _ t' => good None t' /\ prompt t' /\ keeps t0 t' /\ completed_token t' token).
Proof.
  intros Ha.
  assert (forall s, awaits t0 token id s -> exists b, done_event id s = Ok (s, b) /\
     (b = true -> check_done token now s = Ok (s, tt) /\ completed_token s token)) as Hev.
  { intros s (H1 & H2 & H3 & r & H4 & H5 & <-). destruct (token_context s token r H1 H4 H5) as (c & b & E1 & E2 & _). unfold done_event, check_done.
    rewrite (is_completed_ok _ _ _ E2), H4, E1. cbn. rewrite (is_completed_ok _ _ _ E2). exists (bool_decide (state c = COMPLETED)). split; [done|].
    intros Hb. cbn. rewrite Hb. cbn. split; [done|]. apply bool_decide_eq_true in Hb. by exists r, (r_xfer_id r), c. }
  assert (forall now s, awaits t0 token id s -> completed_token s token -> check_done token now s = Ok (s, tt) ->
    Wp (act (check_done token)) now s (fun _ t' => good None t' /\ prompt t' /\ keeps t0 t' /\ completed_token t' token)) as Hfin.
  { intros now' s (H1 & H2 & H3 & _) Hc E. cbn. rewrite E. done. }
  cbn. destruct (Hev t Ha) as (b & -> & Hb). destruct b; [destruct (Hb eq_refl); by apply Hfin|]. intros _.
  exists (awaits t0 token id). split; [done|]. split; [apply awaits_stable|]. split; [intros s (H1 & H2 & _); split; [by eexists|done]|].
  intros now' s Hs _. destruct (Hev s Hs) as (b & -> & Hb'). destruct b; [|done]. destruct (Hb' eq_refl) as [E Hc]. by apply Hfin.
Qed.

Lemma wait_ok t token now : good None t -> prompt t ->
  Wp (WaitForCompletion token) now t (fun _ t' => good None t' /\ prompt t' /\ keeps t t' /\ completed_token t' token).
Proof.
  intros Hg Hp. unfold WaitForCompletion. cbn. destruct (records_ t !! token) as [r|] eqn:Hr; [|done].
  apply wp_bind with (R := fun _ t' => good None t' /\ prompt t' /\ keeps t t' /\ exists r, records_ t' !! token = Some r /\ r_staged r = false).
  - unfold flush_staged. destruct (r_staged r) eqn:Hs.
    + pose proof (gd_rec _ _ Hg token r Hr) as H. rewrite decide_False in H by done. destruct H as [(_ & _ & g & Hgr & Hin)|(H1 & _)]; [|congruence].
      apply direct_wp. eapply direct_bind; [eapply (flush_ok None t _ g now (fun _ t' => good None t' /\ keeps t t' /\ flushed (r_group_id r) g t t')); [done|done|done|by intros]|].
      intros _ t' (H1 & H2 & H3). cbn. split; [done|]. split; [by eapply prompt_keeps|]. split; [done|].
      destruct (fl_member _ _ _ _ H3 token Hin) as (r' & Hr' & Hc). exists r'. split; [done|].
      pose proof (gd_rec _ _ H1 token r' Hr') as H. rewrite decide_False in H by done. destruct H as [(_ & H & _)|(H & _)]; [|done]. rewrite H in Hc. by destruct Hc.
    + cbn. split; [done|]. split; [done|]. split; [by eapply keeps_refl|]. by exists r.
  - intros now' _ t' (H1 & H2 & H3 & r' & H4 & H5). cbn. rewrite (context_of_ok t' token r' H1 H4 H5). cbn.
    apply (wait_done_ok t t' token (r_xfer_id r') now'). split; [done|]. split; [done|]. split; [done|]. by exists r'.
Qed.

(** *** Releasing a token *)

Lemma members_delete t token r id : records_ t !! token = Some r -> map_sum (in_context id) (delete token (records_ t)) = members t id - in_context id r.
Proof. intros Hr. unfold members. rewrite (map_sum_delete (in_context id) _ _ _ Hr). lia. Qed.
Lemma in_context_range id r : 0 <= in_context id r <= 1.
Proof. unfold in_context. destruct (bool_decide _); lia. Qed.

(** A token that is not staged leaves the groups as they are. *)
Lemma groups_without t token r : good None t -> records_ t !! token = Some r -> r_staged r = false -> forall gid g, open_groups_ t !! gid = Some g -> token ∉ g_tokens g.
Proof.
  intros Hg Hr Hs gid g Hgr Hin. destruct (group_member _ _ _ _ (gd_group _ _ Hg gid g Hgr) Hin) as (r' & E & Hs' & _). congruence.
Qed.

(** The transfer of a released token goes when it was the last token of it. *)
Lemma good_released t token r u batches : good None t -> records_ t !! token = Some r -> r_staged r = false ->
  unit_moves (fun j => has_batch t j /\ j <> r_xfer_id r) (unit_ t) u ->
  (forall j b, batches !! j = Some b -> if decide (j = r_xfer_id r)
     then exists b0, physical_batches_ t !! j = Some b0 /\ contexts_ u !! j = contexts_ (unit_ t) !! j /\ b_remaining_tokens b = b_remaining_tokens b0 - 1 /\
       b_member_count b = b_member_count b0 /\ 0 < b_remaining_tokens b
     else physical_batches_ t !! j = Some b) ->
  (forall j, j <> r_xfer_id r -> batches !! j = physical_batches_ t !! j) -> (batches !! r_xfer_id r = None -> members t (r_xfer_id r) = 1) ->
  good None (set_batches batches (set_unit u (set_records (delete token (records_ t)) t))).
Proof.
  intros Hg Hr Hs Hu Hb Hb' Hlast. destruct (token_context t token r Hg Hr Hs) as (c0 & b0 & Ec0 & Hc0 & _ & _ & Eb0 & Hbo).
  assert (forall x rx, records_ t !! x = Some rx -> x <> token -> r_context rx = Some (r_xfer_id r) -> batches !! r_xfer_id r <> None) as Halive.
  { intros x rx Hx Hn Hcx Hnone. specialize (Hlast Hnone). pose proof (members_delete t token r (r_xfer_id r) Hr) as Hm.
    assert (in_context (r_xfer_id r) r = 1) as E1 by (unfold in_context; by rewrite bool_decide_true).
    pose proof (map_sum_elem_le (in_context (r_xfer_id r)) (delete token (records_ t)) x rx) as Hle.
    assert (in_context (r_xfer_id r) rx = 1) as E2 by (unfold in_context; by rewrite bool_decide_true).
    rewrite E2 in Hle. enough (1 <= members t (r_xfer_id r) - 1) by lia. rewrite E1 in Hm. rewrite <- Hm. apply Hle; [|by rewrite lookup_delete_ne].
    intros k y _. apply in_context_range. }
  split; cbn; try done; try apply Hg.
  - apply Hu.
  - rewrite (um_config _ _ _ Hu). apply Hg.
  - intros x rx Hx. apply lookup_delete_Some in Hx as [Hn Hx]. pose proof (gd_rec _ _ Hg x rx Hx) as H. rewrite decide_False in H by done.
    destruct H as [?|(H1 & H2 & H3)]; [by left|right]. split_and!; [done|done|]. cbn. destruct (decide (r_xfer_id rx = r_xfer_id r)) as [E|E].
    + rewrite E in *. apply not_eq_None_Some. by eapply Halive.
    + by rewrite Hb'.
  - intros gid g Hgr. pose proof (gd_group _ _ Hg gid g Hgr) as Hok. eapply group_frame; [done|cbn; lia|apply Hok|done|]. intros x Hin. cbn. rewrite lookup_delete_ne; [done|].
    intros ->. by eapply groups_without.
  - intros j b Hj. pose proof (Hb j b Hj) as H. destruct (decide (j = r_xfer_id r)) as [->|Hn].
    + destruct H as (b1 & E1 & E2 & E3 & E4 & E5). rewrite Eb0 in E1. injection E1 as <-. destruct Hbo as [(c & Hc & Hst) B2 B3]. split.
      * exists c. cbn. by rewrite E2.
      * unfold members at 1. cbn. rewrite (members_delete t token r _ Hr), E3, B2. unfold in_context. by rewrite bool_decide_true.
      * rewrite E4. lia.
    + destruct (gd_batch _ _ Hg j b H) as [(c & Hc & Hst) B2 B3]. split; [|unfold members at 1; cbn; rewrite (members_delete t token r _ Hr), B2; unfold in_context; rewrite bool_decide_false by congruence; lia|done].
      destruct (um_ctx _ _ _ Hu j c) as (c' & Hc' & _ & H4); [split; [by eexists|done]|done|]. exists c'. split; [done|]. auto.
  - intros x x' rx rx' Hn Hx Hx' Ux Ux'. apply lookup_delete_Some in Hx as [Hnx Hx]. apply lookup_delete_Some in Hx' as [Hnx' Hx'].
    assert (forall y ry, records_ t !! y = Some ry -> y <> token -> unfinished (set_batches batches (set_unit u (set_records (delete token (records_ t)) t))) ry -> unfinished t ry) as Hun.
    { intros y ry Hy Hny Hu'. unfold unfinished in *. destruct (r_context ry) as [id|] eqn:Ey; [|done]. intros c Hc Hst. cbn in Hu'.
      destruct (record_batch None t Hg y ry id Hy Ey) as [Hbi ->]. destruct (decide (r_xfer_id ry = r_xfer_id r)) as [E|E].
      - destruct (batches !! r_xfer_id r) as [b|] eqn:Eb; [|by destruct (Halive y ry Hy Hny ltac:(congruence))].
        pose proof (Hb _ _ Eb) as H. rewrite decide_True in H by done. destruct H as (_ & _ & E2 & _). rewrite E in *. apply (Hu' c); [by rewrite E2|done].
      - destruct (um_ctx _ _ _ Hu (r_xfer_id ry) c) as (c' & Hc' & H3 & _); [by split|done|]. exact (Hu' c' Hc' (H3 Hst)). }
    apply (gd_hazard _ _ Hg x x' rx rx' Hn Hx Hx'); by eapply Hun.
Qed.

Lemma release_token_ok t token now : good None t -> completed_token t token ->
  exists t', release_token token now t = Ok (t', tt) /\ good None t' /\ records_ t' = delete token (records_ t) /\
    aggregation_ t' = aggregation_ t /\ config_ (unit_ t') = config_ (unit_ t) /\ next_xfer_id_ (unit_ t') = next_xfer_id_ (unit_ t).
Proof.
  intros Hg (r & id & c & Hr & Hs & Hc & Hx & Hst). destruct (token_context t token r Hg Hr Hs) as (c0 & b0 & Ec0 & Hc0 & _ & _ & Eb0 & Hbo).
  assert (id = r_xfer_id r) as -> by congruence. assert (c0 = c) as -> by congruence.
  unfold release_token, at_. rewrite Hr. cbn [mbind result_bind]. rewrite Eb0. pose proof (bo_count _ _ _ Hbo) as Hcnt. rewrite throw_bind_false by lia.
  destruct (Z.eqb_spec (b_remaining_tokens b0 - 1) 0) as [E|E]; cbn [negb].
  - pose proof (release_moves (fun j => has_batch t j /\ j <> r_xfer_id r) (unit_ t) (r_xfer_id r) ltac:(tauto) (gd_unit _ _ Hg)) as Hm.
    assert (exists u, Release (unit_ t) (r_xfer_id r) = (u, true) /\ next_xfer_id_ u = next_xfer_id_ (unit_ t)) as (u & Eu & Enx) by (unfold Release; rewrite Hc0, Hst; by eexists).
    rewrite Eu in *. cbn in Hm. cbn [negb]. rewrite throw_bind_false by done. eexists. split; [reflexivity|]. split; [|split; [done|split; [done|split; [apply Hm|done]]]].
    apply (good_released t token r u (delete (r_xfer_id r) (physical_batches_ t)) Hg Hr Hs Hm).
    + intros j b Hj. apply lookup_delete_Some in Hj as [Hj Hb]. by rewrite decide_False.
    + intros j Hj. by rewrite lookup_delete_ne.
    + intros _. rewrite <- (bo_remaining _ _ _ Hbo). lia.
  - eexists. split; [reflexivity|]. split; [|done].
    match goal with |- good None (set_batches ?m _) => apply (good_released t token r (unit_ t) m Hg Hr Hs) end.
    + split; [apply Hg|done|]. intros j cj _ Hj. by exists cj.
    + intros j b Hj. destruct (decide (j = r_xfer_id r)) as [->|Hn].
      * rewrite lookup_insert_eq in Hj. injection Hj as <-. exists b0. cbn. split_and!; try done. lia.
      * by rewrite lookup_insert_ne in Hj.
    + intros j Hj. by rewrite lookup_insert_ne.
    + by rewrite lookup_insert_eq.
Qed.

(** *** Cancelling *)

Lemma spans_last rs n a b : spans rs n a b -> exists r, list.last rs = Some r /\ aligned r /\ a = r_spm_addr r + r_spm_size r /\ b = r_remote_addr r + r_spm_size r.
Proof.
  destruct 1 as [r Hr|rs r n a b _ Hr <- <-]; exists r; [by split_and!|]. by rewrite last_snoc.
Qed.
Lemma spans_positive rs n a b : spans rs n a b -> 0 < n.
Proof. induction 1 as [r Hr|rs r n a b _ IH Hr _ _]; pose proof (al_size _ Hr); lia. Qed.
Lemma spans_snoc_inv rs r n a b : spans (rs ++ [r]) n a b -> aligned r /\ (rs = [] /\ n = r_spm_size r \/ spans rs (n - r_spm_size r) (r_spm_addr r) (r_remote_addr r)).
Proof.
  intros H. inversion H as [r0 Hr0 E|rs0 r0 n0 a0 b0 Hs Hr0 Ea Eb E].
  - apply (f_equal length) in E as El. rewrite length_app in El. cbn in El. destruct rs; [|cbn in El; lia]. cbn in E. injection E as ->. split; [done|by left].
  - apply app_inj_tail in E as [-> ->]. split; [done|right]. subst. by replace (n0 + r_spm_size r - r_spm_size r) with n0 by lia.
Qed.
Lemma last_removelast {A} (l : list A) x : list.last l = Some x -> l = removelast l ++ [x].
Proof.
  intros Hl. apply last_Some in Hl as (l' & ->). by rewrite removelast_last.
Qed.

Section dropped.
Context (t t' : DteAsyncTracker) (token : Z) (r : DteAsyncRecord) (g : OpenGroup).
Context (Hg : good None t) (Hr : records_ t !! token = Some r) (Hs : r_staged r = true) (Hc : r_context r = None).
Context (Hgr : open_groups_ t !! r_group_id r = Some g) (Hin : token ∈ g_tokens g).
Context (Eu : unit_ t' = unit_ t) (Ea : aggregation_ t' = aggregation_ t) (En : next_group_id_ t' = next_group_id_ t) (Eb : physical_batches_ t' = physical_batches_ t).
Context (Er : records_ t' = delete token (records_ t)).

(** The tracker without a staged token; the rest of the token's group is given. *)
Lemma good_dropped :
  (forall x rx, x <> token -> records_ t !! x = Some rx -> r_staged rx = true -> r_group_id rx = r_group_id r -> x ∈ g_tokens g -> exists g', open_groups_ t' !! r_group_id r = Some g' /\ x ∈ g_tokens g') ->
  (forall gid g', gid <> r_group_id r -> open_groups_ t' !! gid = Some g' <-> open_groups_ t !! gid = Some g') ->
  (forall gid g', gid <> r_group_id r -> open_groups_ t !! gid = Some g' -> group_by_key_ t' !! g_key g' = Some gid) ->
  (forall g', open_groups_ t' !! r_group_id r = Some g' -> group_ok t' (r_group_id r) g') ->
  (forall k gid, group_by_key_ t' !! k = Some gid -> exists g', open_groups_ t' !! gid = Some g' /\ g_key g' = k) -> good None t'.
Proof using All.
  intros H1 H2 H3 H4 H5. split; try (rewrite ?Eu, ?Ea; apply Hg); try done.
  - intros x rx Hx. rewrite decide_False by done. rewrite Er in Hx. apply lookup_delete_Some in Hx as [Hn Hx]. pose proof (gd_rec _ _ Hg x rx Hx) as H. rewrite decide_False in H by done.
    destruct H as [(A1 & A2 & g' & A3 & A4)|(A1 & A2 & A3)].
    + left. split_and!; [done|done|]. destruct (decide (r_group_id rx = r_group_id r)) as [E|E]; [|exists g'; by rewrite H2].
      rewrite E in *. rewrite Hgr in A3. injection A3 as <-. by apply (H1 x rx).
    + right. split_and!; [done|done|]. by rewrite Eb.
  - intros gid g' Hg'. destruct (decide (gid = r_group_id r)) as [->|Hn]; [by apply H4|]. apply H2 in Hg' as Hg0; [|done]. pose proof (gd_group _ _ Hg gid g' Hg0) as Hok.
    eapply group_frame; [done|lia|by apply H3|done|]. intros x Hx. rewrite Er, lookup_delete_ne; [done|]. intros <-. apply Hn. eapply member_of; [exact Hok|apply (gd_group _ _ Hg _ _ Hgr)|done|done].
  - intros id b Hb. rewrite Eb in Hb. destruct (gd_batch _ _ Hg id b Hb) as [B1 B2 B3]. split; [by rewrite Eu| |done].
    unfold members. rewrite Er, (members_delete t token r id Hr), B2. unfold in_context. rewrite Hc, bool_decide_false by done. lia.
  - intros x x' rx rx' Hn Hx Hx' Ux Ux'. rewrite Er in Hx, Hx'. apply lookup_delete_Some in Hx as [_ Hx]. apply lookup_delete_Some in Hx' as [_ Hx'].
    apply (gd_hazard _ _ Hg x x' rx rx' Hn Hx Hx'); unfold unfinished in *; by rewrite Eu in *.
  - intros Hen. rewrite Ea in Hen. rewrite (gd_idle _ _ Hg Hen) in Hgr. done.
Qed.
End dropped.

(** A group without its last token, which is not its only one. *)
Lemma shorter_group t t' gid g token r rest tail_token : good None t -> open_groups_ t !! gid = Some g -> records_ t !! token = Some r -> g_tokens g = rest ++ [token] -> list.last rest = Some tail_token ->
  records_ t' = delete token (records_ t) -> aggregation_ t' = aggregation_ t -> next_group_id_ t' = next_group_id_ t -> group_by_key_ t' = group_by_key_ t ->
  exists tail, records_ t' !! tail_token = Some tail /\
    group_ok t' gid (mkGroup (g_group_id g) (g_key g) (g_direction g) rest (u64 (g_total_payload_bits g - r_payload_bits r))
       (u64 (g_total_payload_bytes g - r_payload_bits r / 8)) (u64 (r_spm_addr tail + r_spm_size tail))
       (u64 (r_remote_addr tail + r_payload_bits tail / 8)) (g_first_issue_sequence g) (g_deadline g)).
Proof.
  intros Hg Hgr Hr Et El Er Ea En Ek. pose proof (gd_group _ _ Hg gid g Hgr) as [G1 G2 G3 (rs & Hf & Hsp) G5 G6 G7]. rewrite Et in Hf, G3.
  apply Forall2_app_inv_l in Hf as (rs0 & rs1 & Hf0 & Hf1 & ->). apply Forall2_cons_inv_l in Hf1 as (r1 & rs2 & Hr1 & Hf2 & ->). apply Forall2_nil_inv_l in Hf2 as ->.
  destruct Hr1 as (E1 & _). assert (r1 = r) as -> by congruence. apply list.NoDup_app in G3 as (N1 & N2 & _).
  apply last_Some in El as (rest0 & Erest). subst rest. apply Forall2_app_inv_l in Hf0 as Hf0'. destruct Hf0' as (rs3 & rs4 & Hf3 & Hf4 & E4).
  apply Forall2_cons_inv_l in Hf4 as (tail & rs5 & Htail & Hf5 & ->). apply Forall2_nil_inv_l in Hf5 as ->. subst rs0.
  apply spans_snoc_inv in Hsp as [Har [[E _]|Hsp]]; [by destruct rs3|]. destruct (spans_last _ _ _ _ Hsp) as (tail' & El' & Hal & Ea' & Eb').
  rewrite last_snoc in El'. injection El' as <-. pose proof (spans_positive _ _ _ _ Hsp) as Hpos. destruct (at_bytes _ (gd_agg _ _ Hg)) as [_ Hmax].
  pose proof (al_bits _ Har) as Hb1. pose proof (al_size _ Har) as Hsz. pose proof (al_bits _ Hal) as Hb2. pose proof (al_size _ Hal). destruct (al_spm _ Hal). destruct (al_remote _ Hal).
  assert (r_payload_bits r / 8 = r_spm_size r) as -> by (rewrite Hb1, Z.mul_comm; apply Z.div_mul; lia).
  exists tail. assert (forall x, x ∈ rest0 ++ [tail_token] -> x <> token) as Hne by (intros x Hx ->; apply (N2 token Hx); left).
  split. { rewrite Er, lookup_delete_ne; [apply Htail|]. intros E. apply (Hne tail_token); [apply elem_of_app; right; left|done]. }
  assert (r_payload_bits tail / 8 = r_spm_size tail) as -> by (rewrite Hb2, Z.mul_comm; apply Z.div_mul; lia).
  rewrite !u64_id by (unfold UINT64_MAX in *; lia). split; cbn; [lia|by rewrite Ek|done| |lia|rewrite Ea; lia|done].
  exists (rs3 ++ [tail]). split; [|by rewrite <- Ea', <- Eb'].
  apply Forall2_same_length_lookup. split; [by eapply Forall2_length|]. intros i x rx Hx Hrx. destruct (Forall2_lookup_lr _ _ _ _ _ _ Hf0 Hx Hrx) as (A1 & A2).
  split; [|done]. rewrite Er, lookup_delete_ne; [done|]. intros <-. apply (Hne token); [by eapply list_elem_of_lookup_2|done].
Qed.

Lemma cancel_staged_ok t token r : good None t -> records_ t !! token = Some r -> r_staged r = true ->
  match CancelStagedToken token t with Ok t' => good None t' /\ records_ t' = delete token (records_ t) | Err e => caller_error e end.
Proof.
  intros Hg Hr Hs. pose proof (gd_rec _ _ Hg token r Hr) as H. rewrite decide_False in H by done. destruct H as [(_ & Hc & g & Hgr & Hin)|(H & _)]; [|congruence].
  unfold CancelStagedToken, at_. rewrite Hr. cbn [mbind result_bind]. rewrite Hgr. destruct (bool_decide (list.last (g_tokens g) = Some token)) eqn:El; cbn [negb throw_if mbind result_bind]; [|done].
  apply bool_decide_eq_true in El. apply last_removelast in El as Et. unfold drop_tail. set (rest := removelast (g_tokens g)) in *.
  pose proof (gd_group _ _ Hg _ _ Hgr) as Hok. pose proof (go_nodup _ _ _ Hok) as Hnd. rewrite Et in Hnd. apply list.NoDup_app in Hnd as (N1 & N2 & _).
  destruct (list.last rest) as [tail_token|] eqn:Er.
  - destruct (shorter_group t (set_records (delete token (records_ t)) t) (r_group_id r) g token r rest tail_token Hg Hgr Hr Et Er) as (tail & Htail & Hok'); try done.
    cbn in Htail. unfold at_. rewrite Htail. cbn [mbind result_bind]. split; [|done]. apply (good_dropped t _ token r g Hg Hr Hs Hc Hgr Hin); try done; cbn.
    + intros x rx Hn _ _ _ Hx. eexists. rewrite lookup_insert_eq. split; [done|]. cbn. rewrite Et in Hx. apply elem_of_app in Hx as [Hx|Hx]; [done|]. by apply list_elem_of_singleton in Hx.
    + intros gid g' Hn. by rewrite lookup_insert_ne.
    + intros gid g' _ Hg'. apply (gd_group _ _ Hg _ _ Hg').
    + intros g' Hg'. rewrite lookup_insert_eq in Hg'. injection Hg' as <-. destruct Hok' as [A1 A2 A3 A4 A5 A6 A7]. by split.
    + intros k gid Hk. destruct (gd_key _ _ Hg k gid Hk) as (g' & Hg' & Hkey). destruct (decide (gid = r_group_id r)) as [->|Hn].
      * eexists. rewrite lookup_insert_eq. split; [done|]. cbn. congruence.
      * exists g'. by rewrite lookup_insert_ne.
  - split; [|done]. apply (good_dropped t _ token r g Hg Hr Hs Hc Hgr Hin); try done; cbn.
    + intros x rx Hn _ _ _ Hx. apply last_None in Er. rewrite Et, Er in Hx. by apply list_elem_of_singleton in Hx.
    + intros gid g' Hn. by rewrite lookup_delete_ne.
    + intros gid g' Hn Hg'. pose proof (go_key _ _ _ (gd_group _ _ Hg _ _ Hg')) as K1. rewrite lookup_delete_ne; [done|]. intros E. pose proof (go_key _ _ _ Hok). congruence.
    + intros g' Hg'. by rewrite lookup_delete_eq in Hg'.
    + intros k gid Hk. apply lookup_delete_Some in Hk as [Hkn Hk]. destruct (gd_key _ _ Hg k gid Hk) as (g' & Hg' & Hkey). exists g'. split; [|done].
      rewrite lookup_delete_ne; [done|]. intros <-. congruence.
Qed.

Lemma cancel_moves (B : Z -> Prop) now u id c u1 : ~ B id -> dte_ok u -> contexts_ u !! id = Some c -> Cancel now u id = Ok (u1, true) ->
  exists u2, Release u1 id = (u2, true) /\ unit_moves B u u2.
Proof.
  intros Hn Hok Hc E. destruct (Cancel_ok now u id _ Hok E) as (u' & b & [= <- <-] & H1 & H2 & H3). rewrite Hc in H3.
  destruct (decide (state c = PENDING)); [|by destruct H3]. destruct H3 as [_ H3].
  destruct (Release_ok u1 id H1) as [H4 H5]. assert (Release u1 id = (set_contexts u1 (delete id (contexts_ u1)), true)) as Er by (unfold Release; by rewrite H3, lookup_insert_eq).
  rewrite Er in *. cbn in H4, H5. eexists. split; [done|]. split; [done|exact H2|]. intros j cj Hj Hcj. exists cj. cbn. rewrite H3, lookup_delete_ne, lookup_insert_ne; [done|..]; by intros ->.
Qed.

Lemma cancel_staged_frame token t t' : CancelStagedToken token t = Ok t' -> aggregation_ t' = aggregation_ t /\ unit_ t' = unit_ t.
Proof.
  unfold CancelStagedToken, drop_tail. destruct (at_ (records_ t) token) as [r|]; cbn; [|done]. destruct (open_groups_ t !! r_group_id r) as [g|]; [|done].
  destruct (negb _); cbn; [done|]. destruct (list.last _); [|by intros [= <-]]. destruct (at_ _ _); cbn; [|done]. by intros [= <-].
Qed.

Lemma cancel_ok t token now : good None t ->
  match CancelToken token now t with
  | Ok (t', _) => good None t' /\ records_ t' = delete token (records_ t) /\ aggregation_ t' = aggregation_ t /\ config_ (unit_ t') = config_ (unit_ t)
  | Err e => caller_error e
  end.
Proof.
  intros Hg. unfold CancelToken. destruct (records_ t !! token) as [r|] eqn:Hr; [|done]. destruct (r_staged r) eqn:Hs.
  - pose proof (cancel_staged_ok t token r Hg Hr Hs) as H. destruct (CancelStagedToken token t) as [t'|] eqn:E; [|done]. cbn. destruct H as [H1 H2]. destruct (cancel_staged_frame token t t' E) as [-> ->]. done.
  - destruct (token_context t token r Hg Hr Hs) as (c & b & E1 & E2 & E3 & _ & E4 & E5). rewrite E4. unfold throw_if. destruct (Z.eqb_spec (b_member_count b) 1) as [Em|]; [|done]. cbn [negb mbind result_bind].
    destruct (Cancel_ok now (unit_ t) (r_xfer_id r) _ (gd_unit _ _ Hg) eq_refl) as (u1 & k & Ec & _). rewrite Ec. cbn [mbind result_bind]. destruct k; [|done]. cbn [negb mbind result_bind].
    destruct (cancel_moves (fun j => has_batch t j /\ j <> r_xfer_id r) now (unit_ t) (r_xfer_id r) c u1 ltac:(tauto) (gd_unit _ _ Hg) E2 Ec) as (u2 & -> & Hm). cbn [negb mbind result_bind].
    split; [|split; [done|split; [done|apply Hm]]].
    apply (good_released t token r u2 (delete (r_xfer_id r) (physical_batches_ t)) Hg Hr Hs Hm).
    + intros j b' Hj. apply lookup_delete_Some in Hj as [Hj Hb]. by rewrite decide_False.
    + intros j Hj. by rewrite lookup_delete_ne.
    + intros _. pose proof (bo_count _ _ _ E5). rewrite <- (bo_remaining _ _ _ E5). lia.
Qed.

Lemma poll_ok t token now : good None t -> match PollToken token now t with Ok (t', _) => t' = t | Err e => caller_error e end.
Proof.
  intros Hg. unfold PollToken. destruct (records_ t !! token) as [r|] eqn:Hr; [|done]. destruct (r_staged r) eqn:Hs; [done|].
  rewrite (context_of_ok t token r Hg Hr Hs). destruct (token_context t token r Hg Hr Hs) as (c & b & _ & E2 & _). cbn. by rewrite (is_completed_ok _ _ _ E2).
Qed.

(** *** Waiting for all tokens *)

Lemma wait_release_ok t token now : good None t -> prompt t ->
  Wp (WaitAndRelease token) now t (fun _ t' => good None t' /\ prompt t' /\ forall x, is_Some (records_ t' !! x) <-> is_Some (records_ t !! x) /\ x <> token).
Proof.
  intros Hg Hp. unfold WaitAndRelease. cbn. destruct (records_ t !! token) as [r|] eqn:Hr; [|done].
  eapply wp_bind; [by apply wait_ok|]. intros now' _ t' (H1 & H2 & H3 & H4). cbn.
  destruct (release_token_ok t' token now' H1 H4) as (t2 & -> & G1 & G2 & G3 & G4 & _). cbn. split; [done|]. split; [unfold prompt in *; by rewrite G3, G4|].
  intros x. rewrite G2. pose proof (kp_rec _ _ H3 x) as Hx. destruct (decide (x = token)) as [->|Hn].
  - rewrite lookup_delete_eq. split; [by intros [? ?]|by intros [_ ?]].
  - rewrite lookup_delete_ne by done. destruct (records_ t !! x), (records_ t' !! x); try done; split; try done; try (by intros [_ _]; eexists); by intros [? ?].
Qed.

Lemma groups_in_order_elem p t e : e ∈ groups_in_order p t -> exists g, open_groups_ t !! e.2 = Some g.
Proof.
  unfold groups_in_order. rewrite merge_sort_Permutation. intros He. apply list_elem_of_omap in He as ([gid g] & Hin & Hx). cbn in Hx.
  destruct (p g); [|done]. injection Hx as <-. apply elem_of_map_to_list in Hin. by exists g.
Qed.
Lemma groups_in_order_NoDup p t : NoDup (groups_in_order p t).*2.
Proof.
  unfold groups_in_order. rewrite merge_sort_Permutation. pose proof (NoDup_fst_map_to_list (open_groups_ t)) as Hn. revert Hn.
  induction (map_to_list (open_groups_ t)) as [|[gid g] l IH]; intros Hn; cbn; [constructor|]. cbn in Hn. apply list.NoDup_cons in Hn as [Hx Hn].
  destruct (p g); cbn; [|by apply IH]. apply list.NoDup_cons. split; [|by apply IH]. intros Hin. apply Hx. apply list_elem_of_fmap in Hin as (e & -> & He).
  apply list_elem_of_omap in He as ([gid' g'] & Hin & Hx'). cbn in Hx'. destruct (p g'); [|done]. injection Hx' as <-. cbn. by apply (list_elem_of_fmap_2 fst) in Hin.
Qed.
Lemma all_groups_in_order t gid g : open_groups_ t !! gid = Some g -> gid ∈ (groups_in_order (fun _ => true) t).*2.
Proof.
  intros Hg. unfold groups_in_order. rewrite merge_sort_Permutation. apply list_elem_of_fmap. exists (g_first_issue_sequence g, gid). split; [done|].
  apply list_elem_of_omap. exists (gid, g). split; [by apply elem_of_map_to_list|done].
Qed.

Lemma flush_groups_ok pend t p now : good pend t -> prompt t ->
  Direct (each_do flush (groups_in_order p t)) now t (fun _ t' => good pend t' /\ keeps t t' /\
    (forall gid, is_Some (open_groups_ t' !! gid) -> is_Some (open_groups_ t !! gid) /\ gid ∉ (groups_in_order p t).*2) /\ next_group_id_ t' = next_group_id_ t).
Proof.
  intros Hg Hp. apply flush_all_ok; [done|done|by eapply keeps_refl|apply groups_in_order_NoDup|]. intros e He. destruct (groups_in_order_elem p t e He) as [g Hge]. by exists g.
Qed.

(** Nothing outstanding means nothing at all. *)
Lemma nothing_left t : good None t -> records_ t = ∅ -> open_groups_ t = ∅ /\ physical_batches_ t = ∅ /\ group_by_key_ t = ∅.
Proof.
  intros Hg Hr. assert (open_groups_ t = ∅) as Eg.
  { apply map_eq. intros gid. rewrite lookup_empty. destruct (open_groups_ t !! gid) as [g|] eqn:E; [|done]. pose proof (gd_group _ _ Hg _ _ E) as Hok.
    pose proof (tokens_nonempty _ _ _ Hok) as Hne. destruct (g_tokens g) as [|x l] eqn:Et; [done|]. destruct (group_member _ _ _ x Hok) as (r & Hx & _); [rewrite Et; left|]. by rewrite Hr in Hx. }
  split; [done|]. split.
  - apply map_eq. intros id. rewrite lookup_empty. destruct (physical_batches_ t !! id) as [b|] eqn:E; [|done]. destruct (gd_batch _ _ Hg _ _ E) as [_ B2 B3].
    unfold members in B2. rewrite Hr, map_sum_empty in B2. lia.
  - apply map_eq. intros k. rewrite lookup_empty. destruct (group_by_key_ t !! k) as [gid|] eqn:E; [|done]. destruct (gd_key _ _ Hg _ _ E) as (g & Hgr & _). by rewrite Eg in Hgr.
Qed.

Definition fenced (l : list (Z * Z)) (t : DteAsyncTracker) : Prop := good None t /\ prompt t /\ forall x, is_Some (records_ t !! x) -> x ∈ l.*2.
Lemma fence_ok t now : good None t -> prompt t -> Wp Fence now t (fun _ t' => good None t' /\ prompt t' /\ records_ t' = ∅).
Proof.
  intros Hg Hp. unfold Fence. apply wp_bind with (R := fun _ t' => good None t' /\ prompt t').
  - unfold FlushAllOpenGroups. cbn. apply direct_wp. eapply direct_mono; [by apply flush_groups_ok|]. intros _ t' (H1 & H2 & _). split; [done|by eapply prompt_keeps].
  - intros now' _ t' [H1 H2]. cbn. eapply wp_mono; [eapply (wp_each _ _ _ _ _ fenced)|].
    + intros now2 x l s (A1 & A2 & A3). unfold fence_token. cbn. destruct (records_ s !! x.2) as [r|] eqn:Er.
      * eapply wp_mono; [by apply wait_release_ok|]. intros _ s' (B1 & B2 & B3). split; [done|]. split; [done|]. intros y Hy. apply B3 in Hy as [Hy Hn]. apply A3, elem_of_cons in Hy as [->|]; done.
      * cbn. split; [done|]. split; [done|]. intros y Hy. pose proof (A3 y Hy) as Hin. apply elem_of_cons in Hin as [->|]; [|done]. rewrite Er in Hy. by destruct Hy.
    + split; [done|]. split; [done|]. intros x [r Hx]. unfold tokens_in_order. rewrite merge_sort_Permutation. apply list_elem_of_fmap. exists (r_issue_sequence r, x). split; [done|].
      apply list_elem_of_fmap. exists (x, r). split; [done|]. by apply elem_of_map_to_list.
    + intros _ s (A1 & A2 & A3). split; [done|]. split; [done|]. apply map_eq. intros x. rewrite lookup_empty. destruct (records_ s !! x) eqn:E; [|done].
      specialize (A3 x ltac:(by rewrite E)). by apply elem_of_nil in A3.
Qed.

(** *** Issuing a token *)

Lemma conflicts_ok t incoming : good None t -> exists l, conflicts t incoming = Ok l /\
  forall token r, records_ t !! token = Some r -> unfinished t r -> HasHazard r incoming = true -> token ∈ l.*2.
Proof.
  intros Hg. unfold conflicts.
  destruct (foldM_total_prefix (add_conflict t incoming) (fun pre acc => forall e, e ∈ pre -> unfinished t e.2 -> HasHazard e.2 incoming = true -> e.1 ∈ acc.*2) (map_to_list (records_ t)) [])
    as (acc & -> & Hacc).
  - intros pre [token r] post acc El HI. assert (records_ t !! token = Some r) as Hr.
    { apply elem_of_map_to_list. rewrite El. apply elem_of_app. right. left. }
    assert (exists b, incomplete t r = Ok b /\ (unfinished t r -> b = true)) as (b & Eb & Hb).
    { unfold incomplete, unfinished. destruct (r_context r) as [id|] eqn:Ec; [|by exists true]. destruct (record_batch None t Hg token r id Hr Ec) as [[b Hb] _].
      destruct (bo_context _ _ _ (gd_batch _ _ Hg _ _ Hb)) as (c & Hc & _). rewrite (is_completed_ok _ _ _ Hc). cbn. eexists. split; [done|]. intros Hu. specialize (Hu c Hc). by rewrite bool_decide_false. }
    unfold add_conflict. cbn [fst snd]. rewrite Eb. cbn [mbind result_bind]. eexists. split; [done|]. intros e [He|He]%elem_of_app Hu Hh.
    + specialize (HI e He Hu Hh). destruct (b && _); [|done]. rewrite fmap_app. apply elem_of_app. by left.
    + apply list_elem_of_singleton in He as ->. cbn in *. rewrite (Hb Hu), Hh. cbn. rewrite fmap_app. apply elem_of_app. right. left.
  - intros e He. by apply elem_of_nil in He.
  - cbn. eexists. split; [done|]. intros token r Hr Hu Hh. rewrite merge_sort_Permutation. apply (Hacc (token, r)); [by apply elem_of_map_to_list|done|done].
Qed.

Lemma ceil_bytes bits x : 0 <= bits < 2 ^ 64 -> bits mod 8 = 0 -> CeilDivU64 bits 8 = Ok x -> x = bits / 8.
Proof.
  intros Hb Hm. unfold CeilDivU64. cbn [Z.eqb throw_if mbind result_bind]. rewrite Hm. cbn. intros [= <-]. rewrite Z.add_0_r. unfold wrap. apply Z.mod_small.
  split; [apply Z.div_pos; lia|]. apply Z.div_lt_upper_bound; lia.
Qed.

Lemma validated t q : op_typed (ISSUE q) -> ValidateIssue t q = Ok tt -> records_ t !! q_token q = None /\ 0 < q_payload_bits q /\
  (enabled (aggregation_ t) = true -> forall seq, aligned (new_record q seq)).
Proof.
  intros (Hb & Hsa & Hss & Hra & _) Hv. unfold ValidateIssue in Hv. inv_ok. split_guards. unfold in_u in *.
  split; [|split; [lia|]].
  - apply bool_decide_eq_false in Hguard. destruct (records_ t !! q_token q); [|done]. destruct Hguard. by eexists.
  - intros Hen seq. rewrite Hen in Hv. cbn [negb] in Hv. inv_ok. split_guards.
    assert (r = q_payload_bits q / 8) as -> by (eapply ceil_bytes; [|done|done]; lia).
    assert (is_dir (q_dir q) DRAM_TO_REMOTE = false) as Hd.
    { unfold is_dir in *. apply bool_decide_eq_false. intros E. rewrite E in Hguard4. by vm_compute in Hguard4. }
    rewrite Hd in Hr0. inv_ok. split_guards. pose proof (Z.div_mod (q_payload_bits q) 8 ltac:(lia)). split; cbn; lia.
Qed.

Lemma record_hazard q s r : HasHazard r (new_record q s) = HasHazard r (new_record q 0).
Proof. done. Qed.

(** No outstanding transfer conflicts with the request. *)
Definition clear (q : request) (t : DteAsyncTracker) : Prop := forall token r, records_ t !! token = Some r -> unfinished t r -> HasHazard r (new_record q 0) = false.

Lemma add_record_ok t q now : good None t -> records_ t !! q_token q = None -> clear q t ->
  exists t', add_record q now t = Ok (t', tt) /\ good (Some (q_token q)) t' /\ aggregation_ t' = aggregation_ t /\ unit_ t' = unit_ t /\
    exists seq, records_ t' !! q_token q = Some (new_record q seq).
Proof.
  intros Hg Hn Hc. unfold add_record, emplace. rewrite Hn. eexists. split; [reflexivity|]. set (rn := new_record q _).
  split; [|split; [done|split; [done|]]]; [|exists (next_issue_sequence_ t); apply lookup_insert_eq].
  assert (forall token, token <> q_token q -> <[q_token q := rn]> (records_ t) !! token = records_ t !! token) as Ho by (intros; by rewrite lookup_insert_ne).
  split; cbn; try apply Hg.
  - intros token r Hr. destruct (decide (Some (q_token q) = Some token)) as [[= <-]|Hne].
    + rewrite lookup_insert_eq in Hr. injection Hr as <-. done.
    + rewrite Ho in Hr by congruence. pose proof (gd_rec _ _ Hg token r Hr) as H. by rewrite decide_False in H.
  - intros token [= <-]. rewrite lookup_insert_eq. by eexists.
  - intros gid g Hgr. pose proof (gd_group _ _ Hg gid g Hgr) as Hok. eapply group_frame; [done|cbn; lia|apply Hok|done|]. intros token Hin. apply Ho. intros ->.
    destruct (group_member _ _ _ _ Hok Hin) as (r & E & _). congruence.
  - intros id b Hb. destruct (gd_batch _ _ Hg id b Hb) as [B1 B2 B3]. split; [done| |done]. unfold members. cbn. rewrite map_sum_insert by done. unfold in_context at 1. cbn. by rewrite bool_decide_false.
  - intros x x' r r' Hne Hx Hx' U U'. destruct (decide (x = q_token q)) as [->|H1]; destruct (decide (x' = q_token q)) as [->|H2].
    + done.
    + rewrite lookup_insert_eq in Hx. injection Hx as <-. rewrite Ho in Hx' by done. rewrite hazard_comm. unfold rn. rewrite record_hazard. by apply (Hc x' r').
    + rewrite lookup_insert_eq in Hx'. injection Hx' as <-. rewrite Ho in Hx by done. unfold rn. rewrite record_hazard. by apply (Hc x r).
    + rewrite Ho in Hx, Hx' by done. by apply (gd_hazard _ _ Hg x x').
Qed.

(** Moving the new token into a group: what is the same for a new group and for an open one. *)
Section staging.
Context (t t' : DteAsyncTracker) (q : request) (seq gid : Z) (g' : OpenGroup).
Context (Hg : good (Some (q_token q)) t) (Hr : records_ t !! q_token q = Some (new_record q seq)) (Hen : enabled (aggregation_ t) = true).
Context (Eu : unit_ t' = unit_ t) (Ea : aggregation_ t' = aggregation_ t) (Eb : physical_batches_ t' = physical_batches_ t).
Context (Er : records_ t' = <[q_token q := restage gid (new_record q seq)]> (records_ t)).
Context (Eg : open_groups_ t' = <[gid := g']> (open_groups_ t)) (Hin : q_token q ∈ g_tokens g') (Hnext : next_group_id_ t <= next_group_id_ t').

Lemma staged_lookup x : x <> q_token q -> records_ t' !! x = records_ t !! x.
Proof using Er. intros Hn. by rewrite Er, lookup_insert_ne. Qed.

Lemma good_staged :
  (forall x, x <> q_token q -> (exists g, open_groups_ t !! gid = Some g /\ x ∈ g_tokens g) -> x ∈ g_tokens g') -> group_ok t' gid g' ->
  (forall i g, i <> gid -> open_groups_ t !! i = Some g -> group_by_key_ t' !! g_key g = Some i) ->
  (forall k i, group_by_key_ t' !! k = Some i -> exists g, open_groups_ t' !! i = Some g /\ g_key g = k) -> good None t'.
Proof using All.
  intros H1 H2 H3 H4. split; try (rewrite ?Eu, ?Ea; apply Hg); try done.
  - intros x r Hx. rewrite decide_False by done. destruct (decide (x = q_token q)) as [->|Hn].
    + rewrite Er, lookup_insert_eq in Hx. injection Hx as <-. left. split_and!; [done|done|]. exists g'. cbn. by rewrite Eg, lookup_insert_eq.
    + rewrite staged_lookup in Hx by done. pose proof (gd_rec _ _ Hg x r Hx) as H. rewrite decide_False in H by congruence. destruct H as [(A1 & A2 & g & A3 & A4)|(A1 & A2 & A3)].
      * left. split_and!; [done|done|]. rewrite Eg. destruct (decide (r_group_id r = gid)) as [E|E].
        -- exists g'. rewrite E, lookup_insert_eq. split; [done|]. apply H1; [done|]. exists g. by rewrite <- E.
        -- exists g. by rewrite lookup_insert_ne.
      * right. split_and!; [done|done|]. by rewrite Eb.
  - intros i g Hi. rewrite Eg in Hi. apply lookup_insert_Some in Hi as [[<- <-]|[Hn Hi]]; [done|]. pose proof (gd_group _ _ Hg i g Hi) as Hok.
    eapply group_frame; [done|lia|by apply H3|done|]. intros x Hx. apply staged_lookup. intros ->. by eapply fresh_no_group.
  - intros id b Hb. rewrite Eb in Hb. destruct (gd_batch _ _ Hg id b Hb) as [B1 B2 B3]. split; [by rewrite Eu| |done].
    unfold members. rewrite Er, (map_sum_update _ _ _ _ _ Hr). unfold in_context at 2 3. cbn. rewrite !bool_decide_false by done. unfold members in B2. lia.
  - assert (forall x r', records_ t' !! x = Some r' -> unfinished t' r' -> exists r, records_ t !! x = Some r /\ same_request r r' /\ unfinished t r) as Hu.
    { intros x r' Hx U. destruct (decide (x = q_token q)) as [->|Hn].
      - rewrite Er, lookup_insert_eq in Hx. injection Hx as <-. eexists. by split_and!; [done| |].
      - rewrite staged_lookup in Hx by done. exists r'. split_and!; [done|apply same_request_refl|]. unfold unfinished in *. by rewrite Eu in U. }
    intros x x' r r' Hn Hx Hx' U U'. destruct (Hu _ _ Hx U) as (s & S1 & S2 & S3). destruct (Hu _ _ Hx' U') as (s' & S1' & S2' & S3').
    rewrite (hazard_same s s' r r' S2 S2'). by eapply (gd_hazard _ _ Hg x x').
  - intros E. rewrite Ea in E. congruence.
Qed.
End staging.

Lemma bytes_of q seq : aligned (new_record q seq) -> q_payload_bits q / 8 = q_spm_size q.
Proof. intros H. pose proof (al_bits _ H) as E. cbn in E. rewrite E, Z.mul_comm. apply Z.div_mul. lia. Qed.

Definition request_key (q : request) : GroupKey := (DteDir_code (q_dir q), q_remote_peer q, q_address_block q).

Lemma start_group_ok t q seq now : good (Some (q_token q)) t -> records_ t !! q_token q = Some (new_record q seq) -> enabled (aggregation_ t) = true -> aligned (new_record q seq) ->
  group_by_key_ t !! request_key q = None -> q_payload_bits q / 8 <= max_payload_bytes (aggregation_ t) ->
  exists t' gid, StartAggregationGroup (q_token q) now t = Ok (t', gid) /\ good None t' /\ is_Some (open_groups_ t' !! gid) /\ aggregation_ t' = aggregation_ t /\ unit_ t' = unit_ t.
Proof.
  intros Hg Hr Hen Hal Hk Hmax. unfold StartAggregationGroup, at_. rewrite Hr. cbn [mbind result_bind new_record r_direction r_remote_peer r_address_block r_payload_bits r_spm_addr r_spm_size r_remote_addr r_issue_sequence].
  rewrite (bytes_of q seq Hal) in *. fold (request_key q). set (gid := next_group_id_ t). set (g' := mkGroup _ _ _ _ _ _ _ _ _ _).
  assert (open_groups_ t !! gid = None) as Hnone.
  { destruct (open_groups_ t !! gid) as [g|] eqn:E; [|done]. pose proof (go_id _ _ _ (gd_group _ _ Hg _ _ E)). unfold gid in *. lia. }
  unfold emplace. rewrite Hnone. eexists _, gid. split; [reflexivity|]. split; [|split; [cbn; by rewrite lookup_insert_eq|done]].
  pose proof (al_bits _ Hal) as Hb. pose proof (al_size _ Hal) as Hs. destruct (al_spm _ Hal), (al_remote _ Hal). cbn in *.
  apply (good_staged t _ q seq gid g'); cbn; try done; try lia.
  - left.
  - intros x Hn (g & Hgr & _). congruence.
  - split; cbn; [lia|apply lookup_insert_eq|apply NoDup_singleton| |lia|lia|done].
    exists [restage gid (new_record q seq)]. split; [constructor; [|constructor]; split_and!; cbn; try done; by rewrite lookup_insert_eq|].
    rewrite !u64_id by (unfold UINT64_MAX in *; lia). apply (spans_one (restage gid (new_record q seq))). by destruct Hal.
  - intros i g Hn Hgi. rewrite lookup_insert_ne; [apply (gd_group _ _ Hg _ _ Hgi)|]. intros E. pose proof (go_key _ _ _ (gd_group _ _ Hg _ _ Hgi)). congruence.
  - intros k i Hki. apply lookup_insert_Some in Hki as [[<- <-]|[Hn Hki]]; [exists g'; by rewrite lookup_insert_eq|].
    destruct (gd_key _ _ Hg k i Hki) as (g & Hgi & E). exists g. split; [|done]. rewrite lookup_insert_ne; [done|]. intros <-. congruence.
Qed.

Lemma dte_dir_code_inj d d' : DteDir_code d = DteDir_code d' -> d = d'.
Proof. by destruct d, d'. Qed.

Lemma append_group_ok t q seq now gid g : good (Some (q_token q)) t -> records_ t !! q_token q = Some (new_record q seq) -> enabled (aggregation_ t) = true -> aligned (new_record q seq) ->
  open_groups_ t !! gid = Some g -> g_key g = request_key q -> CanAppend (aggregation_ t) g q = true -> q_payload_bits q / 8 <= max_payload_bytes (aggregation_ t) ->
  exists t', AppendToAggregationGroup gid (q_token q) now t = Ok (t', gid) /\ good None t' /\ is_Some (open_groups_ t' !! gid) /\ aggregation_ t' = aggregation_ t /\ unit_ t' = unit_ t.
Proof.
  intros Hg Hr Hen Hal Hgr Hkey Hcan Hmax. unfold AppendToAggregationGroup, at_. rewrite Hgr, Hr. cbn [mbind result_bind new_record r_payload_bits r_spm_addr r_spm_size r_remote_addr].
  rewrite (bytes_of q seq Hal) in *. set (g' := mkGroup _ _ _ _ _ _ _ _ _ _). eexists. split; [reflexivity|]. split; [|split; [cbn; by rewrite lookup_insert_eq|done]].
  pose proof (gd_group _ _ Hg gid g Hgr) as Hok. pose proof Hok as [G1 G2 G3 (rs & Hf & Hsp) G5 G6 G7].
  unfold CanAppend in Hcan. rewrite (bytes_of q seq Hal) in Hcan. destruct (_ <=? _) in Hcan; [done|]. destruct (_ <? g_total_payload_bytes g) eqn:Eb in Hcan; [done|]. split_guards.
  destruct (at_bytes _ (gd_agg _ _ Hg)). pose proof (al_bits _ Hal) as Hb. pose proof (al_size _ Hal) as Hs. destruct (al_spm _ Hal), (al_remote _ Hal). cbn in *.
  rewrite u64_id in Eb by (unfold UINT64_MAX in *; lia).
  apply (good_staged t _ q seq gid g'); cbn; try done; try lia.
  - apply elem_of_app. right. left.
  - intros x _ (g0 & Hg0 & Hx). assert (g0 = g) as -> by congruence. apply elem_of_app. by left.
  - split; cbn; [lia|done| | |rewrite !u64_id by (unfold UINT64_MAX in *; lia); lia|rewrite u64_id by (unfold UINT64_MAX in *; lia); lia|done].
    + apply list.NoDup_app. split_and!; [done| |apply NoDup_singleton]. intros x Hx ->%list_elem_of_singleton. by eapply fresh_no_group.
    + exists (rs ++ [restage gid (new_record q seq)]). split.
      * apply Forall2_app; [|constructor; [|constructor]; split_and!; cbn; try done; by rewrite lookup_insert_eq].
        apply Forall2_same_length_lookup. split; [by eapply Forall2_length|]. intros i x rx Hx Hrx. destruct (Forall2_lookup_lr _ _ _ _ _ _ Hf Hx Hrx) as (A1 & A2). split; [|done].
        cbn. rewrite lookup_insert_ne; [done|]. intros <-. apply (fresh_no_group t gid g (q_token q) Hg Hgr). by eapply list_elem_of_lookup_2.
      * rewrite !u64_id by (unfold UINT64_MAX in *; lia). replace (q_spm_addr q) with (g_next_spm_addr g) by done. replace (q_remote_addr q) with (g_next_remote_addr g) by done.
        apply (spans_snoc rs (restage gid (new_record q seq)) (g_total_payload_bytes g) (g_next_spm_addr g) (g_next_remote_addr g) Hsp); [by destruct Hal|done|done].
  - intros i g0 _ Hg0. apply (gd_group _ _ Hg _ _ Hg0).
  - intros k i Hki. destruct (gd_key _ _ Hg k i Hki) as (g0 & Hg0 & E). destruct (decide (i = gid)) as [->|Hn]; [exists g'; rewrite lookup_insert_eq; split; [done|]; cbn; congruence|].
    exists g0. by rewrite lookup_insert_ne.
Qed.

Definition staged_ok (t : DteAsyncTracker) (gid : Z) (t' : DteAsyncTracker) : Prop := good None t' /\ prompt t' /\ is_Some (open_groups_ t' !! gid).

Lemma stage_ok t q seq now : good (Some (q_token q)) t -> prompt t -> records_ t !! q_token q = Some (new_record q seq) -> enabled (aggregation_ t) = true -> aligned (new_record q seq) ->
  q_payload_bits q / 8 <= max_payload_bytes (aggregation_ t) -> Direct (stage q) now t (staged_ok t).
Proof.
  intros Hg Hp Hr Hen Hal Hmax.
  assert (forall t', good (Some (q_token q)) t' -> prompt t' -> records_ t' !! q_token q = Some (new_record q seq) -> aggregation_ t' = aggregation_ t -> group_by_key_ t' !! request_key q = None ->
    Direct (act (StartAggregationGroup (q_token q))) now t' (staged_ok t)) as Hstart.
  { intros t1 Hg1 Hp1 Hr1 Ea Hk. destruct (start_group_ok t1 q seq now) as (t2 & gid & E & G1 & G2 & G3 & G4); try rewrite Ea; try done.
    cbn. rewrite E. cbn. split; [done|]. split; [|done]. unfold prompt in *. by rewrite G3, G4. }
  unfold stage. apply direct_look. cbn beta zeta. fold (request_key q). destruct (group_by_key_ t !! request_key q) as [gid|] eqn:Hk; [|by apply Hstart].
  destruct (gd_key _ _ Hg _ _ Hk) as (g & Hgr & Hkey). cbn beta iota. rewrite Hgr. destruct (CanAppend (aggregation_ t) g q) eqn:Hcan.
  - destruct (append_group_ok t q seq now gid g) as (t2 & E & G1 & G2 & G3 & G4); try done. cbn. rewrite E. cbn. split; [done|]. split; [|done]. unfold prompt in *. by rewrite G3, G4.
  - eapply direct_bind; [by eapply (flush_ok _ t gid g now (fun _ t' => good (Some (q_token q)) t' /\ keeps t t' /\ flushed gid g t t'))|].
    intros _ t' (H1 & H2 & H3). apply Hstart; [done|by eapply prompt_keeps| |apply H2|].
    + rewrite (fl_other _ _ _ _ H3); [done|exact (fresh_no_group t gid g (q_token q) Hg Hgr)].
    + by rewrite (fl_keys _ _ _ _ H3), Hkey, lookup_delete_eq.
Qed.

Lemma flush_full_ok t gid now : good None t -> prompt t -> is_Some (open_groups_ t !! gid) -> Direct (flush_full gid) now t (fun _ t' => good None t' /\ prompt t').
Proof.
  intros Hg Hp [g Hgr]. unfold flush_full. cbn. rewrite Hgr. destruct (_ || _); [|done].
  eapply (flush_ok _ _ _ _ _ _ Hg Hp Hgr). intros id t' H1 H2 _. split; [done|by eapply prompt_keeps].
Qed.

Lemma issue_record_ok t q seq now : good (Some (q_token q)) t -> prompt t -> records_ t !! q_token q = Some (new_record q seq) -> in_u 64 (q_payload_bits q) ->
  (enabled (aggregation_ t) = true -> aligned (new_record q seq)) -> Wp (issue_record q) now t (fun _ t' => good None t' /\ prompt t').
Proof.
  intros Hg Hp Hr Hb Hal. unfold issue_record. cbn. destruct (negb _ || _) eqn:Ed; [by apply issue_single_ok|].
  apply orb_false_iff in Ed as [E1 E2]. apply negb_false_iff in E1. apply Z.ltb_ge in E2.
  apply direct_wp. eapply direct_bind; [eapply (stage_ok t q seq); auto|]. intros gid t' (H1 & H2 & H3). by apply flush_full_ok.
Qed.

Lemma validate_errors t q e : ValidateIssue t q = Err e -> caller_error e.
Proof.
  unfold ValidateIssue, throw_if, CeilDivU64. intros E.
  repeat (match type of E with context [if ?b then _ else _] => destruct b end; cbn in E; try (by injection E as <-); try done).
Qed.

(** What holds while the core waits for the conflicts of a request: those still to come, and those seen complete. *)
Definition clearing (q : request) (t0 : DteAsyncTracker) (all l : list (Z * Z)) (t : DteAsyncTracker) : Prop :=
  good None t /\ prompt t /\ keeps t0 t /\ forall x, x ∈ all.*2 -> x ∈ l.*2 \/ completed_token t x.

Lemma cleared q t0 all t : (forall token r, records_ t0 !! token = Some r -> unfinished t0 r -> HasHazard r (new_record q 0) = true -> token ∈ all.*2) -> good None t0 ->
  clearing q t0 all [] t -> clear q t /\ (records_ t0 !! q_token q = None -> records_ t !! q_token q = None).
Proof.
  intros Hc Hg0 (Hg & _ & Hk & Hall). split.
  - intros token r Hr Hu. pose proof (kp_rec _ _ Hk token) as Hkr. rewrite Hr in Hkr. destruct (records_ t0 !! token) as [r0|] eqn:Hr0; [|done].
    assert (same_request r0 r) as Hs by (destruct Hkr as [->|(_ & _ & _ & Hs)]; [apply same_request_refl|done]).
    destruct (HasHazard r (new_record q 0)) eqn:Eh; [|done]. rewrite (hazard_same r0 (new_record q 0) r (new_record q 0) Hs (same_request_refl _)) in Eh.
    destruct (decide (token ∈ all.*2)) as [Hin|Hnin].
    + destruct (Hall token Hin) as [Hx|(r' & id & c & E1 & _ & E2 & E3 & E4)]; [by apply elem_of_nil in Hx|]. assert (r' = r) as -> by congruence.
      unfold unfinished in Hu. rewrite E2 in Hu. by destruct (Hu c E3).
    + destruct Hnin. apply (Hc token r0 Hr0); [|done]. unfold unfinished. destruct (r_context r0) as [id|] eqn:Ec; [|done]. intros c Hcx Hst.
      assert (r_staged r0 = false) as Hs0.
      { pose proof (gd_rec _ _ Hg0 token r0 Hr0) as H. rewrite decide_False in H by done. destruct H as [(_ & H & _)|(H & _)]; [congruence|done]. }
      destruct (completed_keeps None t0 t token Hg0 Hk) as (r' & id' & c' & E1 & _ & E2 & E3 & E4); [by exists r0, id, c|]. assert (r' = r) as -> by congruence.
      unfold unfinished in Hu. rewrite E2 in Hu. by destruct (Hu c' E3).
  - intros Hn. pose proof (kp_rec _ _ Hk (q_token q)) as Hkr. rewrite Hn in Hkr. by destruct (records_ t !! q_token q).
Qed.

Lemma wait_conflicts_ok q t0 all now : good None t0 -> prompt t0 ->
  Wp (each_do wait_conflict all) now t0 (fun _ t => clearing q t0 all [] t).
Proof.
  intros Hg Hp. apply (wp_each _ _ _ _ wait_conflict (clearing q t0 all)).
  - intros now' e l s (H1 & H2 & H3 & H4). unfold wait_conflict. eapply wp_mono; [by apply wait_ok|]. cbn. intros _ s' (G1 & G2 & G3 & G4).
    split; [done|]. split; [done|]. split; [by eapply keeps_trans|]. intros x Hx. destruct (H4 x Hx) as [[->|?]%elem_of_cons|Hcp]; [by right|by left|right; exact (completed_keeps None s s' x H1 G3 Hcp)].
  - split; [done|]. split; [done|]. split; [by eapply keeps_refl|]. intros x Hx. by left.
Qed.

Lemma issue_token_ok t q now : good None t -> prompt t -> op_typed (ISSUE q) -> Wp (IssueToken q) now t (fun _ t' => good None t' /\ prompt t').
Proof.
  intros Hg Hp Hq. unfold IssueToken. destruct (conflicts_ok t (new_record q 0) Hg) as (l & El & Hl).
  apply wp_bind with (R := fun a t' => t' = t /\ a = l /\ ValidateIssue t q = Ok tt).
  { cbn. destruct (ValidateIssue t q) as [[]|e] eqn:Ev; cbn; [|by eapply validate_errors]. rewrite El. cbn. done. }
  intros now1 a s (-> & -> & Hv). destruct (validated t q Hq Hv) as (Hn & Hpos & Hal).
  eapply wp_bind; [exact (wait_conflicts_ok q t l now1 Hg Hp)|]. intros now2 [] s Hcl. destruct (cleared q t l s Hl Hg Hcl) as [Hclear Hnone]. destruct Hcl as (Hgs & Hps & Hk & _).
  destruct (add_record_ok s q now2 Hgs (Hnone Hn) Hclear) as (s' & Ea & G1 & G2 & G3 & seq & G4).
  apply wp_bind with (R := fun _ t1 => t1 = s'); [unfold act; cbn [wp]; by rewrite Ea|]. intros now3 [] s1 ->. eapply issue_record_ok; [done|unfold prompt in *; by rewrite G2, G3|done|apply Hq|]. intros Hen. apply Hal. by rewrite <- (kp_agg _ _ Hk), <- G2.
Qed.
