(* ===== verification/DteSystem.v ===== *)
(** The processes of a core and its transfer engine together: no interleaving makes the
    asynchronous transfers fail, and a fence ends once the engine has done its work. *)

From S2P Require Import Prelude MsgWire DteUnit Proc DteAsync DteAsyncInv.

Notation Wp := (wp caller_error live others shared).
Notation Direct := (direct caller_error live).

(** ** Every operation keeps the invariant *)

Definition between (t : DteAsyncTracker) : Prop := good None t /\ prompt t.
Lemma between_shared t : between t -> shared t.
Proof. intros [H1 H2]. split; [by exists None|done]. Qed.

Lemma execute_ok t o now : between t -> op_typed o -> Wp (execute_dte_async o) now t (fun _ => between).
Proof.
  intros [Hg Hp] Ho. destruct o as [q|token|token| |token].
  - eapply wp_bind; [by apply issue_token_ok|]. by intros ? ? s.
  - eapply wp_mono; [by apply wait_release_ok|]. intros _ s (H1 & H2 & _). done.
  - unfold execute_dte_async. eapply wp_bind with (R := fun _ => between).
    + unfold act. cbn [wp]. pose proof (poll_ok t token now Hg) as H. destruct (PollToken token now t) as [[t' b]|]; [subst; done|done].
    + by intros ? ? s.
  - eapply wp_mono; [by apply fence_ok|]. intros _ s (H1 & H2 & _). done.
  - unfold execute_dte_async, act. cbn [wp]. pose proof (cancel_ok t token now Hg) as H. destruct (CancelToken token now t) as [[t' b]|]; [|done].
    destruct H as (H1 & _ & Ea & Ec). cbn. split; [done|]. unfold prompt in *. by rewrite Ea, Ec.
Qed.

(** The second process never waits, and changes only what the core can bear in a wait. *)
Lemma timeout_others t now t' r : prompt t -> (exists pend, good pend t) -> run timeout_pass now t = Ok (t', r) -> live t' -> still r = None /\ others t t'.
Proof.
  intros Hp [p0 Hg0] E Hl.
  assert (forall pend, good pend t -> still r = None /\ good pend t' /\ keeps t t') as H.
  { intros pend Hg. assert (Direct timeout_pass now t (fun _ t' => good pend t' /\ keeps t t')) as Hd.
    { unfold timeout_pass. cbn [direct]. destruct (negb _); [split; [done|by eapply keeps_refl]|].
      eapply direct_mono; [by apply flush_groups_ok|]. by intros _ s (H1 & H2 & _). }
    apply direct_run in Hd. rewrite E in Hd. destruct r; [done|]. by destruct Hd. }
  split; [by apply (H p0)|]. split; [intros [pend Hg]|intros pend Hg]; by apply (H pend).
Qed.
Lemma timeout_errors t now e : prompt t -> (exists pend, good pend t) -> run timeout_pass now t = Err e -> caller_error e.
Proof.
  intros Hp [pend Hg] E. assert (Direct timeout_pass now t (fun _ t' => good pend t')) as Hd.
  { unfold timeout_pass. cbn [direct]. destruct (negb _); [done|]. eapply direct_mono; [by apply flush_groups_ok|]. by intros _ s (H1 & _). }
  apply direct_run in Hd. by rewrite E in Hd.
Qed.

(** ** The reachable states *)

Definition core_ok (t : DteAsyncTracker) (c : option (tproc unit)) : Prop :=
  match c with None => between t | Some p => Proc.waiting caller_error live others shared p t (fun _ => between) end.
Definition system_ok (s : dte_system) : Prop := s_worker s = None /\ core_ok (s_tracker s) (s_core s).

Lemma core_shared t c : core_ok t c -> shared t.
Proof. destruct c; [apply waiting_inv|apply between_shared]. Qed.
Lemma core_others t t' c : core_ok t c -> others t t' -> core_ok t' c.
Proof.
  destruct c as [p|]; cbn; [apply waiting_env|]. intros [Hg Hp] Ho. split; [by apply Ho|]. eapply prompt_keeps; [|done]. apply Ho. by exists None.
Qed.
Lemma core_runs p now t t' r : run p now t = Ok (t', r) -> live t' ->
  match run p now t with Err e => caller_error e | Ok (s', inl _) => between s' | Ok (s', inr p') => live s' -> Proc.waiting caller_error live others shared p' s' (fun _ => between) end -> core_ok t' (still r).
Proof. intros -> Hl H. destruct r; [done|]. by apply H. Qed.

Lemma others_refl t : others t t.
Proof. split; [|done]. intros [pend Hg]. by eapply keeps_refl. Qed.
Lemma unit_others t u' : (forall pend, good pend t -> unit_moves (has_batch t) (unit_ t) u') -> others t (set_unit u' t).
Proof. intros Hm. apply others_moved. intros [pend Hg]. by apply (Hm pend). Qed.

(** A step is one of the core, or leaves the core as it is and does to the tracker what the core can bear. *)
Lemma step_kinds s s' : system_step s s' -> s_worker s = None -> shared (s_tracker s) -> live (s_tracker s') -> s_worker s' = None /\ live (s_tracker s) /\
  (s_core s' = s_core s /\ others (s_tracker s) (s_tracker s') \/
   exists r, s_core s' = still r /\
     ((exists o, s_core s = None /\ op_typed o /\ run (execute_dte_async o) (s_now s) (s_tracker s) = Ok (s_tracker s', r)) \/
      (exists p, s_core s = Some p /\ run p (s_now s) (s_tracker s) = Ok (s_tracker s', r)))).
Proof.
  intros Hst Hw [Hgood Hp] Hl.
  destruct Hst as [now now' t c w Hl0 Hle|fuel now t c w u d Hl0 Hf E|now t c w bits d u o Hl0 Hb E|now t c w Hl0|now t c w id Hl0 Hb|now t w o t' r Hl0 Ho E|now t w p t' r Hl0 E|now t c t' r Hl0 E|now t c p t' r Hl0 E];
    cbn in *; try discriminate; (split; [try exact Hw|split; [exact Hl0|]]).
  - left. split; [done|apply others_refl].
  - left. split; [done|]. apply unit_others. intros pend Hg. destruct (scheduler_ok fuel now (unit_ t) (gd_typed _ _ Hg) (gd_unit _ _ Hg) Hf) as (u' & d' & E' & Hok & He & _).
    rewrite E in E'. injection E' as <- <-. by apply evolves_moves.
  - left. split; [done|]. apply unit_others. intros pend Hg. eapply issue_moves; [apply Hg|apply Hg|exact Hb|exact E].
  - left. split; [done|]. apply unit_others. intros pend Hg. apply wait_moves, Hg.
  - left. split; [done|]. apply unit_others. intros pend Hg. apply release_moves; [|apply Hg]. unfold has_batch. rewrite Hb. by intros [? ?].
  - right. exists r. split; [done|]. left. by exists o.
  - right. exists r. split; [done|]. right. by exists p.
  - by destruct (timeout_others t now t' r Hp Hgood E Hl).
  - left. split; [done|]. by destruct (timeout_others t now t' r Hp Hgood E Hl).
Qed.

Lemma system_step_ok s s' : system_step s s' -> system_ok s -> live (s_tracker s') -> system_ok s'.
Proof.
  intros Hst [Hw Hc] Hl. destruct (step_kinds s s' Hst Hw (core_shared _ _ Hc) Hl) as (Hw' & Hl0 & H). split; [done|]. destruct H as [[-> Ho]|(r & -> & [(o & E & Ho & Er)|(p & E & Er)])].
  - by eapply core_others.
  - rewrite E in Hc. eapply core_runs; [done|done|]. by apply wp_run, execute_ok.
  - rewrite E in Hc. eapply core_runs; [done|done|]. by apply waiting_run.
Qed.
Lemma system_step_live s s' : system_step s s' -> live (s_tracker s).
Proof. by destruct 1. Qed.

Lemma steps_live s s' : rtc system_step s s' -> live (s_tracker s') -> live (s_tracker s).
Proof. destruct 1; [done|]. intros _. by eapply system_step_live. Qed.
Lemma steps_ok s s' : rtc system_step s s' -> system_ok s -> live (s_tracker s') -> system_ok s'.
Proof.
  induction 1 as [s|s s1 s2 H1 H2 IH]; intros Hs Hl; [done|]. apply IH; [|done]. eapply system_step_ok; [done|done|]. by eapply steps_live.
Qed.

Lemma initial_ok c agg u t : config_typed c -> new_DTEUnit c = Ok u -> agg_typed agg -> new_DteAsyncTracker u agg = Ok t ->
  enabled agg = false \/ fine_grained_resources c = false -> system_ok (mkSystem 0 t None None).
Proof.
  intros Hc Hu Ha Ht Hp. unfold new_DteAsyncTracker in Ht. rewrite (at_valid _ Ha) in Ht. injection Ht as <-.
  destruct (new_DTEUnit_ok c u Hc Hu) as [Hok Ec]. split; [done|]. split; [|unfold prompt; cbn; by rewrite Ec].
  split; cbn; try done; try (intros *; rewrite lookup_empty; done). by rewrite Ec.
Qed.

(** ** Safety *)

Definition no_fault {A} (r : result A) : Prop := match r with Err e => caller_error e | Ok _ => True end.

(** C4: the asynchronous transfers of a core are safe under every interleaving of
    its operations (issue, wait, poll, fence, cancel), the process that flushes
    groups in time, the engine and the engine's other users, when the engine's
    descriptors are unlimited or nothing is collected in groups (with both on, [flush_race]
    reaches a use after free).  No operation, fresh
    or woken, meets a missing token, group or transfer of its own books or a released
    context; the flushing process never waits; two outstanding transfers of which one
    writes scratchpad bytes that the other uses are never both unfinished; a group
    holds tokens staged for its peer and block, in adjacent ranges on both sides and
    within the limits; a transfer counts exactly the tokens bound to it and keeps its
    context; and between operations every outstanding token is in one or the other. *)
Theorem dte_async_safe (c : DTEConfig) (agg : DteAggregationConfig) (u : DTEUnit) (t0 : DteAsyncTracker) (s : dte_system) :
  config_typed c -> new_DTEUnit c = Ok u -> agg_typed agg -> new_DteAsyncTracker u agg = Ok t0 -> enabled agg = false \/ fine_grained_resources c = false ->
  rtc system_step (mkSystem 0 t0 None None) s -> live (s_tracker s) ->
  let t := s_tracker s in
  (forall o, s_core s = None -> op_typed o -> no_fault (run (execute_dte_async o) (s_now s) t)) /\
  (forall p, s_core s = Some p -> no_fault (run p (s_now s) t)) /\
  s_worker s = None /\ no_fault (run timeout_pass (s_now s) t) /\
  (forall token token' r r', token <> token' -> records_ t !! token = Some r -> records_ t !! token' = Some r' -> unfinished t r -> unfinished t r' -> HasHazard r r' = false) /\
  (forall gid g, open_groups_ t !! gid = Some g -> group_ok t gid g) /\
  (forall id b, physical_batches_ t !! id = Some b -> batch_ok t id b) /\
  (s_core s = None -> forall token r, records_ t !! token = Some r -> staged_in t token r \/ bound t r).
Proof.
  intros Hc Hu Ha Ht Hp Hr Hl t. destruct (steps_ok _ _ Hr (initial_ok c agg u t0 Hc Hu Ha Ht Hp) Hl) as [Hw Hcore].
  destruct (core_shared _ _ Hcore) as [[pend Hg] Hpr]. split_and!.
  - intros o E Ho. rewrite E in Hcore. unfold no_fault. pose proof (wp_run _ _ _ _ _ _ _ _ (execute_ok t o (s_now s) Hcore Ho)) as H. by destruct (run _ _ _) as [[? []]|].
  - intros p E. rewrite E in Hcore. unfold no_fault. pose proof (waiting_run _ _ _ _ _ (s_now s) _ _ Hcore Hl) as H. unfold t. by destruct (run _ _ _) as [[? []]|].
  - done.
  - unfold no_fault. destruct (run timeout_pass _ _) eqn:E; [done|]. eapply timeout_errors; [exact Hpr|by exists pend|exact E].
  - by apply (gd_hazard _ _ Hg).
  - by apply (gd_group _ _ Hg).
  - by apply (gd_batch _ _ Hg).
  - intros E token r Hx. rewrite E in Hcore. destruct Hcore as [Hg0 _]. pose proof (gd_rec _ _ Hg0 token r Hx) as H. by rewrite decide_False in H.
Qed.

(** ** The fence ends *)

(** The engine has nothing more to do. *)
Definition settled (u : DTEUnit) : Prop := forall id c, contexts_ u !! id = Some c -> state c = COMPLETED \/ state c = CANCELLED.

Lemma release_settled token now t t' : release_token token now t = Ok (t', tt) -> settled (unit_ t) -> settled (unit_ t').
Proof.
  unfold release_token, Release. intros E Hs. inv_ok. destruct (physical_batches_ t !! r_xfer_id r) as [b|]; [|done].
  destruct (b_remaining_tokens b =? 0); cbn [throw_if mbind result_bind] in E; [done|]. destruct (negb (b_remaining_tokens b - 1 =? 0)); [by injection E as <-|].
  destruct (contexts_ (unit_ t) !! r_xfer_id r) as [c|]; [|done]. destruct (negb _ && negb _); [done|]. cbn in E. injection E as <-. cbn.
  intros id x Hx. cbn in Hx. apply lookup_delete_Some in Hx as [_ Hx]. by apply (Hs id).
Qed.

(** The rest of a fence that waits for the transfer of a token. *)
Definition fence_rest (token id : Z) (l : list (Z * Z)) : tproc unit :=
  Await (done_event id) (proc_bind_def (fun _ => each_do fence_token l) (proc_bind_def (fun _ => act (release_token token)) (act (check_done token)))).
(** Nothing is staged, and the outstanding tokens are among those still to be waited for. *)
Definition fencing (l : list (Z * Z)) (t : DteAsyncTracker) : Prop :=
  between t /\ forall x r, records_ t !! x = Some r -> r_staged r = false /\ x ∈ l.*2.
Definition fence_at (token id : Z) (l : list (Z * Z)) (t : DteAsyncTracker) : Prop :=
  between t /\ (forall x r, records_ t !! x = Some r -> r_staged r = false /\ (x = token \/ x ∈ l.*2)) /\ exists r, records_ t !! token = Some r /\ r_xfer_id r = id.
Definition fence_waits (p : tproc unit) (t : DteAsyncTracker) : Prop := exists token id l, p = fence_rest token id l /\ fence_at token id l t.

(** What a run of a fence gives: an empty tracker, or a wait that a settled engine does not cause. *)
Definition fence_run (t : DteAsyncTracker) (res : result (DteAsyncTracker * (unit + tproc unit))) : Prop :=
  match res with
  | Ok (t', inl _) => between t' /\ records_ t' = ∅
  | Ok (t', inr p) => ~ settled (unit_ t) /\ fence_waits p t'
  | Err _ => False
  end.
Lemma fence_run_mono t t' res : (settled (unit_ t) -> settled (unit_ t')) -> fence_run t' res -> fence_run t res.
Proof. intros H. unfold fence_run. destruct res as [[t2 []]|]; [done| |done]. intros [H1 H2]. split; [tauto|done]. Qed.

Lemma run_fence_rest token id l now t : (forall t, fencing l t -> fence_run t (run (each_do fence_token l) now t)) -> fence_at token id l t ->
  fence_run t (run (fence_rest token id l) now t).
Proof.
  intros IH (Hb & Hall & r & Hr & <-). destruct Hb as [Hg Hp]. destruct (Hall token r Hr) as [Hs _].
  destruct (token_context t token r Hg Hr Hs) as (c & b & E1 & E2 & E3 & _). unfold fence_rest. cbn [run]. unfold done_event. rewrite (is_completed_ok _ _ _ E2). cbn [mbind result_bind].
  destruct (decide (state c = COMPLETED)) as [Hst|Hst].
  - rewrite bool_decide_true by done.
    assert (run (act (check_done token)) now t = Ok (t, inl tt)) as Ec by (rewrite run_act; unfold check_done; rewrite Hr, E1, (is_completed_ok _ _ _ E2); cbn; by rewrite bool_decide_true).
    destruct (release_token_ok t token now Hg) as (t' & Er & G1 & G2 & G3 & G4 & _); [by exists r, (r_xfer_id r), c|].
    change (fence_run t (run (((act (check_done token)) ≫= fun _ => act (release_token token)) ≫= fun _ => each_do fence_token l) now t)).
    rewrite run_bind, run_bind, Ec, run_act, Er. eapply fence_run_mono; [by apply (release_settled token now t t')|]. apply IH.
    split; [split; [done|unfold prompt in *; by rewrite G3, G4]|]. intros x rx Hx. rewrite G2 in Hx. apply lookup_delete_Some in Hx as [Hn Hx].
    destruct (Hall x rx Hx) as [A1 [->|A2]]; done.
  - rewrite bool_decide_false by done. split.
    + intros Hset. by destruct (Hset _ _ E2).
    + exists token, (r_xfer_id r), l. split; [done|]. split; [done|]. split; [done|]. by exists r.
Qed.

Lemma run_fence_tokens l now t : fencing l t -> fence_run t (run (each_do fence_token l) now t).
Proof.
  revert t; induction l as [|e l IH]; intros t [Hb Hall].
  - cbn. split; [done|]. apply map_eq. intros x. rewrite lookup_empty. destruct (records_ t !! x) as [r|] eqn:E; [|done]. destruct (Hall x r E) as [_ Hx]. by apply elem_of_nil in Hx.
  - cbn [each_do]. destruct (records_ t !! e.2) as [r|] eqn:Hr.
    + destruct (Hall _ _ Hr) as [Hs _]. pose proof (context_of_ok t e.2 r (proj1 Hb) Hr Hs) as Ec.
      assert (run (fence_token e ≫= fun _ => each_do fence_token l) now t = run (fence_rest e.2 (r_xfer_id r) l) now t) as ->.
      { unfold fence_token, WaitAndRelease, WaitForCompletion. cbn [mbind proc_bind proc_bind_def look run]. rewrite Hr. cbn [look proc_bind_def run]. rewrite Hr. cbn [look proc_bind_def run]. rewrite Hr.
        match goal with |- context [flush_staged r] => replace (flush_staged r) with (Ret (S := DteAsyncTracker) tt) by (unfold flush_staged; by rewrite Hs) end. cbn [mbind proc_bind proc_bind_def look act run]. rewrite Ec. done. }
      apply run_fence_rest; [done|]. split; [done|]. split; [|by exists r]. intros x rx Hx. destruct (Hall x rx Hx) as [A1 A2]. split; [done|].
      cbn in A2. by apply elem_of_cons in A2 as [->|A2]; [left|right].
    + assert (run (fence_token e ≫= fun _ => each_do fence_token l) now t = run (each_do fence_token l) now t) as ->.
      { rewrite run_bind. unfold fence_token. rewrite run_look, Hr. done. }
      apply IH. split; [done|]. intros x rx Hx. destruct (Hall x rx Hx) as [A1 A2]. split; [done|]. cbn in A2. apply elem_of_cons in A2 as [->|A2]; [congruence|done].
Qed.

Definition nothing (t : DteAsyncTracker) : Prop := OutstandingTokens t = [] /\ open_groups_ t = ∅ /\ physical_batches_ t = ∅.
Lemma nothing_outstanding t : between t -> records_ t = ∅ -> nothing t.
Proof.
  intros [Hg _] Hr. destruct (nothing_left t Hg Hr) as (H1 & H2 & _). split; [|done]. unfold OutstandingTokens, tokens_in_order. by rewrite Hr, map_to_list_empty.
Qed.

Lemma flush_all_groups t now : between t -> Direct FlushAllOpenGroups now t (fun _ t' => fencing (tokens_in_order t') t').
Proof.
  intros [Hg Hp]. unfold FlushAllOpenGroups. apply direct_look. eapply direct_mono; [by apply flush_groups_ok|]. intros _ s (H1 & H2 & H3 & _).
  assert (open_groups_ s = ∅) as He.
  { apply map_eq. intros gid. rewrite lookup_empty. destruct (open_groups_ s !! gid) as [g|] eqn:E; [|done]. destruct (H3 gid) as [[g0 G1] G2]; [by exists g|]. destruct G2. by eapply all_groups_in_order. }
  split; [split; [done|by eapply prompt_keeps]|]. intros x r Hx. split.
  - pose proof (gd_rec _ _ H1 x r Hx) as H. rewrite decide_False in H by done. destruct H as [(_ & _ & g & Hgr & _)|(H & _)]; [by rewrite He in Hgr|done].
  - unfold tokens_in_order. rewrite merge_sort_Permutation. apply list_elem_of_fmap. exists (r_issue_sequence r, x). split; [done|].
    apply list_elem_of_fmap. exists (x, r). split; [done|]. by apply elem_of_map_to_list.
Qed.

Lemma fence_starts t now t1 r : between t -> run Fence now t = Ok (t1, r) -> live t1 ->
  match r with inl _ => nothing t1 | inr p => fence_waits p t1 end.
Proof.
  intros Hb E Hl. unfold Fence in E. rewrite run_bind in E. pose proof (flush_all_groups t now Hb) as Hd. apply direct_run in Hd.
  destruct (run FlushAllOpenGroups now t) as [[s o]|]; [|done]. destruct o as [a|p]; [|injection E as <- <-; by destruct Hd].
  rewrite run_look in E. pose proof (run_fence_tokens _ now s Hd) as H. rewrite E in H. destruct r as [[]|p]; cbn in H; [destruct H; by apply nothing_outstanding|by destruct H].
Qed.

Lemma fence_others p t t' : fence_waits p t -> others t t' -> fence_waits p t'.
Proof.
  intros (token & id & l & -> & Hb & Hall & r & Hr & Hid) Ho. pose proof (ot_keeps _ _ Ho (ex_intro _ None (proj1 Hb))) as Hk.
  assert (forall x rx, records_ t !! x = Some rx -> records_ t' !! x = Some rx) as Hsame.
  { intros x rx Hx. destruct (Hall x rx Hx) as [Hs _]. pose proof (kp_rec _ _ Hk x) as H. rewrite Hx in H. destruct (records_ t' !! x); [|done]. destruct H as [->|(H & _)]; [done|congruence]. }
  exists token, id, l. split; [done|]. split; [split; [apply Ho, Hb|eapply prompt_keeps; [exact Hk|apply Hb]]|]. split; [|exists r; auto].
  intros x rx Hx. pose proof (kp_rec _ _ Hk x) as H. destruct (records_ t !! x) as [r0|] eqn:E; [|by rewrite Hx in H]. rewrite (Hsame x r0 E) in Hx. injection Hx as <-. by apply Hall.
Qed.

Definition fence_state (s : dte_system) : Prop :=
  s_worker s = None /\ match s_core s with Some p => fence_waits p (s_tracker s) | None => nothing (s_tracker s) end.

Lemma fence_wakes p now t : fence_waits p t -> fence_run t (run p now t).
Proof. intros (token & id & l & -> & H). apply run_fence_rest; [|done]. intros t'. apply run_fence_tokens. Qed.

Lemma fence_step s s' : system_step s s' -> fence_state s -> s_core s <> None -> live (s_tracker s') -> fence_state s'.
Proof.
  intros Hst [Hw Hc] Hn Hl. destruct (s_core s) as [p|] eqn:Ep; [|done]. assert (shared (s_tracker s)) as Hsh by (destruct Hc as (? & ? & ? & _ & Hb & _); by apply between_shared).
  destruct (step_kinds s s' Hst Hw Hsh Hl) as (Hw' & _ & H). split; [done|]. destruct H as [[-> Ho]|(r & -> & [(o & E & _)|(p' & E & Er)])]; [|congruence|].
  - rewrite Ep. by eapply fence_others.
  - assert (p' = p) as -> by congruence. pose proof (fence_wakes p (s_now s) _ Hc) as H. rewrite Er in H. destruct r as [[]|p']; cbn in *; [destruct H; by apply nothing_outstanding|by destruct H].
Qed.

(** Steps after which the core's operation has not returned. *)
Definition still_waits (s s' : dte_system) : Prop := system_step s s' /\ s_core s' <> None.
Lemma fence_steps s s' : rtc still_waits s s' -> fence_state s -> s_core s <> None -> live (s_tracker s') -> fence_state s' /\ s_core s' <> None.
Proof.
  induction 1 as [s|s s1 s2 [H1 H1'] H2 IH]; intros Hs Hn Hl; [done|]. apply IH; [|done|done]. eapply fence_step; [done|done|done|].
  destruct H2 as [|? ? ? [H2 _] _]; [done|]. by eapply system_step_live.
Qed.

(** C5: when the engine's descriptors are unlimited or nothing is collected in groups, a fence
    returns with no transfer outstanding, no group open and no transfer
    bound, and it does return: started between the core's operations in any reachable
    state, it waits only for the engine, so that after whatever the other processes
    have done meanwhile, when the engine has run until its work is done, waking the
    core lets the fence return at once. *)
Theorem dte_fence_ends (c : DTEConfig) (agg : DteAggregationConfig) (u : DTEUnit) (t0 t1 : DteAsyncTracker) (s : dte_system) (r : unit + tproc unit) :
  config_typed c -> new_DTEUnit c = Ok u -> agg_typed agg -> new_DteAsyncTracker u agg = Ok t0 -> enabled agg = false \/ fine_grained_resources c = false ->
  rtc system_step (mkSystem 0 t0 None None) s -> live (s_tracker s) -> s_core s = None -> run Fence (s_now s) (s_tracker s) = Ok (t1, r) -> live t1 ->
  match r with
  | inl _ => nothing t1
  | inr p => forall s2, rtc still_waits (mkSystem (s_now s) t1 (Some p) (s_worker s)) s2 -> live (s_tracker s2) ->
      (forall s3, system_step s2 s3 -> s_core s3 = None -> live (s_tracker s3) -> nothing (s_tracker s3)) /\
      exists p2 now u' t3, s_core s2 = Some p2 /\ drain (Z.to_nat (measure (unit_ (s_tracker s2))) + 2) (s_now s2) (unit_ (s_tracker s2)) = Ok (now, u') /\
        run p2 now (set_unit u' (s_tracker s2)) = Ok (t3, inl tt) /\ nothing t3
  end.
Proof.
  intros Hc Hu Ha Ht Hp Hr Hl Hidle E Hl1. destruct (steps_ok _ _ Hr (initial_ok c agg u t0 Hc Hu Ha Ht Hp) Hl) as [Hw Hcore]. rewrite Hidle in Hcore.
  pose proof (fence_starts _ _ _ _ Hcore E Hl1) as H. destruct r as [a|p]; [done|]. intros s2 Hrs Hl2.
  destruct (fence_steps _ _ Hrs) as [Hs2 Hn]; [by split|done|done|]. split.
  - intros s3 Hst Hn3 Hl3. destruct (fence_step s2 s3 Hst Hs2 Hn Hl3) as [_ H3]. by rewrite Hn3 in H3.
  - destruct Hs2 as [_ H2]. destruct (s_core s2) as [p2|]; [|done]. assert (between (s_tracker s2)) as [Hg Hpr] by (by destruct H2 as (? & ? & ? & _ & Hb & _)).
    destruct (drain_ok (Z.to_nat (measure (unit_ (s_tracker s2))) + 2) (s_now s2) (unit_ (s_tracker s2)) (gd_typed _ _ Hg) (gd_unit _ _ Hg)) as (now & u' & Ed & Hok & He & _ & Hdr);
      [pose proof (measure_nonneg (unit_ (s_tracker s2))); lia|].
    assert (fence_waits p2 (set_unit u' (s_tracker s2))) as H3 by (eapply fence_others; [done|]; apply unit_others; intros; by apply evolves_moves).
    pose proof (fence_wakes p2 now _ H3) as H4. assert (settled u') as Hset by (by destruct Hdr as (_ & _ & _ & _ & Hset)).
    destruct (run p2 now (set_unit u' (s_tracker s2))) as [[t3 [[]|p3]]|] eqn:E3; cbn in H4; [|by destruct H4|done].
    exists p2, now, u', t3. destruct H4. split_and!; [done|done|done|by apply nothing_outstanding].
Qed.

(** ** Examples *)

Definition run_to {A} (p : tproc A) (now : Z) (t : DteAsyncTracker) : DteAsyncTracker * option (tproc A) :=
  match run p now t with Ok (t', r) => (t', still r) | Err _ => (t, None) end.

(** Two command slots and one queued descriptor, groups of up to four descriptors and 256 bytes. *)
Definition ex_race_config : DTEConfig := mkDTEConfig 1 2048 20 1 true 2 1 1024 1024 512 512 true.
Definition ex_agg : DteAggregationConfig := mkAgg true 4 256 10 4096.
Definition ex_tracker (c : DTEConfig) : result DteAsyncTracker := new_DTEUnit c ≫= fun u : DTEUnit => new_DteAsyncTracker u ex_agg.
(** Tokens of 512 bytes, and of 64 bytes. *)
Definition ex_large (token addr : Z) : core_op := ISSUE (mkRequest token 4096 SPM_TO_REMOTE addr 512 7 addr 0).
Definition ex_small (token addr : Z) : core_op := ISSUE (mkRequest token 512 SPM_TO_REMOTE addr 64 7 addr 0).
Definition ex_issue (t : DteAsyncTracker) (o : core_op) : DteAsyncTracker := (run_to (execute_dte_async o) 0 t).1.

(** Three large tokens take all credits and a small one is staged; the core waits for
    it, and meanwhile the time of its group comes. *)
Definition ex_race : result (DteAsyncTracker * (unit + tproc unit)) :=
  ex_tracker ex_race_config ≫= fun t0 : DteAsyncTracker =>
  let t1 := foldl ex_issue t0 [ex_large 1 0; ex_large 2 512; ex_large 3 1024; ex_small 4 2048] in
  let '(t2, core) := run_to (execute_dte_async (WAIT 4)) 0 t1 in
  let '(t3, worker) := run_to timeout_pass (10 * CYCLE) t2 in
  drain 100 (10 * CYCLE) (unit_ t3) ≫= fun '((now, u4) : Z * DTEUnit) =>
  let t5 := (run_to (default (Ret tt) core) now (set_unit u4 t3)).1 in
  run (default (Ret tt) worker) now t5.
(** When engines with a limit on descriptors collect groups, a wait and the flushing process can
    both wait for a credit to issue the same group: it is issued twice and removed twice. *)
Example flush_race : ex_race = Err use_after_free.
Proof. by vm_compute. Qed.

Definition ex_coarse : DTEConfig := mkDTEConfig 1 2048 20 1 false 2 1 1024 1024 512 512 true.
Lemma ex_coarse_typed : config_typed ex_coarse.
Proof. split; apply (bool_decide_unpack _); by vm_compute. Qed.
Lemma ex_agg_typed : agg_typed ex_agg.
Proof. split; [|vm_compute; split; discriminate|reflexivity]. by vm_compute. Qed.

(** A small token is staged in a group. *)
Lemma dte_async_safe_witness : exists u t0 t1 r, new_DTEUnit ex_coarse = Ok u /\ new_DteAsyncTracker u ex_agg = Ok t0 /\
  run (execute_dte_async (ex_small 4 2048)) 0 t0 = Ok (t1, inl tt) /\ records_ t1 !! 4 = Some r /\ staged_in t1 4 r.
Proof.
  destruct (new_DTEUnit ex_coarse) as [u|] eqn:Eu; [|by vm_compute in Eu].
  destruct (new_DteAsyncTracker u ex_agg) as [t0|] eqn:Et; [|vm_compute in Eu; injection Eu as <-; by vm_compute in Et].
  destruct (run (execute_dte_async (ex_small 4 2048)) 0 t0) as [[t1 o]|] eqn:E1; [|exfalso; vm_compute in Eu; injection Eu as <-; vm_compute in Et; injection Et as <-; by vm_compute in E1].
  assert (o = inl tt /\ live t0 /\ live t1 /\ exists r, records_ t1 !! 4 = Some r /\ r_staged r = true) as (-> & Hl0 & Hl1 & r & Hr & Hs).
  { vm_compute in Eu; injection Eu as <-. vm_compute in Et; injection Et as <-. vm_compute in E1; injection E1 as <- <-. split; [done|]. split; [by vm_compute|]. split; [by vm_compute|].
    eexists. split; by vm_compute. }
  assert (rtc system_step (mkSystem 0 t0 None None) (mkSystem 0 t1 None None)) as Hr1.
  { apply rtc_once. apply (sys_core_start 0 t0 None (ex_small 4 2048) t1 (inl tt)); [done| |done]. repeat split; by vm_compute. }
  destruct (dte_async_safe ex_coarse ex_agg u t0 _ ex_coarse_typed Eu ex_agg_typed Et (or_intror eq_refl) Hr1 Hl1) as (_ & _ & _ & _ & _ & _ & _ & Hend).
  exists u, t0, t1, r. split_and!; try done. destruct (Hend eq_refl 4 r Hr) as [?|[Hn _]]; [done|congruence].
Defined.

(** A fence flushes the token's group, waits for the transfer, and ends when the engine is done. *)
Lemma dte_fence_ends_witness : exists u t0 t1 t2 p now u' t3, new_DTEUnit ex_coarse = Ok u /\ new_DteAsyncTracker u ex_agg = Ok t0 /\
  run (execute_dte_async (ex_small 4 2048)) 0 t0 = Ok (t1, inl tt) /\ run Fence 0 t1 = Ok (t2, inr p) /\
  drain (Z.to_nat (measure (unit_ t2)) + 2) 0 (unit_ t2) = Ok (now, u') /\ run p now (set_unit u' t2) = Ok (t3, inl tt) /\ nothing t3.
Proof.
  destruct (new_DTEUnit ex_coarse) as [u|] eqn:Eu; [|by vm_compute in Eu].
  destruct (new_DteAsyncTracker u ex_agg) as [t0|] eqn:Et; [|vm_compute in Eu; injection Eu as <-; by vm_compute in Et].
  destruct (run (execute_dte_async (ex_small 4 2048)) 0 t0) as [[t1 o]|] eqn:E1; [|exfalso; vm_compute in Eu; injection Eu as <-; vm_compute in Et; injection Et as <-; by vm_compute in E1].
  destruct (run Fence 0 t1) as [[t2 r]|] eqn:E2; [|exfalso; vm_compute in Eu; injection Eu as <-; vm_compute in Et; injection Et as <-; vm_compute in E1; injection E1 as <- <-; by vm_compute in E2].
  assert (o = inl tt /\ live t0 /\ live t1 /\ live t2 /\ exists p, r = inr p) as (-> & Hl0 & Hl1 & Hl2 & p & ->).
  { vm_compute in Eu; injection Eu as <-. vm_compute in Et; injection Et as <-. vm_compute in E1; injection E1 as <- <-. vm_compute in E2. injection E2 as <- <-.
    split; [done|]. split; [by vm_compute|]. split; [by vm_compute|]. split; [by vm_compute|]. by eexists. }
  assert (rtc system_step (mkSystem 0 t0 None None) (mkSystem 0 t1 None None)) as Hr1.
  { apply rtc_once. apply (sys_core_start 0 t0 None (ex_small 4 2048) t1 (inl tt)); [done| |done]. repeat split; by vm_compute. }
  pose proof (dte_fence_ends ex_coarse ex_agg u t0 t2 (mkSystem 0 t1 None None) (inr p) ex_coarse_typed Eu ex_agg_typed Et (or_intror eq_refl) Hr1 Hl1 eq_refl E2 Hl2) as H.
  destruct (H _ (rtc_refl _ _) Hl2) as [_ (p2 & now & u' & t3 & [= <-] & Ed & Er & Hn)]. exists u, t0, t1, t2, p, now, u', t3. done.
Defined.

(** ** What a hazard is *)

Definition in_bytes (a n x : Z) : Prop := a <= x < a + n.
(** The scratchpad bytes that a request reads and writes. *)
Definition spm_reads (q : request) (x : Z) : Prop :=
  match q_dir q with SPM_TO_REMOTE | SPM_TO_DRAM | SPM_TO_SPM => in_bytes (q_spm_addr q) (q_spm_size q) x | _ => False end.
Definition spm_writes (q : request) (x : Z) : Prop :=
  match q_dir q with
  | REMOTE_TO_SPM | DRAM_TO_SPM => in_bytes (q_spm_addr q) (q_spm_size q) x
  | SPM_TO_SPM => in_bytes (q_remote_addr q) (q_spm_size q) x
  | _ => False
  end.

Lemma overlaps_bytes a n b m : 0 <= n -> 0 <= m -> 0 <= a -> 0 <= b -> a + n <= UINT64_MAX -> b + m <= UINT64_MAX ->
  RangeOverlaps a n b m = true <-> exists x, in_bytes a n x /\ in_bytes b m x.
Proof.
  intros. unfold RangeOverlaps, in_bytes. rewrite !u64_id by (unfold UINT64_MAX in *; lia). split.
  - intros H'. destruct (_ || _) eqn:E; [done|]. exists (Z.max a b). lia.
  - intros (x & Hx & Hy). destruct (_ || _) eqn:E; lia.
Qed.

(** The ranges of an accepted request do not wrap. *)
Lemma validated_ranges t q : op_typed (ISSUE q) -> ValidateIssue t q = Ok tt ->
  (q_dir q <> DRAM_TO_REMOTE -> q_spm_addr q + q_spm_size q <= UINT64_MAX) /\ (q_dir q = SPM_TO_SPM -> q_remote_addr q + q_spm_size q <= UINT64_MAX).
Proof.
  intros (_ & Hsa & Hss & Hra & _) Hv. unfold in_u in *. unfold ValidateIssue in Hv. inv_ok. split_guards. split.
  - intros Hd. unfold is_dir in *. rewrite (bool_decide_false (q_dir q = DRAM_TO_REMOTE)) in * by done. inv_ok. split_guards. lia.
  - intros Hd. unfold is_dir in *. rewrite Hd in *. rewrite (bool_decide_true (SPM_TO_SPM = SPM_TO_SPM)) in * by done. cbn in *. lia.
Qed.

Lemma record_ranges t q seq : op_typed (ISSUE q) -> ValidateIssue t q = Ok tt -> let r := new_record q seq in
  0 <= r_spm_read_size r /\ 0 <= r_spm_read_addr r /\ r_spm_read_addr r + r_spm_read_size r <= UINT64_MAX /\
  0 <= r_spm_write_size r /\ 0 <= r_spm_write_addr r /\ r_spm_write_addr r + r_spm_write_size r <= UINT64_MAX.
Proof.
  intros Hq Hv. destruct (validated_ranges t q Hq Hv) as [H1 H2]. destruct Hq as (_ & Hsa & Hss & Hra & _). unfold in_u in *. cbn. unfold write_range, UINT64_MAX in *.
  destruct (q_dir q); cbn; try specialize (H1 ltac:(done)); try specialize (H2 eq_refl); lia.
Qed.
Lemma reads_range q seq x : in_bytes (r_spm_read_addr (new_record q seq)) (r_spm_read_size (new_record q seq)) x <-> spm_reads q x.
Proof. unfold spm_reads, in_bytes. cbn. destruct (q_dir q); cbn; lia. Qed.
Lemma writes_range q seq x : in_bytes (r_spm_write_addr (new_record q seq)) (r_spm_write_size (new_record q seq)) x <-> spm_writes q x.
Proof. unfold spm_writes, in_bytes, write_range. cbn. unfold write_range. destruct (q_dir q); cbn; lia. Qed.

(** C16: the hazard test on 64-bit ranges finds exactly the conflicts between two accepted
    requests: it holds when one of them writes a scratchpad byte that the other reads or
    writes, and only then. *)
Theorem hazard_bytes (t t' : DteAsyncTracker) (q q' : request) (seq seq' : Z) :
  op_typed (ISSUE q) -> op_typed (ISSUE q') -> ValidateIssue t q = Ok tt -> ValidateIssue t' q' = Ok tt ->
  HasHazard (new_record q seq) (new_record q' seq') = true <->
  exists x, spm_writes q x /\ (spm_reads q' x \/ spm_writes q' x) \/ spm_reads q x /\ spm_writes q' x.
Proof.
  intros Hq Hq' Hv Hv'. destruct (record_ranges t q seq Hq Hv) as (A1 & A2 & A3 & A4 & A5 & A6). destruct (record_ranges t' q' seq' Hq' Hv') as (B1 & B2 & B3 & B4 & B5 & B6).
  unfold HasHazard. rewrite !orb_true_iff, !overlaps_bytes by done. setoid_rewrite (reads_range q seq). setoid_rewrite (writes_range q seq).
  setoid_rewrite (reads_range q' seq'). setoid_rewrite (writes_range q' seq'). naive_solver.
Qed.

Lemma hazard_bytes_witness : exists t, ex_tracker ex_coarse = Ok t /\
  let q := mkRequest 4 512 SPM_TO_REMOTE 2048 64 7 0 0 in let q' := mkRequest 5 512 REMOTE_TO_SPM 2048 64 7 0 0 in
  ValidateIssue t q = Ok tt /\ ValidateIssue t q' = Ok tt /\ HasHazard (new_record q 0) (new_record q' 1) = true.
Proof.
  destruct (ex_tracker ex_coarse) as [t|] eqn:Et; [|by vm_compute in Et]. exists t. split; [done|]. intros q q'.
  assert (ValidateIssue t q = Ok tt /\ ValidateIssue t q' = Ok tt) as [H1 H2] by (vm_compute in Et; injection Et as <-; split; by vm_compute).
  split; [done|]. split; [done|]. apply (hazard_bytes t t q q' 0 1); [repeat split; by vm_compute|repeat split; by vm_compute|done|done|].
  exists 2048. right. split; vm_compute; split; congruence.
Defined.
